(* ===== verification/_CoqProject ===== *)
-Q . S2P
Prelude.v
Text.v
ShmRing.v
MonitorIpc.v
ShmHandshake.v
FdRemap.v
Rdma.v
Config.v
Log.v
Metrics.v
ShmSegment.v
Monitor.v
ShmConn.v
DataPath.v
FdHooks.v
LibMetrics.v
Preload.v
ZeroCopy.v
Ctl.v
DArray.v
AdjList.v
LocklessQueue.v
Metaqueue.v
IpBuffer.v
Interprocess.v
ProtoMonitor.v
MonitorPorts.v
MonitorRun.v
ProtoFd.v
ProtoSock.v
ProtoTables.v
ProtoCalls.v
ProtoPoll.v
ProtoLib.v
ProtoStream.v
ProtoHandshake.v
ProtoPair.v
QueueV2.v
QueueV3.v
RdmaQueue.v
RdmaConn.v
KernelPages.v
DaemonRun.v
KernelModule.v
RdmaSetup.v
PotRdma.v
