(* ===== verification/Prelude.v ===== *)
(** * SocksDirect: a verification library

    SocksDirect replaces the loopback TCP connections of unmodified programs by
    byte streams in shared memory.  A preload library (libsd, [src/lib]) hooks
    the socket calls of a process.  For each new connection it asks a daemon
    (the monitor, [src/monitor]) over a Unix-domain socket for a key; the two
    processes get the same key and opposite roles, map one segment under a name
    made from it, and from then on move their data through two rings in the
    segment, sleeping on futex words in its header.  A command-line tool talks
    to the daemon; a kernel module, its client and a mock serve zero-copy
    pages; an RDMA module sets up queue pairs for remote peers.  Paths below
    are relative to the repository's root.

    ** Files

    - [Prelude] (this file): machine integers, memory, strings, error numbers,
      tactics and hint databases.  [Text]: numbers as text, as [printf] and
      [strtoull] treat them.
    - [ShmRing]: [include/socksdirect/shm_ring.hpp].  [Ring] has the functions
      of the template, [Spsc] the same code as single loads, byte copies and
      stores of two processes.  The class [RingSize] states what the template
      requires of its size; the clients are proved against it.
    - [MonitorIpc]: [monitor_ipc.hpp], the JSON codec and the I/O helpers.
    - [ShmHandshake]: [shm_handshake.hpp], the daemon's registry of keys.
    - [FdRemap]: [fd_remap.hpp], the table of virtual descriptors.
    - [Rdma]: [rdma/qp_info.hpp] and [src/lib/rdma/conn.cpp].
    - [Config], [Log], [Metrics]: the headers of these names.
    - [ShmSegment]: [shm_segment.hpp]; [Layout], the protocol [Attach], where a
      segment of the same name may be left from before, [Wait].
    - [Monitor]: the control operations and connections of
      [src/monitor/main.cpp]; uses the codec, registry and metrics.
      [DaemonRun]: the rest of that file, from the command line through the
      event loop, with its index over the poll set, to the shutdown, as the
      sequence of system calls.
    - [ShmConn]: [src/lib/shm_conn.cpp]; the client's half of the rendezvous,
      the connection registry and the watchdog.
    - [DataPath]: [shm_send], [shm_recv] and their callers in
      [src/lib/socket_api.cpp] ([Calls]) and the futex protocol ([Wake]).
    - [FdHooks]: the hooks of [socket_api.cpp], [file_api.cpp], [poll_api.cpp].
    - [LibMetrics]: [metrics_dump.cpp].  [Preload]: [preload.cpp] and
      [process_api.cpp].
    - [ZeroCopy]: the kernel module, its client and its mock.  [KernelModule]:
      its [ioctl] numbers and dispatch, several open files and threads, with
      other calls between the look-up and the installation of a page, loading
      and unloading.
    - [Ctl]: [tools/socksdirect-ctl.cpp].

    The first prototype, which the code above replaces, is in the directories
    [common], [lib], [monitor] and [zerocopy].
    - [DArray], [AdjList]: [common/darray.hpp] and [adjlist_t.hpp], the
      containers of the prototype's tables.
    - [LocklessQueue]: [locklessqueue_n.hpp], the functions and the two
      processes one memory access at a time.
    - [Metaqueue]: [metaqueue.h], the queues between a process and the monitor.
    - [IpBuffer], [Interprocess]: [interprocess_t.cpp], [interprocess_t_n.hpp];
      the block buffer, and a connection as two queues and two such buffers.
    - [ProtoMonitor]: all of [monitor/*.cpp] as computations on the monitor's
      state, with a logic for their results; the credits of each queue are
      part of it, and a push to a full queue does not return.  [MonitorPorts] has the abstract
      table of ports the handlers implement, [MonitorRun] the invariant of the
      whole state and the runs of the monitor.
    - [ProtoFd]: the table of virtual descriptors.  [ProtoSock]: the rest of
      [lib/socket_lib.cpp] and [file_lib.cpp], as computations on a thread's
      state and the shared memory; what other processes do meanwhile is an
      argument.  [ProtoPoll]: [lib/poll_lib.cpp].  [ProtoLib]: thread
      creation and [fork] of [lib/lib.cpp].
    - [ProtoTables]: the invariant that ties the two descriptor tables together.
      [ProtoCalls]: the error paths.  [ProtoStream]: a logic for the calls, and
      what [read], [write] and the readiness check do at one end of a
      connection.  [ProtoHandshake]: the same for [accept4] and [connect].
      [ProtoPair]: two threads at the ends of one connection.
    - [QueueV2], [QueueV3]: [locklessq_v2.hpp], whose ring holds the payloads
      too, byte by byte, and [locklessq_v3.hpp], a queue of two blocks.
    - [RdmaQueue]: [locklessq_v2_rdma.hpp] and the flow control of
      [common/rdma.cpp]; the verbs library is an argument.  [RdmaConn]: the
      RDMA connection of [interprocess_t_n.hpp].
    - [KernelPages]: [zerocopy/linux/mm/socksdirect.c] and [lib/zerocopy.h],
      the system calls that exchange page frames, and their use by
      [lib/socket_lib.cpp]; the walk of the page tables is an argument, their
      entries are the state.
    - [RdmaSetup]: [common/rdma.cpp] (devices and queue pairs),
      [lib/rdma_lib.cpp], [lib/setup_sock_lib.cpp] and the set-up half of
      [monitor/rdma_monitor.cpp] and [setup_sock_monitor.cpp].
    - [PotRdma]: the stream over RDMA of [lib/pot_socket_lib.cpp], with the page
      frames of both processes and the RDMA writes byte by byte.

    ** Conventions

    A class is a record with the source's field names, a method a function that
    returns the new record.  An unsigned word is a [Z] reduced with [uwrap]
    where the code can wrap.  What the system answers (results of system calls,
    time, random numbers, actions of the other process) is an argument, usually
    a list consumed from the front; [None] then means that the list ended
    while the code was still running.  Operations under a mutex are atomic.
    Lock-free code is a step relation with one shared access per step, under
    sequential consistency: the acquire and release orders of the source are
    not modelled below that.

    ** What the theorems show

    - Streams: the ring is a bounded queue of bytes, through wrap-around of
      the 64-bit counters and in every interleaving ([send_some_refines],
      [recv_some_refines], [spsc_stream], [send_some_is_run]); end of file
      comes after the last byte ([spsc_eof_complete]); the library's calls
      lose, repeat and reorder nothing ([shm_send_exact], [shm_recv_exact],
      [shm_send_completes]); no wake-up is lost ([no_lost_wakeup],
      [stream_complete]).
    - Rendezvous: both ends get one key and opposite roles, in the registry
      ([handshake_agreement], [keys_unique]) and through client, codec and
      daemon ([rendezvous]); set-up and tear-down of the segment
      ([attach_published], also next to a leaked segment,
      [creator_upgrade_safe], [no_leak], [wait_for_peer_bounded]); dead peers ([sweep_exact]).
    - Control plane: [request_roundtrip], [message_transport],
      [decode_terminates], [drain_chunking], [event_loop_consistent],
      [ctl_transparent]; a round of the event loop serves every ready
      descriptor once ([round_serves_once]) and the daemon leaves nothing
      behind ([daemon_tidy]).
    - Descriptors: [table_refines_map], [refcount_exact],
      [reverse_and_live_exact], [descriptors_tidy].
    - Support: [load_print], [sinks_balanced], [no_lost_update],
      [histogram_exact], [close_preserves_totals], [snapshot_atomic].
    - Devices: [no_page_leak]; a file reaches only its own pages, also with
      interleaved calls, unless it frees one while mapping it
      ([module_isolates]); a mapping that is not interrupted is the whole call
      ([flight_completes]); [load_unload], [alloc_free_once],
      [mock_simulates_device],
      [qp_info_roundtrip], [decode_qp_info_exact], [rdma_exchange].

    - Prototype: [darray_refines_map], [adjlist_refines]; the queue is a list
      and stays one in every interleaving ([lockless_refines_list],
      [lockless_stream], [lockless_calls], [lockless_credit_bounds]); bytes
      arrive unchanged and no block is lost ([buffer_transfer],
      [interprocess_transfer], [longmsg_roundtrip]); objects in the segments do not overlap
      ([metaqueue_layout], [interprocess_layout]); the monitor, as long as the
      processes take their messages ([ports_refine], [connect_round_robin],
      [monitor_safe], [rdma_relay], [takeover_reaches_peer]).
    - Library of the prototype: descriptors are a map ([proto_fd_refines]) and
      the two tables agree on them ([tables_in_step]); [accept4] and [connect]
      lead in either order to a connection ([proto_handshake]), on which the
      reads of one thread are the writes of the other, for writes below 16 KiB
      ([proto_stream]); what each call does on a descriptor that is not in use
      ([bad_descriptor]); [epoll_wait] returns what
      the kernel has ([epoll_system_ready]); new threads and processes announce
      their listening sockets ([child_relistens]).
    - Set-up of RDMA: library and remote monitor end with queue pairs connected
      to each other and matching addresses ([remote_setup]), each control queue
      in a place of its own ([connect_places]).  The throughput test moves its
      messages in order and never stops, for message sizes that divide the
      buffer ([pot_stream]).
    - Later queues of the prototype are lists of messages ([v2_refines],
      [v3_refines]), the former for payloads that do not look like metadata;
      what is sent over RDMA arrives ([rdma_conn_delivers] in the first round of
      the ring, [zerocopy_exact] for pages); exchanged page frames can be given
      back where the exchange did not fail ([map_physv_swaps],
      [resume_restores]).

    Some theorems record behaviour at odds with a comment or with what a
    caller expects, for example [stale_pair_two_joiners],
    [dup_to_freed_is_reissued], [asymmetric_upgrade], [send_blocks_on_full],
    [dup2_self_loses_tracking], [close_frees_another_descriptor],
    [select_reports_everything], [wrapped_slots_lost], [map_physv_half_done],
    [failed_start_leaves_socket], [first_two_overlap], [freed_page_mapped],
    [failed_map_recorded], [joins_leaked], [connect_waits], [fork_never_ends],
    [new_rdma_overflows] and [request_length_wraps]; where a correctness theorem
    excludes such a case its hypothesis says so.

    ** Fuel and bounds

    The decoder loops and the daemon's line loop get one turn more than the
    text has characters, and every turn consumes one ([decode_terminates]).
    The growth loop of the descriptor table gets the logarithm of the size
    needed ([grow_loop_enough]), the page rounding of the mock twelve turns for
    at most 2^11 pages, [wait_loop] one turn per millisecond, decimal printing
    one per bit.  [shm_send] and [shm_recv] run as long as the list of the
    peer's actions; [shm_send_completes] and the second part of
    [shm_recv_exact] say when that is enough.  [no_lost_wakeup] assumes fewer
    than 2^32 increments of the futex word between sampling and sleeping.
    The queues of the prototype's monitor have 256 slots and its memory room for
    32 remote processes; beyond these a computation has no result, as the code
    spins or writes outside.
    A call of the prototype that waits runs as long as the list of what its
    peers do; a pass over the queues of a connection gets four turns for each
    pair of slots, more than there are ([tw_recv], [tw_await_now] show that it
    ends); the loops over a descriptor's connections get one turn per element
    of the table.  Deleting from a queue gets one turn per slot of its ring,
    each of which clears a valid bit ([v2_advance_spec], [v3_advance_spec]); a
    queue has at most two things to send ([flush_ends]).  A round of the event
    loop gets one turn for each entry of the poll set and each connection that
    may be accepted ([scan_round]).

    ** Not modelled

    Threads that only repeat a modelled step (watchdog, poller, metrics
    dumper); the signal mask of the monitor; hooks that only forward; log output
    of the components; move operations and destructors of handles; symbol
    resolution.  Of the prototype: the creation of the monitor's listening
    sockets, attributes of queue pairs that are constants,
    [pot_write_nbyte] and [pot_read_nbyte], variants of calls of the library for
    throughput measurements, [rdma_locklessqueue_n.hpp] and
    [rdma_interprocess_t.cpp], which include a header that does not exist, and
    the files under [rdma], which measure.  Tests, benchmarks and demos are not
    modelled. *)

From stdpp Require Import base list list_numbers numbers strings gmap sorting.
From Stdlib Require Import ZArith Lia.

(** The solvers of stdpp clear hypotheses they have already consumed. *)
#[export] Set Warnings "-clear-no-such-hyp".

Declare Scope sd_scope.
Delimit Scope sd_scope with sd.
#[global] Open Scope Z_scope.
#[global] Open Scope sd_scope.

(** Lemmas that are safe for backward chaining, and the rewrite base of the
    development. *)
Create HintDb sd discriminated.
Create HintDb sd_arith discriminated.
Create Rewrite HintDb sd.

(** ** Machine integers

    A [w]-bit unsigned value is a [Z] in [0, 2^w); arithmetic on it is
    reduced with [uwrap]. *)
Definition uwrap (w x : Z) : Z := x mod 2 ^ w.
Abbreviation u8 := (uwrap 8).
Abbreviation u32 := (uwrap 32).
Abbreviation u64 := (uwrap 64).

(** Two's complement reading of a 32-bit word, the C++ type [int]. *)
Definition swrap32 (x : Z) : Z := (x + 2 ^ 31) mod 2 ^ 32 - 2 ^ 31.

Definition is_uint (w x : Z) : Prop := 0 <= x < 2 ^ w.

Lemma uwrap_range w x : 0 <= w -> is_uint w (uwrap w x).
Proof. intros Hw. apply Z.mod_pos_bound. by apply Z.pow_pos_nonneg. Qed.

Lemma uwrap_small w x : is_uint w x -> uwrap w x = x.
Proof. intros H. by apply Z.mod_small. Qed.

Lemma u64_range x : 0 <= u64 x < 2 ^ 64.
Proof. by apply uwrap_range. Qed.

Lemma u32_range x : 0 <= u32 x < 2 ^ 32.
Proof. by apply uwrap_range. Qed.

Lemma uwrap_sub_uwrap w a b : uwrap w (uwrap w a - uwrap w b) = uwrap w (a - b).
Proof. unfold uwrap. by rewrite <- Zminus_mod. Qed.

Lemma uwrap_add_l w a b : uwrap w (uwrap w a + b) = uwrap w (a + b).
Proof. unfold uwrap. by rewrite Zplus_mod_idemp_l. Qed.

Lemma uwrap_uwrap w a : 0 <= w -> uwrap w (uwrap w a) = uwrap w a.
Proof. intros. by apply uwrap_small, uwrap_range. Qed.

#[export] Hint Resolve u64_range u32_range uwrap_range : sd_arith.
#[export] Hint Rewrite uwrap_sub_uwrap uwrap_add_l : sd.

(** A power of two is recognised by the test [x & (x - 1) == 0]. *)
Lemma pow2_of_land_pred x :
  0 < x -> Z.land x (x - 1) = 0 -> x = 2 ^ Z.log2 x.
Proof.
  intros Hx Hland.
  destruct (Z.log2_spec x Hx) as [Hlo Hhi].
  destruct (decide (x = 2 ^ Z.log2 x)) as [|Hne]; [done|exfalso].
  assert (Hl : Z.log2 (x - 1) = Z.log2 x).
  { apply Z.log2_unique; [apply Z.log2_nonneg|lia]. }
  assert (H2 : 0 < x - 1).
  { pose proof (Z.pow_pos_nonneg 2 (Z.log2 x) ltac:(lia) (Z.log2_nonneg x)). lia. }
  pose proof (Z.bit_log2 x Hx) as Hb1.
  pose proof (Z.bit_log2 (x - 1) H2) as Hb2. rewrite Hl in Hb2.
  assert (Z.testbit (Z.land x (x - 1)) (Z.log2 x) = true) as Hc
    by (rewrite Z.land_spec, Hb1, Hb2; done).
  rewrite Hland, Z.bits_0 in Hc. done.
Qed.

(** Masking with [2^e - 1] is reduction modulo [2^e]. *)
Lemma land_pred_pow2 x e : 0 <= e -> Z.land x (2 ^ e - 1) = x mod 2 ^ e.
Proof.
  intros He. rewrite <- Z.land_ones by done.
  by rewrite Z.ones_equiv, <- Z.sub_1_r.
Qed.

(** Reducing first modulo a multiple of the modulus changes nothing. *)
Lemma mod_mod_divide x a b : 0 < a -> 0 < b -> (a | b) -> (x mod b) mod a = x mod a.
Proof. intros Ha Hb Hd. by apply Z.mod_mod_divide. Qed.

(** Two positions at a distance smaller than the modulus are different
    slots. *)
Lemma mod_inj_close a b k : 0 < k -> b < a -> a < b + k -> a mod k <> b mod k.
Proof.
  intros Hk Hlt Hd Heq.
  pose proof (Z.div_mod a k ltac:(lia)) as Ha.
  pose proof (Z.div_mod b k ltac:(lia)) as Hb.
  assert (Hq : a - b = k * (a / k - b / k)) by lia.
  destruct (Z.le_gt_cases (a / k - b / k) 0); nia.
Qed.

(** [a mod k] when [a] lies in the first or in the second period. *)
Lemma mod_two_periods a k :
  0 < k -> 0 <= a < 2 * k -> a mod k = if a <? k then a else a - k.
Proof.
  intros Hk Ha. destruct (Z.ltb_spec a k).
  - apply Z.mod_small; lia.
  - symmetry. apply (Z.mod_unique_pos a k 1); lia.
Qed.

(** ** Memory as a list of bytes

    [memcpy(dst + off, src, n)] with [src] a byte list: [n] bytes are
    copied. *)
Definition memcpy_at {A} (dst : list A) (off : Z) (src : list A) (n : Z) : list A :=
  list_inserts (Z.to_nat off) (take (Z.to_nat n) src) dst.

(** [memcpy(dst, src + off, n)] as the bytes it copies. *)
Definition mem_read {A} (src : list A) (off n : Z) : list A :=
  take (Z.to_nat n) (drop (Z.to_nat off) src).

Lemma memcpy_at_length {A} (dst : list A) off src n :
  length (memcpy_at dst off src n) = length dst.
Proof. apply length_inserts. Qed.

Lemma memcpy_at_inside {A} (dst : list A) off src n (j : nat) :
  0 <= off -> n <= Z.of_nat (length src) ->
  off <= Z.of_nat j < off + n -> (j < length dst)%nat ->
  memcpy_at dst off src n !! j = src !! (j - Z.to_nat off)%nat.
Proof.
  intros ? ? ? ?. unfold memcpy_at.
  rewrite list_lookup_inserts; [|rewrite length_take; lia|done].
  apply lookup_take_lt. lia.
Qed.

Lemma memcpy_at_outside {A} (dst : list A) off src n (j : nat) :
  0 <= off -> 0 <= n -> (Z.of_nat j < off \/ off + n <= Z.of_nat j) ->
  memcpy_at dst off src n !! j = dst !! j.
Proof.
  intros ? ? [?|?]; unfold memcpy_at.
  - apply list_lookup_inserts_lt. lia.
  - apply list_lookup_inserts_ge. rewrite length_take. lia.
Qed.

Lemma mem_read_lookup {A} (src : list A) off n (i : nat) :
  0 <= off -> Z.of_nat i < n ->
  mem_read src off n !! i = src !! (Z.to_nat off + i)%nat.
Proof.
  intros ? ?. unfold mem_read. rewrite lookup_take_lt by lia.
  apply lookup_drop.
Qed.

Lemma mem_read_length {A} (src : list A) off n :
  0 <= off -> 0 <= n -> off + n <= Z.of_nat (length src) ->
  Z.of_nat (length (mem_read src off n)) = n.
Proof. intros. unfold mem_read. rewrite length_take, length_drop. lia. Qed.

#[export] Hint Rewrite @memcpy_at_length : sd.

(** ** Strings *)

Lemma sapp_assoc (a b c : string) : (a +:+ b) +:+ c = a +:+ (b +:+ c).
Proof. induction a; simpl; unfold String.append in *; simpl; congruence. Qed.

Lemma sapp_nil_l (a : string) : "" +:+ a = a.
Proof. done. Qed.

Lemma sapp_nil_r (a : string) : a +:+ "" = a.
Proof. induction a; simpl; unfold String.append in *; simpl; congruence. Qed.

Lemma sapp_cons c (a b : string) : String c a +:+ b = String c (a +:+ b).
Proof. done. Qed.

Lemma sapp_inj_l (a b c : string) : a +:+ b = a +:+ c -> b = c.
Proof. induction a as [|x a IH]; [done|]. rewrite !sapp_cons. intros H. apply IH. congruence. Qed.

#[export] Hint Rewrite sapp_assoc sapp_nil_l sapp_nil_r sapp_cons : sd.

Lemma sapp_length (a b : string) :
  String.length (a +:+ b) = (String.length a + String.length b)%nat.
Proof. induction a; simpl; unfold String.append in *; simpl; congruence. Qed.

(** ** Error numbers used by the code *)
Inductive errno :=
  | EPERM | ENOENT | ESRCH | EINTR | EIO | EBADF | EAGAIN | ENOMEM | EACCES
  | EFAULT | EEXIST | EINVAL | ENOTTY | EPIPE | ENAMETOOLONG | ENOSYS
  | EPROTO | EOPNOTSUPP | ENOTSUP | EOTHER (n : Z).

#[export] Instance errno_eq_dec : EqDecision errno.
Proof. solve_decision. Defined.

(** ** Case analysis on the tests of the code *)
Ltac sd_case :=
  repeat match goal with
  | |- context [if ?b then _ else _] => destruct b eqn:?
  | H : context [if ?b then _ else _] |- _ => destruct b eqn:?
  end.

Ltac sd_bool :=
  repeat match goal with
  | H : (_ <? _) = true |- _ => apply Z.ltb_lt in H
  | H : (_ <? _) = false |- _ => apply Z.ltb_ge in H
  | H : (_ <=? _) = true |- _ => apply Z.leb_le in H
  | H : (_ <=? _) = false |- _ => apply Z.leb_gt in H
  | H : (_ =? _) = true |- _ => apply Z.eqb_eq in H
  | H : (_ =? _) = false |- _ => apply Z.eqb_neq in H
  | H : (_ && _) = true |- _ => apply andb_true_iff in H; destruct H
  | H : (_ || _) = false |- _ => apply orb_false_iff in H; destruct H
  | H : negb _ = true |- _ => apply negb_true_iff in H
  | H : negb _ = false |- _ => apply negb_false_iff in H
  end.
