(* ===== verification/Text.v ===== *)
(** * Numbers as text

    The conversions of the C and C++ library the sources use: [%d], [%llu],
    [%zu] and [%llx] in [printf] formats, [strtoull], [strtol], [atoi] and
    [std::stoi], [toupper] and [tolower], and [find_first_not_of] on the
    blanks.  The round trips between the two directions are what the control
    protocol relies on. *)

From Stdlib Require Import ZArith Lia Ascii.
From stdpp Require Import strings numbers base list.
From S2P Require Import Prelude.

Module Text.

(** ** Printing *)

Definition digit (d : N) : ascii := ascii_of_N (48 + d).

Fixpoint dec_loop (fuel : nat) (n : N) (acc : string) : string :=
  let acc' := String (digit (n mod 10)) acc in
  match fuel with
  | O => acc'
  | S fuel => if (n <? 10)%N then acc' else dec_loop fuel (n / 10) acc'
  end.

(** [%llu] of [n]; the number of digits is at most [log2 n + 1]. *)
Definition dec_u (n : Z) : string := dec_loop (N.to_nat (N.log2 (Z.to_N n))) (Z.to_N n) "".

(** [%d] of [n]. *)
Definition dec_d (n : Z) : string := if n <? 0 then String "-" (dec_u (- n)) else dec_u n.

(** ** Scanning *)

Definition is_space (c : ascii) : bool :=
  let n := N_of_ascii c in ((n =? 32) || ((9 <=? n) && (n <=? 13)))%N.

Fixpoint skip_space (s : string) : string :=
  match s with
  | String c s' => if is_space c then skip_space s' else s
  | "" => ""
  end.

Definition digit_value (c : ascii) : option N :=
  let n := N_of_ascii c in
  if ((48 <=? n) && (n <=? 57))%N then Some (n - 48)%N else None.

(** The longest run of digits, with the value read so far and whether there
    was one; what is left. *)
Fixpoint scan_digits (got : bool) (v : N) (s : string) : bool * N * string :=
  match s with
  | String c s' =>
      match digit_value c with
      | Some d => scan_digits true (v * 10 + d)%N s'
      | None => (got, v, s)
      end
  | "" => (got, v, "")
  end.

(** Sign, value and rest; [None] when no conversion could be made. *)
Definition scan_int (s : string) : option (bool * N * string) :=
  let s := skip_space s in
  let '(neg, s) := match s with
                   | String c s' => if (c =? "-")%char then (true, s')
                                    else if (c =? "+")%char then (false, s') else (false, s)
                   | "" => (false, s)
                   end in
  match scan_digits false 0 s with
  | (true, v, rest) => Some (neg, v, rest)
  | (false, _, _) => None
  end.

(** [strtoull(s, nullptr, 10)]. *)
Definition strtoull (s : string) : Z :=
  match scan_int s with
  | None => 0
  | Some (neg, v, _) =>
      if 2 ^ 64 <=? Z.of_N v then 2 ^ 64 - 1
      else if (neg : bool) then u64 (- Z.of_N v) else Z.of_N v
  end.

(** [strtol(s, &end, 10)]: the value clamped to [long], and the rest. *)
Definition strtol (s : string) : Z * string :=
  match scan_int s with
  | None => (0, s)
  | Some (neg, v, rest) =>
      let z := if (neg : bool) then - Z.of_N v else Z.of_N v in
      (Z.max (- 2 ^ 63) (Z.min (2 ^ 63 - 1) z), rest)
  end.

(** [atoi(s)]: [strtol] converted to [int]. *)
Definition atoi (s : string) : Z := swrap32 (strtol s).1.

(** [std::stoi(s)]; [None] is an exception. *)
Definition stoi (s : string) : option Z :=
  match scan_int s with
  | None => None
  | Some (neg, v, _) =>
      let z := if (neg : bool) then - Z.of_N v else Z.of_N v in
      if (- 2 ^ 31 <=? z) && (z <? 2 ^ 31) then Some z else None
  end.

(** ** Case *)

Definition toupper (c : ascii) : ascii :=
  let n := N_of_ascii c in if ((97 <=? n) && (n <=? 122))%N then ascii_of_N (n - 32) else c.
Definition tolower (c : ascii) : ascii :=
  let n := N_of_ascii c in if ((65 <=? n) && (n <=? 90))%N then ascii_of_N (n + 32) else c.

Fixpoint map_chars (f : ascii -> ascii) (s : string) : string :=
  match s with
  | "" => ""
  | String c s => String (f c) (map_chars f s)
  end.

(** Every character satisfies [p]. *)
Fixpoint sall (p : ascii -> bool) (s : string) : bool :=
  match s with "" => true | String c s => p c && sall p s end.

(** ** Prefixes and suffixes *)

Fixpoint starts_with (p s : string) : bool :=
  match p, s with
  | "", _ => true
  | String a p, String b s => (a =? b)%char && starts_with p s
  | String _ _, "" => false
  end.

Fixpoint str_skip (n : nat) (s : string) : string :=
  match n, s with
  | S n, String _ s => str_skip n s
  | _, _ => s
  end.

(** ** Lemmas *)

Lemma sall_app p a b : sall p (a +:+ b) = sall p a && sall p b.
Proof.
  induction a as [|c a IH]; [done|]. rewrite sapp_cons. simpl. by rewrite IH, andb_assoc.
Qed.

(** A string that does not start with a digit. *)
Definition no_digit (s : string) : bool :=
  match s with String c _ => bool_decide (digit_value c = None) | "" => true end.

Lemma digit_value_digit d : (d < 10)%N -> digit_value (digit d) = Some d.
Proof.
  intros Hd. unfold digit_value, digit. rewrite N_ascii_embedding by lia.
  destruct (N.leb_spec 48 (48 + d)), (N.leb_spec (48 + d) 57); simpl; try lia. f_equal. lia.
Qed.

Lemma scan_digits_got v s : no_digit s = true -> scan_digits true v s = (true, v, s).
Proof. destruct s as [|c s]; [done|]. simpl. intros H%bool_decide_eq_true. by rewrite H. Qed.

Lemma scan_dec_loop fuel n acc g :
  (n < 2 ^ (N.of_nat fuel + 1))%N ->
  scan_digits g 0 (dec_loop fuel n acc) = scan_digits true n acc.
Proof.
  revert n acc g. induction fuel as [|fuel IH]; intros n acc g Hn.
  - cbn [dec_loop scan_digits]. rewrite digit_value_digit by (apply N.mod_lt; lia).
    rewrite N.mod_small by (simpl in Hn; lia). done.
  - cbn [dec_loop]. destruct (N.ltb_spec n 10) as [Hlt|Hge].
    + cbn [scan_digits]. rewrite digit_value_digit by (apply N.mod_lt; lia).
      by rewrite N.mod_small by lia.
    + rewrite IH.
      * cbn [scan_digits]. rewrite digit_value_digit by (apply N.mod_lt; lia).
        f_equal. pose proof (N.div_mod n 10). lia.
      * apply N.Div0.div_lt_upper_bound. rewrite Nat2N.inj_succ in Hn.
        replace (N.succ (N.of_nat fuel) + 1)%N with (N.succ (N.of_nat fuel + 1)) in Hn by lia.
        rewrite N.pow_succ_r' in Hn. lia.
Qed.

Lemma dec_loop_app fuel n acc t : dec_loop fuel n acc +:+ t = dec_loop fuel n (acc +:+ t).
Proof.
  revert n acc. induction fuel as [|fuel IH]; intros n acc; cbn [dec_loop]; [done|].
  destruct (n <? 10)%N; [done|]. by rewrite IH.
Qed.

Lemma scan_dec_u n t g :
  0 <= n -> no_digit t = true -> scan_digits g 0 (dec_u n +:+ t) = (true, Z.to_N n, t).
Proof.
  intros Hn Ht. unfold dec_u. rewrite dec_loop_app, sapp_nil_l, scan_dec_loop.
  - by apply scan_digits_got.
  - rewrite N2Nat.id. destruct (decide (Z.to_N n = 0%N)) as [->|Hz]; [done|].
    pose proof (N.log2_spec (Z.to_N n)) as Hl. rewrite N.add_1_r. apply Hl. lia.
Qed.

(** The first character of a printed number is a digit. *)
Lemma dec_loop_head fuel n acc :
  exists d s, dec_loop fuel n acc = String (digit d) s /\ (d < 10)%N.
Proof.
  revert n acc. induction fuel as [|fuel IH]; intros n acc; cbn [dec_loop].
  - do 2 eexists. split; [done|apply N.mod_lt; lia].
  - destruct (n <? 10)%N; [do 2 eexists; split; [done|apply N.mod_lt; lia]|apply IH].
Qed.

Lemma digit_not_blank d : (d < 10)%N ->
  is_space (digit d) = false /\ (digit d =? "-")%char = false /\ (digit d =? "+")%char = false.
Proof.
  intros Hd. assert (d = 0 \/ d = 1 \/ d = 2 \/ d = 3 \/ d = 4 \/ d = 5 \/ d = 6 \/ d = 7 \/ d = 8 \/ d = 9)%N
    as H by lia. by repeat destruct H as [->|H]; [..|subst].
Qed.

Lemma scan_int_dec_u n t :
  0 <= n -> no_digit t = true -> scan_int (dec_u n +:+ t) = Some (false, Z.to_N n, t).
Proof.
  intros Hn Ht. pose proof (scan_dec_u n t false Hn Ht) as Hs.
  unfold dec_u in *. rewrite dec_loop_app in *.
  destruct (dec_loop_head (N.to_nat (N.log2 (Z.to_N n))) (Z.to_N n) ("" +:+ t)) as (d & s & He & Hd).
  destruct (digit_not_blank d Hd) as (H1 & H2 & H3). rewrite He in *.
  unfold scan_int. simpl skip_space. rewrite H1, H2, H3. by rewrite Hs.
Qed.

Lemma strtoull_dec n : 0 <= n < 2 ^ 64 -> strtoull (dec_u n) = n.
Proof.
  intros Hn. unfold strtoull. rewrite <- (sapp_nil_r (dec_u n)), scan_int_dec_u by (done || lia).
  destruct (Z.leb_spec (2 ^ 64) (Z.of_N (Z.to_N n))); lia.
Qed.

Lemma strtol_dec n t : 0 <= n < 2 ^ 63 -> no_digit t = true -> strtol (dec_u n +:+ t) = (n, t).
Proof.
  intros Hn Ht. unfold strtol. rewrite scan_int_dec_u by (done || lia). f_equal. lia.
Qed.

Lemma swrap32_small x : - 2 ^ 31 <= x < 2 ^ 31 -> swrap32 x = x.
Proof. intros Hx. unfold swrap32. rewrite Z.mod_small; lia. Qed.

Lemma atoi_dec n : 0 <= n < 2 ^ 31 -> atoi (dec_u n) = n.
Proof.
  intros Hn. unfold atoi. rewrite <- (sapp_nil_r (dec_u n)), strtol_dec by (done || lia).
  apply swrap32_small. lia.
Qed.

Lemma stoi_dec n : - 2 ^ 31 <= n < 2 ^ 31 -> stoi (dec_d n) = Some n.
Proof.
  intros Hn. unfold stoi, dec_d. destruct (Z.ltb_spec n 0).
  - change (scan_int (String "-" (dec_u (- n)))) with
      (match scan_digits false 0 (dec_u (- n)) with
       | (true, v, rest) => Some (true, v, rest) | (false, _, _) => None end).
    pose proof (scan_dec_u (- n) "" false ltac:(lia) eq_refl) as Hs. rewrite sapp_nil_r in Hs.
    rewrite Hs.
    replace (- Z.of_N (Z.to_N (- n))) with n by lia.
    by destruct (Z.leb_spec (- 2 ^ 31) n), (Z.ltb_spec n (2 ^ 31)); try lia.
  - rewrite <- (sapp_nil_r (dec_u n)), scan_int_dec_u by (done || lia). rewrite Z2N.id by lia.
    by destruct (Z.leb_spec (- 2 ^ 31) n), (Z.ltb_spec n (2 ^ 31)); try lia.
Qed.

Lemma starts_with_app p s : starts_with p (p +:+ s) = true.
Proof. induction p as [|c p IH]; [done|]. rewrite sapp_cons. simpl. by rewrite Ascii.eqb_refl, IH. Qed.

Lemma str_skip_app p s : str_skip (String.length p) (p +:+ s) = s.
Proof. induction p as [|c p IH]; [by destruct s|]. rewrite sapp_cons. simpl. apply IH. Qed.

End Text.
