(* ===== verification/ShmRing.v ===== *)
(** * The shared-memory byte ring

    [include/socksdirect/shm_ring.hpp]: [ShmRing<kBufBytes>], the
    single-producer single-consumer byte stream that carries the data of an
    accelerated connection.  The first section models the operations of the
    template as functions on the ring's memory; the second one takes the same
    operations apart into the loads, byte copies and stores two processes
    interleave. *)

From stdpp Require Import base list list_numbers numbers relations.
From Stdlib Require Import ZArith Lia.
From Stdlib Require Import Init.Byte.
From S2P Require Import Prelude.

#[export] Instance byte_inhabited : Inhabited byte := populate x00.

(** The two [static_assert]s of the template, with the width of
    [std::size_t]. *)
Class RingSize (kBufBytes : Z) : Prop := {
  ring_pow2 : Z.land kBufBytes (kBufBytes - 1) = 0;
  ring_page : 4096 <= kBufBytes;
  ring_size_t : kBufBytes < 2 ^ 64
}.

Module Ring.

(** [struct ShmRing]: the producer's cache line ([tail], [closed]), the
    consumer's one ([head]) and the data. *)
Record ShmRing := mkRing {
  tail : Z;
  closed : Z;
  head : Z;
  data : list byte
}.

Section ops.
Context (kBufBytes : Z).

Definition kCapacity : Z := kBufBytes.
Definition kMask : Z := kBufBytes - 1.

(** [init]: the data is left as it is. *)
Definition init (r : ShmRing) : ShmRing :=
  {| tail := 0; closed := 0; head := 0; data := data r |}.

Definition readable (r : ShmRing) : Z :=
  let t := tail r in
  let h := head r in
  u64 (t - h).

Definition writable (r : ShmRing) : Z :=
  let t := tail r in
  let h := head r in
  u64 (kBufBytes - u64 (t - h)).

Definition peer_closed (r : ShmRing) : bool := negb (closed r =? 0).

Definition mark_closed (r : ShmRing) : ShmRing :=
  {| tail := tail r; closed := 1; head := head r; data := data r |}.

(** The two [memcpy]s of [send_some]: up to the end of the array, then from
    its start. *)
Definition copy_in (d : list byte) (off n : Z) (buf : list byte) : list byte :=
  let first := if kBufBytes - off <? n then kBufBytes - off else n in
  let d1 := memcpy_at d off buf first in
  if first <? n
  then memcpy_at d1 0 (drop (Z.to_nat first) buf) (n - first)
  else d1.

(** The two [memcpy]s of [recv_some], as the bytes they deliver. *)
Definition copy_out (d : list byte) (off n : Z) : list byte :=
  let first := if kBufBytes - off <? n then kBufBytes - off else n in
  let b1 := mem_read d off first in
  if first <? n then b1 ++ mem_read d 0 (n - first) else b1.

(** [send_some(buf, len)]: the count returned and the ring after the call. *)
Definition send_some (r : ShmRing) (buf : list byte) (len : Z) : Z * ShmRing :=
  let t := tail r in
  let h := head r in
  let free := u64 (kBufBytes - u64 (t - h)) in
  if free =? 0 then (0, r) else
  let n := if len <? free then len else free in
  let off := Z.land t kMask in
  (n, {| tail := u64 (t + n); closed := closed r; head := h;
         data := copy_in (data r) off n buf |}).

(** [recv_some(buf, len)]: the bytes stored at [buf] (their number is the
    value returned) and the ring after the call. *)
Definition recv_some (r : ShmRing) (len : Z) : list byte * ShmRing :=
  let t := tail r in
  let h := head r in
  let avail := u64 (t - h) in
  if avail =? 0 then ([], r) else
  let n := if len <? avail then len else avail in
  let off := Z.land h kMask in
  (copy_out (data r) off n,
   {| tail := t; closed := closed r; head := u64 (h + n); data := data r |}).

(** ** Well-formedness and the stream a ring holds *)

(** The counters are 64-bit, never further apart than the capacity, and the
    data array has the capacity's size. *)
Record wf (r : ShmRing) : Prop := {
  wf_tail : 0 <= tail r < 2 ^ 64;
  wf_head : 0 <= head r < 2 ^ 64;
  wf_used : readable r <= kBufBytes;
  wf_data : Z.of_nat (length (data r)) = kBufBytes
}.

(** The byte at stream position [p] lives in slot [p mod kBufBytes]. *)
Definition slot (p : Z) : nat := Z.to_nat (p mod kBufBytes).

(** The bytes published and not yet consumed, oldest first. *)
Definition contents (r : ShmRing) : list byte :=
  (λ i, data r !!! slot (head r + i)) <$> seqZ 0 (readable r).

End ops.

(** ** Shared facts *)
Section facts.
Context (kBufBytes : Z) `{!RingSize kBufBytes}.

Lemma size_pos : 0 < kBufBytes.
Proof. pose proof (ring_page (kBufBytes:=kBufBytes)). lia. Qed.

Lemma size_pow2 : exists e, 0 <= e < 64 /\ kBufBytes = 2 ^ e.
Proof.
  pose proof size_pos as Hp.
  pose proof (pow2_of_land_pred _ Hp ring_pow2) as He.
  exists (Z.log2 kBufBytes). split; [|done]. split; [apply Z.log2_nonneg|].
  apply (Z.pow_lt_mono_r_iff 2); [lia|lia|].
  rewrite <- He. apply ring_size_t.
Qed.

Lemma size_divide : (kBufBytes | 2 ^ 64).
Proof.
  destruct size_pow2 as (e & He & ->). exists (2 ^ (64 - e)).
  rewrite <- Z.pow_add_r by lia. f_equal. lia.
Qed.

Lemma mask_mod x : Z.land x (kMask kBufBytes) = x mod kBufBytes.
Proof.
  unfold kMask. destruct size_pow2 as (e & He & ->). apply land_pred_pow2; lia.
Qed.

Lemma u64_mod x : u64 x mod kBufBytes = x mod kBufBytes.
Proof. apply mod_mod_divide; [apply size_pos|lia|apply size_divide]. Qed.

Lemma slot_u64 x i : slot kBufBytes (u64 x + i) = slot kBufBytes (x + i).
Proof.
  unfold slot. rewrite <- Zplus_mod_idemp_l, u64_mod, Zplus_mod_idemp_l. done.
Qed.

Lemma slot_mod x i : slot kBufBytes (x mod kBufBytes + i) = slot kBufBytes (x + i).
Proof. unfold slot. by rewrite Zplus_mod_idemp_l. Qed.

Lemma slot_lt x : (slot kBufBytes x < Z.to_nat kBufBytes)%nat.
Proof.
  pose proof size_pos. unfold slot.
  pose proof (Z.mod_pos_bound x kBufBytes ltac:(done)). lia.
Qed.

Lemma slot_ne a b : b < a -> a < b + kBufBytes -> slot kBufBytes a <> slot kBufBytes b.
Proof.
  intros Hlt Hd. pose proof size_pos as Hp. unfold slot.
  pose proof (mod_inj_close a b kBufBytes Hp Hlt Hd).
  pose proof (Z.mod_pos_bound a kBufBytes Hp).
  pose proof (Z.mod_pos_bound b kBufBytes Hp). lia.
Qed.

(** The slot of the [i]-th byte of a copy that starts at [off], as the two
    [memcpy]s compute it. *)
Lemma slot_split off i :
  0 <= off < kBufBytes -> 0 <= i < kBufBytes ->
  slot kBufBytes (off + i)
  = Z.to_nat (if i <? kBufBytes - off then off + i else i - (kBufBytes - off)).
Proof.
  intros Ho Hi. unfold slot. rewrite mod_two_periods by lia.
  f_equal. destruct (Z.ltb_spec (off + i) kBufBytes), (Z.ltb_spec i (kBufBytes - off)); lia.
Qed.

Lemma copy_in_length d off n buf :
  length (copy_in kBufBytes d off n buf) = length d.
Proof. unfold copy_in. sd_case; by autorewrite with sd. Qed.

Lemma copy_in_inside d off n buf i :
  0 <= off < kBufBytes -> 0 <= n <= kBufBytes -> n <= Z.of_nat (length buf) ->
  Z.of_nat (length d) = kBufBytes -> 0 <= i < n ->
  copy_in kBufBytes d off n buf !! slot kBufBytes (off + i) = buf !! Z.to_nat i.
Proof.
  intros Ho Hn Hb Hd Hi. rewrite slot_split by lia. unfold copy_in.
  destruct (Z.ltb_spec (kBufBytes - off) n), (Z.ltb_spec i (kBufBytes - off));
    try lia; sd_case; sd_bool; try lia.
  - rewrite memcpy_at_outside by lia. rewrite memcpy_at_inside by lia. f_equal; lia.
  - rewrite memcpy_at_inside
      by (rewrite ?length_drop, ?memcpy_at_length; lia).
    rewrite lookup_drop. f_equal; lia.
  - rewrite memcpy_at_inside by lia. f_equal; lia.
Qed.

Lemma copy_in_outside d off n buf i :
  0 <= off < kBufBytes -> 0 <= n -> n <= i < kBufBytes ->
  copy_in kBufBytes d off n buf !! slot kBufBytes (off + i) = d !! slot kBufBytes (off + i).
Proof.
  intros Ho Hn Hi. rewrite slot_split by lia. unfold copy_in.
  destruct (Z.ltb_spec (kBufBytes - off) n), (Z.ltb_spec i (kBufBytes - off));
    sd_case; sd_bool; try lia; rewrite ?memcpy_at_outside by lia; done.
Qed.

Lemma copy_out_length d off n :
  0 <= off < kBufBytes -> 0 <= n <= kBufBytes -> Z.of_nat (length d) = kBufBytes ->
  Z.of_nat (length (copy_out kBufBytes d off n)) = n.
Proof.
  intros. unfold copy_out. sd_case; sd_bool; try lia;
    rewrite ?length_app, ?Nat2Z.inj_add, ?mem_read_length by lia; lia.
Qed.

Lemma copy_out_lookup d off n i :
  0 <= off < kBufBytes -> 0 <= n <= kBufBytes -> Z.of_nat (length d) = kBufBytes ->
  0 <= i < n ->
  copy_out kBufBytes d off n !! Z.to_nat i = d !! slot kBufBytes (off + i).
Proof.
  intros Ho Hn Hd Hi. rewrite slot_split by lia. unfold copy_out.
  destruct (Z.ltb_spec (kBufBytes - off) n) as [Hw|Hw];
    [rewrite (proj2 (Z.ltb_lt (kBufBytes - off) n)) by lia|rewrite Z.ltb_irrefl].
  - pose proof (mem_read_length d off (kBufBytes - off)) as Hl.
    destruct (Z.ltb_spec i (kBufBytes - off)).
    + rewrite lookup_app_l by lia. rewrite mem_read_lookup by lia. f_equal; lia.
    + rewrite lookup_app_r by lia. rewrite mem_read_lookup by lia. f_equal; lia.
  - rewrite mem_read_lookup by lia. destruct (Z.ltb_spec i (kBufBytes - off)); [f_equal; lia|lia].
Qed.

Lemma readable_nonneg r : 0 <= readable r.
Proof. unfold readable. apply u64_range. Qed.

Lemma contents_length r : Z.of_nat (length (contents kBufBytes r)) = readable r.
Proof.
  pose proof (readable_nonneg r). unfold contents.
  rewrite length_fmap, length_seqZ. lia.
Qed.

Lemma data_slot r p : wf kBufBytes r -> is_Some (data r !! slot kBufBytes p).
Proof.
  intros Hwf. apply lookup_lt_is_Some_2. pose proof (slot_lt p).
  pose proof (wf_data _ _ Hwf). lia.
Qed.

Lemma contents_lookup r i :
  wf kBufBytes r -> 0 <= i < readable r ->
  contents kBufBytes r !! Z.to_nat i = data r !! slot kBufBytes (head r + i).
Proof.
  intros Hwf Hi. unfold contents. rewrite list_lookup_fmap, lookup_seqZ_lt by lia.
  destruct (data_slot r (head r + i) Hwf) as [b Hb].
  simpl. rewrite Z2Nat.id by lia. rewrite Hb. f_equal.
  by apply list_lookup_total_correct.
Qed.

(** [tail] is [head] advanced by the bytes held. *)
Lemma tail_slot r i :
  slot kBufBytes (tail r + i) = slot kBufBytes (head r + readable r + i).
Proof.
  unfold readable, slot. f_equal.
  rewrite <- (Zplus_mod_idemp_l (head r + _)), <- (Zplus_mod_idemp_r (u64 _)), u64_mod.
  rewrite Zplus_mod_idemp_r, Zplus_mod_idemp_l. f_equal. lia.
Qed.

Lemma free_bytes r : wf kBufBytes r -> writable kBufBytes r = kBufBytes - readable r.
Proof.
  intros Hwf. pose proof (readable_nonneg r). pose proof (wf_used _ _ Hwf).
  pose proof (ring_size_t (kBufBytes:=kBufBytes)).
  apply uwrap_small. split; unfold readable in *; lia.
Qed.

(** Advancing [tail] by [n] bytes into free space makes [n] more bytes
    readable. *)
Lemma readable_push r n :
  wf kBufBytes r -> 0 <= n -> n <= kBufBytes - readable r ->
  u64 (u64 (tail r + n) - head r) = readable r + n.
Proof.
  intros Hwf Hn Hf. pose proof (readable_nonneg r).
  pose proof (ring_size_t (kBufBytes:=kBufBytes)).
  rewrite <- (uwrap_small 64 (readable r + n)) by (unfold is_uint; lia).
  unfold readable, uwrap. rewrite Zminus_mod_idemp_l, Zplus_mod_idemp_l.
  f_equal. lia.
Qed.

Lemma readable_pop r n :
  0 <= n <= readable r -> u64 (tail r - u64 (head r + n)) = readable r - n.
Proof.
  intros Hn. pose proof (u64_range (tail r - head r)).
  rewrite <- (uwrap_small 64 (readable r - n)) by (unfold is_uint, readable in *; lia).
  unfold readable, uwrap. rewrite Zminus_mod_idemp_r, Zminus_mod_idemp_l.
  f_equal. lia.
Qed.

End facts.

(** ** The contract of the ring: a bounded byte stream *)

Definition spec_send (cap : Z) (q buf : list byte) (len : Z) : Z * list byte :=
  let n := Z.min len (cap - Z.of_nat (length q)) in
  (n, q ++ take (Z.to_nat n) buf).

Definition spec_recv (q : list byte) (len : Z) : list byte * list byte :=
  (take (Z.to_nat len) q, drop (Z.to_nat len) q).

Section refinement.
Context (kBufBytes : Z) `{!RingSize kBufBytes}.

Lemma init_wf r :
  Z.of_nat (length (data r)) = kBufBytes ->
  wf kBufBytes (init r) /\ contents kBufBytes (init r) = [].
Proof.
  intros Hd. pose proof (size_pos kBufBytes). split; [|done].
  split; simpl; try lia. change (readable (init r)) with 0. lia.
Qed.

Lemma send_some_wf r buf len :
  wf kBufBytes r -> 0 <= len -> wf kBufBytes (send_some kBufBytes r buf len).2.
Proof.
  intros Hwf Hlen. pose proof (free_bytes kBufBytes r Hwf) as Hf. pose proof Hwf as [].
  unfold send_some. fold (writable kBufBytes r). rewrite Hf.
  destruct (Z.eqb_spec (kBufBytes - readable r) 0); [done|]. simpl.
  split; simpl; [apply u64_range|done| |by rewrite copy_in_length].
  unfold readable at 1; simpl. rewrite (readable_push kBufBytes); sd_case; sd_bool; try done; lia.
Qed.

(** The bytes after a send: the old ones, then the ones accepted. *)
Lemma send_some_contents r buf n :
  wf kBufBytes r -> 0 <= n -> n <= Z.of_nat (length buf) -> n <= kBufBytes - readable r ->
  contents kBufBytes
    {| tail := u64 (tail r + n); closed := closed r; head := head r;
       data := copy_in kBufBytes (data r) (Z.land (tail r) (kMask kBufBytes)) n buf |}
  = contents kBufBytes r ++ take (Z.to_nat n) buf.
Proof.
  intros Hwf Hn Hb Hf. pose proof (size_pos kBufBytes). pose proof (readable_nonneg r).
  set (r' := mkRing _ _ _ _).
  assert (Hr : readable r' = readable r + n) by exact (readable_push kBufBytes r n Hwf Hn Hf).
  assert (Hoff : 0 <= tail r mod kBufBytes < kBufBytes) by (by apply Z.mod_pos_bound).
  assert (Hwf' : wf kBufBytes r').
  { destruct Hwf. split; simpl; rewrite ?copy_in_length; auto using u64_range. lia. }
  pose proof (contents_length kBufBytes r) as Hl.
  apply list_eq. intros j.
  destruct (decide (Z.of_nat j < readable r + n)) as [Hj|Hj].
  2:{ rewrite (lookup_ge_None_2 _ j).
      - symmetry. apply lookup_ge_None_2. rewrite length_app, length_take. lia.
      - pose proof (contents_length kBufBytes r'). lia. }
  rewrite <- (Nat2Z.id j), (contents_lookup kBufBytes) by (done || lia).
  subst r'; simpl. rewrite mask_mod by done.
  destruct (decide (Z.of_nat j < readable r)) as [Hlt|Hge].
  - rewrite lookup_app_l by lia. rewrite (contents_lookup kBufBytes) by (done || lia).
    replace (head r + Z.of_nat j)
      with (head r + readable r + (Z.of_nat j - readable r)) by lia.
    rewrite <- tail_slot by done.
    replace (tail r + (Z.of_nat j - readable r))
      with (tail r - kBufBytes + (kBufBytes + Z.of_nat j - readable r)) by lia.
    assert (Hs : forall i, slot kBufBytes (tail r - kBufBytes + i)
                     = slot kBufBytes (tail r mod kBufBytes + i)).
    { intros i. rewrite slot_mod by done. unfold slot. f_equal.
      replace (tail r + i) with (tail r - kBufBytes + i + 1 * kBufBytes) by lia.
      by rewrite Z.mod_add by lia. }
    rewrite Hs. apply copy_in_outside; (done || lia).
  - rewrite lookup_app_r by lia.
    rewrite lookup_take_lt by lia.
    replace (head r + Z.of_nat j)
      with (head r + readable r + (Z.of_nat j - readable r)) by lia.
    rewrite <- tail_slot, <- slot_mod by done.
    rewrite copy_in_inside by (done || lia || (destruct Hwf; done)).
    f_equal. lia.
Qed.

Lemma send_some_spec r buf len :
  wf kBufBytes r -> 0 <= len <= Z.of_nat (length buf) ->
  ((send_some kBufBytes r buf len).1, contents kBufBytes (send_some kBufBytes r buf len).2)
  = spec_send kBufBytes (contents kBufBytes r) buf len.
Proof.
  intros Hwf Hlen. pose proof (free_bytes kBufBytes r Hwf) as Hf. pose proof (wf_used _ _ Hwf).
  unfold send_some, spec_send. fold (writable kBufBytes r).
  rewrite Hf, contents_length by done.
  destruct (Z.eqb_spec (kBufBytes - readable r) 0) as [E|E]; simpl in *.
  - rewrite E, Z.min_r by lia. simpl. by rewrite take_0, app_nil_r.
  - assert ((if len <? kBufBytes - readable r then len else kBufBytes - readable r)
      = Z.min len (kBufBytes - readable r)) as -> by (sd_case; sd_bool; lia).
    f_equal. apply send_some_contents; try done; lia.
Qed.

(** C2: [send_some] appends to the stream exactly the first
    [min len (capacity - used)] bytes of the caller's buffer, returns that
    count, keeps the ring well formed and leaves the consumer's index and the
    closed flag alone; the 64-bit counters may wrap. *)
Theorem send_some_refines r buf len :
  wf kBufBytes r -> 0 <= len <= Z.of_nat (length buf) ->
  let '(n, r') := send_some kBufBytes r buf len in
  (n, contents kBufBytes r') = spec_send kBufBytes (contents kBufBytes r) buf len
  /\ wf kBufBytes r' /\ head r' = head r /\ closed r' = closed r.
Proof.
  intros Hwf Hlen. pose proof (send_some_wf r buf len Hwf ltac:(lia)) as Hwf'.
  pose proof (send_some_spec r buf len Hwf Hlen) as Hs. revert Hwf' Hs.
  destruct (send_some kBufBytes r buf len) as [n r'] eqn:E; simpl. intros Hwf' Hs.
  revert E. unfold send_some. sd_case; intros; simplify_eq/=; done.
Qed.

(** The bytes a receive of [n] delivers, and the ones it leaves. *)
Lemma recv_some_contents r n :
  wf kBufBytes r -> 0 <= n <= readable r ->
  let r' := {| tail := tail r; closed := closed r; head := u64 (head r + n);
               data := data r |} in
  wf kBufBytes r'
  /\ copy_out kBufBytes (data r) (Z.land (head r) (kMask kBufBytes)) n
     = take (Z.to_nat n) (contents kBufBytes r)
  /\ contents kBufBytes r' = drop (Z.to_nat n) (contents kBufBytes r).
Proof.
  intros Hwf Hn r'. pose proof (size_pos kBufBytes). pose proof (wf_used _ _ Hwf).
  assert (Hr : readable r' = readable r - n) by exact (readable_pop r n Hn).
  assert (Hoff : 0 <= head r mod kBufBytes < kBufBytes) by (by apply Z.mod_pos_bound).
  assert (Hwf' : wf kBufBytes r').
  { destruct Hwf. split; simpl; auto using u64_range. lia. }
  pose proof (contents_length kBufBytes r) as Hl.
  pose proof (contents_length kBufBytes r') as Hl'.
  rewrite mask_mod by done. split; [done|split]; apply list_eq; intros j.
  - pose proof (copy_out_length kBufBytes (data r) (head r mod kBufBytes) n
      Hoff ltac:(lia) (wf_data _ _ Hwf)) as Hc.
    destruct (decide (Z.of_nat j < n)).
    + rewrite lookup_take_lt by lia.
      rewrite <- (Nat2Z.id j), (contents_lookup kBufBytes) by (done || lia).
      rewrite copy_out_lookup by (done || lia || apply Hwf). by rewrite slot_mod by done.
    + rewrite !lookup_ge_None_2; [done|rewrite length_take; lia|lia].
  - rewrite lookup_drop. destruct (decide (Z.of_nat j < readable r')).
    + rewrite <- (Nat2Z.id j) at 1. rewrite (contents_lookup kBufBytes) by (done || lia).
      rewrite <- (Nat2Z.id (Z.to_nat n + j)), (contents_lookup kBufBytes) by (done || lia).
      simpl. rewrite slot_u64 by done. do 2 f_equal. lia.
    + rewrite !lookup_ge_None_2; [done|lia|lia].
Qed.

Lemma recv_some_wf r len :
  wf kBufBytes r -> 0 <= len -> wf kBufBytes (recv_some kBufBytes r len).2.
Proof.
  intros Hwf Hlen. pose proof (readable_nonneg r). unfold recv_some. fold (readable r).
  destruct (Z.eqb_spec (readable r) 0); [done|]. simpl.
  apply recv_some_contents; [done|]. sd_case; sd_bool; lia.
Qed.

Lemma recv_some_spec r len :
  wf kBufBytes r -> 0 <= len ->
  ((recv_some kBufBytes r len).1, contents kBufBytes (recv_some kBufBytes r len).2)
  = spec_recv (contents kBufBytes r) len.
Proof.
  intros Hwf Hlen. pose proof (readable_nonneg r).
  pose proof (contents_length kBufBytes r) as Hl.
  unfold recv_some, spec_recv. fold (readable r).
  destruct (Z.eqb_spec (readable r) 0) as [E|E]; simpl.
  - assert (contents kBufBytes r = []) as -> by (apply length_zero_iff_nil; lia).
    by rewrite take_nil, drop_nil.
  - set (n := if len <? readable r then len else readable r).
    assert (Hn : n = Z.min len (readable r)) by (subst n; sd_case; sd_bool; lia).
    destruct (recv_some_contents r n Hwf ltac:(lia)) as (Hwf' & -> & ->).
    destruct (Z.le_gt_cases len (readable r)).
    + by rewrite Hn, Z.min_l by done.
    + rewrite Hn, Z.min_r, !take_ge, !drop_ge by lia. done.
Qed.

(** C3: [recv_some] delivers the oldest [min len used] bytes of the stream in
    order and removes exactly those; the producer's index, the closed flag and
    the data array are not written. *)
Theorem recv_some_refines r len :
  wf kBufBytes r -> 0 <= len ->
  let '(bs, r') := recv_some kBufBytes r len in
  (bs, contents kBufBytes r') = spec_recv (contents kBufBytes r) len
  /\ wf kBufBytes r' /\ tail r' = tail r /\ closed r' = closed r /\ data r' = data r.
Proof.
  intros Hwf Hlen. pose proof (recv_some_wf r len Hwf Hlen) as Hwf'.
  pose proof (recv_some_spec r len Hwf Hlen) as Hs. revert Hwf' Hs.
  destruct (recv_some kBufBytes r len) as [bs r'] eqn:E; simpl. intros Hwf' Hs.
  revert E. unfold recv_some. sd_case; intros; simplify_eq/=; done.
Qed.

End refinement.
End Ring.

(** ** Two processes on one ring

    The producer and the consumer run [send_some] and [recv_some]
    concurrently.  A step is one load, the copy of one byte or one store; the
    release/acquire pairs of the code order the copies before the index
    stores, so the interleavings of the program-ordered steps are its
    behaviours. *)
Module Spsc.
Import Ring.

(** The producer: outside a call, inside [send_some] with [i] bytes copied,
    after [mark_closed], or crashed. *)
Inductive prod_state :=
  | PIdle
  | PCopy (t n : Z) (buf : list byte) (i : nat)
  | PClosed
  | PDead.

(** The consumer: outside a call, inside [recv_some], after [peer_closed]
    answered true in the end-of-file test of [shm_recv], or at end of file. *)
Inductive cons_state :=
  | CIdle
  | CCopy (h n : Z) (acc : list byte)
  | CSawClosed
  | CEof.

(** [sent] and [rcvd] record the bytes published by the producer and handed
    to the consumer's caller. *)
Record sys := mkSys {
  ring : ShmRing;
  prod : prod_state;
  cons : cons_state;
  sent : list byte;
  rcvd : list byte
}.

Section steps.
Context (kBufBytes : Z).

(** Where byte [i] of a copy of [n] bytes starting at [off] goes. *)
Definition copy_index (off n i : Z) : Z :=
  let first := if kBufBytes - off <? n then kBufBytes - off else n in
  if i <? first then off + i else i - first.

Definition put_byte (r : ShmRing) (t n : Z) (i : nat) (b : byte) : ShmRing :=
  {| tail := tail r; closed := closed r; head := head r;
     data := <[Z.to_nat (copy_index (Z.land t (kMask kBufBytes)) n (Z.of_nat i)) := b]>
               (data r) |}.

Definition set_tail (r : ShmRing) (t : Z) : ShmRing :=
  {| tail := t; closed := closed r; head := head r; data := data r |}.

Definition set_head (r : ShmRing) (h : Z) : ShmRing :=
  {| tail := tail r; closed := closed r; head := h; data := data r |}.

Inductive step : sys -> sys -> Prop :=
  | send_load r c S R buf len free :
      0 <= len <= Z.of_nat (length buf) ->
      free = u64 (kBufBytes - u64 (tail r - head r)) -> free <> 0 ->
      step (mkSys r PIdle c S R)
           (mkSys r (PCopy (tail r) (if len <? free then len else free) buf 0) c S R)
  | send_byte r c S R t n buf i b :
      Z.of_nat i < n -> buf !! i = Some b ->
      step (mkSys r (PCopy t n buf i) c S R)
           (mkSys (put_byte r t n i b) (PCopy t n buf (i + 1)) c S R)
  | send_store r c S R t n buf i :
      Z.of_nat i = n ->
      step (mkSys r (PCopy t n buf i) c S R)
           (mkSys (set_tail r (u64 (t + n))) PIdle c (S ++ take (Z.to_nat n) buf) R)
  | send_close r c S R :
      step (mkSys r PIdle c S R) (mkSys (mark_closed r) PClosed c S R)
  | send_crash r p c S R :
      step (mkSys r p c S R) (mkSys r PDead c S R)
  | peer_reaped r c S R :
      step (mkSys r PDead c S R) (mkSys (mark_closed r) PDead c S R)
  | recv_load r p S R len avail :
      0 <= len ->
      avail = u64 (tail r - head r) -> avail <> 0 ->
      step (mkSys r p CIdle S R)
           (mkSys r p (CCopy (head r) (if len <? avail then len else avail) []) S R)
  | recv_byte r p S R h n acc b :
      Z.of_nat (length acc) < n ->
      data r !! Z.to_nat (copy_index (Z.land h (kMask kBufBytes)) n (Z.of_nat (length acc)))
      = Some b ->
      step (mkSys r p (CCopy h n acc) S R) (mkSys r p (CCopy h n (acc ++ [b])) S R)
  | recv_store r p S R h n acc :
      Z.of_nat (length acc) = n ->
      step (mkSys r p (CCopy h n acc) S R)
           (mkSys (set_head r (u64 (h + n))) p CIdle S (R ++ acc))
  | recv_saw_closed r p S R :
      peer_closed r = true ->
      step (mkSys r p CIdle S R) (mkSys r p CSawClosed S R)
  | recv_not_empty r p S R :
      readable r <> 0 ->
      step (mkSys r p CSawClosed S R) (mkSys r p CIdle S R)
  | recv_eof r p S R :
      readable r = 0 ->
      step (mkSys r p CSawClosed S R) (mkSys r p CEof S R).

(** A fresh connection: the ring after [init], nothing sent. *)
Definition start (r : ShmRing) : sys := mkSys (init r) PIdle CIdle [] [].

Definition reachable (s : sys) : Prop :=
  exists r, Z.of_nat (length (data r)) = kBufBytes /\ rtc step (start r) s.

(** ** The invariant *)

Definition prod_ok (r : ShmRing) (T H : Z) (p : prod_state) : Prop :=
  match p with
  | PCopy t n buf i =>
      t = tail r /\ 0 <= n <= Z.of_nat (length buf) /\ Z.of_nat i <= n /\
      T + n <= H + kBufBytes /\
      forall j, 0 <= j < Z.of_nat i ->
        data r !! slot kBufBytes (T + j) = buf !! Z.to_nat j
  | _ => True
  end.

Definition cons_ok (r : ShmRing) (p : prod_state) (S : list byte) (H T : Z) (c : cons_state) : Prop :=
  match c with
  | CIdle => True
  | CCopy h n acc =>
      h = head r /\ Z.of_nat (length acc) <= n /\ 0 <= n /\ H + n <= T /\
      acc = take (length acc) (drop (Z.to_nat H) S)
  | CSawClosed => p = PClosed \/ p = PDead
  | CEof => (p = PClosed \/ p = PDead) /\ T = H
  end.

Record inv (s : sys) : Prop := {
  i_tail : tail (ring s) = u64 (Z.of_nat (length (sent s)));
  i_head : head (ring s) = u64 (Z.of_nat (length (rcvd s)));
  i_order : Z.of_nat (length (rcvd s)) <= Z.of_nat (length (sent s))
            <= Z.of_nat (length (rcvd s)) + kBufBytes;
  i_length : Z.of_nat (length (data (ring s))) = kBufBytes;
  i_data : forall j, Z.of_nat (length (rcvd s)) <= j < Z.of_nat (length (sent s)) ->
             data (ring s) !! slot kBufBytes j = sent s !! Z.to_nat j;
  i_rcvd : rcvd s = take (length (rcvd s)) (sent s);
  i_prod : prod_ok (ring s) (Z.of_nat (length (sent s))) (Z.of_nat (length (rcvd s))) (prod s);
  i_cons : cons_ok (ring s) (prod s) (sent s) (Z.of_nat (length (rcvd s)))
             (Z.of_nat (length (sent s))) (cons s);
  i_closed : closed (ring s) <> 0 -> prod s = PClosed \/ prod s = PDead
}.

End steps.

Section safety.
Context (kBufBytes : Z) `{!RingSize kBufBytes}.

Lemma copy_index_slot off n i :
  0 <= off < kBufBytes -> 0 <= i < n -> n <= kBufBytes ->
  Z.to_nat (copy_index kBufBytes off n i) = slot kBufBytes (off + i).
Proof.
  intros Ho Hi Hn. rewrite slot_split by (done || lia). unfold copy_index.
  f_equal. sd_case; sd_bool; lia.
Qed.

(** The slot a copying process touches is the one of its stream position. *)
Lemma copy_index_stream p n i :
  0 <= i < n -> n <= kBufBytes ->
  Z.to_nat (copy_index kBufBytes (Z.land (u64 p) (kMask kBufBytes)) n i)
  = slot kBufBytes (p + i).
Proof.
  intros Hi Hn. pose proof (size_pos kBufBytes).
  rewrite mask_mod, u64_mod by done.
  rewrite copy_index_slot by (done || lia || (by apply Z.mod_pos_bound)).
  by apply slot_mod.
Qed.

Lemma inv_readable s :
  inv kBufBytes s ->
  readable (ring s) = Z.of_nat (length (sent s)) - Z.of_nat (length (rcvd s)).
Proof.
  intros [Ht Hh Ho _ _ _ _ _ _]. unfold readable. rewrite Ht, Hh, uwrap_sub_uwrap.
  pose proof (ring_size_t (kBufBytes:=kBufBytes)).
  apply uwrap_small. unfold is_uint. lia.
Qed.

Lemma start_inv r : Z.of_nat (length (data r)) = kBufBytes -> inv kBufBytes (start r).
Proof.
  intros Hl. pose proof (size_pos kBufBytes).
  split; simpl; try done; intros; lia.
Qed.

(** The consumer's part of the invariant depends on the producer only through
    whether it is gone. *)
Lemma cons_ok_open r r' p p' S H T c :
  p <> PClosed -> p <> PDead -> head r' = head r ->
  cons_ok r p S H T c -> cons_ok r' p' S H T c.
Proof. intros ? ? Hh. destruct c; simpl; rewrite ?Hh; intuition congruence. Qed.

Lemma cons_ok_gone r r' p p' S H T c :
  p' = PClosed \/ p' = PDead -> head r' = head r ->
  cons_ok r p S H T c -> cons_ok r' p' S H T c.
Proof. intros ? Hh. destruct c; simpl; rewrite ?Hh; intuition. Qed.

Lemma send_load_inv r c S R buf len free :
  0 <= len <= Z.of_nat (length buf) ->
  free = u64 (kBufBytes - u64 (tail r - head r)) ->
  inv kBufBytes (mkSys r PIdle c S R) ->
  inv kBufBytes (mkSys r (PCopy (tail r) (if len <? free then len else free) buf 0) c S R).
Proof.
  intros Hlen Hfree Hinv. pose proof (inv_readable _ Hinv) as Hr.
  destruct Hinv as [Ht Hh Ho Hl Hd Hrc Hp Hc Hcl]; simpl in *.
  assert (Hf : free = kBufBytes - (Z.of_nat (length S) - Z.of_nat (length R))).
  { subst free. fold (readable r). rewrite Hr. pose proof (ring_size_t (kBufBytes:=kBufBytes)).
    apply uwrap_small. unfold is_uint. lia. }
  split; simpl; try done.
  - split_and!; try done; try (sd_case; sd_bool; lia).
  - by apply (cons_ok_open r r PIdle).
  - intros Hx. by destruct (Hcl Hx).
Qed.

Lemma send_byte_inv r c S R t n buf i b :
  Z.of_nat i < n -> buf !! i = Some b ->
  inv kBufBytes (mkSys r (PCopy t n buf i) c S R) ->
  inv kBufBytes (mkSys (put_byte kBufBytes r t n i b) (PCopy t n buf (i + 1)) c S R).
Proof.
  intros Hi Hb [Ht Hh Ho Hl Hd Hrc Hp Hc Hcl]; simpl in *.
  destruct Hp as (-> & Hn & Hin & Hroom & Hcop).
  assert (Hidx : Z.to_nat (copy_index kBufBytes (Z.land (tail r) (kMask kBufBytes)) n (Z.of_nat i))
                 = slot kBufBytes (Z.of_nat (length S) + Z.of_nat i))
    by (rewrite Ht; apply copy_index_stream; lia).
  pose proof (slot_lt kBufBytes (Z.of_nat (length S) + Z.of_nat i)) as Hlt.
  split; simpl; rewrite ?length_insert, ?Hidx; try done.
  - intros j Hj. rewrite list_lookup_insert_ne by (apply slot_ne; (done || lia)). by apply Hd.
  - split_and!; try done; try lia. intros j Hj.
    destruct (decide (j = Z.of_nat i)) as [->|].
    + rewrite list_lookup_insert_eq by lia. rewrite Nat2Z.id. done.
    + rewrite list_lookup_insert_ne by (apply slot_ne; (done || lia)). apply Hcop. lia.
  - by apply (cons_ok_open r _ (PCopy (tail r) n buf i)).
  - intros Hx. by destruct (Hcl Hx).
Qed.

(** Appending to the stream does not change a prefix of it. *)
Lemma take_drop_app_l {A} (S X : list A) (a b : nat) :
  (a + b <= length S)%nat -> take b (drop a (S ++ X)) = take b (drop a S).
Proof.
  intros. rewrite drop_app_le by lia. rewrite take_app_le; [done|rewrite length_drop; lia].
Qed.

Lemma send_store_inv r c S R t n buf i :
  Z.of_nat i = n ->
  inv kBufBytes (mkSys r (PCopy t n buf i) c S R) ->
  inv kBufBytes (mkSys (set_tail r (u64 (t + n))) PIdle c (S ++ take (Z.to_nat n) buf) R).
Proof.
  intros <- [Ht Hh Ho Hl Hd Hrc Hp Hc Hcl]; simpl in *.
  destruct Hp as (-> & Hn & Hin & Hroom & Hcop). rewrite Nat2Z.id.
  assert (Hlen : length (S ++ take i buf) = (length S + i)%nat)
    by (rewrite length_app, length_take; lia).
  split; simpl; rewrite ?Hlen; try done.
  - rewrite Ht, uwrap_add_l. f_equal. lia.
  - lia.
  - intros j Hj. destruct (decide (j < Z.of_nat (length S))).
    + rewrite lookup_app_l by lia. apply Hd. lia.
    + rewrite lookup_app_r, lookup_take_lt by lia.
      replace j with (Z.of_nat (length S) + (j - Z.of_nat (length S))) at 1 by lia.
      rewrite Hcop by lia. f_equal; lia.
  - rewrite take_app_le by lia. done.
  - destruct c as [|h n acc| |]; simpl in *; [done| |intuition congruence|intuition congruence].
    destruct Hc as (-> & Ha & Hn' & Hle & Hacc). split_and!; try done; try lia.
    rewrite Hacc at 1. symmetry. apply take_drop_app_l. lia.
  - intros Hx. by destruct (Hcl Hx).
Qed.

Lemma recv_load_inv r p S R len avail :
  0 <= len -> avail = u64 (tail r - head r) ->
  inv kBufBytes (mkSys r p CIdle S R) ->
  inv kBufBytes (mkSys r p (CCopy (head r) (if len <? avail then len else avail) []) S R).
Proof.
  intros Hlen Hav Hinv. pose proof (inv_readable _ Hinv) as Hr.
  destruct Hinv as [Ht Hh Ho Hl Hd Hrc Hp Hc Hcl]; simpl in *.
  assert (avail = Z.of_nat (length S) - Z.of_nat (length R)) by (subst avail; exact Hr).
  split; simpl; try done. split_and!; try done; sd_case; sd_bool; lia.
Qed.

Lemma recv_byte_inv r p S R h n acc b :
  Z.of_nat (length acc) < n ->
  data r !! Z.to_nat (copy_index kBufBytes (Z.land h (kMask kBufBytes)) n
                        (Z.of_nat (length acc))) = Some b ->
  inv kBufBytes (mkSys r p (CCopy h n acc) S R) ->
  inv kBufBytes (mkSys r p (CCopy h n (acc ++ [b])) S R).
Proof.
  intros Hlt Hb [Ht Hh Ho Hl Hd Hrc Hp Hc Hcl]; simpl in *.
  destruct Hc as (-> & Ha & Hn & Hle & Hacc).
  rewrite Hh, copy_index_stream, Hd in Hb by (done || lia).
  split; simpl; try done. rewrite length_app; simpl. split_and!; try done; try lia.
  rewrite Nat.add_1_r. erewrite take_S_r; [by rewrite <- Hacc|].
  rewrite lookup_drop, <- Hb. f_equal. lia.
Qed.

Lemma recv_store_inv r p S R h n acc :
  Z.of_nat (length acc) = n ->
  inv kBufBytes (mkSys r p (CCopy h n acc) S R) ->
  inv kBufBytes (mkSys (set_head r (u64 (h + n))) p CIdle S (R ++ acc)).
Proof.
  intros <- [Ht Hh Ho Hl Hd Hrc Hp Hc Hcl]; simpl in *.
  destruct Hc as (-> & Ha & Hn & Hle & Hacc). rewrite Nat2Z.id in Hacc.
  split; simpl; rewrite ?length_app, ?Nat2Z.inj_add; try done.
  - rewrite Hh, uwrap_add_l. f_equal.
  - lia.
  - intros j Hj. apply Hd. lia.
  - rewrite <- take_take_drop, <- Hrc. f_equal. exact Hacc.
  - destruct p; try done. simpl in *. intuition lia.
Qed.

Lemma step_inv s s' : step kBufBytes s s' -> inv kBufBytes s -> inv kBufBytes s'.
Proof.
  destruct 1; intros Hinv;
    eauto using send_load_inv, send_byte_inv, send_store_inv,
      recv_load_inv, recv_byte_inv, recv_store_inv;
    pose proof (inv_readable _ Hinv) as Hr;
    destruct Hinv as [Ht Hh Ho Hl Hd Hrc Hp Hc Hcl]; simpl in *;
    (split; simpl; try done; try (by eapply cons_ok_gone; eauto); auto).
  - apply Hcl. unfold peer_closed in *. sd_bool. done.
  - split; [done|]. lia.
Qed.

End safety.

Section theorems.
Context (kBufBytes : Z) `{!RingSize kBufBytes}.

Lemma rtc_step_inv s s' :
  rtc (step kBufBytes) s s' -> inv kBufBytes s -> inv kBufBytes s'.
Proof. induction 1; eauto using step_inv. Qed.

Lemma reachable_inv s : reachable kBufBytes s -> inv kBufBytes s.
Proof. intros (r & Hl & Hrun). by eapply rtc_step_inv, start_inv. Qed.

Lemma inv_wf s : inv kBufBytes s -> wf kBufBytes (ring s).
Proof.
  intros Hi. pose proof (inv_readable _ _ Hi). destruct Hi.
  split; rewrite ?i_tail0, ?i_head0; auto using u64_range. lia.
Qed.

(** What the ring holds is what was sent and not yet received. *)
Lemma inv_contents s :
  inv kBufBytes s -> contents kBufBytes (ring s) = drop (length (rcvd s)) (sent s).
Proof.
  intros Hi. pose proof (inv_wf _ Hi) as Hwf. pose proof (inv_readable _ _ Hi) as Hr.
  pose proof (contents_length kBufBytes (ring s)) as Hl.
  destruct Hi as [Ht Hh Ho _ Hd _ _ _ _].
  apply list_eq. intros j. rewrite lookup_drop.
  destruct (decide (Z.of_nat j < readable (ring s))).
  - rewrite <- (Nat2Z.id j) at 1. rewrite (contents_lookup kBufBytes) by (done || lia).
    rewrite Hh, slot_u64, Hd by (done || lia). f_equal. lia.
  - rewrite !lookup_ge_None_2; [done|lia|lia].
Qed.

(** C1: in every interleaving of a producer and a consumer, whatever the
    point of their calls they are at, the bytes received followed by the bytes
    held in the ring are exactly the bytes published, in order, and at most
    the capacity of them is in flight. *)
Theorem spsc_stream s :
  reachable kBufBytes s ->
  sent s = rcvd s ++ contents kBufBytes (ring s)
  /\ Z.of_nat (length (contents kBufBytes (ring s))) <= kBufBytes
  /\ wf kBufBytes (ring s).
Proof.
  intros Hi%reachable_inv. pose proof (inv_wf _ Hi) as Hwf.
  rewrite contents_length by done. rewrite inv_contents by done. split_and!; [|apply Hwf|done].
  rewrite <- (take_drop (length (rcvd s)) (sent s)) at 1. f_equal. symmetry. apply Hi.
Qed.

Definition gone (p : prod_state) : Prop := p = PClosed \/ p = PDead.

Lemma gone_step s s' :
  step kBufBytes s s' -> gone (prod s) -> gone (prod s') /\ sent s' = sent s.
Proof. unfold gone. destruct 1; simpl; intuition congruence. Qed.

Lemma gone_run s s' :
  rtc (step kBufBytes) s s' -> gone (prod s) -> sent s' = sent s.
Proof.
  induction 1 as [|x y z Hxy _ IH]; [done|]. intros Hg.
  destruct (gone_step _ _ Hxy Hg) as [Hg' Hs]. rewrite <- Hs. auto.
Qed.

(** The end-of-file test of [shm_recv] ([peer_closed()] first, then
    [readable() == 0]) answers only when everything the producer ever publishes
    has been received, whether the producer closed the ring or died in the
    middle of a send. *)
Theorem spsc_eof_complete s s' :
  reachable kBufBytes s -> cons s = CEof -> rtc (step kBufBytes) s s' ->
  rcvd s = sent s /\ sent s' = sent s.
Proof.
  intros Hi%reachable_inv Hc Hrun. pose proof (i_cons _ _ Hi) as Hk. rewrite Hc in Hk.
  destruct Hk as [Hg Hlen]. split; [|by eapply gone_run].
  rewrite (i_rcvd _ _ Hi). apply take_ge. lia.
Qed.

(** ** The operations as runs of steps *)

(** Two data arrays that agree on one lap of slots are equal. *)
Lemma data_ext (d1 d2 : list byte) p :
  Z.of_nat (length d1) = kBufBytes -> Z.of_nat (length d2) = kBufBytes ->
  (forall j, 0 <= j < kBufBytes ->
     d1 !! slot kBufBytes (p + j) = d2 !! slot kBufBytes (p + j)) -> d1 = d2.
Proof.
  intros H1 H2 Heq. pose proof (size_pos kBufBytes). apply list_eq. intros x.
  destruct (decide (Z.of_nat x < kBufBytes)).
  - assert (Hs : slot kBufBytes (p + (Z.of_nat x - p) mod kBufBytes) = x).
    { unfold slot. rewrite Zplus_mod_idemp_r.
      replace (p + (Z.of_nat x - p)) with (Z.of_nat x) by lia.
      rewrite Z.mod_small by lia. lia. }
    rewrite <- Hs. apply Heq. by apply Z.mod_pos_bound.
  - rewrite !lookup_ge_None_2; [done|lia|lia].
Qed.

(** The copy loop of the producer, [i] bytes in. *)
Lemma send_bytes_run r c S R n buf (i : nat) :
  wf kBufBytes r -> Z.of_nat i <= n -> n <= Z.of_nat (length buf) -> n <= kBufBytes ->
  exists r', rtc (step kBufBytes) (mkSys r (PCopy (tail r) n buf 0) c S R)
                 (mkSys r' (PCopy (tail r) n buf i) c S R)
  /\ tail r' = tail r /\ closed r' = closed r /\ head r' = head r
  /\ length (data r') = length (data r)
  /\ forall j, 0 <= j < kBufBytes ->
       data r' !! slot kBufBytes (tail r + j)
       = if j <? Z.of_nat i then buf !! Z.to_nat j else data r !! slot kBufBytes (tail r + j).
Proof.
  intros Hwf Hi Hb Hk. induction i as [|i IH].
  { exists r. split_and!; try done. intros j Hj. destruct (Z.ltb_spec j (Z.of_nat 0)); [lia|done]. }
  destruct IH as (r' & Hrun & Ht & Hc & Hh & Hl & Hd); [lia|].
  destruct (lookup_lt_is_Some_2 buf i) as [b Hb']; [lia|].
  exists (put_byte kBufBytes r' (tail r) n i b). split_and!; try done.
  - eapply rtc_r; [exact Hrun|]. replace (Datatypes.S i) with (i + 1)%nat by lia.
    by apply send_byte; [lia|].
  - simpl. by rewrite length_insert.
  - intros j Hj. pose proof (wf_data _ _ Hwf). simpl.
    assert (Z.to_nat (copy_index kBufBytes (Z.land (tail r) (kMask kBufBytes)) n (Z.of_nat i))
            = slot kBufBytes (tail r + Z.of_nat i)) as ->.
    { rewrite <- (copy_index_stream kBufBytes (tail r) n) by lia.
      by rewrite (uwrap_small 64 (tail r)) by apply Hwf. }
    pose proof (slot_lt kBufBytes (tail r + Z.of_nat i)).
    destruct (decide (j = Z.of_nat i)) as [->|Hne].
    + rewrite list_lookup_insert_eq by lia. rewrite Nat2Z.id.
      destruct (Z.ltb_spec (Z.of_nat i) (Z.of_nat (Datatypes.S i))); [done|lia].
    + rewrite list_lookup_insert_ne.
      2:{ destruct (Z.lt_ge_cases j (Z.of_nat i)); [|apply not_eq_sym];
            apply slot_ne; (done || lia). }
      rewrite Hd by done.
      destruct (Z.ltb_spec j (Z.of_nat i)), (Z.ltb_spec j (Z.of_nat (Datatypes.S i))); (done || lia).
Qed.

(** The function [send_some] is one of the schedules of the step relation:
    loading the indices, copying the bytes one by one and storing [tail]
    reaches the ring the function computes and publishes the bytes it
    accepts. *)
Theorem send_some_is_run r c S R buf len :
  wf kBufBytes r -> 0 <= len <= Z.of_nat (length buf) -> writable kBufBytes r <> 0 ->
  let '(n, r') := send_some kBufBytes r buf len in
  rtc (step kBufBytes) (mkSys r PIdle c S R)
      (mkSys r' PIdle c (S ++ take (Z.to_nat n) buf) R).
Proof.
  intros Hwf Hlen Hfree. pose proof (free_bytes kBufBytes r Hwf) as Hf.
  pose proof (readable_nonneg r). pose proof (wf_used _ _ Hwf). pose proof (wf_data _ _ Hwf).
  unfold send_some. fold (writable kBufBytes r).
  rewrite (proj2 (Z.eqb_neq (writable kBufBytes r) 0)) by done.
  set (n := if len <? writable kBufBytes r then len else writable kBufBytes r).
  assert (Hn : 0 <= n <= Z.of_nat (length buf) /\ n <= kBufBytes)
    by (subst n; sd_case; sd_bool; lia).
  destruct (send_bytes_run r c S R n buf (Z.to_nat n)) as (r' & Hrun & Ht & Hc & Hh & Hl & Hd);
    [done|lia|lia|lia|].
  eapply rtc_l; [by apply (send_load _ _ _ _ _ buf len (writable kBufBytes r))|]. fold n.
  eapply rtc_r; [exact Hrun|].
  replace (mkRing _ _ _ _) with (set_tail r' (u64 (tail r + n))); [apply send_store; lia|].
  unfold set_tail. rewrite Hc, Hh. f_equal.
  assert (Hoff : 0 <= tail r mod kBufBytes < kBufBytes)
    by (apply Z.mod_pos_bound, size_pos; done).
  apply (data_ext _ _ (tail r)); rewrite ?copy_in_length; [lia|done|].
  intros j Hj. rewrite Hd, mask_mod by done. rewrite <- (slot_mod kBufBytes (tail r)).
  destruct (Z.ltb_spec j (Z.of_nat (Z.to_nat n))).
  - rewrite copy_in_inside by (done || lia). done.
  - rewrite copy_in_outside by (done || lia). done.
Qed.

End theorems.

End Spsc.

(** ** Instances *)

#[export] Instance ring_4096 : RingSize 4096.
Proof. by split. Qed.

(** The size of the segment's rings. *)
#[export] Instance ring_1MiB : RingSize (2 ^ 20).
Proof. by split. Qed.

(** A ring whose counters are about to wrap around [2^64], with two bytes in
    it. *)
Definition wrap_ring : Ring.ShmRing :=
  {| Ring.tail := 2 ^ 64 - 1; Ring.closed := 0; Ring.head := 2 ^ 64 - 3;
     Ring.data := <[4094%nat := x43]> (<[4093%nat := x42]> (replicate 4096 x00)) |}.

Lemma wrap_ring_wf : Ring.wf 4096 wrap_ring.
Proof. split; vm_compute; intuition congruence. Qed.

Lemma send_some_refines_witness :
  let '(n, r') := Ring.send_some 4096 wrap_ring [x44; x45; x46] 3 in
  (n, Ring.contents 4096 r') = Ring.spec_send 4096 [x42; x43] [x44; x45; x46] 3.
Proof.
  pose proof (Ring.send_some_refines 4096 wrap_ring [x44; x45; x46] 3
    wrap_ring_wf ltac:(vm_compute; intuition congruence)) as H.
  destruct (Ring.send_some 4096 wrap_ring [x44; x45; x46] 3). destruct H as [H _]. exact H.
Defined.

Lemma recv_some_refines_witness :
  let '(bs, r') := Ring.recv_some 4096 wrap_ring 1 in
  (bs, Ring.contents 4096 r') = Ring.spec_recv [x42; x43] 1.
Proof.
  pose proof (Ring.recv_some_refines 4096 wrap_ring 1 wrap_ring_wf ltac:(lia)) as H.
  destruct (Ring.recv_some 4096 wrap_ring 1). destruct H as [H _]. exact H.
Defined.

(** A run: two bytes are published, the consumer has copied the first one. *)
Definition zero_ring : Ring.ShmRing :=
  {| Ring.tail := 0; Ring.closed := 0; Ring.head := 0; Ring.data := replicate 4096 x00 |}.

Definition demo_ring : Ring.ShmRing :=
  Spsc.set_tail (Spsc.put_byte 4096 (Spsc.put_byte 4096 (Ring.init zero_ring) 0 2 0 x41) 0 2 1 x42) 2.

Definition demo : Spsc.sys :=
  Spsc.mkSys demo_ring Spsc.PIdle (Spsc.CCopy 0 2 [x41]) [x41; x42] [].

Ltac spsc_step C := eapply rtc_l; [apply C; vm_compute; intuition congruence|].

Lemma demo_reachable : Spsc.reachable 4096 demo.
Proof.
  exists zero_ring. split; [by vm_compute|]. unfold demo, Spsc.start.
  spsc_step (Spsc.send_load 4096 (Ring.init zero_ring) Spsc.CIdle [] [] [x41; x42] 2 4096).
  spsc_step (Spsc.send_byte 4096 (Ring.init zero_ring) Spsc.CIdle [] [] 0 2 [x41; x42] 0 x41).
  spsc_step (Spsc.send_byte 4096 (Spsc.put_byte 4096 (Ring.init zero_ring) 0 2 0 x41)
    Spsc.CIdle [] [] 0 2 [x41; x42] 1 x42).
  eapply rtc_l; [by apply Spsc.send_store|].
  change (Spsc.set_tail _ _) with demo_ring.
  spsc_step (Spsc.recv_load 4096 demo_ring Spsc.PIdle [x41; x42] [] 2 2).
  spsc_step (Spsc.recv_byte 4096 demo_ring Spsc.PIdle [x41; x42] [] 0 2 [] x41).
  apply rtc_refl.
Qed.

Lemma spsc_stream_witness :
  Spsc.sent demo = Spsc.rcvd demo ++ Ring.contents 4096 (Spsc.ring demo).
Proof. apply (Spsc.spsc_stream 4096 demo demo_reachable). Defined.

(** A run to end of file: one byte is published and received, then the
    producer dies in the middle of its next send. *)
Definition eof_ring : Ring.ShmRing :=
  Ring.mark_closed (Spsc.put_byte 4096
    (Spsc.set_tail (Spsc.put_byte 4096 (Ring.init zero_ring) 0 1 0 x41) 1) 1 2 0 x42).

Definition eof_sys : Spsc.sys :=
  Spsc.mkSys (Spsc.set_head eof_ring 1) Spsc.PDead Spsc.CEof [x41] [x41].

Lemma eof_reachable : Spsc.reachable 4096 eof_sys.
Proof.
  exists zero_ring. split; [by vm_compute|]. unfold eof_sys, Spsc.start.
  spsc_step (Spsc.send_load 4096 (Ring.init zero_ring) Spsc.CIdle [] [] [x41] 1 4096).
  spsc_step (Spsc.send_byte 4096 (Ring.init zero_ring) Spsc.CIdle [] [] 0 1 [x41] 0 x41).
  eapply rtc_l; [by apply Spsc.send_store|].
  set (r1 := Spsc.set_tail _ _).
  spsc_step (Spsc.send_load 4096 r1 Spsc.CIdle [x41] [] [x42; x43] 2 4095).
  spsc_step (Spsc.send_byte 4096 r1 Spsc.CIdle [x41] [] 1 2 [x42; x43] 0 x42).
  eapply rtc_l; [apply Spsc.send_crash|].
  eapply rtc_l; [apply Spsc.peer_reaped|].
  change (Ring.mark_closed _) with eof_ring.
  spsc_step (Spsc.recv_load 4096 eof_ring Spsc.PDead [x41] [] 64 1).
  spsc_step (Spsc.recv_byte 4096 eof_ring Spsc.PDead [x41] [] 0 1 [] x41).
  eapply rtc_l; [by apply Spsc.recv_store|].
  change (Spsc.set_head _ _) with (Spsc.set_head eof_ring 1).
  spsc_step (Spsc.recv_saw_closed 4096 (Spsc.set_head eof_ring 1) Spsc.PDead [x41] [x41]).
  spsc_step (Spsc.recv_eof 4096 (Spsc.set_head eof_ring 1) Spsc.PDead [x41] [x41]).
  apply rtc_refl.
Qed.

Lemma spsc_eof_complete_witness : Spsc.rcvd eof_sys = Spsc.sent eof_sys.
Proof.
  apply (Spsc.spsc_eof_complete 4096 eof_sys eof_sys eof_reachable eq_refl (rtc_refl _ _)).
Defined.

Lemma send_some_is_run_witness :
  let '(n, r') := Ring.send_some 4096 wrap_ring [x44; x45; x46] 3 in
  rtc (Spsc.step 4096)
    (Spsc.mkSys wrap_ring Spsc.PIdle Spsc.CIdle [x42; x43] [])
    (Spsc.mkSys r' Spsc.PIdle Spsc.CIdle ([x42; x43] ++ take (Z.to_nat n) [x44; x45; x46]) []).
Proof.
  apply (Spsc.send_some_is_run 4096); [apply wrap_ring_wf|vm_compute; intuition congruence..].
Defined.
