(* ===== verification/MonitorIpc.v ===== *)
(** * The control-plane wire protocol

    [include/socksdirect/monitor_ipc.hpp]: newline-delimited JSON requests and
    responses between the monitor, [socksdirect-ctl] and the preload library.
    A [std::string] is a [string] of bytes; the cursor [pos] into a string [s]
    is represented by the suffix of [s] that starts at it, so that [++pos]
    drops a character and [pos >= s.size()] is the empty suffix. *)

From stdpp Require Import base list numbers strings option.
From Stdlib Require Import ZArith Lia Ascii.
From S2P Require Import Prelude.

Open Scope stdpp_scope.
Open Scope Z_scope.

Module Ipc.

Definition dq : ascii := "034"%char.
Definition bs : ascii := "\"%char.
Definition nl : ascii := "010"%char.
Definition cr : ascii := "013"%char.
Definition tab : ascii := "009"%char.

(** A literal of the source such as ["op"] with its quotes. *)
Definition quoted (s : string) : string := String dq (s +:+ String dq "").

Definition kMonitorCtlSocketDefault : string := "/run/socksdirect/control.sock".

Record CtlRequest := mkReq { op : string; args : list string }.
Record CtlResponse := mkResp { ok : bool; lines : list string; error : string }.

#[export] Instance CtlRequest_eq_dec : EqDecision CtlRequest.
Proof. solve_decision. Defined.
#[export] Instance CtlResponse_eq_dec : EqDecision CtlResponse.
Proof. solve_decision. Defined.

(** ** Encoder *)

(** One digit of [%x]. *)
Definition hex_digit (d : N) : ascii :=
  if (d <? 10)%N then ascii_of_N (48 + d) else ascii_of_N (87 + d).

(** [snprintf(esc, 8, "\\u%04x", c)] for a byte [c]. *)
Definition unicode_escape (c : ascii) : string :=
  let n := N_of_ascii c in
  String bs (String "u" (String "0" (String "0"
    (String (hex_digit (n / 16)) (String (hex_digit (n mod 16)) ""))))).

(** The [switch] of [json_escape]. *)
Definition json_escape_char (c : ascii) : string :=
  if (c =? bs)%char then String bs (String bs "")
  else if (c =? dq)%char then String bs (String dq "")
  else if (c =? nl)%char then String bs "n"
  else if (c =? cr)%char then String bs "r"
  else if (c =? tab)%char then String bs "t"
  else if (N_of_ascii c <? 32)%N then unicode_escape c
  else String c "".

Fixpoint escape_body (s : string) : string :=
  match s with
  | "" => ""
  | String c s' => json_escape_char c +:+ escape_body s'
  end.

(** [json_escape(s, out)], as what it appends to [out]. *)
Definition json_escape (s : string) : string :=
  String dq (escape_body s +:+ String dq "").

(** The loop over [args] or [lines] with its [first] flag. *)
Fixpoint escape_list (first : bool) (l : list string) : string :=
  match l with
  | [] => ""
  | a :: l' => (if first then "" else ",") +:+ json_escape a +:+ escape_list false l'
  end.

Definition encode_request (req : CtlRequest) : string :=
  "{" +:+ quoted "op" +:+ ":" +:+ json_escape (op req)
  +:+ "," +:+ quoted "args" +:+ ":[" +:+ escape_list true (args req)
  +:+ "]}" +:+ String nl "".

Definition encode_response (resp : CtlResponse) : string :=
  if ok resp then
    "{" +:+ quoted "ok" +:+ ":true," +:+ quoted "lines" +:+ ":["
    +:+ escape_list true (lines resp) +:+ "]}" +:+ String nl ""
  else
    "{" +:+ quoted "ok" +:+ ":false," +:+ quoted "error" +:+ ":"
    +:+ json_escape (error resp) +:+ "}" +:+ String nl "".

(** ** Decoder *)

Definition is_ws (c : ascii) : bool :=
  (c =? " ")%char || (c =? tab)%char || (c =? nl)%char || (c =? cr)%char.

Fixpoint skip_ws (s : string) : string :=
  match s with
  | "" => ""
  | String c s' => if is_ws c then skip_ws s' else s
  end.

Definition hex_value (c : ascii) : option N :=
  let n := N_of_ascii c in
  if ((48 <=? n) && (n <=? 57))%N then Some (n - 48)%N
  else if ((97 <=? n) && (n <=? 102))%N then Some (10 + (n - 97))%N
  else if ((65 <=? n) && (n <=? 70))%N then Some (10 + (n - 65))%N
  else None.

(** The bytes pushed for [\uXXXX]: the UTF-8 encoding of a 16-bit value. *)
Definition push_codepoint (v : N) : string :=
  if (v <? 128)%N then String (ascii_of_N v) ""
  else if (v <? 2048)%N then
    String (ascii_of_N (N.lor 192 (N.shiftr v 6)))
      (String (ascii_of_N (N.lor 128 (N.land v 63))) "")
  else
    String (ascii_of_N (N.lor 224 (N.shiftr v 12)))
      (String (ascii_of_N (N.lor 128 (N.land (N.shiftr v 6) 63)))
        (String (ascii_of_N (N.lor 128 (N.land v 63))) "")).

(** [out] receives [pre] before what the rest of the loop pushes. *)
Definition pushing (pre : string) (r : option (string * string)) : option (string * string) :=
  match r with
  | Some (out, rest) => Some (pre +:+ out, rest)
  | None => None
  end.

(** The loop of [parse_string], after the opening quote. *)
Fixpoint parse_chars (s : string) : option (string * string) :=
  match s with
  | "" => None
  | String c s1 =>
      if (c =? dq)%char then Some ("", s1)
      else if (c =? bs)%char then
        match s1 with
        | "" => None
        | String esc s2 =>
            if (esc =? dq)%char then pushing (String dq "") (parse_chars s2)
            else if (esc =? bs)%char then pushing (String bs "") (parse_chars s2)
            else if (esc =? "/")%char then pushing "/" (parse_chars s2)
            else if (esc =? "n")%char then pushing (String nl "") (parse_chars s2)
            else if (esc =? "r")%char then pushing (String cr "") (parse_chars s2)
            else if (esc =? "t")%char then pushing (String tab "") (parse_chars s2)
            else if (esc =? "b")%char then pushing (String "008" "") (parse_chars s2)
            else if (esc =? "f")%char then pushing (String "012" "") (parse_chars s2)
            else if (esc =? "u")%char then
              match s2 with
              | String h1 (String h2 (String h3 (String h4 s3))) =>
                  match hex_value h1, hex_value h2, hex_value h3, hex_value h4 with
                  | Some d1, Some d2, Some d3, Some d4 =>
                      pushing (push_codepoint (((d1 * 16 + d2) * 16 + d3) * 16 + d4)%N)
                        (parse_chars s3)
                  | _, _, _, _ => None
                  end
              | _ => None
              end
            else None
        end
      else pushing (String c "") (parse_chars s1)
  end.

(** [parse_string(s, pos, out)]: the string read and the new cursor. *)
Definition parse_string (s : string) : option (string * string) :=
  match s with
  | String c s' => if (c =? dq)%char then parse_chars s' else None
  | "" => None
  end.

(** The [for (;;)] of [parse_string_array]; every turn consumes input, so the
    length of the input bounds the number of turns. *)
Fixpoint parse_elements (fuel : nat) (s : string) : option (list string * string) :=
  match fuel with
  | O => None
  | S fuel =>
      match parse_string (skip_ws s) with
      | None => None
      | Some (tmp, s) =>
          match skip_ws s with
          | "" => None
          | String c s =>
              if (c =? ",")%char then
                match parse_elements fuel s with
                | Some (l, s) => Some (tmp :: l, s)
                | None => None
                end
              else if (c =? "]")%char then Some ([tmp], s)
              else None
          end
      end
  end.

Definition parse_string_array (s : string) : option (list string * string) :=
  match skip_ws s with
  | String c s =>
      if (c =? "[")%char then
        let s := skip_ws s in
        match s with
        | String d s' =>
            if (d =? "]")%char then Some ([], s')
            else parse_elements (String.length s) s
        | "" => parse_elements (String.length s) s
        end
      else None
  | "" => None
  end.

(** [if (!s.empty() && s.back() == c) s.pop_back();] *)
Fixpoint pop_back_if (c : ascii) (s : string) : string :=
  match s with
  | "" => ""
  | String d "" => if (d =? c)%char then "" else s
  | String d s' => String d (pop_back_if c s')
  end.

(** Skipping the value of an unknown key of a request. *)
Definition skip_value (s : string) : option string :=
  match s with
  | String c _ =>
      if (c =? dq)%char then snd <$> parse_string s
      else if (c =? "[")%char then snd <$> parse_string_array s
      else None
  | "" => None
  end.

(** [return got_op && got_args;] *)
Definition request_done (out : CtlRequest) (got_op got_args : bool) : option CtlRequest :=
  if got_op && got_args then Some out else None.

(** One turn of the loop of [decode_request] after the key and its colon;
    [loop] is the next turn. *)
Definition request_field
    (loop : string -> CtlRequest -> bool -> bool -> option CtlRequest)
    (key s : string) (out : CtlRequest) (got_op got_args : bool) : option CtlRequest :=
  let after out got_op got_args s :=
    match skip_ws s with
    | "" => None
    | String c s =>
        if (c =? ",")%char then loop s out got_op got_args
        else if (c =? "}")%char then request_done out got_op got_args
        else None
    end in
  if String.eqb key "op" then
    match parse_string s with
    | None => None
    | Some (v, s) => after (mkReq v (args out)) true got_args s
    end
  else if String.eqb key "args" then
    match parse_string_array s with
    | None => None
    | Some (v, s) => after (mkReq (op out) v) got_op true s
    end
  else
    match skip_value s with
    | None => None
    | Some s => after out got_op got_args s
    end.

(** The key of a field and its colon, with the cursor on the value. *)
Definition parse_key (s : string) : option (string * string) :=
  match parse_string s with
  | None => None
  | Some (key, s) =>
      match skip_ws s with
      | String c s => if (c =? ":")%char then Some (key, skip_ws s) else None
      | "" => None
      end
  end.

(** [while (pos < s.size())] of [decode_request]. *)
Fixpoint request_loop (fuel : nat) (s : string) (out : CtlRequest) (got_op got_args : bool)
    : option CtlRequest :=
  match fuel with
  | O => None
  | S fuel =>
      match s with
      | "" => request_done out got_op got_args
      | _ =>
          match skip_ws s with
          | "" => None
          | String c _ as s0 =>
              if (c =? "}")%char then request_done out got_op got_args else
              match parse_key s0 with
              | None => None
              | Some (key, s) => request_field (request_loop fuel) key s out got_op got_args
              end
          end
      end
  end.

(** [decode_request(s_in, out)]: [None] is the result [false]. *)
Definition decode_request (s_in : string) : option CtlRequest :=
  let s := pop_back_if cr (pop_back_if nl s_in) in
  match skip_ws s with
  | String c s =>
      if (c =? "{")%char
      then request_loop (S (String.length s)) s (mkReq "" []) false false
      else None
  | "" => None
  end.

(** [s.compare(pos, n, lit) == 0], with the cursor after the literal. *)
Fixpoint eat (lit s : string) : option string :=
  match lit, s with
  | "", _ => Some s
  | String a lit, String b s => if (a =? b)%char then eat lit s else None
  | String _ _, "" => None
  end.

(** Skipping the value of an unknown key of a response. *)
Definition skip_value_resp (s : string) : option string :=
  match s with
  | String c _ =>
      if (c =? dq)%char then snd <$> parse_string s
      else if (c =? "[")%char then snd <$> parse_string_array s
      else match eat "true" s with
           | Some s' => Some s'
           | None =>
               match eat "false" s with
               | Some s' => Some s'
               | None => eat "null" s
               end
           end
  | "" => None
  end.

(** The value of the key [ok]. *)
Definition parse_ok (s : string) : option (bool * string) :=
  match eat "true" s with
  | Some s' => Some (true, s')
  | None => match eat "false" s with
            | Some s' => Some (false, s')
            | None => None
            end
  end.

(** [return got_ok;] *)
Definition response_done (out : CtlResponse) (got_ok : bool) : option CtlResponse :=
  if got_ok then Some out else None.

(** One turn of the loop of [decode_response] after the key and its colon. *)
Definition response_field (loop : string -> CtlResponse -> bool -> option CtlResponse)
    (key s : string) (out : CtlResponse) (got_ok : bool) : option CtlResponse :=
  let after out got_ok s :=
    match skip_ws s with
    | "" => None
    | String c s =>
        if (c =? ",")%char then loop s out got_ok
        else if (c =? "}")%char then response_done out got_ok
        else None
    end in
  if String.eqb key "ok" then
    match parse_ok s with
    | None => None
    | Some (v, s) => after (mkResp v (lines out) (error out)) true s
    end
  else if String.eqb key "lines" then
    match parse_string_array s with
    | None => None
    | Some (v, s) => after (mkResp (ok out) v (error out)) got_ok s
    end
  else if String.eqb key "error" then
    match parse_string s with
    | None => None
    | Some (v, s) => after (mkResp (ok out) (lines out) v) got_ok s
    end
  else
    match skip_value_resp s with
    | None => None
    | Some s => after out got_ok s
    end.

(** [while (pos < s.size())] of [decode_response]. *)
Fixpoint response_loop (fuel : nat) (s : string) (out : CtlResponse) (got_ok : bool)
    : option CtlResponse :=
  match fuel with
  | O => None
  | S fuel =>
      match s with
      | "" => response_done out got_ok
      | _ =>
          match skip_ws s with
          | "" => None
          | String c _ as s0 =>
              if (c =? "}")%char then response_done out got_ok else
              match parse_key s0 with
              | None => None
              | Some (key, s) => response_field (response_loop fuel) key s out got_ok
              end
          end
      end
  end.

Definition decode_response (s_in : string) : option CtlResponse :=
  let s := pop_back_if cr (pop_back_if nl s_in) in
  match skip_ws s with
  | String c s =>
      if (c =? "{")%char
      then response_loop (S (String.length s)) s (mkResp false [] "") false
      else None
  | "" => None
  end.

(** ** Socket helpers

    The results of successive [read(fd, &c, 1)] and [write(fd, p, left)] calls
    are given as lists; a list that runs out is a call still blocked. *)
Inductive read1 := RByte (c : ascii) | REof | RErr (e : errno).

(** [read_line]: the line, the value of [*eof_out], the calls not made. *)
Fixpoint read_line_from (out : string) (rs : list read1) : option (string * bool * list read1) :=
  match rs with
  | [] => None
  | RByte c :: rs =>
      if (c =? nl)%char then Some (out, false, rs)
      else
        let out := out +:+ String c "" in
        if Z.of_nat (String.length out) >? 2 ^ 20 then Some (out, false, rs)
        else read_line_from out rs
  | REof :: rs => Some (out, true, rs)
  | RErr e :: rs =>
      if bool_decide (e = EINTR) then read_line_from out rs else Some (out, true, rs)
  end.

Definition read_line (rs : list read1) : option (string * bool * list read1) :=
  read_line_from "" rs.

Inductive writen := WOk (n : Z) | WErr (e : errno).

Fixpoint str_drop (n : nat) (s : string) : string :=
  match n, s with
  | O, _ => s
  | S n, String _ s => str_drop n s
  | S _, "" => ""
  end.

Fixpoint str_take (n : nat) (s : string) : string :=
  match n, s with
  | O, _ => ""
  | S n, String c s => String c (str_take n s)
  | S _, "" => ""
  end.

(** [write_all(fd, s)]: the result and the bytes the kernel took. *)
Fixpoint write_all (s : string) (ws : list writen) : option (bool * string) :=
  match s with
  | "" => Some (true, "")
  | _ =>
      match ws with
      | [] => None
      | WErr e :: ws => if bool_decide (e = EINTR) then write_all s ws else Some (false, "")
      | WOk n :: ws =>
          match write_all (str_drop (Z.to_nat n) s) ws with
          | Some (b, w) => Some (b, str_take (Z.to_nat n) s +:+ w)
          | None => None
          end
      end
  end.

(** The calls [connect_unix] and [listen_unix] make, in order; the results the
    kernel gives are arguments. *)
Inductive unix_call :=
  | USocket | UConnect (fd : Z) (path : string) | UBind (fd : Z) (path : string)
  | UListen (fd backlog : Z) | UUnlink (path : string) | UClose (fd : Z).

Definition sun_path_size : Z := 108.

(** The result is the returned descriptor or the [errno] of the failure. *)
Definition connect_unix (path : string) (socket_r : Z + errno) (connect_r : option errno)
    : (Z + errno) * list unix_call :=
  match socket_r with
  | inr e => (inr e, [USocket])
  | inl fd =>
      if Z.of_nat (String.length path) + 1 >? sun_path_size
      then (inr ENAMETOOLONG, [USocket; UClose fd])
      else match connect_r with
           | Some e => (inr e, [USocket; UConnect fd path; UClose fd])
           | None => (inl fd, [USocket; UConnect fd path])
           end
  end.

Definition listen_unix (path : string) (backlog : Z) (socket_r : Z + errno)
    (bind_r listen_r : option errno) : (Z + errno) * list unix_call :=
  match socket_r with
  | inr e => (inr e, [USocket])
  | inl fd =>
      if Z.of_nat (String.length path) + 1 >? sun_path_size
      then (inr ENAMETOOLONG, [USocket; UClose fd])
      else match bind_r with
           | Some e => (inr e, [USocket; UUnlink path; UBind fd path; UClose fd])
           | None =>
               match listen_r with
               | Some e =>
                   (inr e, [USocket; UUnlink path; UBind fd path; UListen fd backlog;
                            UClose fd; UUnlink path])
               | None => (inl fd, [USocket; UUnlink path; UBind fd path; UListen fd backlog])
               end
           end
  end.

(** ** Round trips *)

Lemma pushing_pushing a b r : pushing a (pushing b r) = pushing (a +:+ b) r.
Proof. destruct r as [[]|]; simpl; [|done]. by rewrite sapp_assoc. Qed.

(** The parser reads back each escape the encoder writes. *)
Lemma parse_escape_char c t :
  parse_chars (json_escape_char c +:+ t) = pushing (String c "") (parse_chars t).
Proof. destruct c as [[] [] [] [] [] [] [] []]; reflexivity. Qed.

Lemma parse_escape_body s t : parse_chars (escape_body s +:+ String dq t) = Some (s, t).
Proof.
  induction s as [|c s IH]; [done|]. cbn [escape_body].
  by rewrite sapp_assoc, parse_escape_char, IH.
Qed.

Lemma parse_json_escape s t : parse_string (json_escape s +:+ t) = Some (s, t).
Proof.
  unfold json_escape. rewrite sapp_cons, sapp_assoc, sapp_cons. apply parse_escape_body.
Qed.

Lemma skip_json_escape s t : skip_ws (json_escape s +:+ t) = json_escape s +:+ t.
Proof. done. Qed.

Lemma escape_list_cons b a l :
  escape_list b (a :: l) = (if b then "" else ",") +:+ json_escape a +:+ escape_list false l.
Proof. done. Qed.

Lemma parse_elements_escape a l t fuel :
  (length l < fuel)%nat ->
  parse_elements fuel (json_escape a +:+ escape_list false l +:+ "]" +:+ t) = Some (a :: l, t).
Proof.
  revert a fuel. induction l as [|b l IH]; intros a [|fuel] Hf; simpl in Hf; try lia;
    cbn [parse_elements]; rewrite skip_json_escape, parse_json_escape; [done|].
  rewrite escape_list_cons, !sapp_assoc, sapp_cons, sapp_nil_l. simpl. by rewrite IH by lia.
Qed.

Lemma escape_list_length b l :
  (length l <= String.length (escape_list b l))%nat.
Proof.
  revert b. induction l as [|a l IH]; intros b; simpl; [lia|].
  specialize (IH false). rewrite !sapp_length. unfold json_escape at 1. simpl. lia.
Qed.

Lemma parse_array_escape l t :
  parse_string_array ("[" +:+ escape_list true l +:+ "]" +:+ t) = Some (l, t).
Proof.
  destruct l as [|a l]; [done|]. unfold parse_string_array.
  rewrite escape_list_cons, !sapp_assoc, sapp_cons, !sapp_nil_l.
  set (s := json_escape a +:+ escape_list false l +:+ "]" +:+ t).
  change (skip_ws (String "[" s)) with (String "[" s).
  change (parse_elements (String.length s) s = Some (a :: l, t)).
  apply parse_elements_escape.
  pose proof (escape_list_length false l). unfold s. rewrite !sapp_length. simpl. lia.
Qed.

Lemma parse_key_escape k t : parse_key (json_escape k +:+ ":" +:+ t) = Some (k, skip_ws t).
Proof. unfold parse_key. by rewrite parse_json_escape. Qed.

(** A field of a request at the cursor. *)
Lemma request_loop_key fuel k t out got_op got_args :
  request_loop (S fuel) (json_escape k +:+ ":" +:+ t) out got_op got_args
  = request_field (request_loop fuel) k (skip_ws t) out got_op got_args.
Proof.
  pose proof (parse_key_escape k t) as Hk. revert Hk. unfold json_escape.
  rewrite sapp_cons. intros Hk. cbn [request_loop skip_ws]. cbn. rewrite Hk. done.
Qed.

Lemma pop_back_if_app c d b g :
  (d =? c)%char = false ->
  pop_back_if c (b +:+ String d g) = b +:+ String d (pop_back_if c g).
Proof.
  intros Hd. induction b as [|e b IH].
  - destruct g; simpl; [by rewrite Hd|done].
  - rewrite !sapp_cons, <- IH. destruct b; done.
Qed.

Lemma request_field_op loop v t out got_op got_args :
  request_field loop "op" (json_escape v +:+ "," +:+ t) out got_op got_args
  = loop t (mkReq v (args out)) true got_args.
Proof. unfold request_field. by rewrite parse_json_escape. Qed.

Lemma request_field_args loop l t out got_op got_args :
  request_field loop "args" ("[" +:+ escape_list true l +:+ "]" +:+ "}" +:+ t) out got_op got_args
  = request_done (mkReq (op out) l) got_op true.
Proof. unfold request_field. by rewrite parse_array_escape. Qed.

(** A request without its newline. *)
Definition request_body (req : CtlRequest) : string :=
  "{" +:+ json_escape "op" +:+ ":" +:+ json_escape (op req)
  +:+ "," +:+ json_escape "args" +:+ ":[" +:+ escape_list true (args req) +:+ "]}".

Lemma encode_request_body req : encode_request req = request_body req +:+ String nl "".
Proof. unfold encode_request, request_body. by autorewrite with sd. Qed.

(** The fields of a request, from the first key on, followed by [g]. *)
Definition request_fields (req : CtlRequest) (g : string) : string :=
  json_escape "op" +:+ ":" +:+ json_escape (op req) +:+ "," +:+ json_escape "args" +:+ ":"
  +:+ "[" +:+ escape_list true (args req) +:+ "]" +:+ "}" +:+ g.

Lemma request_loop_fields fuel req g :
  request_loop (S (S fuel)) (request_fields req g) (mkReq "" []) false false = Some req.
Proof.
  unfold request_fields.
  rewrite request_loop_key, skip_json_escape, request_field_op, request_loop_key.
  change (skip_ws ("[" +:+ ?x)) with ("[" +:+ x).
  rewrite request_field_args. by destruct req.
Qed.

(** Whatever follows the closing brace is not looked at. *)
Lemma decode_request_body req g : decode_request (request_body req +:+ g) = Some req.
Proof.
  set (b := "{" +:+ json_escape "op" +:+ ":" +:+ json_escape (op req)
    +:+ "," +:+ json_escape "args" +:+ ":[" +:+ escape_list true (args req) +:+ "]").
  assert (Hb : request_body req +:+ g = b +:+ String "}" g)
    by (unfold request_body, b; by autorewrite with sd).
  unfold decode_request. rewrite Hb, !pop_back_if_app by done.
  set (g' := pop_back_if cr (pop_back_if nl g)).
  assert (Hs : b +:+ String "}" g' = String "{" (request_fields req g'))
    by (unfold b, request_fields; by autorewrite with sd).
  rewrite Hs. set (t := request_fields req g').
  change (request_loop (S (String.length t)) t (mkReq "" []) false false = Some req).
  destruct (String.length t) eqn:E; [done|]. apply request_loop_fields.
Qed.

(** *** Responses *)

Lemma response_loop_key fuel k t out got_ok :
  response_loop (S fuel) (json_escape k +:+ ":" +:+ t) out got_ok
  = response_field (response_loop fuel) k (skip_ws t) out got_ok.
Proof.
  pose proof (parse_key_escape k t) as Hk. revert Hk. unfold json_escape.
  rewrite sapp_cons. intros Hk. cbn [response_loop skip_ws]. cbn. rewrite Hk. done.
Qed.

Lemma response_field_lines loop l t out got_ok :
  response_field loop "lines" ("[" +:+ escape_list true l +:+ "]" +:+ "}" +:+ t) out got_ok
  = response_done (mkResp (ok out) l (error out)) got_ok.
Proof. unfold response_field. by rewrite parse_array_escape. Qed.

Lemma response_field_error loop v t out got_ok :
  response_field loop "error" (json_escape v +:+ "}" +:+ t) out got_ok
  = response_done (mkResp (ok out) (lines out) v) got_ok.
Proof. unfold response_field. by rewrite parse_json_escape. Qed.

(** What a response is after a trip: an [ok] response carries its lines, a
    failed one its error text; the other member is not sent. *)
Definition wire_image (resp : CtlResponse) : CtlResponse :=
  if ok resp then mkResp true (lines resp) "" else mkResp false [] (error resp).

Definition response_body (resp : CtlResponse) : string :=
  if ok resp then
    "{" +:+ json_escape "ok" +:+ ":true," +:+ json_escape "lines" +:+ ":["
    +:+ escape_list true (lines resp) +:+ "]}"
  else
    "{" +:+ json_escape "ok" +:+ ":false," +:+ json_escape "error" +:+ ":"
    +:+ json_escape (error resp) +:+ "}".

Lemma encode_response_body resp : encode_response resp = response_body resp +:+ String nl "".
Proof.
  unfold encode_response, response_body. destruct (ok resp); by autorewrite with sd.
Qed.

Definition response_fields (resp : CtlResponse) (g : string) : string :=
  if ok resp then
    json_escape "ok" +:+ ":" +:+ "true," +:+ json_escape "lines" +:+ ":" +:+ "["
    +:+ escape_list true (lines resp) +:+ "]" +:+ "}" +:+ g
  else
    json_escape "ok" +:+ ":" +:+ "false," +:+ json_escape "error" +:+ ":"
    +:+ json_escape (error resp) +:+ "}" +:+ g.

Lemma response_loop_fields fuel resp g :
  response_loop (S (S fuel)) (response_fields resp g) (mkResp false [] "") false
  = Some (wire_image resp).
Proof.
  unfold response_fields, wire_image. destruct (ok resp); rewrite response_loop_key.
  - change (response_field ?l "ok" (skip_ws ("true," +:+ ?t)) ?o ?b)
      with (l t (mkResp true (lines o) (error o)) true).
    rewrite response_loop_key. change (skip_ws ("[" +:+ ?x)) with ("[" +:+ x).
    by rewrite response_field_lines.
  - change (response_field ?l "ok" (skip_ws ("false," +:+ ?t)) ?o ?b)
      with (l t (mkResp false (lines o) (error o)) true).
    by rewrite response_loop_key, skip_json_escape, response_field_error.
Qed.

Lemma decode_response_body resp g :
  decode_response (response_body resp +:+ g) = Some (wire_image resp).
Proof.
  assert (exists b, forall h,
    response_body resp +:+ h = b +:+ String "}" h
    /\ b +:+ String "}" h = String "{" (response_fields resp h)) as (b & Hb).
  { unfold response_body, response_fields. destruct (ok resp);
      [exists ("{" +:+ json_escape "ok" +:+ ":true," +:+ json_escape "lines" +:+ ":["
               +:+ escape_list true (lines resp) +:+ "]")
      |exists ("{" +:+ json_escape "ok" +:+ ":false," +:+ json_escape "error" +:+ ":"
               +:+ json_escape (error resp))];
      intros h; split; by autorewrite with sd. }
  unfold decode_response. rewrite (proj1 (Hb g)), !pop_back_if_app by done.
  set (g' := pop_back_if cr (pop_back_if nl g)).
  rewrite (proj2 (Hb g')). set (t := response_fields resp g').
  change (response_loop (S (String.length t)) t (mkResp false [] "") false
          = Some (wire_image resp)).
  destruct (String.length t) eqn:E; [|apply response_loop_fields].
  unfold t, response_fields in E. by destruct (ok resp).
Qed.

(** *** Framing *)

Fixpoint has_char (c : ascii) (s : string) : bool :=
  match s with
  | "" => false
  | String d s => (d =? c)%char || has_char c s
  end.

Lemma has_char_app c a b : has_char c (a +:+ b) = has_char c a || has_char c b.
Proof.
  induction a as [|d a IH]; [done|]. rewrite sapp_cons. simpl.
  by rewrite IH, orb_assoc.
Qed.

Lemma escape_char_no_nl c : has_char nl (json_escape_char c) = false.
Proof. destruct c as [[] [] [] [] [] [] [] []]; reflexivity. Qed.

Lemma json_escape_no_nl s : has_char nl (json_escape s) = false.
Proof.
  unfold json_escape. simpl. rewrite has_char_app. simpl.
  induction s as [|c s IH]; [done|]. simpl. rewrite has_char_app, escape_char_no_nl. done.
Qed.

Lemma escape_list_no_nl b l : has_char nl (escape_list b l) = false.
Proof.
  revert b. induction l as [|a l IH]; intros b; [done|].
  rewrite escape_list_cons, !has_char_app, json_escape_no_nl, IH. by destruct b.
Qed.

Lemma request_body_no_nl req : has_char nl (request_body req) = false.
Proof.
  unfold request_body. by rewrite !has_char_app, !json_escape_no_nl, escape_list_no_nl.
Qed.

Lemma response_body_no_nl resp : has_char nl (response_body resp) = false.
Proof.
  unfold response_body.
  destruct (ok resp); by rewrite !has_char_app, !json_escape_no_nl, ?escape_list_no_nl.
Qed.

(** *** The loops stop: the input's length is enough fuel *)

Lemma skip_ws_length s : (String.length (skip_ws s) <= String.length s)%nat.
Proof. induction s as [|c s IH]; simpl; [done|]. destruct (is_ws c); simpl; lia. Qed.

Lemma pushing_Some p r out rest :
  pushing p r = Some (out, rest) -> exists out', r = Some (out', rest).
Proof. destruct r as [[]|]; simpl; naive_solver. Qed.

Lemma parse_chars_length s out rest :
  parse_chars s = Some (out, rest) -> (String.length rest < String.length s)%nat.
Proof.
  revert s out rest.
  enough (H : forall n s out rest, (String.length s <= n)%nat ->
    parse_chars s = Some (out, rest) -> (String.length rest < String.length s)%nat)
    by eauto.
  induction n as [|n IH]; intros [|c s] out rest Hn; simpl in *; try lia; try done.
  intros Hp. repeat case_match; simplify_eq/=;
    repeat match goal with H : pushing _ _ = Some _ |- _ => apply pushing_Some in H as [? H] end;
    try lia;
    match goal with H : parse_chars _ = Some _ |- _ => apply IH in H; simpl in *; lia end.
Qed.

Lemma parse_string_length s out rest :
  parse_string s = Some (out, rest) -> (String.length rest < String.length s)%nat.
Proof.
  destruct s as [|c s]; simpl; [done|]. destruct (c =? dq)%char; [|done].
  intros H%parse_chars_length. lia.
Qed.

Lemma parse_elements_length fuel s l rest :
  parse_elements fuel s = Some (l, rest) -> (String.length rest < String.length s)%nat.
Proof.
  revert s l rest. induction fuel as [|fuel IH]; intros s l rest; [done|]. cbn [parse_elements].
  pose proof (skip_ws_length s). destruct (parse_string (skip_ws s)) as [[tmp s1]|] eqn:E; [|done].
  apply parse_string_length in E. pose proof (skip_ws_length s1).
  destruct (skip_ws s1) as [|c s2]; [done|]. simpl in *.
  destruct (c =? ",")%char.
  - destruct (parse_elements fuel s2) as [[? ?]|] eqn:E2; [|done].
    apply IH in E2. intros [=]; subst. lia.
  - destruct (c =? "]")%char; intros [=]; subst. lia.
Qed.

Lemma parse_elements_fuel f f' s :
  (String.length s <= f)%nat -> (String.length s <= f')%nat ->
  parse_elements f s = parse_elements f' s.
Proof.
  revert f' s. induction f as [|f IH]; intros [|f'] s Hf Hf'; try done;
    try (destruct s; [done|simpl in *; lia]).
  cbn [parse_elements]. pose proof (skip_ws_length s).
  destruct (parse_string (skip_ws s)) as [[tmp s1]|] eqn:E; [|done].
  apply parse_string_length in E. pose proof (skip_ws_length s1).
  destruct (skip_ws s1) as [|c s2]; [done|]. simpl in *.
  by rewrite (IH f' s2) by lia.
Qed.

Lemma parse_array_length s l rest :
  parse_string_array s = Some (l, rest) -> (String.length rest < String.length s)%nat.
Proof.
  unfold parse_string_array. pose proof (skip_ws_length s).
  destruct (skip_ws s) as [|c s1]; [done|]. destruct (c =? "[")%char; [|done].
  pose proof (skip_ws_length s1). simpl in *.
  destruct (skip_ws s1) as [|d s2]; [done|].
  destruct (d =? "]")%char; [intros [=]; subst; simpl in *; lia|].
  intros E%parse_elements_length. simpl in *. lia.
Qed.

Lemma skip_value_length s rest :
  skip_value s = Some rest -> (String.length rest < String.length s)%nat.
Proof.
  destruct s as [|c s]; [done|]. unfold skip_value. repeat case_match; try done;
    intros (p & Hp & ->)%fmap_Some; destruct p;
    first [by eapply parse_string_length|by eapply parse_array_length].
Qed.

Lemma parse_key_length s k rest :
  parse_key s = Some (k, rest) -> (String.length rest < String.length s)%nat.
Proof.
  unfold parse_key. destruct (parse_string s) as [[key s1]|] eqn:E; [|done].
  apply parse_string_length in E. pose proof (skip_ws_length s1).
  destruct (skip_ws s1) as [|c s2]; [done|]. destruct (c =? ":")%char; [|done].
  intros [=]; subst. pose proof (skip_ws_length s2). simpl in *. lia.
Qed.

(** A field calls the rest of the loop only on a shorter input. *)
Lemma request_field_ext loop loop' key s out got_op got_args :
  (forall t o a b, (String.length t < String.length s)%nat -> loop t o a b = loop' t o a b) ->
  request_field loop key s out got_op got_args = request_field loop' key s out got_op got_args.
Proof.
  intros Hl. unfold request_field.
  assert (Hafter : forall t o a b, (String.length t < String.length s)%nat ->
    match skip_ws t with
    | "" => None
    | String c t => if (c =? ",")%char then loop t o a b
                    else if (c =? "}")%char then request_done o a b else None
    end = match skip_ws t with
    | "" => None
    | String c t => if (c =? ",")%char then loop' t o a b
                    else if (c =? "}")%char then request_done o a b else None
    end).
  { intros t o a b Ht. pose proof (skip_ws_length t). destruct (skip_ws t) as [|c t']; [done|].
    destruct (c =? ",")%char; [apply Hl; simpl in *; lia|done]. }
  destruct (String.eqb key "op"); [|destruct (String.eqb key "args")].
  - destruct (parse_string s) as [[v t]|] eqn:E; [|done]. by apply Hafter, (parse_string_length _ v).
  - destruct (parse_string_array s) as [[v t]|] eqn:E; [|done]. by apply Hafter, (parse_array_length _ v).
  - destruct (skip_value s) as [t|] eqn:E; [|done]. by apply Hafter, skip_value_length.
Qed.

Lemma request_loop_fuel f f' s out got_op got_args :
  (String.length s < f)%nat -> (String.length s < f')%nat ->
  request_loop f s out got_op got_args = request_loop f' s out got_op got_args.
Proof.
  revert f' s out got_op got_args.
  induction f as [|f IH]; intros [|f'] s out got_op got_args Hf Hf'; try lia.
  cbn [request_loop]. destruct s as [|c s]; [done|].
  pose proof (skip_ws_length (String c s)).
  destruct (skip_ws (String c s)) as [|d s1]; [done|]. destruct (d =? "}")%char; [done|].
  destruct (parse_key (String d s1)) as [[k t]|] eqn:E; [|done].
  apply parse_key_length in E. apply request_field_ext. intros. apply IH; lia.
Qed.

Lemma eat_length lit s rest :
  eat lit s = Some rest -> (String.length rest + String.length lit = String.length s)%nat.
Proof.
  revert s. induction lit as [|a lit IH]; intros [|b s]; simpl; try done.
  1,2: intros [=]; subst; simpl; lia.
  destruct (a =? b)%char; [|done]. intros H%IH. lia.
Qed.

Lemma parse_ok_length s v rest :
  parse_ok s = Some (v, rest) -> (String.length rest < String.length s)%nat.
Proof.
  unfold parse_ok. repeat case_match; intros [=]; subst;
    match goal with H : eat _ s = Some _ |- _ => apply eat_length in H; simpl in H; lia end.
Qed.

Lemma skip_value_resp_length s rest :
  skip_value_resp s = Some rest -> (String.length rest < String.length s)%nat.
Proof.
  destruct s as [|c s]; [done|]. unfold skip_value_resp.
  destruct (c =? dq)%char; [|destruct (c =? "[")%char].
  1,2: intros ([] & Hp & ->)%fmap_Some;
    first [by eapply parse_string_length|by eapply parse_array_length].
  destruct (eat "true" _) eqn:E; [|destruct (eat "false" _) eqn:E'; [|intros E'']];
    try intros [=]; subst;
    match goal with H : eat _ _ = Some rest |- _ => apply eat_length in H; simpl in *; lia end.
Qed.

Lemma response_field_ext loop loop' key s out got_ok :
  (forall t o a, (String.length t < String.length s)%nat -> loop t o a = loop' t o a) ->
  response_field loop key s out got_ok = response_field loop' key s out got_ok.
Proof.
  intros Hl. unfold response_field.
  assert (Hafter : forall t o a, (String.length t < String.length s)%nat ->
    match skip_ws t with
    | "" => None
    | String c t => if (c =? ",")%char then loop t o a
                    else if (c =? "}")%char then response_done o a else None
    end = match skip_ws t with
    | "" => None
    | String c t => if (c =? ",")%char then loop' t o a
                    else if (c =? "}")%char then response_done o a else None
    end).
  { intros t o a Ht. pose proof (skip_ws_length t). destruct (skip_ws t) as [|c t']; [done|].
    destruct (c =? ",")%char; [apply Hl; simpl in *; lia|done]. }
  destruct (String.eqb key "ok"); [|destruct (String.eqb key "lines");
    [|destruct (String.eqb key "error")]].
  - destruct (parse_ok s) as [[v t]|] eqn:E; [|done]. by apply Hafter, (parse_ok_length _ v).
  - destruct (parse_string_array s) as [[v t]|] eqn:E; [|done]. by apply Hafter, (parse_array_length _ v).
  - destruct (parse_string s) as [[v t]|] eqn:E; [|done]. by apply Hafter, (parse_string_length _ v).
  - destruct (skip_value_resp s) as [t|] eqn:E; [|done]. by apply Hafter, skip_value_resp_length.
Qed.

Lemma response_loop_fuel f f' s out got_ok :
  (String.length s < f)%nat -> (String.length s < f')%nat ->
  response_loop f s out got_ok = response_loop f' s out got_ok.
Proof.
  revert f' s out got_ok.
  induction f as [|f IH]; intros [|f'] s out got_ok Hf Hf'; try lia.
  cbn [response_loop]. destruct s as [|c s]; [done|].
  pose proof (skip_ws_length (String c s)).
  destruct (skip_ws (String c s)) as [|d s1]; [done|]. destruct (d =? "}")%char; [done|].
  destruct (parse_key (String d s1)) as [[k t]|] eqn:E; [|done].
  apply parse_key_length in E. apply response_field_ext. intros. apply IH; lia.
Qed.

(** *** Transport *)

Fixpoint list_of_string (s : string) : list ascii :=
  match s with
  | "" => []
  | String c s => c :: list_of_string s
  end.

(** The reads [rs] hand over exactly the bytes of [s], with interrupted calls
    in between. *)
Fixpoint delivers (rs : list read1) (s : string) : Prop :=
  match rs, s with
  | [], "" => True
  | RByte c :: rs, String d s => c = d /\ delivers rs s
  | RErr EINTR :: rs, s => delivers rs s
  | _, _ => False
  end.

Lemma snoc_length s c : String.length (s +:+ String c "") = S (String.length s).
Proof. rewrite sapp_length. simpl. lia. Qed.

Lemma read_line_from_delivers rs line out :
  delivers rs (line +:+ String nl "") -> has_char nl line = false ->
  Z.of_nat (String.length out + String.length line) <= 2 ^ 20 ->
  exists rest, read_line_from out rs = Some (out +:+ line, false, rest) /\ delivers rest "".
Proof.
  revert line out. induction rs as [|r rs IH]; intros line out Hd Hnl Hlen.
  { by destruct line. }
  destruct r as [c| |e]; [|by destruct line|].
  - destruct line as [|d line].
    + destruct Hd as [-> Hd]. exists rs. simpl. by rewrite sapp_nil_r.
    + destruct Hd as [-> Hd]. simpl in Hnl. apply orb_false_iff in Hnl as [Hd' Hnl].
      simpl in Hlen. cbn [read_line_from]. rewrite Hd'.
      rewrite snoc_length. destruct (Z.gtb_spec (Z.of_nat (S (String.length out))) (2 ^ 20)); [lia|].
      destruct (IH line (out +:+ String d "") Hd Hnl) as (rest & -> & Hr).
      { rewrite snoc_length. lia. }
      exists rest. by rewrite sapp_assoc.
  - assert (e = EINTR /\ delivers rs (line +:+ String nl "")) as [-> Hd']
      by (by destruct e).
    simpl. apply IH; done.
Qed.

Lemma read_line_from_eof rs s out rest :
  delivers rs s -> has_char nl s = false ->
  Z.of_nat (String.length out + String.length s) <= 2 ^ 20 ->
  read_line_from out (rs ++ REof :: rest) = Some (out +:+ s, true, rest).
Proof.
  revert s out. induction rs as [|r rs IH]; intros s out Hd Hnl Hlen.
  { destruct s; [|done]. simpl. by rewrite sapp_nil_r. }
  destruct r as [c| |e]; [|by destruct s|].
  - destruct s as [|d s]; [done|]. destruct Hd as [-> Hd].
    simpl in Hnl. apply orb_false_iff in Hnl as [Hd' Hnl]. simpl in Hlen.
    cbn [read_line_from app]. rewrite Hd', snoc_length.
    destruct (Z.gtb_spec (Z.of_nat (S (String.length out))) (2 ^ 20)); [lia|].
    rewrite (IH s _ Hd Hnl) by (rewrite snoc_length; lia). by rewrite sapp_assoc.
  - assert (e = EINTR /\ delivers rs s) as [-> Hd'] by (by destruct e, s).
    simpl. by apply IH.
Qed.

Lemma str_take_drop n s : str_take n s +:+ str_drop n s = s.
Proof.
  revert s. induction n as [|n IH]; intros [|c s]; try done. simpl. rewrite sapp_cons. by rewrite IH.
Qed.

Lemma write_all_prefix s ws b w :
  write_all s ws = Some (b, w) -> exists r, s = w +:+ r /\ (b = true -> r = "").
Proof.
  revert s b w. induction ws as [|x ws IH]; intros s b w Hw.
  - destruct s; simpl in Hw; simplify_eq. by exists "".
  - destruct s as [|c s]; [simpl in Hw; simplify_eq; by exists ""|].
    destruct x as [n|e]; cbn [write_all] in Hw.
    + destruct (write_all (str_drop (Z.to_nat n) (String c s)) ws) as [[b' w']|] eqn:E;
        [|done]. simplify_eq. destruct (IH _ _ _ E) as (r & Hr & Hb).
      exists r. by rewrite sapp_assoc, <- Hr, str_take_drop.
    + case_bool_decide; [by eapply IH|]. simplify_eq. by exists (String c s).
Qed.

(** Every request survives encoding and decoding, whatever bytes its
    operation name and arguments hold. *)
Theorem request_roundtrip req : decode_request (encode_request req) = Some req.
Proof. rewrite encode_request_body. apply decode_request_body. Qed.

(** A response survives encoding and decoding up to the member that is
    not on the wire (the error of a success, the lines of a failure). *)
Theorem response_roundtrip resp : decode_response (encode_response resp) = Some (wire_image resp).
Proof. rewrite encode_response_body. apply decode_response_body. Qed.

(** C23: a message written with [write_all] and read by the peer with
    [read_line], in any pieces and with interrupted calls on both sides, is
    decoded to the request (the response) that was sent, provided the line
    stays under the reader's 1 MiB cap. *)
Theorem message_transport req resp ws ws' w w' rs rs' :
  write_all (encode_request req) ws = Some (true, w) -> delivers rs w ->
  write_all (encode_response resp) ws' = Some (true, w') -> delivers rs' w' ->
  Z.of_nat (String.length (request_body req)) <= 2 ^ 20 ->
  Z.of_nat (String.length (response_body resp)) <= 2 ^ 20 ->
  (exists line rest, read_line rs = Some (line, false, rest) /\ decode_request line = Some req)
  /\ (exists line rest, read_line rs' = Some (line, false, rest)
                         /\ decode_response line = Some (wire_image resp)).
Proof.
  intros Hw Hd Hw' Hd' Hl Hl'.
  destruct (write_all_prefix _ _ _ _ Hw) as (r & Hs & Hr).
  rewrite Hr, sapp_nil_r, encode_request_body in Hs by done. subst w.
  destruct (write_all_prefix _ _ _ _ Hw') as (r' & Hs' & Hr').
  rewrite Hr', sapp_nil_r, encode_response_body in Hs' by done. subst w'.
  destruct (read_line_from_delivers _ _ "" Hd (request_body_no_nl req)) as (rest & He & _); [done|].
  destruct (read_line_from_delivers _ _ "" Hd' (response_body_no_nl resp)) as (rest' & He' & _); [done|].
  split; [exists (request_body req), rest|exists (response_body resp), rest']; (split; [done|]).
  - rewrite <- (sapp_nil_r (request_body req)). apply decode_request_body.
  - rewrite <- (sapp_nil_r (response_body resp)). apply decode_response_body.
Qed.

(** The decoding loops end: a number of turns bounded by the length of the
    input always suffices, more turns change nothing. *)
Theorem decode_terminates s req got_op got_args resp got_ok extra :
  request_loop (S (String.length s) + extra) s req got_op got_args
  = request_loop (S (String.length s)) s req got_op got_args
  /\ response_loop (S (String.length s) + extra) s resp got_ok
     = response_loop (S (String.length s)) s resp got_ok.
Proof. split; [apply request_loop_fuel|apply response_loop_fuel]; lia. Qed.

(** The decoder does not look past the closing brace of a request:
    anything may follow it on the line. *)
Theorem decode_request_ignores_trailing req junk :
  decode_request (request_body req +:+ junk) = Some req.
Proof. apply decode_request_body. Qed.

(** The socket openers leak nothing: whatever the kernel answers, a failed
    call has closed the descriptor it made (and a failed [listen] has removed
    the path it bound), a successful one has closed nothing. *)
Theorem unix_openers_no_leak path backlog fd connect_r bind_r listen_r :
  let '(rc, tc) := connect_unix path (inl fd) connect_r in
  let '(rl, tl) := listen_unix path backlog (inl fd) bind_r listen_r in
  match rc with inl fd' => fd' = fd /\ UClose fd ∉ tc | inr _ => UClose fd ∈ tc end
  /\ match rl with
     | inl fd' => fd' = fd /\ UClose fd ∉ tl
     | inr _ => UClose fd ∈ tl /\ (UBind fd path ∈ tl -> bind_r = None -> exists pre, tl = pre ++ [UUnlink path])
     end.
Proof.
  unfold connect_unix, listen_unix.
  destruct (_ >? _), connect_r, bind_r, listen_r; cbn beta iota;
    rewrite ?list_elem_of_In; simpl; intuition try congruence.
  all: by exists [USocket; UUnlink path; UBind fd path; UListen fd backlog; UClose fd].
Qed.

(** On end of file [read_line] hands back the bytes read so far together with
    the end-of-file flag; they need not be empty. *)
Theorem read_line_partial_on_eof rs s rest :
  delivers rs s -> has_char nl s = false -> Z.of_nat (String.length s) <= 2 ^ 20 ->
  read_line (rs ++ REof :: rest) = Some (s, true, rest).
Proof. intros. by apply (read_line_from_eof rs s ""). Qed.

(** A [ping] delivered in two writes, with interrupted calls. *)
Lemma message_transport_witness :
  let req := mkReq "ping" ["a b"] in
  let resp := mkResp true ["a b"] "" in
  (exists line rest,
     read_line (RErr EINTR :: (RByte <$> list_of_string (encode_request req)))
       = Some (line, false, rest) /\ decode_request line = Some req)
  /\ (exists line rest,
     read_line (RByte <$> list_of_string (encode_response resp))
       = Some (line, false, rest) /\ decode_response line = Some resp).
Proof.
  apply (message_transport (mkReq "ping" ["a b"]) (mkResp true ["a b"] "")
    [WErr EINTR; WOk 3; WOk 100] [WOk 100]
    (encode_request (mkReq "ping" ["a b"])) (encode_response (mkResp true ["a b"] "")));
    vm_compute; intuition congruence.
Defined.

End Ipc.
