(* ===== verification/ShmHandshake.v ===== *)
(** * The key broker of the monitor

    [include/socksdirect/shm_handshake.hpp]: the registry that gives the two
    processes of a connection one shared-memory key and opposite roles.  The
    outputs of the Mersenne twister are the list [rng_], consumed from the
    front; an operation that needs a number the list does not have is [None].
    The mutex makes each operation atomic, so a concurrent history is a
    sequence of operations. *)

From Stdlib Require Import ZArith Lia.
From stdpp Require Import strings gmap countable numbers base list.
From S2P Require Import Prelude.

Module Handshake.

Record ConnId := mkConn { a : string; b : string }.

#[export] Instance ConnId_eq_dec : EqDecision ConnId.
Proof. solve_decision. Defined.

#[export] Instance ConnId_countable : Countable ConnId.
Proof.
  apply (inj_countable' (fun c => (a c, b c)) (fun p => mkConn p.1 p.2)). by intros [].
Defined.

(** [ConnId::operator<]. *)
Definition conn_ltb (x o : ConnId) : bool :=
  if negb (String.eqb (a x) (a o)) then String.ltb (a x) (a o) else String.ltb (b x) (b o).

Definition make (side1 side2 : string) : ConnId :=
  if String.ltb side1 side2 then mkConn side1 side2 else mkConn side2 side1.

Inductive Role := kCreator | kJoiner.

Record Result := mkResult { res_key : Z; role : Role; pid_a : Z; pid_b : Z }.

Record Entry := mkEntry { key : Z; creator_pid : Z; joiner_pid : Z }.

Record Registry := mkReg { active_ : gmap ConnId Entry; rng_ : list Z }.

(** [while (k == 0) k = rng_();] *)
Fixpoint next_key (rng : list Z) : option (Z * list Z) :=
  match rng with
  | [] => None
  | k :: rng => if k =? 0 then next_key rng else Some (k, rng)
  end.

Definition register_endpoint (reg : Registry) (id : ConnId) (caller_pid : Z)
    : option (Result * Registry) :=
  match active_ reg !! id with
  | None =>
      match next_key (rng_ reg) with
      | None => None
      | Some (k, rng) =>
          Some (mkResult k kCreator caller_pid 0,
                mkReg (<[id := mkEntry k caller_pid 0]> (active_ reg)) rng)
      end
  | Some e =>
      let e' := if joiner_pid e =? 0
                then mkEntry (key e) (creator_pid e) caller_pid else e in
      Some (mkResult (key e') kJoiner (creator_pid e') (joiner_pid e'),
            mkReg (<[id := e']> (active_ reg)) (rng_ reg))
  end.

Definition unregister_endpoint (reg : Registry) (id : ConnId) : bool * Registry :=
  (bool_decide (is_Some (active_ reg !! id)), mkReg (delete id (active_ reg)) (rng_ reg)).

Definition owned_by (pid : Z) (e : Entry) : bool :=
  (creator_pid e =? pid) || (joiner_pid e =? pid).

(** The erasing loop of [reap_pid]: the entries in the order of the map, the
    number erased so far, the map so far. *)
Fixpoint reap_loop (pid : Z) (its : list (ConnId * Entry)) (removed : Z)
    (m : gmap ConnId Entry) : Z * gmap ConnId Entry :=
  match its with
  | [] => (removed, m)
  | (id, e) :: its =>
      if owned_by pid e then reap_loop pid its (removed + 1) (delete id m)
      else reap_loop pid its removed m
  end.

Definition reap_pid (reg : Registry) (pid : Z) : Z * Registry :=
  let '(removed, m) := reap_loop pid (map_to_list (active_ reg)) 0 (active_ reg) in
  (removed, mkReg m (rng_ reg)).

Definition live_pairs (reg : Registry) : Z := Z.of_nat (size (active_ reg)).

(** ** Histories *)

Inductive op := Register (id : ConnId) (pid : Z) | Unregister (id : ConnId) | Reap (pid : Z).

Definition apply_op (reg : Registry) (o : op) : option Registry :=
  match o with
  | Register id pid => snd <$> register_endpoint reg id pid
  | Unregister id => Some (snd (unregister_endpoint reg id))
  | Reap pid => Some (snd (reap_pid reg pid))
  end.

Fixpoint run (reg : Registry) (ops : list op) : option Registry :=
  match ops with
  | [] => Some reg
  | o :: ops => match apply_op reg o with Some reg' => run reg' ops | None => None end
  end.

(** The operations that leave the half-open pair [id] of the process [p]
    alone. *)
Definition leaves (id : ConnId) (p : Z) (o : op) : bool :=
  match o with
  | Register id' _ | Unregister id' => negb (bool_decide (id' = id))
  | Reap pid => negb (pid =? p) && negb (pid =? 0)
  end.

(** ** Lemmas *)

Lemma ltb_asym x y : String.ltb x y = true -> String.ltb y x = false.
Proof.
  unfold String.ltb. rewrite (String.compare_antisym x y).
  destruct (String.compare y x); done.
Qed.

Lemma ltb_total x y : String.ltb x y = false -> String.ltb y x = false -> x = y.
Proof.
  unfold String.ltb. rewrite (String.compare_antisym x y).
  destruct (String.compare y x) eqn:E; try done.
  by apply String.compare_eq_iff in E.
Qed.

(** The equivalence the ordered map uses on keys is equality. *)
Lemma conn_equiv_eq x y : conn_ltb x y = false -> conn_ltb y x = false -> x = y.
Proof.
  destruct x as [xa xb], y as [ya yb]. unfold conn_ltb; simpl.
  destruct (String.eqb_spec xa ya) as [->|Hne]; simpl.
  - rewrite String.eqb_refl. intros. f_equal. by apply ltb_total.
  - destruct (String.eqb_spec ya xa) as [->|]; simpl; [done|].
    intros H1 H2. by destruct (Hne (ltb_total _ _ H1 H2)).
Qed.

Lemma make_comm x y : make x y = make y x.
Proof.
  unfold make. destruct (String.ltb x y) eqn:E1.
  - by rewrite (ltb_asym _ _ E1).
  - destruct (String.ltb y x) eqn:E2; [done|]. by rewrite (ltb_total _ _ E1 E2).
Qed.

Lemma next_key_Some rng k rest :
  next_key rng = Some (k, rest) -> k <> 0 /\ k ∈ rng /\ exists pre, rng = pre ++ k :: rest.
Proof.
  induction rng as [|x rng IH]; simpl; [done|]. destruct (Z.eqb_spec x 0) as [->|Hx].
  - intros (? & ? & pre & ->)%IH. split_and!; [done|by apply elem_of_cons; right|by exists (0 :: pre)].
  - intros [=]; subst. split_and!; [done|by apply elem_of_cons; left|by exists []].
Qed.

Lemma reap_loop_spec pid its removed m :
  NoDup its.*1 -> (forall id e, (id, e) ∈ its -> m !! id = Some e) ->
  let '(n, m') := reap_loop pid its removed m in
  n + Z.of_nat (size m') = removed + Z.of_nat (size m)
  /\ (forall id e, m' !! id = Some e <-> m !! id = Some e /\ ((id, e) ∈ its -> owned_by pid e = false)).
Proof.
  revert removed m. induction its as [|[id e] its IH]; intros removed m Hnd Hin; simpl.
  { split; [done|]. intros. split; [|tauto]. intros ?. split; [done|]. by intros ?%not_elem_of_nil. }
  apply NoDup_cons in Hnd as [Hid Hnd].
  assert (Hlk : m !! id = Some e) by (apply Hin; set_solver).
  destruct (owned_by pid e) eqn:Ho.
  - specialize (IH (removed + 1) (delete id m) Hnd).
    destruct (reap_loop _ _ _ _) as [n m']. destruct IH as [Hn Hm'].
    { intros id' e' Hin'. rewrite lookup_delete_ne; [apply Hin; set_solver|].
      intros ->. apply Hid, list_elem_of_fmap. by exists (id', e'). }
    split; [rewrite map_size_delete_Some in Hn by eauto|].
    { assert (size m <> 0%nat) by (intros ->%map_size_empty_iff; done). lia. }
    intros id' e'. rewrite Hm', lookup_delete_Some, elem_of_cons.
    destruct (decide (id = id')) as [->|Hne]; [|naive_solver].
    split; [naive_solver|]. intros [? H']. simplify_eq. rewrite H' in Ho by auto. done.
  - specialize (IH removed m Hnd). destruct (reap_loop _ _ _ _) as [n m'].
    destruct IH as [Hn Hm']; [intros; apply Hin; set_solver|].
    split; [done|]. intros id' e'. rewrite Hm', elem_of_cons. naive_solver.
Qed.

Lemma reap_pid_spec reg pid :
  let '(n, reg') := reap_pid reg pid in
  n + live_pairs reg' = live_pairs reg
  /\ (forall id e, active_ reg' !! id = Some e
        <-> active_ reg !! id = Some e /\ owned_by pid e = false)
  /\ rng_ reg' = rng_ reg.
Proof.
  unfold reap_pid, live_pairs.
  pose proof (reap_loop_spec pid (map_to_list (active_ reg)) 0 (active_ reg)
    (NoDup_fst_map_to_list _) (fun id e => proj1 (elem_of_map_to_list _ id e))) as H.
  destruct (reap_loop _ _ _ _) as [n m']. destruct H as [Hn Hm]. simpl.
  split_and!; [lia| |done]. intros id e. rewrite Hm, elem_of_map_to_list. naive_solver.
Qed.

Lemma apply_leaves id p k reg o reg' :
  leaves id p o = true -> apply_op reg o = Some reg' ->
  active_ reg !! id = Some (mkEntry k p 0) -> active_ reg' !! id = Some (mkEntry k p 0).
Proof.
  intros Hl Ho Hid. destruct o as [id' q|id'|q]; simpl in *.
  - apply negb_true_iff, bool_decide_eq_false in Hl.
    apply fmap_Some in Ho as ([r reg1] & Hr & ->). simpl.
    unfold register_endpoint in Hr. repeat case_match; simplify_eq/=;
      by rewrite lookup_insert_ne.
  - apply negb_true_iff, bool_decide_eq_false in Hl. simplify_eq/=.
    by rewrite lookup_delete_ne.
  - simplify_eq. pose proof (reap_pid_spec reg q) as Hs.
    destruct (reap_pid reg q) as [n reg1]. destruct Hs as (_ & Hs & _). simpl. apply Hs.
    split; [done|]. unfold owned_by. sd_bool. apply orb_false_iff.
    split; apply Z.eqb_neq; simpl; congruence.
Qed.

Lemma run_leaves id p k ops reg reg' :
  forallb (leaves id p) ops = true -> run reg ops = Some reg' ->
  active_ reg !! id = Some (mkEntry k p 0) -> active_ reg' !! id = Some (mkEntry k p 0).
Proof.
  revert reg. induction ops as [|o ops IH]; intros reg; simpl; [by intros _ [= ->]|].
  intros [Ho Hops]%andb_true_iff. destruct (apply_op reg o) as [reg1|] eqn:E; [|done].
  intros. eapply IH; [done..|]. by eapply apply_leaves.
Qed.

(** ** Uniqueness of keys *)

(** No two pairs share a key, and no key in use is a number still to be
    drawn. *)
Record keys_inv (reg : Registry) : Prop := {
  keys_nodup : NoDup (rng_ reg);
  keys_drawn : forall id e, active_ reg !! id = Some e -> key e ∉ rng_ reg;
  keys_nonzero : forall id e, active_ reg !! id = Some e -> key e <> 0;
  keys_inj : forall id1 id2 e1 e2, active_ reg !! id1 = Some e1 -> active_ reg !! id2 = Some e2 ->
      key e1 = key e2 -> id1 = id2 }.

(** The invariant passes to a registry whose entries have the keys they had. *)
Lemma keys_inv_sub reg m :
  keys_inv reg ->
  (forall id e, m !! id = Some e -> exists e0, active_ reg !! id = Some e0 /\ key e0 = key e) ->
  keys_inv (mkReg m (rng_ reg)).
Proof.
  intros [Hnd Hdr Hnz Hinj] Hm. split; simpl; [done|..].
  - intros id e (e0 & H0 & <-)%Hm. eauto.
  - intros id e (e0 & H0 & <-)%Hm. eauto.
  - intros id1 id2 e1 e2 (f1 & H1 & <-)%Hm (f2 & H2 & <-)%Hm. eauto.
Qed.

Lemma keys_inv_fresh reg id p k rest :
  keys_inv reg -> active_ reg !! id = None -> next_key (rng_ reg) = Some (k, rest) ->
  keys_inv (mkReg (<[id := mkEntry k p 0]> (active_ reg)) rest).
Proof.
  intros [Hnd Hdr Hnz Hinj] Hid (Hk & Hin & pre & Hrng)%next_key_Some.
  rewrite Hrng in Hnd, Hdr, Hin.
  apply NoDup_app in Hnd as (_ & _ & Hnd). apply NoDup_cons in Hnd as [Hnk Hnd].
  split; simpl; [done|..].
  - intros id' e' [[<- <-]|[? He]]%lookup_insert_Some; simpl; [done|].
    apply Hdr in He. set_solver.
  - intros id' e' [[<- <-]|[? He]]%lookup_insert_Some; simpl; eauto.
  - intros id1 id2 e1 e2 [[<- <-]|[? H1]]%lookup_insert_Some
      [[<- <-]|[? H2]]%lookup_insert_Some; simpl; eauto.
    + intros Hk'. apply Hdr in H2. by rewrite <- Hk' in H2.
    + intros Hk'. apply Hdr in H1. by rewrite Hk' in H1.
Qed.

Lemma apply_op_keys reg o reg' : keys_inv reg -> apply_op reg o = Some reg' -> keys_inv reg'.
Proof.
  intros Hinv Ho. destruct o as [id p|id|p]; simpl in Ho.
  - apply fmap_Some in Ho as ([r reg1] & Hr & ->). unfold register_endpoint in Hr.
    destruct (active_ reg !! id) as [e|] eqn:He.
    + simplify_eq/=. apply keys_inv_sub; [done|].
      intros id' e' [[<- <-]|[? H']]%lookup_insert_Some; [|eauto].
      exists e. split; [done|]. by destruct (joiner_pid e =? 0).
    + destruct (next_key _) as [[k rest]|] eqn:Hk; simplify_eq/=. by apply keys_inv_fresh.
  - simplify_eq/=. apply keys_inv_sub; [done|]. intros id' e' [? H']%lookup_delete_Some. eauto.
  - simplify_eq. pose proof (reap_pid_spec reg p) as Hs. destruct (reap_pid reg p) as [n [m rng]].
    destruct Hs as (_ & Hs & Hr). simpl in *. subst rng. apply keys_inv_sub; [done|].
    intros id' e' [H' _]%Hs. eauto.
Qed.

Lemma run_keys reg ops reg' : keys_inv reg -> run reg ops = Some reg' -> keys_inv reg'.
Proof.
  revert reg. induction ops as [|o ops IH]; intros reg Hinv; simpl; [by intros [= <-]|].
  destruct (apply_op reg o) eqn:E; [|done]. intros. eapply IH; [|done]. by eapply apply_op_keys.
Qed.

(** ** Theorems *)

(** C9: the two sides of a connection get one non-zero key and opposite roles.
    The first to register is the creator; whatever operations on other
    connections and other processes come in between, the second, which names
    the endpoints in the other order, is the joiner, gets the same key, and
    is told the creator's pid. *)
Theorem handshake_agreement reg x y p q ops r1 reg1 reg2 :
  active_ reg !! make x y = None ->
  register_endpoint reg (make x y) p = Some (r1, reg1) ->
  run reg1 ops = Some reg2 -> forallb (leaves (make x y) p) ops = true ->
  role r1 = kCreator /\ res_key r1 <> 0
  /\ exists reg3, register_endpoint reg2 (make y x) q
       = Some (mkResult (res_key r1) kJoiner p q, reg3).
Proof.
  intros Hnew Hreg Hrun Hops. unfold register_endpoint in Hreg. rewrite Hnew in Hreg.
  destruct (next_key (rng_ reg)) as [[k rest]|] eqn:Hk; [|done]. simplify_eq/=.
  destruct (next_key_Some _ _ _ Hk) as [Hk0 _].
  pose proof (run_leaves _ _ k _ _ _ Hops Hrun (lookup_insert_eq _ _ _)) as H2.
  split_and!; [done|done|]. rewrite (make_comm y x). unfold register_endpoint. rewrite H2.
  simpl. by eexists.
Qed.

Lemma handshake_agreement_witness :
  kCreator = kCreator /\ 7 <> 0
  /\ exists reg3, register_endpoint (mkReg {[make "s" "c" := mkEntry 7 10 0]} [11]) (make "s" "c") 20
       = Some (mkResult 7 kJoiner 10 20, reg3).
Proof.
  apply (handshake_agreement (mkReg ∅ [0; 7; 9; 11]) "c" "s" 10 20
           [Register (make "x" "y") 30; Reap 30] (mkResult 7 kCreator 10 0)
           (mkReg {[make "s" "c" := mkEntry 7 10 0]} [9; 11]));
    vm_compute; reflexivity.
Defined.

(** As long as the generator does not repeat itself, no two connections
    ever hold the same key, through any history of registrations,
    unregistrations and reaped processes; and no key is zero. *)
Theorem keys_unique rng ops reg id1 id2 e1 e2 :
  NoDup rng -> run (mkReg ∅ rng) ops = Some reg ->
  active_ reg !! id1 = Some e1 -> active_ reg !! id2 = Some e2 ->
  key e1 <> 0 /\ (key e1 = key e2 -> id1 = id2).
Proof.
  intros Hnd Hrun H1 H2. assert (Hinv : keys_inv reg).
  { eapply run_keys; [|done]. split; simpl; [done|..]; intros *; rewrite ?lookup_empty; done. }
  destruct Hinv. eauto.
Qed.

Lemma keys_unique_witness :
  let c1 := make "a" "b" in
  let c2 := make "c" "d" in
  7 <> 0 /\ (7 = 9 -> c1 = c2).
Proof.
  intros c1 c2.
  eapply (keys_unique [7; 9] [Register c1 5; Register c2 6] _ c1 c2
            (mkEntry 7 5 0) (mkEntry 9 6 0)); [|vm_compute; reflexivity..].
  apply (bool_decide_unpack _). vm_compute. exact I.
Defined.

(** Reaping a process removes exactly the connections it owns on either
    side, and reports how many those were. *)
Theorem reap_pid_exact reg pid :
  let '(n, reg') := reap_pid reg pid in
  n + live_pairs reg' = live_pairs reg
  /\ (forall id e, active_ reg' !! id = Some e
        <-> active_ reg !! id = Some e /\ creator_pid e <> pid /\ joiner_pid e <> pid).
Proof.
  pose proof (reap_pid_spec reg pid) as H. destruct (reap_pid reg pid) as [n reg'].
  destruct H as (Hn & Hm & _). split; [done|]. intros id e. rewrite Hm. unfold owned_by.
  rewrite orb_false_iff, !Z.eqb_neq. tauto.
Qed.

(** A pair that is never unregistered makes joiners of both sides of the next
    connection with the same addresses: nobody is told to create the
    segment. *)
Theorem stale_pair_two_joiners reg x y e p q :
  active_ reg !! make x y = Some e ->
  exists r1 reg1 r2 reg2,
    register_endpoint reg (make x y) p = Some (r1, reg1)
    /\ register_endpoint reg1 (make y x) q = Some (r2, reg2)
    /\ role r1 = kJoiner /\ role r2 = kJoiner.
Proof.
  intros He. unfold register_endpoint at 1. rewrite He. do 4 eexists.
  split; [reflexivity|]. rewrite (make_comm y x). unfold register_endpoint. simpl.
  rewrite lookup_insert_eq. by split_and!.
Qed.

End Handshake.
