(* ===== verification/FdRemap.v ===== *)
(** * The descriptor table

    [include/socksdirect/fd_remap.hpp]: the map between the virtual
    descriptors handed to the application and the resources behind them.  The
    vectors are lists; the outer vectors of [reverse_] and [refcount_], which
    have one element per [FdType], are functions of the type.  [free_list_] is
    kept with its back first.  Descriptors and counts are [int] in the source;
    a count never exceeds the number of virtual descriptors, so no sum here
    leaves the range of [int] before 2^31 descriptors exist.  The mutex makes
    every operation atomic. *)

From Stdlib Require Import ZArith Lia.
From stdpp Require Import strings gmap numbers base list.
From S2P Require Import Prelude.

Module FdRemap.

Inductive FdType := kUnknown | kSystem | kSocket | kEpoll | kEventfd | kFile.

Record FdMapping := mkMap { type : FdType; real_fd : Z }.

#[export] Instance FdType_eq_dec : EqDecision FdType.
Proof. solve_decision. Defined.
#[export] Instance FdMapping_eq_dec : EqDecision FdMapping.
Proof. solve_decision. Defined.

Record FdRemapTable := mkTable {
  forward_ : list FdMapping;
  reverse_ : FdType -> list Z;
  refcount_ : FdType -> list Z;
  free_list_ : list Z;
  watermark_ : Z }.

Definition unmapped : FdMapping := mkMap kUnknown (-1).
Definition kInitialCapacity : nat := 256.

(** The constructor. *)
Definition empty_table : FdRemapTable :=
  mkTable (replicate kInitialCapacity unmapped) (fun _ => replicate kInitialCapacity (-1))
    (fun _ => replicate kInitialCapacity 0) [] 0.

(** [f[t] = v] on a vector indexed by the type. *)
Definition upd {A} (f : FdType -> A) (t : FdType) (v : A) : FdType -> A :=
  fun t' => if decide (t = t') then v else f t'.

Definition fwd (tbl : FdRemapTable) (v : Z) : FdMapping :=
  default unmapped (forward_ tbl !! Z.to_nat v).
Definition rev (tbl : FdRemapTable) (t : FdType) (r : Z) : Z :=
  default (-1) (reverse_ tbl t !! Z.to_nat r).
Definition rc (tbl : FdRemapTable) (t : FdType) (r : Z) : Z :=
  default 0 (refcount_ tbl t !! Z.to_nat r).

Definition set_forward (tbl : FdRemapTable) (v : Z) (m : FdMapping) : FdRemapTable :=
  mkTable (<[Z.to_nat v := m]> (forward_ tbl)) (reverse_ tbl) (refcount_ tbl)
    (free_list_ tbl) (watermark_ tbl).
Definition set_reverse (tbl : FdRemapTable) (t : FdType) (r v : Z) : FdRemapTable :=
  mkTable (forward_ tbl) (upd (reverse_ tbl) t (<[Z.to_nat r := v]> (reverse_ tbl t)))
    (refcount_ tbl) (free_list_ tbl) (watermark_ tbl).
Definition set_refcount (tbl : FdRemapTable) (t : FdType) (r n : Z) : FdRemapTable :=
  mkTable (forward_ tbl) (reverse_ tbl)
    (upd (refcount_ tbl) t (<[Z.to_nat r := n]> (refcount_ tbl t)))
    (free_list_ tbl) (watermark_ tbl).
Definition set_free_list (tbl : FdRemapTable) (l : list Z) : FdRemapTable :=
  mkTable (forward_ tbl) (reverse_ tbl) (refcount_ tbl) l (watermark_ tbl).
Definition set_watermark (tbl : FdRemapTable) (w : Z) : FdRemapTable :=
  mkTable (forward_ tbl) (reverse_ tbl) (refcount_ tbl) (free_list_ tbl) w.

(** [while (new_size < needed) new_size *= 2;] The fuel [log2_up needed] is
    enough, because the size is at least one. *)
Fixpoint grow_loop (fuel : nat) (new_size needed : nat) : nat :=
  match fuel with
  | O => new_size
  | S fuel => if (new_size <? needed)%nat then grow_loop fuel (new_size * 2) needed else new_size
  end.
Definition grow (new_size needed : nat) : nat :=
  grow_loop (S (Nat.log2_up needed)) new_size needed.

(** [v.resize(n, d)] for [n >= v.size()]. *)
Definition resize {A} (l : list A) (n : nat) (d : A) : list A :=
  l ++ replicate (n - length l) d.

Definition ensure_capacity_locked (tbl : FdRemapTable) (virtual_fd : Z) : FdRemapTable :=
  let needed := (Z.to_nat virtual_fd + 1)%nat in
  if (needed <=? length (forward_ tbl))%nat then tbl
  else mkTable (resize (forward_ tbl) (grow (length (forward_ tbl)) needed) unmapped)
         (reverse_ tbl) (refcount_ tbl) (free_list_ tbl) (watermark_ tbl).

Definition ensure_reverse_capacity_locked (tbl : FdRemapTable) (t : FdType) (r : Z)
    : FdRemapTable :=
  let needed := (Z.to_nat r + 1)%nat in
  if (needed <=? length (reverse_ tbl t))%nat then tbl
  else
    let new_size := grow (length (reverse_ tbl t)) needed in
    mkTable (forward_ tbl)
      (upd (reverse_ tbl) t (resize (reverse_ tbl t) new_size (-1)))
      (upd (refcount_ tbl) t (resize (refcount_ tbl t) new_size 0))
      (free_list_ tbl) (watermark_ tbl).

Definition alloc_locked (tbl : FdRemapTable) : Z * FdRemapTable :=
  match free_list_ tbl with
  | vfd :: rest => (vfd, ensure_capacity_locked (set_free_list tbl rest) vfd)
  | [] =>
      let vfd := watermark_ tbl in
      (vfd, ensure_capacity_locked (set_watermark tbl (vfd + 1)) vfd)
  end.

(** The linear scan for another virtual descriptor of the same resource. *)
Fixpoint find_from (i : Z) (m : FdMapping) (l : list FdMapping) : Z :=
  match l with
  | [] => -1
  | x :: l => if decide (x = m) then i else find_from (i + 1) m l
  end.

Definition decref_locked (tbl : FdRemapTable) (t : FdType) (r vfd_being_dropped : Z)
    : Z * FdRemapTable :=
  if decide (t = kUnknown) then (0, tbl)
  else if r <? 0 then (0, tbl)
  else if (length (refcount_ tbl t) <=? Z.to_nat r)%nat then (0, tbl)
  else if rc tbl t r <=? 0 then (0, tbl)
  else
    let n := rc tbl t r - 1 in
    let tbl := set_refcount tbl t r n in
    if n =? 0 then
      (n, if rev tbl t r =? vfd_being_dropped then set_reverse tbl t r (-1) else tbl)
    else if rev tbl t r =? vfd_being_dropped then
      (n, set_reverse tbl t r (find_from 0 (mkMap t r) (forward_ tbl)))
    else (n, tbl).

(** [forward_[vfd] = {type, real_fd}] and the bookkeeping that follows it in
    [alloc], [set] and [dup_to]. *)
Definition bind_locked (tbl : FdRemapTable) (vfd : Z) (m : FdMapping) : FdRemapTable :=
  let tbl := set_forward tbl vfd m in
  if decide (type m = kUnknown) then tbl
  else
    let tbl := ensure_reverse_capacity_locked tbl (type m) (real_fd m) in
    let tbl := if rev tbl (type m) (real_fd m) <? 0
               then set_reverse tbl (type m) (real_fd m) vfd else tbl in
    set_refcount tbl (type m) (real_fd m) (rc tbl (type m) (real_fd m) + 1).

Definition alloc (tbl : FdRemapTable) (t : FdType) (r : Z) : Z * FdRemapTable :=
  if r <? 0 then (r, tbl)
  else
    let '(vfd, tbl) := alloc_locked tbl in
    (vfd, bind_locked tbl vfd (mkMap t r)).

(** The binding that is dropped when [vfd] is bound again, with the count left
    ([-1] when nothing was bound). *)
Definition drop_binding (tbl : FdRemapTable) (vfd : Z) : Z * FdRemapTable :=
  let prev := fwd tbl vfd in
  if negb (bool_decide (type prev = kUnknown)) && (0 <=? real_fd prev)
  then decref_locked tbl (type prev) (real_fd prev) vfd
  else (-1, tbl).

Definition raise_watermark (tbl : FdRemapTable) (vfd : Z) : FdRemapTable :=
  if watermark_ tbl <=? vfd then set_watermark tbl (vfd + 1) else tbl.

Definition set (tbl : FdRemapTable) (virtual_fd : Z) (t : FdType) (r : Z) : FdRemapTable :=
  if (virtual_fd <? 0) || (r <? 0) then tbl
  else
    let tbl := ensure_capacity_locked tbl virtual_fd in
    let '(_, tbl) := drop_binding tbl virtual_fd in
    raise_watermark (bind_locked tbl virtual_fd (mkMap t r)) virtual_fd.

Definition lookup (tbl : FdRemapTable) (virtual_fd : Z) : FdMapping :=
  if virtual_fd <? 0 then unmapped
  else if (length (forward_ tbl) <=? Z.to_nat virtual_fd)%nat then unmapped
  else fwd tbl virtual_fd.

Definition reverse_lookup (tbl : FdRemapTable) (t : FdType) (r : Z) : Z :=
  if r <? 0 then -1
  else if (length (reverse_ tbl t) <=? Z.to_nat r)%nat then -1
  else rev tbl t r.

Definition refcount (tbl : FdRemapTable) (virtual_fd : Z) : Z :=
  if virtual_fd <? 0 then 0
  else if (length (forward_ tbl) <=? Z.to_nat virtual_fd)%nat then 0
  else
    let m := fwd tbl virtual_fd in
    if bool_decide (type m = kUnknown) || (real_fd m <? 0) then 0
    else if (length (refcount_ tbl (type m)) <=? Z.to_nat (real_fd m))%nat then 0
    else rc tbl (type m) (real_fd m).

(** The guard of [dup] and [dup_to]: the descriptor is bound to a resource. *)
Definition bound (tbl : FdRemapTable) (v : Z) : bool :=
  (0 <=? v) && (Z.to_nat v <? length (forward_ tbl))%nat
  && negb (bool_decide (type (fwd tbl v) = kUnknown)) && (0 <=? real_fd (fwd tbl v)).

Definition dup (tbl : FdRemapTable) (virtual_fd : Z) : (errno + Z) * FdRemapTable :=
  if bound tbl virtual_fd then
    let src := fwd tbl virtual_fd in
    let '(new_vfd, tbl) := alloc_locked tbl in
    let tbl := set_forward tbl new_vfd src in
    let tbl := ensure_reverse_capacity_locked tbl (type src) (real_fd src) in
    (inr new_vfd, set_refcount tbl (type src) (real_fd src) (rc tbl (type src) (real_fd src) + 1))
  else (inl EBADF, tbl).

(** [dup_to]: the previous mapping and [*out_prev_refs], or the error. *)
Definition dup_to (tbl : FdRemapTable) (src_vfd dst_vfd : Z)
    : (errno + FdMapping * Z) * FdRemapTable :=
  if (src_vfd <? 0) || (dst_vfd <? 0) then (inl EBADF, tbl)
  else if negb (bound tbl src_vfd) then (inl EBADF, tbl)
  else
    let src := fwd tbl src_vfd in
    if src_vfd =? dst_vfd then (inr (unmapped, rc tbl (type src) (real_fd src)), tbl)
    else
      let tbl := ensure_capacity_locked tbl dst_vfd in
      let prev := fwd tbl dst_vfd in
      let '(prev_refs, tbl) := drop_binding tbl dst_vfd in
      (inr (prev, prev_refs), raise_watermark (bind_locked tbl dst_vfd src) dst_vfd).

Definition free (tbl : FdRemapTable) (virtual_fd : Z) : Z * FdRemapTable :=
  if virtual_fd <? 0 then (0, tbl)
  else if (length (forward_ tbl) <=? Z.to_nat virtual_fd)%nat then (0, tbl)
  else
    let cur := fwd tbl virtual_fd in
    if decide (cur = unmapped) then (0, tbl)
    else
      let tbl := set_forward tbl virtual_fd unmapped in
      let tbl := set_free_list tbl (virtual_fd :: free_list_ tbl) in
      if bool_decide (type cur = kUnknown) || (real_fd cur <? 0) then (0, tbl)
      else decref_locked tbl (type cur) (real_fd cur) virtual_fd.

Definition live_count (tbl : FdRemapTable) : Z :=
  watermark_ tbl - Z.of_nat (length (free_list_ tbl)).

(** ** Abstract view: a finite map from virtual descriptors to resources *)

Fixpoint view_from (i : Z) (l : list FdMapping) : gmap Z FdMapping :=
  match l with
  | [] => ∅
  | x :: l => if decide (x = unmapped) then view_from (i + 1) l
              else <[i := x]> (view_from (i + 1) l)
  end.
Definition view (tbl : FdRemapTable) : gmap Z FdMapping := view_from 0 (forward_ tbl).

(** How many virtual descriptors are bound to [x]. *)
Definition holders (m : gmap Z FdMapping) (x : FdMapping) : Z :=
  Z.of_nat (size (filter (fun p => p.2 = x) m)).

(** ** Invariants *)

Fixpoint refs (m : FdMapping) (l : list FdMapping) : Z :=
  match l with
  | [] => 0
  | x :: l => (if decide (x = m) then 1 else 0) + refs m l
  end.

(** The vectors agree in size, entries are well-formed, and nothing is bound at
    or above the watermark. *)
Record shape (tbl : FdRemapTable) : Prop := {
  sh_len : forall t, length (reverse_ tbl t) = length (refcount_ tbl t);
  sh_pos : forall t, (0 < length (refcount_ tbl t))%nat;
  sh_fpos : (0 < length (forward_ tbl))%nat;
  sh_real : forall v, fwd tbl v = unmapped \/ 0 <= real_fd (fwd tbl v);
  sh_wm : 0 <= watermark_ tbl <= Z.of_nat (length (forward_ tbl));
  sh_tail : forall v, watermark_ tbl <= v -> fwd tbl v = unmapped }.

(** Every count is the number of entries bound to the resource, the entry [v]
    left out if there is one. *)
Definition counted (l : list FdMapping) (tbl : FdRemapTable) : Prop :=
  forall t r, t <> kUnknown -> 0 <= r -> rc tbl t r = refs (mkMap t r) l.

Definition core (tbl : FdRemapTable) : Prop := shape tbl /\ counted (forward_ tbl) tbl.

(** The reverse map names a holder of every resource that has one. *)
Definition rev_ok (tbl : FdRemapTable) : Prop :=
  forall t r, t <> kUnknown -> 0 <= r ->
    (rev tbl t r = -1 /\ refs (mkMap t r) (forward_ tbl) = 0)
    \/ (0 <= rev tbl t r /\ fwd tbl (rev tbl t r) = mkMap t r).

(** The free list holds unbound descriptors below the watermark, once each;
    [gapless]: it holds all of them. *)
Record free_ok (tbl : FdRemapTable) : Prop := {
  fr_nodup : NoDup (free_list_ tbl);
  fr_in : forall v, v ∈ free_list_ tbl -> 0 <= v < watermark_ tbl /\ fwd tbl v = unmapped }.

Definition gapless (tbl : FdRemapTable) : Prop :=
  forall v, 0 <= v < watermark_ tbl -> fwd tbl v = unmapped -> v ∈ free_list_ tbl.

(** [sound] is what every operation keeps (as long as no descriptor of the free
    list is bound explicitly), [wf] what [alloc], [dup] and [free] keep. *)
Definition sound (tbl : FdRemapTable) : Prop := core tbl /\ free_ok tbl.
Definition wf (tbl : FdRemapTable) : Prop := sound tbl /\ rev_ok tbl /\ gapless tbl.

(** ** Vectors *)

Lemma grow_loop_enough fuel n needed :
  (needed <= n * 2 ^ fuel)%nat -> (needed <= grow_loop fuel n needed)%nat.
Proof.
  revert n. induction fuel as [|fuel IH]; intros n H; simpl in *; [lia|].
  destruct (Nat.ltb_spec n needed); [apply IH|]; lia.
Qed.

Lemma grow_enough n needed : (0 < n)%nat -> (needed <= grow n needed)%nat.
Proof.
  intros Hn. apply grow_loop_enough. rewrite Nat.pow_succ_r'.
  pose proof (Nat.pow_nonzero 2 (Nat.log2_up needed) ltac:(lia)).
  destruct (decide (needed <= 1)%nat) as [|Hgt]; [nia|].
  pose proof (Nat.log2_up_spec needed ltac:(lia)). nia.
Qed.

Lemma resize_default {A} (l : list A) n d i :
  default d (resize l n d !! i) = default d (l !! i).
Proof.
  unfold resize. destruct (decide (i < length l)%nat).
  - by rewrite lookup_app_l.
  - rewrite lookup_app_r by lia. rewrite (lookup_ge_None_2 l) by lia.
    destruct (replicate _ _ !! _) eqn:E; [|done]. by apply lookup_replicate in E as [-> _].
Qed.

Lemma resize_length {A} (l : list A) n d :
  (length l <= n)%nat -> length (resize l n d) = n.
Proof. intros. unfold resize. rewrite length_app, length_replicate. lia. Qed.

Lemma resize_length_ge {A} (l : list A) n d : (n <= length (resize l n d))%nat.
Proof. unfold resize. rewrite length_app, length_replicate. lia. Qed.

Lemma refs_nonneg m l : 0 <= refs m l.
Proof. induction l; simpl; [lia|]. case_decide; lia. Qed.

Lemma refs_app m l k : refs m (l ++ k) = refs m l + refs m k.
Proof. induction l; simpl; lia. Qed.

Lemma refs_replicate m n : m <> unmapped -> refs m (replicate n unmapped) = 0.
Proof. intros Hm. induction n; simpl; [done|]. rewrite decide_False by congruence. lia. Qed.

Lemma refs_resize m l n : m <> unmapped -> refs m (resize l n unmapped) = refs m l.
Proof. intros. unfold resize. rewrite refs_app, refs_replicate by done. lia. Qed.

Lemma refs_insert m l i x y :
  l !! i = Some x ->
  refs m (<[i := y]> l) = refs m l - (if decide (x = m) then 1 else 0)
                          + (if decide (y = m) then 1 else 0).
Proof.
  revert i. induction l as [|z l IH]; intros [|i] Hi; simplify_eq/=; [lia|].
  rewrite (IH i Hi). lia.
Qed.

Lemma refs_pos m l i : l !! i = Some m -> 0 < refs m l.
Proof.
  revert i. induction l as [|z l IH]; intros [|i] Hi; simplify_eq/=.
  - rewrite decide_True by done. pose proof (refs_nonneg m l). lia.
  - specialize (IH i Hi). case_decide; lia.
Qed.

Lemma refs_pos_inv m l : 0 < refs m l -> exists i, l !! i = Some m.
Proof.
  induction l as [|z l IH]; simpl; [lia|]. case_decide as Hz; [subst; by exists 0%nat|].
  intros Hp. destruct IH as [i Hi]; [lia|]. by exists (S i).
Qed.

Lemma find_from_spec i m l :
  find_from i m l = -1 /\ refs m l = 0
  \/ exists j, find_from i m l = i + Z.of_nat j /\ l !! j = Some m.
Proof.
  revert i. induction l as [|z l IH]; intros i; simpl; [by left|].
  case_decide as Hz; [subst; right; exists 0%nat; split; [lia|done]|].
  destruct (IH (i + 1)) as [[-> ->]|(j & -> & Hj)]; [by left|].
  right. exists (S j). split; [lia|done].
Qed.

(** ** Primitive steps *)

Lemma fwd_nat tbl v m :
  m <> unmapped -> fwd tbl v = m -> forward_ tbl !! Z.to_nat v = Some m.
Proof. unfold fwd. intros Hm. destruct (_ !! _); simpl; congruence. Qed.

Lemma fwd_set_forward tbl v m w :
  0 <= v -> 0 <= w -> (Z.to_nat v < length (forward_ tbl))%nat ->
  fwd (set_forward tbl v m) w = if decide (w = v) then m else fwd tbl w.
Proof.
  intros Hv Hw Hlt. unfold fwd, set_forward; simpl. case_decide as Hd.
  - subst. by rewrite list_lookup_insert_eq.
  - by rewrite list_lookup_insert_ne by lia.
Qed.

Lemma rc_set_refcount tbl t r n t' r' :
  0 <= r -> 0 <= r' -> (Z.to_nat r < length (refcount_ tbl t))%nat ->
  rc (set_refcount tbl t r n) t' r' = if decide (t' = t /\ r' = r) then n else rc tbl t' r'.
Proof.
  intros Hr Hr' Hlt. unfold rc, set_refcount, upd; simpl.
  destruct (decide (t = t')) as [->|Hne].
  - case_decide as Hd; [destruct Hd as [_ ->]; by rewrite list_lookup_insert_eq|].
    rewrite list_lookup_insert_ne; [done|]. intros ?. apply Hd. split; [done|lia].
  - rewrite decide_False by naive_solver. done.
Qed.

Lemma rev_set_reverse tbl t r n t' r' :
  0 <= r -> 0 <= r' -> (Z.to_nat r < length (reverse_ tbl t))%nat ->
  rev (set_reverse tbl t r n) t' r' = if decide (t' = t /\ r' = r) then n else rev tbl t' r'.
Proof.
  intros Hr Hr' Hlt. unfold rev, set_reverse, upd; simpl.
  destruct (decide (t = t')) as [->|Hne].
  - case_decide as Hd; [destruct Hd as [_ ->]; by rewrite list_lookup_insert_eq|].
    rewrite list_lookup_insert_ne; [done|]. intros ?. apply Hd. split; [done|lia].
  - rewrite decide_False by naive_solver. done.
Qed.

(** Growing the vectors is invisible: every slot reads as before. *)
Record same_obs (tbl tbl' : FdRemapTable) : Prop := {
  so_fwd : forall v, fwd tbl' v = fwd tbl v;
  so_refs : forall m, m <> unmapped -> refs m (forward_ tbl') = refs m (forward_ tbl);
  so_rc : forall t r, rc tbl' t r = rc tbl t r;
  so_rev : forall t r, rev tbl' t r = rev tbl t r;
  so_free : free_list_ tbl' = free_list_ tbl;
  so_wm : watermark_ tbl' = watermark_ tbl }.

Lemma same_obs_refl tbl : same_obs tbl tbl.
Proof. done. Qed.

Lemma ensure_capacity_obs tbl v : same_obs tbl (ensure_capacity_locked tbl v).
Proof.
  unfold ensure_capacity_locked. case_match; [done|].
  split; try done; simpl.
  - intros w. unfold fwd; simpl. apply resize_default.
  - intros m Hm. by apply refs_resize.
Qed.

Lemma ensure_capacity_length tbl v :
  (0 < length (forward_ tbl))%nat ->
  (Z.to_nat v < length (forward_ (ensure_capacity_locked tbl v)))%nat
  /\ (length (forward_ tbl) <= length (forward_ (ensure_capacity_locked tbl v)))%nat.
Proof.
  intros Hp. unfold ensure_capacity_locked.
  destruct (Nat.leb_spec (Z.to_nat v + 1) (length (forward_ tbl))); [lia|]. simpl.
  pose proof (grow_enough (length (forward_ tbl)) (Z.to_nat v + 1) Hp).
  rewrite resize_length by lia. lia.
Qed.

Lemma ensure_capacity_rest tbl v :
  reverse_ (ensure_capacity_locked tbl v) = reverse_ tbl
  /\ refcount_ (ensure_capacity_locked tbl v) = refcount_ tbl.
Proof. unfold ensure_capacity_locked. by case_match. Qed.

Lemma ensure_reverse_obs tbl t r : same_obs tbl (ensure_reverse_capacity_locked tbl t r).
Proof.
  unfold ensure_reverse_capacity_locked. case_match; [done|].
  split; try done; simpl.
  - intros t' r'. unfold rc, upd; simpl. case_decide; [subst; apply resize_default|done].
  - intros t' r'. unfold rev, upd; simpl. case_decide; [subst; apply resize_default|done].
Qed.

Lemma ensure_reverse_forward tbl t r :
  forward_ (ensure_reverse_capacity_locked tbl t r) = forward_ tbl.
Proof. unfold ensure_reverse_capacity_locked. by case_match. Qed.

Lemma ensure_reverse_length tbl t r :
  (forall t', length (reverse_ tbl t') = length (refcount_ tbl t')) ->
  (forall t', 0 < length (refcount_ tbl t'))%nat ->
  let tbl' := ensure_reverse_capacity_locked tbl t r in
  (Z.to_nat r < length (refcount_ tbl' t))%nat
  /\ (forall t', length (reverse_ tbl' t') = length (refcount_ tbl' t'))
  /\ (forall t', 0 < length (refcount_ tbl' t'))%nat.
Proof.
  intros Hl Hp. unfold ensure_reverse_capacity_locked; simpl.
  pose proof (Hl t) as Hlt. pose proof (Hp t) as Hpt.
  destruct (Nat.leb_spec (Z.to_nat r + 1) (length (reverse_ tbl t))) as [Hle|Hgt].
  { split_and!; [lia|done|done]. }
  pose proof (grow_enough (length (reverse_ tbl t)) (Z.to_nat r + 1) ltac:(lia)).
  simpl. unfold upd. split_and!.
  - rewrite decide_True by done. rewrite resize_length; lia.
  - intros t'. case_decide; [|done]. rewrite !resize_length; lia.
  - intros t'. case_decide; [|done]. rewrite resize_length; lia.
Qed.

(** A live count lies inside its vector. *)
Lemma rc_inside tbl t r : 0 < rc tbl t r -> (Z.to_nat r < length (refcount_ tbl t))%nat.
Proof.
  unfold rc. intros H. apply lookup_lt_is_Some. destruct (_ !! _); simpl in *; [done|lia].
Qed.

(** What a step on the counts leaves alone. *)
Record same_frame (tbl tbl' : FdRemapTable) : Prop := {
  sf_free : free_list_ tbl' = free_list_ tbl;
  sf_wm : watermark_ tbl' = watermark_ tbl;
  sf_len : forall t, length (reverse_ tbl' t) = length (refcount_ tbl' t);
  sf_pos : forall t, (0 < length (refcount_ tbl' t))%nat }.

Lemma upd_length {A} (f : FdType -> list A) t l t' :
  length l = length (f t) -> length (upd f t l t') = length (f t').
Proof. intros. unfold upd. by case_decide; subst. Qed.

Lemma decref_spec tbl t r v :
  (forall t', length (reverse_ tbl t') = length (refcount_ tbl t')) ->
  (forall t', 0 < length (refcount_ tbl t'))%nat ->
  t <> kUnknown -> 0 <= r -> 0 < rc tbl t r ->
  let '(n, tbl') := decref_locked tbl t r v in
  n = rc tbl t r - 1
  /\ same_frame tbl tbl' /\ forward_ tbl' = forward_ tbl
  /\ (forall t' r', 0 <= r' ->
        rc tbl' t' r' = if decide (t' = t /\ r' = r) then n else rc tbl t' r')
  /\ (forall t' r', 0 <= r' ->
        rev tbl' t' r' =
          if decide (t' = t /\ r' = r /\ rev tbl t r = v)
          then if n =? 0 then -1 else find_from 0 (mkMap t r) (forward_ tbl)
          else rev tbl t' r').
Proof.
  intros Hl Hp Ht Hr Hrc. pose proof (rc_inside _ _ _ Hrc) as Hin. unfold decref_locked.
  rewrite decide_False by done. destruct (Z.ltb_spec r 0); [lia|].
  destruct (Nat.leb_spec (length (refcount_ tbl t)) (Z.to_nat r)); [lia|].
  destruct (Z.leb_spec (rc tbl t r) 0); [lia|].
  set (tbl1 := set_refcount tbl t r (rc tbl t r - 1)).
  assert (Hf1 : same_frame tbl tbl1).
  { split; simpl; try done; intros t'; rewrite ?upd_length by apply length_insert; done. }
  assert (Hrc1 : forall t' r', 0 <= r' -> rc tbl1 t' r' =
    if decide (t' = t /\ r' = r) then rc tbl t r - 1 else rc tbl t' r')
    by (intros; apply rc_set_refcount; done).
  assert (Hset : forall x, same_frame tbl (set_reverse tbl1 t r x)).
  { intros x. destruct Hf1. split; simpl; try done. intros t'.
    rewrite !upd_length by apply length_insert. done. }
  change (rev tbl1 t r) with (rev tbl t r).
  destruct (Z.eqb_spec (rev tbl t r) v) as [Hv|Hv].
  - assert (Hrv : forall x t' r', 0 <= r' -> rev (set_reverse tbl1 t r x) t' r' =
      if decide (t' = t /\ r' = r /\ rev tbl t r = v) then x else rev tbl t' r').
    { intros x t' r' Hr'. rewrite rev_set_reverse
        by (done || (change (reverse_ tbl1) with (reverse_ tbl); rewrite Hl; done)).
      apply decide_ext. tauto. }
    destruct (rc tbl t r - 1 =? 0) eqn:En; split_and!; rewrite ?En; auto.
  - destruct (rc tbl t r - 1 =? 0); (split_and!; [done..|]); intros t' r' Hr';
      rewrite decide_False by tauto; done.
Qed.

Lemma bind_spec tbl v m :
  (forall t', length (reverse_ tbl t') = length (refcount_ tbl t')) ->
  (forall t', 0 < length (refcount_ tbl t'))%nat ->
  (type m <> kUnknown -> 0 <= real_fd m) ->
  let tbl' := bind_locked tbl v m in
  same_frame tbl tbl' /\ forward_ tbl' = <[Z.to_nat v := m]> (forward_ tbl)
  /\ (forall t r, t <> kUnknown -> 0 <= r ->
        rc tbl' t r = rc tbl t r + if decide (m = mkMap t r) then 1 else 0)
  /\ (forall t r, t <> kUnknown -> 0 <= r ->
        rev tbl' t r = if decide (m = mkMap t r /\ rev tbl t r < 0) then v else rev tbl t r).
Proof.
  intros Hl Hp Hm. unfold bind_locked; simpl. destruct (decide (type m = kUnknown)) as [Hu|Hu].
  { split_and!; [done|done|..]; intros t r Ht Hr.
    - rewrite decide_False by (intros ->; done). rewrite Z.add_0_r. done.
    - rewrite decide_False by (intros [-> _]; done). done. }
  destruct m as [mt mr]; simpl in *. specialize (Hm Hu).
  set (tbl1 := set_forward tbl v (mkMap mt mr)).
  destruct (ensure_reverse_length tbl1 mt mr) as (Hin & Hl2 & Hp2); [done..|].
  pose proof (ensure_reverse_obs tbl1 mt mr) as Ho.
  pose proof (ensure_reverse_forward tbl1 mt mr) as Hf2.
  set (tbl2 := ensure_reverse_capacity_locked tbl1 mt mr) in *.
  set (tbl3 := if rev tbl2 mt mr <? 0 then set_reverse tbl2 mt mr v else tbl2).
  assert (H3 : refcount_ tbl3 = refcount_ tbl2 /\ forward_ tbl3 = forward_ tbl2
    /\ same_frame tbl tbl3 /\ forall t r, 0 <= r ->
      rev tbl3 t r = if decide (mkMap mt mr = mkMap t r /\ rev tbl t r < 0)
                     then v else rev tbl t r).
  { unfold tbl3. destruct (Z.ltb_spec (rev tbl2 mt mr) 0) as [Hlt|Hge];
      (split_and!; [done|done|split; simpl|]).
    all: try apply Ho; try done.
    - intros t'. rewrite ?upd_length by apply length_insert. done.
    - intros t r Hr. rewrite rev_set_reverse by (done || rewrite Hl2; done).
      rewrite !(so_rev _ _ Ho) in *. change (rev tbl1) with (rev tbl) in *.
      apply decide_ext. split; [intros [-> ->]; done|intros [[=] _]; done].
    - intros t r Hr. rewrite !(so_rev _ _ Ho) in *. change (rev tbl1) with (rev tbl) in *.
      rewrite decide_False; [done|]. intros [[= -> ->] ?]. lia. }
  destruct H3 as (Hrc3 & Hfw3 & Hsf3 & Hrev3).
  assert (Hrcs : forall t r, rc tbl3 t r = rc tbl t r).
  { intros. unfold rc at 1. rewrite Hrc3. apply (so_rc _ _ Ho). }
  destruct Hsf3. split_and!.
  - split; simpl; try done; intros t'; rewrite ?upd_length by apply length_insert; done.
  - simpl. by rewrite Hfw3, Hf2.
  - intros t r Ht Hr. rewrite rc_set_refcount by (done || rewrite Hrc3; done). rewrite !Hrcs.
    case_decide as Hd; [destruct Hd as [-> ->]; by rewrite decide_True|].
    rewrite decide_False by (intros [= -> ->]; tauto). lia.
  - intros t r Ht Hr. change (rev tbl3 t r = if decide (mkMap mt mr = mkMap t r /\ rev tbl t r < 0)
      then v else rev tbl t r). by apply Hrev3.
Qed.

(** ** Preservation *)

Lemma shape_insert tbl tbl' v m :
  shape tbl ->
  (forall t, length (reverse_ tbl' t) = length (refcount_ tbl' t)) ->
  (forall t, 0 < length (refcount_ tbl' t))%nat ->
  forward_ tbl' = <[Z.to_nat v := m]> (forward_ tbl) ->
  0 <= v < Z.of_nat (length (forward_ tbl)) ->
  watermark_ tbl <= watermark_ tbl' <= Z.of_nat (length (forward_ tbl)) ->
  (v < watermark_ tbl' \/ m = unmapped) -> (m = unmapped \/ 0 <= real_fd m) ->
  shape tbl'.
Proof.
  intros [_ _ Hf Hreal Hwm Htail] Hl Hp Hfw Hv Hw Hvw Hm.
  assert (Hfwd : forall w, fwd tbl' w = if decide (Z.to_nat w = Z.to_nat v) then m else fwd tbl w).
  { intros w. unfold fwd. rewrite Hfw. case_decide as Hd.
    - rewrite Hd, list_lookup_insert_eq by lia. done.
    - by rewrite list_lookup_insert_ne by done. }
  split; try done.
  - by rewrite Hfw, length_insert.
  - intros w. rewrite Hfwd. by case_decide.
  - rewrite Hfw, length_insert. lia.
  - intros w Hw'. rewrite Hfwd. case_decide as Hd; [|apply Htail; lia].
    destruct Hvw as [?|?]; [lia|done].
Qed.

Lemma counted_insert tbl tbl' v x m :
  counted (forward_ tbl) tbl -> forward_ tbl !! Z.to_nat v = Some x ->
  (forall t r, t <> kUnknown -> 0 <= r ->
     rc tbl' t r = rc tbl t r - (if decide (x = mkMap t r) then 1 else 0)
                   + (if decide (m = mkMap t r) then 1 else 0)) ->
  counted (<[Z.to_nat v := m]> (forward_ tbl)) tbl'.
Proof.
  intros Hc Hx Hrc t r Ht Hr. rewrite Hrc, (Hc t r) by done. by rewrite (refs_insert _ _ _ x).
Qed.

Lemma fwd_inside tbl v :
  0 <= v < Z.of_nat (length (forward_ tbl)) -> forward_ tbl !! Z.to_nat v = Some (fwd tbl v).
Proof.
  intros Hv. unfold fwd. destruct (lookup_lt_is_Some_2 (forward_ tbl) (Z.to_nat v)) as [x Hx]; [lia|].
  by rewrite Hx.
Qed.

Lemma rc_bound tbl v :
  core tbl -> 0 <= v < Z.of_nat (length (forward_ tbl)) -> type (fwd tbl v) <> kUnknown ->
  0 <= real_fd (fwd tbl v)
  /\ rc tbl (type (fwd tbl v)) (real_fd (fwd tbl v)) = refs (fwd tbl v) (forward_ tbl)
  /\ 0 < refs (fwd tbl v) (forward_ tbl).
Proof.
  intros [Hsh Hc] Hv Ht. pose proof (fwd_inside tbl v Hv) as Hx.
  destruct (sh_real _ Hsh v) as [Hu|Hr]; [by rewrite Hu in Ht|].
  split; [done|]. split; [|by eapply refs_pos].
  rewrite Hc by done. f_equal. by destruct (fwd tbl v).
Qed.

Lemma drop_binding_spec tbl v :
  core tbl -> 0 <= v < Z.of_nat (length (forward_ tbl)) ->
  let '(n, tbl') := drop_binding tbl v in
  n = (if decide (type (fwd tbl v) = kUnknown) then -1 else refs (fwd tbl v) (forward_ tbl) - 1)
  /\ same_frame tbl tbl' /\ forward_ tbl' = forward_ tbl
  /\ (forall t r, t <> kUnknown -> 0 <= r ->
        rc tbl' t r = rc tbl t r - if decide (fwd tbl v = mkMap t r) then 1 else 0).
Proof.
  intros Hcore Hv. pose proof Hcore as [Hsh _]. unfold drop_binding.
  destruct (decide (type (fwd tbl v) = kUnknown)) as [Hu|Hu].
  { rewrite bool_decide_eq_true_2 by done. simpl. split_and!; [done| |done|].
    - destruct Hsh; by split.
    - intros t r Ht Hr. rewrite decide_False by (intros Hf; by rewrite Hf in Hu). lia. }
  destruct (rc_bound tbl v Hcore Hv Hu) as (Hr & Hrc & Hpos).
  rewrite bool_decide_eq_false_2 by done. destruct (Z.leb_spec 0 (real_fd (fwd tbl v))); [|lia].
  simpl. pose proof (decref_spec tbl (type (fwd tbl v)) (real_fd (fwd tbl v)) v
    (sh_len _ Hsh) (sh_pos _ Hsh) Hu Hr) as Hd.
  destruct (decref_locked _ _ _ _) as [n tbl']. destruct Hd as (-> & Hsf & Hfw & Hrc' & _); [lia|].
  split_and!; [lia|done|done|]. intros t r Ht Hr'. rewrite Hrc' by done.
  destruct (fwd tbl v) as [ft fr] eqn:Hf; simpl in *.
  case_decide as Hd; [destruct Hd as [-> ->]; rewrite decide_True by done; lia|].
  rewrite decide_False by (intros [= -> ->]; tauto). lia.
Qed.

(** Binding a descriptor again, the common part of [set] and [dup_to]. *)
Lemma rebind_core tbl v m :
  core tbl -> 0 <= v < Z.of_nat (length (forward_ tbl)) -> 0 <= real_fd m ->
  let tbl' := raise_watermark (bind_locked (drop_binding tbl v).2 v m) v in
  core tbl' /\ forward_ tbl' = <[Z.to_nat v := m]> (forward_ tbl)
  /\ free_list_ tbl' = free_list_ tbl /\ watermark_ tbl <= watermark_ tbl'.
Proof.
  intros Hcore Hv Hm. pose proof Hcore as [Hsh Hc]. pose proof (drop_binding_spec tbl v Hcore Hv) as Hd.
  destruct (drop_binding tbl v) as [n tbl1]. destruct Hd as (_ & Hsf1 & Hfw1 & Hrc1). simpl.
  destruct (bind_spec tbl1 v m (sf_len _ _ Hsf1) (sf_pos _ _ Hsf1) (fun _ => Hm))
    as (Hsf2 & Hfw2 & Hrc2 & _).
  set (tbl2 := bind_locked tbl1 v m) in *.
  assert (Hr : forward_ (raise_watermark tbl2 v) = forward_ tbl2
    /\ free_list_ (raise_watermark tbl2 v) = free_list_ tbl2
    /\ reverse_ (raise_watermark tbl2 v) = reverse_ tbl2
    /\ refcount_ (raise_watermark tbl2 v) = refcount_ tbl2
    /\ watermark_ (raise_watermark tbl2 v) = Z.max (watermark_ tbl2) (v + 1)).
  { unfold raise_watermark. destruct (Z.leb_spec (watermark_ tbl2) v); simpl; split_and!; lia || done. }
  destruct Hr as (Hrf & Hrfl & Hrr & Hrrc & Hrw). rewrite Hfw1 in Hfw2.
  destruct Hsf1 as [Hfl1 Hw1 _ _], Hsf2 as [Hfl2 Hw2 Hl2 Hp2]. rewrite Hw2, Hw1 in Hrw.
  pose proof (sh_wm _ Hsh). split_and!; [split| | |]; rewrite ?Hrf, ?Hrfl; try congruence; try lia.
  - apply (shape_insert tbl _ v m); rewrite ?Hrr, ?Hrrc, ?Hrf; auto; try (intros; auto); lia.
  - rewrite Hfw2. apply (counted_insert tbl _ v (fwd tbl v)); [done|by apply fwd_inside|].
    intros t r Ht Hr'. unfold rc at 1. rewrite Hrrc. change (default 0 _) with (rc tbl2 t r).
    rewrite Hrc2, Hrc1 by done. lia.
Qed.

Lemma ensure_capacity_core tbl v : core tbl -> core (ensure_capacity_locked tbl v).
Proof.
  intros [Hsh Hc]. pose proof (ensure_capacity_obs tbl v) as [Hf Hrf Hrc _ _ Hw].
  destruct (ensure_capacity_rest tbl v) as [Hr Hrc'].
  destruct (ensure_capacity_length tbl v (sh_fpos _ Hsh)) as [_ Hlen].
  destruct Hsh as [Hl Hp Hfp Hreal Hwm Htail]. split; [split|].
  - by rewrite Hr, Hrc'.
  - by rewrite Hrc'.
  - lia.
  - intros w. by rewrite Hf.
  - lia.
  - intros w. rewrite Hf, Hw. apply Htail.
  - intros t r Ht Hr0. rewrite Hrc, Hrf by (intros [=]; done). by apply Hc.
Qed.

(** What [alloc_locked] hands out: an unbound descriptor, off the free list. *)
Record allocated (tbl : FdRemapTable) (v : Z) (tbl1 : FdRemapTable) : Prop := {
  al_range : 0 <= v < watermark_ tbl1;
  al_core : core tbl1;
  al_free : free_ok tbl1;
  al_off : v ∉ free_list_ tbl1;
  al_new : fwd tbl v = unmapped;
  al_fwd : forall w, fwd tbl1 w = fwd tbl w;
  al_rev : forall t r, rev tbl1 t r = rev tbl t r;
  al_refs : forall m, m <> unmapped -> refs m (forward_ tbl1) = refs m (forward_ tbl);
  al_gap : gapless tbl -> forall w, 0 <= w < watermark_ tbl1 -> fwd tbl1 w = unmapped ->
             w = v \/ w ∈ free_list_ tbl1 }.

Lemma alloc_locked_core tbl tbl0 v :
  core tbl -> 0 <= v ->
  forward_ tbl0 = forward_ tbl -> reverse_ tbl0 = reverse_ tbl -> refcount_ tbl0 = refcount_ tbl ->
  watermark_ tbl <= watermark_ tbl0 <= Z.max (watermark_ tbl) (v + 1) ->
  let tbl1 := ensure_capacity_locked tbl0 v in
  core tbl1 /\ watermark_ tbl1 = watermark_ tbl0 /\ free_list_ tbl1 = free_list_ tbl0
  /\ (forall w, fwd tbl1 w = fwd tbl w) /\ (forall t r, rev tbl1 t r = rev tbl t r)
  /\ (forall m, m <> unmapped -> refs m (forward_ tbl1) = refs m (forward_ tbl)).
Proof.
  intros [Hsh Hc] Hv Ef Er Ec Hw. destruct Hsh as [Hl Hp Hfp Hreal Hwm Htail]. simpl.
  pose proof (ensure_capacity_obs tbl0 v) as [Of Orf Orc Orv Ofl Ow].
  destruct (ensure_capacity_rest tbl0 v) as [Hr Hrc'].
  destruct (ensure_capacity_length tbl0 v) as [Hin Hlen]; [by rewrite Ef|].
  assert (Hf : forall w, fwd (ensure_capacity_locked tbl0 v) w = fwd tbl w)
    by (intros w; rewrite Of; unfold fwd; by rewrite Ef).
  assert (Hrf : forall m, m <> unmapped ->
    refs m (forward_ (ensure_capacity_locked tbl0 v)) = refs m (forward_ tbl))
    by (intros m Hm; rewrite Orf by done; by rewrite Ef).
  rewrite Ef in Hlen. split_and!; auto; [split; [split|]|].
  - by rewrite Hr, Hrc', Er, Ec.
  - by rewrite Hrc', Ec.
  - lia.
  - intros w. by rewrite Hf.
  - rewrite Ow. lia.
  - intros w Hw'. rewrite Hf. apply Htail. lia.
  - intros t r Ht Hr0. rewrite Hrf by (intros [=]; done). unfold rc. rewrite Hrc', Ec. by apply Hc.
  - intros t r. rewrite Orv. unfold rev. by rewrite Er.
Qed.

Lemma alloc_locked_spec tbl :
  sound tbl -> let '(v, tbl1) := alloc_locked tbl in allocated tbl v tbl1.
Proof.
  intros [Hcore [Hnd Hin]]. pose proof Hcore as [Hsh _]. pose proof (sh_wm _ Hsh) as Hwm.
  unfold alloc_locked. destruct (free_list_ tbl) as [|v rest] eqn:Hfl.
  - destruct (alloc_locked_core tbl (set_watermark tbl (watermark_ tbl + 1)) (watermark_ tbl))
      as (Hc1 & Hw1 & Hf1 & Hfwd & Hrev & Hrefs); try done; try (simpl; lia).
    simpl in Hw1, Hf1. rewrite Hfl in Hf1.
    split; auto; rewrite ?Hw1, ?Hf1; try lia.
    + split; rewrite Hf1; [constructor|by intros v ?%not_elem_of_nil].
    + by intros ?%not_elem_of_nil.
    + apply (sh_tail _ Hsh). lia.
    + intros Hg w Hw. rewrite Hfwd. intros Hu. destruct (decide (w = watermark_ tbl)); [by left|right].
      rewrite <- Hfl. apply Hg; [lia|done].
  - apply NoDup_cons in Hnd as [Hni Hnd].
    destruct (Hin v) as [Hv Hu]; [by apply elem_of_cons; left|].
    destruct (alloc_locked_core tbl (set_free_list tbl rest) v)
      as (Hc1 & Hw1 & Hf1 & Hfwd & Hrev & Hrefs); try done; try (simpl; lia).
    simpl in Hw1, Hf1.
    split; auto; rewrite ?Hw1, ?Hf1; try done.
    + split; rewrite Hf1; [done|]. intros w Hw. rewrite Hw1, Hfwd. apply Hin.
      by apply elem_of_cons; right.
    + intros Hg w Hw. rewrite Hfwd. intros Huw. specialize (Hg w Hw Huw). rewrite Hfl in Hg.
      by apply elem_of_cons in Hg.
Qed.

Lemma fwd_insert tbl tbl' v m w :
  forward_ tbl' = <[Z.to_nat v := m]> (forward_ tbl) ->
  0 <= v < Z.of_nat (length (forward_ tbl)) -> 0 <= w ->
  fwd tbl' w = if decide (w = v) then m else fwd tbl w.
Proof.
  intros Hfw Hv Hw. unfold fwd. rewrite Hfw. case_decide as Hd.
  - subst. by rewrite list_lookup_insert_eq by lia.
  - by rewrite list_lookup_insert_ne by lia.
Qed.

(** Binding the descriptor just handed out, the common part of [alloc] and
    [dup]. *)
Lemma attach_spec tbl v tbl1 tbl2 m :
  allocated tbl v tbl1 -> m <> unmapped -> 0 <= real_fd m ->
  same_frame tbl1 tbl2 -> forward_ tbl2 = <[Z.to_nat v := m]> (forward_ tbl1) ->
  (forall t r, t <> kUnknown -> 0 <= r ->
     rc tbl2 t r = rc tbl1 t r + if decide (m = mkMap t r) then 1 else 0) ->
  sound tbl2
  /\ (forall w, 0 <= w -> fwd tbl2 w = if decide (w = v) then m else fwd tbl w)
  /\ (gapless tbl -> gapless tbl2).
Proof.
  intros [Hv [Hsh1 Hc1] [Hnd Hin] Hoff Hnew Hfwd _ _ Hgap] Hm Hr [Hfl Hwm Hl Hp] Hfw Hrc.
  pose proof (sh_wm _ Hsh1) as Hw1.
  assert (Hlen : 0 <= v < Z.of_nat (length (forward_ tbl1))) by lia.
  assert (Hx : forward_ tbl1 !! Z.to_nat v = Some unmapped)
    by (rewrite (fwd_inside _ _ Hlen), Hfwd; by rewrite Hnew).
  assert (Hfwd2 : forall w, 0 <= w -> fwd tbl2 w = if decide (w = v) then m else fwd tbl w).
  { intros w Hw. rewrite (fwd_insert tbl1 tbl2 v m w) by done. by rewrite Hfwd. }
  split_and!; [split; [split|split]|done|].
  - apply (shape_insert tbl1 tbl2 v m); auto; lia.
  - rewrite Hfw. apply (counted_insert tbl1 tbl2 v unmapped m); [done|done|].
    intros t r Ht Hr'. rewrite Hrc, (decide_False (P := unmapped = _)) by (done || (intros [=]; congruence)). lia.
  - by rewrite Hfl.
  - intros w. rewrite Hfl, Hwm. intros Hw. destruct (Hin w Hw) as [Hwr Hu]. split; [done|].
    rewrite Hfwd2 by lia. rewrite decide_False by congruence. by rewrite <- Hfwd.
  - intros Hg w. rewrite Hwm, Hfl. intros Hw. rewrite Hfwd2 by lia. case_decide; [done|].
    rewrite <- Hfwd. intros Hu. destruct (Hgap Hg w Hw Hu); done.
Qed.

Lemma attach_rev tbl v tbl1 tbl2 m :
  allocated tbl v tbl1 -> m <> unmapped -> rev_ok tbl ->
  forward_ tbl2 = <[Z.to_nat v := m]> (forward_ tbl1) ->
  (forall w, 0 <= w -> fwd tbl2 w = if decide (w = v) then m else fwd tbl w) ->
  (forall t r, t <> kUnknown -> 0 <= r ->
     rev tbl2 t r = if decide (m = mkMap t r /\ rev tbl t r < 0) then v else rev tbl t r) ->
  rev_ok tbl2.
Proof.
  intros [Hv Hc1 _ _ Hnew Hfwd _ Hrefs _] Hm Hrev Hfw Hfwd2 Hrev2 t r Ht Hr.
  rewrite Hrev2 by done. case_decide as Hd.
  { destruct Hd as [-> _]. right. split; [lia|]. rewrite Hfwd2, decide_True by (done || lia). done. }
  destruct (Hrev t r Ht Hr) as [[Hn Hz]|[Hp Hh]].
  - left. split; [done|]. rewrite Hfw.
    assert (Hlen : 0 <= v < Z.of_nat (length (forward_ tbl1)))
      by (destruct Hc1 as [[]]; lia).
    rewrite (refs_insert _ _ _ unmapped) by (rewrite (fwd_inside _ _ Hlen), Hfwd; by rewrite Hnew).
    rewrite (decide_False (P := m = _)) by (intros ->; apply Hd; split; [done|lia]).
    rewrite decide_False by (intros [=]; congruence). rewrite Hrefs by (intros [=]; congruence). lia.
  - right. split; [done|]. rewrite Hfwd2 by done. case_decide as He; [|done].
    rewrite He, Hnew in Hh. by injection Hh.
Qed.

Lemma alloc_spec tbl t r :
  sound tbl -> 0 <= r ->
  let '(v, tbl') := alloc tbl t r in
  0 <= v /\ fwd tbl v = unmapped /\ sound tbl' /\ (rev_ok tbl -> rev_ok tbl')
  /\ (gapless tbl -> gapless tbl')
  /\ (forall w, 0 <= w -> fwd tbl' w = if decide (w = v) then mkMap t r else fwd tbl w).
Proof.
  intros Hs Hr. unfold alloc. destruct (Z.ltb_spec r 0); [lia|].
  pose proof (alloc_locked_spec tbl Hs) as Ha. destruct (alloc_locked tbl) as [v tbl1].
  pose proof (al_core _ _ _ Ha) as [Hsh _].
  destruct (bind_spec tbl1 v (mkMap t r) (sh_len _ Hsh) (sh_pos _ Hsh) (fun _ => Hr))
    as (Hsf & Hfw & Hrc & Hrev).
  assert (Hm : mkMap t r <> unmapped) by (intros [=]; lia).
  destruct (attach_spec _ _ _ _ _ Ha Hm Hr Hsf Hfw Hrc) as (Hs' & Hfwd & Hg).
  destruct Ha as [Hv ? ? ? Hnew ? Hrv]. split_and!; auto; [lia|].
  intros Hok. apply (attach_rev tbl v tbl1 _ (mkMap t r)); auto; [by split|].
  intros t' r' Ht' Hr'. rewrite Hrev by done. by rewrite Hrv.
Qed.

Lemma bound_spec tbl v :
  bound tbl v = true ->
  0 <= v < Z.of_nat (length (forward_ tbl))
  /\ type (fwd tbl v) <> kUnknown /\ 0 <= real_fd (fwd tbl v).
Proof.
  unfold bound. rewrite !andb_true_iff, negb_true_iff, bool_decide_eq_false, Nat.ltb_lt, !Z.leb_le.
  intros [[[? ?] ?] ?]. split_and!; [lia|lia|done|done].
Qed.

Lemma bound_false tbl v :
  core tbl -> bound tbl v = false -> 0 <= v -> type (fwd tbl v) = kUnknown.
Proof.
  intros [Hsh _] Hb Hv. destruct (decide (type (fwd tbl v) = kUnknown)) as [|Hu]; [done|exfalso].
  assert (Hm : fwd tbl v <> unmapped) by (intros Hf; by rewrite Hf in Hu).
  pose proof (lookup_lt_Some _ _ _ (fwd_nat _ _ _ Hm eq_refl)).
  destruct (sh_real _ Hsh v) as [|Hr]; [done|]. revert Hb. unfold bound.
  rewrite bool_decide_eq_false_2 by done.
  destruct (Z.leb_spec 0 v), (Nat.ltb_spec (Z.to_nat v) (length (forward_ tbl))),
    (Z.leb_spec 0 (real_fd (fwd tbl v))); done || lia.
Qed.

Lemma dup_spec tbl v :
  sound tbl ->
  match dup tbl v with
  | (inl e, tbl') => e = EBADF /\ tbl' = tbl /\ bound tbl v = false
  | (inr v', tbl') =>
      bound tbl v = true /\ 0 <= v' /\ fwd tbl v' = unmapped /\ sound tbl'
      /\ (rev_ok tbl -> rev_ok tbl') /\ (gapless tbl -> gapless tbl')
      /\ (forall w, 0 <= w -> fwd tbl' w = if decide (w = v') then fwd tbl v else fwd tbl w)
  end.
Proof.
  intros Hs. unfold dup. destruct (bound tbl v) eqn:Hb; [|done].
  destruct (bound_spec _ _ Hb) as (Hv & Ht & Hr). set (m := fwd tbl v) in *.
  pose proof (alloc_locked_spec tbl Hs) as Ha. destruct (alloc_locked tbl) as [v' tbl1].
  pose proof (al_core _ _ _ Ha) as [Hsh1 _].
  set (tbl2 := set_forward tbl1 v' m).
  destruct (ensure_reverse_length tbl2 (type m) (real_fd m) (sh_len _ Hsh1) (sh_pos _ Hsh1))
    as (Hin & Hl & Hp).
  pose proof (ensure_reverse_obs tbl2 (type m) (real_fd m)) as Ho.
  pose proof (ensure_reverse_forward tbl2 (type m) (real_fd m)) as Hfw.
  set (tbl3 := ensure_reverse_capacity_locked tbl2 (type m) (real_fd m)) in *.
  set (tbl4 := set_refcount tbl3 _ _ _).
  assert (Hm : m <> unmapped) by (intros He; by rewrite He in Ht).
  destruct (attach_spec tbl v' tbl1 tbl4 m Ha Hm Hr) as (Hs' & Hfwd & Hg).
  - split; simpl; try apply Ho; intros t'; rewrite ?upd_length by apply length_insert; done.
  - simpl. by rewrite Hfw.
  - intros t r Ht' Hr'. unfold tbl4. rewrite rc_set_refcount by done.
    rewrite !(so_rc _ _ Ho). change (rc tbl2) with (rc tbl1). destruct m as [mt mr]; simpl in *.
    case_decide as Hd; [destruct Hd as [-> ->]; by rewrite decide_True|].
    rewrite decide_False by (intros [= -> ->]; tauto). lia.
  - pose proof Ha as [Hv' ? ? ? Hnew ? Hrv]. split_and!; auto; [lia|].
    intros Hok. apply (attach_rev tbl v' tbl1 tbl4 m); auto.
    intros t r Ht' Hr'. change (rev tbl4 t r) with (rev tbl3 t r).
    rewrite (so_rev _ _ Ho). change (rev tbl2 t r) with (rev tbl1 t r). rewrite Hrv.
    rewrite decide_False; [done|]. intros [Hmm Hneg]. destruct (Hok t r Ht' Hr') as [[_ Hz]|]; [|lia].
    pose proof (refs_pos _ _ _ (fwd_inside _ _ Hv)) as Hp'. fold m in Hp'. rewrite Hmm in Hp'. lia.
Qed.

(** [free] after the entry is cleared and pushed on the free list. *)
Definition cleared (tbl : FdRemapTable) (v : Z) : FdRemapTable :=
  let tbl := set_forward tbl v unmapped in set_free_list tbl (v :: free_list_ tbl).

Lemma cleared_free_ok tbl tbl' v :
  sound tbl -> 0 <= v < Z.of_nat (length (forward_ tbl)) -> fwd tbl v <> unmapped ->
  same_frame (cleared tbl v) tbl' -> forward_ tbl' = forward_ (cleared tbl v) ->
  shape tbl' /\ free_ok tbl' /\ (gapless tbl -> gapless tbl')
  /\ (forall w, 0 <= w -> fwd tbl' w = if decide (w = v) then unmapped else fwd tbl w).
Proof.
  intros [[Hsh _] [Hnd Hin]] Hv Hm [Hfl Hwm Hl Hp] Hfw. simpl in *.
  assert (Hvw : v < watermark_ tbl).
  { destruct (Z.lt_ge_cases v (watermark_ tbl)) as [|Hge]; [done|].
    by destruct (Hm (sh_tail _ Hsh v Hge)). }
  assert (Hfwd : forall w, 0 <= w -> fwd tbl' w = if decide (w = v) then unmapped else fwd tbl w)
    by (intros w Hw; by apply fwd_insert).
  pose proof (sh_wm _ Hsh). split_and!; [|split| |done].
  - apply (shape_insert tbl tbl' v unmapped); auto; lia.
  - rewrite Hfl. apply NoDup_cons. split; [|done]. intros Hin'. by destruct (Hin v Hin').
  - intros w. rewrite Hfl, Hwm, elem_of_cons. intros [->|Hw].
    + split; [lia|]. by rewrite Hfwd, decide_True by (done || lia).
    + destruct (Hin w Hw) as [Hr Hu]. split; [done|]. rewrite Hfwd by lia. by case_decide.
  - intros Hg w. rewrite Hwm, Hfl, elem_of_cons. intros Hw. rewrite Hfwd by lia.
    case_decide; [by left|]. intros Hu. right. by apply Hg.
Qed.

Lemma free_rev tbl tbl' v n :
  core tbl -> rev_ok tbl -> 0 <= v < Z.of_nat (length (forward_ tbl)) ->
  forward_ tbl' = <[Z.to_nat v := unmapped]> (forward_ tbl) ->
  (forall w, 0 <= w -> fwd tbl' w = if decide (w = v) then unmapped else fwd tbl w) ->
  n = refs (fwd tbl v) (forward_ tbl') ->
  (forall t r, t <> kUnknown -> 0 <= r ->
     rev tbl' t r = if decide (fwd tbl v = mkMap t r /\ rev tbl t r = v)
                    then if n =? 0 then -1 else find_from 0 (mkMap t r) (forward_ tbl')
                    else rev tbl t r) ->
  rev_ok tbl'.
Proof.
  intros Hcore Hok Hv Hfw Hfwd Hn Hrev t r Ht Hr. rewrite Hrev by done.
  pose proof (fwd_inside tbl v Hv) as Hx. case_decide as Hd.
  - destruct Hd as [Hm _]. rewrite Hm in Hn. destruct (Z.eqb_spec n 0); [left; lia|right].
    destruct (find_from_spec 0 (mkMap t r) (forward_ tbl')) as [[_ ?]|(j & -> & Hj)]; [lia|].
    split; [lia|]. unfold fwd. by rewrite Z.add_0_l, Nat2Z.id, Hj.
  - destruct (Hok t r Ht Hr) as [[Hm1 Hz]|[Hp Hh]].
    + left. split; [done|]. rewrite Hfw, (refs_insert _ _ _ _ _ Hx).
      rewrite (decide_False (P := unmapped = _)) by (intros [=]; congruence).
      rewrite decide_False; [lia|]. intros He. rewrite He in Hx. apply refs_pos in Hx. lia.
    + right. split; [done|]. rewrite Hfwd by done. case_decide as He; [|done].
      destruct Hd. split; congruence.
Qed.

Lemma free_out tbl v :
  core tbl -> 0 <= v -> (length (forward_ tbl) <= Z.to_nat v)%nat -> fwd tbl v = unmapped.
Proof. intros _ Hv Hl. unfold fwd. by rewrite lookup_ge_None_2. Qed.

(** The state [free] leaves once the entry is cleared, for a bound and for an
    untyped entry alike. *)
Lemma free_bound tbl v :
  sound tbl -> 0 <= v < Z.of_nat (length (forward_ tbl)) -> type (fwd tbl v) <> kUnknown ->
  let '(n, tbl') := decref_locked (cleared tbl v) (type (fwd tbl v)) (real_fd (fwd tbl v)) v in
  sound tbl' /\ (rev_ok tbl -> rev_ok tbl') /\ (gapless tbl -> gapless tbl')
  /\ (forall w, 0 <= w -> fwd tbl' w = if decide (w = v) then unmapped else fwd tbl w)
  /\ n = refs (fwd tbl v) (forward_ tbl').
Proof.
  intros Hs Hv Ht. pose proof Hs as [Hcore _]. pose proof Hcore as [Hsh Hc].
  destruct (rc_bound tbl v Hcore Hv Ht) as (Hr & Hrc & Hpos). set (m := fwd tbl v) in *.
  assert (Hm : m <> unmapped) by (intros He; by rewrite He in Ht).
  pose proof (decref_spec (cleared tbl v) (type m) (real_fd m) v
    (sh_len _ Hsh) (sh_pos _ Hsh) Ht Hr) as Hd.
  change (rc (cleared tbl v)) with (rc tbl) in Hd.
  change (rev (cleared tbl v)) with (rev tbl) in Hd.
  destruct (decref_locked (cleared tbl v) _ _ _) as [n tbl'].
  destruct Hd as (Hn & Hsf & Hfw & Hrc' & Hrev'); [lia|].
  destruct (cleared_free_ok tbl tbl' v Hs Hv Hm Hsf Hfw) as (Hsh' & Hfr' & Hg & Hfwd).
  pose proof (fwd_inside tbl v Hv) as Hx. fold m in Hx.
  assert (Hn' : n = refs m (forward_ tbl')).
  { rewrite Hfw. simpl. rewrite (refs_insert _ _ _ _ _ Hx), decide_True by done.
    rewrite decide_False by congruence. lia. }
  split_and!; auto; [split; [split; [done|]|done]|].
  - rewrite Hfw. simpl. apply (counted_insert tbl tbl' v m unmapped); [done|done|].
    intros t r Ht' Hr'. rewrite Hrc' by done. rewrite (decide_False (P := unmapped = _)) by (intros [=]; congruence).
    destruct m as [mt mr]; simpl in *.
    destruct (decide (t = mt /\ r = mr)) as [[-> ->]|Hd]; [rewrite decide_True by done; lia|].
    rewrite decide_False by (intros [= -> ->]; tauto). lia.
  - intros Hok. apply (free_rev tbl tbl' v n); auto. intros t r Ht' Hr'. rewrite Hrev' by done.
    change (fwd tbl v) with m. rewrite Hfw. destruct m as [mt mr]; simpl in *.
    destruct (decide (t = mt /\ r = mr /\ _)) as [(-> & -> & ?)|Hd]; [by rewrite decide_True|].
    rewrite decide_False; [done|]. intros [[= -> ->] ?]. tauto.
Qed.

Lemma free_untyped tbl v :
  sound tbl -> 0 <= v < Z.of_nat (length (forward_ tbl)) ->
  fwd tbl v <> unmapped -> type (fwd tbl v) = kUnknown ->
  sound (cleared tbl v) /\ (rev_ok tbl -> rev_ok (cleared tbl v))
  /\ (gapless tbl -> gapless (cleared tbl v))
  /\ (forall w, 0 <= w -> fwd (cleared tbl v) w = if decide (w = v) then unmapped else fwd tbl w).
Proof.
  intros Hs Hv Hm Ht. pose proof Hs as [[Hsh Hc] _].
  destruct (cleared_free_ok tbl (cleared tbl v) v Hs Hv Hm) as (Hsh' & Hfr' & Hg & Hfwd).
  { destruct Hsh. by split. } { done. }
  pose proof (fwd_inside tbl v Hv) as Hx.
  assert (Hne : forall t r, t <> kUnknown -> fwd tbl v <> mkMap t r)
    by (intros t r Ht' He; by rewrite He in Ht).
  split_and!; auto; [split; [split; [done|]|done]|].
  - simpl. apply (counted_insert tbl _ v (fwd tbl v) unmapped); [done|done|].
    intros t r Ht' Hr. change (rc (cleared tbl v)) with (rc tbl).
    rewrite !decide_False; [lia|intros [=]; congruence|by apply Hne].
  - intros Hok. apply (free_rev tbl _ v (refs (fwd tbl v) (forward_ (cleared tbl v)))); auto; [by split|].
    intros t r Ht' Hr. rewrite decide_False; [done|]. intros [He _]. by apply (Hne t r).
Qed.

Lemma free_spec tbl v :
  sound tbl -> 0 <= v ->
  let '(n, tbl') := free tbl v in
  sound tbl' /\ (rev_ok tbl -> rev_ok tbl') /\ (gapless tbl -> gapless tbl')
  /\ (forall w, 0 <= w -> fwd tbl' w = if decide (w = v) then unmapped else fwd tbl w)
  /\ n = (if decide (type (fwd tbl v) = kUnknown) then 0 else refs (fwd tbl v) (forward_ tbl')).
Proof.
  intros Hs Hv. pose proof Hs as [Hcore _]. unfold free. destruct (Z.ltb_spec v 0); [lia|].
  assert (Hnop : fwd tbl v = unmapped -> forall w, 0 <= w ->
    fwd tbl w = if decide (w = v) then unmapped else fwd tbl w)
    by (intros He w _; case_decide; congruence).
  destruct (Nat.leb_spec (length (forward_ tbl)) (Z.to_nat v)) as [Hl|Hl].
  { pose proof (free_out tbl v Hcore Hv Hl) as He. split_and!; auto.
    by rewrite decide_True by (by rewrite He). }
  destruct (decide (fwd tbl v = unmapped)) as [He|Hm].
  { split_and!; auto.
    by rewrite decide_True by (by rewrite He). }
  assert (Hin : 0 <= v < Z.of_nat (length (forward_ tbl))) by lia.
  change (set_free_list _ _) with (cleared tbl v).
  destruct (decide (type (fwd tbl v) = kUnknown)) as [Ht|Ht].
  - rewrite bool_decide_eq_true_2 by done. simpl.
    destruct (free_untyped tbl v Hs Hin Hm Ht) as (? & ? & ? & ?). by split_and!.
  - rewrite bool_decide_eq_false_2 by done.
    destruct (rc_bound tbl v Hcore Hin Ht) as (Hr & _ & _).
    destruct (Z.ltb_spec (real_fd (fwd tbl v)) 0); [lia|]. simpl. by apply free_bound.
Qed.

(** *** The view *)

Lemma view_from_lookup i l v :
  view_from i l !! v =
    if v <? i then None
    else match l !! Z.to_nat (v - i) with
         | Some x => if decide (x = unmapped) then None else Some x
         | None => None
         end.
Proof.
  revert i v. induction l as [|x l IH]; intros i v; simpl.
  { rewrite lookup_empty. by destruct (v <? i). }
  assert (Hrec : v <> i -> view_from (i + 1) l !! v = if v <? i then None
    else match (x :: l) !! Z.to_nat (v - i) with
         | Some x => if decide (x = unmapped) then None else Some x | None => None end).
  { intros Hne. rewrite IH. destruct (Z.ltb_spec v i), (Z.ltb_spec v (i + 1)); try lia; [done|].
    replace (Z.to_nat (v - i)) with (S (Z.to_nat (v - (i + 1)))) by lia. done. }
  assert (Hin : view_from (i + 1) l !! i = None).
  { rewrite IH. by destruct (Z.ltb_spec i (i + 1)); [|lia]. }
  destruct (decide (v = i)) as [->|Hne].
  - rewrite Z.ltb_irrefl, Z.sub_diag. simpl. case_decide; [done|]. by rewrite lookup_insert_eq.
  - rewrite <- Hrec by done. case_decide; [done|]. by rewrite lookup_insert_ne.
Qed.

Lemma view_lookup tbl v :
  view tbl !! v = if v <? 0 then None
                  else if decide (fwd tbl v = unmapped) then None else Some (fwd tbl v).
Proof.
  unfold view, fwd. rewrite view_from_lookup, Z.sub_0_r. destruct (v <? 0); [done|].
  by destruct (forward_ tbl !! Z.to_nat v).
Qed.

Lemma view_holders m i l :
  m <> unmapped -> refs m l = holders (view_from i l) m.
Proof.
  intros Hm. unfold holders. revert i. induction l as [|x l IH]; intros i; simpl.
  { by rewrite map_filter_empty. }
  rewrite (IH (i + 1)). assert (Hin : view_from (i + 1) l !! i = None).
  { rewrite view_from_lookup. by destruct (Z.ltb_spec i (i + 1)); [|lia]. }
  destruct (decide (x = unmapped)) as [->|Hx]; [rewrite decide_False by congruence; lia|].
  case_decide as Hd.
  - rewrite map_filter_insert_True by done. rewrite map_size_insert_None; [lia|].
    by apply map_lookup_filter_None; left.
  - rewrite map_filter_insert_not' by (simpl; try done; congruence). lia.
Qed.

(** A table whose entries are those of [tbl] but for one is the view with one
    key changed. *)
Lemma view_insert tbl tbl' v m :
  0 <= v -> m <> unmapped ->
  (forall w, 0 <= w -> fwd tbl' w = if decide (w = v) then m else fwd tbl w) ->
  view tbl' = <[v := m]> (view tbl).
Proof.
  intros Hv Hm Hf. apply map_eq. intros w. rewrite view_lookup.
  destruct (decide (w = v)) as [->|Hne].
  - rewrite lookup_insert_eq. destruct (Z.ltb_spec v 0); [lia|].
    assert (fwd tbl' v = m) as -> by (rewrite Hf by done; by rewrite decide_True).
    by rewrite decide_False.
  - rewrite lookup_insert_ne, view_lookup by done. destruct (Z.ltb_spec w 0); [done|].
    assert (fwd tbl' w = fwd tbl w) as -> by (rewrite Hf by done; by rewrite decide_False).
    done.
Qed.

Lemma view_delete tbl tbl' v :
  0 <= v ->
  (forall w, 0 <= w -> fwd tbl' w = if decide (w = v) then unmapped else fwd tbl w) ->
  view tbl' = delete v (view tbl).
Proof.
  intros Hv Hf. apply map_eq. intros w. rewrite view_lookup.
  destruct (decide (w = v)) as [->|Hne].
  - rewrite lookup_delete_eq. destruct (Z.ltb_spec v 0); [done|].
    assert (fwd tbl' v = unmapped) as -> by (rewrite Hf by done; by rewrite decide_True).
    by rewrite decide_True.
  - rewrite lookup_delete_ne, view_lookup by done. destruct (Z.ltb_spec w 0); [done|].
    assert (fwd tbl' w = fwd tbl w) as -> by (rewrite Hf by done; by rewrite decide_False).
    done.
Qed.

Lemma holders_delete m v x :
  m !! v = Some x -> holders (delete v m) x = holders m x - 1.
Proof.
  intros Hv. unfold holders. rewrite map_filter_delete.
  assert (Hf : filter (fun p => p.2 = x) m !! v = Some x) by (by apply map_lookup_filter_Some).
  rewrite map_size_delete_Some by eauto.
  assert (size (filter (fun p : Z * FdMapping => p.2 = x) m) <> 0%nat); [|lia].
  intros He%map_size_empty_iff. by rewrite He, lookup_empty in Hf.
Qed.

(** *** Binding an explicit descriptor *)

Definition rebind (tbl : FdRemapTable) (v : Z) (m : FdMapping) : FdRemapTable :=
  raise_watermark (bind_locked (drop_binding (ensure_capacity_locked tbl v) v).2 v m) v.

Lemma rebind_spec tbl v m :
  core tbl -> 0 <= v -> 0 <= real_fd m ->
  core (rebind tbl v m) /\ free_list_ (rebind tbl v m) = free_list_ tbl
  /\ watermark_ tbl <= watermark_ (rebind tbl v m)
  /\ (forall w, 0 <= w -> fwd (rebind tbl v m) w = if decide (w = v) then m else fwd tbl w).
Proof.
  intros Hcore Hv Hm. pose proof (ensure_capacity_core tbl v Hcore) as Hc0.
  destruct Hcore as [Hsh _]. destruct (ensure_capacity_length tbl v (sh_fpos _ Hsh)) as [Hin _].
  pose proof (ensure_capacity_obs tbl v) as [Hf _ _ _ Hfl Hw].
  destruct (rebind_core _ v m Hc0 ltac:(lia) Hm) as (Hc & Hfw & Hfl' & Hw'). fold (rebind tbl v m) in *.
  split_and!; [done|congruence|lia|]. intros w Hw0.
  rewrite (fwd_insert _ _ _ _ _ Hfw) by lia. by rewrite Hf.
Qed.

Lemma rebind_sound tbl v m :
  sound tbl -> 0 <= v -> v ∉ free_list_ tbl -> 0 <= real_fd m -> sound (rebind tbl v m).
Proof.
  intros [Hcore [Hnd Hin]] Hv Hni Hm. destruct (rebind_spec tbl v m Hcore Hv Hm) as (Hc & Hfl & Hw & Hf).
  split; [done|]. split; rewrite Hfl; [done|]. intros w Hw'. destruct (Hin w Hw') as [Hr Hu].
  split; [lia|]. rewrite Hf by lia. by rewrite decide_False by congruence.
Qed.

Lemma set_rebind tbl v t r : 0 <= v -> 0 <= r -> set tbl v t r = rebind tbl v (mkMap t r).
Proof.
  intros Hv Hr. unfold set, rebind. destruct (Z.ltb_spec v 0), (Z.ltb_spec r 0); try lia. simpl.
  by destruct (drop_binding _ _).
Qed.

Lemma dup_to_rebind tbl s d :
  bound tbl s = true -> 0 <= d -> s <> d ->
  dup_to tbl s d = (inr (fwd tbl d, (drop_binding (ensure_capacity_locked tbl d) d).1),
                    rebind tbl d (fwd tbl s)).
Proof.
  intros Hb Hd Hne. pose proof (bound_spec _ _ Hb) as (Hs & _). unfold dup_to, rebind.
  destruct (Z.ltb_spec s 0), (Z.ltb_spec d 0); try lia. rewrite Hb. simpl.
  destruct (Z.eqb_spec s d); [done|]. rewrite (so_fwd _ _ (ensure_capacity_obs tbl d)).
  by destruct (drop_binding _ _).
Qed.

Lemma drop_count tbl d x :
  core tbl -> view tbl !! d = Some x -> type x <> kUnknown ->
  (drop_binding (ensure_capacity_locked tbl d) d).1 = holders (delete d (view tbl)) x.
Proof.
  intros Hcore Hx Ht. pose proof Hx as Hl. rewrite view_lookup in Hl.
  destruct (Z.ltb_spec d 0); [done|]. case_decide as Hu; [done|]. injection Hl as Hl.
  pose proof (ensure_capacity_core tbl d Hcore) as Hc0. destruct Hcore as [Hsh _].
  destruct (ensure_capacity_length tbl d (sh_fpos _ Hsh)) as [Hin _].
  pose proof (ensure_capacity_obs tbl d) as Ho.
  pose proof (drop_binding_spec _ d Hc0 ltac:(lia)) as Hd.
  rewrite (so_fwd _ _ Ho), Hl in Hd. destruct (drop_binding _ _) as [n tbl'].
  destruct Hd as (-> & _). simpl. rewrite decide_False by done. rewrite Hl in Hu.
  rewrite (so_refs _ _ Ho), holders_delete by done. by rewrite (view_holders x 0).
Qed.

(** *** Histories of operations *)

Inductive table_op :=
  | OAlloc (t : FdType) (r : Z) | OSet (v : Z) (t : FdType) (r : Z)
  | ODup (v : Z) | ODupTo (s d : Z) | OFree (v : Z).

Definition apply_table_op (tbl : FdRemapTable) (o : table_op) : FdRemapTable :=
  match o with
  | OAlloc t r => (alloc tbl t r).2
  | OSet v t r => set tbl v t r
  | ODup v => (dup tbl v).2
  | ODupTo s d => (dup_to tbl s d).2
  | OFree v => (free tbl v).2
  end.

(** No descriptor waiting on the free list is bound explicitly. *)
Definition op_ok (tbl : FdRemapTable) (o : table_op) : bool :=
  match o with
  | OSet v _ _ | ODupTo _ v => negb (bool_decide (v ∈ free_list_ tbl))
  | _ => true
  end.

Fixpoint history_ok (tbl : FdRemapTable) (ops : list table_op) : bool :=
  match ops with
  | [] => true
  | o :: ops => op_ok tbl o && history_ok (apply_table_op tbl o) ops
  end.

Definition run_ops (tbl : FdRemapTable) (ops : list table_op) : FdRemapTable :=
  foldl apply_table_op tbl ops.

Lemma fwd_empty v : fwd empty_table v = unmapped.
Proof.
  unfold fwd. destruct (forward_ empty_table !! Z.to_nat v) eqn:E; [|done].
  by apply lookup_replicate in E as [-> _].
Qed.

Lemma empty_wf : wf empty_table.
Proof.
  assert (Hr : forall t r, t <> kUnknown -> refs (mkMap t r) (forward_ empty_table) = 0)
    by (intros t r Ht; apply refs_replicate; by intros [=]).
  split_and!; [split; [split; [split|]|split]|..].
  - done.
  - intros t. simpl. lia.
  - simpl. lia.
  - intros v. left. apply fwd_empty.
  - simpl. lia.
  - intros v _. apply fwd_empty.
  - intros t r Ht Hr0. rewrite Hr by done. unfold rc.
    destruct (refcount_ empty_table t !! Z.to_nat r) eqn:E; [|done].
    by apply lookup_replicate in E as [-> _].
  - constructor.
  - by intros v ?%not_elem_of_nil.
  - intros t r Ht Hr0. left. rewrite Hr by done. split; [|done]. unfold rev.
    destruct (reverse_ empty_table t !! Z.to_nat r) eqn:E; [|done].
    by apply lookup_replicate in E as [-> _].
  - intros v Hv. simpl in Hv. lia.
Qed.

Lemma apply_op_sound tbl o : sound tbl -> op_ok tbl o = true -> sound (apply_table_op tbl o).
Proof.
  intros Hs Hok. destruct o as [t r|v t r|v|s d|v]; simpl in *.
  - destruct (Z.lt_ge_cases r 0).
    + unfold alloc. by destruct (Z.ltb_spec r 0); [|lia].
    + pose proof (alloc_spec tbl t r Hs ltac:(lia)). destruct (alloc tbl t r). tauto.
  - apply negb_true_iff, bool_decide_eq_false in Hok.
    destruct (Z.lt_ge_cases v 0); [|destruct (Z.lt_ge_cases r 0)].
    1,2: unfold set; destruct (Z.ltb_spec v 0), (Z.ltb_spec r 0); done || lia.
    rewrite set_rebind by lia. by apply rebind_sound.
  - pose proof (dup_spec tbl v Hs) as Hd. destruct (dup tbl v) as [[e|w] tbl'].
    + by destruct Hd as (_ & -> & _).
    + simpl. tauto.
  - apply negb_true_iff, bool_decide_eq_false in Hok.
    destruct (bound tbl s) eqn:Hb; [destruct (Z.lt_ge_cases d 0); [|destruct (decide (s = d))]|].
    3: { rewrite dup_to_rebind by (done || lia). apply rebind_sound; [done|lia|done|].
         apply bound_spec in Hb. tauto. }
    all: unfold dup_to; rewrite Hb; destruct (Z.ltb_spec s 0), (Z.ltb_spec d 0); simpl; try done; try lia.
    by destruct (Z.eqb_spec s d).
  - destruct (Z.lt_ge_cases v 0).
    + unfold free. by destruct (Z.ltb_spec v 0); [|lia].
    + pose proof (free_spec tbl v Hs ltac:(lia)). destruct (free tbl v). tauto.
Qed.

Lemma run_ops_sound tbl ops : sound tbl -> history_ok tbl ops = true -> sound (run_ops tbl ops).
Proof.
  revert tbl. induction ops as [|o ops IH]; intros tbl Hs; simpl; [done|].
  intros [Ho Hops]%andb_true_iff. apply IH; [|done]. by apply apply_op_sound.
Qed.

(** ** Specification *)

Inductive result :=
  | RFd (v : Z) | RUnit | RErr (e : errno) | RPrev (m : FdMapping) (refs : Z) | RCount (n : Z).

Definition op_result (tbl : FdRemapTable) (o : table_op) : result :=
  match o with
  | OAlloc t r => RFd (alloc tbl t r).1
  | OSet _ _ _ => RUnit
  | ODup v => match (dup tbl v).1 with inl e => RErr e | inr v' => RFd v' end
  | ODupTo s d => match (dup_to tbl s d).1 with inl e => RErr e | inr (m, n) => RPrev m n end
  | OFree v => RCount (free tbl v).1
  end.

(** How many other descriptors hold what [v] is bound to; [d] if [v] is not
    bound to a resource. *)
Definition others (m : gmap Z FdMapping) (v d : Z) : Z :=
  match m !! v with
  | Some x => if decide (type x = kUnknown) then d else holders (delete v m) x
  | None => d
  end.

(** What the operations promise, on the finite map alone.  [alloc] and [dup]
    may hand out any unused descriptor. *)
Inductive spec_step (m : gmap Z FdMapping) : table_op -> result -> gmap Z FdMapping -> Prop :=
  | spec_alloc t r v : 0 <= r -> 0 <= v -> m !! v = None ->
      spec_step m (OAlloc t r) (RFd v) (<[v := mkMap t r]> m)
  | spec_alloc_negative t r : r < 0 -> spec_step m (OAlloc t r) (RFd r) m
  | spec_set v t r : 0 <= v -> 0 <= r ->
      spec_step m (OSet v t r) RUnit (<[v := mkMap t r]> m)
  | spec_set_negative v t r : v < 0 \/ r < 0 -> spec_step m (OSet v t r) RUnit m
  | spec_dup v x v' : m !! v = Some x -> type x <> kUnknown -> 0 <= v' -> m !! v' = None ->
      spec_step m (ODup v) (RFd v') (<[v' := x]> m)
  | spec_dup_bad v : (forall x, m !! v = Some x -> type x = kUnknown) ->
      spec_step m (ODup v) (RErr EBADF) m
  | spec_dup_to s d x : m !! s = Some x -> type x <> kUnknown -> 0 <= d -> s <> d ->
      spec_step m (ODupTo s d) (RPrev (default unmapped (m !! d)) (others m d (-1))) (<[d := x]> m)
  | spec_dup_to_same s x : m !! s = Some x -> type x <> kUnknown ->
      spec_step m (ODupTo s s) (RPrev unmapped (holders m x)) m
  | spec_dup_to_bad s d : d < 0 \/ (forall x, m !! s = Some x -> type x = kUnknown) ->
      spec_step m (ODupTo s d) (RErr EBADF) m
  | spec_free v : spec_step m (OFree v) (RCount (others m v 0)) (delete v m).

Lemma view_unmapped tbl v : 0 <= v -> fwd tbl v = unmapped -> view tbl !! v = None.
Proof.
  intros Hv Hu. rewrite view_lookup. destruct (Z.ltb_spec v 0); [done|]. by rewrite decide_True.
Qed.

Lemma view_bound tbl v :
  0 <= v -> fwd tbl v <> unmapped -> view tbl !! v = Some (fwd tbl v).
Proof.
  intros Hv Hu. rewrite view_lookup. destruct (Z.ltb_spec v 0); [lia|]. by rewrite decide_False.
Qed.

Lemma view_negative tbl v : v < 0 -> view tbl !! v = None.
Proof. intros. rewrite view_lookup. by destruct (Z.ltb_spec v 0); [|lia]. Qed.

Lemma view_typed tbl v :
  bound tbl v = true -> view tbl !! v = Some (fwd tbl v) /\ type (fwd tbl v) <> kUnknown.
Proof.
  intros (Hv & Ht & _)%bound_spec. split; [|done]. apply view_bound; [lia|].
  intros He. by rewrite He in Ht.
Qed.

Lemma view_untyped tbl v x :
  core tbl -> bound tbl v = false -> view tbl !! v = Some x -> type x = kUnknown.
Proof.
  intros Hcore Hb Hx. rewrite view_lookup in Hx. destruct (Z.ltb_spec v 0); [done|].
  case_decide; [done|]. simplify_eq. by apply bound_false.
Qed.

Lemma alloc_refines_spec tbl t r :
  sound tbl -> spec_step (view tbl) (OAlloc t r) (op_result tbl (OAlloc t r)) (view (alloc tbl t r).2).
Proof.
  intros Hs. destruct (Z.lt_ge_cases r 0); simpl.
  - unfold alloc. destruct (Z.ltb_spec r 0); [|lia]. by constructor.
  - pose proof (alloc_spec tbl t r Hs ltac:(lia)) as Ha. destruct (alloc tbl t r) as [v tbl'].
    destruct Ha as (Hv & Hu & _ & _ & _ & Hf). simpl.
    rewrite (view_insert tbl tbl' v (mkMap t r)) by (done || (intros [=]; lia)).
    constructor; [lia|done|by apply view_unmapped].
Qed.

Lemma set_refines_spec tbl v t r :
  sound tbl -> spec_step (view tbl) (OSet v t r) (op_result tbl (OSet v t r)) (view (set tbl v t r)).
Proof.
  intros [Hc _]. simpl. destruct (Z.lt_ge_cases v 0); [|destruct (Z.lt_ge_cases r 0)].
  1,2: unfold set; destruct (Z.ltb_spec v 0), (Z.ltb_spec r 0); try lia; constructor; lia.
  rewrite set_rebind by lia. destruct (rebind_spec tbl v (mkMap t r) Hc) as (_ & _ & _ & Hf); [lia|done|].
  rewrite (view_insert tbl (rebind tbl v (mkMap t r)) v (mkMap t r)); [constructor; lia|lia| |done].
  intros [=]. lia.
Qed.

Lemma dup_refines_spec tbl v :
  sound tbl -> spec_step (view tbl) (ODup v) (op_result tbl (ODup v)) (view (dup tbl v).2).
Proof.
  intros Hs. simpl. pose proof (dup_spec tbl v Hs) as Hd. destruct (dup tbl v) as [[e|v'] tbl']; simpl.
  - destruct Hd as (-> & -> & Hb). constructor. intros x. apply view_untyped; [by destruct Hs|done].
  - destruct Hd as (Hb & Hv' & Hu & _ & _ & _ & Hf). destruct (view_typed _ _ Hb) as [Hx Ht].
    rewrite (view_insert tbl tbl' v' (fwd tbl v)) by (done || (intros He; by rewrite He in Ht)).
    constructor; [done|done|done|by apply view_unmapped].
Qed.

Lemma dup_to_refines_spec tbl s d :
  sound tbl -> spec_step (view tbl) (ODupTo s d) (op_result tbl (ODupTo s d)) (view (dup_to tbl s d).2).
Proof.
  intros [Hc _]. simpl. destruct (bound tbl s) eqn:Hb.
  2: { assert (dup_to tbl s d = (inl EBADF, tbl)) as ->.
       { unfold dup_to. rewrite Hb. by destruct ((s <? 0) || (d <? 0)). }
       constructor. right. intros x. by apply view_untyped. }
  destruct (view_typed _ _ Hb) as [Hx Ht]. pose proof (bound_spec _ _ Hb) as (Hs & _ & Hr).
  assert (Hm : fwd tbl s <> unmapped) by (intros He; by rewrite He in Ht).
  destruct (Z.lt_ge_cases d 0).
  { unfold dup_to. destruct (Z.ltb_spec s 0), (Z.ltb_spec d 0); try lia. constructor. by left. }
  destruct (decide (s = d)) as [<-|Hne].
  { assert (dup_to tbl s s = (inr (unmapped, holders (view tbl) (fwd tbl s)), tbl)) as ->.
    { unfold dup_to. rewrite Hb. destruct (Z.ltb_spec s 0); [lia|]. rewrite Z.eqb_refl. simpl.
      destruct (rc_bound tbl s Hc Hs Ht) as (_ & -> & _). by rewrite (view_holders _ 0). }
    by constructor. }
  rewrite dup_to_rebind by (done || lia). simpl.
  destruct (rebind_spec tbl d (fwd tbl s) Hc) as (_ & _ & _ & Hf); [lia|done|].
  rewrite (view_insert tbl (rebind tbl d (fwd tbl s)) d (fwd tbl s)) by (lia || done).
  replace (fwd tbl d) with (default unmapped (view tbl !! d)).
  2: { rewrite view_lookup. destruct (Z.ltb_spec d 0); [lia|]. case_decide; simpl; congruence. }
  replace (drop_binding _ _).1 with (others (view tbl) d (-1)); [by constructor; lia || done|].
  unfold others. destruct (view tbl !! d) as [x|] eqn:Hxd.
  - case_decide as Hu; [|by rewrite (drop_count tbl d x)].
    rewrite view_lookup in Hxd. destruct (Z.ltb_spec d 0); [lia|]. case_decide; [done|]. simplify_eq.
    unfold drop_binding. rewrite (so_fwd _ _ (ensure_capacity_obs tbl d)).
    by rewrite bool_decide_eq_true_2 by done.
  - unfold drop_binding. rewrite (so_fwd _ _ (ensure_capacity_obs tbl d)).
    rewrite view_lookup in Hxd. destruct (Z.ltb_spec d 0); [lia|]. case_decide as Hu; [|done].
    by rewrite Hu.
Qed.

Lemma free_refines_spec tbl v :
  sound tbl -> spec_step (view tbl) (OFree v) (op_result tbl (OFree v)) (view (free tbl v).2).
Proof.
  intros Hs. simpl. destruct (Z.lt_ge_cases v 0) as [Hv|Hv].
  { assert (free tbl v = (others (view tbl) v 0, tbl)) as ->.
    { unfold free, others. rewrite view_negative by done. by destruct (Z.ltb_spec v 0); [|lia]. }
    simpl. rewrite <- (delete_id (view tbl) v) at 3 by (by apply view_negative). constructor. }
  pose proof (free_spec tbl v Hs ltac:(lia)) as Hf. destruct (free tbl v) as [n tbl']. simpl.
  destruct Hf as (_ & _ & _ & Hf & ->). rewrite (view_delete tbl tbl' v) by (lia || done).
  replace (if decide _ then _ else _) with (others (view tbl) v 0); [constructor|].
  unfold others. rewrite view_lookup at 1. destruct (Z.ltb_spec v 0); [lia|].
  destruct (decide (fwd tbl v = unmapped)) as [He|Hm].
  - by rewrite decide_True by (by rewrite He).
  - case_decide; [done|]. rewrite (view_holders _ 0) by done.
    f_equal. symmetry. apply (view_delete tbl tbl' v); [lia|done].
Qed.

(** ** Theorems *)

(** C8: every operation of the table implements the finite-map specification,
    results included: [alloc] and [dup] hand out an unused descriptor, [dup_to]
    reports the binding it replaces, and [free] and [dup_to] report how many
    other descriptors still hold the dropped resource, so that a caller that
    closes on zero closes each resource once.  The table stays sound, provided
    [set] and [dup_to] are not aimed at a descriptor that waits on the free
    list. *)
Theorem table_refines_map tbl o :
  sound tbl -> op_ok tbl o = true ->
  spec_step (view tbl) o (op_result tbl o) (view (apply_table_op tbl o))
  /\ sound (apply_table_op tbl o).
Proof.
  intros Hs Hok. split; [|by apply apply_op_sound]. destruct o; simpl.
  - by apply alloc_refines_spec.
  - by apply set_refines_spec.
  - by apply dup_refines_spec.
  - by apply dup_to_refines_spec.
  - by apply free_refines_spec.
Qed.

(** In every history that binds no waiting descriptor explicitly, the
    count kept for a resource is the number of virtual descriptors bound to
    it. *)
Theorem refcount_exact ops v x :
  history_ok empty_table ops = true ->
  view (run_ops empty_table ops) !! v = Some x -> type x <> kUnknown ->
  refcount (run_ops empty_table ops) v = holders (view (run_ops empty_table ops)) x.
Proof.
  intros Hok Hx Ht. pose proof empty_wf as [Hs0 _].
  pose proof (run_ops_sound _ _ Hs0 Hok) as [Hcore _]. set (tbl := run_ops empty_table ops) in *.
  rewrite view_lookup in Hx. destruct (Z.ltb_spec v 0) as [|Hv]; [done|].
  case_decide as Hu; [done|]. simplify_eq. unfold refcount.
  pose proof (lookup_lt_Some _ _ _ (fwd_nat _ _ _ Hu eq_refl)) as Hl.
  destruct (rc_bound tbl v Hcore ltac:(lia) Ht) as (Hr & Hrc & Hp).
  destruct (Z.ltb_spec v 0); [lia|]. destruct (Nat.leb_spec (length (forward_ tbl)) (Z.to_nat v)); [lia|].
  rewrite bool_decide_eq_false_2 by done. destruct (Z.ltb_spec (real_fd (fwd tbl v)) 0); [lia|]. simpl.
  rewrite <- Hrc in Hp. pose proof (rc_inside _ _ _ Hp).
  destruct (Nat.leb_spec (length (refcount_ tbl (type (fwd tbl v)))) (Z.to_nat (real_fd (fwd tbl v)))); [lia|].
  rewrite Hrc. by apply view_holders.
Qed.

(** The operations that never name a descriptor of their own. *)
Definition plain (o : table_op) : bool :=
  match o with OSet _ _ _ | ODupTo _ _ => false | _ => true end.

Lemma plain_wf tbl o : wf tbl -> plain o = true -> wf (apply_table_op tbl o).
Proof.
  intros (Hs & Hr & Hg) Hp. destruct o as [t r|v t r|v|s d|v]; simpl in *; try done.
  - destruct (Z.lt_ge_cases r 0).
    + unfold alloc. by destruct (Z.ltb_spec r 0); [|lia].
    + pose proof (alloc_spec tbl t r Hs ltac:(lia)). destruct (alloc tbl t r). by split_and!; tauto.
  - pose proof (dup_spec tbl v Hs) as Hd. destruct (dup tbl v) as [[e|w] tbl'].
    + by destruct Hd as (_ & -> & _).
    + by split_and!; tauto.
  - destruct (Z.lt_ge_cases v 0).
    + unfold free. by destruct (Z.ltb_spec v 0); [|lia].
    + pose proof (free_spec tbl v Hs ltac:(lia)). destruct (free tbl v). by split_and!; tauto.
Qed.

(** What the clients of the table need to know about it. *)
Lemma alloc_view tbl t r :
  wf tbl -> 0 <= r ->
  exists v, 0 <= v /\ view tbl !! v = None /\ view (alloc tbl t r).2 = <[v := mkMap t r]> (view tbl)
            /\ wf (alloc tbl t r).2.
Proof.
  intros Hw Hr. pose proof (plain_wf tbl (OAlloc t r) Hw eq_refl) as Hw'. destruct Hw as [Hs _].
  pose proof (alloc_spec tbl t r Hs Hr) as Ha. simpl in Hw'. destruct (alloc tbl t r) as [v tbl'].
  destruct Ha as (Hv & Hu & _ & _ & _ & Hf). exists v. split_and!; [done|by apply view_unmapped| |done].
  apply view_insert; [done| |done]. intros [=]. lia.
Qed.

Lemma free_view tbl v :
  wf tbl -> wf (free tbl v).2 /\ view (free tbl v).2 = delete v (view tbl)
            /\ (free tbl v).1 = others (view tbl) v 0.
Proof.
  intros Hw. pose proof (plain_wf tbl (OFree v) Hw eq_refl) as Hw'. destruct Hw as [Hs _].
  pose proof (free_refines_spec tbl v Hs) as H. simpl in *. split; [done|].
  remember (view (free tbl v).2) as m' eqn:Em. clear Em. inversion H; subst. done.
Qed.

Lemma reverse_lookup_spec tbl t r :
  wf tbl -> t <> kUnknown -> 0 <= r ->
  reverse_lookup tbl t r = -1 /\ holders (view tbl) (mkMap t r) = 0
  \/ 0 <= reverse_lookup tbl t r /\ view tbl !! reverse_lookup tbl t r = Some (mkMap t r).
Proof.
  intros ([[Hsh _] _] & Hrev & _) Ht Hr.
  assert (Hm : mkMap t r <> unmapped) by (intros [=]; congruence).
  assert (reverse_lookup tbl t r = rev tbl t r) as ->.
  { unfold reverse_lookup, rev. destruct (Z.ltb_spec r 0); [lia|].
    destruct (Nat.leb_spec (length (reverse_ tbl t)) (Z.to_nat r)); [|done].
    by rewrite lookup_ge_None_2. }
  unfold view at 1. rewrite <- (view_holders _ 0) by done.
  destruct (Hrev t r Ht Hr) as [?|[Hp Hf]]; [by left|right]. split; [done|].
  rewrite view_bound by (done || congruence). by rewrite Hf.
Qed.

Lemma holders_zero (m : gmap Z FdMapping) x v : holders m x = 0 -> m !! v <> Some x.
Proof.
  unfold holders. intros H Hv. assert (Hs : size (filter (fun p => p.2 = x) m) = 0%nat) by lia.
  apply map_size_empty_iff in Hs. assert (Hf : filter (fun p => p.2 = x) m !! v = Some x)
    by (by apply map_lookup_filter_Some). by rewrite Hs, lookup_empty in Hf.
Qed.

Lemma plain_run_wf tbl ops : wf tbl -> forallb plain ops = true -> wf (run_ops tbl ops).
Proof.
  revert tbl. induction ops as [|o ops IH]; intros tbl Hw; simpl; [done|].
  intros [Ho Hops]%andb_true_iff. apply IH; [|done]. by apply plain_wf.
Qed.

Lemma view_dom tbl : wf tbl ->
  (list_to_set (seqZ 0 (watermark_ tbl)) : gset Z) = dom (view tbl) ∪ list_to_set (free_list_ tbl)
  /\ dom (view tbl) ## (list_to_set (free_list_ tbl) : gset Z).
Proof.
  intros ([[Hsh _] [Hnd Hin]] & _ & Hg). split.
  - apply set_eq. intros v. rewrite elem_of_union, !elem_of_list_to_set, elem_of_seqZ, elem_of_dom.
    rewrite view_lookup, Z.add_0_l. split.
    + intros Hv. destruct (Z.ltb_spec v 0); [lia|]. case_decide as Hu; [|by left].
      right. by apply Hg.
    + intros [Hs|Hv]; [|by destruct (Hin v Hv)]. destruct (Z.ltb_spec v 0); [by destruct Hs|].
      case_decide as Hu; [by destruct Hs|]. split; [done|].
      destruct (Z.lt_ge_cases v (watermark_ tbl)); [done|]. by destruct (Hu (sh_tail _ Hsh v ltac:(lia))).
  - intros v. rewrite elem_of_list_to_set, elem_of_dom, view_lookup. intros Hs Hv.
    destruct (Hin v Hv) as [? Hu]. destruct (v <? 0); [by destruct Hs|].
    rewrite Hu, decide_True in Hs by done. by destruct Hs.
Qed.

(** Over every history of [alloc], [dup] and [free], the reverse lookup of
    a resource finds a descriptor bound to it as long as there is one and says
    [-1] when there is none, and [live_count] is the number of bound
    descriptors. *)
Theorem reverse_and_live_exact ops t r :
  forallb plain ops = true -> t <> kUnknown -> 0 <= r ->
  let tbl := run_ops empty_table ops in
  (reverse_lookup tbl t r = -1 /\ holders (view tbl) (mkMap t r) = 0
   \/ view tbl !! reverse_lookup tbl t r = Some (mkMap t r))
  /\ live_count tbl = Z.of_nat (size (view tbl)).
Proof.
  intros Hops Ht Hr. pose proof (plain_run_wf _ _ empty_wf Hops) as Hw.
  set (tbl := run_ops empty_table ops) in *. simpl. pose proof Hw as ([[Hsh _] [Hnd _]] & _ & _).
  split.
  - destruct (reverse_lookup_spec tbl t r Hw Ht Hr) as [?|[_ ?]]; auto.
  - destruct (view_dom tbl Hw) as [Heq Hdisj].
    apply (f_equal size) in Heq. rewrite size_union, size_dom in Heq by done.
    rewrite !size_list_to_set in Heq by (done || apply NoDup_seqZ). rewrite length_seqZ in Heq.
    unfold live_count. pose proof (sh_wm _ Hsh). lia.
Qed.

(** Where the precondition of the refinement fails: [dup_to] onto a descriptor
    that was freed leaves it on the free list, and the next [alloc] hands out
    the same descriptor although it is bound. *)
Theorem dup_to_freed_is_reissued tbl s d rest t r :
  core tbl -> bound tbl s = true -> free_list_ tbl = d :: rest -> 0 <= d -> s <> d -> 0 <= r ->
  let tbl' := (dup_to tbl s d).2 in
  lookup tbl' d = fwd tbl s /\ (alloc tbl' t r).1 = d.
Proof.
  intros Hc Hb Hfl Hd Hne Hr. rewrite dup_to_rebind by done. simpl.
  pose proof (bound_spec _ _ Hb) as (_ & Ht & Hr0).
  destruct (rebind_spec tbl d (fwd tbl s) Hc Hd Hr0) as (_ & Hfl' & _ & Hf).
  specialize (Hf d Hd). rewrite decide_True in Hf by done. split.
  - assert (Hu : fwd tbl s <> unmapped) by (intros He; by rewrite He in Ht).
    pose proof (lookup_lt_Some _ _ _ (fwd_nat _ _ _ Hu Hf)). unfold lookup.
    destruct (Z.ltb_spec d 0); [lia|]. by destruct (Nat.leb_spec (length (forward_ (rebind tbl d (fwd tbl s)))) (Z.to_nat d)); [lia|].
  - unfold alloc, alloc_locked. rewrite Hfl', Hfl. by destruct (Z.ltb_spec r 0); [lia|].
Qed.

(** [dup_to] drops the old binding of its target before it overwrites the
    entry, so the scan for another holder can find the target itself: here
    descriptor 0 is rebound from resource 5 to resource 7, and the reverse
    lookup of resource 5 still answers 0. *)
Theorem dup_to_stale_reverse :
  let tbl := run_ops empty_table [OAlloc kSocket 5; ODup 0; OAlloc kSocket 7; ODupTo 2 0] in
  reverse_lookup tbl kSocket 5 = 0 /\ lookup tbl 0 = mkMap kSocket 7
  /\ lookup tbl 1 = mkMap kSocket 5.
Proof. vm_compute. done. Qed.

(** [dup_to] beyond the watermark counts the descriptors it skips as live. *)
Theorem dup_to_gap_counts_live :
  let tbl := run_ops empty_table [OAlloc kSocket 5; ODupTo 0 9] in
  live_count tbl = 10 /\ size (view tbl) = 2%nat.
Proof. vm_compute. done. Qed.

(** *** Witnesses *)

Lemma table_refines_map_witness :
  spec_step (view empty_table) (OAlloc kSocket 3) (RFd 0)
    (view (apply_table_op empty_table (OAlloc kSocket 3)))
  /\ sound (apply_table_op empty_table (OAlloc kSocket 3)).
Proof. apply (table_refines_map empty_table (OAlloc kSocket 3)); [apply empty_wf|reflexivity]. Defined.

Definition demo_ops : list table_op :=
  [OAlloc kSocket 5; ODup 0; OAlloc kEpoll 300; OFree 0; ODupTo 1 7].

Lemma refcount_exact_witness :
  refcount (run_ops empty_table demo_ops) 7 = holders (view (run_ops empty_table demo_ops)) (mkMap kSocket 5).
Proof.
  apply (refcount_exact demo_ops 7 (mkMap kSocket 5)); [vm_compute; reflexivity..|discriminate].
Defined.

Lemma reverse_and_live_exact_witness :
  let tbl := run_ops empty_table [OAlloc kSocket 5; ODup 0; OFree 0] in
  (reverse_lookup tbl kSocket 5 = -1 /\ holders (view tbl) (mkMap kSocket 5) = 0
   \/ view tbl !! reverse_lookup tbl kSocket 5 = Some (mkMap kSocket 5))
  /\ live_count tbl = Z.of_nat (size (view tbl)).
Proof.
  apply (reverse_and_live_exact [OAlloc kSocket 5; ODup 0; OFree 0] kSocket 5);
    [reflexivity|discriminate|lia].
Defined.

End FdRemap.
