(* ===== verification/Rdma.v ===== *)
(** * The RDMA side: queue-pair records and connection set-up

    [include/socksdirect/rdma/qp_info.hpp] (module [QpInfo]): the 64-byte
    record the peers exchange and its hexadecimal form; the byte image of the
    packed struct is the little-endian one of the supported platforms.
    [src/lib/rdma/conn.cpp] (module [RdmaConn]): opening the device and driving a
    queue pair to the ready-to-send state.  The verbs library is not part of
    the repository; what its calls return is an argument, and the model
    records which calls are made. *)

From coqutil Require Import Word.LittleEndianList.
From Stdlib Require Import ZArith Lia Ascii.
From stdpp Require Import strings numbers base list.
From Stdlib Require Import Init.Byte.
From S2P Require Import Prelude Text.

Module QpInfo.
Import Text.

Record QpInfo := mkQp {
  qp_num : Z; lid : Z; pad0 : Z; gid : list byte; rkey : Z; pad1 : Z;
  remote_addr : Z; mtu : Z; reserved : list byte }.

Definition sizeof_QpInfo : nat := 64.

(** The fields have the widths of the C types. *)
Record wf (q : QpInfo) : Prop := {
  wf_qp_num : is_uint 32 (qp_num q);
  wf_lid : is_uint 16 (lid q);
  wf_pad0 : is_uint 16 (pad0 q);
  wf_gid : length (gid q) = 16%nat;
  wf_rkey : is_uint 32 (rkey q);
  wf_pad1 : is_uint 32 (pad1 q);
  wf_addr : is_uint 64 (remote_addr q);
  wf_mtu : is_uint 32 (mtu q);
  wf_reserved : length (reserved q) = 20%nat }.

(** [reinterpret_cast<const uint8_t*>(&q)]. *)
Definition bytes_of (q : QpInfo) : list byte :=
  le_split 4 (qp_num q) ++ le_split 2 (lid q) ++ le_split 2 (pad0 q) ++ gid q
  ++ le_split 4 (rkey q) ++ le_split 4 (pad1 q) ++ le_split 8 (remote_addr q)
  ++ le_split 4 (mtu q) ++ reserved q.

Definition field (bs : list byte) (off n : nat) : list byte := take n (drop off bs).

Definition of_bytes (bs : list byte) : QpInfo :=
  mkQp (le_combine (field bs 0 4)) (le_combine (field bs 4 2)) (le_combine (field bs 6 2))
    (field bs 8 16) (le_combine (field bs 24 4)) (le_combine (field bs 28 4))
    (le_combine (field bs 32 8)) (le_combine (field bs 40 4)) (field bs 44 20).

(** [hex[d]] for [d < 16]. *)
Definition hex (d : N) : ascii :=
  default "?"%char (String.get (N.to_nat d) "0123456789abcdef").

Fixpoint hex_bytes (bs : list byte) : string :=
  match bs with
  | [] => ""
  | b :: bs =>
      String (hex (N.shiftr (Byte.to_N b) 4))
        (String (hex (N.land (Byte.to_N b) 15)) (hex_bytes bs))
  end.

Definition encode_qp_info (q : QpInfo) : string := hex_bytes (bytes_of q).

Definition from_hex (c : ascii) : option N :=
  let n := N_of_ascii c in
  if ((48 <=? n) && (n <=? 57))%N then Some (n - 48)%N
  else if ((97 <=? n) && (n <=? 102))%N then Some (10 + (n - 97))%N
  else if ((65 <=? n) && (n <=? 70))%N then Some (10 + (n - 65))%N
  else None.

(** The byte loop of [decode_qp_info]; the length was checked before. *)
Fixpoint unhex_bytes (s : string) : option (list byte) :=
  match s with
  | String c (String d s) =>
      match from_hex c, from_hex d with
      | Some hi, Some lo =>
          match Byte.of_N (N.lor (N.shiftl hi 4) lo), unhex_bytes s with
          | Some b, Some bs => Some (b :: bs)
          | _, _ => None
          end
      | _, _ => None
      end
  | _ => Some []
  end.

Definition decode_qp_info (s : string) : option QpInfo :=
  if negb (String.length s =? sizeof_QpInfo * 2)%nat then None
  else of_bytes <$> unhex_bytes s.

(** ** Lemmas *)

Lemma bytes_of_length q : wf q -> length (bytes_of q) = 64%nat.
Proof. intros []. unfold bytes_of. rewrite !length_app, !length_le_split. lia. Qed.

Lemma field_cut (a b c : list byte) off n :
  length a = off -> length b = n -> field (a ++ b ++ c) off n = b.
Proof. intros <- <-. unfold field. by rewrite drop_app_length, take_app_length. Qed.

Lemma field_next (a b : list byte) off n :
  (length a <= off)%nat -> field (a ++ b) off n = field b (off - length a) n.
Proof. intros H. unfold field. by rewrite drop_app_ge. Qed.

Lemma combine_split n w x : Z.of_nat n * 8 = w -> is_uint w x -> le_combine (le_split n x) = x.
Proof. intros <- Hx. rewrite le_combine_split. by apply Z.mod_small. Qed.

Lemma field_head (b c : list byte) n : length b = n -> field (b ++ c) 0 n = b.
Proof. intros <-. unfold field. by rewrite drop_0, take_app_length. Qed.

Lemma of_bytes_of q : wf q -> of_bytes (bytes_of q) = q.
Proof.
  intros []. destruct q as [q1 l p0 g r p1 ra m rs]; simpl in *.
  unfold of_bytes, bytes_of; cbn [qp_num lid pad0 gid rkey pad1 remote_addr mtu reserved].
  f_equal; repeat (rewrite field_next by (rewrite ?length_le_split; lia));
    rewrite ?length_le_split, ?wf_gid0; cbn [Nat.sub].
  all: try (rewrite field_head by (rewrite ?length_le_split; lia)).
  all: try (eapply combine_split; [|eassumption]; done).
  all: try done.
  unfold field. rewrite drop_0. by apply take_ge; lia.
Qed.

Lemma field_length (bs : list byte) off n :
  (off + n <= length bs)%nat -> length (field bs off n) = n.
Proof. intros. unfold field. rewrite length_take, length_drop. lia. Qed.

Lemma bytes_of_of bs : length bs = 64%nat -> bytes_of (of_bytes bs) = bs.
Proof.
  intros Hl. unfold bytes_of, of_bytes; cbn [qp_num lid pad0 gid rkey pad1 remote_addr mtu reserved].
  rewrite !split_le_combine' by (apply field_length; lia). unfold field.
  rewrite <- (take_drop 4 bs) at 10. rewrite drop_0. f_equal.
  rewrite <- (take_drop 2 (drop 4 bs)) at 2. f_equal. rewrite drop_drop; simpl.
  rewrite <- (take_drop 2 (drop 6 bs)) at 2. f_equal. rewrite drop_drop; simpl.
  rewrite <- (take_drop 16 (drop 8 bs)) at 2. f_equal. rewrite drop_drop; simpl.
  rewrite <- (take_drop 4 (drop 24 bs)) at 2. f_equal. rewrite drop_drop; simpl.
  rewrite <- (take_drop 4 (drop 28 bs)) at 2. f_equal. rewrite drop_drop; simpl.
  rewrite <- (take_drop 8 (drop 32 bs)) at 2. f_equal. rewrite drop_drop; simpl.
  rewrite <- (take_drop 4 (drop 40 bs)) at 2. f_equal. rewrite drop_drop; simpl.
  apply take_ge. rewrite length_drop. lia.
Qed.

(** The decoder accepts both cases of a hexadecimal digit; the encoder writes
    the lower one. *)
Definition lower_hex (c : ascii) : ascii :=
  let n := N_of_ascii c in
  if ((65 <=? n) && (n <=? 70))%N then ascii_of_N (n + 32) else c.

Definition is_hex (c : ascii) : bool := bool_decide (is_Some (from_hex c)).

Lemma from_hex_spec c h : from_hex c = Some h -> hex h = lower_hex c /\ (h < 16)%N.
Proof. destruct c as [[] [] [] [] [] [] [] []]; cbv; by intros [=]; subst. Qed.

Lemma byte_digits b :
  from_hex (hex (N.shiftr (Byte.to_N b) 4)) = Some (N.shiftr (Byte.to_N b) 4)
  /\ from_hex (hex (N.land (Byte.to_N b) 15)) = Some (N.land (Byte.to_N b) 15)
  /\ N.lor (N.shiftl (N.shiftr (Byte.to_N b) 4) 4) (N.land (Byte.to_N b) 15) = Byte.to_N b.
Proof. by destruct b. Qed.

Lemma digits_byte hi lo :
  (hi < 16)%N -> (lo < 16)%N ->
  exists b, Byte.of_N (N.lor (N.shiftl hi 4) lo) = Some b
            /\ N.shiftr (Byte.to_N b) 4 = hi /\ N.land (Byte.to_N b) 15 = lo.
Proof.
  intros Hh Hl. pose (l := N.of_nat <$> seq 0 16).
  assert (Hin : forall n, (n < 16)%N -> In n l).
  { intros n Hn. apply list_elem_of_In, list_elem_of_fmap. exists (N.to_nat n).
    split; [lia|apply elem_of_seq; lia]. }
  assert (Hall : forallb (fun hi => forallb (fun lo =>
      match Byte.of_N (N.lor (N.shiftl hi 4) lo) with
      | Some b => N.eqb (N.shiftr (Byte.to_N b) 4) hi && N.eqb (N.land (Byte.to_N b) 15) lo
      | None => false
      end) l) l = true) by (vm_compute; reflexivity).
  rewrite forallb_forall in Hall. specialize (Hall hi (Hin hi Hh)).
  rewrite forallb_forall in Hall. specialize (Hall lo (Hin lo Hl)).
  destruct (Byte.of_N _) as [b|]; [|done]. exists b.
  apply andb_true_iff in Hall as [?%N.eqb_eq ?%N.eqb_eq]. done.
Qed.

Lemma unhex_hex bs : unhex_bytes (hex_bytes bs) = Some bs.
Proof.
  induction bs as [|b bs IH]; [done|]. cbn [hex_bytes unhex_bytes].
  destruct (byte_digits b) as (-> & -> & ->). by rewrite Byte.of_to_N, IH.
Qed.

Lemma hex_bytes_length bs : String.length (hex_bytes bs) = (length bs * 2)%nat.
Proof. induction bs; simpl; lia. Qed.

Lemma even_string_ind (P : string -> Prop) :
  P "" -> (forall c, P (String c "")) -> (forall c d s, P s -> P (String c (String d s))) ->
  forall s, P s.
Proof.
  intros H0 H1 H2 s. enough (H : P s /\ forall c, P (String c s)) by apply H.
  induction s as [|c s [IH IH']]; [done|]. split; [done|]. intros d. by apply H2.
Qed.

Lemma unhex_spec s :
  Nat.even (String.length s) = true ->
  match unhex_bytes s with
  | Some bs => sall is_hex s = true /\ hex_bytes bs = map_chars lower_hex s
               /\ String.length s = (length bs * 2)%nat
  | None => sall is_hex s = false
  end.
Proof.
  induction s as [|c|c d s IH] using even_string_ind; [done|done|]. intros He.
  specialize (IH He). cbn [unhex_bytes sall].
  change (is_hex c) with (bool_decide (is_Some (from_hex c))).
  change (is_hex d) with (bool_decide (is_Some (from_hex d))).
  destruct (from_hex c) as [hi|] eqn:Ec; [|done].
  destruct (from_hex d) as [lo|] eqn:Ed; [|done].
  destruct (from_hex_spec _ _ Ec) as [Hc Hhi], (from_hex_spec _ _ Ed) as [Hd Hlo].
  destruct (digits_byte hi lo Hhi Hlo) as (b & -> & Eh & El).
  destruct (unhex_bytes s) as [bs|].
  - destruct IH as (Hs & Hh & Hl). cbn [hex_bytes map_chars]. rewrite Eh, El, Hc, Hd, Hh.
    split_and!; [by rewrite Hs|done|simpl; lia].
  - by rewrite IH.
Qed.

Lemma of_bytes_wf bs : length bs = 64%nat -> wf (of_bytes bs).
Proof.
  intros Hl. assert (Hc : forall off n, (off + n <= 64)%nat ->
    0 <= le_combine (field bs off n) < 2 ^ (8 * Z.of_nat n)).
  { intros off n Hn. pose proof (le_combine_bound (field bs off n)) as Hb.
    rewrite field_length in Hb by lia. exact Hb. }
  split; simpl; first [by apply (Hc _ 4%nat); lia|by apply (Hc _ 2%nat); lia
    |by apply (Hc _ 8%nat); lia|apply field_length; lia].
Qed.

(** ** Theorems *)

(** A queue-pair record survives the hexadecimal exchange. *)
Theorem qp_info_roundtrip q : wf q -> decode_qp_info (encode_qp_info q) = Some q.
Proof.
  intros Hq. unfold decode_qp_info, encode_qp_info.
  rewrite hex_bytes_length, bytes_of_length by done. simpl negb. cbn match.
  rewrite unhex_hex. simpl. by rewrite of_bytes_of.
Qed.

(** The decoder accepts exactly the strings of 128 hexadecimal digits, and
    what it accepts it understands: the record it returns is well-formed and
    encodes back to the same digits in lower case. *)
Theorem decode_qp_info_exact s :
  match decode_qp_info s with
  | Some q => String.length s = 128%nat /\ sall is_hex s = true /\ wf q
              /\ encode_qp_info q = map_chars lower_hex s
  | None => String.length s <> 128%nat \/ sall is_hex s = false
  end.
Proof.
  unfold decode_qp_info, sizeof_QpInfo. destruct (Nat.eqb_spec (String.length s) (64 * 2)) as [Hl|]; [|by left].
  simpl negb. cbn match. pose proof (unhex_spec s) as Hs. rewrite Hl in Hs. specialize (Hs eq_refl).
  destruct (unhex_bytes s) as [bs|]; [|by right]. destruct Hs as (Hx & Hh & Hb). simpl.
  assert (Hbs : length bs = 64%nat) by lia.
  split_and!; [done|done|by apply of_bytes_wf|]. unfold encode_qp_info. by rewrite bytes_of_of.
Qed.

Definition sample : QpInfo :=
  mkQp 4660 7 0 (replicate 16 x2a) 3735928559 0 (2 ^ 63 + 1) 5 (replicate 20 x00).

Lemma qp_info_roundtrip_witness : decode_qp_info (encode_qp_info sample) = Some sample.
Proof. apply (qp_info_roundtrip sample). split; vm_compute; intuition congruence. Defined.

End QpInfo.

Module RdmaConn.
Import QpInfo.

(** Handles are numbers; a null pointer is [None]. *)
Record Verbs := mkVerbs { ctx : option Z; pd : option Z; cq : option Z }.

Definition new_verbs : Verbs := mkVerbs None None None.

(** The first device whose name matches. *)
Fixpoint pick (device_name : string) (devs : list string) : option string :=
  match devs with
  | [] => None
  | d :: devs =>
      if String.eqb device_name "auto" || String.eqb device_name d then Some d
      else pick device_name devs
  end.

(** [Verbs::open]; [devs] is what [ibv_get_device_list] returns, the other
    arguments are the results of the three constructors. *)
Definition verbs_open (v : Verbs) (device_name : string) (devs : option (list string))
    (open_r pd_r cq_r : option Z) : bool * Verbs :=
  match ctx v with
  | Some _ => (true, v)
  | None =>
      match devs with
      | None | Some [] => (false, v)
      | Some l =>
          match pick device_name l with
          | None => (false, v)
          | Some _ =>
              match open_r with
              | None => (false, mkVerbs None (pd v) (cq v))
              | Some c =>
                  match pd_r with
                  | None => (false, mkVerbs (Some c) None (cq v))
                  | Some p => (bool_decide (is_Some cq_r), mkVerbs (Some c) (Some p) cq_r)
                  end
              end
          end
      end
  end.

Definition is_open (v : Verbs) : bool := bool_decide (is_Some (ctx v)).

(** A queue pair and the two registered buffers of a connection. *)
Record Conn := mkRConn {
  qp : option Z;          (* qp_num of the queue pair *)
  recv_mr : option Z;     (* rkey of the receive buffer *)
  send_mr : option Z;
  recv_buf : Z;           (* address of the receive buffer *)
  peer_eof : bool }.

Inductive modify :=
  | ToInit (port : Z)
  | ToRTR (path_mtu dest_qp_num dlid : Z) (dgid : list byte) (sgid_index : Z)
  | ToRTS (timeout retry_cnt rnr_retry : Z).

(** The state of a queue pair, as [ibv_modify_qp] documents it: a transition is
    allowed only from the state before it. *)
Inductive qp_state := RESET | INIT | RTR (dest_qp_num : Z) | RTS (dest_qp_num : Z).

Definition transition (s : qp_state) (m : modify) : option qp_state :=
  match s, m with
  | RESET, ToInit _ => Some INIT
  | INIT, ToRTR _ dest _ _ _ => Some (RTR dest)
  | RTR dest, ToRTS _ _ _ => Some (RTS dest)
  | _, _ => None
  end.

Section conn.
(** [ibv_modify_qp] on this connection's queue pair: whether it succeeds, and
    the state after it. *)
Variable modify_qp : qp_state -> modify -> bool * qp_state.

Definition init (v : Verbs) (c : Conn) (buf : Z) (recv_r send_r qp_r : option Z) (s : qp_state)
    : bool * Conn * qp_state :=
  if negb (is_open v) then (false, c, s)
  else
    let c := mkRConn (qp c) recv_r send_r buf (peer_eof c) in
    match recv_r, send_r with
    | Some _, Some _ =>
        let c := mkRConn qp_r recv_r send_r buf (peer_eof c) in
        match qp_r with
        | None => (false, c, s)
        | Some _ => let '(ok, s) := modify_qp s (ToInit 1) in (ok, c, s)
        end
    | _, _ => (false, c, s)
    end.

Definition IBV_MTU_4096 : Z := 5.

Definition local_info (c : Conn) : QpInfo :=
  mkQp (default 0 (qp c)) 0 0 (replicate 16 x00) (default 0 (recv_mr c)) 0 (recv_buf c)
    IBV_MTU_4096 (replicate 20 x00).

Definition connect (c : Conn) (peer : QpInfo) (s : qp_state) : bool * qp_state :=
  match qp c with
  | None => (false, s)
  | Some _ =>
      let '(ok, s) := modify_qp s (ToRTR (mtu peer) (qp_num peer) (lid peer) (gid peer) 3) in
      if negb ok then (false, s) else modify_qp s (ToRTS 14 7 7)
  end.
End conn.

(** The data path of [conn.cpp]: stubs that move no byte. *)
Definition send_some (c : Conn) (len : Z) : Z := 0.
Definition recv_some (c : Conn) (len : Z) : Z := 0.
Definition peer_closed (c : Conn) : bool := peer_eof c.
Definition mark_closed (c : Conn) : Conn := mkRConn (qp c) (recv_mr c) (send_mr c) (recv_buf c) true.
Definition conn_is_open (c : Conn) : bool := bool_decide (is_Some (qp c)).

(** A modify that fails leaves the queue pair alone, one that succeeds is a
    transition. *)
Definition modify_ok (modify_qp : qp_state -> modify -> bool * qp_state) : Prop :=
  forall s m, match modify_qp s m with
              | (true, s') => transition s m = Some s'
              | (false, s') => s' = s
              end.

(** The record a connection sends in hexadecimal form is decoded by its
    peer, and the peer's [connect] with it makes the peer's queue pair ready to
    send to the sender's queue pair when it succeeds; when it fails the queue
    pair is not ready to send. *)
Theorem rdma_exchange modify_qp v a b buf_a buf_b ra sa qa rb sb qb s_a s_b a' b' :
  modify_ok modify_qp ->
  is_uint 32 qb -> is_uint 32 (default 0 rb) -> is_uint 64 buf_b ->
  init modify_qp v a buf_a ra sa (Some qa) RESET = (true, a', s_a) ->
  init modify_qp v b buf_b rb sb (Some qb) RESET = (true, b', s_b) ->
  exists peer, decode_qp_info (encode_qp_info (local_info b')) = Some peer
  /\ match connect modify_qp a' peer s_a with
     | (true, s) => s = RTS qb
     | (false, s) => forall d, s <> RTS d
     end.
Proof.
  intros Hmod Hqb Hrb Hbuf Ha Hb.
  assert (Hwf : wf (local_info b') /\ qp_num (local_info b') = qb).
  { unfold init in Hb. destruct (is_open v), rb as [rb|], sb; try done. simpl in Hb.
    destruct (modify_qp RESET (ToInit 1)). simplify_eq. split; [|done]. by split. }
  destruct Hwf as [Hwf Hnum]. exists (local_info b'). split.
  { unfold decode_qp_info, encode_qp_info.
    rewrite hex_bytes_length, bytes_of_length by done. simpl negb. cbn match.
    rewrite unhex_hex. simpl. by rewrite of_bytes_of by done. }
  unfold init in Ha. destruct (is_open v), ra, sa; try done. simpl in Ha.
  pose proof (Hmod RESET (ToInit 1)) as H1. destruct (modify_qp RESET (ToInit 1)) as [ok1 s1].
  simplify_eq/=. unfold connect; simpl.
  pose proof (Hmod INIT (ToRTR (mtu (local_info b')) (qp_num (local_info b')) (lid (local_info b'))
    (gid (local_info b')) 3)) as H2.
  simpl in H2. destruct (modify_qp INIT _) as [[] s2]; simpl; [|by subst].
  simplify_eq. pose proof (Hmod (RTR (qp_num (local_info b'))) (ToRTS 14 7 7)) as H3. simpl in H3.
  destruct (modify_qp (RTR _) _) as [[] s3]; simplify_eq; done.
Qed.

(** The driver that refuses nothing legal. *)
Definition plain_modify (s : qp_state) (m : modify) : bool * qp_state :=
  match transition s m with Some s' => (true, s') | None => (false, s) end.

Lemma rdma_exchange_witness :
  let v := mkVerbs (Some 1) (Some 2) (Some 3) in
  let fresh := mkRConn None None None 0 false in
  exists peer,
    decode_qp_info (encode_qp_info (local_info (mkRConn (Some 11) (Some 30) (Some 31) 8192 false))) = Some peer
    /\ match connect plain_modify (mkRConn (Some 10) (Some 20) (Some 21) 4096 false) peer INIT with
       | (true, s) => s = RTS 11
       | (false, s) => forall d, s <> RTS d
       end.
Proof.
  intros v fresh.
  apply (rdma_exchange plain_modify v fresh fresh 4096 8192 (Some 20) (Some 21) 10 (Some 30) (Some 31)
    11 INIT INIT (mkRConn (Some 10) (Some 20) (Some 21) 4096 false)
    (mkRConn (Some 11) (Some 30) (Some 31) 8192 false));
    try (vm_compute; intuition congruence).
  intros s m. unfold plain_modify. by destruct (transition s m) eqn:E.
Defined.

(** [Verbs::open] that failed to allocate a protection domain reports success
    when it is called again: the domain is still missing. *)
Theorem verbs_reopen_without_pd name d c p q :
  let v := (verbs_open new_verbs "auto" (Some [d]) (Some c) None q).2 in
  (verbs_open new_verbs "auto" (Some [d]) (Some c) None q).1 = false
  /\ (verbs_open v name (Some [d]) (Some c) p q).1 = true
  /\ pd (verbs_open v name (Some [d]) (Some c) p q).2 = None.
Proof. done. Qed.

End RdmaConn.
