(* ===== verification/Config.v ===== *)
(** * The configuration loader

    [include/socksdirect/config.hpp].  The environment is a function from
    names to values, a file is its contents ([None] when it cannot be opened).
    The ordered map of the loader is a finite map on the joined name
    [section.key]; the order only matters where it is listed, which is the
    order of [map_to_list] here.  Warnings go to standard error and are not
    modelled. *)

From Stdlib Require Import ZArith Lia Ascii.
From stdpp Require Import strings gmap numbers base list.
From S2P Require Import Prelude Text.

Module Config.
Import Text.

Definition kDefaultPath : string := "/etc/socksdirect/socksdirect.conf".

(** ** Text helpers *)

(** The characters of [" \t\r\n"]. *)
Definition blank (c : ascii) : bool :=
  (c =? " ")%char || (c =? "009")%char || (c =? "013")%char || (c =? "010")%char.

Fixpoint lstrip (s : string) : string :=
  match s with
  | "" => ""
  | String c s' => if blank c then lstrip s' else s
  end.

Fixpoint rstrip (s : string) : string :=
  match s with
  | "" => ""
  | String c s =>
      match rstrip s with
      | "" => if blank c then "" else String c ""
      | r => String c r
      end
  end.

Definition strip (s : string) : string := rstrip (lstrip s).

Definition upper (s : string) : string := map_chars toupper s.
Definition lower (s : string) : string := map_chars tolower s.

(** [s.back()]; the callers know [s] is not empty. *)
Fixpoint last_char (c : ascii) (s : string) : ascii :=
  match s with "" => c | String d s => last_char d s end.

(** [s] without its last character. *)
Fixpoint drop_last (s : string) : string :=
  match s with
  | "" | String _ "" => ""
  | String c s => String c (drop_last s)
  end.

(** The text before and after the first [=]. *)
Fixpoint split_eq (s : string) : option (string * string) :=
  match s with
  | "" => None
  | String c s =>
      if (c =? "=")%char then Some ("", s)
      else match split_eq s with
           | Some (k, v) => Some (String c k, v)
           | None => None
           end
  end.

(** The lines [std::getline] delivers; [cur] is the line being read. *)
Fixpoint getlines_from (cur : string) (s : string) : list string :=
  match s with
  | "" => if String.eqb cur "" then [] else [cur]
  | String c s => if (c =? "010")%char then cur :: getlines_from "" s
                  else getlines_from (cur +:+ String c "") s
  end.
Definition getlines (s : string) : list string := getlines_from "" s.

(** ** Loading *)

Definition values := gmap string string.

(** One turn of the reading loop: the section and the values so far. *)
Definition load_line (st : string * values) (line : string) : string * values :=
  let '(section, vs) := st in
  match strip line with
  | "" => st
  | String c s' as s =>
      if (c =? "#")%char || (c =? ";")%char then st
      else if (c =? "[")%char && (last_char c s' =? "]")%char then
        (strip (drop_last s'), vs)
      else
        match split_eq s with
        | None => st
        | Some (k, v) => (section, <[section +:+ "." +:+ strip k := strip v]> vs)
        end
  end.

Definition load (file : option string) : values :=
  match file with
  | None => ∅
  | Some text => (foldl load_line ("", ∅) (getlines text)).2
  end.

Definition load_default (getenv : string -> option string) (open : string -> option string)
    : values :=
  match getenv "SOCKSDIRECT_CONFIG" with
  | Some (String c s) => load (open (String c s))
  | _ => load (open kDefaultPath)
  end.

(** ** Lookup *)

Definition env_char (c : ascii) : ascii :=
  if (c =? "-")%char || (c =? ".")%char then "_"%char else c.

Definition env_var_name (section key : string) : string :=
  map_chars env_char ("SOCKSDIRECT_" +:+ upper section +:+ "_" +:+ upper key).

Definition env_lookup (getenv : string -> option string) (section key : string) : option string :=
  getenv (env_var_name section key).

Definition get_string (getenv : string -> option string) (vs : values)
    (section key fallback : string) : string :=
  match env_lookup getenv section key with
  | Some v => v
  | None => default fallback (vs !! (section +:+ "." +:+ key))
  end.

Definition get_int (getenv : string -> option string) (vs : values)
    (section key : string) (fallback : Z) : Z :=
  match get_string getenv vs section key "" with
  | "" => fallback
  | s => default fallback (stoi s)
  end.

Definition get_bool (getenv : string -> option string) (vs : values)
    (section key : string) (fallback : bool) : bool :=
  let s := lower (get_string getenv vs section key "") in
  if String.eqb s "" then fallback
  else if String.eqb s "1" || String.eqb s "true" || String.eqb s "yes" || String.eqb s "on" then true
  else if String.eqb s "0" || String.eqb s "false" || String.eqb s "no" || String.eqb s "off" then false
  else fallback.

(** [require]: the first missing key, the one the exception names. *)
Fixpoint require (getenv : string -> option string) (vs : values)
    (keys : list (string * string)) : option (string * string) :=
  match keys with
  | [] => None
  | (section, key) :: keys =>
      match env_lookup getenv section key, vs !! (section +:+ "." +:+ key) with
      | None, None => Some (section, key)
      | _, _ => require getenv vs keys
      end
  end.

(** ** Reference reading of a file *)

Definition not_nl (c : ascii) : bool := negb (c =? "010")%char.
Definition pad (s : string) : bool := sall blank s && sall not_nl s.

(** No blank at either end. *)
Definition clean (s : string) : bool := String.eqb (strip s) s.

(** The kinds of line, each with its free choices of blanks. *)
Inductive item :=
  | Blank (l : string)
  | Comment (l : string) (mark : ascii) (text : string)
  | Section (l m1 name m2 r : string)
  | Setting (l key m1 m2 value r : string)
  | Malformed (l text r : string).

Definition print_item (i : item) : string :=
  match i with
  | Blank l => l
  | Comment l mark text => l +:+ String mark text
  | Section l m1 name m2 r => l +:+ "[" +:+ m1 +:+ name +:+ m2 +:+ "]" +:+ r
  | Setting l key m1 m2 value r => l +:+ key +:+ m1 +:+ "=" +:+ m2 +:+ value +:+ r
  | Malformed l text r => l +:+ text +:+ r
  end.

Definition print (items : list item) : string :=
  foldr (fun i s => print_item i +:+ String "010" s) "" items.

(** The first character is none of those that start a comment or a section. *)
Definition plain_start (s : string) : bool :=
  match s with
  | "" => false
  | String c _ => negb ((c =? "#")%char || (c =? ";")%char || (c =? "[")%char)
  end.

Definition item_ok (i : item) : bool :=
  match i with
  | Blank l => pad l
  | Comment l mark text =>
      pad l && ((mark =? "#")%char || (mark =? ";")%char) && sall not_nl text
  | Section l m1 name m2 r =>
      pad l && pad m1 && clean name && sall not_nl name && pad m2 && pad r
  | Setting l key m1 m2 value r =>
      pad l && plain_start key && clean key && sall (fun c => negb (c =? "=")%char) key
      && sall not_nl key && pad m1 && pad m2 && clean value && sall not_nl value && pad r
  | Malformed l text r =>
      pad l && plain_start text && clean text && sall (fun c => negb (c =? "=")%char) text
      && sall not_nl text && pad r
  end.

(** What the items mean: a section holds until the next one, a later setting
    overrides an earlier one, everything else means nothing. *)
Definition item_meaning (st : string * values) (i : item) : string * values :=
  match i with
  | Section _ _ name _ _ => (name, st.2)
  | Setting _ key _ _ value _ => (st.1, <[st.1 +:+ "." +:+ key := value]> st.2)
  | _ => st
  end.
Definition meaning (items : list item) : values := (foldl item_meaning ("", ∅) items).2.

(** ** Lemmas on blanks *)

Lemma lstrip_pad a b : sall blank a = true -> lstrip (a +:+ b) = lstrip b.
Proof.
  induction a as [|c a IH]; [done|]. rewrite sapp_cons. simpl.
  intros [-> Ha]%andb_true_iff. by apply IH.
Qed.

Lemma rstrip_app a b :
  rstrip (a +:+ b) = match rstrip b with "" => rstrip a | r => a +:+ r end.
Proof.
  induction a as [|c a IH]; [rewrite sapp_nil_l; by destruct (rstrip b)|]. rewrite sapp_cons. simpl. rewrite IH.
  destruct (rstrip b) as [|d r]; [done|]. by destruct a.
Qed.

Lemma rstrip_pad s : sall blank s = true -> rstrip s = "".
Proof.
  induction s as [|c s IH]; [done|]. simpl. intros [Hc Hs]%andb_true_iff. by rewrite IH, Hc.
Qed.

Lemma rstrip_idem s : rstrip (rstrip s) = rstrip s.
Proof.
  induction s as [|c s IH]; [done|]. simpl. destruct (rstrip s) as [|d r].
  - destruct (blank c) eqn:E; simpl; [done|]. by rewrite E.
  - cbn [rstrip] in IH |- *. by rewrite IH.
Qed.

Lemma lstrip_idem s : lstrip (lstrip s) = lstrip s.
Proof. induction s as [|c s IH]; [done|]. simpl. destruct (blank c) eqn:E; [done|]. simpl. by rewrite E. Qed.

(** The two ends do not interfere. *)
Lemma lstrip_rstrip s : lstrip (rstrip s) = rstrip (lstrip s).
Proof.
  induction s as [|c s IH]; [done|]. simpl. destruct (blank c) eqn:E.
  - destruct (rstrip s) as [|d r]; [done|]. simpl. by rewrite E.
  - simpl. destruct (rstrip s) as [|d r]; simpl; by rewrite ?E.
Qed.

Lemma clean_spec s : clean s = true -> lstrip s = s /\ rstrip s = s.
Proof.
  intros H%String.eqb_eq. unfold strip in H.
  assert (Hr : rstrip s = s) by (rewrite <- H at 2; rewrite <- (rstrip_idem (lstrip s)), H; done).
  split; [|done]. rewrite <- Hr at 1. by rewrite lstrip_rstrip.
Qed.

Lemma strip_pads a s b :
  sall blank a = true -> clean s = true -> sall blank b = true -> strip (a +:+ s +:+ b) = s.
Proof.
  intros Ha [Hl Hr]%clean_spec Hb. unfold strip. rewrite lstrip_pad by done.
  rewrite <- lstrip_rstrip, rstrip_app, (rstrip_pad b) by done. by rewrite Hr.
Qed.

Lemma strip_rstrip s : strip (rstrip s) = strip s.
Proof. unfold strip. by rewrite lstrip_rstrip, rstrip_idem. Qed.

Lemma pad_spec s : pad s = true -> sall blank s = true /\ sall not_nl s = true.
Proof. unfold pad. by intros [? ?]%andb_true_iff. Qed.

Lemma last_char_app c s d : last_char c (s +:+ String d "") = d.
Proof. revert c. induction s as [|e s IH]; intros c; [done|]. rewrite sapp_cons. simpl. apply IH. Qed.

Lemma drop_last_app s d : drop_last (s +:+ String d "") = s.
Proof.
  induction s as [|e s IH]; [done|]. rewrite sapp_cons. cbn [drop_last]. rewrite IH. by destruct s.
Qed.

Lemma split_eq_app k v :
  sall (fun c => negb (c =? "=")%char) k = true ->
  split_eq (k +:+ "=" +:+ v) = Some (k, v).
Proof.
  induction k as [|c k IH]; [done|]. rewrite sapp_cons. simpl.
  intros [->%negb_true_iff Hk]%andb_true_iff. by rewrite IH.
Qed.

Lemma split_eq_none s :
  sall (fun c => negb (c =? "=")%char) s = true -> split_eq s = None.
Proof.
  induction s as [|c s IH]; [done|]. simpl. intros [->%negb_true_iff Hs]%andb_true_iff. by rewrite IH.
Qed.

Lemma blank_not_eq s : sall blank s = true -> sall (fun c => negb (c =? "=")%char) s = true.
Proof.
  induction s as [|c s IH]; [done|]. simpl. intros [Hc Hs]%andb_true_iff. rewrite IH by done.
  rewrite andb_true_r. by destruct (Ascii.eqb_spec c "="); [subst|].
Qed.

Lemma getlines_line cur l s :
  sall not_nl l = true ->
  getlines_from cur (l +:+ String "010" s) = (cur +:+ l) :: getlines_from "" s.
Proof.
  revert cur. induction l as [|c l IH]; intros cur; [by rewrite sapp_nil_r|].
  rewrite sapp_cons. simpl. unfold not_nl at 1. intros [->%negb_true_iff Hl]%andb_true_iff.
  rewrite IH by done. by rewrite sapp_assoc.
Qed.

Lemma rstrip_head c s : blank c = false -> exists r, rstrip (String c s) = String c r.
Proof. intros Hc. simpl. rewrite Hc. destruct (rstrip s); by eexists. Qed.

Lemma plain_start_spec c s :
  plain_start (String c s) = true ->
  (c =? "#")%char || (c =? ";")%char = false /\ (c =? "[")%char = false.
Proof. simpl. rewrite negb_true_iff, !orb_false_iff. tauto. Qed.

Ltac split_conj := repeat match goal with
  | H : _ && _ = true |- _ => apply andb_true_iff in H as [? ?]
  end.
Ltac split_ok := split_conj; repeat match goal with
  | H : pad _ = true |- _ => apply pad_spec in H as [? ?]
  end.

(** *** One line *)

Lemma load_comment st l mark text :
  pad l = true -> (mark =? "#")%char || (mark =? ";")%char = true ->
  load_line st (l +:+ String mark text) = st.
Proof.
  intros [Hl _]%pad_spec Hm. destruct st as [sec vs]. unfold load_line, strip. rewrite lstrip_pad by done.
  assert (Hb : blank mark = false).
  { by apply orb_true_iff in Hm as [->%Ascii.eqb_eq | ->%Ascii.eqb_eq]. }
  simpl lstrip. rewrite Hb. destruct (rstrip_head mark text Hb) as [r ->]. by rewrite Hm.
Qed.

Lemma load_section st l m1 name m2 r :
  pad l = true -> pad m1 = true -> clean name = true -> pad m2 = true -> pad r = true ->
  load_line st (l +:+ "[" +:+ m1 +:+ name +:+ m2 +:+ "]" +:+ r) = (name, st.2).
Proof.
  intros [Hl _]%pad_spec [Hm1 _]%pad_spec Hn [Hm2 _]%pad_spec [Hr _]%pad_spec.
  destruct st as [sec vs]. unfold load_line.
  assert (Hs : strip (l +:+ "[" +:+ m1 +:+ name +:+ m2 +:+ "]" +:+ r)
               = String "[" (m1 +:+ name +:+ m2 +:+ "]")).
  { replace (l +:+ "[" +:+ m1 +:+ name +:+ m2 +:+ "]" +:+ r)
      with (l +:+ (String "[" (m1 +:+ name +:+ m2 +:+ "]")) +:+ r)
      by (autorewrite with sd; done).
    apply strip_pads; [done| |done]. unfold clean, strip. apply String.eqb_eq.
    change (lstrip (String "[" (m1 +:+ name +:+ m2 +:+ "]")))
      with ("[" +:+ m1 +:+ name +:+ m2 +:+ "]").
    replace ("[" +:+ m1 +:+ name +:+ m2 +:+ "]") with (("[" +:+ m1 +:+ name +:+ m2) +:+ "]")
      by (autorewrite with sd; done).
    rewrite rstrip_app. simpl rstrip. autorewrite with sd. done. }
  rewrite Hs. replace (m1 +:+ name +:+ m2 +:+ "]") with ((m1 +:+ name +:+ m2) +:+ "]")
    by (autorewrite with sd; done).
  rewrite last_char_app, drop_last_app. simpl. by rewrite strip_pads.
Qed.

Lemma load_setting st l key m1 m2 value r :
  pad l = true -> plain_start key = true -> clean key = true ->
  sall (fun c => negb (c =? "=")%char) key = true ->
  pad m1 = true -> pad m2 = true -> clean value = true -> pad r = true ->
  load_line st (l +:+ key +:+ m1 +:+ "=" +:+ m2 +:+ value +:+ r)
  = (st.1, <[st.1 +:+ "." +:+ key := value]> st.2).
Proof.
  intros [Hl _]%pad_spec Hp Hk Hne [Hm1 _]%pad_spec [Hm2 _]%pad_spec Hv [Hr _]%pad_spec.
  destruct st as [sec vs]. unfold load_line.
  destruct (clean_spec _ Hk) as [Hkl Hkr].
  assert (Hs : strip (l +:+ key +:+ m1 +:+ "=" +:+ m2 +:+ value +:+ r)
               = (key +:+ m1) +:+ "=" +:+ rstrip (m2 +:+ value +:+ r)).
  { unfold strip. rewrite lstrip_pad by done.
    replace (key +:+ m1 +:+ "=" +:+ m2 +:+ value +:+ r)
      with ((key +:+ m1 +:+ "=") +:+ m2 +:+ value +:+ r) by (autorewrite with sd; done).
    rewrite <- lstrip_rstrip, rstrip_app.
    assert (Hle : forall t, lstrip (key +:+ t) = key +:+ t).
    { intros t. destruct key as [|c k]; [done|]. rewrite sapp_cons. simpl in Hkl |- *.
      destruct (blank c) eqn:Eb; [|done]. exfalso. destruct (plain_start_spec _ _ Hp) as [_ _].
      apply (f_equal String.length) in Hkl. clear -Hkl.
      assert (Hlen : forall s, (String.length (lstrip s) <= String.length s)%nat)
        by (induction s as [|d s IH]; simpl; [lia|]; destruct (blank d); simpl; lia).
      specialize (Hlen k). simpl in Hkl. lia. }
    destruct (rstrip (m2 +:+ value +:+ r)) as [|d t].
    - assert (rstrip (key +:+ m1 +:+ "=") = key +:+ m1 +:+ "=") as ->
        by (rewrite <- !sapp_assoc, rstrip_app; done).
      rewrite Hle. autorewrite with sd. done.
    - rewrite !sapp_assoc, Hle. done. }
  rewrite Hs. destruct key as [|c k]; [done|]. destruct (plain_start_spec _ _ Hp) as [H1 H2].
  rewrite (sapp_cons c k m1), (sapp_cons c (k +:+ m1)), H1, H2. simpl andb. cbn match.
  change (String c ((k +:+ m1) +:+ "=" +:+ rstrip (m2 +:+ value +:+ r)))
    with ((String c k +:+ m1) +:+ "=" +:+ rstrip (m2 +:+ value +:+ r)).
  rewrite split_eq_app by (rewrite sall_app, Hne; by apply blank_not_eq).
  rewrite strip_rstrip, (strip_pads m2 value r) by done.
  rewrite <- (sapp_nil_l (String c k +:+ m1)), (strip_pads "" (String c k) m1) by done. done.
Qed.

Lemma load_malformed st l text r :
  pad l = true -> plain_start text = true -> clean text = true ->
  sall (fun c => negb (c =? "=")%char) text = true -> pad r = true ->
  load_line st (l +:+ text +:+ r) = st.
Proof.
  intros [Hl _]%pad_spec Hp Hc Hne [Hr _]%pad_spec. destruct st as [sec vs]. unfold load_line.
  rewrite strip_pads by done. destruct text as [|c t]; [done|].
  destruct (plain_start_spec _ _ Hp) as [-> ->]. simpl andb. cbn match. by rewrite split_eq_none.
Qed.

Lemma load_item st i : item_ok i = true -> load_line st (print_item i) = item_meaning st i.
Proof.
  destruct i as [l|l mark text|l m1 name m2 r|l key m1 m2 value r|l text r]; simpl; intros Hok.
  - apply pad_spec in Hok as [Hl _]. destruct st as [sec vs]. unfold load_line, strip.
    rewrite <- (sapp_nil_r l), lstrip_pad by done. done.
  - split_conj. by apply load_comment.
  - split_conj. by apply load_section.
  - split_conj. by apply load_setting.
  - split_conj. by apply load_malformed.
Qed.

Lemma print_item_no_nl i : item_ok i = true -> sall not_nl (print_item i) = true.
Proof.
  destruct i as [l|l mark text|l m1 name m2 r|l key m1 m2 value r|l text r]; simpl; intros Hok; split_ok;
    rewrite ?sall_app; simpl; repeat (apply andb_true_iff; split); try done.
  by destruct (Ascii.eqb_spec mark "#") as [->|]; [|destruct (Ascii.eqb_spec mark ";") as [->|]].
Qed.

Lemma load_items st items :
  forallb item_ok items = true ->
  foldl load_line st (getlines (print items)) = foldl item_meaning st items.
Proof.
  revert st. induction items as [|i items IH]; intros st; [done|]. simpl.
  intros [Hi Hok]%andb_true_iff. unfold getlines.
  rewrite getlines_line by (by apply print_item_no_nl). rewrite sapp_nil_l. simpl.
  rewrite load_item by done. by apply IH.
Qed.

(** ** Theorems *)

(** The loader reads every file of blank lines, comments, section headers,
    settings and lines without an equals sign, with any blanks around the
    parts, as the settings mean: each belongs to the last section header, a
    later one overrides an earlier one, and the rest is ignored. *)
Theorem load_print items :
  forallb item_ok items = true -> load (Some (print items)) = meaning items.
Proof. intros Hok. unfold load, meaning. by rewrite load_items. Qed.

Definition sample_items : list item :=
  [Comment "" "#" " monitor settings"; Section " " " " "monitor" "" "";
   Setting "" "log_level" " " " " "debug" "  "; Malformed "" "what is this" "";
   Blank " "; Setting "" "log_level" "" "" "warn" ""].

Lemma load_print_witness : load (Some (print sample_items)) = {["monitor.log_level" := "warn"]}.
Proof. apply (load_print sample_items). reflexivity. Defined.

(** The lookup order of an integer setting: an environment variable wins
    over the file and the file over the fallback, the printed form of every
    [int] is read back exactly, and whatever the text is, the result is the
    fallback or fits an [int]. *)
Theorem get_int_exact getenv vs section key fallback :
  let n := get_int getenv vs section key fallback in
  (n = fallback \/ - 2 ^ 31 <= n < 2 ^ 31)
  /\ (forall k, - 2 ^ 31 <= k < 2 ^ 31 -> env_lookup getenv section key = Some (dec_d k) -> n = k)
  /\ (forall k, - 2 ^ 31 <= k < 2 ^ 31 -> env_lookup getenv section key = None ->
        vs !! (section +:+ "." +:+ key) = Some (dec_d k) -> n = k)
  /\ (env_lookup getenv section key = None -> vs !! (section +:+ "." +:+ key) = None -> n = fallback).
Proof.
  assert (Hdec : forall k, - 2 ^ 31 <= k < 2 ^ 31 ->
    match dec_d k with "" => fallback | s => default fallback (stoi s) end = k).
  { intros k Hk. pose proof (stoi_dec k Hk) as Hs. destruct (dec_d k); [done|]. by rewrite Hs. }
  unfold get_int, get_string. split_and!.
  - destruct (match env_lookup _ _ _ with Some v => v | None => _ end) as [|c s]; [by left|].
    destruct (stoi (String c s)) as [z|] eqn:E; [right|by left]. simpl. unfold stoi in E.
    destruct (scan_int _) as [[[neg v] rest]|]; [|done].
    destruct (_ && _) eqn:Eb; [|done]. simplify_eq. sd_bool. lia.
  - intros k Hk ->. by apply Hdec.
  - intros k Hk -> ->. by apply Hdec.
  - by intros -> ->.
Qed.

End Config.
