(* ===== verification/Log.v ===== *)
(** * The logger

    [include/socksdirect/log.hpp]: levels, the choice of a sink and the text of
    a line.  A [FILE*] is [Stderr] or a numbered handle; the model records the
    handles the logger has closed.  What [fopen], the clock and the process
    identifiers give is an argument. *)

From Stdlib Require Import ZArith Lia Ascii.
From stdpp Require Import strings numbers base list.
From S2P Require Import Prelude Text.

Module Log.
Import Text.

Inductive LogLevel := kLogTrace | kLogDebug | kLogInfo | kLogWarn | kLogError | kLogOff.

Definition level_int (l : LogLevel) : Z :=
  match l with
  | kLogTrace => 0 | kLogDebug => 1 | kLogInfo => 2 | kLogWarn => 3 | kLogError => 4 | kLogOff => 5
  end.

Definition level_name (l : LogLevel) : string :=
  match l with
  | kLogTrace => "trace" | kLogDebug => "debug" | kLogInfo => "info"
  | kLogWarn => "warn" | kLogError => "error" | kLogOff => "off"
  end.

(** [strcasecmp(a, b) == 0]. *)
Definition same_nocase (a b : string) : bool :=
  String.eqb (map_chars tolower a) (map_chars tolower b).

(** [parse_level]; [None] is the null pointer, and [s[0]] of the empty string
    is the terminating zero. *)
Definition parse_level (s : option string) (fallback : LogLevel) : LogLevel :=
  match s with
  | None => fallback
  | Some s =>
      let head := match s with String c _ => tolower c | "" => "000"%char end in
      if same_nocase s "trace" || (head =? "t")%char then kLogTrace
      else if same_nocase s "debug" || (head =? "d")%char then kLogDebug
      else if same_nocase s "info" || (head =? "i")%char then kLogInfo
      else if same_nocase s "warn" || same_nocase s "warning" || (head =? "w")%char then kLogWarn
      else if same_nocase s "error" || (head =? "e")%char then kLogError
      else if same_nocase s "off" || (head =? "o")%char then kLogOff
      else fallback
  end.

Inductive FILE := Stderr | Handle (h : Z).

#[export] Instance FILE_eq_dec : EqDecision FILE.
Proof. solve_decision. Defined.

Record Logger := mkLogger {
  level_ : Z;
  sink_ : option FILE;
  sink_owned_ : bool;
  sink_path_ : string;
  closed : list Z }.       (* handles given to fclose *)

Definition new_logger : Logger := mkLogger 2 None false "" [].

Definition set_level (g : Logger) (l : LogLevel) : Logger :=
  mkLogger (level_int l) (sink_ g) (sink_owned_ g) (sink_path_ g) (closed g).

Definition enabled (g : Logger) (l : LogLevel) : bool := level_ g <=? level_int l.

Definition close_owned_sink_locked (g : Logger) : Logger :=
  let closed' := match sink_ g with
                 | Some (Handle h) => if sink_owned_ g then h :: closed g else closed g
                 | _ => closed g
                 end in
  mkLogger (level_ g) None false (sink_path_ g) closed'.

(** [set_sink_file(path)]; [fopen_r] is the handle [fopen] returns. *)
Definition set_sink_file (g : Logger) (path : string) (fopen_r : option Z) : bool * Logger :=
  let g := close_owned_sink_locked g in
  if String.eqb path "" || String.eqb path "stderr" then
    (true, mkLogger (level_ g) (Some Stderr) (sink_owned_ g) "" (closed g))
  else
    match fopen_r with
    | None => (false, mkLogger (level_ g) (Some Stderr) (sink_owned_ g) "" (closed g))
    | Some h => (true, mkLogger (level_ g) (Some (Handle h)) true path (closed g))
    end.

(** [set_sink_FILE(f)]; [None] is the null pointer. *)
Definition set_sink_FILE (g : Logger) (f : option FILE) : Logger :=
  let g := close_owned_sink_locked g in
  mkLogger (level_ g) (Some (default Stderr f)) false "" (closed g).

Definition configure_from_env (g : Logger) (getenv : string -> option string) (fopen_r : option Z)
    : Logger :=
  let g := set_level g (parse_level (getenv "SOCKSDIRECT_LOG") kLogInfo) in
  match getenv "SOCKSDIRECT_LOG_FILE" with
  | Some (String c s) => (set_sink_file g (String c s) fopen_r).2
  | _ => set_sink_FILE g (Some Stderr)
  end.

(** ** A line *)

Fixpoint str_take (n : nat) (s : string) : string :=
  match n, s with
  | S n, String c s => String c (str_take n s)
  | _, _ => ""
  end.

(** The message in its buffer of 1024 bytes, tagged when it was cut. *)
Definition body (msg : string) : string :=
  if (1024 <=? String.length msg)%nat then str_take 1019 msg +:+ "..." else msg.

Fixpoint zeros (n : nat) : string := match n with O => "" | S n => String "0" (zeros n) end.

(** [%0<w>d] of a number that is not negative. *)
Definition pad_dec (w : nat) (n : Z) : string :=
  let s := dec_u n in zeros (w - String.length s) +:+ s.

(** [%-5s]. *)
Fixpoint pad_right (w : nat) (s : string) : string :=
  match w, s with
  | S w, String c s => String c (pad_right w s)
  | S w, "" => String " " (pad_right w "")
  | O, s => s
  end.

Record tm := mkTm { year : Z; mon : Z; mday : Z; hour : Z; min : Z; sec : Z; nsec : Z }.

Definition timestamp (t : tm) : string :=
  pad_dec 4 (year t) +:+ "-" +:+ pad_dec 2 (mon t) +:+ "-" +:+ pad_dec 2 (mday t) +:+ "T"
  +:+ pad_dec 2 (hour t) +:+ ":" +:+ pad_dec 2 (min t) +:+ ":" +:+ pad_dec 2 (sec t) +:+ "."
  +:+ pad_dec 6 (nsec t / 1000) +:+ "Z".

(** What follows the last [/] of the file name; all of it when there is none. *)
Fixpoint basename_from (best : string) (s : string) : string :=
  match s with
  | "" => best
  | String c s => basename_from (if (c =? "/")%char then s else best) s
  end.
Definition basename (file : string) : string := basename_from file file.

Definition vlog_line (l : LogLevel) (file : string) (line : Z) (msg : string)
    (t : tm) (pid tid : Z) : string :=
  timestamp t +:+ " " +:+ pad_right 5 (level_name l) +:+ " pid=" +:+ dec_d pid +:+ " tid="
  +:+ dec_d tid +:+ " " +:+ basename file +:+ ":" +:+ dec_d line +:+ "  " +:+ body msg
  +:+ String "010" "".

(** [log]: the sink and the line written to it, if any. *)
Definition log (g : Logger) (l : LogLevel) (file : string) (line : Z) (msg : string)
    (t : tm) (pid tid : Z) : option (FILE * string) :=
  if negb (enabled g l) then None
  else Some (default Stderr (sink_ g), vlog_line l file line msg t pid tid).

(** ** Properties *)

(** Every level name is read back as its level, in upper and in lower
    case, whatever the fallback; and a message is emitted at exactly the levels
    from the configured one up, [off] silencing everything but messages of
    level [off]. *)
Theorem level_roundtrip l fallback g m :
  parse_level (Some (level_name l)) fallback = l
  /\ parse_level (Some (map_chars toupper (level_name l))) fallback = l
  /\ (enabled (set_level g l) m = true <-> level_int l <= level_int m).
Proof. split_and!; [by destruct l|by destruct l|]. apply Z.leb_le. Qed.

(** Sequences of sink changes; [opened] are the handles [fopen] returned to the
    logger, newest first. *)
Inductive sink_op := ToPath (path : string) (fopen_r : option Z) | ToFILE (f : option FILE).

Definition sink_step (st : Logger * list Z) (o : sink_op) : Logger * list Z :=
  let '(g, opened) := st in
  match o with
  | ToPath path fopen_r =>
      let '(_, g') := set_sink_file g path fopen_r in
      (g', if String.eqb path "" || String.eqb path "stderr" then opened
           else match fopen_r with Some h => h :: opened | None => opened end)
  | ToFILE f => (set_sink_FILE g f, opened)
  end.

Definition balanced (st : Logger * list Z) : Prop :=
  let '(g, opened) := st in
  if sink_owned_ g
  then exists h, sink_ g = Some (Handle h) /\ opened = h :: closed g
  else opened = closed g.

Lemma sink_step_balanced st o : balanced st -> balanced (sink_step st o).
Proof.
  destruct st as [[lv s ow p cl] opened]; simpl. intros Hb.
  assert (Hc : opened = closed (close_owned_sink_locked (mkLogger lv s ow p cl))).
  { unfold close_owned_sink_locked; simpl. destruct ow; [|by destruct s as [[]|]].
    by destruct Hb as (h & -> & ->). }
  destruct o as [path fr|f]; simpl.
  - unfold set_sink_file. destruct (String.eqb path "" || String.eqb path "stderr"); [done|].
    destruct fr as [h|]; [|done]. simpl. exists h. split; [done|]. by f_equal.
  - done.
Qed.

(** Over any sequence of sink changes, the logger closes every file it has
    opened exactly once, in order, except the one it is writing to, and never
    closes a file it was lent. *)
Theorem sinks_balanced ops :
  let '(g, opened) := foldl sink_step (new_logger, []) ops in
  if sink_owned_ g
  then exists h, sink_ g = Some (Handle h) /\ opened = h :: closed g
  else opened = closed g.
Proof.
  assert (H : forall st, balanced st -> balanced (foldl sink_step st ops)).
  { induction ops as [|o ops IH]; intros st Hst; [done|]. simpl. by apply IH, sink_step_balanced. }
  specialize (H (new_logger, []) eq_refl). by destruct (foldl sink_step (new_logger, []) ops).
Qed.

(** A sink that cannot be opened is not a reason to keep the old one: the
    logger has closed it and writes to standard error. *)
Theorem set_sink_file_failure g path :
  path <> "" -> path <> "stderr" ->
  let '(ok, g') := set_sink_file g path None in
  ok = false /\ sink_ g' = Some Stderr
  /\ (forall h, sink_ g = Some (Handle h) -> sink_owned_ g = true -> closed g' = h :: closed g).
Proof.
  intros Hp Hs. unfold set_sink_file.
  apply String.eqb_neq in Hp as ->. apply String.eqb_neq in Hs as ->. simpl.
  split_and!; [done|done|]. intros h -> ->. done.
Qed.

Lemma str_take_length n s : String.length (str_take n s) = Nat.min n (String.length s).
Proof. revert s. induction n as [|n IH]; intros [|c s]; simpl; [done..|]. by rewrite IH. Qed.

(** The message field never exceeds the buffer, and a message that fits is
    written unchanged. *)
Theorem body_bounded msg :
  (String.length (body msg) <= 1023)%nat /\ ((String.length msg < 1024)%nat -> body msg = msg).
Proof.
  unfold body. destruct (Nat.leb_spec 1024 (String.length msg)) as [H|H]; split; try done; try lia.
  rewrite sapp_length, str_take_length. change (String.length "...") with 3%nat. lia.
Qed.

End Log.
