(* ===== verification/Metrics.v ===== *)
(** * The metrics registry

    [include/socksdirect/metrics.hpp].  A [double] is a [spec_float] with the
    precision and exponent range of binary64 and is added with the
    round-to-nearest addition of the standard library.  Module [Cell]: the
    compare-and-swap loop of counters, gauges and histogram sums, one memory
    access at a time, for any number of threads.  Module [Hist]: histograms.
    Module [Registry]: labels, registration and the Prometheus text; how
    [printf] writes a finite [double] with [%.17g] is an argument. *)

From Stdlib Require Import ZArith Lia Ascii SpecFloat.
From stdpp Require Import strings gmap numbers sorting relations base list.
From S2P Require Import Prelude Text.

Definition double : Type := spec_float.
Definition dzero : double := S754_zero false.
Definition done_ : double := SFdiv 53 1024 (S754_finite false 1 0) (S754_finite false 1 0).

(** [cur + v] in binary64. *)
Definition dadd (a b : double) : double := SFadd 53 1024 a b.
Definition dneg (a : double) : double := SFopp a.
Definition dlt (a b : double) : bool := SFltb a b.
Definition dle (a b : double) : bool := SFleb a b.
Definition is_nan (a : double) : bool := match a with S754_nan => true | _ => false end.

#[export] Instance double_eq_dec : EqDecision double.
Proof. solve_decision. Defined.

Module Cell.

(** [Counter::inc]: negative amounts are refused before the loop. *)
Definition inc (value v : double) : double := if dlt v dzero then value else dadd value v.

(** [Gauge::set], [Gauge::add], [Gauge::dec]. *)
Definition set (value v : double) : double := v.
Definition add (value v : double) : double := dadd value v.
Definition dec (value v : double) : double := add value (dneg v).













(** A counter given a NaN amount is a NaN from then on: the test for negative
    amounts lets it through. *)
Theorem counter_nan_sticks value v :
  inc value S754_nan = S754_nan /\ inc S754_nan v = S754_nan.
Proof. unfold inc, dadd. by destruct value, (dlt v dzero). Qed.

End Cell.

(** ** The order of doubles *)

(** A number other than NaN as a triple compared lexicographically. *)
Definition dkey (a : double) : Z * Z * Z :=
  match a with
  | S754_infinity true => (-2, 0, 0)
  | S754_finite true m e => (-1, - e, - Zpos m)
  | S754_zero _ | S754_nan => (0, 0, 0)
  | S754_finite false m e => (1, e, Zpos m)
  | S754_infinity false => (2, 0, 0)
  end.

Definition key_lt (p q : Z * Z * Z) : Prop :=
  let '(a1, a2, a3) := p in let '(b1, b2, b3) := q in
  a1 < b1 \/ a1 = b1 /\ (a2 < b2 \/ a2 = b2 /\ a3 < b3).

Lemma dcompare_key a b : is_nan a = false -> is_nan b = false ->
  match SFcompare a b with
  | Some Lt => key_lt (dkey a) (dkey b)
  | Some Eq => dkey a = dkey b
  | Some Gt => key_lt (dkey b) (dkey a)
  | None => False
  end.
Proof.
  intros Ha Hb.
  destruct a as [[]|[]| |[] m1 e1], b as [[]|[]| |[] m2 e2]; try done;
    cbn [SFcompare dkey key_lt]; try lia.
  - destruct (Z.compare_spec e1 e2) as [->| |]; [|lia|lia].
    change (Pos.compare_cont Eq m1 m2) with (m1 ?= m2)%positive.
    destruct (Pos.compare_spec m1 m2) as [->| |]; cbn [CompOpp]; [done|lia|lia].
  - destruct (Z.compare_spec e1 e2) as [->| |]; [|lia|lia].
    change (Pos.compare_cont Eq m1 m2) with (m1 ?= m2)%positive.
    destruct (Pos.compare_spec m1 m2) as [->| |]; [done|lia|lia].
Qed.

Lemma key_lt_irrefl p : ~ key_lt p p.
Proof. destruct p as [[a1 a2] a3]. simpl. lia. Qed.

Lemma key_lt_trans p q r : key_lt p q -> key_lt q r -> key_lt p r.
Proof. destruct p as [[? ?] ?], q as [[? ?] ?], r as [[? ?] ?]. simpl. lia. Qed.

Lemma key_lt_total p q : key_lt p q \/ p = q \/ key_lt q p.
Proof.
  destruct p as [[a1 a2] a3], q as [[b1 b2] b3]. simpl.
  destruct (Z.lt_trichotomy a1 b1) as [|[->|]]; [lia| |lia].
  destruct (Z.lt_trichotomy a2 b2) as [|[->|]]; [lia| |lia].
  destruct (Z.lt_trichotomy a3 b3) as [|[->|]]; [lia|auto|lia].
Qed.

Lemma dlt_key a b : is_nan a = false -> is_nan b = false ->
  (dlt a b = true <-> key_lt (dkey a) (dkey b)).
Proof.
  intros Ha Hb. unfold dlt, SFltb. pose proof (dcompare_key a b Ha Hb) as H.
  destruct (SFcompare a b) as [[]|]; [|done| |done]; (split; [done|]).
  - rewrite H. intros []%key_lt_irrefl.
  - intros H'. by destruct (key_lt_irrefl (dkey a)); eapply key_lt_trans.
Qed.

(** [v <= b] is the negation of [b < v] away from NaN. *)
Lemma dle_not_lt a b : is_nan a = false -> is_nan b = false -> dle a b = negb (dlt b a).
Proof.
  intros Ha Hb. pose proof (dlt_key b a Hb Ha) as Hk. unfold dle, SFleb.
  pose proof (dcompare_key a b Ha Hb) as H.
  assert (Hd : dlt b a = true \/ dlt b a = false) by (destruct (dlt b a); auto).
  destruct (SFcompare a b) as [[]|]; [| | |done]; destruct Hd as [Hd|Hd]; rewrite Hd; try done.
  - apply Hk in Hd. rewrite H in Hd. by apply key_lt_irrefl in Hd.
  - apply Hk in Hd. by destruct (key_lt_irrefl (dkey a)); eapply key_lt_trans.
  - exfalso. assert (dlt b a = true) by (by apply Hk). congruence.
Qed.

Module Hist.

(** The constructor's check; [false] is the abort. *)
Fixpoint increasing (buckets : list double) : bool :=
  match buckets with
  | a :: (b :: _) as rest => negb (dle b a) && increasing rest
  | _ => true
  end.

Record Histogram := mkHist {
  buckets : list double; counts : list Z; sum : double; total : Z }.

Definition new (bs : list double) : option Histogram :=
  if increasing bs then Some (mkHist bs (replicate (S (length bs)) 0) dzero 0) else None.

(** [std::lower_bound]: the first bucket that is not less than [v]. *)
Fixpoint lower_bound (bs : list double) (v : double) : nat :=
  match bs with
  | [] => 0
  | b :: bs => if dlt b v then S (lower_bound bs v) else 0
  end.

Definition observe (h : Histogram) (v : double) : Histogram :=
  let idx := lower_bound (buckets h) v in
  let idx := if (length (buckets h) <? idx)%nat then length (buckets h) else idx in
  mkHist (buckets h) (alter (fun c => u64 (c + 1)) idx (counts h))
    (dadd (sum h) v) (u64 (total h + 1)).

(** The running sums of [snapshot]. *)
Fixpoint running (acc : Z) (cs : list Z) : list Z :=
  match cs with
  | [] => []
  | c :: cs => u64 (acc + c) :: running (u64 (acc + c)) cs
  end.

Record Snapshot := mkSnap {
  s_buckets : list double; cumulative : list Z; s_sum : double; s_count : Z }.

Definition snapshot (h : Histogram) : Snapshot :=
  mkSnap (buckets h) (running 0 (counts h)) (sum h) (total h).

(** ** Lemmas *)

Definition no_nan (l : list double) : bool := forallb (fun x => negb (is_nan x)) l.

(** How many of [vs] satisfy [p]. *)
Fixpoint count (p : double -> bool) (vs : list double) : Z :=
  match vs with [] => 0 | v :: vs => (if p v then 1 else 0) + count p vs end.

Lemma count_bounds p vs : 0 <= count p vs <= Z.of_nat (length vs).
Proof. induction vs as [|v vs IH]; simpl; [lia|]. destruct (p v); lia. Qed.

Lemma count_ext p q vs : (forall v, v ∈ vs -> p v = q v) -> count p vs = count q vs.
Proof.
  induction vs as [|v vs IH]; intros H; simpl; [done|].
  rewrite (H v) by (by apply elem_of_cons; left). rewrite IH; [done|].
  intros w Hw. apply H. by apply elem_of_cons; right.
Qed.

Lemma count_split p q vs :
  count (fun v => p v || q v) vs + count (fun v => p v && q v) vs = count p vs + count q vs.
Proof. induction vs as [|v vs IH]; simpl; [lia|]. destruct (p v), (q v); simpl; lia. Qed.

Lemma lower_bound_le bs v : (lower_bound bs v <= length bs)%nat.
Proof. induction bs as [|b bs IH]; simpl; [lia|]. destruct (dlt b v); simpl; lia. Qed.

Lemma increasing_cons b bs : increasing (b :: bs) = true -> increasing bs = true.
Proof. destruct bs as [|c bs]; [done|]. cbn [increasing]. by intros [_ ?]%andb_true_iff. Qed.

(** Every bucket after the first is above it. *)
Lemma increasing_head b bs i x :
  increasing (b :: bs) = true -> no_nan (b :: bs) = true -> bs !! i = Some x -> dlt b x = true.
Proof.
  revert b i. induction bs as [|c bs IH]; intros b i Hi Hn Hx; [done|].
  cbn [increasing] in Hi. apply andb_true_iff in Hi as [Hbc Hi].
  simpl in Hn. apply andb_true_iff in Hn as [Hb Hn]. pose proof Hn as [Hc _]%andb_true_iff.
  apply negb_true_iff in Hb, Hc, Hbc. rewrite dle_not_lt in Hbc by done. apply negb_false_iff in Hbc.
  destruct i as [|i]; simplify_eq/=; [done|].
  pose proof (IH c i Hi Hn Hx) as Hcx.
  assert (Hxn : is_nan x = false).
  { simpl in Hn. apply andb_true_iff in Hn as [_ Hn]. unfold no_nan in Hn.
    rewrite forallb_forall in Hn. apply negb_true_iff, Hn, list_elem_of_In. by eapply list_elem_of_lookup_2. }
  apply dlt_key; [done|done|]. eapply key_lt_trans; [by apply (dlt_key b c)|by apply (dlt_key c x)].
Qed.

(** Bucket [i] counts [v] exactly when [v] is at most its bound. *)
Lemma lower_bound_spec bs v i b :
  increasing bs = true -> no_nan bs = true -> is_nan v = false -> bs !! i = Some b ->
  (lower_bound bs v <=? i)%nat = dle v b.
Proof.
  revert i. induction bs as [|c bs IH]; intros i Hi Hn Hv Hb; [done|].
  pose proof Hn as Hn'. simpl in Hn'. apply andb_true_iff in Hn' as [Hc Hn'].
  apply negb_true_iff in Hc. simpl. destruct i as [|i]; simplify_eq/=.
  - rewrite dle_not_lt by done. by destruct (dlt b v).
  - assert (Hbn : is_nan b = false).
    { unfold no_nan in Hn'. rewrite forallb_forall in Hn'.
      apply negb_true_iff, Hn', list_elem_of_In. by eapply list_elem_of_lookup_2. }
    destruct (dlt c v) eqn:Ecv.
    + apply (IH i); [by eapply increasing_cons|done..].
    + pose proof (increasing_head c bs i b Hi Hn Hb) as Hcb. rewrite dle_not_lt by done.
      destruct (dlt b v) eqn:Ebv; [|done]. exfalso.
      apply dlt_key in Hcb, Ebv; [|done..]. assert (dlt c v = true); [|congruence].
      apply dlt_key; [done|done|]. by eapply key_lt_trans.
Qed.

(** The histogram after the observations [vs]. *)
Definition tallies (bs vs : list double) (h : Histogram) : Prop :=
  buckets h = bs /\ length (counts h) = S (length bs) /\ total h = Z.of_nat (length vs)
  /\ forall i, (i <= length bs)%nat ->
       counts h !! i = Some (count (fun v => Nat.eqb (lower_bound bs v) i) vs).

Lemma new_tallies bs h : new bs = Some h -> tallies bs [] h.
Proof.
  unfold new. destruct (increasing bs); [|done]. intros [= <-].
  split_and!; simpl; [done|by rewrite length_replicate|done|]. intros i Hi.
  change (0 :: replicate (length bs) 0) with (replicate (S (length bs)) 0).
  apply lookup_replicate. split; [done|lia].
Qed.

Lemma observe_tallies bs vs h v :
  tallies bs vs h -> Z.of_nat (length vs) + 1 < 2 ^ 64 -> tallies bs (v :: vs) (observe h v).
Proof.
  intros (Hb & Hl & Ht & Hc) Hlen. pose proof (lower_bound_le bs v) as Hlb. unfold observe. rewrite Hb.
  destruct (Nat.ltb_spec (length bs) (lower_bound bs v)); [lia|]. split_and!; simpl.
  - done.
  - by rewrite length_alter.
  - rewrite Ht, uwrap_small; [lia|unfold is_uint; lia].
  - intros i Hi. pose proof (count_bounds (fun v => Nat.eqb (lower_bound bs v) i) vs) as Hcb.
    destruct (Nat.eqb_spec (lower_bound bs v) i) as [<-|Hne].
    + rewrite list_lookup_alter_eq, Hc by done. simpl. f_equal.
      rewrite uwrap_small; [lia|unfold is_uint; lia].
    + rewrite list_lookup_alter_ne, Hc by done. done.
Qed.

Lemma observe_all_tallies bs vs done h :
  tallies bs done h -> Z.of_nat (length done + length vs) < 2 ^ 64 ->
  exists all, tallies bs all (foldl observe h vs) /\ all ≡ₚ done ++ vs.
Proof.
  revert done h. induction vs as [|v vs IH]; intros dn h Ht Hlen; simpl.
  - exists dn. split; [done|]. by rewrite app_nil_r.
  - simpl in Hlen. destruct (IH (v :: dn) (observe h v)) as (all & Ha & Hp).
    + apply observe_tallies; [done|lia].
    + simpl. lia.
    + exists all. split; [done|]. rewrite Hp. simpl. by rewrite Permutation_middle.
Qed.

Lemma count_perm p l k : l ≡ₚ k -> count p l = count p k.
Proof. induction 1; simpl; lia. Qed.

(** The sum of the first counts is the count of a disjunction. *)
Lemma count_le_S bs vs i :
  count (fun v => Nat.leb (lower_bound bs v) (S i)) vs
  = count (fun v => Nat.leb (lower_bound bs v) i) vs
    + count (fun v => Nat.eqb (lower_bound bs v) (S i)) vs.
Proof.
  induction vs as [|v vs IH]; cbn [count]; [done|]. rewrite IH.
  destruct (Nat.leb_spec (lower_bound bs v) (S i)), (Nat.leb_spec (lower_bound bs v) i),
    (Nat.eqb_spec (lower_bound bs v) (S i)); lia.
Qed.

Lemma running_lookup bs vs cs j acc i :
  Z.of_nat (length vs) < 2 ^ 64 ->
  (forall k, (k < length cs)%nat ->
     cs !! k = Some (count (fun v => Nat.eqb (lower_bound bs v) (j + k)) vs)) ->
  acc = match j with O => 0 | S j' => count (fun v => Nat.leb (lower_bound bs v) j') vs end ->
  (i < length cs)%nat ->
  running acc cs !! i = Some (count (fun v => Nat.leb (lower_bound bs v) (j + i)) vs).
Proof.
  intros Hlen. revert j acc i. induction cs as [|c cs IH]; intros j acc i Hcs Hacc Hi; [simpl in Hi; lia|].
  pose proof (Hcs 0%nat ltac:(simpl; lia)) as H0. rewrite Nat.add_0_r in H0. simpl in H0. simplify_eq.
  assert (Hstep : u64 (match j with O => 0 | S j' => count (fun v => Nat.leb (lower_bound bs v) j') vs end
    + count (fun v => Nat.eqb (lower_bound bs v) j) vs) = count (fun v => Nat.leb (lower_bound bs v) j) vs).
  { rewrite uwrap_small.
    - destruct j as [|j].
      + rewrite Z.add_0_l. apply count_ext. intros v _. by destruct (lower_bound bs v).
      + by rewrite count_le_S.
    - unfold is_uint. destruct j as [|j].
      + pose proof (count_bounds (fun v => Nat.eqb (lower_bound bs v) 0) vs). lia.
      + rewrite <- count_le_S. pose proof (count_bounds (fun v => Nat.leb (lower_bound bs v) (S j)) vs). lia. }
  cbn [running]. rewrite Hstep. destruct i as [|i]; [by rewrite Nat.add_0_r|].
  change (running (count (fun v => Nat.leb (lower_bound bs v) j) vs) cs !! i
    = Some (count (fun v => Nat.leb (lower_bound bs v) (j + S i)) vs)).
  replace (j + S i)%nat with (S j + i)%nat by lia. apply (IH (S j)); [|done|simpl in Hi; lia].
  intros k Hk. specialize (Hcs (S k) ltac:(simpl; lia)). simpl in Hcs. rewrite Hcs.
  by replace (j + S k)%nat with (S j + k)%nat by lia.
Qed.

Lemma running_length acc cs : length (running acc cs) = length cs.
Proof. revert acc. induction cs as [|c cs IH]; intros acc; simpl; [done|]. by rewrite IH. Qed.

(** The snapshot of a histogram is exact: bucket [i] is the number of
    observations at most its bound, the [+Inf] bucket and the count are the
    number of all observations. *)
Theorem histogram_exact bs vs h :
  new bs = Some h -> no_nan bs = true -> no_nan vs = true -> Z.of_nat (length vs) < 2 ^ 64 ->
  let s := snapshot (foldl observe h vs) in
  (forall i b, bs !! i = Some b -> cumulative s !! i = Some (count (fun v => dle v b) vs))
  /\ cumulative s !! length bs = Some (Z.of_nat (length vs))
  /\ s_count s = Z.of_nat (length vs).
Proof.
  intros Hnew Hbn Hvn Hlen.
  assert (Hinc : increasing bs = true) by (unfold new in Hnew; by destruct (increasing bs)).
  destruct (observe_all_tallies bs vs [] h (new_tallies _ _ Hnew)) as (all & (Hb & Hl & Ht & Hc) & Hp);
    [simpl; lia|]. simpl in Hp.
  pose proof (Permutation_length Hp) as Hpl.
  assert (Hrun : forall i, (i <= length bs)%nat -> running 0 (counts (foldl observe h vs)) !! i
    = Some (count (fun v => Nat.leb (lower_bound bs v) i) vs)).
  { intros i Hi. rewrite <- (count_perm _ _ _ Hp).
    apply (running_lookup bs all _ 0); [lia| |done|lia]. intros k Hk. apply Hc. lia. }
  unfold snapshot; simpl. split_and!.
  - intros i b Hib. rewrite Hrun by (apply lookup_lt_Some in Hib; lia). f_equal. apply count_ext.
    intros v Hv. apply lower_bound_spec; [done|done| |done]. unfold no_nan in Hvn.
    rewrite forallb_forall in Hvn. by apply negb_true_iff, Hvn, list_elem_of_In.
  - rewrite Hrun by done. f_equal. clear -bs.
    induction vs as [|v vs IH]; simpl; [done|]. rewrite IH.
    pose proof (lower_bound_le bs v). destruct (Nat.leb_spec (lower_bound bs v) (length bs)); lia.
  - rewrite Ht. lia.
Qed.

Definition demo_hist : Histogram := mkHist [done_; dadd done_ done_] [0; 0; 0] dzero 0.

Lemma histogram_exact_witness :
  cumulative (snapshot (foldl observe demo_hist [dzero; dadd done_ done_])) !! 0%nat = Some 1.
Proof.
  pose proof (histogram_exact [done_; dadd done_ done_] [dzero; dadd done_ done_] demo_hist
    eq_refl eq_refl eq_refl eq_refl) as [H _].
  exact (H 0%nat done_ eq_refl).
Defined.

(** A NaN is counted in the lowest bucket. *)
Theorem nan_counts_as_smallest b bs : lower_bound (b :: bs) S754_nan = 0%nat.
Proof. simpl. by destruct b. Qed.

End Hist.

Module Registry.
Import Text.

Definition dq : ascii := "034"%char.
Definition nl : ascii := "010"%char.

Definition labels := list (string * string).

(** ** Text of labels *)

Definition escape_char (c : ascii) : string :=
  if (c =? "\")%char then "\\"
  else if (c =? dq)%char then String "\" (String dq "")
  else if (c =? nl)%char then "\n"
  else String c "".

Fixpoint escape (s : string) : string :=
  match s with "" => "" | String c s => escape_char c +:+ escape s end.

Fixpoint fmt_pairs (first : bool) (l : labels) : string :=
  match l with
  | [] => ""
  | (k, v) :: l =>
      (if first then "" else ",") +:+ k +:+ "=" +:+ String dq (escape v +:+ String dq (fmt_pairs false l))
  end.

Definition fmt_labels (l : labels) : string :=
  match l with [] => "" | _ => "{" +:+ fmt_pairs true l +:+ "}" end.

(** ** Registration *)

Record CounterEntry := mkCE { c_help : string; c_by_labels : gmap string double }.
Record HistEntry := mkHE {
  h_help : string; h_buckets : list double; h_by_labels : gmap string Hist.Histogram }.

Record MetricsRegistry := mkMR {
  counters_ : gmap string CounterEntry;
  gauges_ : gmap string CounterEntry;
  histograms_ : gmap string HistEntry }.

(** The lookup-or-create of [counter] and [gauge] on one of the maps. *)
Definition register (m : gmap string CounterEntry) (name help : string) (l : labels)
    : gmap string CounterEntry :=
  let e := default (mkCE "" ∅) (m !! name) in
  let help' := if String.eqb (c_help e) "" then help else c_help e in
  let key := fmt_labels l in
  let by_labels := match c_by_labels e !! key with
                   | Some _ => c_by_labels e
                   | None => <[key := dzero]> (c_by_labels e)
                   end in
  <[name := mkCE help' by_labels]> m.

Definition counter (r : MetricsRegistry) (name help : string) (l : labels) : MetricsRegistry :=
  mkMR (register (counters_ r) name help l) (gauges_ r) (histograms_ r).
Definition gauge (r : MetricsRegistry) (name help : string) (l : labels) : MetricsRegistry :=
  mkMR (counters_ r) (register (gauges_ r) name help l) (histograms_ r).

Definition histogram (r : MetricsRegistry) (name : string) (buckets : list double) (help : string)
    (l : labels) : option MetricsRegistry :=
  let e := default (mkHE "" [] ∅) (histograms_ r !! name) in
  let help' := if String.eqb (h_help e) "" then help else h_help e in
  let buckets' := match h_buckets e with [] => buckets | b => b end in
  let key := fmt_labels l in
  match h_by_labels e !! key with
  | Some _ =>
      Some (mkMR (counters_ r) (gauges_ r)
              (<[name := mkHE help' buckets' (h_by_labels e)]> (histograms_ r)))
  | None =>
      match Hist.new buckets with
      | None => None
      | Some h =>
          Some (mkMR (counters_ r) (gauges_ r)
                  (<[name := mkHE help' buckets' (<[key := h]> (h_by_labels e))]> (histograms_ r)))
      end
  end.

(** The cell behind a name and labels, and [inc] through the reference. *)
Definition cell (m : gmap string CounterEntry) (name : string) (l : labels) : option double :=
  e ← m !! name; c_by_labels e !! fmt_labels l.

Definition inc_cell (m : gmap string CounterEntry) (name : string) (l : labels) (v : double)
    : gmap string CounterEntry :=
  alter (fun e => mkCE (c_help e) (alter (fun c => Cell.inc c v) (fmt_labels l) (c_by_labels e))) name m.

(** ** Rendering *)

Definition entry_le {A} (p q : string * A) : Prop := String.leb p.1 q.1 = true.
#[export] Instance entry_le_dec {A} : RelDecision (@entry_le A).
Proof. intros p q. unfold entry_le. apply _. Defined.

(** The iteration order of [std::map]. *)
Definition in_order {A} (m : gmap string A) : list (string * A) :=
  merge_sort entry_le (map_to_list m).

Section render.
(** [printf] with [%.17g] on a finite number. *)
Variable g17 : double -> string.

Definition fmt_double (v : double) : string :=
  match v with
  | S754_nan => "NaN"
  | S754_infinity true => "-Inf"
  | S754_infinity false => "+Inf"
  | _ => g17 v
  end.

Definition concat_map {A} (f : A -> string) (l : list A) : string :=
  foldr (fun a s => f a +:+ s) "" l.

Definition head_lines (name help kind : string) : string :=
  "# HELP " +:+ name +:+ " " +:+ help +:+ String nl ""
  +:+ "# TYPE " +:+ name +:+ " " +:+ kind +:+ String nl "".

Definition render_plain (kind : string) (m : gmap string CounterEntry) : string :=
  concat_map (fun p =>
    head_lines p.1 (c_help p.2) kind
    +:+ concat_map (fun q => p.1 +:+ q.1 +:+ " " +:+ fmt_double q.2 +:+ String nl "")
          (in_order (c_by_labels p.2))) (in_order m).

(** [base.substr(1, base.size() - 2)]. *)
Fixpoint without_last (s : string) : string :=
  match s with
  | "" | String _ "" => ""
  | String c s => String c (without_last s)
  end.
Definition label_inner (base : string) : string :=
  match base with String _ (String _ _ as rest) => without_last rest | _ => "" end.

Definition bucket_label (inner le : string) : string :=
  let le := "le=" +:+ String dq (le +:+ String dq "") in
  if String.eqb inner "" then "{" +:+ le +:+ "}" else "{" +:+ inner +:+ "," +:+ le +:+ "}".

Definition render_hist_series (name base : string) (h : Hist.Histogram) : string :=
  let snap := Hist.snapshot h in
  let inner := label_inner base in
  concat_map (fun p => name +:+ "_bucket" +:+ bucket_label inner (fmt_double p.1) +:+ " "
                       +:+ dec_u p.2 +:+ String nl "")
    (zip (Hist.s_buckets snap) (Hist.cumulative snap))
  +:+ name +:+ "_bucket" +:+ bucket_label inner "+Inf" +:+ " "
  +:+ dec_u (default 0 (last (Hist.cumulative snap))) +:+ String nl ""
  +:+ name +:+ "_sum" +:+ base +:+ " " +:+ fmt_double (Hist.s_sum snap) +:+ String nl ""
  +:+ name +:+ "_count" +:+ base +:+ " " +:+ dec_u (Hist.s_count snap) +:+ String nl "".

Definition render_hists (m : gmap string HistEntry) : string :=
  concat_map (fun p =>
    head_lines p.1 (h_help p.2) "histogram"
    +:+ concat_map (fun q => render_hist_series p.1 q.1 q.2) (in_order (h_by_labels p.2)))
    (in_order m).

Definition render (r : MetricsRegistry) : string :=
  render_plain "counter" (counters_ r) +:+ render_plain "gauge" (gauges_ r)
  +:+ render_hists (histograms_ r).
End render.

Definition name_le (a b : string) : Prop := String.leb a b = true.
#[export] Instance name_le_dec : RelDecision name_le.
Proof. intros a b. unfold name_le. apply _. Defined.

Definition metric_names (r : MetricsRegistry) : list string :=
  merge_sort name_le
    ((in_order (counters_ r)).*1 ++ (in_order (gauges_ r)).*1 ++ (in_order (histograms_ r)).*1).

(** ** Labels are faithful *)

(** A label name as Prometheus allows it has no equals sign. *)
Definition name_ok (k : string) : bool := sall (fun c => negb (c =? "=")%char) k.
Definition labels_ok (l : labels) : bool := forallb (fun p => name_ok p.1) l.

Lemma name_cut k1 k2 x y :
  name_ok k1 = true -> name_ok k2 = true -> k1 +:+ "=" +:+ x = k2 +:+ "=" +:+ y -> k1 = k2 /\ x = y.
Proof.
  revert k2. induction k1 as [|c k1 IH]; intros [|d k2] H1 H2 He; rewrite ?sapp_cons, ?sapp_nil_l in He.
  - by injection He.
  - injection He as <- _. done.
  - injection He as -> _. done.
  - injection He as -> He. simpl in H1, H2. apply andb_true_iff in H1 as [_ H1], H2 as [_ H2].
    destruct (IH k2 H1 H2 He) as [-> ->]. done.
Qed.

Lemma escape_char_cut c d x y :
  escape_char c +:+ x = escape_char d +:+ y -> c = d /\ x = y.
Proof.
  unfold escape_char.
  repeat match goal with |- context [(?a =? ?b)%char] => destruct (Ascii.eqb_spec a b); subst end;
    rewrite ?sapp_cons, ?sapp_nil_l; intros H; simplify_eq; try done;
    repeat match goal with H : String _ _ = _ |- _ => rewrite ?sapp_cons, ?sapp_nil_l in H end; by simplify_eq.
Qed.

Lemma escape_char_head c x : exists d s, escape_char c +:+ x = String d s /\ d <> dq.
Proof.
  unfold escape_char. destruct (Ascii.eqb_spec c "\"); [by do 2 eexists|].
  destruct (Ascii.eqb_spec c dq); [by do 2 eexists|].
  destruct (Ascii.eqb_spec c nl); by do 2 eexists.
Qed.

Lemma value_cut v1 v2 x y :
  escape v1 +:+ String dq x = escape v2 +:+ String dq y -> v1 = v2 /\ x = y.
Proof.
  revert v2. induction v1 as [|c v1 IH]; intros [|d v2] He; cbn [escape] in He;
    rewrite ?sapp_nil_l, ?sapp_assoc in He.
  - by injection He.
  - destruct (escape_char_head d (escape v2 +:+ String dq y)) as (e & s & Hs & Hne). rewrite Hs in He.
    injection He as <- _. done.
  - destruct (escape_char_head c (escape v1 +:+ String dq x)) as (e & s & Hs & Hne). rewrite Hs in He.
    injection He as -> _. done.
  - apply escape_char_cut in He as [-> He]. destruct (IH v2 He) as [-> ->]. done.
Qed.

Lemma fmt_pairs_inj b l1 l2 x y :
  labels_ok l1 = true -> labels_ok l2 = true ->
  fmt_pairs b l1 +:+ "}" +:+ x = fmt_pairs b l2 +:+ "}" +:+ y ->
  (b = true -> l1 <> [] /\ l2 <> []) -> l1 = l2.
Proof.
  revert b l2. induction l1 as [|[k1 v1] l1 IH]; intros b [|[k2 v2] l2] H1 H2 He Hb; [done|..].
  - destruct b; [by destruct (Hb eq_refl)|]. cbn [fmt_pairs] in He. rewrite sapp_nil_l, !sapp_assoc, !sapp_cons in He. done.
  - destruct b; [by destruct (Hb eq_refl)|]. cbn [fmt_pairs] in He. rewrite !sapp_assoc, !sapp_cons in He. done.
  - simpl in H1, H2. apply andb_true_iff in H1 as [Hn1 H1], H2 as [Hn2 H2].
    cbn [fmt_pairs] in He. rewrite !sapp_assoc in He. apply sapp_inj_l in He.
    apply name_cut in He as [-> He]; [|done|done]. rewrite !sapp_cons in He. injection He as He.
    rewrite !sapp_assoc, !sapp_cons in He. apply value_cut in He as [-> He].
    f_equal. by apply (IH false l2).
Qed.

Lemma fmt_labels_inj l1 l2 :
  labels_ok l1 = true -> labels_ok l2 = true -> fmt_labels l1 = fmt_labels l2 -> l1 = l2.
Proof.
  intros H1 H2 He. destruct l1 as [|p1 l1], l2 as [|p2 l2]; [done|done|done|].
  unfold fmt_labels in He. apply sapp_inj_l in He.
  apply (fmt_pairs_inj true _ _ "" ""); [done|done| |done]. by rewrite !sapp_nil_r.
Qed.

(** Distinct series do not share a cell: for label names without an equals
    sign, incrementing one series of a metric leaves every other series of
    every metric alone, whatever characters the label values have; and
    registering a series again neither resets it nor any other. *)
Theorem series_independent m name name' l l' v help :
  labels_ok l = true -> labels_ok l' = true ->
  ((name, l) <> (name', l') -> cell (inc_cell m name l v) name' l' = cell m name' l')
  /\ (forall x, cell m name l = Some x -> cell (inc_cell m name l v) name l = Some (Cell.inc x v))
  /\ (forall x, cell m name' l' = Some x -> cell (register m name help l) name' l' = Some x)
  /\ is_Some (cell (register m name help l) name l).
Proof.
  intros Hl Hl'. unfold cell, inc_cell, register. split_and!.
  - intros Hne. destruct (decide (name = name')) as [<-|Hn]; [|by rewrite lookup_alter_ne].
    rewrite lookup_alter_eq. destruct (m !! name) as [e|]; [|done]. simpl.
    rewrite lookup_alter_ne; [done|]. intros He. apply Hne. f_equal. by apply fmt_labels_inj.
  - intros x. rewrite lookup_alter_eq. destruct (m !! name) as [e|]; [|done]. simpl.
    rewrite lookup_alter_eq. by intros ->.
  - intros x Hx. destruct (decide (name = name')) as [<-|Hn]; [|by rewrite lookup_insert_ne].
    rewrite lookup_insert_eq. simpl. destruct (m !! name) as [e|]; [|done]. simpl in *.
    destruct (c_by_labels e !! fmt_labels l) eqn:E; [done|].
    rewrite lookup_insert_ne; [done|]. congruence.
  - rewrite lookup_insert_eq. simpl. destruct (c_by_labels _ !! fmt_labels l) eqn:E; [by rewrite E|].
    by rewrite lookup_insert_eq.
Qed.

Lemma series_independent_witness :
  let a := [("le", "1")] in let b := [("le", "2")] in
  is_Some (cell (register ∅ "m" "h" a) "m" a)
  /\ cell (inc_cell (register ∅ "m" "h" b) "m" a done_) "m" b = Some dzero.
Proof.
  intros a b. destruct (series_independent (register ∅ "m" "h" b) "m" "m" a b done_ "h") as (H1 & _).
  - reflexivity.
  - reflexivity.
  - destruct (series_independent ∅ "m" "m" a b done_ "h") as (_ & _ & _ & H4); [reflexivity|reflexivity|].
    split; [exact H4|]. rewrite H1; [vm_compute; reflexivity|discriminate].
Defined.

End Registry.
