(* ===== verification/ShmSegment.v ===== *)
(** * The shared-memory segment of a connection

    [include/socksdirect/shm_segment.hpp].  Module [Layout]: the name and the
    byte layout of a segment and the directions of its two rings.  Module
    [Attach]: the set-up and tear-down protocol of the creator and the joiner
    as a transition system in which every system call and every access to the
    shared header is a step of its own; timeouts may strike at any moment their
    loops allow.  Module [Wait]: the loop of [wait_for_peer] and its bound. *)

From Stdlib Require Import ZArith Lia Ascii.
From stdpp Require Import strings numbers base list relations.
From S2P Require Import Prelude ShmRing Text.

Module Layout.

Definition kShmSegmentMagic : Z := 0x53444D31.
Definition kRingBytes : Z := 2 ^ 20.

Definition sizeof_header : Z := 64.

(** [sizeof(ShmRing<kBufBytes>)]: two cache lines and the data. *)
Definition sizeof_ring (kBufBytes : Z) : Z := 64 + 64 + kBufBytes.

Definition layout_bytes : Z :=
  let want := sizeof_header + 2 * sizeof_ring kRingBytes in
  let page := 4096 in
  Z.land (want + page - 1) (Z.lnot (page - 1)).

(** Offsets of the two rings from [base_]. *)
Definition ring_creator_to_joiner : Z := sizeof_header.
Definition ring_joiner_to_creator : Z := sizeof_header + sizeof_ring kRingBytes.

Inductive Role := kRoleCreator | kRoleJoiner.

Definition ring_outbound (role : Role) : Z :=
  match role with kRoleCreator => ring_creator_to_joiner | kRoleJoiner => ring_joiner_to_creator end.
Definition ring_inbound (role : Role) : Z :=
  match role with kRoleCreator => ring_joiner_to_creator | kRoleJoiner => ring_creator_to_joiner end.

(** Offsets of the two futex words in the header. *)
Definition wake_c2j : Z := 24.
Definition wake_j2c : Z := 28.
Definition wake_outbound (role : Role) : Z :=
  match role with kRoleCreator => wake_c2j | kRoleJoiner => wake_j2c end.
Definition wake_inbound (role : Role) : Z :=
  match role with kRoleCreator => wake_j2c | kRoleJoiner => wake_c2j end.

Definition other (role : Role) : Role :=
  match role with kRoleCreator => kRoleJoiner | kRoleJoiner => kRoleCreator end.

(** The [n] last hexadecimal digits of [k]. *)
Definition hex_char (d : Z) : ascii :=
  ascii_of_N (Z.to_N (if d <? 10 then 48 + d else 87 + d)).

Fixpoint hex_fixed (n : nat) (k : Z) : string :=
  match n with
  | O => ""
  | S n => hex_fixed n (k / 16) +:+ String (hex_char (k mod 16)) ""
  end.

(** ["/sd-%016llx"]. *)
Definition name_for_key (key : Z) : string := "/sd-" +:+ hex_fixed 16 key.

(** ** Lemmas *)

Lemma hex_char_inj a b : 0 <= a < 16 -> 0 <= b < 16 -> hex_char a = hex_char b -> a = b.
Proof.
  unfold hex_char. intros Ha Hb H. apply (f_equal N_of_ascii) in H.
  destruct (Z.ltb_spec a 10), (Z.ltb_spec b 10); rewrite !N_ascii_embedding in H; lia.
Qed.

Lemma snoc_inj (s t : string) c d :
  s +:+ String c "" = t +:+ String d "" -> s = t /\ c = d.
Proof.
  revert t. induction s as [|a s IH]; intros [|b t] H; rewrite ?sapp_cons, ?sapp_nil_l in H.
  - by injection H.
  - by destruct t.
  - by destruct s.
  - injection H as -> H. by destruct (IH t H) as [-> ->].
Qed.

Lemma hex_fixed_inj n a b :
  0 <= a < 16 ^ Z.of_nat n -> 0 <= b < 16 ^ Z.of_nat n -> hex_fixed n a = hex_fixed n b -> a = b.
Proof.
  revert a b. induction n as [|n IH]; intros a b Ha Hb H; [simpl in *; lia|].
  rewrite Nat2Z.inj_succ, Z.pow_succ_r in Ha, Hb by lia. simpl in H.
  apply snoc_inj in H as [Hq Hr]. apply IH in Hq.
  - apply hex_char_inj in Hr; [|by apply Z.mod_pos_bound..].
    rewrite (Z.div_mod a 16), (Z.div_mod b 16) by lia. congruence.
  - split; [by apply Z.div_pos; lia|apply Z.div_lt_upper_bound; lia].
  - split; [by apply Z.div_pos; lia|apply Z.div_lt_upper_bound; lia].
Qed.

Lemma hex_fixed_length n k : String.length (hex_fixed n k) = n.
Proof. revert k. induction n as [|n IH]; intros k; simpl; [done|]. rewrite sapp_length, IH. simpl. lia. Qed.

(** Distinct 64-bit keys name distinct segments, and the name fits the
    32-byte buffer it is printed into. *)
Theorem name_for_key_inj k1 k2 :
  0 <= k1 < 2 ^ 64 -> 0 <= k2 < 2 ^ 64 ->
  (name_for_key k1 = name_for_key k2 -> k1 = k2)
  /\ (String.length (name_for_key k1) < 32)%nat.
Proof.
  intros H1 H2. unfold name_for_key. split; [|rewrite sapp_length, hex_fixed_length; simpl; lia].
  intros H. apply (hex_fixed_inj 16); [done|done|].
  by apply sapp_inj_l in H.
Qed.

Lemma name_for_key_inj_witness :
  (name_for_key 10 = name_for_key (2 ^ 63) -> 10 = 2 ^ 63)
  /\ (String.length (name_for_key 10) < 32)%nat.
Proof. apply (name_for_key_inj 10 (2 ^ 63)); vm_compute; intuition congruence. Defined.

(** The header and the two rings are disjoint, aligned to cache lines and
    inside the mapping, which is whole pages with less than one page to spare;
    what one side writes is what the other side reads, ring and futex word
    alike, and no side reads what it writes. *)
Theorem layout_sound role :
  sizeof_header <= ring_creator_to_joiner
  /\ ring_creator_to_joiner + sizeof_ring kRingBytes <= ring_joiner_to_creator
  /\ ring_joiner_to_creator + sizeof_ring kRingBytes <= layout_bytes
  /\ layout_bytes < ring_joiner_to_creator + sizeof_ring kRingBytes + 4096
  /\ layout_bytes mod 4096 = 0 /\ ring_creator_to_joiner mod 64 = 0 /\ ring_joiner_to_creator mod 64 = 0
  /\ wake_j2c + 4 <= sizeof_header
  /\ ring_outbound role = ring_inbound (other role) /\ ring_outbound role <> ring_inbound role
  /\ wake_outbound role = wake_inbound (other role) /\ wake_outbound role <> wake_inbound role.
Proof. destruct role; vm_compute; intuition congruence. Qed.

End Layout.

Module Attach.
Import Layout Ring.

(** The header, and the object behind a name of [/dev/shm]. *)
Record sd_shm_header := mkHdr {
  magic : Z; abi_major : Z; abi_minor : Z; refcount : Z;
  creator_pid : Z; joiner_pid : Z; ring_size : Z; w_c2j : Z; w_j2c : Z }.

Record object := mkObj { size : Z; header : sd_shm_header; c2j : ShmRing; j2c : ShmRing }.

Definition zero_header : sd_shm_header := mkHdr 0 0 0 0 0 0 0 0 0.

Definition with_header (o : object) (h : sd_shm_header) : object := mkObj (size o) h (c2j o) (j2c o).

(** [open(key, kRoleCreator)], [wait_for_peer], [close]: where the creator is.
    [up] records whether it went on to use the rings. *)
Inductive cpc :=
  | CStart | CExists | CRetry | COpened | CSized | CInit (k : nat) | CAttached | CUp | CGave
  | CMarked (up : bool) | CDropped (up last : bool) | CClosed (up : bool)
  | CFallback | CMapFailed.

(** The same for the joiner. *)
Inductive jpc :=
  | JStart | JOpened | JMapped | JSeen | JPid | JAttached | JUp | JGave
  | JMarked (up : bool) | JDropped (up last : bool) | JClosed (up : bool)
  | JFallback | JFault.

(** What the name stands for: nothing, a segment that an earlier run left
    behind, or the segment the creator made. *)
Inductive binding := Unbound | Old | Ours.

Definition is_ours (n : binding) : bool := match n with Ours => true | _ => false end.

(** The name, the leaked segment, the creator's segment, which of them the joiner
    has opened, and where the two sides are. *)
Inductive segment := OnOurs | OnLeaked.

Record sys := mkSys { name : binding; old : object; obj : object; on : segment; cr : cpc; jn : jpc }.

(** The segment the joiner has opened, and an access of the joiner to it. *)
Definition target (b : segment) (od o : object) : object := match b with OnLeaked => od | OnOurs => o end.
Definition old_after (b : segment) (f : object -> object) (od : object) : object :=
  match b with OnLeaked => f od | OnOurs => od end.
Definition ours_after (b : segment) (f : object -> object) (o : object) : object :=
  match b with OnLeaked => o | OnOurs => f o end.

Section protocol.
Context (zero_ring : ShmRing) (pc pj : Z).

Definition fresh_object : object := mkObj 0 zero_header zero_ring zero_ring.

(** The stores of the creator before the magic, in order. *)
Definition init_store (k : nat) (o : object) : object :=
  let h := header o in
  match k with
  | 0%nat => with_header o (mkHdr (magic h) 1 (abi_minor h) (refcount h) (creator_pid h)
                            (joiner_pid h) (ring_size h) (w_c2j h) (w_j2c h))
  | 1%nat => with_header o (mkHdr (magic h) (abi_major h) 0 (refcount h) (creator_pid h)
                            (joiner_pid h) (ring_size h) (w_c2j h) (w_j2c h))
  | 2%nat => with_header o (mkHdr (magic h) (abi_major h) (abi_minor h) (refcount h) (creator_pid h)
                            (joiner_pid h) kRingBytes (w_c2j h) (w_j2c h))
  | 3%nat => with_header o (mkHdr (magic h) (abi_major h) (abi_minor h) (refcount h) pc
                            (joiner_pid h) (ring_size h) (w_c2j h) (w_j2c h))
  | 4%nat => with_header o (mkHdr (magic h) (abi_major h) (abi_minor h) 1 (creator_pid h)
                            (joiner_pid h) (ring_size h) (w_c2j h) (w_j2c h))
  | 5%nat => mkObj (size o) h (init (c2j o)) (j2c o)
  | _ => mkObj (size o) h (c2j o) (init (j2c o))
  end.

Definition set_magic (o : object) : object :=
  let h := header o in
  with_header o (mkHdr kShmSegmentMagic (abi_major h) (abi_minor h) (refcount h) (creator_pid h)
                   (joiner_pid h) (ring_size h) (w_c2j h) (w_j2c h)).

Definition set_joiner_pid (o : object) : object :=
  let h := header o in
  with_header o (mkHdr (magic h) (abi_major h) (abi_minor h) (refcount h) (creator_pid h)
                   pj (ring_size h) (w_c2j h) (w_j2c h)).

Definition add_refcount (d : Z) (o : object) : object :=
  let h := header o in
  with_header o (mkHdr (magic h) (abi_major h) (abi_minor h) (refcount h + d) (creator_pid h)
                   (joiner_pid h) (ring_size h) (w_c2j h) (w_j2c h)).

(** [close()] up to the counter: our outbound ring is closed and its futex
    word bumped. *)
Definition mark_out (role : Role) (o : object) : object :=
  let h := header o in
  match role with
  | kRoleCreator =>
      mkObj (size o) (mkHdr (magic h) (abi_major h) (abi_minor h) (refcount h) (creator_pid h)
                        (joiner_pid h) (ring_size h) (u32 (w_c2j h + 1)) (w_j2c h))
        (mark_closed (c2j o)) (j2c o)
  | kRoleJoiner =>
      mkObj (size o) (mkHdr (magic h) (abi_major h) (abi_minor h) (refcount h) (creator_pid h)
                        (joiner_pid h) (ring_size h) (w_c2j h) (u32 (w_j2c h + 1)))
        (c2j o) (mark_closed (j2c o))
  end.

(** [wait_for_peer] first wakes a peer that waits already. *)
Definition bump_out (role : Role) (o : object) : object :=
  let h := header o in
  with_header o (match role with
    | kRoleCreator => mkHdr (magic h) (abi_major h) (abi_minor h) (refcount h) (creator_pid h)
                        (joiner_pid h) (ring_size h) (u32 (w_c2j h + 1)) (w_j2c h)
    | kRoleJoiner => mkHdr (magic h) (abi_major h) (abi_minor h) (refcount h) (creator_pid h)
                       (joiner_pid h) (ring_size h) (w_c2j h) (u32 (w_j2c h + 1))
    end).

(** The steps of the two sides.  [shm_unlink] takes the name away whatever it
    stands for; an object without a name stays with those who opened it. *)
Inductive step : sys -> sys -> Prop :=
  (* the creator *)
  | c_open od o b j : step (mkSys Unbound od o b CStart j) (mkSys Ours od fresh_object b COpened j)
  | c_exists n od o b j : n <> Unbound -> step (mkSys n od o b CStart j) (mkSys n od o b CExists j)
  | c_unlink_leaked n od o b j : step (mkSys n od o b CExists j) (mkSys Unbound od o b CRetry j)
  | c_reopen od o b j : step (mkSys Unbound od o b CRetry j) (mkSys Ours od fresh_object b COpened j)
  | c_open_fail n od o b c j : c = CStart \/ c = CRetry ->
      step (mkSys n od o b c j) (mkSys n od o b CFallback j)
  | c_truncate n od o b j :
      step (mkSys n od o b COpened j) (mkSys n od (mkObj layout_bytes (header o) (c2j o) (j2c o)) b CSized j)
  | c_truncate_fail n od o b j : step (mkSys n od o b COpened j) (mkSys Unbound od o b CFallback j)
  | c_map n od o b j : step (mkSys n od o b CSized j) (mkSys n od (with_header o zero_header) b (CInit 0) j)
  | c_map_fail n od o b j : step (mkSys n od o b CSized j) (mkSys n od o b CMapFailed j)
  | c_store n od o b j k : (k < 7)%nat ->
      step (mkSys n od o b (CInit k) j) (mkSys n od (init_store k o) b (CInit (S k)) j)
  | c_publish n od o b j : step (mkSys n od o b (CInit 7) j) (mkSys n od (set_magic o) b CAttached j)
  | c_peer n od o b j : joiner_pid (header o) <> 0 ->
      step (mkSys n od o b CAttached j) (mkSys n od (bump_out kRoleCreator o) b CUp j)
  | c_timeout n od o b j : joiner_pid (header o) = 0 ->
      step (mkSys n od o b CAttached j) (mkSys n od (bump_out kRoleCreator o) b CGave j)
  | c_mark n od o b j c : c = CUp \/ c = CGave ->
      step (mkSys n od o b c j)
        (mkSys n od (mark_out kRoleCreator o) b (CMarked (match c with CUp => true | _ => false end)) j)
  | c_drop n od o b j up :
      step (mkSys n od o b (CMarked up) j)
        (mkSys n od (add_refcount (-1) o) b (CDropped up (refcount (header o) =? 1)) j)
  | c_unlink n od o b j up (lst : bool) :
      step (mkSys n od o b (CDropped up lst) j) (mkSys (if lst then Unbound else n) od o b (CClosed up) j)
  (* the joiner *)
  | j_open od o b c : step (mkSys Ours od o b c JStart) (mkSys Ours od o OnOurs c JOpened)
  | j_open_leaked od o b c : step (mkSys Old od o b c JStart) (mkSys Old od o OnLeaked c JOpened)
  | j_open_fail n od o b c : step (mkSys n od o b c JStart) (mkSys n od o b c JFallback)
  | j_map n od o b c : layout_bytes <= size (target b od o) ->
      step (mkSys n od o b c JOpened) (mkSys n od o b c JMapped)
  | j_map_fail n od o b c : step (mkSys n od o b c JOpened) (mkSys n od o b c JFallback)
  | j_fault n od o b c : size (target b od o) < layout_bytes ->
      step (mkSys n od o b c JOpened) (mkSys n od o b c JFault)
  | j_magic n od o b c : magic (header (target b od o)) = kShmSegmentMagic ->
      step (mkSys n od o b c JMapped) (mkSys n od o b c JSeen)
  | j_magic_timeout n od o b c : magic (header (target b od o)) <> kShmSegmentMagic ->
      step (mkSys n od o b c JMapped) (mkSys n od o b c JFallback)
  | j_abi_fail n od o b c : abi_major (header (target b od o)) <> 1 ->
      step (mkSys n od o b c JSeen) (mkSys n od o b c JFallback)
  | j_pid n od o b c : abi_major (header (target b od o)) = 1 ->
      step (mkSys n od o b c JSeen)
        (mkSys n (old_after b set_joiner_pid od) (ours_after b set_joiner_pid o) b c JPid)
  | j_ref n od o b c :
      step (mkSys n od o b c JPid)
        (mkSys n (old_after b (add_refcount 1) od) (ours_after b (add_refcount 1) o) b c JAttached)
  | j_peer n od o b c : creator_pid (header (target b od o)) <> 0 ->
      step (mkSys n od o b c JAttached)
        (mkSys n (old_after b (bump_out kRoleJoiner) od) (ours_after b (bump_out kRoleJoiner) o) b c JUp)
  | j_timeout n od o b c : creator_pid (header (target b od o)) = 0 ->
      step (mkSys n od o b c JAttached)
        (mkSys n (old_after b (bump_out kRoleJoiner) od) (ours_after b (bump_out kRoleJoiner) o) b c JGave)
  | j_mark n od o b c j : j = JUp \/ j = JGave ->
      step (mkSys n od o b c j)
        (mkSys n (old_after b (mark_out kRoleJoiner) od) (ours_after b (mark_out kRoleJoiner) o) b c
           (JMarked (match j with JUp => true | _ => false end)))
  | j_drop n od o b c up :
      step (mkSys n od o b c (JMarked up))
        (mkSys n (old_after b (add_refcount (-1)) od) (ours_after b (add_refcount (-1)) o) b c
           (JDropped up (refcount (header (target b od o)) =? 1)))
  | j_unlink n od o b c up (lst : bool) :
      step (mkSys n od o b c (JDropped up lst)) (mkSys (if lst then Unbound else n) od o b c (JClosed up)).

(** The two sides start with no segment of this name, or with one that was
    leaked. *)
Definition start (leak : option object) : sys :=
  mkSys (match leak with Some _ => Old | None => Unbound end) (default fresh_object leak) fresh_object OnOurs CStart JStart.
Definition reachable (leak : option object) (s : sys) : Prop := rtc step (start leak) s.

(** ** Invariant *)

(** The creator has stored the magic. *)
Definition published (c : cpc) : bool :=
  match c with
  | CAttached | CUp | CGave | CMarked _ | CDropped _ _ | CClosed _ => true
  | _ => false
  end.

(** The object has been created. *)
Definition created (c : cpc) : bool := match c with CStart | CExists | CRetry => false | _ => true end.

(** Between the two changes of the counter. *)
Definition c_holds (c : cpc) : bool :=
  match c with CAttached | CUp | CGave | CMarked _ => true | _ => false end.
Definition j_holds (j : jpc) : bool :=
  match j with JAttached | JUp | JGave | JMarked _ => true | _ => false end.

(** The joiner has seen the magic; has stored its pid. *)
Definition j_seen (j : jpc) : bool :=
  match j with
  | JSeen | JPid | JAttached | JUp | JGave | JMarked _ | JDropped _ _ | JClosed _ => true
  | _ => false
  end.
Definition j_named (j : jpc) : bool :=
  match j with
  | JPid | JAttached | JUp | JGave | JMarked _ | JDropped _ _ | JClosed _ => true
  | _ => false
  end.

(** The side has closed its outbound ring. *)
Definition c_marked (c : cpc) : bool :=
  match c with CMarked _ | CDropped _ _ | CClosed _ => true | _ => false end.
Definition j_marked (j : jpc) : bool :=
  match j with JMarked _ | JDropped _ _ | JClosed _ => true | _ => false end.

Definition c_up (c : cpc) : bool :=
  match c with CUp | CMarked true | CDropped true _ | CClosed true => true | _ => false end.

(** The stores done so far. *)
Definition stored (k : nat) (o : object) : Prop :=
  let h := header o in
  ((0 < k)%nat -> abi_major h = 1) /\ ((2 < k)%nat -> ring_size h = kRingBytes)
  /\ ((3 < k)%nat -> creator_pid h = pc) /\ ((4 < k)%nat -> refcount h = 1)
  /\ c2j o = (if (5 <? k)%nat then init zero_ring else zero_ring)
  /\ j2c o = (if (6 <? k)%nat then init zero_ring else zero_ring).

Definition b2z (b : bool) : Z := if b then 1 else 0.

(** Someone is still going to unlink the name. *)
Definition will_unlink (c : cpc) (j : jpc) : Prop :=
  match c with
  | CDropped _ true => True
  | CDropped _ false | CClosed _ =>
      j_holds j = true \/ match j with JDropped _ true => True | _ => False end
  | CFallback => False
  | _ => True
  end.

(** Where the joiner is on the creator's segment: nowhere, if it has opened the
    leaked one. *)
Definition on_ours (b : segment) (j : jpc) : jpc := match b with OnLeaked => JFallback | OnOurs => j end.
Definition ours (s : sys) : jpc := on_ours (on s) (jn s).

Record inv (s : sys) : Prop := {
  inv_magic : if published (cr s) then magic (header (obj s)) = kShmSegmentMagic
              else magic (header (obj s)) = 0;
  inv_seen : j_seen (ours s) = true -> published (cr s) = true;
  inv_jpid : joiner_pid (header (obj s)) = if j_named (ours s) then pj else 0;
  inv_created : created (cr s) = false -> is_ours (name s) = false /\ (ours s = JStart \/ ours s = JFallback);
  inv_fields : published (cr s) = true ->
    abi_major (header (obj s)) = 1 /\ ring_size (header (obj s)) = kRingBytes
    /\ creator_pid (header (obj s)) = pc
    /\ refcount (header (obj s)) = b2z (c_holds (cr s)) + b2z (j_holds (ours s))
    /\ c2j (obj s) = (if c_marked (cr s) then mark_closed (init zero_ring) else init zero_ring)
    /\ j2c (obj s) = (if j_marked (ours s) then mark_closed (init zero_ring) else init zero_ring);
  inv_stores : match cr s with
               | CInit k => (k <= 7)%nat /\ stored k (obj s)
               | COpened | CSized => c2j (obj s) = zero_ring /\ j2c (obj s) = zero_ring
               | _ => True
               end;
  inv_up : c_up (cr s) = true -> j_named (ours s) = true;
  inv_linked : is_ours (name s) = true -> will_unlink (cr s) (ours s);
  inv_start : jn s = JStart -> on s = OnOurs }.

Local Opaque layout_bytes kRingBytes kShmSegmentMagic init mark_closed uwrap.

Lemma seg_start_inv leak : inv (start leak).
Proof. destruct leak; split; simpl; intros; auto; done. Qed.

Lemma init_store_hdr k o :
  magic (header (init_store k o)) = magic (header o)
  /\ joiner_pid (header (init_store k o)) = joiner_pid (header o).
Proof. by do 6 (destruct k as [|k]; [done|]). Qed.

Lemma init_store_stored k o : (k < 7)%nat -> stored k o -> stored (S k) (init_store k o).
Proof.
  intros Hk (H1 & H2 & H3 & H4 & H5 & H6).
  destruct k as [|[|[|[|[|[|[|k]]]]]]]; [..|lia]; unfold stored; simpl in *;
    split_and!; intros; first [done|lia|congruence|solve [auto with lia]].
Qed.

(** Uses the implications of the invariant whose premise is decided. *)
Ltac use_inv :=
  repeat match goal with
  | H : true = true -> _ |- _ => specialize (H eq_refl)
  | H : false = true -> _ |- _ => clear H
  | H : false = false -> _ |- _ => specialize (H eq_refl)
  | H : true = false -> _ |- _ => clear H
  | H : ?P -> _, H' : ?P |- _ => specialize (H H')
  | H : _ /\ _ |- _ => destruct H
  | H : (_ = JStart) \/ _ |- _ => destruct H
  end.
Ltac proto :=
  simpl in *; intros; simpl in *; use_inv; try split_and!;
  first [done|congruence|lia|by left|by right].

Lemma magic_nonzero : kShmSegmentMagic <> 0.
Proof. done. Qed.

(** The steps that need more than the case analysis. *)
Lemma map_stored o : c2j o = zero_ring -> j2c o = zero_ring -> stored 0 (with_header o zero_header).
Proof. intros H1 H2. unfold stored. split_and!; simpl; try lia; done. Qed.

Lemma publish_fields o j :
  stored 7 o -> (j_seen j = true -> false = true) ->
  abi_major (header o) = 1 /\ ring_size (header o) = kRingBytes /\ creator_pid (header o) = pc
  /\ refcount (header o) = 1 + b2z (j_holds j) /\ c2j o = init zero_ring
  /\ j2c o = if j_marked j then mark_closed (init zero_ring) else init zero_ring.
Proof.
  intros (H1 & H2 & H3 & H4 & H5 & H6) Hj.
  assert (Hb : j_holds j = false /\ j_marked j = false)
    by (destruct j; simpl in Hj; try done; by specialize (Hj eq_refl)).
  destruct Hb as [-> ->]. simpl in *. rewrite H1, H2, H3, H4 by lia. done.
Qed.

Lemma drop_will_unlink_c o j up :
  refcount (header o) = 1 + b2z (j_holds j) ->
  will_unlink (CDropped up (refcount (header o) =? 1)) j.
Proof. intros ->. simpl. destruct (j_holds j); simpl; auto. Qed.

Lemma drop_will_unlink_j c o up up' :
  (published c = true -> refcount (header o) = b2z (c_holds c) + 1) ->
  will_unlink c (JMarked up) -> will_unlink c (JDropped up' (refcount (header o) =? 1)).
Proof.
  intros Hr Hw. destruct c as [| | | | |k| | | |u|u [|]|u| |]; simpl in *; try done; right;
    by rewrite Hr by done.
Qed.

Lemma last_unlinks_c n j up (last : bool) :
  (is_ours n = true -> will_unlink (CDropped up last) j) ->
  is_ours (if last then Unbound else n) = true -> will_unlink (CClosed up) j.
Proof. by destruct last. Qed.

Lemma last_unlinks_j n c up (last : bool) :
  (is_ours n = true -> will_unlink c (JDropped up last)) ->
  is_ours (if last then Unbound else n) = true -> will_unlink c (JClosed up).
Proof.
  destruct last; [done|]. intros Hw Hl. specialize (Hw Hl).
  destruct c as [| | | | |k| | | |u|u [|]|u| |]; simpl in *; try done; by destruct Hw.
Qed.

(** A joiner on the leaked segment takes the name away at most. *)
Lemma last_unlinks_old n c j (last : bool) :
  (is_ours n = true -> will_unlink c j) -> is_ours (if last then Unbound else n) = true -> will_unlink c j.
Proof. by destruct last. Qed.

Lemma not_ours_unlinked n (last : bool) : is_ours n = false -> is_ours (if last then Unbound else n) = false.
Proof. by destruct last. Qed.

Lemma attach_will_unlink c : will_unlink c JPid -> will_unlink c JAttached.
Proof. destruct c as [| | | | |k| | | |u|u [|]|u| |]; simpl; auto. Qed.

Local Opaque init_store stored.

Lemma seg_step_inv s s' : step s s' -> inv s -> inv s'.
Proof.
  intros Hs [H1 H2 H3 H4 H5 H6 H7 H8 H9]. unfold ours in *. destruct Hs; simpl in *.
  all: try match goal with H : _ \/ _ |- _ => destruct H; subst end.
  all: try match goal with c : cpc |- _ => destruct b; simpl in *; try (specialize (H9 eq_refl); discriminate H9) end.
  all: split; unfold ours; simpl in *; try done.
  all: clear H9; try match goal with |- context [on_ours ?b ?j] => set (j' := on_ours b j) in *; clearbody j' end.
  all: try (solve [proto]).
  all: try (solve [destruct j'; proto]).
  all: try (solve [destruct c; proto]).
  all: intros; use_inv.
  - split; [lia|by apply map_stored].
  - by rewrite (proj1 (init_store_hdr k o)).
  - by rewrite (proj2 (init_store_hdr k o)).
  - split; [lia|by apply init_store_stored].
  - by apply publish_fields.
  - by apply drop_will_unlink_c.
  - by apply (last_unlinks_c n j' up lst).
  - destruct (published c); [done|]. by destruct magic_nonzero; congruence.
  - by apply attach_will_unlink.
  - by apply (drop_will_unlink_j c o up).
  - by apply (last_unlinks_j n c up lst).
  - split; [by apply not_ours_unlinked|by right].
  - split; [by apply not_ours_unlinked|by right].
  - by apply (last_unlinks_old n c JFallback lst).
Qed.

Lemma run_inv s s' : rtc step s s' -> inv s -> inv s'.
Proof. induction 1; eauto using seg_step_inv. Qed.

Lemma seg_reachable_inv leak s : reachable leak s -> inv s.
Proof. intros Hr. apply (run_inv _ _ Hr), seg_start_inv. Qed.

(** The leaked segment: no one but the joiner gets at it, and the joiner does
    not store its magic. *)
Record leak_inv (leak : option object) (s : sys) : Prop := {
  leak_name : name s = Old \/ on s = OnLeaked -> is_Some leak;
  leak_magic : magic (header (old s)) = magic (header (default fresh_object leak));
  leak_seen : on s = OnLeaked -> j_seen (jn s) = true -> magic (header (old s)) = kShmSegmentMagic }.

Lemma leak_step_inv leak s s' : step s s' -> leak_inv leak s -> leak_inv leak s'.
Proof.
  intros Hs [H1 H2 H3]. destruct Hs; simpl in *; split; simpl; try destruct lst; try destruct b; simpl;
    first [done|by naive_solver|idtac].
Qed.

Lemma leak_reachable leak s : reachable leak s -> leak_inv leak s.
Proof.
  intros Hr. assert (H0 : leak_inv leak (start leak)).
  { destruct leak; split; simpl; try done. by intros [?|?]. }
  revert H0. induction Hr; eauto using leak_step_inv.
Qed.

(** Nothing more is going to happen on this side. *)
Definition c_finished (c : cpc) : bool :=
  match c with CClosed _ | CFallback => true | _ => false end.
Definition j_finished (j : jpc) : bool :=
  match j with JStart | JClosed _ | JFallback | JFault => true | _ => false end.

(** What a joiner finds in the segment of the creator. *)
Definition complete (s : sys) : Prop :=
  let o := obj s in
  magic (header o) = kShmSegmentMagic /\ abi_major (header o) = 1
  /\ ring_size (header o) = kRingBytes /\ creator_pid (header o) = pc
  /\ refcount (header o) = b2z (c_holds (cr s)) + b2z (j_holds (jn s))
  /\ c2j o = (if c_marked (cr s) then mark_closed (init zero_ring) else init zero_ring)
  /\ j2c o = (if j_marked (jn s) then mark_closed (init zero_ring) else init zero_ring).

(** C21: whatever the interleaving, and also when an earlier run leaked a segment
    of the same name, which the creator then unlinks: once the joiner has
    accepted the magic of the creator's segment, the segment it sees is complete:
    version, ring size and creator's pid are set, both rings are initialised
    (closed at most by their own producer), and the reference counter is the
    number of sides attached at that moment.  The joiner is on another segment
    only if there was a leaked one, whose magic was set already, and it opened
    that before the creator unlinked it. *)
Theorem attach_published leak s :
  reachable leak s -> j_seen (jn s) = true ->
  match on s with
  | OnOurs => published (cr s) = true /\ complete s
  | OnLeaked => exists o, leak = Some o /\ magic (header o) = kShmSegmentMagic
  end.
Proof.
  intros Hr Hj. pose proof (seg_reachable_inv leak s Hr) as [H1 H2 _ _ H5 _ _ _ _].
  pose proof (leak_reachable leak s Hr) as [L1 L2 L3]. unfold ours in *. destruct (on s); simpl in *.
  - specialize (H2 Hj). rewrite H2 in H1. by destruct (H5 H2) as (? & ? & ? & ? & ? & ?).
  - destruct L1 as [o ->]; [by right|]. exists o. split; [done|]. simpl in L2. rewrite <- L2. by apply L3.
Qed.

(** No name is left behind: when both sides are done, each by closing or by
    giving up on the way, the segment the creator made has been unlinked.  (A
    creator whose [mmap] fails is the exception, see [map_failure_leaks].) *)
Theorem no_leak leak s :
  reachable leak s -> c_finished (cr s) = true -> j_finished (jn s) = true -> is_ours (name s) = false.
Proof.
  intros [_ _ _ _ _ _ _ H8 _]%seg_reachable_inv Hc Hj. destruct (is_ours (name s)); [|done]. specialize (H8 eq_refl).
  assert (Hj' : j_finished (ours s) = true) by (unfold ours; by destruct (on s)).
  destruct (cr s); try done; simpl in *.
  destruct (ours s); simpl in *; try done; by destruct H8.
Qed.

(** A creator that goes on to use the rings has seen a joiner that mapped
    the same segment and wrote its pid there. *)
Theorem creator_upgrade_safe leak s :
  reachable leak s -> c_up (cr s) = true ->
  on s = OnOurs /\ j_named (jn s) = true /\ joiner_pid (header (obj s)) = pj.
Proof.
  intros [_ _ H3 _ _ _ H7 _ _]%seg_reachable_inv Hu. specialize (H7 Hu). rewrite H7 in H3.
  unfold ours in H7. by destruct (on s).
Qed.

(** The joiner's wait for the creator is no wait: the creator's pid is part of
    what the magic publishes, so the test is true at once, also when the
    creator has already gone. *)
Theorem joiner_never_waits leak s :
  pc <> 0 -> reachable leak s -> on s = OnOurs -> jn s = JAttached -> creator_pid (header (obj s)) <> 0.
Proof.
  intros Hpc [_ H2 _ _ H5 _ _ _ _]%seg_reachable_inv Ho Hj. unfold ours in *. rewrite Ho, Hj in H2.
  destruct (H5 (H2 eq_refl)) as (_ & _ & -> & _). done.
Qed.

Local Transparent init_store.

Ltac go H := eapply rtc_l; [eapply H; simpl; first [done|lia]|simpl].

(** The creator, from nothing to attached. *)
Lemma creator_attaches :
  exists o, rtc step (start None) (mkSys Ours fresh_object o OnOurs CAttached JStart)
    /\ size o = layout_bytes /\ magic (header o) = kShmSegmentMagic /\ abi_major (header o) = 1
    /\ creator_pid (header o) = pc /\ joiner_pid (header o) = 0 /\ refcount (header o) = 1.
Proof.
  eexists. split; [unfold start; go c_open; go c_truncate; go c_map; do 7 go c_store; go c_publish; reflexivity|].
  by split_and!.
Qed.

(** One side on each transport: the joiner has opened the segment but not yet
    stored its pid when the creator's wait times out; the creator closes,
    unlinks and falls back to TCP, then the joiner attaches and goes on with
    the rings. *)
Theorem asymmetric_upgrade :
  pc <> 0 -> exists s, reachable None s /\ cr s = CClosed false /\ jn s = JUp /\ name s = Unbound.
Proof.
  intros Hpc. destruct creator_attaches as (o & Hr & Hsz & Hm & Ha & Hc & Hj & Hn).
  eexists. split; [|split_and!; cycle 1].
  - unfold reachable; etrans; [exact Hr|]. go j_open. eapply rtc_l; [apply j_map; simpl; lia|]. go j_magic.
    go c_timeout. eapply rtc_l; [apply (c_mark _ _ _ _ _ CGave); by right|]. simpl. go c_drop.
    rewrite Hn. simpl. go c_unlink. go j_pid. go j_ref.
    eapply rtc_l; [apply j_peer; simpl; congruence|]. reflexivity.
  - done.
  - done.
  - done.
Qed.

(** A creator whose [mmap] fails leaves the name behind. *)
Theorem map_failure_leaks : exists s, reachable None s /\ cr s = CMapFailed /\ name s = Ours.
Proof.
  eexists. split; [unfold reachable, start; go c_open; go c_truncate; go c_map_fail; reflexivity|done].
Qed.

(** A joiner that has waited long enough for the segment to get its size maps
    it regardless, and its first access faults. *)
Theorem joiner_maps_unsized : exists s, reachable None s /\ jn s = JFault.
Proof.
  eexists. split; [unfold reachable, start; go c_open; go j_open; go j_fault; reflexivity|done].
Qed.

(** A joiner that is quicker than the creator attaches to a complete segment that
    an earlier run leaked, and uses its rings; the creator unlinks that, makes
    its own and waits there in vain. *)
Theorem joins_leaked od :
  layout_bytes <= size od -> magic (header od) = kShmSegmentMagic -> abi_major (header od) = 1 ->
  creator_pid (header od) <> 0 ->
  exists s, reachable (Some od) s /\ on s = OnLeaked /\ jn s = JUp /\ cr s = CGave /\ name s = Ours.
Proof.
  intros Hsz Hm Ha Hp. eexists. split; [|split_and!; cycle 1].
  - unfold reachable, start. simpl. go j_open_leaked. go c_exists. go c_unlink_leaked. go c_reopen. go c_truncate.
    go c_map. do 7 go c_store. go c_publish. go j_map. go j_magic. go j_pid. go j_ref. go j_peer. go c_timeout. reflexivity.
  - done.
  - done.
  - done.
  - done.
Qed.

(** The regular course: both sides attach and use the rings, then close. *)
Lemma both_up :
  pc <> 0 -> pj <> 0 ->
  exists s, reachable None s /\ on s = OnOurs /\ cr s = CUp /\ jn s = JUp /\ refcount (header (obj s)) = 2.
Proof.
  intros Hpc Hpj. destruct creator_attaches as (o & Hr & Hsz & Hm & Ha & Hc & Hj & Hn).
  eexists. split; [|split_and!; cycle 1].
  - unfold reachable; etrans; [exact Hr|]. go j_open. eapply rtc_l; [apply j_map; simpl; lia|]. go j_magic.
    go j_pid. go j_ref. eapply rtc_l; [apply j_peer; simpl; congruence|].
    eapply rtc_l; [apply c_peer; simpl; congruence|]. reflexivity.
  - done.
  - done.
  - simpl. by rewrite Hn.
  - done.
Qed.

Lemma both_closed :
  pc <> 0 -> pj <> 0 ->
  exists s, reachable None s /\ c_finished (cr s) = true /\ j_finished (jn s) = true.
Proof.
  intros Hpc Hpj. destruct (both_up Hpc Hpj) as ([n od o b c j] & Hr & Hb & Hc & Hj & Hn). simpl in *. subst b c j.
  eexists. split; [|split_and!; cycle 1].
  - unfold reachable; etrans; [exact Hr|]. eapply rtc_l; [apply (c_mark _ _ _ _ _ CUp); by left|].
    go c_drop. go c_unlink. eapply rtc_l; [apply (j_mark _ _ _ _ _ JUp); by left|]. go j_drop. go j_unlink.
    reflexivity.
  - done.
  - done.
Qed.

End protocol.

(** *** Witnesses *)

(** A segment leaked by an earlier run, which both its sides left without
    closing it. *)
Definition leaked_object : object := mkObj layout_bytes (mkHdr kShmSegmentMagic 1 0 2 21 22 kRingBytes 0 0) zero_ring zero_ring.

(** Without a leaked segment both sides attach to the creator's; with a complete
    one the joiner can get hold of that. *)
Lemma attach_published_witness :
  (exists s, reachable zero_ring 11 12 None s /\ jn s = JUp /\ refcount (header (obj s)) = 1 + 1
     /\ creator_pid (header (obj s)) = 11 /\ c2j (obj s) = init zero_ring)
  /\ exists s o, reachable zero_ring 11 12 (Some leaked_object) s /\ jn s = JUp /\ Some leaked_object = Some o
     /\ magic (header o) = kShmSegmentMagic.
Proof.
  split.
  - destruct (both_up zero_ring 11 12) as (s & Hr & Ho & Hc & Hj & _); [done|done|].
    exists s. pose proof (attach_published zero_ring 11 12 None s Hr) as H. rewrite Ho, Hj in H.
    destruct (H eq_refl) as (_ & _ & _ & _ & Hp & Hn & Hcj & _). rewrite Hc in Hn, Hcj. rewrite Hj in Hn.
    split; [exact Hr|]. split; [exact Hj|]. split; [exact Hn|]. split; [exact Hp|exact Hcj].
  - destruct (joins_leaked zero_ring 11 12 leaked_object) as (s & Hr & Ho & Hj & _ & _); [done|done|done|done|].
    pose proof (attach_published zero_ring 11 12 (Some leaked_object) s Hr) as H. rewrite Ho, Hj in H.
    destruct (H eq_refl) as (o & Hl & Hm). exists s, o. split; [exact Hr|]. split; [exact Hj|]. split; [exact Hl|exact Hm].
Defined.

Lemma no_leak_witness : exists s, reachable zero_ring 11 12 None s /\ is_ours (name s) = false.
Proof.
  destruct (both_closed zero_ring 11 12) as (s & Hr & Hc & Hj); [done|done|].
  exists s. split; [done|]. exact (no_leak zero_ring 11 12 None s Hr Hc Hj).
Defined.

Lemma creator_upgrade_safe_witness : exists s, cr s = CUp /\ j_named (jn s) = true.
Proof.
  destruct (both_up zero_ring 11 12) as (s & Hr & _ & Hc & Hj & _); [done|done|].
  exists s. split; [done|]. apply (creator_upgrade_safe zero_ring 11 12 None s Hr). by rewrite Hc.
Defined.

End Attach.

Module Wait.

(** The loop of [wait_for_peer]: [samples] are the two readings of the peer's
    pid in each turn, [final] the reading after the loop.  The result, the
    milliseconds charged (a [FUTEX_WAIT] that returns early is charged its whole
    slice) and the turns made.  A turn takes at least one
    millisecond off, so [timeout_ms] turns are enough. *)
Fixpoint wait_loop (fuel : nat) (samples : nat -> Z * Z) (final : Z)
    (turn : nat) (remaining slept : Z) : bool * Z * nat :=
  match fuel with
  | O => (negb (final =? 0), slept, turn)
  | S fuel =>
      if remaining <=? 0 then (negb (final =? 0), slept, turn)
      else if negb ((samples turn).1 =? 0) then (true, slept, turn)
      else if negb ((samples turn).2 =? 0) then (true, slept, turn)
      else
        let slice := if remaining >? 50 then 50 else remaining in
        wait_loop fuel samples final (S turn) (remaining - slice) (slept + slice)
  end.

Definition wait_for_peer (base_open : bool) (samples : nat -> Z * Z) (final timeout_ms : Z)
    : bool * Z * nat :=
  if negb base_open then (false, 0, 0%nat)
  else wait_loop (Z.to_nat timeout_ms) samples final 0 timeout_ms 0.

Lemma wait_loop_spec fuel samples final turn remaining slept :
  0 <= remaining -> (Z.to_nat remaining <= fuel)%nat ->
  let '(b, s, n) := wait_loop fuel samples final turn remaining slept in
  slept <= s <= slept + remaining
  /\ 50 * (Z.of_nat n - Z.of_nat turn) <= (s - slept) + 49
  /\ (turn <= n)%nat /\ (remaining = 0 -> n = turn)
  /\ (forall k, (turn <= k < n)%nat -> samples k = (0, 0))
  /\ (s = slept + remaining /\ b = negb (final =? 0) \/ samples n <> (0, 0) /\ b = true).
Proof.
  revert turn remaining slept. induction fuel as [|fuel IH]; intros turn remaining slept Hr Hf; simpl.
  - assert (remaining = 0) as -> by lia. rewrite Z.add_0_r.
    split_and!; [lia|lia|lia|lia|lia|lia|]. by left.
  - destruct (Z.leb_spec remaining 0).
    { assert (remaining = 0) as -> by lia. rewrite Z.add_0_r.
      split_and!; [lia|lia|lia|lia|lia|lia|]. by left. }
    destruct (samples turn) as [p q] eqn:Es. simpl.
    destruct (Z.eqb_spec p 0) as [->|Hp]; simpl.
    2: { split_and!; [lia|lia|lia|lia|lia|lia|]. right. rewrite Es. split; [congruence|done]. }
    destruct (Z.eqb_spec q 0) as [->|Hq]; simpl.
    2: { split_and!; [lia|lia|lia|lia|lia|lia|]. right. rewrite Es. split; [congruence|done]. }
    set (slice := if remaining >? 50 then 50 else remaining).
    assert (Hs : 0 < slice <= remaining /\ (slice = 50 \/ slice = remaining))
      by (unfold slice; destruct (Z.gtb_spec remaining 50); lia).
    specialize (IH (S turn) (remaining - slice) (slept + slice) ltac:(lia) ltac:(lia)).
    destruct (wait_loop fuel _ _ _ _ _) as [[b s] n]. destruct IH as ((? & ?) & Hn & ? & H0 & Hz & Hb).
    replace (slept + slice + (remaining - slice)) with (slept + remaining) in * by lia.
    split_and!; [lia|lia| |lia|lia| |done].
    + destruct Hs as [_ [->|Hs]]; [lia|]. assert (n = S turn) as -> by (apply H0; lia). lia.
    + intros k Hk. destruct (decide (k = turn)) as [->|]; [done|]. apply Hz. lia.
Qed.

(** [wait_for_peer] ends: its turns charge at most the timeout it was
    given, at most one turn per 50 milliseconds begun, and it answers [false]
    only when the whole timeout is charged, with every reading of the peer's
    pid zero, the last one included. *)
Theorem wait_for_peer_bounded samples final timeout_ms :
  0 <= timeout_ms ->
  let '(b, slept, turns) := wait_for_peer true samples final timeout_ms in
  0 <= slept <= timeout_ms /\ 50 * Z.of_nat turns <= slept + 49
  /\ (b = false -> slept = timeout_ms /\ final = 0
                   /\ forall k, (k < turns)%nat -> samples k = (0, 0)).
Proof.
  intros Ht. unfold wait_for_peer. simpl.
  pose proof (wait_loop_spec (Z.to_nat timeout_ms) samples final 0 timeout_ms 0 Ht ltac:(lia)) as H.
  destruct (wait_loop _ _ _ _ _ _) as [[b s] n]. destruct H as (Hs & Hn & _ & _ & Hz & Hb).
  split_and!; [lia|lia|lia|]. intros ->. destruct Hb as [[-> Hf]|[_ ?]]; [|done].
  split_and!; [lia| |intros k Hk; apply Hz; lia].
  symmetry in Hf. by apply negb_false_iff, Z.eqb_eq in Hf.
Qed.

Lemma wait_for_peer_bounded_witness :
  0 <= 200 <= 200 /\ 50 * Z.of_nat 4 <= 200 + 49
  /\ (false = false -> 200 = 200 /\ 0 = 0 /\ forall k, (k < 4)%nat -> (0, 0) = (0, 0)).
Proof. apply (wait_for_peer_bounded (fun _ => (0, 0)) 0 200). lia. Defined.

End Wait.
