(* ===== verification/Monitor.v ===== *)
(** * The monitor daemon

    [src/monitor/main.cpp]: the operations of the control protocol, the
    per-connection reading loop, and the event loop of the daemon.  What the
    system answers (time, pids, files, the results of [read], [write],
    [accept4] and [poll]) is given by arguments; log lines are not modelled.
    The daemon's own metrics are three cells of a [MetricsRegistry]. *)

From Stdlib Require Import ZArith Lia Ascii.
From stdpp Require Import strings gmap numbers base list.
From S2P Require Import Prelude Text MonitorIpc ShmHandshake Config Log Metrics.

Module Monitor.
Import Text Ipc Handshake.

(** One file of the metrics directory: its name, its contents when it can be
    opened, and whether [kill(pid, 0)] says that its process is gone. *)
Record dirent := mkDirent { d_name : string; contents : option string; esrch : bool }.

(** What the system answers while a request is served. *)
Record World := mkWorld {
  uptime : Z;
  getpid : Z;
  getenv : string -> option string;
  open_file : string -> option string;
  fopen_r : option Z;
  opendir : string -> option (list dirent);
  g17 : double -> string;          (* printf %.17g *)
  f0 : double -> string }.         (* printf %.0f *)

Record Daemon := mkDaemon {
  config : Config.values;
  control_socket_path : string;
  pid_file_path : string;
  draining : bool;
  ctl_conns : gmap Z string;
  shm_registry : Registry;
  metrics : Registry.MetricsRegistry;
  logger : Log.Logger }.

Definition set_config (d : Daemon) (c : Config.values) (l : Log.Logger) : Daemon :=
  mkDaemon c (control_socket_path d) (pid_file_path d) (draining d) (ctl_conns d)
    (shm_registry d) (metrics d) l.
Definition set_draining (d : Daemon) : Daemon :=
  mkDaemon (config d) (control_socket_path d) (pid_file_path d) true (ctl_conns d)
    (shm_registry d) (metrics d) (logger d).
Definition set_conns (d : Daemon) (c : gmap Z string) : Daemon :=
  mkDaemon (config d) (control_socket_path d) (pid_file_path d) (draining d) c
    (shm_registry d) (metrics d) (logger d).
Definition set_registry (d : Daemon) (r : Registry) : Daemon :=
  mkDaemon (config d) (control_socket_path d) (pid_file_path d) (draining d) (ctl_conns d)
    r (metrics d) (logger d).
Definition set_metrics (d : Daemon) (m : Registry.MetricsRegistry) : Daemon :=
  mkDaemon (config d) (control_socket_path d) (pid_file_path d) (draining d) (ctl_conns d)
    (shm_registry d) m (logger d).

Definition requests_total : string := "socksdirect_ctl_requests_total".
Definition errors_total : string := "socksdirect_ctl_errors_total".
Definition connections_gauge : string := "socksdirect_ctl_connections".

(** [d.m_ctl_requests->inc()] and the like. *)
Definition inc_counter (d : Daemon) (name : string) : Daemon :=
  let m := metrics d in
  set_metrics d (Registry.mkMR (Registry.inc_cell (Registry.counters_ m) name [] done_)
                   (Registry.gauges_ m) (Registry.histograms_ m)).

Definition counter_value (d : Daemon) (name : string) : double :=
  default dzero (Registry.cell (Registry.counters_ (metrics d)) name []).

(** The whole number [n] as a [double], exact below 2^53. *)
Definition double_of_Z (n : Z) : double := SpecFloat.binary_normalize 53 1024 n 0 false.

(** [d.m_ctl_active->set(d.ctl_conns.size())]. *)
Definition publish_active (d : Daemon) : Daemon :=
  let m := metrics d in
  set_metrics d (Registry.mkMR (Registry.counters_ m)
    (alter (fun e => Registry.mkCE (Registry.c_help e)
              (alter (fun _ => double_of_Z (Z.of_nat (size (ctl_conns d)))) "" (Registry.c_by_labels e)))
       connections_gauge (Registry.gauges_ m))
    (Registry.histograms_ m)).

Definition ok_lines (l : list string) : CtlResponse := mkResp true l "".
Definition fail_with (e : string) : CtlResponse := mkResp false [] e.
Definition yesno (b : bool) : string := if b then "true" else "false".

(** ** Operations *)

Definition op_status (w : World) (d : Daemon) : CtlResponse :=
  ok_lines ["pid " +:+ dec_d (getpid w); "uptime_sec " +:+ dec_d (uptime w);
            "control_socket " +:+ control_socket_path d; "draining " +:+ yesno (draining d)].

Definition op_connections (d : Daemon) : CtlResponse :=
  ok_lines ["ctl_active " +:+ dec_u (Z.of_nat (size (ctl_conns d)));
            "data_plane_connections 0  (data plane not yet active in src/monitor)"].

(** [config.all()] in the order of the map. *)
Definition all_config (d : Daemon) : list (string * string) := Registry.in_order (config d).

Definition op_dump_state (w : World) (d : Daemon) : CtlResponse :=
  ok_lines (["pid=" +:+ dec_d (getpid w) +:+ " uptime=" +:+ dec_d (uptime w) +:+ "s draining="
               +:+ yesno (draining d);
             "control_socket=" +:+ control_socket_path d;
             "pid_file=" +:+ pid_file_path d;
             "ctl_requests=" +:+ f0 w (counter_value d requests_total) +:+ " errors="
               +:+ f0 w (counter_value d errors_total)]
            ++ ((fun kv => "config " +:+ kv.1 +:+ "=" +:+ kv.2) <$> all_config d)).

Definition op_dump_config (d : Daemon) : CtlResponse :=
  ok_lines (match (fun kv => kv.1 +:+ "=" +:+ kv.2) <$> all_config d with
            | [] => ["(no config file loaded; all values defaulted)"]
            | l => l
            end).

(** The splitting loop of [op_metrics]: the lines that are not empty. *)
Fixpoint nonempty_lines (cur s : string) : list string :=
  match s with
  | "" => if String.eqb cur "" then [] else [cur]
  | String c s =>
      if (c =? nl)%char then (if String.eqb cur "" then [] else [cur]) ++ nonempty_lines "" s
      else nonempty_lines (cur +:+ String c "") s
  end.

Definition op_metrics (w : World) (d : Daemon) : CtlResponse :=
  ok_lines (nonempty_lines "" (Registry.render (g17 w) (metrics d))).

Definition op_reload (w : World) (d : Daemon) : CtlResponse * Daemon :=
  let cfg := Config.load_default (getenv w) (open_file w) in
  let level := Log.parse_level (Some (Config.get_string (getenv w) cfg "monitor" "log_level" "info"))
                 Log.kLogInfo in
  let lg := Log.set_level (logger d) level in
  let sink := Config.get_string (getenv w) cfg "monitor" "log_file" "" in
  let lg := if String.eqb sink "" then lg else (Log.set_sink_file lg sink (fopen_r w)).2 in
  (ok_lines ["reloaded"], set_config d cfg lg).

Definition op_drain (d : Daemon) : CtlResponse * Daemon := (ok_lines ["draining"], set_draining d).

Definition op_ping (req : CtlRequest) : CtlResponse :=
  ok_lines [match args req with [] => "pong" | a :: _ => a end].

Definition op_help : CtlResponse :=
  ok_lines ["status         daemon pid / uptime / control socket / drain flag";
            "connections    counts of active connections";
            "dump-state     verbose internal state";
            "dump-config    every resolved config key=value";
            "metrics        Prometheus text format";
            "reload         re-read config; reopen log sink";
            "drain          stop accepting new ctl clients";
            "ping [msg]     echo (defaults to 'pong')";
            "shm-register A B PID   broker SHM key for the (A,B) pair";
            "shm-unregister A B     drop the SHM key for (A,B)";
            "help           this list"].

Definition role_line (r : Role) : string :=
  match r with kCreator => "role=creator" | kJoiner => "role=joiner" end.

(** [None] only when the random source has no number left to give. *)
Definition op_shm_register (d : Daemon) (req : CtlRequest) : option (CtlResponse * Daemon) :=
  match args req with
  | a1 :: a2 :: a3 :: _ =>
      let pid := atoi a3 in
      if pid <=? 0 then Some (fail_with "shm-register: bad pid", d)
      else
        match register_endpoint (shm_registry d) (make a1 a2) pid with
        | None => None
        | Some (res, reg) =>
            Some (ok_lines ["shm_key=" +:+ dec_u (res_key res); role_line (role res);
                            "pid_a=" +:+ dec_d (pid_a res) +:+ " pid_b=" +:+ dec_d (pid_b res)],
                  set_registry d reg)
        end
  | _ => Some (fail_with "usage: shm-register <endpoint_a> <endpoint_b> <pid>", d)
  end.

Definition op_shm_unregister (d : Daemon) (req : CtlRequest) : CtlResponse * Daemon :=
  match args req with
  | a1 :: a2 :: _ =>
      let '(removed, reg) := unregister_endpoint (shm_registry d) (make a1 a2) in
      (ok_lines [if (removed : bool) then "removed" else "not_present"], set_registry d reg)
  | _ => (fail_with "usage: shm-unregister <endpoint_a> <endpoint_b>", d)
  end.

(** The strings [fgets] delivers with a buffer of 1024 bytes, without their
    newline; [room] is the space left in the buffer. *)
Fixpoint fgets_lines (room : nat) (cur s : string) : list string :=
  match s with
  | "" => if String.eqb cur "" then [] else [cur]
  | String c s =>
      if (c =? nl)%char then cur :: fgets_lines 1023 "" s
      else
        match room with
        | S (S room) => fgets_lines (S room) (cur +:+ String c "") s
        | _ => (cur +:+ String c "") :: fgets_lines 1023 "" s
        end
  end.

(** [name.substr(name.size() - 5) == ".prom"], and the rest of the name. *)
Fixpoint prom_stem (s : string) : option string :=
  match s with
  | "" => None
  | String c t =>
      if String.eqb s ".prom" then Some ""
      else match prom_stem t with Some p => Some (String c p) | None => None end
  end.

(** One entry of the directory: the lines it adds, and whether it is removed. *)
Definition lib_entry (e : dirent) : list string * bool :=
  if (String.length (d_name e) <? 6)%nat then ([], false)
  else
    match prom_stem (d_name e) with
    | None => ([], false)
    | Some pid_str =>
        let '(pid, rest) := strtol pid_str in
        (match contents e with Some t => fgets_lines 1023 "" t | None => [] end,
         (0 <? pid) && String.eqb rest "" && esrch e)
    end.

(** [op_lib_metrics]: the response and the names it unlinks. *)
Definition op_lib_metrics (w : World) (d : Daemon) : CtlResponse * list string :=
  let dir := Config.get_string (getenv w) (config d) "monitor" "lib_metrics_dir"
               "/run/socksdirect/lib-metrics" in
  match opendir w dir with
  | None => (ok_lines ["# no lib-metrics directory: " +:+ dir], [])
  | Some es =>
      (ok_lines (concat (List.map (fun e => (lib_entry e).1) es)),
       List.map (fun e => dir +:+ "/" +:+ d_name e)
         (List.filter (fun e => (lib_entry e).2) es))
  end.

(** ** Dispatch *)

Definition dispatch (w : World) (d : Daemon) (req : CtlRequest) : option (CtlResponse * Daemon) :=
  let d := inc_counter d requests_total in
  let o := Ipc.op req in
  if String.eqb o "status" then Some (op_status w d, d)
  else if String.eqb o "connections" then Some (op_connections d, d)
  else if String.eqb o "dump-state" then Some (op_dump_state w d, d)
  else if String.eqb o "dump-config" then Some (op_dump_config d, d)
  else if String.eqb o "metrics" then Some (op_metrics w d, d)
  else if String.eqb o "reload" then Some (op_reload w d)
  else if String.eqb o "drain" then Some (op_drain d)
  else if String.eqb o "ping" then Some (op_ping req, d)
  else if String.eqb o "help" then Some (op_help, d)
  else if String.eqb o "shm-register" then op_shm_register d req
  else if String.eqb o "shm-unregister" then Some (op_shm_unregister d req)
  else if String.eqb o "lib-metrics" then Some ((op_lib_metrics w d).1, d)
  else Some (fail_with ("unknown op: " +:+ o +:+ " (try 'help')"), inc_counter d errors_total).

(** ** Connections *)

(** [buf.find('\n')]: the line and what follows it. *)
Fixpoint split_line (s : string) : option (string * string) :=
  match s with
  | "" => None
  | String c s =>
      if (c =? nl)%char then Some ("", s)
      else match split_line s with
           | Some (l, rest) => Some (String c l, rest)
           | None => None
           end
  end.

(** The answer to one line. *)
Definition serve_line (w : World) (d : Daemon) (line : string) : option (CtlResponse * Daemon) :=
  match decode_request line with
  | None => Some (fail_with "malformed request", inc_counter d errors_total)
  | Some req => dispatch w d req
  end.

(** How a turn of the loops of [drain_ctl_conn] ends. *)
Inductive outcome :=
  | Keep (d : Daemon) (buf : string) (out : list string)      (* no complete line left *)
  | Drop (d : Daemon) (out : list string)                     (* return false *)
  | Stuck.                                                    (* a list of results ran out *)

(** The inner loop: every complete line of the buffer is answered; [ws] are the
    results of the [write] calls, one list per response.  [out] are the
    responses written so far. *)
Fixpoint drain_lines (fuel : nat) (w : World) (d : Daemon) (buf : string)
    (ws : list (list writen)) (out : list string) : outcome * list (list writen) :=
  match fuel with
  | O => (Stuck, ws)
  | S fuel =>
      match split_line buf with
      | None => (Keep d buf out, ws)
      | Some (line, rest) =>
          match serve_line w d line with
          | None => (Stuck, ws)
          | Some (resp, d) =>
              match ws with
              | [] => (Stuck, ws)
              | r :: ws =>
                  match write_all (encode_response resp) r with
                  | None => (Stuck, ws)
                  | Some (false, sent) => (Drop d (out ++ [sent]), ws)
                  | Some (true, sent) => drain_lines fuel w d rest ws (out ++ [sent])
                  end
              end
          end
      end
  end.

(** Results of [read(fd, buf, 4096)]. *)
Inductive readn := RData (s : string) | REnd | RFail (e : errno).

Fixpoint drain_reads (w : World) (d : Daemon) (buf : string) (rs : list readn)
    (ws : list (list writen)) (out : list string) : outcome :=
  match rs with
  | [] => Stuck
  | RFail e :: rs =>
      if bool_decide (e = EAGAIN) then Keep d buf out
      else if bool_decide (e = EINTR) then drain_reads w d buf rs ws out
      else Drop d out
  | REnd :: _ => Drop d out
  | RData s :: rs =>
      let buf := buf +:+ s in
      if 2 ^ 20 <? Z.of_nat (String.length buf) then Drop d out
      else
        match drain_lines (S (String.length buf)) w d buf ws out with
        | (Keep d buf out, ws) => drain_reads w d buf rs ws out
        | (o, _) => o
        end
  end.

(** [drain_ctl_conn]: the result, the daemon with the connection's buffer
    stored back, and the responses written. *)
Definition drain_ctl_conn (w : World) (d : Daemon) (fd : Z) (rs : list readn)
    (ws : list (list writen)) : option (bool * Daemon * list string) :=
  match drain_reads w d (default "" (ctl_conns d !! fd)) rs ws [] with
  | Keep d buf out => Some (true, set_conns d (<[fd := buf]> (ctl_conns d)), out)
  | Drop d out => Some (false, d, out)
  | Stuck => None
  end.

Fixpoint erase_first (fd : Z) (polls : list Z) : list Z :=
  match polls with
  | [] => []
  | p :: polls => if p =? fd then polls else p :: erase_first fd polls
  end.

(** [close_ctl_conn]: the descriptor leaves the table and the poll set. *)
Definition close_ctl_conn (d : Daemon) (fd : Z) (polls : list Z) : Daemon * list Z :=
  (publish_active (set_conns d (delete fd (ctl_conns d))), erase_first fd polls).

(** ** The event loop *)

(** The accept loop, on the results of [accept4]; for a client turned away
    while draining, with the results of the [write] calls of the reply.  The
    daemon, the poll set, and the descriptors closed. *)
Inductive accept_r := AFd (c : Z) (ws : list writen) | AFail (e : errno).

Fixpoint accept_loop (d : Daemon) (polls : list Z) (closed : list Z) (rs : list accept_r)
    : option (Daemon * list Z * list Z) :=
  match rs with
  | [] => None
  | AFail e :: rs =>
      if bool_decide (e = EINTR) then accept_loop d polls closed rs else Some (d, polls, closed)
  | AFd c ws :: rs =>
      if draining d then
        match write_all (encode_response (fail_with "draining")) ws with
        | None => None
        | Some _ => accept_loop d polls (closed ++ [c]) rs
        end
      else accept_loop (publish_active (set_conns d (<[c := ""]> (ctl_conns d)))) (polls ++ [c]) closed rs
  end.

Inductive signo := SIGTERM | SIGINT | SIGHUP | SIGPIPE.

(** The signals read from the signalfd. *)
Fixpoint signal_loop (w : World) (d : Daemon) (running : bool) (sigs : list signo) : Daemon * bool :=
  match sigs with
  | [] => (d, running)
  | SIGTERM :: sigs | SIGINT :: sigs => signal_loop w d false sigs
  | SIGHUP :: sigs => signal_loop w (op_reload w d).2 running sigs
  | SIGPIPE :: sigs => signal_loop w d running sigs
  end.

(** One entry of the poll set with something to report. *)
Inductive event :=
  | EvAccept (rs : list accept_r)
  | EvSignal (sigs : list signo)
  | EvConn (fd : Z) (rs : list readn) (ws : list (list writen)).

Definition handle_event (w : World) (d : Daemon) (polls : list Z) (running : bool) (e : event)
    : option (Daemon * list Z * bool) :=
  match e with
  | EvAccept rs =>
      match accept_loop d polls [] rs with
      | Some (d, polls, _) => Some (d, polls, running)
      | None => None
      end
  | EvSignal sigs => let '(d, running) := signal_loop w d running sigs in Some (d, polls, running)
  | EvConn fd rs ws =>
      match drain_ctl_conn w d fd rs ws with
      | None => None
      | Some (true, d, _) => Some (d, polls, running)
      | Some (false, d, _) =>
          let '(d, polls) := close_ctl_conn d fd polls in Some (d, polls, running)
      end
  end.

(** ** Command line and start-up *)

Record Args := mkArgs {
  config_path : string; control_socket : string; pid_file : string; log_file : string;
  log_level : string; show_help : bool }.

(** [parse_args]; [inl] is the exit status. *)
Fixpoint parse_args (argv : list string) (a : Args) : Z + Args :=
  match argv with
  | [] => inr a
  | s :: rest =>
      if String.eqb s "--help" || String.eqb s "-h" then
        parse_args rest (mkArgs (config_path a) (control_socket a) (pid_file a) (log_file a) (log_level a) true)
      else if String.eqb s "--config" || String.eqb s "--control-socket" || String.eqb s "--pid-file"
              || String.eqb s "--log-file" || String.eqb s "--log-level" then
        match rest with
        | [] => inl 2
        | v :: rest =>
            parse_args rest
              (if String.eqb s "--config" then mkArgs v (control_socket a) (pid_file a) (log_file a) (log_level a) (show_help a)
               else if String.eqb s "--control-socket" then mkArgs (config_path a) v (pid_file a) (log_file a) (log_level a) (show_help a)
               else if String.eqb s "--pid-file" then mkArgs (config_path a) (control_socket a) v (log_file a) (log_level a) (show_help a)
               else if String.eqb s "--log-file" then mkArgs (config_path a) (control_socket a) (pid_file a) v (log_level a) (show_help a)
               else mkArgs (config_path a) (control_socket a) (pid_file a) (log_file a) v (show_help a))
        end
      else inl 2
  end.

Definition no_args : Args := mkArgs "" "" "" "" "" false.

(** [a] unless it is empty. *)
Definition prefer (a b : string) : string := if String.eqb a "" then b else a.

Definition empty_registry : Registry.MetricsRegistry := Registry.mkMR ∅ ∅ ∅.

Definition core_metrics : Registry.MetricsRegistry :=
  Registry.gauge
    (Registry.counter
       (Registry.counter empty_registry requests_total "control-plane requests received" [])
       errors_total "control-plane requests that returned ok=false" [])
    connections_gauge "currently-open ctl connections" [].

(** The daemon [main] sets up before it opens the control socket. *)
Definition start_daemon (w : World) (a : Args) (rng : list Z) (lg : Log.Logger) : Daemon :=
  let env := fun n => if String.eqb n "SOCKSDIRECT_CONFIG" && negb (String.eqb (config_path a) "")
                      then Some (config_path a) else getenv w n in
  let cfg := Config.load_default env (open_file w) in
  let level := Log.parse_level
    (Some (prefer (log_level a) (Config.get_string env cfg "monitor" "log_level" "info"))) Log.kLogInfo in
  let lg := Log.set_level lg level in
  let sink := prefer (log_file a) (Config.get_string env cfg "monitor" "log_file" "") in
  let lg := if String.eqb sink "" then lg else (Log.set_sink_file lg sink (fopen_r w)).2 in
  mkDaemon cfg
    (prefer (control_socket a)
       (Config.get_string env cfg "monitor" "control_socket" kMonitorCtlSocketDefault))
    (prefer (pid_file a) (Config.get_string env cfg "monitor" "pid_file" ""))
    false ∅ (mkReg ∅ rng) core_metrics lg.

(** ** What a connection's bytes mean *)

(** The reference reading of a stream of bytes: every complete line is answered
    in order, the rest waits. *)
Fixpoint feed_loop (fuel : nat) (w : World) (d : Daemon) (buf : string)
    : option (list CtlResponse * Daemon * string) :=
  match fuel with
  | O => None
  | S fuel =>
      match split_line buf with
      | None => Some ([], d, buf)
      | Some (line, rest) =>
          match serve_line w d line with
          | None => None
          | Some (resp, d) =>
              match feed_loop fuel w d rest with
              | Some (rs, d, rest) => Some (resp :: rs, d, rest)
              | None => None
              end
          end
      end
  end.
Definition feed (w : World) (d : Daemon) (buf : string) : option (list CtlResponse * Daemon * string) :=
  feed_loop (S (String.length buf)) w d buf.

Fixpoint count_nl (s : string) : nat :=
  match s with "" => 0 | String c s => (if (c =? nl)%char then 1 else 0) + count_nl s end.

(** ** Lemmas *)

Lemma split_line_length s l r :
  split_line s = Some (l, r) -> (String.length r < String.length s)%nat.
Proof.
  revert l r. induction s as [|c s IH]; intros l r; simpl; [done|].
  destruct (c =? nl)%char; [intros [=]; subst; lia|].
  destruct (split_line s) as [[l' r']|]; [|done]. intros [=]; subst. specialize (IH l' r eq_refl). lia.
Qed.

Lemma split_line_app a b l r :
  split_line a = Some (l, r) -> split_line (a +:+ b) = Some (l, r +:+ b).
Proof.
  revert l r. induction a as [|c a IH]; intros l r; [done|]. rewrite sapp_cons. simpl.
  destruct (c =? nl)%char; [by intros [=]; subst|].
  destruct (split_line a) as [[l' r']|]; [|done]. intros [=]; subst. by rewrite (IH l' r).
Qed.

Lemma split_line_count s :
  match split_line s with
  | Some (_, r) => count_nl s = S (count_nl r)
  | None => count_nl s = 0%nat
  end.
Proof.
  induction s as [|c s IH]; simpl; [done|]. destruct (c =? nl)%char; [done|].
  by destruct (split_line s) as [[]|].
Qed.

Lemma feed_loop_fuel f f' w d buf :
  (String.length buf < f)%nat -> (String.length buf < f')%nat ->
  feed_loop f w d buf = feed_loop f' w d buf.
Proof.
  revert f' d buf. induction f as [|f IH]; intros [|f'] d buf Hf Hf'; try lia. cbn [feed_loop].
  destruct (split_line buf) as [[l r]|] eqn:E; [|done]. apply split_line_length in E.
  destruct (serve_line w d l) as [[resp d']|]; [|done]. by rewrite (IH f' d' r) by lia.
Qed.

Lemma feed_step w d buf :
  feed w d buf = match split_line buf with
                 | None => Some ([], d, buf)
                 | Some (line, rest) =>
                     match serve_line w d line with
                     | None => None
                     | Some (resp, d) =>
                         match feed w d rest with
                         | Some (rs, d, rest) => Some (resp :: rs, d, rest)
                         | None => None
                         end
                     end
                 end.
Proof.
  unfold feed at 1. cbn [feed_loop]. destruct (split_line buf) as [[l r]|] eqn:E; [|done].
  apply split_line_length in E. destruct (serve_line w d l) as [[resp d']|]; [|done].
  unfold feed. by rewrite (feed_loop_fuel (String.length buf) (S (String.length r))) by lia.
Qed.

(** Induction on the lines of a buffer. *)
Lemma lines_ind (P : string -> Prop) :
  (forall s, split_line s = None -> P s) ->
  (forall s l r, split_line s = Some (l, r) -> P r -> P s) -> forall s, P s.
Proof.
  intros H0 H1. enough (H : forall n s, (String.length s < n)%nat -> P s) by eauto.
  induction n as [|n IH]; intros s Hs; [lia|]. destruct (split_line s) as [[l r]|] eqn:E; [|by apply H0].
  apply (H1 s l r E), IH. apply split_line_length in E. lia.
Qed.

Lemma feed_app w d a b :
  feed w d (a +:+ b) = match feed w d a with
                       | Some (r1, d1, rest) =>
                           match feed w d1 (rest +:+ b) with
                           | Some (r2, d2, rest2) => Some (r1 ++ r2, d2, rest2)
                           | None => None
                           end
                       | None => None
                       end.
Proof.
  revert d. induction a as [a E|a l r E IH] using lines_ind; intros d.
  - rewrite (feed_step w d a), E. by destruct (feed w d (a +:+ b)) as [[[]]|].
  - rewrite (feed_step w d (a +:+ b)), (feed_step w d a), E, (split_line_app _ _ _ _ E).
    destruct (serve_line w d l) as [[resp d']|]; [|done]. rewrite IH.
    destruct (feed w d' r) as [[[r1 d1] rest]|]; [|done].
    by destruct (feed w d1 (rest +:+ b)) as [[[r2 d2] rest2]|].
Qed.

Lemma feed_count w d buf rs d' rest :
  feed w d buf = Some (rs, d', rest) -> length rs = count_nl buf /\ split_line rest = None.
Proof.
  revert d rs. induction buf as [buf E|buf l r E IH] using lines_ind; intros d rs Hf;
    rewrite feed_step, E in Hf; pose proof (split_line_count buf) as Hc; rewrite E in Hc.
  - simplify_eq. by rewrite Hc.
  - destruct (serve_line w d l) as [[resp d1]|]; [|done].
    destruct (feed w d1 r) as [[[r1 d2] rest']|] eqn:Ef; [|done]. simplify_eq.
    destruct (IH d1 r1 Ef) as [Hl ?]. simpl. by rewrite Hl, Hc.
Qed.

(** The write results under which a response goes out whole. *)
Definition written (r : CtlResponse) (ws : list writen) : Prop :=
  write_all (encode_response r) ws = Some (true, encode_response r).

Lemma drain_lines_feed fuel w d buf ws ws' out rs d' rest :
  (String.length buf < fuel)%nat -> feed w d buf = Some (rs, d', rest) -> Forall2 written rs ws ->
  drain_lines fuel w d buf (ws ++ ws') out = (Keep d' rest (out ++ (encode_response <$> rs)), ws').
Proof.
  revert d buf ws out rs. induction fuel as [|fuel IH]; intros d buf ws out rs Hf Hfeed Hw; [lia|].
  rewrite feed_step in Hfeed. cbn [drain_lines].
  destruct (split_line buf) as [[l r]|] eqn:E.
  - apply split_line_length in E. destruct (serve_line w d l) as [[resp d1]|]; [|done].
    destruct (feed w d1 r) as [[[r1 d2] rest']|] eqn:Ef; [|done]. simplify_eq.
    apply Forall2_cons_inv_l in Hw as (x & ws1 & Hx & Hw & ->). cbn [app]. rewrite Hx.
    rewrite (IH d1 r ws1 _ r1) by (done || lia). by rewrite <- app_assoc.
  - simplify_eq. apply Forall2_nil_inv_l in Hw as ->. by rewrite app_nil_r.
Qed.

Lemma drain_reads_feed w d buf chunks ws ws' out rs d' rest :
  feed w d (buf +:+ Registry.concat_map id chunks) = Some (rs, d', rest) ->
  split_line buf = None ->
  Z.of_nat (String.length (buf +:+ Registry.concat_map id chunks)) <= 2 ^ 20 ->
  Forall2 written rs ws ->
  drain_reads w d buf ((RData <$> chunks) ++ [RFail EAGAIN]) (ws ++ ws') out
  = Keep d' rest (out ++ (encode_response <$> rs)).
Proof.
  revert d buf ws out rs. induction chunks as [|c chunks IH]; intros d buf ws out rs Hf Hb Hlen Hw.
  - cbn [Registry.concat_map foldr] in Hf. rewrite sapp_nil_r, feed_step, Hb in Hf. simplify_eq/=.
    by rewrite app_nil_r.
  - change (Registry.concat_map id (c :: chunks)) with (c +:+ Registry.concat_map id chunks) in Hf, Hlen.
    rewrite <- sapp_assoc, feed_app in Hf.
    destruct (feed w d (buf +:+ c)) as [[[r1 d1] rest1]|] eqn:E1; [|done].
    destruct (feed w d1 (rest1 +:+ _)) as [[[r2 d2] rest2]|] eqn:E2; [|done]. simplify_eq.
    apply Forall2_app_inv_l in Hw as (w1 & w2 & Hw1 & Hw2 & ->).
    assert (Hlen2 : Z.of_nat (String.length (rest1 +:+ Registry.concat_map id chunks)) <= 2 ^ 20).
    { assert (Hr : forall b, feed w d b = Some (r1, d1, rest1) -> (String.length rest1 <= String.length b)%nat).
      { clear. intros b. revert d r1. induction b as [b E|b l r E IH] using lines_ind; intros d r1 Hb;
          rewrite feed_step, E in Hb; [by simplify_eq|]. apply split_line_length in E.
        destruct (serve_line w d l) as [[? d0]|]; [|done].
        destruct (feed w d0 r) as [[[? ?] ?]|] eqn:Ef; [|done]. simplify_eq.
        specialize (IH _ _ Ef). lia. }
      specialize (Hr _ E1). rewrite <- sapp_assoc, sapp_length in Hlen. rewrite sapp_length. lia. }
    cbn [fmap list_fmap app drain_reads].
    rewrite <- sapp_assoc, sapp_length in Hlen.
    destruct (Z.ltb_spec (2 ^ 20) (Z.of_nat (String.length (buf +:+ c)))); [lia|].
    rewrite <- app_assoc, (drain_lines_feed _ w d (buf +:+ c) w1 (w2 ++ ws') out r1 d1 rest1) by (done || lia).
    destruct (feed_count _ _ _ _ _ _ E1) as [_ Hr1].
    rewrite (IH d1 rest1 w2 _ r2) by done. by rewrite fmap_app, app_assoc.
Qed.

(** ** Theorems *)

(** C24: how the bytes of a client arrive does not matter: as long as what is
    buffered stays within the 1 MiB cap and the responses can be written, the
    connection's loop answers every complete line once, in order, with the
    responses of the reference reading of the concatenated bytes, and keeps
    the incomplete rest. *)
Theorem drain_chunking w d fd chunks ws rs d' rest :
  let buf := default "" (ctl_conns d !! fd) in
  split_line buf = None ->
  Z.of_nat (String.length (buf +:+ Registry.concat_map id chunks)) <= 2 ^ 20 ->
  feed w d (buf +:+ Registry.concat_map id chunks) = Some (rs, d', rest) ->
  Forall2 written rs ws ->
  drain_ctl_conn w d fd ((RData <$> chunks) ++ [RFail EAGAIN]) ws
  = Some (true, set_conns d' (<[fd := rest]> (ctl_conns d')), encode_response <$> rs)
  /\ length rs = count_nl (buf +:+ Registry.concat_map id chunks) /\ split_line rest = None.
Proof.
  simpl. intros Hb Hlen Hf Hw. destruct (feed_count _ _ _ _ _ _ Hf) as [Hn Hr].
  split_and!; [|done|done]. unfold drain_ctl_conn.
  rewrite <- (app_nil_r ws). by rewrite (drain_reads_feed w d _ chunks ws [] [] rs d' rest).
Qed.

(** A small world and daemon for the witnesses. *)
Definition demo_world : World :=
  mkWorld 5 77 (fun _ => None) (fun _ => None) None (fun _ => None) (fun _ => "0") (fun _ => "0").
Definition demo_daemon : Daemon :=
  set_conns (start_daemon demo_world no_args [7; 9] Log.new_logger) {[4 := ""]}.

Definition ping : CtlRequest := mkReq "ping" [].

Lemma drain_chunking_witness :
  drain_ctl_conn demo_world demo_daemon 4
    ((RData <$> [str_take 3 (encode_request ping); str_drop 3 (encode_request ping)]) ++ [RFail EAGAIN])
    [[WOk 5; WOk 100]]
  = Some (true, set_conns (inc_counter demo_daemon requests_total)
                  (<[4 := ""]> (ctl_conns (inc_counter demo_daemon requests_total))),
          [encode_response (ok_lines ["pong"])])
  /\ 1%nat = count_nl (encode_request ping) /\ split_line "" = None.
Proof.
  apply (drain_chunking demo_world demo_daemon 4
    [str_take 3 (encode_request ping); str_drop 3 (encode_request ping)] [[WOk 5; WOk 100]]
    [ok_lines ["pong"]] (inc_counter demo_daemon requests_total) "").
  - reflexivity.
  - vm_compute. discriminate.
  - vm_compute. reflexivity.
  - constructor; [vm_compute; reflexivity|constructor].
Defined.

(** *** The tables of the event loop agree *)

(** What serving a request leaves alone. *)
Definition same_conns (d d' : Daemon) : Prop :=
  ctl_conns d' = ctl_conns d /\ Registry.gauges_ (metrics d') = Registry.gauges_ (metrics d).

Lemma dispatch_conns w d req resp d' : dispatch w d req = Some (resp, d') -> same_conns d d'.
Proof.
  unfold dispatch. intros H.
  repeat match type of H with (if ?b then _ else _) = _ => destruct b end;
    simplify_eq; try (by split).
  - unfold op_reload in H. simplify_eq. by split.
  - unfold op_drain in H. simplify_eq. by split.
  - unfold op_shm_register in H. repeat case_match; simplify_eq; by split.
  - unfold op_shm_unregister in H. repeat case_match; simplify_eq; by split.
Qed.

Lemma serve_line_conns w d line resp d' : serve_line w d line = Some (resp, d') -> same_conns d d'.
Proof.
  unfold serve_line. destruct (decode_request line); [apply dispatch_conns|]. by intros [= <- <-].
Qed.

Lemma same_conns_trans d1 d2 d3 : same_conns d1 d2 -> same_conns d2 d3 -> same_conns d1 d3.
Proof. unfold same_conns. intros [-> ->] [-> ->]. done. Qed.

Definition outcome_daemon (o : outcome) : option Daemon :=
  match o with Keep d _ _ | Drop d _ => Some d | Stuck => None end.

Lemma drain_lines_conns fuel w d buf ws out d' :
  outcome_daemon (drain_lines fuel w d buf ws out).1 = Some d' -> same_conns d d'.
Proof.
  revert d buf ws out. induction fuel as [|fuel IH]; intros d buf ws out H; [done|].
  cbn [drain_lines] in H. destruct (split_line buf) as [[l r]|]; [|by simplify_eq/=].
  destruct (serve_line w d l) as [[resp d1]|] eqn:Es; [|done]. apply serve_line_conns in Es.
  destruct ws as [|x ws]; [done|]. destruct (write_all _ x) as [[[] sent]|]; [|by simplify_eq/=|done].
  eapply same_conns_trans; [done|]. by eapply IH.
Qed.

Lemma drain_reads_conns w d buf rs ws out d' :
  outcome_daemon (drain_reads w d buf rs ws out) = Some d' -> same_conns d d'.
Proof.
  revert d buf ws out. induction rs as [|r rs IH]; intros d buf ws out H; [done|]. cbn [drain_reads] in H.
  destruct r as [s| |e].
  - destruct (_ <? _); [by simplify_eq/=|].
    pose proof (drain_lines_conns (S (String.length (buf +:+ s))) w d (buf +:+ s) ws out) as Hl.
    destruct (drain_lines _ _ _ _ _ _) as [[d1 b1 o1|d1 o1|] ws1]; simpl in Hl.
    + eapply same_conns_trans; [by apply Hl|]. by eapply IH.
    + simplify_eq/=. by apply Hl.
    + done.
  - by simplify_eq/=.
  - case_bool_decide; [by simplify_eq/=|]. case_bool_decide; [by eapply IH|by simplify_eq/=].
Qed.

Definition gauge_value (d : Daemon) : option double :=
  Registry.cell (Registry.gauges_ (metrics d)) connections_gauge [].

(** The poll set is the two permanent descriptors and the open connections,
    and the gauge shows their number. *)
Record loop_inv (ctl sig : Z) (d : Daemon) (polls : list Z) : Prop := {
  li_polls : exists cs, polls = ctl :: sig :: cs
                        /\ forall fd, fd ∈ cs <-> is_Some (ctl_conns d !! fd);
  li_nodup : NoDup polls;
  li_gauge : gauge_value d = Some (double_of_Z (Z.of_nat (size (ctl_conns d)))) }.

Lemma publish_gauge d c x :
  gauge_value d = Some x ->
  gauge_value (publish_active (set_conns d c)) = Some (double_of_Z (Z.of_nat (size c))).
Proof.
  unfold gauge_value, publish_active, Registry.cell; simpl. rewrite lookup_alter_eq.
  destruct (Registry.gauges_ (metrics d) !! connections_gauge) as [e|]; [|done]. simpl.
  rewrite lookup_alter_eq. by intros ->.
Qed.

Definition accepted (rs : list accept_r) : list Z :=
  concat ((fun r => match r with AFd c _ => [c] | AFail _ => [] end) <$> rs).

Lemma accept_loop_inv ctl sig d polls closed rs d' polls' closed' :
  loop_inv ctl sig d polls -> NoDup (polls ++ accepted rs) ->
  accept_loop d polls closed rs = Some (d', polls', closed') -> loop_inv ctl sig d' polls'.
Proof.
  revert d polls closed. induction rs as [|r rs IH]; intros d polls closed Hinv Hnd H; [done|].
  destruct r as [c ws|e]; cbn [accept_loop] in H.
  - assert (Hnd' : NoDup ((polls ++ [c]) ++ accepted rs)) by (by rewrite <- app_assoc).
    destruct (draining d).
    + destruct (write_all _ ws); [|done]. eapply (IH d); [done| |done].
      apply NoDup_app in Hnd as (H1 & H2 & H3). apply NoDup_app. split_and!; [done| |].
      * intros x Hx Hx'. apply (H2 x Hx). simpl. by apply elem_of_cons; right.
      * by apply NoDup_cons in H3 as [_ H3].
    + eapply IH; [|exact Hnd'|done]. destruct Hinv as [(cs & -> & Hcs) Hn Hg]. split.
      * exists (cs ++ [c]). split; [done|]. intros fd. simpl. rewrite elem_of_app, list_elem_of_singleton, Hcs.
        destruct (decide (c = fd)) as [->|Hne]; [rewrite lookup_insert_eq; split; eauto|].
        rewrite lookup_insert_ne by done. split; [by intros [?|<-]|by left].
      * by apply NoDup_app in Hnd' as (? & _).
      * eapply publish_gauge. exact Hg.
  - case_bool_decide; [by eapply IH|]. by simplify_eq.
Qed.

Lemma signal_loop_conns w d running sigs : same_conns d (signal_loop w d running sigs).1.
Proof.
  revert d running. induction sigs as [|s sigs IH]; intros d running; [done|].
  destruct s; cbn [signal_loop]; try apply IH. eapply same_conns_trans; [|apply IH]. done.
Qed.

Lemma erase_first_elem fd polls x :
  NoDup polls -> (x ∈ erase_first fd polls <-> x ∈ polls /\ x <> fd).
Proof.
  induction polls as [|p polls IH]; simpl; intros Hnd; [split; [by intros ?%not_elem_of_nil|by intros [?%not_elem_of_nil _]]|].
  apply NoDup_cons in Hnd as [Hp Hnd]. destruct (Z.eqb_spec p fd) as [->|Hne].
  - rewrite elem_of_cons. split; [|naive_solver]. intros Hx. split; [by right|]. by intros ->.
  - rewrite !elem_of_cons, IH by done. split; [|naive_solver]. intros [->|[? ?]]; [by split; [left|]|by split; [right|]].
Qed.

Lemma erase_first_nodup fd polls : NoDup polls -> NoDup (erase_first fd polls).
Proof.
  induction polls as [|p polls IH]; simpl; [done|]. intros [Hp Hnd]%NoDup_cons.
  destruct (p =? fd); [done|]. apply NoDup_cons. split; [|by apply IH].
  rewrite erase_first_elem by done. tauto.
Qed.

(** What the kernel promises about an event: an accepted descriptor is not one
    in use, and only descriptors of the poll set are reported. *)
Definition event_ok (ctl sig : Z) (polls : list Z) (e : event) : Prop :=
  match e with
  | EvAccept rs => NoDup (polls ++ accepted rs)
  | EvSignal _ => True
  | EvConn fd _ _ => fd ∈ polls /\ fd <> ctl /\ fd <> sig
  end.

(** Through every event the poll set stays exactly the control socket, the
    signal descriptor and the open control connections, without repetition, and
    the connection gauge shows their number. *)
Theorem event_loop_consistent w ctl sig d polls running e d' polls' running' :
  loop_inv ctl sig d polls -> event_ok ctl sig polls e ->
  handle_event w d polls running e = Some (d', polls', running') -> loop_inv ctl sig d' polls'.
Proof.
  intros Hinv Hok H. destruct e as [rs|sigs|fd rs ws]; cbn [handle_event] in H.
  - destruct (accept_loop d polls [] rs) as [[[d1 p1] c1]|] eqn:E; simplify_eq. by eapply accept_loop_inv.
  - pose proof (signal_loop_conns w d running sigs) as [Hc Hg].
    destruct (signal_loop w d running sigs) as [d1 r1]; simplify_eq/=.
    destruct Hinv as [Hp Hn Hgv]. split; unfold gauge_value in *; rewrite ?Hc, ?Hg; done.
  - destruct Hok as (Hin & Hctl & Hsig). unfold drain_ctl_conn in H.
    pose proof (drain_reads_conns w d (default "" (ctl_conns d !! fd)) rs ws []) as Hd.
    destruct Hinv as [(cs & -> & Hcs) Hn Hgv].
    assert (Hfd : is_Some (ctl_conns d !! fd)) by (apply Hcs; rewrite !elem_of_cons in Hin; tauto).
    destruct (drain_reads _ _ _ _ _ _) as [d1 b1 o1|d1 o1|]; [| |done];
      destruct (Hd d1 eq_refl) as [Hc Hg]; simplify_eq/=; split.
    + exists cs. split; [done|]. intros x. simpl. rewrite Hc, Hcs.
      destruct (decide (fd = x)) as [->|]; [by rewrite lookup_insert_eq; split; eauto|by rewrite lookup_insert_ne].
    + done.
    + unfold gauge_value in *; simpl. rewrite Hg, Hgv, Hc. do 3 f_equal.
      by rewrite map_size_insert_Some.
    + exists (erase_first fd cs). split.
      { destruct (Z.eqb_spec ctl fd); [done|]. destruct (Z.eqb_spec sig fd); done. }
      intros x. apply NoDup_cons in Hn as [_ Hn]. apply NoDup_cons in Hn as [_ Hn].
      rewrite erase_first_elem, Hcs by done. simpl. rewrite Hc, lookup_delete_is_Some. naive_solver.
    + by apply (erase_first_nodup fd (ctl :: sig :: cs)).
    + eapply publish_gauge. unfold gauge_value. by rewrite Hg.
Qed.

Definition demo_hangup : event := EvConn 4 [RData (encode_request ping); REnd] [[WOk 100]].

Lemma event_loop_consistent_witness :
  loop_inv 1 2
    (close_ctl_conn (inc_counter (publish_active demo_daemon) requests_total) 4 [1; 2; 4]).1 [1; 2].
Proof.
  apply (event_loop_consistent demo_world 1 2 (publish_active demo_daemon) [1; 2; 4] true demo_hangup
    _ [1; 2] true).
  - split.
    + exists [4]. split; [reflexivity|]. intros fd. rewrite list_elem_of_singleton.
      change (ctl_conns (publish_active demo_daemon)) with ({[4 := ""]} : gmap Z string).
      rewrite lookup_singleton_is_Some. split; intros; symmetry; assumption.
    + apply (bool_decide_unpack _). vm_compute. exact I.
    + vm_compute. reflexivity.
  - split; [apply (bool_decide_unpack _); vm_compute; exact I|lia].
  - vm_compute. reflexivity.
Defined.

(** A draining daemon admits nobody: every client it accepts is answered
    and closed, and neither the connections nor the poll set change. *)
Theorem draining_refuses d polls rs d' polls' closed :
  draining d = true -> accept_loop d polls [] rs = Some (d', polls', closed) ->
  d' = d /\ polls' = polls /\ exists rest, accepted rs = closed ++ rest.
Proof.
  intros Hd. assert (H : forall acc, accept_loop d polls acc rs = Some (d', polls', closed) ->
    d' = d /\ polls' = polls /\ exists rest, acc ++ accepted rs = closed ++ rest).
  { induction rs as [|r rs IH]; intros acc H; [done|]. destruct r as [c ws|e]; cbn [accept_loop] in H.
    - rewrite Hd in H. destruct (write_all _ ws); [|done]. apply IH in H as (-> & -> & rest & Hr).
      split_and!; [done|done|]. exists rest. rewrite <- Hr. simpl. by rewrite <- app_assoc.
    - case_bool_decide; [by apply IH|]. simplify_eq. split_and!; [done|done|]. by eexists. }
  intros Ha. by apply (H []).
Qed.

Lemma draining_refuses_witness :
  op_drain demo_daemon = (ok_lines ["draining"], set_draining demo_daemon)
  /\ exists rest, accepted [AFd 5 [WOk 100]; AFail EINTR; AFd 5 [WErr EPIPE]; AFail EAGAIN] = [5; 5] ++ rest.
Proof.
  split; [reflexivity|].
  apply (draining_refuses (set_draining demo_daemon) [1; 2]
    [AFd 5 [WOk 100]; AFail EINTR; AFd 5 [WErr EPIPE]; AFail EAGAIN] (set_draining demo_daemon) [1; 2]).
  - reflexivity.
  - vm_compute. reflexivity.
Defined.

End Monitor.
