(* ===== verification/ShmConn.v ===== *)
(** * Accelerated connections in the preload library

    [src/lib/shm_conn.cpp] and [shm_conn.hpp]: how libsd names the endpoints of
    a connection, asks the monitor for a key, attaches the segment, keeps the
    table of accelerated descriptors, and how the watchdog ends the streams of
    dead peers.  The last part puts the client, the codec and the daemon
    together. *)

From Stdlib Require Import ZArith Lia Ascii.
From stdpp Require Import strings gmap numbers base list.
From S2P Require Import Prelude Text ShmRing MonitorIpc ShmHandshake Config Log Metrics ShmSegment Monitor.

Module ShmConn.
Import Text Ipc.
Import (hints) Handshake.

(** ** Endpoints *)

(** A [sockaddr]: an IPv4 address as the four bytes of [sin_addr] and the two
    of [sin_port] (network order), or another family. *)
Inductive sockaddr := SaInet (b0 b1 b2 b3 : Z) (port_hi port_lo : Z) | SaOther.

Definition ntohs (hi lo : Z) : Z := 256 * hi + lo.

(** [inet_ntop(AF_INET, ...)]. *)
Definition inet_ntop (b0 b1 b2 b3 : Z) : string :=
  dec_u b0 +:+ "." +:+ dec_u b1 +:+ "." +:+ dec_u b2 +:+ "." +:+ dec_u b3.

Definition format_endpoint (sa : option sockaddr) : string :=
  match sa with
  | None | Some SaOther => ""
  | Some (SaInet b0 b1 b2 b3 hi lo) => inet_ntop b0 b1 b2 b3 +:+ ":" +:+ dec_u (ntohs hi lo)
  end.

Definition canonical (x y : string) : string * string := if String.ltb x y then (x, y) else (y, x).

(** ** Asking the monitor *)

(** What the kernel answers to the calls of one exchange with the monitor. *)
Record ctl_io := mkIo {
  socket_r : Z + errno; connect_r : option errno;
  write_rs : list writen; read_rs : list read1 }.

Definition register_request (local_ep peer_ep : string) (pid : Z) : CtlRequest :=
  let '(a, b) := canonical local_ep peer_ep in mkReq "shm-register" [a; b; dec_d pid].

(** The loop over [resp.lines]: [key], [is_creator], [got_key], [got_role]. *)
Fixpoint scan_lines (ls : list string) (key : Z) (is_creator got_key got_role : bool)
    : Z * bool * bool * bool :=
  match ls with
  | [] => (key, is_creator, got_key, got_role)
  | l :: ls =>
      if starts_with "shm_key=" l then scan_lines ls (strtoull (str_skip 8 l)) is_creator true got_role
      else if String.eqb l "role=creator" then scan_lines ls key true got_key true
      else if String.eqb l "role=joiner" then scan_lines ls key false got_key true
      else scan_lines ls key is_creator got_key got_role
  end.

(** What the answer [line] means to the client. *)
Definition read_answer (line : string) : option (Z * bool) :=
  match decode_response line with
  | None => None
  | Some resp =>
      if negb (ok resp) then None
      else
        let '(key, is_creator, got_key, got_role) := scan_lines (lines resp) 0 false false false in
        if negb got_key || negb got_role || (key =? 0) then None else Some (key, is_creator)
  end.

(** [request_key_from_monitor]: the key and the role ([None] for the result
    -1), and the calls on the socket; [None] when a call is still blocked. *)
Definition request_key_from_monitor (getenv : string -> option string) (config : Config.values)
    (local_ep peer_ep : string) (pid : Z) (io : ctl_io)
    : option (option (Z * bool) * list unix_call) :=
  let sock := Config.get_string getenv config "monitor" "control_socket" kMonitorCtlSocketDefault in
  let '(r, calls) := connect_unix sock (socket_r io) (connect_r io) in
  match r with
  | inr _ => Some (None, calls)
  | inl fd =>
      match write_all (encode_request (register_request local_ep peer_ep pid)) (write_rs io) with
      | None => None
      | Some (false, _) => Some (None, calls ++ [UClose fd])
      | Some (true, _) =>
          match read_line (read_rs io) with
          | None => None
          | Some (line, _, _) => Some (read_answer line, calls ++ [UClose fd])
          end
      end
  end.

(** ** Attaching *)

Definition is_loopback (ep : string) : bool :=
  starts_with "127.0.0.1:" ep || starts_with "127.0.0.0:" ep.

(** A [ShmConn]; the segment is the view of this side. *)
Record Segment := mkSeg {
  is_open : bool; seg_role : Layout.Role; peer_pid : Z;
  ring_in : Ring.ShmRing; ring_out : Ring.ShmRing; wake_in : Z; wake_out : Z }.

Record Conn := mkShmConn {
  segment : Segment; key : Z; nonblocking : bool; real_fd : Z; sent_eof : bool;
  bytes_sent : Z; bytes_recv : Z; ring_full_blocks : Z; ring_empty_blocks : Z; notify_fd : Z }.

(** Why a connection stays on TCP. *)
Inductive fallback := NotLoopback | NoKey | NoSegment | NoPeer.

(** [try_attach]; [seg_open key role] is the segment [segment.open] maps, if it
    succeeds, and [peer_came] the result of [wait_for_peer(200)]. *)
Definition try_attach (getenv : string -> option string) (config : Config.values)
    (local_ep peer_ep : string) (real_fd pid : Z) (io : ctl_io)
    (seg_open : Z -> Layout.Role -> option Segment) (peer_came : bool) : option (Conn + fallback) :=
  if negb (is_loopback local_ep) || negb (is_loopback peer_ep) then Some (inr NotLoopback)
  else
    match request_key_from_monitor getenv config local_ep peer_ep pid io with
    | None => None
    | Some (None, _) => Some (inr NoKey)
    | Some (Some (key, is_creator), _) =>
        match seg_open key (if is_creator then Layout.kRoleCreator else Layout.kRoleJoiner) with
        | None => Some (inr NoSegment)
        | Some seg =>
            if peer_came then Some (inl (mkShmConn seg key false real_fd false 0 0 0 0 (-1)))
            else Some (inr NoPeer)
        end
    end.

(** ** The table of accelerated descriptors

    Connections are shared: the table holds references into a store. *)
Record ConnRegistry := mkConns { by_fd_ : gmap Z nat; store : gmap nat Conn }.

Definition install (reg : ConnRegistry) (fd : Z) (c : nat) : ConnRegistry :=
  mkConns (<[fd := c]> (by_fd_ reg)) (store reg).
Definition lookup (reg : ConnRegistry) (fd : Z) : option nat := by_fd_ reg !! fd.
Definition snapshot (reg : ConnRegistry) : list nat := (map_to_list (by_fd_ reg)).*2.
Definition remove (reg : ConnRegistry) (fd : Z) : option nat * ConnRegistry :=
  (by_fd_ reg !! fd, mkConns (delete fd (by_fd_ reg)) (store reg)).
Definition conns_size (reg : ConnRegistry) : Z := Z.of_nat (size (by_fd_ reg)).

(** ** The watchdog *)

(** [kill(pid, 0)]. *)
Inductive kill_r := Alive | KillFailed (e : errno).

Definition gone (r : kill_r) : bool :=
  match r with Alive => false | KillFailed e => negb (bool_decide (e = EPERM)) end.

(** Ending the inbound stream of one connection. *)
Definition end_inbound (c : Conn) : Conn :=
  let s := segment c in
  mkShmConn (mkSeg (is_open s) (seg_role s) (peer_pid s) (Ring.mark_closed (ring_in s)) (ring_out s)
               (u32 (wake_in s + 1)) (wake_out s))
    (key c) (nonblocking c) (real_fd c) (sent_eof c) (bytes_sent c) (bytes_recv c)
    (ring_full_blocks c) (ring_empty_blocks c) (notify_fd c).

Definition peer_gone (kill : Z -> kill_r) (c : Conn) : bool :=
  is_open (segment c) && (0 <? peer_pid (segment c)) && gone (kill (peer_pid (segment c))).

(** The loop of [sweep_once] over the snapshot: the store, and the names
    unlinked. *)
Fixpoint sweep_loop (kill : Z -> kill_r) (snap : list nat) (st : gmap nat Conn) (unlinked : list string)
    : gmap nat Conn * list string :=
  match snap with
  | [] => (st, unlinked)
  | i :: snap =>
      match st !! i with
      | None => sweep_loop kill snap st unlinked
      | Some c =>
          if negb (is_open (segment c)) then sweep_loop kill snap st unlinked
          else if peer_pid (segment c) <=? 0 then sweep_loop kill snap st unlinked
          else if negb (gone (kill (peer_pid (segment c)))) then sweep_loop kill snap st unlinked
          else sweep_loop kill snap (<[i := end_inbound c]> st) (unlinked ++ [Layout.name_for_key (key c)])
      end
  end.

Definition sweep_once (kill : Z -> kill_r) (reg : ConnRegistry) : ConnRegistry * list string :=
  let '(st, unlinked) := sweep_loop kill (snapshot reg) (store reg) [] in
  (mkConns (by_fd_ reg) st, unlinked).

(** ** Lemmas *)

Lemma dec_cancel a b s t :
  0 <= a < 2 ^ 63 -> 0 <= b < 2 ^ 63 -> no_digit s = true -> no_digit t = true ->
  dec_u a +:+ s = dec_u b +:+ t -> a = b /\ s = t.
Proof.
  intros Ha Hb Hs Ht H. apply (f_equal strtol) in H. rewrite !strtol_dec in H by done. by simplify_eq.
Qed.

Lemma dec_cancel_sep sep a b s t :
  0 <= a < 2 ^ 63 -> 0 <= b < 2 ^ 63 -> no_digit (String sep "") = true ->
  dec_u a +:+ String sep "" +:+ s = dec_u b +:+ String sep "" +:+ t -> a = b /\ s = t.
Proof.
  intros Ha Hb Hsep H. apply dec_cancel in H as [-> H]; [|done..]. split; [done|].
  rewrite !sapp_cons, !sapp_nil_l in H. by simplify_eq.
Qed.

Lemma canonical_make x y : canonical x y = (Handshake.a (Handshake.make x y), Handshake.b (Handshake.make x y)).
Proof. unfold canonical, Handshake.make. by destruct (String.ltb x y). Qed.

Lemma make_canonical x y :
  Handshake.make (Handshake.a (Handshake.make x y)) (Handshake.b (Handshake.make x y)) = Handshake.make x y.
Proof.
  unfold Handshake.make. destruct (String.ltb x y) eqn:E; simpl; [by rewrite E|].
  destruct (String.ltb y x) eqn:E2; [done|]. by rewrite (Handshake.ltb_total _ _ E E2).
Qed.

(** What a registration line does to the daemon. *)
Lemma serve_register w d x y p g :
  0 < p < 2 ^ 31 ->
  Monitor.serve_line w d (request_body (register_request x y p) +:+ g)
  = match Handshake.register_endpoint (Monitor.shm_registry d) (Handshake.make x y) p with
    | None => None
    | Some (res, reg) =>
        Some (Monitor.ok_lines
                ["shm_key=" +:+ dec_u (Handshake.res_key res); Monitor.role_line (Handshake.role res);
                 "pid_a=" +:+ dec_d (Handshake.pid_a res) +:+ " pid_b=" +:+ dec_d (Handshake.pid_b res)],
              Monitor.set_registry (Monitor.inc_counter d Monitor.requests_total) reg)
    end.
Proof.
  intros Hp. unfold Monitor.serve_line. rewrite decode_request_body. unfold register_request.
  rewrite canonical_make.
  change (Monitor.op_shm_register (Monitor.inc_counter d Monitor.requests_total)
    (mkReq "shm-register" [Handshake.a (Handshake.make x y); Handshake.b (Handshake.make x y); dec_d p])
    = match Handshake.register_endpoint (Monitor.shm_registry d) (Handshake.make x y) p with
      | None => None
      | Some (res, reg) =>
          Some (Monitor.ok_lines
                ["shm_key=" +:+ dec_u (Handshake.res_key res); Monitor.role_line (Handshake.role res);
                 "pid_a=" +:+ dec_d (Handshake.pid_a res) +:+ " pid_b=" +:+ dec_d (Handshake.pid_b res)],
              Monitor.set_registry (Monitor.inc_counter d Monitor.requests_total) reg)
      end).
  unfold Monitor.op_shm_register. cbn [args].
  assert (Hpid : atoi (dec_d p) = p).
  { unfold dec_d. destruct (Z.ltb_spec p 0); [lia|]. apply atoi_dec. lia. }
  rewrite Hpid. destruct (Z.leb_spec p 0); [lia|]. by rewrite make_canonical.
Qed.

(** What the client makes of the daemon's answer. *)
Lemma read_answer_register k r pa pb :
  0 < k < 2 ^ 64 ->
  read_answer (response_body (Monitor.ok_lines
    ["shm_key=" +:+ dec_u k; Monitor.role_line r; "pid_a=" +:+ dec_d pa +:+ " pid_b=" +:+ dec_d pb]))
  = Some (k, match r with Handshake.kCreator => true | Handshake.kJoiner => false end).
Proof.
  intros Hk. unfold read_answer. rewrite <- (sapp_nil_r (response_body _)), decode_response_body.
  cbn [wire_image ok lines negb Monitor.ok_lines scan_lines].
  rewrite starts_with_app.
  change 8%nat with (String.length "shm_key="). rewrite str_skip_app, strtoull_dec by lia.
  rewrite (sapp_cons "p"). destruct r; cbn; destruct (Z.eqb_spec k 0); try lia; done.
Qed.

Lemma split_line_no_nl s t : has_char nl s = false -> Monitor.split_line (s +:+ String nl t) = Some (s, t).
Proof.
  induction s as [|c s IH]; [done|]. rewrite sapp_cons. simpl. intros [Hc Hs]%orb_false_iff.
  rewrite Hc. by rewrite (IH Hs).
Qed.

(** The exchange of one client with the monitor: it connects, its request
    goes out and is the line [line] for the daemon, and the answer [resp] comes
    back whole. *)
Record exchange (getenv : string -> option string) (config : Config.values) (x y : string) (pid : Z)
    (io : ctl_io) (line : string) (resp : CtlResponse) : Prop := {
  ex_path : Z.of_nat (String.length (Config.get_string getenv config "monitor" "control_socket"
              kMonitorCtlSocketDefault)) < sun_path_size;
  ex_socket : exists fd, socket_r io = inl fd;
  ex_connect : connect_r io = None;
  ex_write : exists sent, write_all (encode_request (register_request x y pid)) (write_rs io) = Some (true, sent)
                          /\ Monitor.split_line sent = Some (line, "");
  ex_read : delivers (read_rs io) (encode_response resp);
  ex_small : Z.of_nat (String.length (response_body resp)) <= 2 ^ 20 }.

Lemma exchange_line getenv config x y pid io line resp :
  exchange getenv config x y pid io line resp -> line = request_body (register_request x y pid).
Proof.
  intros [_ _ _ (sent & Hw & Hl) _ _]. destruct (write_all_prefix _ _ _ _ Hw) as (r & Hs & Hr).
  rewrite Hr, sapp_nil_r, encode_request_body in Hs by done. subst sent.
  rewrite split_line_no_nl in Hl by apply request_body_no_nl. by simplify_eq.
Qed.

Lemma exchange_answer getenv config x y pid io line resp :
  exchange getenv config x y pid io line resp ->
  exists calls, request_key_from_monitor getenv config x y pid io = Some (read_answer (response_body resp), calls).
Proof.
  intros [Hp [fd Hfd] Hc (sent & Hw & _) Hr Hs]. unfold request_key_from_monitor, connect_unix.
  rewrite Hfd, Hc. destruct (Z.gtb_spec (Z.of_nat (String.length (Config.get_string getenv config
    "monitor" "control_socket" kMonitorCtlSocketDefault)) + 1) sun_path_size); [lia|].
  rewrite Hw. rewrite encode_response_body in Hr.
  destruct (read_line_from_delivers _ _ "" Hr (response_body_no_nl resp)) as (rest & He & _); [done|].
  unfold read_line. rewrite He. by eexists.
Qed.

(** ** Lines served in between *)

(** The daemon serves these lines one after the other. *)
Fixpoint serves (w : Monitor.World) (d : Monitor.Daemon) (ls : list string) : option Monitor.Daemon :=
  match ls with
  | [] => Some d
  | l :: ls => match Monitor.serve_line w d l with Some (_, d) => serves w d ls | None => None end
  end.

(** A line that does not name the pair [id] in a registration or
    unregistration. *)
Definition avoids (id : Handshake.ConnId) (line : string) : bool :=
  match decode_request line with
  | Some req =>
      if String.eqb (Ipc.op req) "shm-register" || String.eqb (Ipc.op req) "shm-unregister" then
        match args req with
        | a1 :: a2 :: _ => negb (bool_decide (Handshake.make a1 a2 = id))
        | _ => true
        end
      else true
  | None => true
  end.

Lemma dispatch_avoids w d req resp d' id p k :
  avoids id (request_body req) = true -> Monitor.dispatch w d req = Some (resp, d') ->
  Handshake.active_ (Monitor.shm_registry d) !! id = Some (Handshake.mkEntry k p 0) ->
  Handshake.active_ (Monitor.shm_registry d') !! id = Some (Handshake.mkEntry k p 0).
Proof.
  unfold avoids. rewrite <- (sapp_nil_r (request_body req)), decode_request_body.
  unfold Monitor.dispatch, Monitor.op_reload, Monitor.op_drain. intros Ha H Hid.
  repeat match type of H with
  | (if String.eqb _ "shm-register" then _ else _) = _ => destruct (String.eqb_spec (op req) "shm-register") as [Hop|]
  | (if String.eqb _ "shm-unregister" then _ else _) = _ => destruct (String.eqb_spec (op req) "shm-unregister") as [Hop|]
  | (if ?b then _ else _) = _ => destruct b; [by simplify_eq|]
  end.
  - rewrite Hop in Ha. simpl in Ha. unfold Monitor.op_shm_register in H.
    destruct (args req) as [|a1 [|a2 [|a3 l]]]; try by simplify_eq.
    destruct (atoi a3 <=? 0); [by simplify_eq|].
    destruct (Handshake.register_endpoint _ _ _) as [[res reg]|] eqn:E; [|done]. simplify_eq/=.
    apply (Handshake.apply_leaves id p k (Monitor.shm_registry d)
             (Handshake.Register (Handshake.make a1 a2) (atoi a3))); [done| |done].
    change (Monitor.shm_registry (Monitor.inc_counter d Monitor.requests_total)) with (Monitor.shm_registry d) in E.
    simpl. by rewrite E.
  - simpl in Ha. unfold Monitor.op_shm_unregister in H.
    destruct (args req) as [|a1 [|a2 l]]; try by simplify_eq.
    simplify_eq/=. apply negb_true_iff, bool_decide_eq_false in Ha. by rewrite lookup_delete_ne.
  - by simplify_eq.
Qed.

Lemma serves_avoids w d ls d' id p k :
  forallb (avoids id) ls = true -> serves w d ls = Some d' ->
  Handshake.active_ (Monitor.shm_registry d) !! id = Some (Handshake.mkEntry k p 0) ->
  Handshake.active_ (Monitor.shm_registry d') !! id = Some (Handshake.mkEntry k p 0).
Proof.
  revert d. induction ls as [|l ls IH]; intros d; simpl; [by intros _ [= ->]|].
  intros [Hl Hls]%andb_true_iff. destruct (Monitor.serve_line w d l) as [[resp d1]|] eqn:E; [|done].
  intros Hrun Hid. apply (IH d1); [done|done|]. unfold Monitor.serve_line in E.
  destruct (decode_request l) as [req|] eqn:Ed; [|by simplify_eq].
  eapply dispatch_avoids; [|done|done]. unfold avoids in *.
  rewrite <- (sapp_nil_r (request_body req)), decode_request_body. by rewrite Ed in Hl.
Qed.

(** ** Theorems *)

(** C5: the whole rendezvous.  Two processes name the endpoints of one fresh
    connection from their own sides; each connects to the control socket,
    writes its request, and reads the answer of the daemon, in any pieces and
    with interrupted calls; between the two the daemon serves any lines that
    do not touch the pair.  Both end with the same non-zero 64-bit key, the
    first as the creator and the second as the joiner. *)
Theorem rendezvous w d x y p q env1 cfg1 io1 line1 resp1 d1 between d2 env2 cfg2 io2 line2 resp2 d3 :
  Handshake.active_ (Monitor.shm_registry d) !! Handshake.make x y = None ->
  Forall (is_uint 64) (Handshake.rng_ (Monitor.shm_registry d)) ->
  0 < p < 2 ^ 31 -> 0 < q < 2 ^ 31 ->
  exchange env1 cfg1 x y p io1 line1 resp1 -> Monitor.serve_line w d line1 = Some (resp1, d1) ->
  serves w d1 between = Some d2 -> forallb (avoids (Handshake.make x y)) between = true ->
  exchange env2 cfg2 y x q io2 line2 resp2 -> Monitor.serve_line w d2 line2 = Some (resp2, d3) ->
  exists k calls1 calls2, 0 < k < 2 ^ 64
    /\ request_key_from_monitor env1 cfg1 x y p io1 = Some (Some (k, true), calls1)
    /\ request_key_from_monitor env2 cfg2 y x q io2 = Some (Some (k, false), calls2).
Proof.
  intros Hnew Hrng Hp Hq Hx1 Hs1 Hb Hav Hx2 Hs2.
  destruct (exchange_answer _ _ _ _ _ _ _ _ Hx1) as [calls1 He1].
  destruct (exchange_answer _ _ _ _ _ _ _ _ Hx2) as [calls2 He2].
  rewrite (exchange_line _ _ _ _ _ _ _ _ Hx1), <- (sapp_nil_r (request_body _)), serve_register in Hs1 by done.
  rewrite (exchange_line _ _ _ _ _ _ _ _ Hx2), <- (sapp_nil_r (request_body _)), serve_register in Hs2 by done.
  unfold Handshake.register_endpoint in Hs1. rewrite Hnew in Hs1.
  destruct (Handshake.next_key _) as [[k rest]|] eqn:Hk; [|done].
  apply Handshake.next_key_Some in Hk as (Hk0 & Hin & _).
  assert (Hkr : 0 < k < 2 ^ 64) by (apply list.Forall_forall with (x := k) in Hrng; [unfold is_uint in Hrng; lia|done]).
  simplify_eq.
  apply (serves_avoids _ _ _ _ (Handshake.make x y) p k Hav) in Hb; [|by simpl; rewrite lookup_insert_eq].
  rewrite (Handshake.make_comm y x) in Hs2. unfold Handshake.register_endpoint in Hs2. rewrite Hb in Hs2.
  simplify_eq/=.
  exists k, calls1, calls2. split; [done|]. rewrite He1, He2.
  split; do 2 f_equal.
  - exact (read_answer_register k Handshake.kCreator p 0 Hkr).
  - exact (read_answer_register k Handshake.kJoiner p q Hkr).
Qed.

Definition demo_answer (r : Handshake.Role) (pb : Z) : CtlResponse :=
  Monitor.ok_lines ["shm_key=" +:+ dec_u 7; Monitor.role_line r;
                    "pid_a=" +:+ dec_d 10 +:+ " pid_b=" +:+ dec_d pb].
Definition demo_io (r : Handshake.Role) (pb : Z) : ctl_io :=
  mkIo (inl 3) None [WOk 10; WErr EINTR; WOk 1000]
    (RErr EINTR :: (RByte <$> list_of_string (encode_response (demo_answer r pb)))).
Definition demo_line (x y : string) (pid : Z) : string := request_body (register_request x y pid).

Lemma demo_exchange x y pid r pb sent :
  write_all (encode_request (register_request x y pid)) [WOk 10; WErr EINTR; WOk 1000] = Some (true, sent) ->
  Monitor.split_line sent = Some (demo_line x y pid, "") ->
  delivers (RByte <$> list_of_string (encode_response (demo_answer r pb))) (encode_response (demo_answer r pb)) ->
  Z.of_nat (String.length (response_body (demo_answer r pb))) <= 2 ^ 20 ->
  exchange (fun _ => None) ∅ x y pid (demo_io r pb) (demo_line x y pid) (demo_answer r pb).
Proof. intros Hw Hl Hd Hs. split; [done|by eexists|done|by eexists|done|done]. Qed.

Lemma rendezvous_witness :
  exists k calls1 calls2, 0 < k < 2 ^ 64
    /\ request_key_from_monitor (fun _ => None) ∅ "c" "s" 10 (demo_io Handshake.kCreator 0)
       = Some (Some (k, true), calls1)
    /\ request_key_from_monitor (fun _ => None) ∅ "s" "c" 20 (demo_io Handshake.kJoiner 20)
       = Some (Some (k, false), calls2).
Proof.
  eapply (rendezvous Monitor.demo_world Monitor.demo_daemon "c" "s" 10 20 (fun _ => None) ∅
           (demo_io Handshake.kCreator 0) (demo_line "c" "s" 10) (demo_answer Handshake.kCreator 0) _
           [demo_line "c" "t" 30; "junk"] _ (fun _ => None) ∅
           (demo_io Handshake.kJoiner 20) (demo_line "s" "c" 20) (demo_answer Handshake.kJoiner 20) _).
  - vm_compute. reflexivity.
  - repeat (apply Forall_cons; split; [vm_compute; split; [discriminate|reflexivity]|]). apply Forall_nil. exact I.
  - lia.
  - lia.
  - eapply demo_exchange; [vm_compute; reflexivity|vm_compute; reflexivity|vm_compute; repeat split|vm_compute; discriminate].
  - vm_compute. reflexivity.
  - vm_compute. reflexivity.
  - vm_compute. reflexivity.
  - eapply demo_exchange; [vm_compute; reflexivity|vm_compute; reflexivity|vm_compute; repeat split|vm_compute; discriminate].
  - vm_compute. reflexivity.
Defined.

(** Distinct IPv4 endpoints have distinct names. *)
Theorem format_endpoint_inj a0 a1 a2 a3 ah al b0 b1 b2 b3 bh bl :
  Forall (is_uint 8) [a0; a1; a2; a3; ah; al; b0; b1; b2; b3; bh; bl] ->
  format_endpoint (Some (SaInet a0 a1 a2 a3 ah al)) = format_endpoint (Some (SaInet b0 b1 b2 b3 bh bl)) ->
  SaInet a0 a1 a2 a3 ah al = SaInet b0 b1 b2 b3 bh bl.
Proof.
  intros Hb H. rewrite !Forall_cons in Hb. unfold is_uint in Hb.
  cbn [format_endpoint] in H. unfold inet_ntop, ntohs in H. rewrite !sapp_assoc in H.
  do 3 (apply (dec_cancel_sep ".") in H as [-> H]; [|lia|lia|done]).
  apply (dec_cancel_sep ":") in H as [-> H]; [|lia|lia|done].
  rewrite <- (sapp_nil_r (dec_u (256 * ah + al))), <- (sapp_nil_r (dec_u (256 * bh + bl))) in H.
  apply dec_cancel in H as [H _]; [|lia|lia|done|done]. f_equal; lia.
Qed.

Lemma format_endpoint_inj_witness : SaInet 127 0 0 1 31 144 = SaInet 127 0 0 1 31 144.
Proof.
  apply (format_endpoint_inj 127 0 0 1 31 144 127 0 0 1 31 144); [|reflexivity].
  repeat (apply Forall_cons; split; [vm_compute; split; [discriminate|reflexivity]|]). apply Forall_nil. exact I.
Defined.

(** ** The watchdog *)

Lemma end_inbound_gone kill c : peer_gone kill (end_inbound c) = peer_gone kill c.
Proof. done. Qed.

Lemma end_inbound_iter n c :
  Ring.tail (ring_in (segment (Nat.iter n end_inbound c))) = Ring.tail (ring_in (segment c))
  /\ Ring.head (ring_in (segment (Nat.iter n end_inbound c))) = Ring.head (ring_in (segment c))
  /\ Ring.data (ring_in (segment (Nat.iter n end_inbound c))) = Ring.data (ring_in (segment c))
  /\ ring_out (segment (Nat.iter n end_inbound c)) = ring_out (segment c)
  /\ key (Nat.iter n end_inbound c) = key c.
Proof. induction n as [|n IH]; [done|]. exact IH. Qed.

Fixpoint times (i : nat) (l : list nat) : nat :=
  match l with [] => 0 | j :: l => (if decide (j = i) then 1 else 0) + times i l end.

Lemma times_pos i l : (0 < times i l)%nat <-> i ∈ l.
Proof.
  induction l as [|j l IH]; simpl; [split; [lia|by intros ?%not_elem_of_nil]|].
  rewrite elem_of_cons. destruct (decide (j = i)); [split; [by left|lia]|].
  rewrite <- IH. split; [intros; right; lia|intros [?|?]; [done|lia]].
Qed.

(** A test of the loop in one piece. *)
Lemma sweep_loop_cons kill i snap st unl :
  sweep_loop kill (i :: snap) st unl
  = match st !! i with
    | Some c => if peer_gone kill c
                then sweep_loop kill snap (<[i := end_inbound c]> st) (unl ++ [Layout.name_for_key (key c)])
                else sweep_loop kill snap st unl
    | None => sweep_loop kill snap st unl
    end.
Proof.
  cbn [sweep_loop]. destruct (st !! i) as [c|]; [|done]. unfold peer_gone.
  destruct (is_open (segment c)); [|done]. cbn [negb andb].
  destruct (Z.leb_spec (peer_pid (segment c)) 0), (Z.ltb_spec 0 (peer_pid (segment c))); try lia; [done|].
  by destruct (gone _).
Qed.

Lemma sweep_loop_spec kill snap st unl :
  let '(st', unl') := sweep_loop kill snap st unl in
  (forall i, st' !! i = match st !! i with
                        | Some c => Some (if peer_gone kill c then Nat.iter (times i snap) end_inbound c else c)
                        | None => None
                        end)
  /\ (forall n, n ∈ unl' <-> n ∈ unl \/ exists i c, i ∈ snap /\ st !! i = Some c /\ peer_gone kill c = true
                                                /\ n = Layout.name_for_key (key c)).
Proof.
  revert st unl. induction snap as [|j snap IH]; intros st unl.
  { simpl. split; [intros i; destruct (st !! i) as [c|]; [by destruct (peer_gone kill c)|done]|].
    intros n. split; [by left|]. intros [?|(? & ? & ?%not_elem_of_nil & _)]; done. }
  rewrite sweep_loop_cons. destruct (st !! j) as [c|] eqn:Ej; [destruct (peer_gone kill c) eqn:Eg|].
  - specialize (IH (<[j := end_inbound c]> st) (unl ++ [Layout.name_for_key (key c)])).
    destruct (sweep_loop _ _ _ _) as [st' unl']. destruct IH as [Hst Hun]. split.
    + intros i. rewrite Hst. simpl. destruct (decide (j = i)) as [->|Hne].
      * rewrite lookup_insert_eq, Ej. rewrite end_inbound_gone, Eg. f_equal.
        by rewrite <- Nat.iter_succ_r.
      * by rewrite lookup_insert_ne.
    + intros n. rewrite Hun, elem_of_app, list_elem_of_singleton. split.
      * intros [[?| ->]|(i & c' & Hi & Hc & Hg & ->)]; [by left|right|right].
        { exists j, c. split_and!; [by left|done|done|done]. }
        destruct (decide (j = i)) as [->|Hne].
        { rewrite lookup_insert_eq in Hc. simplify_eq. exists i, c. split_and!; [by left|done|done|done]. }
        rewrite lookup_insert_ne in Hc by done. exists i, c'. split_and!; [by right|done|done|done].
      * intros [?|(i & c' & Hi & Hc & Hg & ->)]; [by left; left|].
        destruct (decide (j = i)) as [->|Hne]; [simplify_eq; by left; right|].
        apply elem_of_cons in Hi as [->|Hi]; [done|]. right. exists i, c'.
        by rewrite lookup_insert_ne.
  - specialize (IH st unl). destruct (sweep_loop _ _ _ _) as [st' unl']. destruct IH as [Hst Hun]. split.
    + intros i. rewrite Hst. simpl. destruct (decide (j = i)) as [->|Hne]; [|done]. by rewrite Ej, Eg.
    + intros n. rewrite Hun. split; intros [?|(i & c' & Hi & Hc & Hg & ->)]; (try by left); right; exists i, c'.
      * split_and!; [by right|done|done|done].
      * apply elem_of_cons in Hi as [->|Hi]; [congruence|done].
  - specialize (IH st unl). destruct (sweep_loop _ _ _ _) as [st' unl']. destruct IH as [Hst Hun]. split.
    + intros i. rewrite Hst. simpl. destruct (decide (j = i)) as [->|Hne]; [|done]. by rewrite Ej.
    + intros n. rewrite Hun. split; intros [?|(i & c' & Hi & Hc & Hg & ->)]; (try by left); right; exists i, c'.
      * split_and!; [by right|done|done|done].
      * apply elem_of_cons in Hi as [->|Hi]; [congruence|done].
Qed.

(** C32: one sweep of the watchdog ends the inbound stream of exactly the
    registered connections whose peer is gone (keeping the bytes already
    published in the ring), unlinks exactly their segments, and leaves every
    other connection as it is. *)
Theorem sweep_exact kill reg :
  let '(reg', unlinked) := sweep_once kill reg in
  by_fd_ reg' = by_fd_ reg
  /\ (forall fd i c, by_fd_ reg !! fd = Some i -> store reg !! i = Some c -> peer_gone kill c = true ->
        exists c', store reg' !! i = Some c' /\ Ring.peer_closed (ring_in (segment c')) = true
          /\ Ring.readable (ring_in (segment c')) = Ring.readable (ring_in (segment c))
          /\ Ring.data (ring_in (segment c')) = Ring.data (ring_in (segment c))
          /\ ring_out (segment c') = ring_out (segment c))
  /\ (forall i c, store reg !! i = Some c ->
        peer_gone kill c = false \/ (forall fd, by_fd_ reg !! fd <> Some i) -> store reg' !! i = Some c)
  /\ (forall n, n ∈ unlinked <-> exists fd i c, by_fd_ reg !! fd = Some i /\ store reg !! i = Some c
                               /\ peer_gone kill c = true /\ n = Layout.name_for_key (key c)).
Proof.
  assert (Hsnap : forall i, i ∈ snapshot reg <-> exists fd, by_fd_ reg !! fd = Some i).
  { intros i. unfold snapshot. rewrite list_elem_of_fmap. split.
    - intros ([fd j] & -> & ?%elem_of_map_to_list). by exists fd.
    - intros [fd Hfd]. exists (fd, i). split; [done|]. by apply elem_of_map_to_list. }
  unfold sweep_once. pose proof (sweep_loop_spec kill (snapshot reg) (store reg) []) as H.
  destruct (sweep_loop _ _ _ _) as [st' unl']. destruct H as [Hst Hun]. simpl. split_and!; [done|..].
  - intros fd i c Hfd Hc Hg. specialize (Hst i). rewrite Hc, Hg in Hst.
    assert (Hpos : (0 < times i (snapshot reg))%nat) by (apply times_pos, Hsnap; eauto).
    destruct (end_inbound_iter (times i (snapshot reg)) c) as (Ht & Hh & Hd & Ho & _).
    eexists. split; [exact Hst|]. split_and!; [|unfold Ring.readable; by rewrite Ht, Hh|done|done].
    destruct (times i (snapshot reg)); [lia|done].
  - intros i c Hc Hor. rewrite Hst, Hc. destruct (peer_gone kill c) eqn:Hg; [|done].
    destruct Hor as [?|Hno]; [done|].
    destruct (times i (snapshot reg)) eqn:Ht; [done|].
    assert (i ∈ snapshot reg) as [fd Hfd]%Hsnap by (apply times_pos; lia). by destruct (Hno fd).
  - intros n. rewrite Hun. split.
    + intros [?%not_elem_of_nil|(i & c & [fd Hfd]%Hsnap & ?)]; [done|]. by exists fd, i, c.
    + intros (fd & i & c & Hfd & ?). right. exists i, c. split; [|done]. apply Hsnap. eauto.
Qed.

End ShmConn.
