(* ===== verification/DataPath.v ===== *)
(** * The data path of the preload library

    The second half of [src/lib/socket_api.cpp].  Module [Calls]: [shm_send],
    [shm_recv] and the socket calls built on them as functions on the
    connection, run against a peer whose actions between the accesses of the
    call are given as arguments.  Module [Wake]: the futex protocol of the two
    loops as a transition system. *)

From Stdlib Require Import ZArith Lia.
From Stdlib.Init Require Import Byte.
From stdpp Require Import gmap numbers base list relations.
From S2P Require Import Prelude ShmRing ShmSegment ShmConn.

Module Calls.
Import Ring ShmConn.

(** ** Updates of a connection *)

Definition with_out (c : Conn) (r : ShmRing) (wake : Z) : Conn :=
  let s := segment c in
  mkShmConn (mkSeg (is_open s) (seg_role s) (peer_pid s) (ring_in s) r (wake_in s) wake)
    (key c) (nonblocking c) (real_fd c) (sent_eof c) (bytes_sent c) (bytes_recv c)
    (ring_full_blocks c) (ring_empty_blocks c) (notify_fd c).

Definition with_in (c : Conn) (r : ShmRing) : Conn :=
  let s := segment c in
  mkShmConn (mkSeg (is_open s) (seg_role s) (peer_pid s) r (ring_out s) (wake_in s) (wake_out s))
    (key c) (nonblocking c) (real_fd c) (sent_eof c) (bytes_sent c) (bytes_recv c)
    (ring_full_blocks c) (ring_empty_blocks c) (notify_fd c).

Definition add_counters (c : Conn) (sent recv full empty : Z) : Conn :=
  mkShmConn (segment c) (key c) (nonblocking c) (real_fd c) (sent_eof c)
    (u64 (bytes_sent c + sent)) (u64 (bytes_recv c + recv))
    (u64 (ring_full_blocks c + full)) (u64 (ring_empty_blocks c + empty)) (notify_fd c).

Section calls.
Context (kBufBytes : Z).

(** ** Sending *)

(** The peer takes bytes out of the ring, one [recv_some] per length. *)
Fixpoint peer_reads (r : ShmRing) (lens : list Z) : list byte * ShmRing :=
  match lens with
  | [] => ([], r)
  | l :: lens =>
      let '(b, r) := recv_some kBufBytes r l in
      let '(bs, r) := peer_reads r lens in (b ++ bs, r)
  end.

(** The loop of [shm_send].  [moves] are the reads of the peer before each
    turn; the loop is still running when they run out.  [took] collects what
    the peer has read.  Yielding and sleeping between turns changes nothing
    else and is part of the peer's time. *)
Fixpoint send_loop (moves : list (list Z)) (nonblock : bool) (c : Conn) (buf : list byte) (total : Z)
    (took : list byte) : option ((Z + errno) * Conn * list byte) :=
  let n := Z.of_nat (length buf) in
  if total <? n then
    match moves with
    | [] => None
    | m :: moves =>
        let '(bs, r) := peer_reads (ring_out (segment c)) m in
        let '(did, r) := send_some kBufBytes r (drop (Z.to_nat total) buf) (n - total) in
        if 0 <? did then
          send_loop moves nonblock (with_out c r (u32 (wake_out (segment c) + 1))) buf (total + did) (took ++ bs)
        else
          let c := add_counters (with_out c r (wake_out (segment c))) 0 0 1 0 in
          if nonblock then
            if 0 <? total then Some (inl total, add_counters c total 0 0 0, took ++ bs)
            else Some (inr EAGAIN, c, took ++ bs)
          else send_loop moves nonblock c buf total (took ++ bs)
    end
  else Some (inl total, add_counters c total 0 0 0, took).

(** [shm_send(c, buf, n, flags)]; [dontwait] is [flags & MSG_DONTWAIT]. *)
Definition shm_send (moves : list (list Z)) (c : Conn) (buf : list byte) (dontwait : bool)
    : option ((Z + errno) * Conn * list byte) :=
  match buf with
  | [] => Some (inl 0, c, [])
  | _ => send_loop moves (nonblocking c || dontwait) c buf 0 []
  end.

(** ** Receiving *)

(** What the peer does to the ring: a [send_some] or the end of the stream. *)
Inductive peer_act := PSend (bs : list byte) | PClose.

(** The bytes the peer publishes, and the ring after its actions. *)
Fixpoint peer_acts (r : ShmRing) (l : list peer_act) : list byte * ShmRing :=
  match l with
  | [] => ([], r)
  | PSend bs :: l =>
      let '(did, r) := send_some kBufBytes r bs (Z.of_nat (length bs)) in
      let '(pub, r) := peer_acts r l in (take (Z.to_nat did) bs ++ pub, r)
  | PClose :: l => peer_acts (mark_closed r) l
  end.

(** The peer's actions during one turn of the loop of [shm_recv]: before
    [recv_some], before [peer_closed], before [readable], and during the rest
    of the turn; and whether the kernel reports a hang-up. *)
Record round := mkRound {
  before : list peer_act; mid : list peer_act; late : list peer_act; rest : list peer_act;
  hung : bool }.

(** [kernel_fd_hung_up] marks the ring.  The spinning, the futex sleep and the
    tests around it only decide how long a turn takes: each of them leads back
    to the top of the loop. *)
Fixpoint recv_loop (rounds : list round) (nonblock : bool) (c : Conn) (n : Z) (pub : list byte)
    : option ((list byte + errno) * Conn * list byte) :=
  match rounds with
  | [] => None
  | rd :: rounds =>
      let '(p1, r) := peer_acts (ring_in (segment c)) (before rd) in
      let '(bs, r) := recv_some kBufBytes r n in
      if (0 <? length bs)%nat then
        Some (inl bs, add_counters (with_in c r) 0 (Z.of_nat (length bs)) 0 0, pub ++ p1)
      else
        let '(p2, r) := peer_acts r (mid rd) in
        let shut := peer_closed r in
        let '(p3, r) := if shut then peer_acts r (late rd) else ([], r) in
        if shut && (readable r =? 0) then Some (inl [], with_in c r, pub ++ p1 ++ p2 ++ p3)
        else
          let c := add_counters (with_in c r) 0 0 0 1 in
          if nonblock then Some (inr EAGAIN, c, pub ++ p1 ++ p2 ++ p3)
          else
            let '(p4, r) := peer_acts r (rest rd) in
            recv_loop rounds nonblock (with_in c (if hung rd then mark_closed r else r)) n
              (pub ++ p1 ++ p2 ++ p3 ++ p4)
  end.

(** [shm_recv(c, buf, n, flags)]: the bytes received, the connection, and the
    bytes the peer published meanwhile. *)
Definition shm_recv (rounds : list round) (c : Conn) (n : Z) (peek dontwait : bool)
    : option ((list byte + errno) * Conn * list byte) :=
  if n =? 0 then Some (inl [], c, [])
  else if peek then Some (inr EOPNOTSUPP, c, [])
  else recv_loop rounds (nonblocking c || dontwait) c n [].

(** ** [sendmsg] and [recvmsg] on an accelerated descriptor *)

(** The loop over the vectors; each non-empty one is a [shm_send], with its own
    list of moves of the peer. *)
Fixpoint sendmsg_loop (moves : list (list (list Z))) (c : Conn) (iovs : list (list byte)) (dontwait : bool)
    (total : Z) (took : list byte) : option ((Z + errno) * Conn * list byte) :=
  match iovs with
  | [] => Some (inl total, c, took)
  | [] :: iovs => sendmsg_loop moves c iovs dontwait total took
  | iov :: iovs =>
      match moves with
      | [] => None
      | m :: moves =>
          match shm_send m c iov dontwait with
          | None => None
          | Some (inr e, c, bs) => Some (if 0 <? total then inl total else inr e, c, took ++ bs)
          | Some (inl r, c, bs) =>
              if r <? Z.of_nat (length iov) then Some (inl (total + r), c, took ++ bs)
              else sendmsg_loop moves c iovs dontwait (total + r) (took ++ bs)
          end
      end
  end.

Definition shm_sendmsg (moves : list (list (list Z))) (c : Conn) (iovs : list (list byte))
    (controllen : Z) (dontwait : bool) : option ((Z + errno) * Conn * list byte) :=
  if 0 <? controllen then Some (inr EOPNOTSUPP, c, []) else sendmsg_loop moves c iovs dontwait 0 [].

(** [lens] are the lengths of the vectors; the result is the bytes stored in
    them, in order. *)
Fixpoint recvmsg_loop (rounds : list (list round)) (c : Conn) (lens : list Z) (peek dontwait : bool)
    (got pub : list byte) : option ((list byte + errno) * Conn * list byte) :=
  match lens with
  | [] => Some (inl got, c, pub)
  | len :: lens =>
      if len =? 0 then recvmsg_loop rounds c lens peek dontwait got pub
      else
        match rounds with
        | [] => None
        | rd :: rounds =>
            match shm_recv rd c len peek dontwait with
            | None => None
            | Some (inr e, c, p) => Some (if (0 <? length got)%nat then inl got else inr e, c, pub ++ p)
            | Some (inl [], c, p) => Some (inl got, c, pub ++ p)
            | Some (inl bs, c, p) =>
                if Z.of_nat (length bs) <? len then Some (inl (got ++ bs), c, pub ++ p)
                else recvmsg_loop rounds c lens peek dontwait (got ++ bs) (pub ++ p)
            end
        end
  end.

Definition shm_recvmsg (rounds : list (list round)) (c : Conn) (lens : list Z) (peek dontwait : bool)
    : option ((list byte + errno) * Conn * list byte) :=
  recvmsg_loop rounds c lens peek dontwait [] [].

End calls.

(** ** Lemmas *)
Section facts.
Context (kBufBytes : Z) `{!RingSize kBufBytes}.

Abbreviation contents := (Ring.contents kBufBytes).
Abbreviation wf := (Ring.wf kBufBytes).

(** A receive in terms of the stream. *)
Lemma recv_some_stream r len :
  wf r -> 0 <= len ->
  wf (recv_some kBufBytes r len).2
  /\ contents r = (recv_some kBufBytes r len).1 ++ contents (recv_some kBufBytes r len).2
  /\ (recv_some kBufBytes r len).1 = take (Z.to_nat len) (contents r)
  /\ closed (recv_some kBufBytes r len).2 = closed r.
Proof.
  intros Hwf Hlen. pose proof (recv_some_spec kBufBytes r len Hwf Hlen) as Hs. unfold spec_recv in Hs.
  split; [by apply recv_some_wf|]. injection Hs as H1 H2. rewrite H1, H2. split_and!.
  - by rewrite take_drop.
  - done.
  - unfold recv_some. by destruct (_ =? 0).
Qed.

(** A send in terms of the stream. *)
Lemma send_some_stream r buf :
  wf r ->
  wf (send_some kBufBytes r buf (Z.of_nat (length buf))).2
  /\ (send_some kBufBytes r buf (Z.of_nat (length buf))).1
     = Z.min (Z.of_nat (length buf)) (kBufBytes - readable r)
  /\ contents (send_some kBufBytes r buf (Z.of_nat (length buf))).2
     = contents r ++ take (Z.to_nat (send_some kBufBytes r buf (Z.of_nat (length buf))).1) buf
  /\ closed (send_some kBufBytes r buf (Z.of_nat (length buf))).2 = closed r.
Proof.
  intros Hwf. pose proof (send_some_spec kBufBytes r buf (Z.of_nat (length buf)) Hwf ltac:(lia)) as Hs.
  unfold spec_send in Hs. rewrite contents_length in Hs by done.
  split; [apply send_some_wf; [done|done|lia]|]. injection Hs as H1 H2. split; [done|].
  split; [by rewrite H1|]. unfold send_some. by destruct (_ =? 0).
Qed.

Lemma peer_reads_stream r lens :
  wf r -> Forall (fun l => 0 <= l) lens ->
  let '(bs, r') := peer_reads kBufBytes r lens in wf r' /\ contents r = bs ++ contents r'.
Proof.
  revert r. induction lens as [|l lens IH]; intros r Hwf Hl; simpl; [done|].
  apply Forall_cons in Hl as [Hl Hls].
  destruct (recv_some_stream r l Hwf Hl) as (Hwf' & Hc & _ & _).
  destruct (recv_some kBufBytes r l) as [b r1]. simpl in *. specialize (IH r1 Hwf' Hls).
  destruct (peer_reads kBufBytes r1 lens) as [bs r2]. destruct IH as [Hwf2 Hc2].
  split; [done|]. by rewrite Hc, Hc2, <- app_assoc.
Qed.

(** After a read of at least one byte from a full ring there is room. *)
Lemma peer_reads_room r lens :
  wf r -> Forall (fun l => 0 <= l) lens -> Exists (fun l => 0 < l) lens ->
  readable (peer_reads kBufBytes r lens).2 < kBufBytes.
Proof.
  revert r. induction lens as [|l lens IH]; intros r Hwf Hl Hex; [by apply Exists_nil in Hex|].
  apply Forall_cons in Hl as [Hl Hls]. simpl.
  destruct (recv_some_stream r l Hwf Hl) as (Hwf' & Hc & Hb & _).
  destruct (recv_some kBufBytes r l) as [b r1]. simpl in *.
  pose proof (peer_reads_stream r1 lens Hwf' Hls) as H2. apply Exists_cons in Hex.
  assert (Hgoal : 0 < l -> readable (peer_reads kBufBytes r1 lens).2 < kBufBytes).
  { intros Hpos. destruct (peer_reads kBufBytes r1 lens) as [bs r2]. destruct H2 as [Hwf2 Hc2]. simpl.
    pose proof (contents_length kBufBytes r) as L0. pose proof (contents_length kBufBytes r2) as L2.
    pose proof (wf_used _ _ Hwf). pose proof (size_pos kBufBytes).
    assert (Hlen : Z.of_nat (length b) = Z.min l (readable r)) by (rewrite Hb, length_take; lia).
    rewrite Hc, Hc2, !length_app in L0. lia. }
  destruct Hex as [Hpos|Hex]; [specialize (Hgoal Hpos)|specialize (IH r1 Hwf' Hls Hex)];
    by destruct (peer_reads kBufBytes r1 lens).
Qed.

Definition fair (moves : list (list Z)) : Prop := Forall (Forall (fun l => 0 <= l)) moves.

(** What a run of the sending loop has done to the stream. *)
Lemma send_loop_spec moves nonblock c buf total took res c' took' :
  fair moves -> wf (ring_out (segment c)) -> 0 <= total <= Z.of_nat (length buf) ->
  send_loop kBufBytes moves nonblock c buf total took = Some (res, c', took') ->
  exists k, wf (ring_out (segment c'))
    /\ total <= k <= Z.of_nat (length buf)
    /\ took' ++ contents (ring_out (segment c'))
       = took ++ contents (ring_out (segment c)) ++ take (Z.to_nat (k - total)) (drop (Z.to_nat total) buf)
    /\ ring_in (segment c') = ring_in (segment c)
    /\ match res with
       | inl r => r = k /\ (r < Z.of_nat (length buf) -> nonblock = true /\ 0 < r)
                  /\ bytes_sent c' = u64 (bytes_sent c + k)
       | inr e => e = EAGAIN /\ k = 0 /\ nonblock = true /\ bytes_sent c' = u64 (bytes_sent c)
       end.
Proof.
  intros Hfair. revert c total took. induction moves as [|m moves IH]; intros c total took Hwf Ht H;
    cbn [send_loop] in H; destruct (Z.ltb_spec total (Z.of_nat (length buf))) as [Hlt|Hge]; try done.
  { simplify_eq/=. exists total. rewrite Z.sub_diag, take_0, app_nil_r. split_and!; try done; lia. }
  2:{ simplify_eq/=. exists total. rewrite Z.sub_diag, take_0, app_nil_r. split_and!; try done; lia. }
  apply Forall_cons in Hfair as [Hm Hfair]. specialize (IH Hfair).
  pose proof (peer_reads_stream _ m Hwf Hm) as Hp. destruct (peer_reads _ _ m) as [bs r1].
  destruct Hp as [Hwf1 Hc1].
  assert (Hlen : Z.of_nat (length buf) - total = Z.of_nat (length (drop (Z.to_nat total) buf)))
    by (rewrite length_drop; lia).
  destruct (send_some_stream r1 (drop (Z.to_nat total) buf) Hwf1) as (Hwf2 & Hdid & Hc2 & _).
  rewrite <- Hlen in Hwf2, Hdid, Hc2.
  destruct (send_some kBufBytes r1 _ _) as [did r2]. cbn [fst snd] in Hwf2, Hdid, Hc2.
  pose proof (wf_used _ _ Hwf1). destruct (Z.ltb_spec 0 did) as [Hpos|Hzero].
  - apply IH in H as (k & Hwf' & Hk & Hst & Hin & Hres); [|done|lia].
    exists k. split_and!; [done|lia|lia| |done|done]. rewrite Hst.
    cbn [with_out segment ring_out]. rewrite Hc1, Hc2, <- !app_assoc. do 3 f_equal.
    rewrite (Z2Nat.inj_add total did), <- drop_drop, take_take_drop by lia. f_equal. lia.
  - assert (did = 0) as -> by lia. rewrite take_0, app_nil_r in Hc2.
    assert (Hst0 : (took ++ bs) ++ contents r2 = took ++ contents (ring_out (segment c)))
      by (by rewrite Hc1, Hc2, <- app_assoc).
    destruct nonblock; [destruct (Z.ltb_spec 0 total)|].
    + simplify_eq/=. exists total. rewrite Z.sub_diag, take_0, app_nil_r.
      split_and!; try done; try lia. rewrite Z.add_0_r. apply uwrap_add_l.
    + simplify_eq/=. assert (total = 0) as -> by lia. exists 0. rewrite take_0, app_nil_r, Z.add_0_r.
      split_and!; try done; lia.
    + apply IH in H as (k & Hwf' & Hk & Hst & Hin & Hres); [|done|lia].
      exists k. split_and!; [done|lia|lia| |done|].
      * rewrite Hst. cbn [add_counters with_out segment ring_out]. by rewrite !app_assoc, Hst0.
      * destruct res; cbn in Hres; rewrite ?Z.add_0_r in Hres; [|naive_solver].
        destruct Hres as (? & ? & ->). by rewrite uwrap_add_l.
Qed.

(** Bytes of the buffer still to send are a measure: a peer that reads before
    each turn lets the loop finish. *)
Lemma send_loop_ends moves nonblock c buf total took :
  fair moves -> Forall (Exists (fun l => 0 < l)) moves ->
  wf (ring_out (segment c)) -> 0 <= total <= Z.of_nat (length buf) ->
  Z.of_nat (length buf) - total <= Z.of_nat (length moves) ->
  exists c' took', send_loop kBufBytes moves nonblock c buf total took
                   = Some (inl (Z.of_nat (length buf)), c', took').
Proof.
  intros Hfair Hex. revert c total took. induction moves as [|m moves IH]; intros c total took Hwf Ht Hm;
    cbn [send_loop]; destruct (Z.ltb_spec total (Z.of_nat (length buf))) as [Hlt|Hge]; simpl in Hm;
    try lia; try (replace total with (Z.of_nat (length buf)) by lia; by eauto).
  apply Forall_cons in Hfair as [Hm1 Hfair]. apply Forall_cons in Hex as [Hm2 Hex]. specialize (IH Hfair Hex).
  pose proof (peer_reads_stream _ m Hwf Hm1) as Hp. pose proof (peer_reads_room _ m Hwf Hm1 Hm2) as Hroom.
  destruct (peer_reads _ _ m) as [bs r1]. destruct Hp as [Hwf1 Hc1]. simpl in Hroom.
  assert (Hlen : Z.of_nat (length buf) - total = Z.of_nat (length (drop (Z.to_nat total) buf)))
    by (rewrite length_drop; lia).
  destruct (send_some_stream r1 (drop (Z.to_nat total) buf) Hwf1) as (Hwf2 & Hdid & Hc2 & _).
  rewrite <- Hlen in Hwf2, Hdid, Hc2.
  destruct (send_some kBufBytes r1 _ _) as [did r2]. cbn [fst snd] in Hwf2, Hdid, Hc2.
  destruct (Z.ltb_spec 0 did) as [Hpos|Hzero]; [|lia].
  apply IH; [done|lia|lia].
Qed.

Lemma mark_closed_wf r : wf r -> wf (mark_closed r).
Proof. by intros []. Qed.

Lemma peer_acts_stream r l :
  wf r -> let '(pub, r') := peer_acts kBufBytes r l in wf r' /\ contents r' = contents r ++ pub
                                                        /\ (closed r <> 0 -> closed r' <> 0).
Proof.
  revert r. induction l as [|[bs|] l IH]; intros r Hwf; simpl.
  - by rewrite app_nil_r.
  - destruct (send_some_stream r bs Hwf) as (Hwf1 & _ & Hc & Hcl).
    destruct (send_some _ _ _ _) as [did r1]. cbn [fst snd] in Hwf1, Hc, Hcl.
    specialize (IH r1 Hwf1). destruct (peer_acts _ r1 l) as [pub r2]. destruct IH as (? & Hc2 & Hcl2).
    split; [done|]. split; [by rewrite Hc2, Hc, <- app_assoc|]. by rewrite <- Hcl.
  - specialize (IH (mark_closed r) (mark_closed_wf r Hwf)). destruct (peer_acts _ _ l) as [pub r2].
    destruct IH as (? & Hc2 & Hcl2). split; [done|]. split; [done|]. intros _. by apply Hcl2.
Qed.

Lemma readable_nil r : readable r = 0 <-> contents r = [].
Proof.
  pose proof (contents_length kBufBytes r) as Hl. split; intros H.
  - apply length_zero_iff_nil. lia.
  - rewrite H in Hl. done.
Qed.

(** What a run of the receiving loop has done to the stream: what it returns
    is the front of it. *)
Lemma recv_loop_spec rounds nonblock c n pub res c' pub' :
  wf (ring_in (segment c)) -> 0 < n ->
  recv_loop kBufBytes rounds nonblock c n pub = Some (res, c', pub') ->
  exists new, pub' = pub ++ new /\ wf (ring_in (segment c')) /\ ring_out (segment c') = ring_out (segment c)
    /\ match res with
       | inl bs => contents (ring_in (segment c)) ++ new = bs ++ contents (ring_in (segment c'))
                   /\ Z.of_nat (length bs) <= n
                   /\ (bs = [] -> contents (ring_in (segment c')) = [] /\ peer_closed (ring_in (segment c')) = true)
       | inr e => e = EAGAIN /\ nonblock = true
                  /\ contents (ring_in (segment c)) ++ new = contents (ring_in (segment c'))
       end.
Proof.
  revert c pub. induction rounds as [|rd rounds IH]; intros c pub Hwf Hn H; [done|]. cbn [recv_loop] in H.
  pose proof (peer_acts_stream _ (before rd) Hwf) as H1. destruct (peer_acts _ _ (before rd)) as [p1 r1].
  destruct H1 as (Hwf1 & Hc1 & _).
  destruct (recv_some_stream r1 n Hwf1 ltac:(lia)) as (Hwf2 & Hc2 & Hb & _).
  destruct (recv_some _ r1 n) as [bs r2]. cbn [fst snd] in Hwf2, Hc2, Hb.
  destruct (Nat.ltb_spec 0 (length bs)) as [Hpos|Hzero].
  { simplify_eq/=. exists p1. split_and!; [done|done|done|by rewrite <- Hc1|rewrite length_take; lia|].
    intros E. rewrite E in Hpos. simpl in Hpos. lia. }
  destruct bs; [|simpl in Hzero; lia]. clear Hzero Hb. rewrite app_nil_l in Hc2.
  pose proof (peer_acts_stream _ (mid rd) Hwf2) as H3. destruct (peer_acts _ r2 (mid rd)) as [p2 r3].
  destruct H3 as (Hwf3 & Hc3 & _).
  assert (H4 : exists p3 r4, (if peer_closed r3 then peer_acts kBufBytes r3 (late rd) else ([], r3)) = (p3, r4)
    /\ wf r4 /\ contents r4 = contents r3 ++ p3 /\ (peer_closed r3 = true -> peer_closed r4 = true)).
  { destruct (peer_closed r3) eqn:Ep; [|exists [], r3; by rewrite app_nil_r].
    pose proof (peer_acts_stream _ (late rd) Hwf3) as H4. destruct (peer_acts _ r3 (late rd)) as [p3 r4].
    destruct H4 as (? & ? & Hcl). exists p3, r4. split_and!; [done|done|done|]. intros _.
    unfold peer_closed in *. sd_bool. apply negb_true_iff, Z.eqb_neq. auto. }
  destruct H4 as (p3 & r4 & E4 & Hwf4 & Hc4 & Hcl4). rewrite E4 in H.
  assert (Hst : contents (ring_in (segment c)) ++ p1 ++ p2 ++ p3 = contents r4)
    by (by rewrite Hc4, Hc3, <- Hc2, Hc1, <- !app_assoc).
  destruct (peer_closed r3 && (readable r4 =? 0)) eqn:Eeof.
  { simplify_eq/=. sd_bool. exists (p1 ++ p2 ++ p3). apply readable_nil in H0.
    split_and!; [done|done|done|done|simpl; lia|]. intros _. auto. }
  destruct nonblock.
  { simplify_eq/=. exists (p1 ++ p2 ++ p3). done. }
  pose proof (peer_acts_stream _ (rest rd) Hwf4) as H5. destruct (peer_acts _ r4 (rest rd)) as [p4 r5].
  destruct H5 as (Hwf5 & Hc5 & _).
  apply IH in H as (new & -> & Hwf' & Ho & Hres); [| |done].
  2:{ simpl. destruct (hung rd); [by apply mark_closed_wf|done]. }
  exists (p1 ++ p2 ++ p3 ++ p4 ++ new).
  assert (Hst5 : forall x, contents (ring_in (segment c)) ++ (p1 ++ p2 ++ p3 ++ p4 ++ new) = x
    <-> contents (if hung rd then mark_closed r5 else r5) ++ new = x).
  { intros x. assert (contents (if hung rd then mark_closed r5 else r5) = contents r5) as -> by (by destruct (hung rd)).
    rewrite Hc5, <- Hst, <- !app_assoc. done. }
  split_and!; [by rewrite <- !app_assoc|done|done|].
  destruct res as [bs|e]; simpl in Hres |- *; by rewrite Hst5.
Qed.

(** What a run over the vectors of a message has sent. *)
Lemma sendmsg_loop_spec moves c iovs dontwait total took res c' took' :
  Forall fair moves -> wf (ring_out (segment c)) -> 0 <= total ->
  sendmsg_loop kBufBytes moves c iovs dontwait total took = Some (res, c', took') ->
  exists k, wf (ring_out (segment c')) /\ 0 <= k <= Z.of_nat (length (concat iovs))
    /\ took' ++ contents (ring_out (segment c'))
       = took ++ contents (ring_out (segment c)) ++ take (Z.to_nat k) (concat iovs)
    /\ match res with
       | inl r => r = total + k
                  /\ (nonblocking c || dontwait = false -> k = Z.of_nat (length (concat iovs)))
       | inr e => e = EAGAIN /\ k = 0 /\ total = 0
       end.
Proof.
  intros Hfair. revert moves Hfair c total took.
  induction iovs as [|iov iovs IH]; intros moves Hfair c total took Hwf Ht H.
  { simpl in H. simplify_eq. exists 0. rewrite take_0, app_nil_r. split_and!; try done; lia. }
  destruct iov as [|b iov]; [by apply (IH moves)|].
  cbn [sendmsg_loop] in H. destruct moves as [|m moves]; [done|]. apply Forall_cons in Hfair as [Hm Hfair].
  destruct (shm_send kBufBytes m c (b :: iov) dontwait) as [[[res1 c1] bs]|] eqn:Es; [|done].
  change (send_loop kBufBytes m (nonblocking c || dontwait) c (b :: iov) 0 [] = Some (res1, c1, bs)) in Es.
  assert (Hnb : nonblocking c1 = nonblocking c).
  { clear -Es. revert Es. generalize (nonblocking c || dontwait), 0, (@nil byte). revert c.
    induction m as [|l m IH]; intros c nb t tk; cbn [send_loop]; destruct (_ <? _); intros; simplify_eq/=; try done.
    destruct (peer_reads _ _ l) as [? r1]. destruct (send_some _ r1 _ _) as [did r2]. destruct (_ <? _).
    - by apply IH in Es.
    - destruct nb; [by destruct (_ <? _); simplify_eq/=|by apply IH in Es]. }
  apply send_loop_spec in Es as (k & Hwf1 & Hk & Hst & _ & Hres1); [|done|done|simpl; lia].
  rewrite Z.sub_0_r, drop_0 in Hst. destruct res1 as [r|e].
  - destruct Hres1 as (-> & Hpart & _). destruct (Z.ltb_spec k (Z.of_nat (length (b :: iov)))) as [Hlt|Hge].
    + simplify_eq. exists k. destruct (Hpart Hlt) as [Hnbl Hpos]. cbn [concat]. rewrite length_app.
      split_and!; [done|lia|lia| |done|by rewrite Hnbl].
      rewrite <- app_assoc, Hst. rewrite take_app_le by lia. done.
    + assert (k = Z.of_nat (length (b :: iov))) as -> by lia.
      apply (IH moves) in H as (k2 & Hwf' & Hk2 & Hst2 & Hres); [|done|done|lia].
      exists (Z.of_nat (length (b :: iov)) + k2). cbn [concat]. rewrite length_app.
      split_and!; [done|lia|lia| |].
      * rewrite Hst2, <- app_assoc. rewrite (app_assoc bs), Hst.
        rewrite Nat2Z.id, firstn_all, app_nil_l, <- !app_assoc. do 3 f_equal.
        rewrite Z2Nat.inj_add, Nat2Z.id, take_app_add by lia. done.
      * rewrite Hnb in Hres. destruct res; [|destruct Hres as (_ & _ & ?); simpl in *; lia].
        destruct Hres as [-> Hfull]. split; [lia|]. intros E. specialize (Hfull E). lia.
  - destruct Hres1 as (-> & -> & Hnbl & _). simplify_eq. exists 0. rewrite take_0, app_nil_r in Hst |- *.
    split_and!; [done|lia|lia|by rewrite <- app_assoc, Hst|].
    destruct (Z.ltb_spec 0 total); [split; [lia|by rewrite Hnbl]|split_and!; [done|done|lia]].
Qed.

(** ** Theorems *)

(** C6: [shm_send] never loses, repeats or reorders a byte: whatever the peer
    reads while the call runs, what the peer has read and what is in the ring
    are the old contents followed by the first [k] bytes of the buffer, where
    [k] is the value returned.  A blocking call that returns has sent
    everything, a non-blocking one sends a part or fails with [EAGAIN] having
    sent nothing. *)
Theorem shm_send_exact moves c buf dontwait res c' took :
  fair moves -> wf (ring_out (segment c)) -> is_uint 64 (bytes_sent c) ->
  shm_send kBufBytes moves c buf dontwait = Some (res, c', took) ->
  exists k, wf (ring_out (segment c')) /\ 0 <= k <= Z.of_nat (length buf)
    /\ took ++ contents (ring_out (segment c'))
       = contents (ring_out (segment c)) ++ take (Z.to_nat k) buf
    /\ bytes_sent c' = u64 (bytes_sent c + k)
    /\ match res with
       | inl r => r = k /\ (r < Z.of_nat (length buf) -> nonblocking c || dontwait = true /\ 0 < r)
       | inr e => e = EAGAIN /\ k = 0 /\ nonblocking c || dontwait = true
       end.
Proof.
  intros Hfair Hwf Hu H. destruct buf as [|b buf].
  { simpl in H. simplify_eq. exists 0. rewrite Z.add_0_r, take_0, app_nil_r, uwrap_small by done.
    split_and!; done. }
  change (send_loop kBufBytes moves (nonblocking c || dontwait) c (b :: buf) 0 [] = Some (res, c', took)) in H.
  apply send_loop_spec in H as (k & Hwf' & Hk & Hst & _ & Hres); [|done|done|simpl; lia].
  rewrite Z.sub_0_r, drop_0 in Hst. exists k. split_and!; [done|lia|lia|done| |].
  - destruct res; [naive_solver|]. destruct Hres as (_ & -> & _ & ->). by rewrite Z.add_0_r.
  - destruct res; naive_solver.
Qed.

(** C39: a send returns everything when the peer keeps reading: at most one turn
    per byte is needed, however full the ring is. *)
Theorem shm_send_completes moves c buf dontwait :
  fair moves -> Forall (Exists (fun l => 0 < l)) moves -> wf (ring_out (segment c)) ->
  (length buf <= length moves)%nat ->
  exists c' took, shm_send kBufBytes moves c buf dontwait = Some (inl (Z.of_nat (length buf)), c', took).
Proof.
  intros Hfair Hex Hwf Hlen. destruct buf as [|b buf]; [by eexists _, _|].
  apply (send_loop_ends moves (nonblocking c || dontwait) c (b :: buf) 0 []); try done; simpl in *; lia.
Qed.

(** C7: [shm_recv] returns the front of the stream: the ring's contents and
    what the peer publishes during the call are the bytes returned followed by
    what is left in the ring.  It returns no bytes only at the end of the
    stream, with the ring drained and closed, and fails only with [EAGAIN] on
    a non-blocking descriptor, having taken nothing; and it returns in its
    first turn whenever there are bytes or the descriptor is non-blocking. *)
Theorem shm_recv_exact rounds c n dontwait :
  wf (ring_in (segment c)) -> 0 < n ->
  (forall res c' pub, shm_recv kBufBytes rounds c n false dontwait = Some (res, c', pub) ->
     wf (ring_in (segment c')) /\ ring_out (segment c') = ring_out (segment c)
     /\ match res with
        | inl bs => contents (ring_in (segment c)) ++ pub = bs ++ contents (ring_in (segment c'))
                    /\ Z.of_nat (length bs) <= n
                    /\ (bs = [] -> contents (ring_in (segment c')) = []
                                  /\ peer_closed (ring_in (segment c')) = true)
        | inr e => e = EAGAIN /\ nonblocking c || dontwait = true
                   /\ contents (ring_in (segment c)) ++ pub = contents (ring_in (segment c'))
        end)
  /\ (contents (ring_in (segment c)) <> [] \/ nonblocking c || dontwait = true -> rounds <> [] ->
      exists res c' pub, shm_recv kBufBytes rounds c n false dontwait = Some (res, c', pub)).
Proof.
  intros Hwf Hn. unfold shm_recv. destruct (Z.eqb_spec n 0); [lia|]. split.
  - intros res c' pub H. apply recv_loop_spec in H as (new & -> & Hwf' & Ho & Hres); [done|done|done].
  - intros Hor Hr. destruct rounds as [|rd rounds]; [done|]. cbn [recv_loop].
    pose proof (peer_acts_stream _ (before rd) Hwf) as H1. destruct (peer_acts _ _ (before rd)) as [p1 r1].
    destruct H1 as (Hwf1 & Hc1 & _).
    destruct (recv_some_stream r1 n Hwf1 ltac:(lia)) as (_ & _ & Hb & _).
    destruct (recv_some _ r1 n) as [bs r2]. cbn [fst snd] in Hb.
    destruct (Nat.ltb_spec 0 (length bs)) as [|Hz]; [by eauto|]. destruct Hor as [Hne|Hnb].
    + rewrite Hb, Hc1, length_take, length_app in Hz.
      destruct (contents (ring_in (segment c))); [done|]. simpl in Hz. lia.
    + rewrite Hnb. destruct (peer_acts _ r2 _) as [p2 r3].
      destruct (if peer_closed r3 then _ else _) as [p3 r4]. destruct (_ && _); by eauto.
Qed.

(** [sendmsg] on an accelerated descriptor sends a prefix of the
    concatenated vectors, as many bytes as it reports; without
    [O_NONBLOCK] and [MSG_DONTWAIT] it sends them all. *)
Theorem sendmsg_exact moves c iovs dontwait res c' took :
  Forall fair moves -> wf (ring_out (segment c)) ->
  shm_sendmsg kBufBytes moves c iovs 0 dontwait = Some (res, c', took) ->
  exists k, wf (ring_out (segment c')) /\ 0 <= k <= Z.of_nat (length (concat iovs))
    /\ took ++ contents (ring_out (segment c'))
       = contents (ring_out (segment c)) ++ take (Z.to_nat k) (concat iovs)
    /\ match res with
       | inl r => r = k /\ (nonblocking c || dontwait = false -> k = Z.of_nat (length (concat iovs)))
       | inr e => e = EAGAIN /\ k = 0
       end.
Proof.
  intros Hfair Hwf H. apply (sendmsg_loop_spec moves c iovs dontwait 0 []) in H as (k & ? & ? & ? & Hres); [|done|done|lia].
  exists k. split_and!; [done|lia|lia|done|]. destruct res; naive_solver.
Qed.

(** A blocking send on a full ring does not return while the peer does not
    read: the loop never looks at the peer, alive or not. *)
Theorem send_blocks_on_full k c buf :
  wf (ring_out (segment c)) -> readable (ring_out (segment c)) = kBufBytes -> buf <> [] ->
  nonblocking c = false -> shm_send kBufBytes (replicate k []) c buf false = None.
Proof.
  intros Hwf Hfull Hbuf Hnb. destruct buf as [|b buf]; [done|]. unfold shm_send. rewrite Hnb. simpl orb.
  generalize (@nil byte). revert c Hwf Hfull Hnb. induction k as [|k IH]; intros c Hwf Hfull Hnb took; [done|].
  cbn [replicate send_loop peer_reads].
  destruct (Z.ltb_spec 0 (Z.of_nat (length (b :: buf)))); [|simpl in *; lia].
  assert (Hs : forall l n, send_some kBufBytes (ring_out (segment c)) l n = (0, ring_out (segment c))).
  { intros l n. unfold send_some. fold (writable kBufBytes (ring_out (segment c))).
    rewrite free_bytes, Hfull, Z.sub_diag by done. done. }
  rewrite Hs. apply IH; done.
Qed.

Definition quiet : round := mkRound [] [] [] [] false.

Lemma recv_loop_quiet k c n pub :
  wf (ring_in (segment c)) -> contents (ring_in (segment c)) = [] -> 0 < n ->
  peer_closed (ring_in (segment c)) = false ->
  recv_loop kBufBytes (replicate k quiet) false c n pub = None.
Proof.
  revert c pub. induction k as [|k IH]; intros c pub Hwf Hc Hn Hcl; [done|].
  cbn [replicate recv_loop quiet before mid late rest hung peer_acts].
  destruct (recv_some_stream (ring_in (segment c)) n Hwf ltac:(lia)) as (Hwf1 & Hc1 & Hb & Hcl1).
  destruct (recv_some _ _ n) as [bs r1]. cbn [fst snd] in *. rewrite Hc, take_nil in Hb. subst bs.
  cbn [length Nat.ltb Nat.leb]. assert (peer_closed r1 = false) as -> by (unfold peer_closed in *; by rewrite Hcl1).
  cbn [andb]. apply IH; cbn [with_in add_counters segment ring_in]; [done|by rewrite Hc in Hc1|done|].
  unfold peer_closed in *. by rewrite Hcl1.
Qed.

(** [recvmsg] with two one-byte vectors does not return the byte that is
    there: after filling the first vector it waits for the second. *)
Theorem recvmsg_waits_for_more k b c :
  wf (ring_in (segment c)) -> contents (ring_in (segment c)) = [b] ->
  peer_closed (ring_in (segment c)) = false -> nonblocking c = false ->
  shm_recvmsg kBufBytes [[quiet]; replicate k quiet] c [1; 1] false false = None.
Proof.
  intros Hwf Hc Hcl Hnb. unfold shm_recvmsg. cbn [recvmsg_loop Z.eqb].
  unfold shm_recv at 1. cbn [Z.eqb recv_loop quiet before peer_acts].
  destruct (recv_some_stream (ring_in (segment c)) 1 Hwf ltac:(lia)) as (Hwf1 & Hc1 & Hb & Hcl1).
  destruct (recv_some _ _ 1) as [bs r1]. cbn [fst snd] in *. rewrite Hc in Hb. simpl in Hb. subst bs.
  cbn [length Nat.ltb Nat.leb Z.of_nat Z.ltb Z.compare Pos.compare Pos.compare_cont Pos.of_succ_nat].
  cbn [recvmsg_loop Z.eqb]. unfold shm_recv. cbn [Z.eqb nonblocking add_counters with_in].
  rewrite Hnb. cbn [orb]. rewrite recv_loop_quiet; [done|done| |lia|].
  - cbn [add_counters with_in segment ring_in]. rewrite Hc in Hc1. by injection Hc1.
  - cbn [add_counters with_in segment ring_in]. unfold peer_closed in *. by rewrite Hcl1.
Qed.

End facts.

(** ** Witnesses *)

Definition demo_conn (r_in r_out : ShmRing) : Conn :=
  mkShmConn (mkSeg true Layout.kRoleCreator 20 r_in r_out 0 (2 ^ 32 - 1)) 7 false 5 false 0 0 0 0 (-1).

(** Two bytes are in the outbound ring; the peer reads one of them before the
    call publishes. *)
Definition demo_c : Conn := demo_conn zero_ring ShmRing.demo_ring.

Lemma demo_c_wf : wf 4096 (ring_out (segment demo_c)) /\ wf 4096 (ring_in (segment demo_c)).
Proof. split; split; vm_compute; try (split; discriminate || reflexivity); try discriminate; reflexivity. Qed.

Lemma shm_send_exact_witness :
  exists k, wf 4096 (ring_out (segment (add_counters (with_out demo_c
      (send_some 4096 (recv_some 4096 ShmRing.demo_ring 1).2 [x43; x44] 2).2 0) 2 0 0 0)))
    /\ 0 <= k <= 2
    /\ [x41] ++ contents 4096 (ring_out (segment (add_counters (with_out demo_c
          (send_some 4096 (recv_some 4096 ShmRing.demo_ring 1).2 [x43; x44] 2).2 0) 2 0 0 0)))
       = contents 4096 ShmRing.demo_ring ++ take (Z.to_nat k) [x43; x44]
    /\ 2 = u64 (0 + k)
    /\ 2 = k /\ (2 < 2 -> false || false = true /\ 0 < 2).
Proof.
  apply (shm_send_exact 4096 [[1]] demo_c [x43; x44] false (inl 2)).
  - repeat constructor; lia.
  - apply demo_c_wf.
  - vm_compute. split; [discriminate|reflexivity].
  - vm_compute. reflexivity.
Defined.

Lemma shm_send_completes_witness :
  exists c' took, shm_send 4096 [[1]; [0; 2]] demo_c [x43; x44] false = Some (inl 2, c', took).
Proof.
  apply (shm_send_completes 4096 [[1]; [0; 2]] demo_c [x43; x44] false).
  - repeat constructor; lia.
  - apply Forall_cons; split; [apply Exists_cons_hd; lia|].
    apply Forall_cons; split; [apply Exists_cons_tl, Exists_cons_hd; lia|apply Forall_nil; exact I].
  - apply demo_c_wf.
  - simpl. lia.
Defined.

Lemma shm_recv_exact_witness :
  (forall res c' pub, shm_recv 4096 [quiet] demo_c 3 false true = Some (res, c', pub) ->
     wf 4096 (ring_in (segment c')) /\ ring_out (segment c') = ring_out (segment demo_c)
     /\ match res with
        | inl bs => contents 4096 (ring_in (segment demo_c)) ++ pub = bs ++ contents 4096 (ring_in (segment c'))
                    /\ Z.of_nat (length bs) <= 3
                    /\ (bs = [] -> contents 4096 (ring_in (segment c')) = []
                                  /\ peer_closed (ring_in (segment c')) = true)
        | inr e => e = EAGAIN /\ nonblocking demo_c || true = true
                   /\ contents 4096 (ring_in (segment demo_c)) ++ pub = contents 4096 (ring_in (segment c'))
        end)
  /\ (contents 4096 (ring_in (segment demo_c)) <> [] \/ nonblocking demo_c || true = true -> [quiet] <> [] ->
      exists res c' pub, shm_recv 4096 [quiet] demo_c 3 false true = Some (res, c', pub)).
Proof. apply (shm_recv_exact 4096 [quiet] demo_c 3 true); [apply demo_c_wf|lia]. Defined.

Lemma sendmsg_exact_witness :
  exists c' k, wf 4096 (ring_out (segment c')) /\ 0 <= k <= 2
    /\ [] ++ contents 4096 (ring_out (segment c'))
       = contents 4096 (ring_out (segment demo_c)) ++ take (Z.to_nat k) [x43; x44]
    /\ 2 = k /\ (nonblocking demo_c || false = false -> k = 2).
Proof.
  eexists. apply (sendmsg_exact 4096 [[[]]; [[]]] demo_c [[x43]; []; [x44]] false (inl 2)).
  - repeat constructor.
  - apply demo_c_wf.
  - vm_compute. reflexivity.
Defined.

End Calls.

(** ** Sleeping and waking

    One sender and one receiver on the two sides of a ring, with the futex word
    of its direction.  [send_some] and [recv_some] are single steps (module
    [Spsc] justifies that); every other access to shared memory and every system
    call is a step of its own. *)
Module Wake.
Import Ring.

(** The sending process: outside a call; in the loop of [shm_send] with bytes
    left; between publishing and the increment of the futex word; between the
    increment and [FUTEX_WAKE]; in [close]: kernel socket closed, ring marked,
    word incremented, done; killed. *)
Inductive sender :=
  | SIdle | SSend (left : list byte) | SBump (left : list byte) | SWake (left : list byte)
  | SHup | SMarked | SBumped | SClosed | SDead.

(** The receiving thread: outside a call; at each access of the loop of
    [shm_recv]; asleep with the value it sampled and the number of increments
    between the sample and the sleep; at the end of the stream. *)
Inductive receiver :=
  | RIdle | RTop (n : Z) (spin : nat) | RShut (n : Z) (spin : nat) | RDrain (n : Z) (spin : nat)
  | RPoll (n : Z) (spin : nat) | RSample (n : Z) | RData (n w : Z) | RFlag (n w : Z) | RWait (n w : Z)
  | RPark (n w k : Z) | REof.

(** [sent] and [recvd] are all bytes published and all bytes returned; [since]
    counts the increments of the word since the receiver's last sample. *)
Record sys := mkSys {
  ring : ShmRing; word : Z; snd_ : sender; rcv : receiver; hup : bool;
  sent : list byte; recvd : list byte; since : Z }.

(** [FUTEX_WAKE]. *)
Definition unpark (r : receiver) : receiver := match r with RPark n _ _ => RTop n 0 | r => r end.

(** Where the sender goes after [FUTEX_WAKE]: the test of the loop. *)
Definition next_send (left : list byte) : sender := match left with [] => SIdle | _ => SSend left end.

Section wake.
Context (kBufBytes : Z).

Inductive step : sys -> sys -> Prop :=
  (* shm_send *)
  | s_call r w c h st rv k buf : buf <> [] ->
      step (mkSys r w SIdle c h st rv k) (mkSys r w (SSend buf) c h st rv k)
  | s_publish r w c h st rv k left did r' :
      send_some kBufBytes r left (Z.of_nat (length left)) = (did, r') -> 0 < did ->
      step (mkSys r w (SSend left) c h st rv k)
           (mkSys r' w (SBump (drop (Z.to_nat did) left)) c h (st ++ take (Z.to_nat did) left) rv k)
  | s_bump r w c h st rv k left :
      step (mkSys r w (SBump left) c h st rv k) (mkSys r (u32 (w + 1)) (SWake left) c h st rv (k + 1))
  | s_wake r w c h st rv k left :
      step (mkSys r w (SWake left) c h st rv k) (mkSys r w (next_send left) (unpark c) h st rv k)
  (* close *)
  | s_close r w c h st rv k :
      step (mkSys r w SIdle c h st rv k) (mkSys r w SHup c true st rv k)
  | s_mark r w c h st rv k :
      step (mkSys r w SHup c h st rv k) (mkSys (mark_closed r) w SMarked c h st rv k)
  | s_mark_bump r w c h st rv k :
      step (mkSys r w SMarked c h st rv k) (mkSys r (u32 (w + 1)) SBumped c h st rv (k + 1))
  | s_mark_wake r w c h st rv k :
      step (mkSys r w SBumped c h st rv k) (mkSys r w SClosed (unpark c) h st rv k)
  (* the sender is killed, and its kernel socket torn down some time later *)
  | s_die r w s c h st rv k : step (mkSys r w s c h st rv k) (mkSys r w SDead c h st rv k)
  | k_hup r w c h st rv k :
      step (mkSys r w SDead c h st rv k) (mkSys r w SDead c true st rv k)
  (* shm_recv *)
  | r_call r w s h st rv k n : 0 < n ->
      step (mkSys r w s RIdle h st rv k) (mkSys r w s (RTop n 0) h st rv k)
  | r_bytes r w s h st rv k n spin bs r' : recv_some kBufBytes r n = (bs, r') -> bs <> [] ->
      step (mkSys r w s (RTop n spin) h st rv k) (mkSys r' w s RIdle h st (rv ++ bs) k)
  | r_empty r w s h st rv k n spin r' : recv_some kBufBytes r n = ([], r') ->
      step (mkSys r w s (RTop n spin) h st rv k) (mkSys r' w s (RShut n spin) h st rv k)
  | r_open r w s h st rv k n spin : peer_closed r = false ->
      step (mkSys r w s (RShut n spin) h st rv k) (mkSys r w s (RPoll n spin) h st rv k)
  | r_shut r w s h st rv k n spin : peer_closed r = true ->
      step (mkSys r w s (RShut n spin) h st rv k) (mkSys r w s (RDrain n spin) h st rv k)
  | r_eof r w s h st rv k n spin : readable r = 0 ->
      step (mkSys r w s (RDrain n spin) h st rv k) (mkSys r w s REof h st rv k)
  | r_more r w s h st rv k n spin : readable r <> 0 ->
      step (mkSys r w s (RDrain n spin) h st rv k) (mkSys r w s (RPoll n spin) h st rv k)
  | r_again r w s h st rv k n spin :                        (* non-blocking: EAGAIN *)
      step (mkSys r w s (RPoll n spin) h st rv k) (mkSys r w s RIdle h st rv k)
  | r_hup r w s st rv k n spin :
      step (mkSys r w s (RPoll n spin) true st rv k) (mkSys (mark_closed r) w s (RTop n spin) true st rv k)
  | r_spin r w s h st rv k n spin : (spin < 100)%nat ->
      step (mkSys r w s (RPoll n spin) h st rv k) (mkSys r w s (RTop n (S spin)) h st rv k)
  | r_quiet r w s h st rv k n spin : (100 <= spin)%nat ->
      step (mkSys r w s (RPoll n spin) h st rv k) (mkSys r w s (RSample n) h st rv k)
  | r_sample r w s h st rv k n :
      step (mkSys r w s (RSample n) h st rv k) (mkSys r w s (RData n w) h st rv 0)
  | r_data r w s h st rv k n v : readable r <> 0 ->
      step (mkSys r w s (RData n v) h st rv k) (mkSys r w s (RTop n 0) h st rv k)
  | r_nodata r w s h st rv k n v : readable r = 0 ->
      step (mkSys r w s (RData n v) h st rv k) (mkSys r w s (RFlag n v) h st rv k)
  | r_flag r w s h st rv k n v : peer_closed r = true ->
      step (mkSys r w s (RFlag n v) h st rv k) (mkSys r w s (RTop n 0) h st rv k)
  | r_noflag r w s h st rv k n v : peer_closed r = false ->
      step (mkSys r w s (RFlag n v) h st rv k) (mkSys r w s (RWait n v) h st rv k)
  | r_sleep r w s h st rv k n :                             (* FUTEX_WAIT: the word is the sample *)
      step (mkSys r w s (RWait n w) h st rv k) (mkSys r w s (RPark n w k) h st rv k)
  | r_changed r w s h st rv k n v : w <> v ->               (* FUTEX_WAIT: EAGAIN *)
      step (mkSys r w s (RWait n v) h st rv k) (mkSys r w s (RTop n 0) h st rv k)
  | r_timeout r w s h st rv k n v j :
      step (mkSys r w s (RPark n v j) h st rv k) (mkSys r w s (RTop n 0) h st rv k).

Definition start (r : ShmRing) (w : Z) : sys := mkSys (init r) w SIdle RIdle false [] [] 0.

Definition reachable (s : sys) : Prop :=
  exists r w, Z.of_nat (length (data r)) = kBufBytes /\ is_uint 32 w /\ rtc step (start r w) s.

(** ** The invariant *)

(** The sender has published and will still wake the receiver, or is dead. *)
Definition will_bump (s : sender) : Prop :=
  match s with SBump _ | SMarked | SDead => True | _ => False end.
Definition will_wake (s : sender) : Prop :=
  match s with SBump _ | SWake _ | SMarked | SBumped | SDead => True | _ => False end.

(** The sender has stopped sending. *)
Definition over (s : sender) : Prop :=
  match s with SHup | SMarked | SBumped | SClosed | SDead => True | _ => False end.

Definition sampled (s : sys) (v : Z) : Prop := word s = u32 (v + since s) /\ 0 <= since s /\ is_uint 32 v.

(** What the receiver's position says about its sample. *)
Definition rcv_inv (s : sys) : Prop :=
  match rcv s with
  | RData _ v => sampled s v
  | RFlag _ v => sampled s v /\ (Ring.readable (ring s) <> 0 -> 0 < since s \/ will_bump (snd_ s))
  | RWait _ v => sampled s v
      /\ (Ring.readable (ring s) <> 0 -> 0 < since s \/ will_bump (snd_ s))
      /\ (peer_closed (ring s) = true -> 0 < since s \/ will_bump (snd_ s))
  | RPark _ _ k => (k < 2 ^ 32 -> k = 0) /\ 0 <= k
      /\ (k = 0 -> (Ring.readable (ring s) <> 0 \/ peer_closed (ring s) = true) -> will_wake (snd_ s))
  | RDrain _ _ | REof => over (snd_ s)
  | _ => True
  end.

(** The length the running call asks for. *)
Definition asks (r : receiver) : Z :=
  match r with
  | RIdle | REof => 1
  | RTop n _ | RShut n _ | RDrain n _ | RPoll n _ | RSample n | RData n _ | RFlag n _ | RWait n _
  | RPark n _ _ => n
  end.

Record inv (s : sys) : Prop := {
  inv_asks : 0 < asks (rcv s);
  inv_wf : wf kBufBytes (ring s);
  inv_stream : recvd s ++ contents kBufBytes (ring s) = sent s;
  inv_word : is_uint 32 (word s);
  inv_closed : peer_closed (ring s) = true -> over (snd_ s);
  inv_hup : hup s = true -> over (snd_ s);
  inv_eof : rcv s = REof -> Ring.readable (ring s) = 0;
  inv_rcv : rcv_inv s }.

End wake.

Section proofs.
Context (kBufBytes : Z) `{!RingSize kBufBytes}.

Lemma word_bump w : is_uint 32 (u32 (w + 1)).
Proof. by apply uwrap_range. Qed.

Lemma sampled_bump s v :
  sampled s v ->
  sampled (mkSys (ring s) (u32 (word s + 1)) (snd_ s) (rcv s) (hup s) (sent s) (recvd s) (since s + 1)) v.
Proof.
  intros (Hw & Hs & Hv). unfold sampled; simpl. rewrite Hw. split_and!; [|lia|done].
  rewrite uwrap_add_l. f_equal. lia.
Qed.

(** At the sleep the word equals the sample: either nothing has happened since
    the sample, or 2^32 increments have. *)
Lemma sampled_sleep s v : sampled s v -> word s = v -> since s < 2 ^ 32 -> since s = 0.
Proof.
  intros (Hw & Hs & Hv) Heq Hlt. rewrite Heq in Hw. unfold uwrap, is_uint in *.
  destruct (decide (v + since s < 2 ^ 32)).
  - rewrite Z.mod_small in Hw by lia. lia.
  - rewrite <- (Z.mod_unique_pos (v + since s) (2 ^ 32) 1 (v + since s - 2 ^ 32)) in Hw by lia. lia.
Qed.

Lemma closed_send r buf n : peer_closed (send_some kBufBytes r buf n).2 = peer_closed r.
Proof. unfold send_some. by destruct (_ =? 0). Qed.
Lemma closed_recv r n : peer_closed (recv_some kBufBytes r n).2 = peer_closed r.
Proof. unfold recv_some. by destruct (_ =? 0). Qed.

Lemma unpark_asks c : asks (unpark c) = asks c.
Proof. by destruct c. Qed.

(** The receiver's part of the invariant under the steps of the sender. *)
Lemma rcv_publish r r' w left rest c h st st' rv k :
  rcv_inv (mkSys r w (SSend left) c h st rv k) -> peer_closed r' = peer_closed r ->
  rcv_inv (mkSys r' w (SBump rest) c h st' rv k).
Proof. unfold rcv_inv; simpl. intros H ->. destruct c; try done; try tauto. Qed.

Lemma rcv_bump r w s s' c h st rv k :
  rcv_inv (mkSys r w s c h st rv k) -> (will_wake s -> will_wake s') -> (over s -> over s') ->
  rcv_inv (mkSys r (u32 (w + 1)) s' c h st rv (k + 1)).
Proof.
  unfold rcv_inv; simpl. intros H Hw Ho.
  pose proof (sampled_bump (mkSys r w s c h st rv k)) as Hb. simpl in Hb.
  assert (Hpos : forall v, sampled (mkSys r w s c h st rv k) v -> 0 < k + 1) by (intros v (_ & Hk & _); simpl in Hk; lia).
  destruct c; try done; try tauto.
  - by apply Hb.
  - destruct H as [H _]. split; [by apply Hb|]. intros _. left. eauto.
  - destruct H as (H & _). split_and!; [by apply Hb|intros _..]; left; eauto.
Qed.

Lemma rcv_wake r w s s' c h st rv k :
  rcv_inv (mkSys r w s c h st rv k) -> (will_bump s -> will_bump s') -> (over s -> over s') ->
  rcv_inv (mkSys r w s' (unpark c) h st rv k).
Proof. unfold rcv_inv; simpl. intros H Hw Ho. destruct c; simpl in *; try done; tauto. Qed.

Lemma rcv_die r w s c h h' st rv k :
  rcv_inv (mkSys r w s c h st rv k) -> rcv_inv (mkSys r w SDead c h' st rv k).
Proof. unfold rcv_inv; simpl. destruct c; simpl in *; try done; tauto. Qed.

Lemma rcv_mark r w c h h' st rv k :
  rcv_inv (mkSys r w SHup c h st rv k) -> rcv_inv (mkSys (mark_closed r) w SMarked c h' st rv k).
Proof. unfold rcv_inv; simpl. destruct c; simpl in *; try done; tauto. Qed.

Lemma rcv_hup r w c h st rv k :
  rcv_inv (mkSys r w SIdle c h st rv k) -> rcv_inv (mkSys r w SHup c true st rv k).
Proof. unfold rcv_inv; simpl. destruct c; simpl in *; try done; tauto. Qed.

Lemma init_inv r w :
  Z.of_nat (length (data r)) = kBufBytes -> is_uint 32 w -> inv kBufBytes (start r w).
Proof.
  intros Hd Hw. destruct (init_wf kBufBytes r Hd) as [Hwf Hc].
  split; simpl; done.
Qed.

(** A receive keeps the stream. *)
Lemma inv_recv r w s h st rv k n spin bs r' c :
  inv kBufBytes (mkSys r w s (RTop n spin) h st rv k) -> recv_some kBufBytes r n = (bs, r') ->
  c = RIdle \/ c = RShut n spin ->
  inv kBufBytes (mkSys r' w s c h st (rv ++ bs) k).
Proof.
  intros [Hn Hwf Hst Hw Hcl Hh _ _] E Hc. simpl in *.
  destruct (Calls.recv_some_stream kBufBytes r n Hwf ltac:(lia)) as (Hwf' & Hcs & _).
  pose proof (closed_recv r n) as Hcr. rewrite E in Hwf', Hcs, Hcr. simpl in *.
  destruct Hc as [-> | ->]; split; simpl; try done; try lia; try (by rewrite Hcr);
    by rewrite <- app_assoc, <- Hcs.
Qed.

Lemma inv_publish r w c h st rv k left did r' :
  inv kBufBytes (mkSys r w (SSend left) c h st rv k) ->
  send_some kBufBytes r left (Z.of_nat (length left)) = (did, r') -> 0 < did ->
  inv kBufBytes (mkSys r' w (SBump (drop (Z.to_nat did) left)) c h (st ++ take (Z.to_nat did) left) rv k).
Proof.
  intros [Hn Hwf Hst Hw Hcl Hh He Hr] E Hd. simpl in *.
  destruct (Calls.send_some_stream kBufBytes r left Hwf) as (Hwf' & _ & Hcs & _).
  pose proof (closed_send r left (Z.of_nat (length left))) as Hcr. rewrite E in Hwf', Hcs, Hcr. simpl in *.
  split; simpl; try done.
  - by rewrite Hcs, app_assoc, Hst.
  - by rewrite Hcr.
  - intros ->. done.
  - by eapply rcv_publish.
Qed.

Lemma rcv_sleep r w s h st rv k n :
  rcv_inv (mkSys r w s (RWait n w) h st rv k) -> rcv_inv (mkSys r w s (RPark n w k) h st rv k).
Proof.
  unfold rcv_inv; simpl. intros (Hs & Hd & Hc). split_and!.
  - by apply (sampled_sleep _ w Hs).
  - by destruct Hs as (_ & ? & _).
  - intros ->. assert (Hb : will_bump s -> will_wake s) by (by destruct s).
    intros [H|H]; [destruct (Hd H)|destruct (Hc H)]; (lia || auto).
Qed.

Lemma unpark_eof c : unpark c = REof -> c = REof.
Proof. by destruct c. Qed.

Lemma wake_step_inv s s' : inv kBufBytes s -> step kBufBytes s s' -> inv kBufBytes s'.
Proof.
  intros Hinv Hstep. destruct Hstep.
  all: try (by eapply inv_recv; [exact Hinv|eassumption|auto]).
  all: try (rewrite <- (app_nil_r rv); by eapply inv_recv; [exact Hinv|eassumption|auto]).
  all: try (by eapply inv_publish).
  all: destruct Hinv as [Hn Hwf Hst Hw Hcl Hh He Hr]; simpl in Hn, Hwf, Hst, Hw, Hcl, Hh, He;
    split; simpl; rewrite ?unpark_asks; try done; try (by apply word_bump);
    try (by apply Calls.mark_closed_wf); try (by intros ?%unpark_eof; auto).
  - by eapply rcv_bump.
  - eapply rcv_wake; [exact Hr|done|done].
  - by eapply rcv_hup.
  - by eapply rcv_mark.
  - by eapply rcv_bump.
  - eapply rcv_wake; [exact Hr|done|done].
  - by eapply rcv_die.
  - unfold rcv_inv; simpl. auto.
  - unfold rcv_inv, sampled; simpl. rewrite Z.add_0_r, uwrap_small by done. done.
  - unfold rcv_inv in *; simpl in *. destruct Hr as [Hs Hd]. split_and!; [done|done|congruence].
  - by apply rcv_sleep.
Qed.

Lemma wake_reachable_inv s : reachable kBufBytes s -> inv kBufBytes s.
Proof.
  intros (r & w & Hd & Hw & Hrun). pose proof (init_inv r w Hd Hw) as Hinv.
  induction Hrun as [|s1 s2 s3 H12 _ IH]; [done|]. apply IH. by eapply wake_step_inv.
Qed.

(** C4: no wake-up is lost.  When the receiver sleeps, fewer than 2^32
    increments of the futex word between its sample and its sleep mean that
    there were none; and then, as long as it sleeps, either the ring is empty
    and open, or the sender has yet to increment the word or to call
    [FUTEX_WAKE], or it has been killed. *)
Theorem no_lost_wakeup s n w k :
  reachable kBufBytes s -> rcv s = RPark n w k -> k < 2 ^ 32 ->
  k = 0 /\ (Ring.readable (ring s) = 0 /\ peer_closed (ring s) = false \/ will_wake (snd_ s)).
Proof.
  intros Hreach Hp Hk. apply wake_reachable_inv in Hreach as [_ _ _ _ _ _ _ Hr].
  unfold rcv_inv in Hr. rewrite Hp in Hr. destruct Hr as (H0 & _ & Hw). specialize (H0 Hk). split; [done|].
  specialize (Hw H0). destruct (decide (Ring.readable (ring s) = 0)); [|right; auto].
  destruct (peer_closed (ring s)) eqn:E; [right; auto|by left].
Qed.

(** C20: the stream survives sleeping, closing and crashing: at every moment
    what has been received and what is in the ring are what was sent, in order;
    and a receiver that reports the end of the stream has received all of it,
    from a sender that will send no more. *)
Theorem stream_complete s :
  reachable kBufBytes s ->
  recvd s ++ contents kBufBytes (ring s) = sent s
  /\ (rcv s = REof -> recvd s = sent s /\ over (snd_ s)).
Proof.
  intros Hreach. apply wake_reachable_inv in Hreach as [_ _ Hst _ _ _ He Hr]. split; [done|].
  intros Heof. split.
  - rewrite <- Hst. pose proof (proj1 (Calls.readable_nil kBufBytes (ring s)) (He Heof)) as ->.
    by rewrite app_nil_r.
  - unfold rcv_inv in Hr. by rewrite Heof in Hr.
Qed.

End proofs.

(** ** Witnesses *)

(** A receiver on an empty ring spins and falls asleep. *)
Definition empty_ring : ShmRing := init zero_ring.

Lemma spin_down m w s h st rv k n :
  (m <= 100)%nat ->
  rtc (step 4096) (mkSys empty_ring w s (RTop n (100 - m)) h st rv k) (mkSys empty_ring w s (RSample n) h st rv k).
Proof.
  induction m as [|m IH]; intros Hm.
  all: eapply rtc_l; [by apply r_empty|]; eapply rtc_l; [by apply r_open|].
  - apply rtc_once, r_quiet. lia.
  - eapply rtc_l; [apply r_spin; lia|]. replace (S (100 - S m))%nat with (100 - m)%nat by lia. apply IH. lia.
Qed.

Lemma sleep_run s h st rv k n :
  rtc (step 4096) (mkSys empty_ring 7 s (RTop n 0) h st rv k) (mkSys empty_ring 7 s (RPark n 7 0) h st rv 0).
Proof.
  etrans; [apply (spin_down 100); lia|].
  eapply rtc_l; [apply r_sample|]. eapply rtc_l; [by apply r_nodata|].
  eapply rtc_l; [by apply r_noflag|]. apply rtc_once, r_sleep.
Qed.

Definition woken_ring : ShmRing := (send_some 4096 empty_ring [x41] 1).2.
Definition sleeper : sys := mkSys woken_ring 7 (SBump []) (RPark 10 7 0) false [x41] [] 0.

Lemma sleeper_reachable : reachable 4096 sleeper.
Proof.
  exists zero_ring, 7. split_and!; [by vm_compute|by vm_compute|].
  eapply rtc_l; [apply (r_call 4096 _ _ _ _ _ _ _ 10); lia|].
  etrans; [apply sleep_run|]. eapply rtc_l; [by apply (s_call 4096 _ _ _ _ _ _ _ [x41])|].
  apply rtc_once. by apply (s_publish 4096 empty_ring 7 (RPark 10 7 0) false [] [] 0 [x41] 1 woken_ring).
Qed.

Lemma no_lost_wakeup_witness :
  0 = 0 /\ (Ring.readable woken_ring = 0 /\ peer_closed woken_ring = false \/ will_wake (SBump [])).
Proof. apply (no_lost_wakeup 4096 sleeper 10 7 0); [exact sleeper_reachable|reflexivity|lia]. Defined.

Lemma stream_complete_witness :
  [] ++ contents 4096 woken_ring = [x41] /\ (rcv sleeper = REof -> [] = [x41] /\ over (SBump [])).
Proof. apply (stream_complete 4096 sleeper). exact sleeper_reachable. Defined.

End Wake.
