(* ===== verification/FdHooks.v ===== *)
(** * The interception hooks of the preload library

    [src/lib/socket_api.cpp] (first half and the routing of the data calls),
    [src/lib/file_api.cpp] and [src/lib/poll_api.cpp] on the state of
    [src/lib/state.hpp].  The results of the real libc calls are arguments; a
    hook returns what the application sees, the new state, and where it matters
    the real call it made.  [on] is [g_active && !g_in_hook].  Connections are
    shared pointers: a connection lives in a store and is destroyed when neither
    the registry nor the poller refers to it. *)

From Stdlib Require Import ZArith Lia.
From Stdlib.Init Require Import Byte.
From stdpp Require Import strings gmap numbers base list.
From S2P Require Import Prelude Metrics ShmRing FdRemap ShmSegment ShmConn DataPath.

Module FdHooks.
Import FdRemap ShmConn.

(** ** State *)

Record State := mkState {
  fd_table : FdRemapTable;
  conns : ConnRegistry;
  watched_ : gmap Z nat;                     (* ShmPoller *)
  m_socket_total : double; m_close_total : double; m_dup_total : double;
  shm_bytes_sent_closed : Z; shm_bytes_recv_closed : Z;
  shm_ring_full_closed : Z; shm_ring_empty_closed : Z;
  shm_conns_total : Z; shm_conn_closed_total : Z }.

Definition set_table (s : State) (t : FdRemapTable) : State :=
  mkState t (conns s) (watched_ s) (m_socket_total s) (m_close_total s) (m_dup_total s)
    (shm_bytes_sent_closed s) (shm_bytes_recv_closed s) (shm_ring_full_closed s)
    (shm_ring_empty_closed s) (shm_conns_total s) (shm_conn_closed_total s).
Definition set_reg (s : State) (c : ConnRegistry) (w : gmap Z nat) : State :=
  mkState (fd_table s) c w (m_socket_total s) (m_close_total s) (m_dup_total s)
    (shm_bytes_sent_closed s) (shm_bytes_recv_closed s) (shm_ring_full_closed s)
    (shm_ring_empty_closed s) (shm_conns_total s) (shm_conn_closed_total s).
Definition inc_totals (s : State) (so cl du : double -> double) : State :=
  mkState (fd_table s) (conns s) (watched_ s) (so (m_socket_total s)) (cl (m_close_total s))
    (du (m_dup_total s)) (shm_bytes_sent_closed s) (shm_bytes_recv_closed s) (shm_ring_full_closed s)
    (shm_ring_empty_closed s) (shm_conns_total s) (shm_conn_closed_total s).
Definition count_attach (s : State) : State :=
  mkState (fd_table s) (conns s) (watched_ s) (m_socket_total s) (m_close_total s) (m_dup_total s)
    (shm_bytes_sent_closed s) (shm_bytes_recv_closed s) (shm_ring_full_closed s)
    (shm_ring_empty_closed s) (u64 (shm_conns_total s + 1)) (shm_conn_closed_total s).

Definition inc1 (d : double) : double := Cell.inc d done_.

(** ** Tracking *)

Definition AF_INET : Z := 2.
Definition AF_INET6 : Z := 10.
Definition SOCK_STREAM : Z := 1.
Definition SOCK_NONBLOCK : Z := 2048.
Definition SOCK_CLOEXEC : Z := 524288.

Definition classify (domain ty : Z) : FdType :=
  let t := Z.land ty (Z.lnot (Z.lor SOCK_NONBLOCK SOCK_CLOEXEC)) in
  if ((domain =? AF_INET) || (domain =? AF_INET6)) && (t =? SOCK_STREAM) then kSocket else kSystem.

(** [reverse_lookup(kSocket, fd)], then [reverse_lookup(kSystem, fd)]. *)
Definition track_of (tbl : FdRemapTable) (fd : Z) : Z :=
  let v := reverse_lookup tbl kSocket fd in
  if v <? 0 then reverse_lookup tbl kSystem fd else v.

(** [socket]; [fd] is the result of the real call. *)
Definition socket (on : bool) (s : State) (domain ty fd : Z) : State :=
  if fd <? 0 then s
  else if negb on then s
  else
    let s := inc_totals s inc1 id id in
    set_table s (alloc (fd_table s) (classify domain ty) fd).2.

(** What [maybe_upgrade_to_shm] asks the system: the two addresses, the
    connection [try_attach] makes for the two endpoints (none for a null
    pointer), and [O_NONBLOCK] when [fcntl] succeeds. *)
Record upgrade_env := mkUp {
  sockname : option sockaddr; peername : option sockaddr;
  attach : string -> string -> option Conn; getfl : option bool }.

Definition set_nonblocking (c : Conn) (b : bool) : Conn :=
  mkShmConn (segment c) (key c) b (ShmConn.real_fd c) (sent_eof c) (bytes_sent c) (bytes_recv c)
    (ring_full_blocks c) (ring_empty_blocks c) (notify_fd c).

(** A new connection object, and [install]. *)
Definition install_new (s : State) (fd : Z) (c : Conn) : State :=
  let i := fresh (dom (store (conns s))) in
  set_reg s (install (mkConns (by_fd_ (conns s)) (<[i := c]> (store (conns s)))) fd i) (watched_ s).

Definition maybe_upgrade_to_shm (on : bool) (s : State) (fd : Z) (env : upgrade_env) : State :=
  if negb on then s
  else
    let tbl := fd_table s in
    let s := if (reverse_lookup tbl kSocket fd <? 0) && (reverse_lookup tbl kSystem fd <? 0)
             then set_table s (alloc tbl kSocket fd).2 else s in
    match sockname env, peername env with
    | Some (SaInet _ _ _ _ _ _ as local), Some (SaInet _ _ _ _ _ _ as peer) =>
        let local_ep := format_endpoint (Some local) in
        let peer_ep := format_endpoint (Some peer) in
        if String.eqb local_ep "" || String.eqb peer_ep "" then s
        else
          match attach env local_ep peer_ep with
          | None => s
          | Some c =>
              let c := match getfl env with Some b => set_nonblocking c b | None => c end in
              install_new (count_attach s) fd c
          end
    | _, _ => s
    end.

(** [accept] and [accept4]; [connect]. *)
Definition accept (on : bool) (s : State) (c : Z) (env : upgrade_env) : State :=
  if 0 <=? c then maybe_upgrade_to_shm on s c env else s.
Definition connect (on : bool) (s : State) (fd rc : Z) (env : upgrade_env) : State :=
  if rc =? 0 then maybe_upgrade_to_shm on s fd env else s.

(** Where [send], [recv], [write] and [read] go: the connection, or libc. *)
Definition route (on : bool) (s : State) (fd : Z) : option nat :=
  if on then
    match lookup (conns s) fd with
    | Some i =>
        match store (conns s) !! i with
        | Some c => if is_open (segment c) then Some i else None
        | None => None
        end
    | None => None
    end
  else None.

(** ** Closing and duplicating *)

(** The last reference to a connection destroys it; [~ShmConn] closes the
    segment: the outbound ring is marked closed and its word incremented. *)
Definition close_segment (c : Conn) : Conn :=
  let g := segment c in
  if is_open g then
    mkShmConn (mkSeg false (seg_role g) (peer_pid g) (ring_in g) (Ring.mark_closed (ring_out g))
                 (wake_in g) (u32 (wake_out g + 1)))
      (key c) (nonblocking c) (ShmConn.real_fd c) (sent_eof c) (bytes_sent c) (bytes_recv c)
      (ring_full_blocks c) (ring_empty_blocks c) (notify_fd c)
  else c.

Definition referenced (s : State) (i : nat) : bool :=
  bool_decide (i ∈ (map_to_list (by_fd_ (conns s))).*2) || bool_decide (i ∈ (map_to_list (watched_ s)).*2).

(** The end of the life of a [shared_ptr] to connection [i]. *)
Definition release (s : State) (i : nat) : State :=
  if referenced s i then s
  else set_reg s (mkConns (by_fd_ (conns s)) (alter close_segment i (store (conns s)))) (watched_ s).

(** The counters of a closed connection are added to the totals. *)
Definition fold_counters (s : State) (c : Conn) : State :=
  mkState (fd_table s) (conns s) (watched_ s) (m_socket_total s) (m_close_total s) (m_dup_total s)
    (u64 (shm_bytes_sent_closed s + bytes_sent c)) (u64 (shm_bytes_recv_closed s + bytes_recv c))
    (u64 (shm_ring_full_closed s + ring_full_blocks c)) (u64 (shm_ring_empty_closed s + ring_empty_blocks c))
    (shm_conns_total s) (u64 (shm_conn_closed_total s + 1)).

(** [close]: whether the real [close] is called, and the state.  The metrics
    snapshot it writes is not state of the process. *)
Definition close (on : bool) (s : State) (fd : Z) : bool * State :=
  if negb on then (true, s)
  else
    let v := track_of (fd_table s) fd in
    if v <? 0 then (true, s)
    else
      let '(refs, tbl) := free (fd_table s) v in
      let s := inc_totals (set_table s tbl) id inc1 id in
      if 0 <? refs then (false, s)
      else
        match remove (conns s) fd with
        | (None, _) => (true, s)
        | (Some i, reg) =>
            match store (conns s) !! i with
            | None => (true, s)
            | Some c => (true, release (fold_counters (set_reg s reg (watched_ s)) c) i)
            end
        end.

(** [dup]; [new_fd] is the result of the real call. *)
Definition dup (on : bool) (s : State) (fd new_fd : Z) : State :=
  if negb on then s
  else
    let v := track_of (fd_table s) fd in
    if v <? 0 then s
    else if new_fd <? 0 then s
    else
      let m := FdRemap.lookup (fd_table s) v in
      inc_totals (set_table s (alloc (fd_table s) (type m) new_fd).2) id id inc1.

(** [dup2] and [dup3]; [rc] is the result of the real call. *)
Definition dup2 (on : bool) (s : State) (oldfd newfd rc : Z) : State :=
  if negb on then s
  else
    let v_old := track_of (fd_table s) oldfd in
    if rc <? 0 then s
    else if v_old <? 0 then s
    else
      let v_new := track_of (fd_table s) newfd in
      let tbl := if 0 <=? v_new then (free (fd_table s) v_new).2 else fd_table s in
      let m := FdRemap.lookup tbl v_old in
      inc_totals (set_table s (alloc tbl (type m) newfd).2) id id inc1.

Definition F_DUPFD : Z := 0.
Definition F_SETFL : Z := 4.

(** [fcntl]; [rc] is the result of the real call. *)
Definition fcntl (on : bool) (s : State) (fd cmd rc : Z) : State :=
  if (0 <=? rc) && on && (cmd =? F_DUPFD) then
    let v := track_of (fd_table s) fd in
    if 0 <=? v then
      let m := FdRemap.lookup (fd_table s) v in
      inc_totals (set_table s (alloc (fd_table s) (type m) rc).2) id id inc1
    else s
  else s.

(** ** epoll *)

Inductive ctl_op := EPOLL_CTL_ADD | EPOLL_CTL_DEL | EPOLL_CTL_MOD.
Record epoll_event := mkEv { events : Z; data : Z }.

(** The member [data.fd] of the union: the low half of the 64-bit datum. *)
Definition data_fd (e : epoll_event) : Z := swrap32 (u32 (data e)).
Definition set_data_fd (e : epoll_event) (fd : Z) : epoll_event :=
  mkEv (events e) (data e - u32 (data e) + u32 fd).

(** A call of the real [epoll_ctl]. *)
Record epoll_call := mkCall { e_op : ctl_op; e_fd : Z; e_ev : option epoll_event }.

Definition set_notify (s : State) (i : nat) (n : Z) : State :=
  set_reg s (mkConns (by_fd_ (conns s))
    (alter (fun c => mkShmConn (segment c) (key c) (nonblocking c) (ShmConn.real_fd c) (sent_eof c)
              (bytes_sent c) (bytes_recv c) (ring_full_blocks c) (ring_empty_blocks c) n)
       i (store (conns s)))) (watched_ s).

(** [epoll_ctl]: the real call made, if any (none when the eventfd could not be
    created), and the state; [eventfd_r] is the result of the real [eventfd]. *)
Definition epoll_ctl (on : bool) (s : State) (op : ctl_op) (fd : Z) (ev : option epoll_event) (eventfd_r : Z)
    : option epoll_call * State :=
  match route on s fd with
  | None => (Some (mkCall op fd ev), s)
  | Some i =>
      let nfd0 := match store (conns s) !! i with Some c => notify_fd c | None => -1 end in
      match op with
      | EPOLL_CTL_DEL =>
          if 0 <=? nfd0 then
            let s' := set_reg s (conns s) (delete fd (watched_ s)) in
            (Some (mkCall EPOLL_CTL_DEL nfd0 None), set_notify s' i (-1))
          else (Some (mkCall op fd ev), s)
      | _ =>
          let nfd := if nfd0 <? 0 then eventfd_r else nfd0 in
          if nfd <? 0 then (None, s)
          else
            let s := set_notify s i nfd in
            let s := set_reg s (conns s) (<[fd := i]> (watched_ s)) in
            (Some (mkCall op nfd (Some (match ev with
                                        | Some e => set_data_fd e fd
                                        | None => mkEv 0 0
                                        end))), s)
      end
  end.

(** The eventfds [epoll_wait] and [epoll_pwait] drain for the events the
    kernel returned. *)
Fixpoint drained (s : State) (evs : list epoll_event) : list Z :=
  match evs with
  | [] => []
  | e :: evs =>
      match lookup (conns s) (data_fd e) with
      | Some i =>
          match store (conns s) !! i with
          | Some c => if 0 <=? notify_fd c then notify_fd c :: drained s evs else drained s evs
          | None => drained s evs
          end
      | None => drained s evs
      end
  end.

Definition epoll_wait (on : bool) (s : State) (n : Z) (evs : list epoll_event) : list Z :=
  if n <=? 0 then [] else if on then drained s evs else [].

(** One pass of the poller over the connections it watches: the eventfds it
    writes to. *)
Definition poll_one (c : Conn) : list Z :=
  if is_open (segment c) then
    if (0 <? Ring.readable (ring_in (segment c))) || Ring.peer_closed (ring_in (segment c)) then
      if 0 <=? notify_fd c then [notify_fd c] else []
    else []
  else [].

Definition poll_pass (s : State) : list Z :=
  concat ((fun p => match store (conns s) !! p.2 with Some c => poll_one c | None => [] end)
            <$> map_to_list (watched_ s)).

(** ** Histories of an application *)

(** What an application does through the hooks, with what the kernel answers
    where it succeeds. *)
Inductive app_op :=
  | ASocket (domain ty fd : Z) | AAccept (c : Z) (env : upgrade_env) | AConnect (fd : Z) (env : upgrade_env)
  | AClose (fd : Z) | ADup (fd new_fd : Z) | AFcntl (fd cmd rc : Z) | ADup2 (oldfd newfd : Z)
  | AEpoll (op : ctl_op) (fd : Z) (ev : option epoll_event) (eventfd_r : Z).

(** The state of the library after the call, and the descriptors open in the
    process. *)
Definition app_step (s : State) (fds : gset Z) (o : app_op) : State * gset Z :=
  match o with
  | ASocket d t fd => (socket true s d t fd, {[fd]} ∪ fds)
  | AAccept c env => (accept true s c env, {[c]} ∪ fds)
  | AConnect fd env => (connect true s fd 0 env, fds)
  | AClose fd => let '(real, s) := close true s fd in (s, if real then fds ∖ {[fd]} else fds)
  | ADup fd new_fd => (dup true s fd new_fd, {[new_fd]} ∪ fds)
  | AFcntl fd cmd rc => (fcntl true s fd cmd rc, if cmd =? F_DUPFD then {[rc]} ∪ fds else fds)
  | ADup2 a b => (dup2 true s a b b, {[b]} ∪ fds)
  | AEpoll op fd ev r => ((epoll_ctl true s op fd ev r).2, fds)
  end.

(** The kernel hands out descriptors that are not open, and the application
    names ones that are; [dup2] is not aimed at its own source nor at an
    accelerated descriptor. *)
Definition app_ok (s : State) (fds : gset Z) (o : app_op) : Prop :=
  match o with
  | ASocket _ _ fd => 0 <= fd /\ fd ∉ fds
  | AAccept c _ => 0 <= c /\ c ∉ fds
  | AConnect fd _ => 0 <= fd /\ fd ∈ fds
  | AClose fd => True
  | ADup fd new_fd => 0 <= new_fd /\ new_fd ∉ fds
  | AFcntl fd cmd rc => 0 <= rc /\ (cmd = F_DUPFD -> rc ∉ fds)
  | ADup2 a b => a <> b /\ 0 <= b /\ by_fd_ (conns s) !! b = None
  | AEpoll _ _ _ _ => True
  end.

Fixpoint app_run (s : State) (fds : gset Z) (ops : list app_op) : State * gset Z :=
  match ops with
  | [] => (s, fds)
  | o :: ops => let '(s, fds) := app_step s fds o in app_run s fds ops
  end.

Fixpoint app_history (s : State) (fds : gset Z) (ops : list app_op) : Prop :=
  match ops with
  | [] => True
  | o :: ops => app_ok s fds o /\ let '(s, fds) := app_step s fds o in app_history s fds ops
  end.

(** ** The invariant *)

(** Every tracked descriptor is open and tracked once, and every accelerated
    descriptor is tracked. *)
Record tidy (s : State) (fds : gset Z) : Prop := {
  td_wf : wf (fd_table s);
  td_once : forall v w t u fd, view (fd_table s) !! v = Some (mkMap t fd) ->
      view (fd_table s) !! w = Some (mkMap u fd) -> v = w;
  td_types : forall v t fd, view (fd_table s) !! v = Some (mkMap t fd) ->
      (t = kSocket \/ t = kSystem) /\ 0 <= fd /\ fd ∈ fds;
  td_conn : forall fd i, by_fd_ (conns s) !! fd = Some i ->
      exists v t, view (fd_table s) !! v = Some (mkMap t fd) }.

Definition tracked (s : State) (fd : Z) : Prop := exists v t, view (fd_table s) !! v = Some (mkMap t fd).

Definition start : State :=
  mkState empty_table (mkConns ∅ ∅) ∅ dzero dzero dzero 0 0 0 0 0 0.

Lemma view_empty_table : view empty_table = ∅.
Proof. vm_compute. done. Qed.

Lemma start_tidy fds : tidy start fds.
Proof.
  split; simpl; [apply empty_wf|..]; intros *; rewrite ?view_empty_table, ?lookup_empty; done.
Qed.

(** [track_of] finds the descriptor's entry if there is one. *)
Lemma track_of_spec s fds fd :
  tidy s fds -> 0 <= fd ->
  (track_of (fd_table s) fd < 0 /\ ~ tracked s fd)
  \/ (0 <= track_of (fd_table s) fd
      /\ exists t, view (fd_table s) !! track_of (fd_table s) fd = Some (mkMap t fd)).
Proof.
  intros [Hw Ho Ht _] Hfd. unfold track_of.
  destruct (reverse_lookup_spec (fd_table s) kSocket fd Hw ltac:(done) Hfd) as [[-> H1]|[Hp H1]].
  - simpl. destruct (reverse_lookup_spec (fd_table s) kSystem fd Hw ltac:(done) Hfd) as [[-> H2]|[Hp2 H2]].
    + left. split; [lia|]. intros (v & t & Hv). destruct (Ht _ _ _ Hv) as [[-> | ->] _];
        [by apply (holders_zero _ _ v H1)|by apply (holders_zero _ _ v H2)].
    + right. split; [done|]. by exists kSystem.
  - destruct (Z.ltb_spec (reverse_lookup (fd_table s) kSocket fd) 0); [lia|]. right. split; [done|].
    by exists kSocket.
Qed.

Lemma track_of_negative tbl fd : fd < 0 -> track_of tbl fd = -1.
Proof. intros H. unfold track_of, reverse_lookup. by destruct (Z.ltb_spec fd 0); [|lia]. Qed.

(** Tracking a descriptor that is not tracked yet. *)
Lemma tidy_alloc s fds t fd :
  tidy s fds -> ~ tracked s fd -> 0 <= fd -> t = kSocket \/ t = kSystem ->
  tidy (set_table s (alloc (fd_table s) t fd).2) ({[fd]} ∪ fds)
  /\ tracked (set_table s (alloc (fd_table s) t fd).2) fd.
Proof.
  intros [Hw Ho Ht Hc] Hnt Hfd Htt.
  destruct (alloc_view (fd_table s) t fd Hw Hfd) as (v & Hv & Hnone & Hview & Hw').
  assert (Hnew : forall u x r, view (fd_table s) !! u = Some (mkMap x r) -> r <> fd)
    by (intros u x r Hu ->; apply Hnt; by exists u, x).
  split; [split; simpl; [done|..]|].
  - intros v1 v2 t1 t2 r. rewrite Hview, !lookup_insert_Some.
    intros [[<- [=]]|[Hne1 H1]] [[<- [=]]|[Hne2 H2]]; subst; try done.
    + by destruct (Hnew _ _ _ H2).
    + by destruct (Hnew _ _ _ H1).
    + by eapply Ho.
  - intros v1 t1 r. rewrite Hview, lookup_insert_Some. intros [[<- [=]]|[_ H1]]; subst; [set_solver|].
    destruct (Ht _ _ _ H1) as (? & ? & ?). set_solver.
  - intros r i Hr. destruct (Hc _ _ Hr) as (v1 & t1 & H1). exists v1, t1. rewrite Hview.
    rewrite lookup_insert_ne; [done|congruence].
  - exists v, t. simpl. by rewrite Hview, lookup_insert_eq.
Qed.

(** Changes that touch neither the table nor the keys of the registry. *)
Lemma tidy_same s s' fds fds' :
  tidy s fds -> fd_table s' = fd_table s -> by_fd_ (conns s') = by_fd_ (conns s) -> fds ⊆ fds' -> tidy s' fds'.
Proof.
  intros [Hw Ho Ht Hc] E1 E2 Hsub. split; rewrite ?E1, ?E2; try done.
  intros v t fd Hv. destruct (Ht _ _ _ Hv) as (? & ? & ?). set_solver.
Qed.

Lemma tidy_install s fds fd c :
  tidy s fds -> tracked s fd -> tidy (install_new s fd c) fds.
Proof.
  intros [Hw Ho Ht Hc] Htr. split; simpl; try done.
  intros r i [[<- _]|[_ Hr]]%lookup_insert_Some; [done|by eapply Hc].
Qed.

Lemma tidy_upgrade s fds fd env :
  tidy s fds -> 0 <= fd -> tidy (maybe_upgrade_to_shm true s fd env) ({[fd]} ∪ fds).
Proof.
  intros Htd Hfd. unfold maybe_upgrade_to_shm. cbn [negb].
  set (s1 := if _ && _ then _ else s).
  assert (H1 : tidy s1 ({[fd]} ∪ fds) /\ tracked s1 fd).
  { subst s1. pose proof (track_of_spec s fds fd Htd Hfd) as Hk. unfold track_of in Hk.
    destruct (Z.ltb_spec (reverse_lookup (fd_table s) kSocket fd) 0) as [Hl|Hl]; cbn [andb].
    - destruct (Z.ltb_spec (reverse_lookup (fd_table s) kSystem fd) 0) as [Hl2|Hl2].
      + destruct Hk as [[_ Hk]|[Hk _]]; [|lia]. apply tidy_alloc; auto.
      + destruct Hk as [[Hk _]|[_ [t Hk]]]; [lia|]. split; [by apply (tidy_same s _ fds); [..|set_solver]|].
        by exists (reverse_lookup (fd_table s) kSystem fd), t.
    - destruct Hk as [[Hk _]|[_ [t Hk]]]; [lia|]. split; [by apply (tidy_same s _ fds); [..|set_solver]|].
      by exists (reverse_lookup (fd_table s) kSocket fd), t. }
  destruct H1 as [H1 Htr]. clearbody s1.
  destruct (sockname env) as [[]|]; [|done..]. destruct (peername env) as [[]|]; [|done..].
  destruct (_ || _); [done|]. destruct (attach env _ _) as [c|]; [|done].
  apply tidy_install; [|done]. by apply (tidy_same s1 _ ({[fd]} ∪ fds)).
Qed.

(** Dropping the entry of a descriptor that is not accelerated. *)
Lemma tidy_free s s' fds fd v t :
  tidy s fds -> view (fd_table s) !! v = Some (mkMap t fd) ->
  fd_table s' = (free (fd_table s) v).2 ->
  (forall r i, by_fd_ (conns s') !! r = Some i -> r <> fd /\ is_Some (by_fd_ (conns s) !! r)) ->
  tidy s' fds /\ tidy s' (fds ∖ {[fd]}) /\ ~ tracked s' fd.
Proof.
  intros [Hw Ho Ht Hc] Hv E1 E2. destruct (free_view (fd_table s) v Hw) as (Hw' & Hview & _).
  assert (Hne : forall u x r, view (fd_table s') !! u = Some (mkMap x r) ->
    r <> fd /\ view (fd_table s) !! u = Some (mkMap x r)).
  { intros u x r. rewrite E1, Hview, lookup_delete_Some. intros [Hu H]. split; [|done].
    intros ->. by destruct (Hu (Ho _ _ _ _ _ Hv H)). }
  assert (Hnt : ~ tracked s' fd) by (intros (u & x & Hu); by destruct (Hne _ _ _ Hu)).
  assert (Hcn : forall r i, by_fd_ (conns s') !! r = Some i ->
    exists u x, view (fd_table s') !! u = Some (mkMap x r)).
  { intros r i Hr. destruct (E2 _ _ Hr) as [Hrf [j Hj]]. destruct (Hc _ _ Hj) as (u & x & Hu).
    exists u, x. rewrite E1, Hview, lookup_delete_ne; [done|]. intros <-. congruence. }
  assert (Hon : forall v1 v2 t1 t2 r, view (fd_table s') !! v1 = Some (mkMap t1 r) ->
    view (fd_table s') !! v2 = Some (mkMap t2 r) -> v1 = v2).
  { intros v1 v2 t1 t2 r [_ H1]%Hne [_ H2]%Hne. by eapply Ho. }
  split_and!; [| |done]; (split; [by rewrite E1|done| |done]); intros v1 t1 r [? H1]%Hne;
    apply Ht in H1 as (? & ? & ?); set_solver.
Qed.

(** The last reference to a resource is gone when its only entry is. *)
Lemma free_last s fds fd v t :
  tidy s fds -> view (fd_table s) !! v = Some (mkMap t fd) -> (free (fd_table s) v).1 = 0.
Proof.
  intros [Hw Ho Ht _] Hv. destruct (free_view (fd_table s) v Hw) as (_ & _ & ->).
  unfold others. rewrite Hv. case_decide; [done|]. unfold holders.
  replace (filter _ _) with (∅ : gmap Z FdMapping); [done|]. symmetry. apply map_eq. intros w.
  rewrite lookup_empty. apply map_lookup_filter_None. right. intros [u r].
  rewrite lookup_delete_Some. simpl. intros [Hwv Hu] [= -> ->]. by destruct (Hwv (Ho _ _ _ _ _ Hv Hu)).
Qed.

Lemma release_same s i : fd_table (release s i) = fd_table s /\ by_fd_ (conns (release s i)) = by_fd_ (conns s).
Proof. unfold release. by destruct (referenced s i). Qed.

Lemma close_tidy s fds fd :
  tidy s fds -> (forall i, by_fd_ (conns s) !! fd = Some i -> is_Some (store (conns s) !! i)) ->
  let '(real, s') := close true s fd in
  real = true /\ tidy s' (fds ∖ {[fd]}) /\ ~ tracked s' fd /\ by_fd_ (conns s') !! fd = None.
Proof.
  intros Htd Hst. unfold close. cbn [negb].
  assert (Hgone : ~ tracked s fd -> tidy s (fds ∖ {[fd]}) /\ by_fd_ (conns s) !! fd = None).
  { intros Hnt. pose proof Htd as [Hw Ho Ht Hc]. split.
    - split; try done. intros v t r Hv. destruct (Ht _ _ _ Hv) as (? & ? & ?). split_and!; [done|done|].
      apply elem_of_difference. split; [done|]. rewrite elem_of_singleton. intros ->. apply Hnt. by exists v, t.
    - destruct (by_fd_ (conns s) !! fd) as [i|] eqn:E; [|done]. by destruct (Hnt (Hc _ _ E)). }
  destruct (Z.lt_ge_cases fd 0) as [Hneg|Hpos].
  { rewrite track_of_negative by done. simpl. assert (Hnt : ~ tracked s fd).
    { intros (v & t & Hv). destruct (td_types _ _ Htd _ _ _ Hv) as (_ & ? & _). lia. }
    destruct (Hgone Hnt). done. }
  destruct (track_of_spec s fds fd Htd ltac:(lia)) as [[Hk Hnt]|[Hk [t Hv]]].
  { destruct (Z.ltb_spec (track_of (fd_table s) fd) 0); [|lia]. by destruct (Hgone Hnt). }
  destruct (Z.ltb_spec (track_of (fd_table s) fd) 0); [lia|].
  pose proof (free_last s fds fd _ t Htd Hv) as Hlast.
  destruct (free (fd_table s) (track_of (fd_table s) fd)) as [refs tbl] eqn:Ef. simpl in Hlast. subst refs.
  assert (Etbl : tbl = (free (fd_table s) (track_of (fd_table s) fd)).2) by (by rewrite Ef).
  simpl. destruct (by_fd_ (conns s) !! fd) as [i|] eqn:Efd.
  - destruct (Hst i eq_refl) as [c Hc]. rewrite Hc. split; [done|].
    set (s' := release _ _). destruct (release_same (fold_counters (set_reg (inc_totals (set_table s tbl) id inc1 id)
      (mkConns (delete fd (by_fd_ (conns s))) (store (conns s))) (watched_ s)) c) i) as [E1 E2].
    fold s' in E1, E2. simpl in E1, E2.
    destruct (tidy_free s s' fds fd _ t Htd Hv) as (_ & ? & ?).
    + by rewrite E1.
    + intros r j. rewrite E2, lookup_delete_Some. intros [? Hr]. split; [done|eauto].
    + split_and!; [done|done|]. by rewrite E2, lookup_delete_eq.
  - split; [done|]. destruct (tidy_free s (inc_totals (set_table s tbl) id inc1 id) fds fd _ t Htd Hv) as (_ & ? & ?).
    + done.
    + simpl. intros r j Hr. split; [congruence|eauto].
    + done.
Qed.

(** References in the registry lead to connections. *)
Definition alive (s : State) : Prop :=
  forall fd i, by_fd_ (conns s) !! fd = Some i -> is_Some (store (conns s) !! i).

Lemma alive_alter s s' f i :
  alive s -> by_fd_ (conns s') ⊆ by_fd_ (conns s) -> store (conns s') = alter f i (store (conns s)) -> alive s'.
Proof.
  intros Ha Hsub E fd j Hj. rewrite E. apply (lookup_weaken _ _ _ _ Hj) in Hsub.
  destruct (decide (i = j)) as [->|]; [rewrite lookup_alter_eq|rewrite lookup_alter_ne by done; eauto].
  destruct (Ha _ _ Hsub) as [c ->]. by eexists.
Qed.

Lemma alive_same s s' :
  alive s -> by_fd_ (conns s') ⊆ by_fd_ (conns s) -> store (conns s') = store (conns s) -> alive s'.
Proof. intros Ha Hsub E fd j Hj. rewrite E. eapply Ha. by eapply lookup_weaken. Qed.

Lemma alive_upgrade s fd env : alive s -> alive (maybe_upgrade_to_shm true s fd env).
Proof.
  intros Ha. unfold maybe_upgrade_to_shm. cbn [negb]. set (s1 := if _ && _ then _ else s).
  assert (H1 : alive s1) by (subst s1; by destruct (_ && _)). clearbody s1.
  destruct (sockname env) as [[]|]; [|done..]. destruct (peername env) as [[]|]; [|done..].
  destruct (_ || _); [done|]. destruct (attach env _ _) as [c|]; [|done].
  intros r i. cbn [install_new set_reg install by_fd_ conns store count_attach].
  rewrite lookup_insert_Some. intros [[_ <-]|[_ Hr]]; [rewrite lookup_insert_eq; by eexists|].
  destruct (decide (fresh (dom (store (conns s1))) = i)) as [<-|Hne]; [rewrite lookup_insert_eq; by eexists|].
  rewrite lookup_insert_ne by done. by eapply H1.
Qed.

Lemma alive_close s fd : alive s -> alive (close true s fd).2.
Proof.
  intros Ha. unfold close. cbn [negb]. destruct (track_of _ _ <? 0); [done|].
  destruct (free _ _) as [refs tbl]. destruct (0 <? refs); [done|]. cbn [remove].
  destruct (by_fd_ _ !! fd) as [i|]; [|done]. destruct (store _ !! i) as [c|]; [|done]. simpl.
  unfold release. destruct (referenced _ _).
  - apply (alive_same s); [done|apply delete_subseteq|done].
  - apply (alive_alter s _ close_segment i); [done|apply delete_subseteq|done].
Qed.

Lemma alive_epoll s op fd ev r : alive s -> alive (epoll_ctl true s op fd ev r).2.
Proof.
  intros Ha. unfold epoll_ctl. destruct (route true s fd) as [i|]; [|done].
  destruct op; repeat destruct (_ <? _); repeat destruct (_ <=? _); try done; by eapply alive_alter.
Qed.

Lemma epoll_same s op fd ev r :
  fd_table (epoll_ctl true s op fd ev r).2 = fd_table s
  /\ by_fd_ (conns (epoll_ctl true s op fd ev r).2) = by_fd_ (conns s).
Proof.
  unfold epoll_ctl. destruct (route true s fd) as [i|]; [|done].
  destruct op; repeat destruct (_ <? _); repeat destruct (_ <=? _); done.
Qed.

(** The type of a tracked descriptor, as [lookup] gives it. *)
Lemma lookup_view tbl v m : view tbl !! v = Some m -> FdRemap.lookup tbl v = m.
Proof.
  rewrite view_lookup. unfold FdRemap.lookup. destruct (v <? 0); [done|]. case_decide as Hu; [done|].
  intros [= <-]. destruct (Nat.leb_spec (length (forward_ tbl)) (Z.to_nat v)) as [Hl|]; [|done].
  unfold fwd in Hu. rewrite lookup_ge_None_2 in Hu by done. done.
Qed.

(** Duplicating a tracked descriptor onto one that is not tracked. *)
Lemma tidy_dup s fds fd new_fd :
  tidy s fds -> 0 <= fd -> 0 <= new_fd -> new_fd ∉ fds ->
  tidy (dup true s fd new_fd) ({[new_fd]} ∪ fds).
Proof.
  intros Htd Hfd Hnew Hni. unfold dup. cbn [negb].
  destruct (track_of_spec s fds fd Htd Hfd) as [[Hk _]|[Hk [t Hv]]].
  { destruct (Z.ltb_spec (track_of (fd_table s) fd) 0); [|lia]. by apply (tidy_same s _ fds); [..|set_solver]. }
  destruct (Z.ltb_spec (track_of (fd_table s) fd) 0); [lia|]. destruct (Z.ltb_spec new_fd 0); [lia|].
  rewrite (lookup_view _ _ _ Hv). destruct (td_types _ _ Htd _ _ _ Hv) as (Ht & _ & _).
  destruct (tidy_alloc s fds t new_fd Htd) as [H1 _]; [|done|done|by apply (tidy_same _ _ _ _ H1)].
  intros (u & x & Hu). by destruct (td_types _ _ Htd _ _ _ Hu) as (_ & _ & ?).
Qed.

Lemma fcntl_dup s fd rc : 0 <= rc -> fcntl true s fd F_DUPFD rc = dup true s fd rc.
Proof.
  intros Hrc. unfold fcntl, dup. destruct (Z.leb_spec 0 rc); [|lia]. cbn [negb andb F_DUPFD Z.eqb].
  destruct (Z.leb_spec 0 (track_of (fd_table s) fd)), (Z.ltb_spec (track_of (fd_table s) fd) 0); try lia; [|done].
  by destruct (Z.ltb_spec rc 0); [lia|].
Qed.

Lemma tidy_dup2 s fds a b :
  tidy s fds -> a <> b -> 0 <= b -> by_fd_ (conns s) !! b = None ->
  tidy (dup2 true s a b b) ({[b]} ∪ fds).
Proof.
  intros Htd Hab Hb Hnc. unfold dup2. cbn [negb]. destruct (Z.ltb_spec b 0); [lia|].
  destruct (Z.lt_ge_cases a 0) as [Ha|Ha].
  { rewrite (track_of_negative _ a) by done. simpl. by apply (tidy_same s _ fds); [..|set_solver]. }
  destruct (track_of_spec s fds a Htd Ha) as [[Hk _]|[Hk [t Hv]]].
  { destruct (Z.ltb_spec (track_of (fd_table s) a) 0); [|lia]. by apply (tidy_same s _ fds); [..|set_solver]. }
  destruct (Z.ltb_spec (track_of (fd_table s) a) 0); [lia|].
  destruct (td_types _ _ Htd _ _ _ Hv) as (Ht & _ & _).
  set (tbl := if 0 <=? track_of (fd_table s) b then _ else _).
  assert (H1 : tidy (set_table s tbl) fds /\ ~ tracked (set_table s tbl) b
    /\ view tbl !! track_of (fd_table s) a = Some (mkMap t a)).
  { subst tbl. destruct (track_of_spec s fds b Htd Hb) as [[Hkb Hnt]|[Hkb [u Hu]]].
    - destruct (Z.leb_spec 0 (track_of (fd_table s) b)); [lia|].
      split_and!; [by apply (tidy_same s _ fds)|done|done].
    - destruct (Z.leb_spec 0 (track_of (fd_table s) b)); [|lia].
      destruct (tidy_free s (set_table s (free (fd_table s) (track_of (fd_table s) b)).2) fds b _ u Htd Hu)
        as (? & _ & ?); [done| |].
      + simpl. intros r i Hr. split; [congruence|eauto].
      + split_and!; [done|done|]. destruct (free_view (fd_table s) (track_of (fd_table s) b) (td_wf _ _ Htd)) as (_ & -> & _).
        rewrite lookup_delete_ne; [done|]. intros E. rewrite E in Hu. congruence. }
  destruct H1 as (H1 & Hnt & Hva). rewrite (lookup_view _ _ _ Hva).
  destruct (tidy_alloc (set_table s tbl) fds t b H1 Hnt Hb Ht) as [H2 _].
  by apply (tidy_same _ _ _ _ H2).
Qed.

Lemma app_step_tidy s fds o :
  tidy s fds -> alive s -> app_ok s fds o ->
  let '(s', fds') := app_step s fds o in tidy s' fds' /\ alive s'.
Proof.
  intros Htd Ha Hok. destruct o as [d t fd|c env|fd env|fd|fd n|fd cmd rc|a b|op fd ev r]; cbn [app_step app_ok] in *.
  - destruct Hok as [Hp Hni]. split; [|unfold socket; by destruct (_ <? _)].
    unfold socket. destruct (Z.ltb_spec fd 0); [lia|]. cbn [negb].
    destruct (tidy_alloc (inc_totals s inc1 id id) fds (classify d t) fd) as [H1 _]; [by apply (tidy_same s _ fds)| |done| |done].
    + intros (u & x & Hu). by destruct (td_types _ _ Htd _ _ _ Hu) as (_ & _ & ?).
    + unfold classify. destruct (_ && _); auto.
  - destruct Hok as [Hp Hni]. unfold accept. destruct (Z.leb_spec 0 c); [|lia].
    split; [by apply tidy_upgrade|by apply alive_upgrade].
  - destruct Hok as [Hp Hin]. unfold connect. cbn [Z.eqb]. split; [|by apply alive_upgrade].
    replace fds with ({[fd]} ∪ fds) by set_solver. by apply tidy_upgrade.
  - pose proof (close_tidy s fds fd Htd (Ha fd)) as Hc. pose proof (alive_close s fd Ha) as Ha'.
    destruct (close true s fd) as [real s']. by destruct Hc as (-> & ? & _).
  - destruct Hok as [Hp Hni]. split; [|unfold dup; by repeat destruct (_ <? _)].
    destruct (Z.lt_ge_cases fd 0); [|by apply tidy_dup].
    unfold dup. rewrite track_of_negative by done. by apply (tidy_same s _ fds); [..|set_solver].
  - destruct Hok as [Hp Hni]. split; [|unfold fcntl; destruct (_ && _); [by destruct (_ <=? _)|done]].
    destruct (Z.eqb_spec cmd F_DUPFD) as [->|Hne].
    + rewrite fcntl_dup by done. destruct (Z.lt_ge_cases fd 0); [|by apply tidy_dup; auto].
      unfold dup. rewrite track_of_negative by done. by apply (tidy_same s _ fds); [..|set_solver].
    + unfold fcntl. destruct (Z.eqb_spec cmd F_DUPFD); [done|]. by rewrite andb_false_r.
  - destruct Hok as (Hab & Hb & Hnc). split; [by apply tidy_dup2|].
    unfold dup2. cbn [negb]. by repeat destruct (_ <? _).
  - destruct (epoll_same s op fd ev r) as [E1 E2]. split; [by apply (tidy_same s _ fds)|by apply alive_epoll].
Qed.

Lemma app_run_tidy s fds ops :
  tidy s fds -> alive s -> app_history s fds ops ->
  tidy (app_run s fds ops).1 (app_run s fds ops).2 /\ alive (app_run s fds ops).1.
Proof.
  revert s fds. induction ops as [|o ops IH]; intros s fds Htd Ha Hh; [done|]. cbn [app_run app_history] in *.
  destruct Hh as [Hok Hh]. pose proof (app_step_tidy s fds o Htd Ha Hok) as Hs.
  destruct (app_step s fds o) as [s' fds']. destruct Hs. by apply IH.
Qed.

(** ** Theorems *)

(** C10: the library's tables follow the application's descriptors: after any
    history of the hooked calls (with [dup2] not aimed at its own source or at
    an accelerated descriptor), a descriptor that is not open is neither
    tracked nor accelerated, so a descriptor number the kernel hands out again
    never inherits the connection of an earlier one; and closing a descriptor
    calls the real [close] once and leaves it untracked and routed to libc. *)
Theorem descriptors_tidy fds0 ops :
  app_history start fds0 ops ->
  let '(s, fds) := app_run start fds0 ops in
  (forall fd, fd ∉ fds -> ~ tracked s fd /\ route true s fd = None)
  /\ (forall fd, let '(real, s') := close true s fd in
        real = true /\ ~ tracked s' fd /\ route true s' fd = None).
Proof.
  intros Hh. destruct (app_run_tidy start fds0 ops (start_tidy fds0)) as [Htd Ha]; [done|done|].
  destruct (app_run start fds0 ops) as [s fds]. simpl in Htd, Ha. split.
  - intros fd Hni. assert (Hnt : ~ tracked s fd).
    { intros (v & t & Hv). by destruct (td_types _ _ Htd _ _ _ Hv) as (_ & _ & ?). }
    split; [done|]. unfold route, lookup. destruct (by_fd_ (conns s) !! fd) as [i|] eqn:E; [|done].
    by destruct (Hnt (td_conn _ _ Htd _ _ E)).
  - intros fd. pose proof (close_tidy s fds fd Htd (Ha fd)) as Hc.
    destruct (close true s fd) as [real s']. destruct Hc as (-> & _ & ? & E). split_and!; [done|done|].
    unfold route, lookup. by rewrite E.
Qed.

(** ** Where the hooks leave the application's descriptors *)

(** A small accelerated connection. *)
Definition demo_env : upgrade_env :=
  mkUp (Some (SaInet 127 0 0 1 31 144)) (Some (SaInet 127 0 0 1 31 145))
    (fun _ _ => Some (Calls.demo_conn (Ring.init zero_ring) (Ring.init zero_ring))) (Some false).

(** [dup2] onto the same descriptor, which POSIX makes a no-operation, drops
    its tracking: the [close] that follows leaves the connection registered, and
    the next use of the number is routed to it. *)
Theorem dup2_self_loses_tracking :
  let s := maybe_upgrade_to_shm true start 5 demo_env in
  let s := dup2 true s 5 5 5 in
  track_of (fd_table s) 5 = -1 /\ (close true s 5).1 = true /\ route true (close true s 5).2 5 = Some 0%nat.
Proof. vm_compute. done. Qed.

(** [dup2] onto an accelerated descriptor leaves the old connection in the
    registry: what is then written to it goes to the old peer. *)
Theorem dup2_keeps_old_connection s a b :
  route true (dup2 true s a b b) b = route true s b.
Proof. unfold dup2. cbn [negb]. by repeat destruct (_ <? _). Qed.

(** A duplicate of an accelerated descriptor is not accelerated: it is routed to
    the kernel socket, which the peer does not read. *)
Theorem dup_not_accelerated :
  let s := maybe_upgrade_to_shm true start 5 demo_env in
  route true s 5 = Some 0%nat /\ route true (dup true s 5 6) 5 = Some 0%nat
  /\ route true (dup true s 5 6) 6 = None /\ 0 <= track_of (fd_table (dup true s 5 6)) 6.
Proof. vm_compute. split_and!; done. Qed.

(** A descriptor closed while it is in an epoll set keeps its connection alive:
    the poller still refers to it, so the segment is not closed and the peer's
    ring is not marked. *)
Theorem close_watched_stays_open :
  let s := maybe_upgrade_to_shm true start 5 demo_env in
  let s1 := (close true s 5).2 in
  let s2 := (close true (epoll_ctl true s EPOLL_CTL_ADD 5 (Some (mkEv 1 5)) 9).2 5).2 in
  (is_open ∘ segment <$> store (conns s1) !! 0%nat) = Some false
  /\ (is_open ∘ segment <$> store (conns s2) !! 0%nat) = Some true
  /\ (Ring.peer_closed ∘ ring_out ∘ segment <$> store (conns s2) !! 0%nat) = Some false.
Proof. vm_compute. split_and!; done. Qed.

(** The application's [data] does not survive [epoll_ctl] on an accelerated
    descriptor: whatever it holds, the registration reads back the descriptor. *)
Theorem epoll_data_overwritten s i c fd e r :
  route true s fd = Some i -> store (conns s) !! i = Some c -> 0 <= notify_fd c -> 0 <= fd < 2 ^ 31 ->
  exists e', (epoll_ctl true s EPOLL_CTL_ADD fd (Some e) r).1 = Some (mkCall EPOLL_CTL_ADD (notify_fd c) (Some e'))
             /\ data_fd e' = fd.
Proof.
  intros Hr Hc Hn Hfd. unfold epoll_ctl. rewrite Hr, Hc.
  destruct (Z.ltb_spec (notify_fd c) 0); [lia|]. destruct (Z.ltb_spec (notify_fd c) 0); [lia|].
  eexists. split; [done|]. unfold data_fd, set_data_fd, swrap32, uwrap; simpl.
  replace ((data e - data e mod 2 ^ 32 + fd mod 2 ^ 32) mod 2 ^ 32) with fd.
  - rewrite Z.mod_small by lia. lia.
  - rewrite (Z.mod_small fd) by lia. rewrite <- Zplus_mod_idemp_l, Zminus_mod_idemp_r, Z.sub_diag.
    rewrite Z.mod_0_l, Z.add_0_l by lia. by rewrite Z.mod_small by lia.
Qed.

(** [fcntl(F_SETFL)] changes the kernel descriptor only: the connection keeps
    the blocking mode it had when it was attached. *)
Theorem setfl_ignored s fd rc : fcntl true s fd F_SETFL rc = s.
Proof. unfold fcntl. by rewrite andb_false_r. Qed.

(** ** Witnesses *)

Definition demo_history : list app_op :=
  [ASocket 2 1 5; AConnect 5 demo_env; ADup 5 6; ASocket 2 2 7; ADup2 7 6;
   AEpoll EPOLL_CTL_ADD 5 (Some (mkEv 1 5)) 9; AClose 5; AAccept 5 demo_env].

Lemma demo_history_ok : app_history start {[0; 1; 2]} demo_history.
Proof.
  repeat (split; [vm_compute; repeat split; congruence|]; cbn -[app_step app_history]; cbv beta iota;
          match goal with |- context [app_step ?s ?f ?o] =>
            let r := eval vm_compute in (app_step s f o) in change (app_step s f o) with r end; cbv iota).
  exact I.
Qed.

Lemma descriptors_tidy_witness :
  let '(s, fds) := app_run start {[0; 1; 2]} demo_history in
  (forall fd, fd ∉ fds -> ~ tracked s fd /\ route true s fd = None)
  /\ (forall fd, let '(real, s') := close true s fd in
        real = true /\ ~ tracked s' fd /\ route true s' fd = None).
Proof. apply (descriptors_tidy {[0; 1; 2]} demo_history). exact demo_history_ok. Defined.

End FdHooks.
