(* ===== verification/LibMetrics.v ===== *)
(** * The metrics snapshot of the preload library

    [src/lib/metrics_dump.cpp]: the totals over live and closed connections, the
    text of the snapshot and the steps by which it replaces the old one. *)

From Stdlib Require Import ZArith Lia Ascii.
From stdpp Require Import strings gmap numbers base list.
From S2P Require Import Prelude Text MonitorIpc Metrics ShmRing FdRemap ShmSegment ShmConn DataPath FdHooks.

Module LibMetrics.
Import Text Ipc ShmConn FdHooks.

(** [current_path]; the empty string disables the export. *)
Definition current_path (metrics_dir : string) (pid : Z) : string :=
  if String.eqb metrics_dir "" then "" else metrics_dir +:+ "/" +:+ dec_d pid +:+ ".prom".

(** What [snprintf] leaves in a buffer of [n] bytes. *)
Definition snprintf (n : nat) (s : string) : string := str_take (n - 1) s.

Definition nls : string := String nl "".

(** The text of one metric; [kind] is [counter] or [gauge]. *)
Definition metric_text (kind name help : string) (value pid : Z) : string :=
  "# HELP " +:+ name +:+ " " +:+ help +:+ nls +:+ "# TYPE " +:+ name +:+ " " +:+ kind +:+ nls
  +:+ name +:+ "{pid=" +:+ String dq "" +:+ dec_d pid +:+ String dq "" +:+ "} " +:+ dec_u value +:+ nls.

Definition emit_counter (name help : string) (value pid : Z) : string :=
  snprintf 256 (metric_text "counter" name help value pid).
Definition emit_gauge (name help : string) (value pid : Z) : string :=
  snprintf 256 (metric_text "gauge" name help value pid).

(** Sum of a counter over the registry's snapshot, in 64 bits. *)
Fixpoint live_sum (f : Conn -> Z) (st : gmap nat Conn) (snap : list nat) (acc : Z) : Z :=
  match snap with
  | [] => acc
  | i :: snap =>
      live_sum f st snap (match st !! i with Some c => u64 (acc + f c) | None => acc end)
  end.

Definition live (f : Conn -> Z) (s : State) : Z := live_sum f (store (conns s)) (snapshot (conns s)) 0.
Definition live_conns (s : State) : Z :=
  Z.of_nat (length (List.filter (fun i => bool_decide (is_Some (store (conns s) !! i))) (snapshot (conns s)))).

Definition total_sent (s : State) : Z := u64 (live bytes_sent s + shm_bytes_sent_closed s).
Definition total_recv (s : State) : Z := u64 (live bytes_recv s + shm_bytes_recv_closed s).
Definition total_full (s : State) : Z := u64 (live ring_full_blocks s + shm_ring_full_closed s).
Definition total_empty (s : State) : Z := u64 (live ring_empty_blocks s + shm_ring_empty_closed s).

Definition render_lib_metrics (s : State) (pid : Z) : string :=
  emit_counter "socksdirect_lib_shm_bytes_sent_total" "bytes sent through the SHM data plane" (total_sent s) pid
  +:+ emit_counter "socksdirect_lib_shm_bytes_recv_total" "bytes received through the SHM data plane" (total_recv s) pid
  +:+ emit_counter "socksdirect_lib_shm_ring_full_blocks_total" "send blocked because the SHM ring was full" (total_full s) pid
  +:+ emit_counter "socksdirect_lib_shm_ring_empty_blocks_total" "recv blocked because the SHM ring was empty" (total_empty s) pid
  +:+ emit_counter "socksdirect_lib_shm_conns_total" "SHM connections opened by this process" (shm_conns_total s) pid
  +:+ emit_counter "socksdirect_lib_shm_conn_closed_total" "SHM connections closed by this process" (shm_conn_closed_total s) pid
  +:+ emit_gauge "socksdirect_lib_shm_conns_live" "currently-open SHM connections" (live_conns s) pid.

(** The file operations of a snapshot. *)
Inductive file_op :=
  | FOpen (path : string) | FWrite (bytes : string) | FClose | FUnlink (path : string)
  | FRename (from to : string) | FRenameFailed (from to : string).

(** [dump_lib_metrics_once]: the result and the operations, on the results of
    [open], of the [write] calls and of [rename]. *)
Definition dump_lib_metrics_once (metrics_dir : string) (s : State) (pid : Z) (open_ok : bool)
    (writes : list writen) (rename_ok : bool) : option (bool * list file_op) :=
  let path := current_path metrics_dir pid in
  if String.eqb path "" then Some (false, [])
  else
    let tmp := path +:+ ".tmp" in
    if negb open_ok then Some (false, [FOpen tmp])
    else
      match write_all (render_lib_metrics s pid) writes with
      | None => None
      | Some (false, w) => Some (false, [FOpen tmp; FWrite w; FClose; FUnlink tmp])
      | Some (true, w) =>
          if rename_ok then Some (true, [FOpen tmp; FWrite w; FClose; FRename tmp path])
          else Some (false, [FOpen tmp; FWrite w; FClose; FRenameFailed tmp path; FUnlink tmp])
      end.

Definition remove_lib_metrics_file (metrics_dir : string) (pid : Z) : list file_op :=
  let path := current_path metrics_dir pid in
  if String.eqb path "" then [] else [FUnlink path].

(** What a reader finds under a name, through a list of file operations. *)
Definition apply_file (fs : gmap string string * string) (o : file_op) : gmap string string * string :=
  let '(m, cur) := fs in
  match o with
  | FOpen p => (<[p := ""]> m, p)
  | FWrite b => (alter (fun old => old +:+ b) cur m, cur)
  | FClose | FRenameFailed _ _ => (m, cur)
  | FUnlink p => (delete p m, cur)
  | FRename a b => (match m !! a with Some c => <[b := c]> (delete a m) | None => m end, cur)
  end.

(** ** Lemmas *)

Lemma snprintf_fits n s : (String.length s < n)%nat -> snprintf n s = s.
Proof.
  unfold snprintf. intros H. assert (Hl : (String.length s <= n - 1)%nat) by lia. clear H.
  revert s Hl. generalize (n - 1)%nat as k. induction k as [|k IH]; intros [|c s] Hl; simpl in *; try done; [lia|].
  by rewrite IH by lia.
Qed.

Lemma dec_loop_length fuel n acc k :
  (n < 10 ^ N.of_nat (S k))%N -> (String.length (dec_loop fuel n acc) <= String.length acc + S k)%nat.
Proof.
  revert n acc k. induction fuel as [|fuel IH]; intros n acc k Hn; simpl; [lia|].
  destruct (N.ltb_spec n 10) as [Hlt|Hge]; [simpl; lia|]. destruct k as [|k].
  { simpl in Hn. lia. }
  etrans; [apply (IH (n / 10)%N _ k)|simpl; lia].
  apply N.Div0.div_lt_upper_bound. rewrite Nat2N.inj_succ, N.pow_succ_r' in Hn. exact Hn.
Qed.

Lemma dec_u_length n k : 0 <= n < 10 ^ Z.of_nat (S k) -> (String.length (dec_u n) <= S k)%nat.
Proof.
  intros Hn. unfold dec_u. etrans; [apply (dec_loop_length _ _ _ k)|simpl; lia].
  apply N2Z.inj_lt. rewrite Z2N.id, N2Z.inj_pow by lia. rewrite nat_N_Z. simpl (Z.of_N 10). lia.
Qed.

Lemma path_ne_tmp (path : string) : path +:+ ".tmp" <> path.
Proof. intros H. apply (f_equal String.length) in H. rewrite sapp_length in H. simpl in H. lia. Qed.

(** The sum of a counter over the snapshot, without wrap-around. *)
Definition raw_sum (f : Conn -> Z) (s : State) : Z :=
  foldr (fun i y => match store (conns s) !! i with Some c => f c + y | None => y end) 0 (snapshot (conns s)).

Lemma live_raw f s x : u64 (live f s + x) = u64 (raw_sum f s + x).
Proof.
  unfold live, raw_sum. cut (forall acc, u64 (live_sum f (store (conns s)) (snapshot (conns s)) acc + x)
    = u64 (acc + foldr (fun i y => match store (conns s) !! i with Some c => f c + y | None => y end) 0
                   (snapshot (conns s)) + x)); [intros H; apply (H 0)|].
  induction (snapshot (conns s)) as [|i l IH]; intros acc; simpl; [f_equal; lia|]. rewrite IH.
  destruct (store (conns s) !! i) as [c|]; [|done].
  rewrite <- (Z.add_assoc (u64 _)), uwrap_add_l. f_equal. lia.
Qed.

Lemma foldr_perm (g : nat -> Z) l l' :
  l ≡ₚ l' -> foldr (fun i y => g i + y) 0 l = foldr (fun i y => g i + y) 0 l'.
Proof. induction 1; simpl; lia. Qed.

Lemma raw_sum_alt f s :
  raw_sum f s = foldr (fun i y => (match store (conns s) !! i with Some c => f c | None => 0 end) + y) 0
                  (snapshot (conns s)).
Proof.
  unfold raw_sum. induction (snapshot (conns s)) as [|i l IH]; [done|]. simpl. rewrite IH.
  by destruct (store (conns s) !! i).
Qed.

(** Removing a descriptor from the registry removes its connection's share. *)
Lemma raw_sum_remove f s s' fd i c g :
  by_fd_ (conns s) !! fd = Some i -> store (conns s) !! i = Some c ->
  by_fd_ (conns s') = delete fd (by_fd_ (conns s)) ->
  (forall j, store (conns s') !! j = store (conns s) !! j \/ store (conns s') = alter g i (store (conns s))) ->
  (forall x, f (g x) = f x) ->
  raw_sum f s = f c + raw_sum f s'.
Proof.
  intros Hfd Hc Hby Hst Hg. rewrite !raw_sum_alt. unfold snapshot.
  rewrite (foldr_perm _ (map_to_list (by_fd_ (conns s))).*2 (i :: (map_to_list (by_fd_ (conns s'))).*2)).
  2:{ rewrite Hby. change (i :: ?l) with ((fd, i) :: map_to_list (delete fd (by_fd_ (conns s)))).*2.
      apply fmap_Permutation. by rewrite map_to_list_delete. }
  simpl. rewrite Hc. f_equal. induction ((map_to_list (by_fd_ (conns s'))).*2) as [|j l IH]; [done|].
  simpl. rewrite IH. f_equal. destruct (Hst j) as [->|E]; [done|]. rewrite E.
  destruct (decide (i = j)) as [<-|Hne]; [|by rewrite lookup_alter_ne].
  rewrite lookup_alter_eq, Hc. simpl. done.
Qed.

(** What [close] does to the registry and to the totals of closed
    connections. *)
Lemma close_cases s fd :
  let s' := (close true s fd).2 in
  (by_fd_ (conns s') = by_fd_ (conns s) /\ store (conns s') = store (conns s)
   /\ shm_bytes_sent_closed s' = shm_bytes_sent_closed s /\ shm_bytes_recv_closed s' = shm_bytes_recv_closed s
   /\ shm_ring_full_closed s' = shm_ring_full_closed s /\ shm_ring_empty_closed s' = shm_ring_empty_closed s)
  \/ exists i c, by_fd_ (conns s) !! fd = Some i /\ store (conns s) !! i = Some c
      /\ by_fd_ (conns s') = delete fd (by_fd_ (conns s))
      /\ (store (conns s') = store (conns s) \/ store (conns s') = alter close_segment i (store (conns s)))
      /\ shm_bytes_sent_closed s' = u64 (shm_bytes_sent_closed s + bytes_sent c)
      /\ shm_bytes_recv_closed s' = u64 (shm_bytes_recv_closed s + bytes_recv c)
      /\ shm_ring_full_closed s' = u64 (shm_ring_full_closed s + ring_full_blocks c)
      /\ shm_ring_empty_closed s' = u64 (shm_ring_empty_closed s + ring_empty_blocks c).
Proof.
  unfold close. cbn [negb]. destruct (track_of _ _ <? 0); [by left|].
  destruct (FdRemap.free _ _) as [refs tbl]. destruct (0 <? refs); [by left|]. cbn [remove].
  simpl. destruct (by_fd_ (conns s) !! fd) as [i|] eqn:Ei; [|by left].
  destruct (store (conns s) !! i) as [c|] eqn:Ec; [|by left]. right. exists i, c. simpl.
  unfold release. destruct (referenced _ _); split_and!; auto.
Qed.

Lemma fold_total f closed closed' s s' fd i c :
  by_fd_ (conns s) !! fd = Some i -> store (conns s) !! i = Some c ->
  by_fd_ (conns s') = delete fd (by_fd_ (conns s)) ->
  store (conns s') = store (conns s) \/ store (conns s') = alter close_segment i (store (conns s)) ->
  (forall x, f (close_segment x) = f x) -> closed' = u64 (closed + f c) ->
  u64 (live f s' + closed') = u64 (live f s + closed).
Proof.
  intros Hi Hc Hby Hst Hf ->. rewrite !live_raw.
  rewrite (raw_sum_remove f s s' fd i c close_segment) by (done || (intros j; destruct Hst as [->|]; auto)).
  rewrite Z.add_comm, uwrap_add_l. f_equal. lia.
Qed.

Lemma close_segment_counters c :
  bytes_sent (close_segment c) = bytes_sent c /\ bytes_recv (close_segment c) = bytes_recv c
  /\ ring_full_blocks (close_segment c) = ring_full_blocks c
  /\ ring_empty_blocks (close_segment c) = ring_empty_blocks c.
Proof. unfold close_segment. by destruct (is_open (segment c)). Qed.

(** ** Theorems *)

(** Closing a descriptor loses no byte of the accounting: the exported
    totals are the same before and after, the closed connection's share having
    moved from the live counters to the ones of closed connections. *)
Theorem close_preserves_totals s fd :
  let s' := (close true s fd).2 in
  total_sent s' = total_sent s /\ total_recv s' = total_recv s
  /\ total_full s' = total_full s /\ total_empty s' = total_empty s.
Proof.
  intros s'. unfold total_sent, total_recv, total_full, total_empty.
  destruct (close_cases s fd) as [(E1 & E2 & E3 & E4 & E5 & E6)|(i & c & Hi & Hc & Hby & Hst & E3 & E4 & E5 & E6)].
  - fold s' in E1, E2, E3, E4, E5, E6. unfold live, snapshot. rewrite E1, E2, E3, E4, E5, E6. done.
  - fold s' in Hby, Hst, E3, E4, E5, E6.
    split_and!; (eapply fold_total; [exact Hi|exact Hc|done|done|intros x; apply close_segment_counters|done]).
Qed.

(** A scraper never sees half a snapshot: at every point of the file
    operations of a dump, whatever the system calls answer, the published name
    holds what it held before or the whole new text, and the latter exactly
    when the dump reports success. *)
Theorem snapshot_atomic dir s pid open_ok ws rename_ok res ops m k :
  dump_lib_metrics_once dir s pid open_ok ws rename_ok = Some (res, ops) -> dir <> "" ->
  let path := current_path dir pid in
  let now n := (foldl apply_file (m, "") (take n ops)).1 !! path in
  (now k = m !! path \/ now k = Some (render_lib_metrics s pid))
  /\ (res = true -> now (length ops) = Some (render_lib_metrics s pid))
  /\ (res = false -> now (length ops) = m !! path).
Proof.
  intros H Hdir path now. unfold dump_lib_metrics_once in H. fold path in H.
  pose proof (path_ne_tmp path) as Hne. set (tmp := path +:+ ".tmp") in *.
  destruct (String.eqb_spec path "") as [Hp|_].
  { unfold path, current_path in Hp. destruct (String.eqb_spec dir ""); [done|]. destruct dir; [done|discriminate]. }
  assert (Hins : forall x, (<[tmp := x]> m) !! path = m !! path) by (intros; by rewrite lookup_insert_ne).
  assert (Halt : forall f x, (alter f tmp (<[tmp := x]> m)) !! path = m !! path)
    by (intros; by rewrite lookup_alter_ne, lookup_insert_ne).
  assert (Hdel : forall f x, (delete tmp (alter f tmp (<[tmp := x]> m))) !! path = m !! path)
    by (intros; by rewrite lookup_delete_ne, Halt).
  subst now. cbv beta. rewrite firstn_all. destruct open_ok; cbn [negb] in H.
  2:{ simplify_eq. split_and!; [left; destruct k as [|[|k]]; simpl; auto|done|intros _; apply Hins]. }
  destruct (write_all (render_lib_metrics s pid) ws) as [[b w]|] eqn:Ew; [|done].
  destruct (write_all_prefix _ _ _ _ Ew) as (r & Hr & Hb). destruct b.
  - rewrite Hb, sapp_nil_r in Hr by done. subst w. destruct rename_ok; simplify_eq.
    + assert (Hfin : (foldl apply_file (m, "") [FOpen tmp; FWrite (render_lib_metrics s pid); FClose; FRename tmp path]).1 !! path
                     = Some (render_lib_metrics s pid)).
      { simpl. rewrite lookup_alter_eq, lookup_insert_eq. simpl. by rewrite lookup_insert_eq. }
      split_and!; [|done|done].
      destruct k as [|[|[|[|k]]]]; [left; simpl; auto..|right; by rewrite take_ge by (simpl; lia)].
    + split_and!; [|done|intros _; apply Hdel].
      destruct k as [|[|[|[|[|k]]]]]; left; simpl; auto. by rewrite take_nil; simpl; auto.
  - simplify_eq. split_and!; [|done|intros _; apply Hdel].
    destruct k as [|[|[|[|k]]]]; left; simpl; auto. by rewrite take_nil; simpl; auto.
Qed.

(** No line of the snapshot is cut off: with 64-bit values and any process
    id every metric fits the 256-byte buffer it is printed into. *)
Theorem metrics_not_truncated value pid :
  is_uint 64 value -> 0 <= pid < 2 ^ 31 ->
  Forall (fun nh => emit_counter nh.1 nh.2 value pid = metric_text "counter" nh.1 nh.2 value pid)
    [("socksdirect_lib_shm_bytes_sent_total", "bytes sent through the SHM data plane");
     ("socksdirect_lib_shm_bytes_recv_total", "bytes received through the SHM data plane");
     ("socksdirect_lib_shm_ring_full_blocks_total", "send blocked because the SHM ring was full");
     ("socksdirect_lib_shm_ring_empty_blocks_total", "recv blocked because the SHM ring was empty");
     ("socksdirect_lib_shm_conns_total", "SHM connections opened by this process");
     ("socksdirect_lib_shm_conn_closed_total", "SHM connections closed by this process")].
Proof.
  intros Hv Hp.
  assert (Hd : (String.length (dec_u value) <= 20)%nat) by (apply (dec_u_length value 19); unfold is_uint in Hv; lia).
  assert (Hq : (String.length (dec_d pid) <= 10)%nat).
  { unfold dec_d. destruct (Z.ltb_spec pid 0); [lia|]. apply (dec_u_length pid 9). lia. }
  assert (Hfit : forall name help, (3 * String.length name + String.length help <= 190)%nat ->
    emit_counter name help value pid = metric_text "counter" name help value pid).
  { intros name help Hnh. apply snprintf_fits. unfold metric_text, nls. rewrite !sapp_length.
    simpl (String.length _). simpl in *. lia. }
  repeat (apply Forall_cons; split; [apply Hfit; vm_compute; lia|]). by apply Forall_nil.
Qed.

(** ** Witnesses *)

Definition demo_ops : list file_op :=
  let body := render_lib_metrics start 42 in
  [FOpen "/m/42.prom.tmp"; FWrite body; FClose; FRename "/m/42.prom.tmp" "/m/42.prom"].

Lemma snapshot_atomic_witness :
  let path := current_path "/m" 42 in
  let m := {["/m/42.prom" := "old"]} : gmap string string in
  let now n := (foldl apply_file (m, "") (take n demo_ops)).1 !! path in
  (now 2%nat = m !! path \/ now 2%nat = Some (render_lib_metrics start 42))
  /\ (true = true -> now (length demo_ops) = Some (render_lib_metrics start 42))
  /\ (true = false -> now (length demo_ops) = m !! path).
Proof.
  apply (snapshot_atomic "/m" start 42 true [WOk 100; WErr EINTR; WOk 5000] true true demo_ops
           {["/m/42.prom" := "old"]} 2).
  - vm_compute. reflexivity.
  - discriminate.
Defined.

Lemma metrics_not_truncated_witness :
  Forall (fun nh => emit_counter nh.1 nh.2 (2 ^ 64 - 1) 42 = metric_text "counter" nh.1 nh.2 (2 ^ 64 - 1) 42)
    [("socksdirect_lib_shm_bytes_sent_total", "bytes sent through the SHM data plane");
     ("socksdirect_lib_shm_bytes_recv_total", "bytes received through the SHM data plane");
     ("socksdirect_lib_shm_ring_full_blocks_total", "send blocked because the SHM ring was full");
     ("socksdirect_lib_shm_ring_empty_blocks_total", "recv blocked because the SHM ring was empty");
     ("socksdirect_lib_shm_conns_total", "SHM connections opened by this process");
     ("socksdirect_lib_shm_conn_closed_total", "SHM connections closed by this process")].
Proof.
  apply (metrics_not_truncated (2 ^ 64 - 1) 42).
  - split; [discriminate|reflexivity].
  - split; [discriminate|reflexivity].
Defined.

End LibMetrics.
