(* ===== verification/Preload.v ===== *)
(** * Loading and unloading of the preload library

    [src/lib/preload.cpp] and [src/lib/process_api.cpp]: the constructor and the
    destructor of the library, and the hooks that pass through.  [g_in_hook] is
    the thread's flag and [ScopedReentrancyGuard] its setting for the extent of
    a hook. *)

From Stdlib Require Import ZArith Lia Ascii.
From stdpp Require Import strings gmap numbers base list.
From S2P Require Import Prelude Text MonitorIpc Config Log Metrics ShmRing FdRemap ShmHandshake ShmSegment Monitor ShmConn DataPath FdHooks.

Module Preload.
Import Text Ipc.

Record Globals := mkGlobals {
  g_active : bool;
  g_config : Config.values;
  monitor_reachable : bool;
  metrics_dir : string;
  lib_metrics : Registry.MetricsRegistry;
  dumper_started : bool }.

Definition unloaded : Globals := mkGlobals false ∅ false "" (Registry.mkMR ∅ ∅ ∅) false.

(** The counters registered at load time. *)
Definition lib_counters (m : Registry.MetricsRegistry) : Registry.MetricsRegistry :=
  Registry.counter (Registry.counter (Registry.counter (Registry.counter (Registry.counter m
    "socksdirect_lib_socket_total" "socket(2) calls intercepted by libsd" [])
    "socksdirect_lib_close_total" "close(2) calls on libsd-tracked fds" [])
    "socksdirect_lib_dup_total" "dup family calls on libsd-tracked fds" [])
    "socksdirect_lib_unsupported_total" "calls returning ENOSYS due to UNSUPPORTED status" [])
    "socksdirect_lib_passthrough_total" "calls passed through to glibc unchanged" [].

Definition ping_request (pid : Z) : CtlRequest := mkReq "ping" ["lib pid=" +:+ dec_d pid].

(** The exchange with the monitor: whether it was reached, and the calls on the
    socket.  The result of the write is ignored, the answer is read and dropped;
    [None] when a call is still blocked. *)
Definition ping_monitor (sock : string) (pid : Z) (io : ShmConn.ctl_io) : option (bool * list unix_call) :=
  let '(r, calls) := connect_unix sock (ShmConn.socket_r io) (ShmConn.connect_r io) in
  match r with
  | inr _ => Some (false, calls)
  | inl fd =>
      match write_all (encode_request (ping_request pid)) (ShmConn.write_rs io), read_line (ShmConn.read_rs io) with
      | Some _, Some _ => Some (true, calls ++ [UClose fd])
      | _, _ => None
      end
  end.

(** [preload_init]; [ensure_metrics_dumper_started] starts the thread unless
    the directory is empty. *)
Definition preload_init (g : Globals) (getenv : string -> option string) (open_file : string -> option string)
    (pid : Z) (io : ShmConn.ctl_io) : option (Globals * list unix_call) :=
  let cfg := Config.load_default getenv open_file in
  let mr := lib_counters (lib_metrics g) in
  let sock := Config.get_string getenv cfg "monitor" "control_socket" kMonitorCtlSocketDefault in
  match ping_monitor sock pid io with
  | None => None
  | Some (reached, calls) =>
      let dir := match getenv "SOCKSDIRECT_LIB_METRICS_DIR" with
                 | Some d => d
                 | None => Config.get_string getenv cfg "monitor" "lib_metrics_dir" "/run/socksdirect/lib-metrics"
                 end in
      Some (mkGlobals true cfg reached dir mr (dumper_started g || negb (String.eqb dir "")), calls)
  end.

Definition preload_fini (g : Globals) : Globals :=
  mkGlobals false (g_config g) (monitor_reachable g) (metrics_dir g) (lib_metrics g) (dumper_started g).

(** [g_active && !g_in_hook]: the test every hook starts with. *)
Definition hook_on (g : Globals) (g_in_hook : bool) : bool := g_active g && negb g_in_hook.

(** [ScopedReentrancyGuard] around [body]: the flag inside, and after. *)
Definition guarded {A} (g_in_hook : bool) (body : bool -> A) : A * bool :=
  let prev := g_in_hook in (body true, prev).

(** [fork], [vfork], [sigaction]: the result of the real call. *)
Definition fork (real : Z) : Z := real.
Definition vfork (real : Z) : Z := real.
Definition sigaction (real : Z) : Z := real.

(** Loading never fails for want of a monitor: with the socket unreachable the
    library is active in standalone mode, and with it reachable the descriptor
    of the greeting is closed. *)
Theorem init_standalone g getenv open_file pid io e :
  ShmConn.socket_r io = inr e ->
  exists g' calls, preload_init g getenv open_file pid io = Some (g', calls)
    /\ g_active g' = true /\ monitor_reachable g' = false /\ calls = [USocket].
Proof.
  intros He. unfold preload_init, ping_monitor, connect_unix. rewrite He. eexists _, _. split; [done|]. done.
Qed.

(** No hook acts inside another: within the guard every hook forwards to libc. *)
Theorem guarded_hooks_forward g s fd domain ty c env flag :
  (guarded flag (fun inside => FdHooks.socket (hook_on g inside) s domain ty fd)).1 = s
  /\ (guarded flag (fun inside => FdHooks.accept (hook_on g inside) s c env)).1 = s
  /\ (guarded flag (fun inside => FdHooks.close (hook_on g inside) s fd)).1 = (true, s)
  /\ (guarded flag (fun inside => FdHooks.route (hook_on g inside) s fd)).1 = None.
Proof.
  unfold guarded, hook_on. simpl. rewrite andb_false_r. split_and!; [|by unfold FdHooks.accept; destruct (_ <=? _)|done|done].
  unfold FdHooks.socket. by destruct (fd <? 0).
Qed.

End Preload.
