(* ===== verification/ZeroCopy.v ===== *)
(** * The zero-copy device

    [include/socksdirect/zerocopy.h], [src/kernel/socksdirect_dev.c],
    [zerocopy_client.hpp] and [zerocopy_mock.hpp].  Module [Device]: the ioctls of
    the kernel module on the state of an open file; the kernel's own services
    (page allocator, user copies, page tables) are arguments or a trace of
    calls.  Module [Client]: the user-space client of the device.  Module [Mock]:
    the in-process stand-in, and how it compares with the device. *)

From Stdlib Require Import ZArith Lia.
From stdpp Require Import strings gmap numbers base list.
From S2P Require Import Prelude.

Definition PAGE_SIZE : Z := 4096.
Definition SOCKSDIRECT_ABI_MAJOR : Z := 1.
Definition SOCKSDIRECT_ABI_MINOR : Z := 0.
Definition SOCKSDIRECT_MAX_ORDER : Z := 11.

Record sd_version := mkVersion { major : Z; minor : Z; flags : Z }.
Record sd_alloc_phys := mkAlloc { num_pages : Z; reserved : Z; addr : Z; a_cookie : Z }.

Module Device.

(** [order_base_2(n)] for [n > 0], and [get_order(size)]. *)
Definition order_base_2 (n : Z) : Z := Z.log2_up n.
Definition get_order (size : Z) : Z := Z.log2_up ((size + PAGE_SIZE - 1) / PAGE_SIZE).

(** A node of the list of allocations; [pages] names the compound page. *)
Record sd_alloc_node := mkNode { cookie : Z; user_addr : Z; n_pages : Z; pages : Z }.

(** The state of an open file, and the module's cookie counter. *)
Record sd_filp_state := mkFilp { allocations : list sd_alloc_node }.
Record device := mkDev { st : sd_filp_state; sd_cookie_counter : Z }.

(** Calls of the page allocator. *)
Inductive page_call := PAlloc (page order : Z) | PFree (page order : Z).

Definition fresh_filp : sd_filp_state := mkFilp [].

(** [sd_open]; [kzalloc] is whether there is memory for the state. *)
Definition sd_open (kzalloc : bool) : sd_filp_state + errno := if kzalloc then inl fresh_filp else inr ENOMEM.

Definition free_node (n : sd_alloc_node) : page_call := PFree (pages n) (get_order (n_pages n * PAGE_SIZE)).

(** [sd_release]: every allocation of the file is freed. *)
Definition sd_release (s : sd_filp_state) : list page_call := free_node <$> allocations s.

Definition sd_next_cookie (d : device) : Z * device :=
  let c := u64 (sd_cookie_counter d + 1) in (c, mkDev (st d) c).

Definition sd_ioctl_get_version (copy_out : bool) : sd_version + errno :=
  if copy_out then inl (mkVersion SOCKSDIRECT_ABI_MAJOR SOCKSDIRECT_ABI_MINOR 0) else inr EFAULT.

Definition sd_ioctl_echo (copy_in copy_out : bool) (x : Z) : Z + errno :=
  if negb copy_in then inr EFAULT else if copy_out then inl x else inr EFAULT.

(** What the kernel's services answer during an allocation. *)
Record alloc_env := mkAEnv { copy_in : bool; page_r : option Z; node_ok : bool; copy_out : bool }.

Definition sd_ioctl_alloc_phys (d : device) (req : sd_alloc_phys) (e : alloc_env)
    : (sd_alloc_phys + errno) * device * list page_call :=
  if negb (copy_in e) then (inr EFAULT, d, [])
  else if (num_pages req =? 0) || (2 ^ SOCKSDIRECT_MAX_ORDER <? num_pages req) then (inr EINVAL, d, [])
  else
    let order := order_base_2 (num_pages req) in
    match page_r e with
    | None => (inr ENOMEM, d, [])
    | Some page =>
        if negb (node_ok e) then (inr ENOMEM, d, [PAlloc page order; PFree page order])
        else
          let '(c, d) := sd_next_cookie d in
          let node := mkNode c 0 (Z.shiftl 1 order) page in
          let d := mkDev (mkFilp (node :: allocations (st d))) (sd_cookie_counter d) in
          (if copy_out e then inl (mkAlloc (num_pages req) (reserved req) (user_addr node) (cookie node))
           else inr EFAULT, d, [PAlloc page order])
    end.

(** The search loop of [sd_ioctl_free_phys]: the first node with the cookie is
    unlinked and freed. *)
Fixpoint unlink_node (l : list sd_alloc_node) (c : Z) : option (list sd_alloc_node * page_call) :=
  match l with
  | [] => None
  | n :: l =>
      if cookie n =? c then Some (l, free_node n)
      else match unlink_node l c with Some (l, call) => Some (n :: l, call) | None => None end
  end.

Definition sd_ioctl_free_phys (d : device) (c : Z) (copy_in : bool)
    : (unit + errno) * device * list page_call :=
  if negb copy_in then (inr EFAULT, d, [])
  else match unlink_node (allocations (st d)) c with
       | None => (inr EINVAL, d, [])
       | Some (l, call) => (inl tt, mkDev (mkFilp l) (sd_cookie_counter d), [call])
       end.

(** ** Translation and mapping

    The address space of the caller: whether it has one, which addresses lie in
    a mapping, the frame behind an address, and what [vm_insert_page] answers. *)
Record mm := mkMm {
  has_mm : bool; in_vma : Z -> bool; gup : Z -> option Z; insert_page : Z -> Z -> option errno }.

Definition sd_resolve_virt (m : mm) (virt : Z) : Z + errno :=
  if negb (Z.land virt (PAGE_SIZE - 1) =? 0) then inr EINVAL
  else if negb (has_mm m) then inr ESRCH
  else if negb (in_vma m virt) then inr EFAULT
  else match gup m virt with Some pfn => inl pfn | None => inr EFAULT end.

Definition sd_ioctl_virt2phys (m : mm) (virt : Z) (copy_in copy_out : bool) : Z + errno :=
  if negb copy_in then inr EFAULT
  else match sd_resolve_virt m virt with
       | inr e => inr e
       | inl c => if copy_out then inl c else inr EFAULT
       end.

Definition nth_virt (virt : Z) (i : nat) : Z := u64 (virt + Z.of_nat i * PAGE_SIZE).

(** The loop over the pages, from page [i] on. *)
Fixpoint resolve_from (m : mm) (virt : Z) (i n : nat) : list Z + errno :=
  match n with
  | O => inl []
  | S n =>
      match sd_resolve_virt m (nth_virt virt i) with
      | inr e => inr e
      | inl c => match resolve_from m virt (S i) n with inl cs => inl (c :: cs) | inr e => inr e end
      end
  end.

Definition sd_ioctl_virt2phys_vec (m : mm) (virt npages : Z) (copy_in kmalloc copy_out : bool)
    : list Z + errno :=
  if negb copy_in then inr EFAULT
  else if (npages =? 0) || (2 ^ SOCKSDIRECT_MAX_ORDER <? npages) then inr EINVAL
  else if negb kmalloc then inr ENOMEM
  else match resolve_from m virt 0 (Z.to_nat npages) with
       | inr e => inr e
       | inl cs => if copy_out then inl cs else inr EFAULT
       end.

Definition sd_find_alloc_locked (s : sd_filp_state) (c : Z) : option sd_alloc_node :=
  List.find (fun n => cookie n =? c) (allocations s).

(** [sd_map_one] up to the point where it drops the lock of the file: the node
    with the cookie. *)
Definition sd_map_lookup (s : sd_filp_state) (m : mm) (virt c : Z) : sd_alloc_node + errno :=
  if negb (Z.land virt (PAGE_SIZE - 1) =? 0) then inr EINVAL
  else if negb (has_mm m) then inr ESRCH
  else match sd_find_alloc_locked s c with Some node => inl node | None => inr EINVAL end.

(** The rest, which uses the node without the lock: the old frame or the error,
    and the page installed. *)
Definition sd_map_install (m : mm) (virt : Z) (node : sd_alloc_node) : (Z + errno) * list (Z * Z) :=
  if negb (in_vma m virt) then (inr EFAULT, [])
  else
    let old := match gup m virt with Some pfn => pfn | None => 0 end in
    match insert_page m virt (pages node) with
    | Some e => (inr e, [])
    | None => (inl old, [(virt, pages node)])
    end.

(** [sd_map_one] when no other call comes in between. *)
Definition sd_map_one (s : sd_filp_state) (m : mm) (virt c : Z) : (Z + errno) * list (Z * Z) :=
  match sd_map_lookup s m virt c with
  | inr e => (inr e, [])
  | inl node => sd_map_install m virt node
  end.

Definition sd_ioctl_map_phys (s : sd_filp_state) (m : mm) (virt c : Z) (copy_in copy_out : bool)
    : (Z + errno) * list (Z * Z) :=
  if negb copy_in then (inr EFAULT, [])
  else match sd_map_one s m virt c with
       | (inr e, t) => (inr e, t)
       | (inl old, t) => (if copy_out then inl old else inr EFAULT, t)
       end.

Fixpoint map_from (s : sd_filp_state) (m : mm) (virt : Z) (i : nat) (cs : list Z)
    : (list Z + errno) * list (Z * Z) :=
  match cs with
  | [] => (inl [], [])
  | c :: cs =>
      match sd_map_one s m (nth_virt virt i) c with
      | (inr e, t) => (inr e, t)
      | (inl old, t) =>
          match map_from s m virt (S i) cs with
          | (inl olds, t') => (inl (old :: olds), t ++ t')
          | (inr e, t') => (inr e, t ++ t')
          end
      end
  end.

Definition sd_ioctl_map_phys_vec (s : sd_filp_state) (m : mm) (virt : Z) (cs : list Z)
    (copy_in kmalloc copy_cookies copy_out : bool) : (list Z + errno) * list (Z * Z) :=
  let npages := Z.of_nat (length cs) in
  if negb copy_in then (inr EFAULT, [])
  else if (npages =? 0) || (2 ^ SOCKSDIRECT_MAX_ORDER <? npages) then (inr EINVAL, [])
  else if negb kmalloc then (inr ENOMEM, [])
  else if negb copy_cookies then (inr EFAULT, [])
  else match map_from s m virt 0 cs with
       | (inr e, t) => (inr e, t)
       | (inl olds, t) => (if copy_out then inl olds else inr EFAULT, t)
       end.

Definition PAGE_SHIFT : Z := 12.
(** [sd_mmap]: the size check, and the flags set on the mapping. *)
Definition sd_mmap (vm_start vm_end : Z) : bool :=
  negb (2 ^ (SOCKSDIRECT_MAX_ORDER + PAGE_SHIFT) <? u64 (vm_end - vm_start)).

(** ** Histories of an open file *)

Inductive dev_op :=
  | OAlloc (req : sd_alloc_phys) (e : alloc_env) | OFree (c : Z) (copy_in : bool).

Definition dev_step (d : device) (o : dev_op) : device * list page_call :=
  match o with
  | OAlloc req e => let '(_, d, t) := sd_ioctl_alloc_phys d req e in (d, t)
  | OFree c ci => let '(_, d, t) := sd_ioctl_free_phys d c ci in (d, t)
  end.

Fixpoint dev_run (d : device) (ops : list dev_op) : device * list page_call :=
  match ops with
  | [] => (d, [])
  | o :: ops =>
      let '(d, t) := dev_step d o in
      let '(d, t') := dev_run d ops in (d, t ++ t')
  end.

Definition allocated (t : list page_call) : list (Z * Z) :=
  concat ((fun c => match c with PAlloc p o => [(p, o)] | PFree _ _ => [] end) <$> t).
Definition freed (t : list page_call) : list (Z * Z) :=
  concat ((fun c => match c with PFree p o => [(p, o)] | PAlloc _ _ => [] end) <$> t).
Definition held (l : list sd_alloc_node) : list (Z * Z) :=
  (fun n => (pages n, get_order (n_pages n * PAGE_SIZE))) <$> l.

(** ** Lemmas *)

Lemma get_order_pow2 o : 0 <= o -> get_order (Z.shiftl 1 o * PAGE_SIZE) = o.
Proof.
  intros Ho. unfold get_order, PAGE_SIZE. rewrite Z.shiftl_1_l.
  replace (2 ^ o * 4096 + 4096 - 1) with (4095 + 2 ^ o * 4096) by lia.
  rewrite Z.div_add by lia. change (4095 / 4096) with 0. rewrite Z.add_0_l. by apply Z.log2_up_pow2.
Qed.

Lemma order_fits n : 0 < n <= 2 ^ SOCKSDIRECT_MAX_ORDER -> n <= Z.shiftl 1 (order_base_2 n) <= 2 ^ SOCKSDIRECT_MAX_ORDER.
Proof.
  intros Hn. rewrite Z.shiftl_1_l. unfold order_base_2. split; [destruct (Z.log2_log2_up_spec n); lia|].
  apply Z.pow_le_mono_r; [lia|]. rewrite <- (Z.log2_up_pow2 SOCKSDIRECT_MAX_ORDER) by (unfold SOCKSDIRECT_MAX_ORDER; lia).
  apply Z.log2_up_le_mono. lia.
Qed.

Lemma allocated_app a b : allocated (a ++ b) = allocated a ++ allocated b.
Proof. unfold allocated. by rewrite fmap_app, concat_app. Qed.
Lemma freed_app a b : freed (a ++ b) = freed a ++ freed b.
Proof. unfold freed. by rewrite fmap_app, concat_app. Qed.

Lemma freed_release l : freed (free_node <$> l) = held l /\ allocated (free_node <$> l) = [].
Proof.
  induction l as [|n l [IH1 IH2]]; [done|]. split; [|exact IH2].
  change (held (n :: l)) with ((pages n, get_order (n_pages n * PAGE_SIZE)) :: held l). by rewrite <- IH1.
Qed.

Lemma unlink_held l c l' call :
  unlink_node l c = Some (l', call) -> held l ≡ₚ freed [call] ++ held l' /\ allocated [call] = [].
Proof.
  revert l' call. induction l as [|n l IH]; intros l' call; simpl; [done|].
  destruct (cookie n =? c); [by intros [= <- <-]|].
  destruct (unlink_node l c) as [[l1 c1]|]; [|done]. intros [= <- <-].
  destruct (IH l1 c1 eq_refl) as [Hp Ha]. split; [|done]. simpl held.
  etrans; [constructor; exact Hp|]. simpl. by rewrite Permutation_middle.
Qed.

(** One ioctl: what is held before and what it allocates are what it frees and
    what is held after. *)
Lemma dev_step_ledger d o d' t :
  dev_step d o = (d', t) ->
  allocated t ++ held (allocations (st d)) ≡ₚ freed t ++ held (allocations (st d')).
Proof.
  destruct o as [req e|c ci]; unfold dev_step.
  - unfold sd_ioctl_alloc_phys. destruct (copy_in e); [|by intros [= <- <-]]. cbn [negb].
    destruct (_ || _); [by intros [= <- <-]|]. destruct (page_r e) as [page|]; [|by intros [= <- <-]].
    destruct (node_ok e); cbn [negb]; [|by intros [= <- <-]].
    intros [= <- <-]. simpl. unfold held. simpl. rewrite get_order_pow2 by apply Z.log2_up_nonneg. done.
  - unfold sd_ioctl_free_phys. destruct ci; [|by intros [= <- <-]]. cbn [negb].
    destruct (unlink_node _ c) as [[l call]|] eqn:E; intros [= <- <-]; [|done].
    destruct (unlink_held _ _ _ _ E) as [Hp ->]. done.
Qed.

Lemma dev_run_ledger d ops d' t :
  dev_run d ops = (d', t) ->
  allocated t ++ held (allocations (st d)) ≡ₚ freed t ++ held (allocations (st d')).
Proof.
  revert d t. induction ops as [|o ops IH]; intros d t; simpl; [by intros [= <- <-]|].
  destruct (dev_step d o) as [d1 t1] eqn:E1. destruct (dev_run d1 ops) as [d2 t2] eqn:E2. intros [= <- <-].
  apply dev_step_ledger in E1. apply IH in E2. rewrite allocated_app, freed_app.
  rewrite (Permutation_app_comm (allocated t1)), <- app_assoc, E1, !app_assoc.
  rewrite (Permutation_app_comm (allocated t2)), <- !app_assoc. by rewrite E2.
Qed.

(** ** Theorems *)

(** Over the life of an open file every compound page taken from the page
    allocator goes back to it exactly once and with the order it was taken
    with, whichever ioctls fail and whatever is left for [sd_release]. *)
Theorem no_page_leak ctr ops :
  let '(d, t) := dev_run (mkDev fresh_filp ctr) ops in
  freed (t ++ sd_release (st d)) ≡ₚ allocated (t ++ sd_release (st d)).
Proof.
  destruct (dev_run (mkDev fresh_filp ctr) ops) as [d t] eqn:E. apply dev_run_ledger in E. simpl in E.
  rewrite app_nil_r in E. unfold sd_release. destruct (freed_release (allocations (st d))) as [Hf Ha].
  rewrite freed_app, allocated_app, Hf, Ha, app_nil_r. by rewrite E.
Qed.

(** The cookies of a file: each once, none beyond the counter. *)
Record dev_wf (d : device) : Prop := {
  dw_ctr : 0 <= sd_cookie_counter d;
  dw_nodup : NoDup (cookie <$> allocations (st d));
  dw_le : forall n, n ∈ allocations (st d) -> 0 < cookie n <= sd_cookie_counter d }.

Lemma unlink_absent l c : c ∉ cookie <$> l -> unlink_node l c = None.
Proof.
  induction l as [|n l IH]; simpl; [done|]. rewrite not_elem_of_cons. intros [Hne Hni].
  destruct (Z.eqb_spec (cookie n) c); [congruence|]. by rewrite IH.
Qed.

(** An allocation can be freed once: the cookie of a successful
    SD_IOC_ALLOC_PHYS is new, frees that allocation and leaves the others as
    they were, and is refused the second time; the allocation has at least the
    pages asked for. *)
Theorem alloc_free_once d req e req' d1 t :
  dev_wf d -> sd_cookie_counter d < 2 ^ 64 - 1 -> 0 <= num_pages req ->
  sd_ioctl_alloc_phys d req e = (inl req', d1, t) ->
  dev_wf d1 /\ (a_cookie req' ∉ (cookie <$> allocations (st d)))
  /\ (exists n, allocations (st d1) = n :: allocations (st d) /\ num_pages req <= n_pages n <= 2 ^ SOCKSDIRECT_MAX_ORDER)
  /\ exists d2 call, sd_ioctl_free_phys d1 (a_cookie req') true = (inl tt, d2, [call])
     /\ st d2 = st d /\ sd_ioctl_free_phys d2 (a_cookie req') true = (inr EINVAL, d2, []).
Proof.
  intros [Hc Hnd Hle] Hlt Hn H. unfold sd_ioctl_alloc_phys in H. destruct (copy_in e); [|done]. cbn [negb] in H.
  destruct ((num_pages req =? 0) || _) eqn:Eb; [done|]. sd_bool.
  destruct (page_r e) as [page|]; [|done]. destruct (node_ok e); [|done]. cbn in H.
  destruct (copy_out e); [|done]. injection H as <- <- _. simpl.
  rewrite uwrap_small by (unfold is_uint; lia).
  assert (Hni : sd_cookie_counter d + 1 ∉ cookie <$> allocations (st d)).
  { rewrite list_elem_of_fmap. intros (n & Hx & Hin). apply Hle in Hin. lia. }
  split_and!.
  - split; simpl; [lia|by apply NoDup_cons|]. intros n [->|Hin]%elem_of_cons; simpl; [lia|]. apply Hle in Hin. lia.
  - done.
  - eexists. split; [done|]. apply order_fits. lia.
  - unfold sd_ioctl_free_phys. simpl. rewrite Z.eqb_refl. eexists _, _. split; [done|]. simpl.
    split; [by destruct (st d)|]. by rewrite unlink_absent.
Qed.

Lemma resolve_from_spec m virt i n cs :
  resolve_from m virt i n = inl cs ->
  length cs = n /\ forall j c, cs !! j = Some c -> sd_resolve_virt m (nth_virt virt (i + j)) = inl c.
Proof.
  revert i cs. induction n as [|n IH]; intros i cs; simpl; [by intros [= <-]|].
  destruct (sd_resolve_virt m (nth_virt virt i)) as [c|] eqn:E; [|done].
  destruct (resolve_from m virt (S i) n) as [cs'|] eqn:E'; [|done]. intros [= <-].
  destruct (IH (S i) cs' E') as [Hl Hj]. split; [simpl; lia|]. intros [|j] x Hx; simpl in Hx.
  - simplify_eq. by rewrite Nat.add_0_r.
  - specialize (Hj j x Hx). by replace (i + S j)%nat with (S i + j)%nat by lia.
Qed.

Lemma resolve_from_complete m virt i n :
  (forall j, (j < n)%nat -> exists c, sd_resolve_virt m (nth_virt virt (i + j)) = inl c) ->
  exists cs, resolve_from m virt i n = inl cs.
Proof.
  revert i. induction n as [|n IH]; intros i H; simpl; [by eexists|].
  destruct (H 0%nat ltac:(lia)) as [c Hc]. rewrite Nat.add_0_r in Hc. rewrite Hc.
  destruct (IH (S i)) as [cs ->]; [|by eexists].
  intros j Hj. destruct (H (S j) ltac:(lia)) as [x Hx]. exists x. by replace (S i + j)%nat with (i + S j)%nat by lia.
Qed.

(** The vectored translation is the single one page by page: it succeeds
    exactly when every page translates, and then with the cookies the single
    calls give, [npages] of them in order. *)
Theorem virt2phys_vec_pointwise m virt npages :
  0 < npages <= 2 ^ SOCKSDIRECT_MAX_ORDER ->
  ((exists cs, sd_ioctl_virt2phys_vec m virt npages true true true = inl cs)
   <-> (forall j, (j < Z.to_nat npages)%nat ->
          exists c, sd_ioctl_virt2phys m (nth_virt virt j) true true = inl c))
  /\ (forall cs, sd_ioctl_virt2phys_vec m virt npages true true true = inl cs ->
       Z.of_nat (length cs) = npages
       /\ forall j c, cs !! j = Some c -> sd_ioctl_virt2phys m (nth_virt virt j) true true = inl c).
Proof.
  intros Hn. unfold sd_ioctl_virt2phys_vec, sd_ioctl_virt2phys. cbn [negb].
  assert ((npages =? 0) || (2 ^ SOCKSDIRECT_MAX_ORDER <? npages) = false) as ->.
  { apply orb_false_iff. split; [apply Z.eqb_neq|apply Z.ltb_ge]; lia. }
  assert (Hs : forall v c, (match sd_resolve_virt m v with inl c => inl c | inr e => inr e end) = inl c
    <-> sd_resolve_virt m v = inl c) by (intros v c; by destruct (sd_resolve_virt m v)).
  split.
  - split.
    + intros [cs H] j Hj. destruct (resolve_from m virt 0 (Z.to_nat npages)) as [cs'|] eqn:E; [|done].
      destruct (resolve_from_spec _ _ _ _ _ E) as [Hl Hx].
      destruct (lookup_lt_is_Some_2 cs' j ltac:(lia)) as [c Hc]. exists c. apply Hs. by apply (Hx j c).
    + intros H. destruct (resolve_from_complete m virt 0 (Z.to_nat npages)) as [cs ->]; [|by eexists].
      intros j Hj. destruct (H j Hj) as [c Hc]. exists c. by apply Hs.
  - intros cs H. destruct (resolve_from m virt 0 (Z.to_nat npages)) as [cs'|] eqn:E; [|done]. simplify_eq.
    destruct (resolve_from_spec _ _ _ _ _ E) as [Hl Hx]. split; [lia|]. intros j c Hc. apply Hs. by apply (Hx j c).
Qed.

(** The cookie SD_IOC_MAP_PHYS reports for the page it replaced cannot be given
    back to it: it is a frame number, and the call looks for the cookie of an
    allocation. *)
Theorem old_cookie_not_restorable s m virt c old t :
  sd_map_one s m virt c = (inl old, t) -> old ∉ cookie <$> allocations s ->
  sd_map_one s m virt old = (inr EINVAL, []).
Proof.
  unfold sd_map_one, sd_map_lookup. destruct (negb _); [done|]. destruct (negb (has_mm m)); [done|]. intros _ Hni.
  assert (sd_find_alloc_locked s old = None) as ->; [|done]. unfold sd_find_alloc_locked.
  induction (allocations s) as [|n l IH]; [done|]. simpl in *. rewrite not_elem_of_cons in Hni.
  destruct (Z.eqb_spec (cookie n) old); [naive_solver|]. apply IH. naive_solver.
Qed.

(** A vectored mapping that fails half-way leaves the first pages remapped and
    reports none of the old frames. *)
Theorem map_vec_partial :
  let s := mkFilp [mkNode 1 0 1 77] in
  let m := mkMm true (fun _ => true) (fun _ => Some 5) (fun _ _ => None) in
  sd_ioctl_map_phys_vec s m 8192 [1; 2] true true true true = (inr EINVAL, [(8192, 77)]).
Proof. done. Qed.

(** *** Witnesses *)

Definition demo_dev : device := mkDev (mkFilp [mkNode 1 0 4 70]) 1.

Lemma alloc_free_once_witness :
  dev_wf (mkDev (mkFilp [mkNode 2 0 4 71; mkNode 1 0 4 70]) 2) /\ (2 ∉ [1])
  /\ (exists n, [mkNode 2 0 4 71; mkNode 1 0 4 70] = n :: [mkNode 1 0 4 70]
               /\ 3 <= n_pages n <= 2 ^ SOCKSDIRECT_MAX_ORDER)
  /\ exists d2 call, sd_ioctl_free_phys (mkDev (mkFilp [mkNode 2 0 4 71; mkNode 1 0 4 70]) 2) 2 true
       = (inl tt, d2, [call])
     /\ st d2 = st demo_dev /\ sd_ioctl_free_phys d2 2 true = (inr EINVAL, d2, []).
Proof.
  apply (alloc_free_once demo_dev (mkAlloc 3 0 0 0) (mkAEnv true (Some 71) true true) (mkAlloc 3 0 0 2)
    (mkDev (mkFilp [mkNode 2 0 4 71; mkNode 1 0 4 70]) 2) [PAlloc 71 2]).
  - split; simpl; [lia|repeat constructor; set_solver|]. intros n ->%list_elem_of_singleton. simpl. lia.
  - simpl. lia.
  - simpl. lia.
  - vm_compute. reflexivity.
Defined.

Lemma virt2phys_vec_pointwise_witness :
  let m := mkMm true (fun v => v <? 16384) (fun v => Some (v / 4096)) (fun _ _ => None) in
  ((exists cs, sd_ioctl_virt2phys_vec m 8192 2 true true true = inl cs)
   <-> (forall j, (j < Z.to_nat 2)%nat ->
          exists c, sd_ioctl_virt2phys m (nth_virt 8192 j) true true = inl c))
  /\ (forall cs, sd_ioctl_virt2phys_vec m 8192 2 true true true = inl cs ->
       Z.of_nat (length cs) = 2
       /\ forall j c, cs !! j = Some c -> sd_ioctl_virt2phys m (nth_virt 8192 j) true true = inl c).
Proof.
  apply (virt2phys_vec_pointwise (mkMm true (fun v => v <? 16384) (fun v => Some (v / 4096)) (fun _ _ => None)) 8192 2).
  unfold SOCKSDIRECT_MAX_ORDER. lia.
Defined.

End Device.

Module Client.

Inductive Status := kReady | kCopyFallback | kAbiMismatch.

#[export] Instance Status_eq_dec : EqDecision Status.
Proof. solve_decision. Defined.

(** [errno_] is [None] for 0. *)
Record ZeroCopyClient := mkClient {
  fd_ : Z; status_ : Status; errno_ : option errno; major_ : Z; minor_ : Z }.

Definition new : ZeroCopyClient := mkClient (-1) kCopyFallback None 0 0.

(** System calls of the client. *)
Inductive sys_call := CClose (fd : Z) | COpen (path : string) | CIoctl (fd : Z).

Definition close_old (c : ZeroCopyClient) : list sys_call := if 0 <=? fd_ c then [CClose (fd_ c)] else [].

(** [open(path)], on the results of [open] and of SD_IOC_GET_VERSION. *)
Definition open (c : ZeroCopyClient) (path : string) (open_r : Z + errno) (version_r : sd_version + errno)
    : Status * ZeroCopyClient * list sys_call :=
  let calls := close_old c ++ [COpen path] in
  match open_r with
  | inr e => (kCopyFallback, mkClient (-1) kCopyFallback (Some e) (major_ c) (minor_ c), calls)
  | inl fd =>
      match version_r with
      | inr e => (kCopyFallback, mkClient (-1) kCopyFallback (Some e) (major_ c) (minor_ c),
                  calls ++ [CIoctl fd; CClose fd])
      | inl v =>
          if negb (major v =? SOCKSDIRECT_ABI_MAJOR) then
            (kAbiMismatch, mkClient (-1) kAbiMismatch (errno_ c) (major_ c) (minor_ c),
             calls ++ [CIoctl fd; CClose fd])
          else (kReady, mkClient fd kReady (errno_ c) (major v) (minor v), calls ++ [CIoctl fd])
      end
  end.

(** The destructor, and the move assignment [*this = std::move(o)] with
    [this != &o]: the new values of the two and the calls. *)
Definition destroy (c : ZeroCopyClient) : list sys_call := close_old c.
Definition move_assign (c o : ZeroCopyClient) : ZeroCopyClient * ZeroCopyClient * list sys_call :=
  (mkClient (fd_ o) (status_ o) (errno_ c) (major_ c) (minor_ c),
   mkClient (-1) kCopyFallback (errno_ o) (major_ o) (minor_ o), close_old c).

Definition fail {A} (c : ZeroCopyClient) (e : errno) : (A + errno) * ZeroCopyClient :=
  (inr e, mkClient (fd_ c) (status_ c) (Some e) (major_ c) (minor_ c)).

(** The shape every operation has: [ENOSYS] unless ready, else the ioctl. *)
Definition with_ioctl {A} (c : ZeroCopyClient) (r : A + errno) : (A + errno) * ZeroCopyClient * list sys_call :=
  if decide (status_ c = kReady) then
    (match r with inl a => (inl a, c) | inr e => fail c e end, [CIoctl (fd_ c)])
  else (fail c ENOSYS, []).

(** [r] is what the device answers. *)
Definition alloc_phys (c : ZeroCopyClient) (r : sd_alloc_phys + errno) := with_ioctl c r.
Definition free_phys (c : ZeroCopyClient) (r : unit + errno) := with_ioctl c r.
Definition virt2phys (c : ZeroCopyClient) (r : Z + errno) := with_ioctl c r.
Definition map_phys (c : ZeroCopyClient) (r : Z + errno) := with_ioctl c r.
Definition echo (c : ZeroCopyClient) (r : Z + errno) := with_ioctl c r.

(** The vectored calls also refuse a null result pointer. *)
Definition virt2phys_vec (c : ZeroCopyClient) (null : bool) (r : list Z + errno) :=
  if decide (status_ c = kReady) then if null then (fail c EFAULT, []) else with_ioctl c r
  else (fail c ENOSYS, []).
Definition map_phys_vec (c : ZeroCopyClient) (null : bool) (r : list Z + errno) :=
  if decide (status_ c = kReady) then if null then (fail c EFAULT, []) else with_ioctl c r
  else (fail c ENOSYS, []).

(** ** Descriptor discipline *)

(** A client holds a descriptor exactly when it is ready. *)
Definition owns (c : ZeroCopyClient) : Prop := (status_ c = kReady /\ 0 <= fd_ c) \/ (status_ c <> kReady /\ fd_ c = -1).

(** The attempts to open of one client over its life: the descriptors the
    kernel gave, and the ones closed. *)
Record attempt := mkAttempt { a_path : string; a_open : Z + errno; a_version : sd_version + errno }.

Fixpoint life (c : ZeroCopyClient) (l : list attempt) : ZeroCopyClient * list sys_call :=
  match l with
  | [] => (c, destroy c)
  | a :: l =>
      let '(_, c, t) := open c (a_path a) (a_open a) (a_version a) in
      let '(c, t') := life c l in (c, t ++ t')
  end.

Definition closed (t : list sys_call) : list Z :=
  concat ((fun x => match x with CClose fd => [fd] | _ => [] end) <$> t).
Definition opened (l : list attempt) : list Z :=
  concat ((fun a => match a_open a with inl fd => [fd] | inr _ => [] end) <$> l).

Lemma open_owns c path o v :
  (forall fd, o = inl fd -> 0 <= fd) -> owns (open c path o v).1.2.
Proof.
  intros Hfd. unfold open. destruct o as [fd|]; [|by right].
  destruct v as [v|]; [|by right]. destruct (negb _); [by right|]. left. simpl. eauto.
Qed.

Definition holding (c : ZeroCopyClient) : list Z := if 0 <=? fd_ c then [fd_ c] else [].

Lemma open_ledger c path o v :
  (forall fd, o = inl fd -> 0 <= fd) ->
  let '(_, c', t) := open c path o v in
  holding c ++ (match o with inl fd => [fd] | inr _ => [] end) ≡ₚ closed t ++ holding c'.
Proof.
  intros Hfd. assert (Hold : closed (close_old c) = holding c) by (unfold close_old, holding; by destruct (0 <=? fd_ c)).
  assert (Happ : forall a b, closed (a ++ b) = closed a ++ closed b) by (intros; unfold closed; by rewrite fmap_app, concat_app).
  assert (Hnone : forall s e x y, holding (mkClient (-1) s e x y) = []) by done.
  assert (Hsys : forall p f, closed [COpen p] = [] /\ closed [CIoctl f; CClose f] = [f] /\ closed [CIoctl f] = []) by done.
  unfold open. destruct o as [fd|].
  2:{ rewrite Happ, Hold, Hnone. rewrite (proj1 (Hsys path 0)). by rewrite !app_nil_r. }
  destruct (Hsys path fd) as (H1 & H2 & H3). destruct v as [v|].
  2:{ rewrite !Happ, Hold, Hnone, H1, H2. by rewrite !app_nil_r. }
  destruct (negb _).
  { rewrite !Happ, Hold, Hnone, H1, H2. by rewrite !app_nil_r. }
  rewrite !Happ, Hold, H1, H3, !app_nil_r. unfold holding at 3. simpl.
  destruct (Z.leb_spec 0 fd); [done|]. specialize (Hfd fd eq_refl). lia.
Qed.

(** A client leaks no descriptor: over any sequence of [open] calls and its
    destruction, the descriptors closed are exactly the ones the kernel gave,
    once each, on success, on failure and on an ABI mismatch. *)
Theorem client_no_leak l :
  Forall (fun a => forall fd, a_open a = inl fd -> 0 <= fd) l ->
  closed (life new l).2 ≡ₚ opened l.
Proof.
  intros Hl. cut (forall c, closed (life c l).2 ≡ₚ holding c ++ opened l); [intros H; apply (H new)|].
  induction l as [|a l IH]; intros c; simpl.
  - unfold destroy, close_old, holding, opened, closed. by destruct (0 <=? fd_ c).
  - apply Forall_cons in Hl as [Ha Hl]. specialize (IH Hl).
    pose proof (open_ledger c (a_path a) (a_open a) (a_version a) Ha) as Ho.
    destruct (open c _ _ _) as [[s c1] t]. specialize (IH c1). destruct (life c1 l) as [c2 t2]. simpl in IH |- *.
    unfold closed at 1. rewrite fmap_app, concat_app. fold (closed t). fold (closed t2). rewrite IH.
    unfold opened at 2. simpl. fold (opened l). rewrite !app_assoc. by rewrite Ho.
Qed.

(** Without a usable device every operation fails with [ENOSYS] and makes no
    system call, whatever the device would have answered. *)
Theorem fallback_is_silent c ra rf rv rm re rvv rmv null :
  status_ c <> kReady ->
  let silent {A} (x : (A + errno) * ZeroCopyClient * list sys_call) :=
    x.1.1 = inr ENOSYS /\ x.2 = [] /\ errno_ x.1.2 = Some ENOSYS /\ fd_ x.1.2 = fd_ c in
  silent (alloc_phys c ra) /\ silent (free_phys c rf) /\ silent (virt2phys c rv) /\ silent (map_phys c rm)
  /\ silent (echo c re) /\ silent (virt2phys_vec c null rvv) /\ silent (map_phys_vec c null rmv).
Proof.
  intros Hs silent. subst silent. unfold alloc_phys, free_phys, virt2phys, map_phys, echo, virt2phys_vec, map_phys_vec, with_ioctl.
  rewrite !decide_False by done. split_and!; done.
Qed.

Lemma client_no_leak_witness :
  closed (life new [mkAttempt "/dev/a" (inl 3) (inl (mkVersion 1 0 0)); mkAttempt "/dev/b" (inl 4) (inl (mkVersion 2 0 0));
                    mkAttempt "/dev/c" (inr ENOENT) (inr EFAULT); mkAttempt "/dev/d" (inl 3) (inr ENOTTY)]).2
  ≡ₚ [3; 4; 3].
Proof.
  apply (client_no_leak [mkAttempt "/dev/a" (inl 3) (inl (mkVersion 1 0 0)); mkAttempt "/dev/b" (inl 4) (inl (mkVersion 2 0 0));
                    mkAttempt "/dev/c" (inr ENOENT) (inr EFAULT); mkAttempt "/dev/d" (inl 3) (inr ENOTTY)]).
  repeat (apply Forall_cons; split; [intros fd [=]; lia|]). apply Forall_nil. exact I.
Defined.

Lemma fallback_is_silent_witness :
  let silent {A} (x : (A + errno) * ZeroCopyClient * list sys_call) :=
    x.1.1 = inr ENOSYS /\ x.2 = [] /\ errno_ x.1.2 = Some ENOSYS /\ fd_ x.1.2 = -1 in
  silent (alloc_phys new (inl (mkAlloc 1 0 0 1))) /\ silent (free_phys new (inl tt)) /\ silent (virt2phys new (inl 1))
  /\ silent (map_phys new (inl 1)) /\ silent (echo new (inl 1)) /\ silent (virt2phys_vec new true (inl [1]))
  /\ silent (map_phys_vec new true (inl [1])).
Proof.
  apply (fallback_is_silent new (inl (mkAlloc 1 0 0 1)) (inl tt) (inl 1) (inl 1) (inl 1) (inl [1]) (inl [1]) true).
  discriminate.
Defined.

End Client.

Module Mock.
Import Device.

Record Allocation := mkAllocation { m_cookie : Z; m_num_pages : Z; backing_bytes : Z }.
Record ZeroCopyMock := mkMock { allocs_ : gmap Z Allocation; cookie_counter_ : Z; live_ : Z }.

Definition new : ZeroCopyMock := mkMock ∅ 0 0.

Definition handle_get_version : sd_version := mkVersion SOCKSDIRECT_ABI_MAJOR SOCKSDIRECT_ABI_MINOR 0.
Definition handle_echo (x : Z) : Z := x.

(** [while (pages < num_pages) pages <<= 1;] For the sizes that pass the check
    twelve turns are enough. *)
Fixpoint round_pages (fuel : nat) (p n : Z) : Z :=
  match fuel with
  | O => p
  | S fuel => if p <? n then round_pages fuel (u32 (Z.shiftl p 1)) n else p
  end.

Definition handle_alloc_phys (m : ZeroCopyMock) (req : sd_alloc_phys)
    : (sd_alloc_phys + errno) * ZeroCopyMock :=
  if (num_pages req =? 0) || (2 ^ SOCKSDIRECT_MAX_ORDER <? num_pages req) then (inr EINVAL, m)
  else
    let c := u64 (cookie_counter_ m + 1) in
    let al := mkAllocation c (num_pages req) (round_pages 12 1 (num_pages req) * 4096) in
    (inl (mkAlloc (num_pages req) (reserved req) (Z.lor 0xdead000000000000 c) c),
     mkMock (<[c := al]> (allocs_ m)) c (u64 (live_ m + 1))).

Definition handle_free_phys (m : ZeroCopyMock) (c : Z) : (unit + errno) * ZeroCopyMock :=
  match allocs_ m !! c with
  | None => (inr EINVAL, m)
  | Some _ => (inl tt, mkMock (delete c (allocs_ m)) (cookie_counter_ m) (u64 (live_ m - 1)))
  end.

Definition handle_virt2phys (virt : Z) : Z := Z.land virt 0xffffffffffff.
Definition handle_virt2phys_vec : errno := ENOSYS.
Definition handle_map_phys : errno := ENOSYS.
Definition handle_map_phys_vec : errno := ENOSYS.
Definition live_allocations (m : ZeroCopyMock) : Z := live_ m.

(** ** The mock and the device on the same requests *)

Inductive request := RAlloc (n : Z) | RFree (c : Z).
(** What a caller learns: the cookie of an allocation, or the error. *)
Inductive reply := Granted (c : Z) | Freed | Refused (e : errno).

Definition mock_step (m : ZeroCopyMock) (r : request) : reply * ZeroCopyMock :=
  match r with
  | RAlloc n =>
      match handle_alloc_phys m (mkAlloc n 0 0 0) with
      | (inl a, m) => (Granted (a_cookie a), m) | (inr e, m) => (Refused e, m)
      end
  | RFree c => match handle_free_phys m c with (inl _, m) => (Freed, m) | (inr e, m) => (Refused e, m) end
  end.

(** The device with a kernel that has memory and readable user buffers. *)
Definition dev_reply (d : device) (r : request) : reply * device :=
  match r with
  | RAlloc n =>
      match sd_ioctl_alloc_phys d (mkAlloc n 0 0 0) (mkAEnv true (Some 0) true true) with
      | (inl a, d, _) => (Granted (a_cookie a), d) | (inr e, d, _) => (Refused e, d)
      end
  | RFree c =>
      match sd_ioctl_free_phys d c true with (inl _, d, _) => (Freed, d) | (inr e, d, _) => (Refused e, d) end
  end.

Fixpoint mock_run (m : ZeroCopyMock) (rs : list request) : list reply * ZeroCopyMock :=
  match rs with
  | [] => ([], m)
  | r :: rs => let '(a, m) := mock_step m r in let '(l, m) := mock_run m rs in (a :: l, m)
  end.
Fixpoint device_run (d : device) (rs : list request) : list reply * device :=
  match rs with
  | [] => ([], d)
  | r :: rs => let '(a, d) := dev_reply d r in let '(l, d) := device_run d rs in (a :: l, d)
  end.

(** Same counter, same cookies, and the count of live allocations is right. *)
Record agree (m : ZeroCopyMock) (d : device) : Prop := {
  ag_ctr : cookie_counter_ m = sd_cookie_counter d;
  ag_dom : forall c, is_Some (allocs_ m !! c) <-> c ∈ (cookie <$> allocations (st d));
  ag_live : live_ m = u64 (Z.of_nat (size (allocs_ m)));
  ag_wf : dev_wf d }.

Lemma unlink_present l c l' call :
  unlink_node l c = Some (l', call) -> NoDup (cookie <$> l) ->
  c ∈ (cookie <$> l) /\ NoDup (cookie <$> l')
  /\ (forall x, x ∈ (cookie <$> l') <-> x ∈ (cookie <$> l) /\ x <> c) /\ (forall n, n ∈ l' -> n ∈ l).
Proof.
  revert l' call. induction l as [|n l IH]; intros l' call; simpl; [done|].
  rewrite NoDup_cons. intros H [Hni Hnd]. destruct (Z.eqb_spec (cookie n) c) as [<-|Hne].
  - simplify_eq. split_and!; [by left|done| |by right]. intros x. rewrite elem_of_cons.
    split; [intros Hx; split; [by right|by intros ->]|naive_solver].
  - destruct (unlink_node l c) as [[l1 c1]|]; [|done]. simplify_eq.
    destruct (IH l1 call eq_refl Hnd) as (Hin & Hnd1 & Hx & Hsub). simpl. split_and!.
    + by right.
    + apply NoDup_cons. split; [|done]. rewrite Hx. tauto.
    + intros x. rewrite !elem_of_cons, Hx. split; [|naive_solver]. intros [->|[? ?]]; auto.
    + intros y. rewrite !elem_of_cons. intros [->|Hy]; [by left|right; auto].
Qed.

Lemma unlink_some l c : c ∈ (cookie <$> l) -> is_Some (unlink_node l c).
Proof.
  induction l as [|n l IH]; simpl; [by intros ?%not_elem_of_nil|]. rewrite elem_of_cons.
  destruct (Z.eqb_spec (cookie n) c); [by eexists|]. intros [?|H]; [congruence|].
  destruct (IH H) as [[l1 c1] ->]. by eexists.
Qed.

Lemma step_agree m d r a d' :
  agree m d -> sd_cookie_counter d < 2 ^ 64 - 1 ->
  dev_reply d r = (a, d') -> exists m', mock_step m r = (a, m') /\ agree m' d'
    /\ sd_cookie_counter d' <= sd_cookie_counter d + 1.
Proof.
  intros [Hc Hd Hl Hw] Hlt H. destruct Hw as [Hc0 Hnd Hle]. destruct r as [n|c]; cbn [dev_reply mock_step] in *.
  - unfold sd_ioctl_alloc_phys, handle_alloc_phys in *. cbn [copy_in num_pages page_r node_ok copy_out negb] in *.
    destruct ((n =? 0) || _); [simplify_eq; eexists; split; [done|]; split; [done|lia]|].
    cbn in H. rewrite uwrap_small in H by (unfold is_uint; lia). simplify_eq.
    rewrite Hc, uwrap_small by (unfold is_uint; lia). eexists. split; [done|]. split; [|simpl; lia].
    assert (Hni : sd_cookie_counter d + 1 ∉ (cookie <$> allocations (st d))).
    { rewrite list_elem_of_fmap. intros (x & Hx & Hin). apply Hle in Hin. lia. }
    assert (Hno : allocs_ m !! (sd_cookie_counter d + 1) = None).
    { destruct (allocs_ m !! _) eqn:E; [|done]. destruct Hni. apply Hd. by eexists. }
    split; simpl; [done|..].
    + intros x. rewrite elem_of_cons, <- Hd. destruct (decide (sd_cookie_counter d + 1 = x)) as [<-|Hne].
      * rewrite lookup_insert_eq. split; [by left|by eexists].
      * rewrite lookup_insert_ne by done. split; [by right|by intros [?|?]].
    + rewrite map_size_insert_None, Hl by done. rewrite uwrap_add_l. f_equal. lia.
    + split; simpl; [lia|by apply NoDup_cons|]. intros x [->|Hin]%elem_of_cons; simpl; [lia|]. apply Hle in Hin. lia.
  - unfold sd_ioctl_free_phys, handle_free_phys in *. cbn [negb] in H.
    destruct (unlink_node (allocations (st d)) c) as [[l call]|] eqn:E.
    + destruct (unlink_present _ _ _ _ E Hnd) as (Hin & Hnd1 & Hx & Hsub). simplify_eq.
      destruct (proj2 (Hd c) Hin) as [al Hal]. rewrite Hal. eexists. split; [done|]. split; [|simpl; lia].
      split; simpl; [done|..].
      * intros x. rewrite Hx, <- Hd, lookup_delete_is_Some. naive_solver.
      * rewrite map_size_delete_Some by eauto. rewrite Hl.
        assert (size (allocs_ m) <> 0%nat) by (intros E0%map_size_empty_iff; by rewrite E0 in Hal).
        replace (u64 (Z.of_nat (size (allocs_ m))) - 1) with (u64 (Z.of_nat (size (allocs_ m))) + -1) by lia.
        rewrite uwrap_add_l. f_equal. lia.
      * split; simpl; [lia|done|auto].
    + simplify_eq. destruct (allocs_ m !! c) as [al|] eqn:Ea.
      * destruct (unlink_some (allocations (st d')) c) as [x Hx]; [apply Hd; by eexists|]. by rewrite Hx in E.
      * eexists. split; [done|]. split; [done|lia].
Qed.

Lemma run_agree rs m d :
  agree m d -> sd_cookie_counter d + Z.of_nat (length rs) < 2 ^ 64 ->
  exists m', mock_run m rs = ((device_run d rs).1, m') /\ agree m' (device_run d rs).2.
Proof.
  revert m d. induction rs as [|r rs IH]; intros m d Ha Hlt; [by exists m|]. cbn [mock_run device_run length] in *.
  destruct (dev_reply d r) as [a d1] eqn:E.
  destruct (step_agree m d r a d1 Ha ltac:(lia) E) as (m1 & -> & Ha1 & Hc).
  destruct (IH m1 d1 Ha1 ltac:(lia)) as (m2 & Hm & Ha2). rewrite Hm.
  destruct (device_run d1 rs) as [l d2]. by eexists.
Qed.

(** On the allocation protocol the mock is the device: with a kernel that
    has memory, for every sequence of fewer than 2^64 allocations and frees the callers get the same cookies and
    the same errors, and [live_allocations] is the number of allocations the
    device holds. *)
Theorem mock_simulates_device rs :
  Z.of_nat (length rs) < 2 ^ 64 ->
  let '(replies, d) := device_run (mkDev fresh_filp 0) rs in
  let '(replies', m) := mock_run new rs in
  replies' = replies /\ live_allocations m = Z.of_nat (length (allocations (st d))).
Proof.
  intros Hlen.
  assert (H0 : agree new (mkDev fresh_filp 0)).
  { split; simpl; [done| |done|].
    - intros c. rewrite lookup_empty. split; [by intros []|by intros ?%not_elem_of_nil].
    - split; simpl; [lia|constructor|by intros n ?%not_elem_of_nil]. }
  destruct (run_agree rs new _ H0 ltac:(simpl; lia)) as (m & Hm & [Hc Hd Hl [_ Hnd Hle]]).
  assert (Hctr : sd_cookie_counter (device_run (mkDev fresh_filp 0) rs).2 < 2 ^ 64).
  { cut (forall d, sd_cookie_counter d + Z.of_nat (length rs) < 2 ^ 64 -> 0 <= sd_cookie_counter d ->
      sd_cookie_counter (device_run d rs).2 < 2 ^ 64); [intros H; apply (H (mkDev fresh_filp 0)); simpl; lia|].
    clear. induction rs as [|r rs IH]; intros d H Hp; simpl in *; [lia|].
    assert (Hs : 0 <= sd_cookie_counter (dev_reply d r).2 <= sd_cookie_counter d + 1).
    { destruct r as [n|c]; unfold dev_reply, sd_ioctl_alloc_phys, sd_ioctl_free_phys; simpl.
      - destruct ((n =? 0) || _); simpl; [lia|]. rewrite uwrap_small by (unfold is_uint; lia). lia.
      - destruct (unlink_node _ c) as [[]|]; simpl; lia. }
    destruct (dev_reply d r) as [a d1]. specialize (IH d1). simpl in Hs.
    destruct (device_run d1 rs). simpl in *. lia. }
  destruct (device_run (mkDev fresh_filp 0) rs) as [l d]. rewrite Hm. simpl in Hd, Hctr, Hnd, Hle. split; [done|].
  unfold live_allocations. rewrite Hl.
  assert (Hsz : size (allocs_ m) = length (allocations (st d))).
  { rewrite <- size_dom, <- (length_fmap cookie). rewrite <- (size_list_to_set (C := gset Z) _ Hnd). f_equal.
    apply set_eq. intros c. by rewrite elem_of_dom, elem_of_list_to_set, Hd. }
  rewrite Hsz. apply uwrap_small. split; [lia|].
  assert (Hb : (length (allocations (st d)) <= Z.to_nat (sd_cookie_counter d))%nat).
  { rewrite <- (length_fmap cookie).
    replace (Z.to_nat (sd_cookie_counter d)) with (length (seqZ 1 (sd_cookie_counter d))) by (by rewrite length_seqZ).
    apply submseteq_length, NoDup_submseteq; [done|]. intros x (n & -> & Hn)%list_elem_of_fmap.
    apply Hle in Hn. apply elem_of_seqZ. lia. }
  lia.
Qed.

(** Outside the allocation protocol the two differ: the device refuses an
    unaligned address, the mock translates it. *)
Theorem mock_accepts_unaligned m :
  sd_resolve_virt m 4097 = inr EINVAL /\ handle_virt2phys 4097 = 4097.
Proof. done. Qed.

Lemma mock_simulates_device_witness :
  let '(replies, d) := device_run (mkDev fresh_filp 0) [RAlloc 3; RAlloc 0; RFree 1; RFree 1; RAlloc 5000; RAlloc 1] in
  let '(replies', m) := mock_run new [RAlloc 3; RAlloc 0; RFree 1; RFree 1; RAlloc 5000; RAlloc 1] in
  replies' = replies /\ live_allocations m = Z.of_nat (length (allocations (st d))).
Proof.
  apply (mock_simulates_device [RAlloc 3; RAlloc 0; RFree 1; RFree 1; RAlloc 5000; RAlloc 1]).
  vm_compute. reflexivity.
Defined.

End Mock.
