(* ===== verification/Ctl.v ===== *)
(** * The command-line client

    [tools/socksdirect-ctl.cpp]: argument parsing, the exchange with the monitor,
    the exit status and the lines printed. *)

From Stdlib Require Import ZArith Lia Ascii.
From stdpp Require Import strings gmap numbers base list.
From S2P Require Import Prelude Text MonitorIpc ShmHandshake Config Log Metrics ShmRing ShmSegment Monitor ShmConn.

Module Ctl.
Import Text Ipc.

(** Where a run of the tool ends before it talks to the monitor: an exit
    status. *)
Inductive parsed := Exit (status : Z) | Request (sock_path : string) (req : CtlRequest).

Definition first_char_is (c : ascii) (s : string) : bool :=
  match s with String d _ => (c =? d)%char | "" => false end.

(** The loop of [main] over [argv], and the check after it. *)
Fixpoint parse (argv : list string) (sock_path : string) (req : CtlRequest) : parsed :=
  match argv with
  | [] => if String.eqb (Ipc.op req) "" then Exit 2 else Request sock_path req
  | a :: rest =>
      if String.eqb a "--help" || String.eqb a "-h" then Exit 0
      else if String.eqb a "--socket" then
        match rest with [] => Exit 2 | p :: rest => parse rest p req end
      else if first_char_is "-" a then Exit 2
      else if String.eqb (Ipc.op req) "" then parse rest sock_path (mkReq a (args req))
      else parse rest sock_path (mkReq (Ipc.op req) (args req ++ [a]))
  end.

(** What the tool prints: lines on the standard output, or a message on the
    standard error. *)
Inductive printed := Out (lines : list string) | Err (text : string).

(** [run_request]: the exit status, what is printed, and the calls on the
    socket; [None] when a call is still blocked. *)
Definition run_request (sock_path : string) (req : CtlRequest) (io : ShmConn.ctl_io)
    : option (Z * printed * list unix_call) :=
  let '(r, calls) := connect_unix sock_path (ShmConn.socket_r io) (ShmConn.connect_r io) in
  match r with
  | inr _ => Some (3, Err ("cannot connect to " +:+ sock_path), calls)
  | inl fd =>
      match write_all (encode_request req) (ShmConn.write_rs io) with
      | None => None
      | Some (false, _) => Some (4, Err "write failed", calls ++ [UClose fd])
      | Some (true, _) =>
          match read_line (ShmConn.read_rs io) with
          | None => None
          | Some (line, _, _) =>
              let calls := calls ++ [UClose fd] in
              if String.eqb line "" then Some (4, Err "monitor closed the connection without responding", calls)
              else
                match decode_response line with
                | None => Some (4, Err ("malformed response from monitor: " +:+ line), calls)
                | Some resp => if ok resp then Some (0, Out (lines resp), calls)
                               else Some (1, Err (error resp), calls)
                end
          end
      end
  end.

Definition main (getenv : string -> option string) (argv : list string) (io : ShmConn.ctl_io)
    : option (Z * option printed) :=
  let sock_path := default kMonitorCtlSocketDefault (getenv "SOCKSDIRECT_CTL_SOCKET") in
  match parse argv sock_path (mkReq "" []) with
  | Exit s => Some (s, None)
  | Request p req => match run_request p req io with
                     | Some (s, out, _) => Some (s, Some out)
                     | None => None
                     end
  end.

(** ** Theorems *)

(** A positional argument. *)
Definition plain (a : string) : bool :=
  negb (String.eqb a "") && negb (first_char_is "-" a).

Lemma parse_args_plain l p o as_ :
  forallb plain l = true -> o <> "" -> parse l p (mkReq o as_) = Request p (mkReq o (as_ ++ l)).
Proof.
  revert as_. induction l as [|a l IH]; intros as_ Hl Ho; simpl.
  - destruct (String.eqb_spec o ""); [done|]. by rewrite app_nil_r.
  - simpl in Hl. apply andb_true_iff in Hl as [Ha Hl]. unfold plain in Ha. apply andb_true_iff in Ha as [He Hd].
    destruct (String.eqb_spec a "--help") as [->|]; [done|]. destruct (String.eqb_spec a "-h") as [->|]; [done|].
    destruct (String.eqb_spec a "--socket") as [->|]; [done|]. cbn [orb].
    apply negb_true_iff in Hd. rewrite Hd. destruct (String.eqb_spec o ""); [done|].
    rewrite IH by done. by rewrite <- app_assoc.
Qed.

(** The tool is transparent: invoked with an operation and arguments, it
    sends exactly that request; and when the daemon's answer to it comes back,
    the exit status is 0 and the lines are printed as the daemon made them, or
    it is 1 and the daemon's error is printed. *)
Theorem ctl_transparent w d d' getenv o l io fd sent line resp :
  plain o = true -> forallb plain l = true ->
  let sock := default kMonitorCtlSocketDefault (getenv "SOCKSDIRECT_CTL_SOCKET") in
  Z.of_nat (String.length sock) < sun_path_size ->
  ShmConn.socket_r io = inl fd -> ShmConn.connect_r io = None ->
  write_all (encode_request (mkReq o l)) (ShmConn.write_rs io) = Some (true, sent) ->
  Monitor.split_line sent = Some (line, "") -> Monitor.serve_line w d line = Some (resp, d') ->
  delivers (ShmConn.read_rs io) (encode_response resp) ->
  Z.of_nat (String.length (response_body resp)) <= 2 ^ 20 ->
  Monitor.serve_line w d line = Monitor.dispatch w d (mkReq o l)
  /\ main getenv (o :: l) io
     = Some (if ok resp then (0, Some (Out (lines resp))) else (1, Some (Err (error resp)))).
Proof.
  intros Ho Hl sock Hs Hfd Hc Hw Hline Hserve Hr Hsmall.
  destruct (write_all_prefix _ _ _ _ Hw) as (r & Hpre & Hr0).
  rewrite Hr0, sapp_nil_r, encode_request_body in Hpre by done. subst sent.
  rewrite ShmConn.split_line_no_nl in Hline by apply request_body_no_nl. injection Hline as <-.
  split.
  { unfold Monitor.serve_line. by rewrite <- (sapp_nil_r (request_body _)), decode_request_body. }
  unfold main. fold sock.
  assert (parse (o :: l) sock (mkReq "" []) = Request sock (mkReq o l)) as ->.
  { unfold plain in Ho. apply andb_true_iff in Ho as [He Hd]. apply negb_true_iff in He, Hd. cbn [parse].
    destruct (String.eqb_spec o "--help") as [->|]; [done|]. destruct (String.eqb_spec o "-h") as [->|]; [done|].
    destruct (String.eqb_spec o "--socket") as [->|]; [done|]. cbn [orb]. rewrite Hd. cbn [Ipc.op String.eqb].
    apply String.eqb_neq in He. by apply parse_args_plain. }
  unfold run_request, connect_unix. rewrite Hfd, Hc.
  destruct (Z.gtb_spec (Z.of_nat (String.length sock) + 1) sun_path_size); [lia|]. rewrite Hw.
  rewrite encode_response_body in Hr.
  destruct (read_line_from_delivers _ _ "" Hr (response_body_no_nl resp)) as (rest & He & _); [done|].
  unfold read_line. rewrite He.
  pose proof (decode_response_body resp "") as Hdec. rewrite sapp_nil_r in Hdec. rewrite sapp_nil_l, Hdec.
  destruct (String.eqb_spec (response_body resp) "") as [Hempty|_].
  { exfalso. by rewrite Hempty in Hdec. }
  unfold wire_image. by destruct (ok resp).
Qed.

Definition demo_resp : CtlResponse := Monitor.ok_lines ["hello"].
Definition demo_io : ShmConn.ctl_io :=
  ShmConn.mkIo (inl 3) None [WOk 7; WErr EINTR; WOk 100] (RByte <$> list_of_string (encode_response demo_resp)).

Lemma ctl_transparent_witness :
  Monitor.serve_line Monitor.demo_world Monitor.demo_daemon (request_body (mkReq "ping" ["hello"]))
  = Monitor.dispatch Monitor.demo_world Monitor.demo_daemon (mkReq "ping" ["hello"])
  /\ main (fun _ => None) ["ping"; "hello"] demo_io = Some (0, Some (Out ["hello"])).
Proof.
  eapply (ctl_transparent Monitor.demo_world Monitor.demo_daemon _ (fun _ => None) "ping" ["hello"] demo_io 3
           (encode_request (mkReq "ping" ["hello"])) _ demo_resp);
    try (vm_compute; reflexivity).
  - vm_compute. repeat split.
  - vm_compute. discriminate.
Defined.

End Ctl.
