(* ===== verification/DArray.v ===== *)
(** * The slot array of the prototype

    [common/darray.hpp]: [darray_t], the growing array with a validity flag per
    slot in which the prototype keeps its processes, descriptors and list
    nodes; an element keeps its index until it is deleted.  An access outside
    the vector is undefined in the source and is [None] here.  The positions
    are unsigned: an [int] argument is converted. *)

From Stdlib Require Import ZArith Lia.
From stdpp Require Import numbers base sorting gmap list.
From S2P Require Import Prelude.

Module DArray.

Record data_t (A : Type) := mkData { value : A; flag : bool }.
Arguments mkData {A}.
Arguments value {A}.
Arguments flag {A}.

Record darray_t (A : Type) := mkDarray {
  lowest_available : Z;
  highest_possible : Z;
  total_num : Z;
  size : Z;
  data : list (data_t A)
}.
Arguments mkDarray {A}.
Arguments lowest_available {A}.
Arguments highest_possible {A}.
Arguments total_num {A}.
Arguments size {A}.
Arguments data {A}.

Section ops.
Context {A : Type} `{!Inhabited A} (INITSIZE : Z).
Implicit Types (d : darray_t A) (l : list (data_t A)).

(** [data_t():data(),isvalid(false)] *)
Definition new_data : data_t A := mkData inhabitant false.

(** [vector::resize]. *)
Definition vector_resize l (n : Z) : list (data_t A) :=
  take (Z.to_nat n) l ++ replicate (Z.to_nat n - length l) new_data.

Definition darray_new : darray_t A :=
  mkDarray 0 0 0 INITSIZE (vector_resize [] INITSIZE).

(** The loop of [add] that looks for the next free slot.  [size] turns visit
    every slot. *)
Fixpoint next_free (fuel : nat) l (sz low : Z) : option Z :=
  match fuel with
  | O => None
  | S fuel =>
      let low := u32 (low + 1) in
      let low := if low =? sz then 0 else low in
      match l !! Z.to_nat low with
      | None => None
      | Some c => if flag c then next_free fuel l sz low else Some low
      end
  end.

Definition add d (input : A) : option (Z * darray_t A) :=
  let idx := lowest_available d in
  if Z.of_nat (length (data d)) <=? idx then None
  else
    let l := <[Z.to_nat idx := mkData input true]> (data d) in
    let total := u32 (total_num d + 1) in
    let sz := if size d <=? total then u32 (size d * 2) else size d in
    let l := if size d <=? total then vector_resize l sz else l in
    match next_free (Z.to_nat sz) l sz idx with
    | None => None
    | Some low =>
        let high := if highest_possible d <? idx then idx else highest_possible d in
        Some (idx, mkDarray low high total sz l)
    end.

(** [while ((highest_possible > 0) && (!data[highest_possible].isvalid))
    --highest_possible;] *)
Fixpoint lower_high (h : nat) l : nat :=
  match h with
  | O => O
  | S h' =>
      match l !! h with
      | Some c => if flag c then h else lower_high h' l
      | None => h
      end
  end.

Definition del d (loc : Z) : option (darray_t A) :=
  let loc := u32 loc in
  match data d !! Z.to_nat loc with
  | None => None
  | Some c =>
      let l := <[Z.to_nat loc := mkData (value c) false]> (data d) in
      let high := if loc =? highest_possible d
                  then Z.of_nat (lower_high (Z.to_nat (highest_possible d)) l)
                  else highest_possible d in
      Some (mkDarray (lowest_available d) high (u32 (total_num d - 1)) (size d) l)
  end.

Definition init d : darray_t A :=
  mkDarray 0 0 0 INITSIZE (vector_resize (data d) INITSIZE).

(** [operator[]], read and written through the reference it returns. *)
Definition get d (i : Z) : option A := value <$> data d !! Z.to_nat (u32 i).

Definition update d (i : Z) (f : A -> A) : darray_t A :=
  mkDarray (lowest_available d) (highest_possible d) (total_num d) (size d)
    (alter (fun c => mkData (f (value c)) (flag c)) (Z.to_nat (u32 i)) (data d)).

Definition get_totalsize d : Z := total_num d.
Definition get_highest_possible d : Z := highest_possible d.

(** The second test reads inside the vector: [highest_possible] is always one
    of its indices. *)
Definition isvalid d (loc : Z) : bool :=
  let loc := u32 loc in
  if highest_possible d <? loc then false
  else match data d !! Z.to_nat loc with Some c => flag c | None => false end.

(** The loop shared by [iterator_init] and [iterator_next]; an [int] is
    compared with [highest_possible] as an unsigned number. *)
Fixpoint iterate_from (fuel : nat) d (p : Z) : Z :=
  match fuel with
  | O => -1
  | S fuel =>
      if u32 p <=? highest_possible d
      then if isvalid d p then p else iterate_from fuel d (p + 1)
      else -1
  end.

Definition iterator_init d : Z := iterate_from (S (Z.to_nat (highest_possible d))) d 0.

Definition iterator_next d (prev_pointer : Z) : Z :=
  iterate_from (S (Z.to_nat (highest_possible d))) d (prev_pointer + 1).

End ops.

(** The element stored at an index. *)
Definition slot_of {A} (l : list (data_t A)) (i : Z) : option A :=
  if i <? 0 then None
  else match l !! Z.to_nat i with
       | Some c => if flag c then Some (value c) else None
       | None => None
       end.

Definition elem {A} (d : darray_t A) (i : Z) : option A := slot_of (data d) i.

(** The number of valid slots. *)
Definition live {A} (l : list (data_t A)) : nat :=
  length (filter (fun c => Is_true (flag c)) l).

Record wf {A} (d : darray_t A) : Prop := {
  wf_size : Z.of_nat (length (data d)) = size d;
  wf_bound : 0 < size d < 2 ^ 32;
  wf_total : total_num d = Z.of_nat (live (data d));
  wf_room : total_num d < size d;
  wf_low : 0 <= lowest_available d < size d;
  wf_free : elem d (lowest_available d) = None;
  wf_high : 0 <= highest_possible d < size d;
  wf_top : forall i, is_Some (elem d i) -> i <= highest_possible d
}.

(** A client's loop [for (i = iterator_init(); i != -1; i = iterator_next(i))]. *)
Fixpoint visit_from {A} (fuel : nat) (d : darray_t A) (p : Z) : list Z :=
  match fuel with
  | O => []
  | S fuel => if p =? -1 then [] else p :: visit_from fuel d (iterator_next d p)
  end.

Definition visits {A} (d : darray_t A) : list Z :=
  visit_from (S (Z.to_nat (highest_possible d))) d (iterator_init d).

(** ** Counting and resizing *)

Section facts.
Context {A : Type} `{!Inhabited A}.
Implicit Types (d : darray_t A) (l : list (data_t A)) (c : data_t A) (i : Z).

Definition b2n (b : bool) : nat := if b then 1 else 0.

Lemma live_cons c l : live (c :: l) = (b2n (flag c) + live l)%nat.
Proof. unfold live. rewrite filter_cons. by destruct (flag c). Qed.

Lemma live_app l k : live (l ++ k) = (live l + live k)%nat.
Proof. unfold live. by rewrite filter_app, length_app. Qed.

Lemma live_replicate n : live (replicate n (new_data : data_t A)) = O.
Proof. induction n; [done|]. cbn [replicate]. by rewrite live_cons. Qed.

Lemma live_insert l (n : nat) c c' :
  l !! n = Some c -> (live (<[n := c']> l) + b2n (flag c) = live l + b2n (flag c'))%nat.
Proof.
  revert n. induction l as [|x l IH]; intros [|n] Hn; simplify_eq/=; rewrite !live_cons; [lia|].
  specialize (IH _ Hn). lia.
Qed.

Lemma live_all l : (forall n c, l !! n = Some c -> flag c = true) -> live l = length l.
Proof.
  induction l as [|x l IH]; intros H; [done|]. rewrite live_cons, (H 0%nat x eq_refl).
  simpl. f_equal. apply IH. intros n c. apply (H (S n)).
Qed.

Lemma live_le l : (live l <= length l)%nat.
Proof. induction l as [|x l IH]; [done|]. rewrite live_cons. simpl. destruct (flag x); simpl; lia. Qed.

Lemma grow_eq l n :
  Z.of_nat (length l) <= n ->
  vector_resize l n = l ++ replicate (Z.to_nat n - length l) new_data.
Proof. intros. unfold vector_resize. rewrite take_ge by lia. done. Qed.

Lemma slot_of_neg l i : i < 0 -> slot_of l i = None.
Proof. intros. unfold slot_of. by destruct (Z.ltb_spec i 0); [|lia]. Qed.

Lemma slot_of_Some l i x :
  slot_of l i = Some x <-> 0 <= i /\ l !! Z.to_nat i = Some (mkData x true).
Proof.
  unfold slot_of. destruct (Z.ltb_spec i 0); [naive_solver lia|].
  destruct (l !! Z.to_nat i) as [[v []]|]; naive_solver.
Qed.

Lemma slot_of_range l i : is_Some (slot_of l i) -> 0 <= i < Z.of_nat (length l).
Proof. intros [x [H1 H2%lookup_lt_Some]%slot_of_Some]. lia. Qed.

Lemma slot_of_None l i c :
  0 <= i -> l !! Z.to_nat i = Some c -> slot_of l i = None <-> flag c = false.
Proof. unfold slot_of. destruct (Z.ltb_spec i 0); [lia|]. intros _ ->. by destruct (flag c). Qed.

Lemma slot_of_grow l n i : Z.of_nat (length l) <= n -> slot_of (vector_resize l n) i = slot_of l i.
Proof.
  intros Hn. rewrite grow_eq by done. unfold slot_of. destruct (Z.ltb_spec i 0); [done|].
  destruct (decide (Z.to_nat i < length l)%nat).
  - by rewrite lookup_app_l by done.
  - rewrite lookup_app_r, (lookup_ge_None_2 l) by lia.
    destruct (replicate _ _ !! _) as [c|] eqn:E; [|done].
    by apply lookup_replicate in E as [-> _].
Qed.

Lemma slot_of_insert l (n : nat) v b i :
  (n < length l)%nat ->
  slot_of (<[n := mkData v b]> l) i
  = if i =? Z.of_nat n then (if b then Some v else None) else slot_of l i.
Proof.
  intros Hn. unfold slot_of. destruct (Z.ltb_spec i 0), (Z.eqb_spec i (Z.of_nat n)); try lia; [done| |].
  - subst i. by rewrite Nat2Z.id, list_lookup_insert_eq by done.
  - by rewrite list_lookup_insert_ne by lia.
Qed.

(** ** The searches *)

Lemma next_free_turns fuel l sz low :
  Z.of_nat (length l) = sz -> 0 < sz < 2 ^ 32 -> 0 <= low < sz ->
  match next_free fuel l sz low with
  | Some r => 0 <= r < sz /\ slot_of l r = None
  | None => forall k, 0 < k <= Z.of_nat fuel ->
              exists c, l !! Z.to_nat ((low + k) mod sz) = Some c /\ flag c = true
  end.
Proof.
  intros Hl Hsz. revert low. induction fuel as [|fuel IH]; intros low Hlow; cbn [next_free]; [lia|].
  rewrite (uwrap_small 32 (low + 1)) by (unfold is_uint; lia).
  set (p := if low + 1 =? sz then 0 else low + 1).
  assert (Hp : 0 <= p < sz) by (unfold p; destruct (Z.eqb_spec (low + 1) sz); lia).
  assert (Hmod : p = (low + 1) mod sz).
  { unfold p. destruct (Z.eqb_spec (low + 1) sz) as [->|]; [by rewrite Z.mod_same by lia|].
    by rewrite Z.mod_small by lia. }
  destruct (lookup_lt_is_Some_2 l (Z.to_nat p)) as [c Hc]; [lia|]. rewrite Hc.
  destruct (flag c) eqn:Hf; [|split; [done|]; by apply (slot_of_None l p c (proj1 Hp) Hc)].
  specialize (IH p Hp). destruct (next_free fuel l sz p); [done|].
  intros k Hk. destruct (decide (k = 1)) as [->|]; [exists c; by rewrite <- Hmod|].
  destruct (IH (k - 1) ltac:(lia)) as (c' & Hc' & Hf'). exists c'. split; [|done].
  rewrite <- Hc'. rewrite Hmod, Zplus_mod_idemp_l. do 3 f_equal. lia.
Qed.

Lemma next_free_found l sz low :
  Z.of_nat (length l) = sz -> 0 < sz < 2 ^ 32 -> 0 <= low < sz -> Z.of_nat (live l) < sz ->
  exists r, next_free (Z.to_nat sz) l sz low = Some r /\ 0 <= r < sz /\ slot_of l r = None.
Proof.
  intros Hl Hsz Hlow Hlive. pose proof (next_free_turns (Z.to_nat sz) l sz low Hl Hsz Hlow) as H.
  destruct (next_free _ _ _ _) as [r|]; [by exists r|]. exfalso.
  assert (live l = length l); [|lia]. apply live_all. intros n c Hn.
  pose proof (lookup_lt_Some _ _ _ Hn). set (k := (Z.of_nat n - low - 1) mod sz + 1).
  assert (0 <= (Z.of_nat n - low - 1) mod sz < sz) by (apply Z.mod_pos_bound; lia).
  destruct (H k ltac:(lia)) as (c' & Hc' & Hf).
  replace ((low + k) mod sz) with (Z.of_nat n) in Hc'; [rewrite Nat2Z.id in Hc'; by simplify_eq|].
  unfold k. rewrite Z.add_assoc, Z.add_comm, Z.add_assoc, Zplus_mod_idemp_r.
  rewrite Z.mod_small by lia. lia.
Qed.

Lemma lower_high_spec h l :
  (h < length l)%nat ->
  (lower_high h l <= h)%nat
  /\ forall n c, (n <= h)%nat -> l !! n = Some c -> flag c = true -> (n <= lower_high h l)%nat.
Proof.
  induction h as [|h IH]; intros Hh; cbn [lower_high]; [by split; [|intros]; lia|].
  destruct (lookup_lt_is_Some_2 l (S h) Hh) as [c Hc]. rewrite Hc.
  destruct (flag c) eqn:Hf; [by split; [|intros]; lia|]. destruct (IH ltac:(lia)) as [H1 H2]. split; [lia|].
  intros n c' Hn Hl Hf'. destruct (decide (n = S h)) as [->|]; [congruence|]. by apply (H2 n c'); [lia|..].
Qed.

Lemma isvalid_elem d i : wf d -> 0 <= i < 2 ^ 32 -> isvalid d i = true <-> is_Some (elem d i).
Proof.
  intros Hwf Hi. pose proof (wf_top d Hwf i) as Htop. unfold isvalid, elem, slot_of in *.
  rewrite !(uwrap_small 32 i) by done.
  destruct (Z.ltb_spec i 0); [lia|]. destruct (Z.ltb_spec (highest_possible d) i).
  - split; [done|]. intros H'. specialize (Htop H'). lia.
  - rewrite is_Some_alt. by destruct (data d !! Z.to_nat i) as [[v []]|].
Qed.

Lemma elem_range d i : wf d -> is_Some (elem d i) -> 0 <= i < 2 ^ 32.
Proof. intros Hwf Hi. apply slot_of_range in Hi. destruct Hwf. lia. Qed.

Lemma get_elem d i x : wf d -> elem d i = Some x -> get d i = Some x.
Proof.
  intros Hwf Hx. pose proof (elem_range d i Hwf (mk_is_Some _ _ Hx)).
  apply slot_of_Some in Hx as [_ Hx]. unfold get. rewrite uwrap_small by done. by rewrite Hx.
Qed.

(** ** The operations *)

Lemma new_data_eq INITSIZE :
  0 < INITSIZE -> data (darray_new INITSIZE : darray_t A) = replicate (Z.to_nat INITSIZE) new_data.
Proof. intros Hi. simpl. rewrite grow_eq by (simpl; lia). simpl. by rewrite Nat.sub_0_r. Qed.

Lemma new_elem INITSIZE i : 0 < INITSIZE -> elem (darray_new INITSIZE : darray_t A) i = None.
Proof.
  intros Hi. unfold elem. rewrite new_data_eq by done. destruct (slot_of _ i) as [x|] eqn:E; [|done].
  apply slot_of_Some in E as [_ [E _]%lookup_replicate]. done.
Qed.

Lemma new_wf INITSIZE : 0 < INITSIZE < 2 ^ 32 -> wf (darray_new INITSIZE : darray_t A).
Proof.
  intros Hi. pose proof (new_data_eq INITSIZE ltac:(lia)) as Hd.
  split; try (rewrite Hd); try (simpl; lia); [|..].
  - rewrite length_replicate. simpl. lia.
  - rewrite live_replicate. done.
  - apply new_elem. lia.
  - intros i Hs. rewrite new_elem in Hs by lia. by destruct Hs.
Qed.

Lemma add_spec d x :
  wf d -> total_num d < 2 ^ 31 - 1 ->
  exists idx d', add d x = Some (idx, d') /\ wf d' /\ 0 <= idx /\ elem d idx = None
    /\ total_num d' = total_num d + 1
    /\ forall i, elem d' i = if i =? idx then Some x else elem d i.
Proof.
  intros [Hsz Hb Ht Hroom Hlow Hfree Hhigh Htop] Hmax. unfold add, elem in *.
  set (idx := lowest_available d) in *. destruct (Z.leb_spec (Z.of_nat (length (data d))) idx); [lia|].
  rewrite (uwrap_small 32 (total_num d + 1)) by (unfold is_uint; lia).
  set (l := <[Z.to_nat idx := mkData x true]> (data d)).
  assert (Hl : length l = length (data d)) by apply length_insert.
  assert (Hs : forall i, slot_of l i = if i =? idx then Some x else slot_of (data d) i).
  { intros i. unfold l. rewrite slot_of_insert by lia. by rewrite Z2Nat.id by lia. }
  assert (Hlv : live l = S (live (data d))).
  { destruct (lookup_lt_is_Some_2 (data d) (Z.to_nat idx)) as [c Hc]; [lia|].
    pose proof (live_insert _ _ _ (mkData x true) Hc) as H'.
    apply (slot_of_None _ _ _ (proj1 Hlow) Hc) in Hfree. rewrite Hfree in H'. simpl in H'. unfold l. lia. }
  assert (Hg : exists sz l', (if size d <=? total_num d + 1 then u32 (size d * 2) else size d) = sz
    /\ (if size d <=? total_num d + 1 then vector_resize l sz else l) = l'
    /\ size d <= sz < 2 ^ 32 /\ Z.of_nat (length l') = sz /\ live l' = live l
    /\ (forall i, slot_of l' i = slot_of l i) /\ total_num d + 1 < sz).
  { destruct (Z.leb_spec (size d) (total_num d + 1)); eexists _, _; (split; [done|]; split; [done|]).
    - rewrite uwrap_small by (unfold is_uint; lia). split_and!; [lia|lia| | |intros; apply slot_of_grow; lia|lia].
      + rewrite grow_eq by lia. rewrite length_app, length_replicate. lia.
      + rewrite grow_eq by lia. rewrite live_app, live_replicate. lia.
    - split_and!; (lia || done). }
  destruct Hg as (sz & l' & -> & -> & Hsz' & Hl' & Hlv' & Hs' & Hr).
  destruct (next_free_found l' sz idx) as (r & -> & Hr1 & Hr2); [done|lia|lia|lia|].
  eexists idx, _. split; [done|]. cbn [data total_num lowest_available highest_possible size].
  split; [|split; [lia|]; split; [done|]; split; [done|]; intros i; by rewrite Hs', Hs].
  split; simpl; try lia; unfold elem; simpl; [done|destruct (Z.ltb_spec (highest_possible d) idx); lia|].
  intros i. rewrite Hs', Hs. destruct (Z.eqb_spec i idx), (Z.ltb_spec (highest_possible d) idx); intros Hi; try lia;
    specialize (Htop i Hi); lia.
Qed.

Lemma add_size d x i d' : wf d -> total_num d < 2 ^ 31 - 1 -> add d x = Some (i, d') -> size d <= size d'.
Proof.
  intros Hwf Hmax. unfold add. destruct (_ <=? lowest_available d); [done|].
  destruct (next_free _ _ _ _); [|done]. intros [= _ <-]. simpl. pose proof (wf_bound d Hwf). pose proof (wf_room d Hwf).
  pose proof (wf_total d Hwf). rewrite (uwrap_small 32 (total_num d + 1)) by (unfold is_uint; lia).
  destruct (Z.leb_spec (size d) (total_num d + 1)); [|lia]. rewrite uwrap_small by (unfold is_uint; lia). lia.
Qed.

(** The search ends at once when the next slot is free. *)
Lemma next_free_first l sz low :
  0 <= low -> low + 1 < sz < 2 ^ 32 -> Z.of_nat (length l) = sz -> slot_of l (low + 1) = None ->
  next_free (Z.to_nat sz) l sz low = Some (low + 1).
Proof.
  intros H0 Hsz Hl Hs. destruct (Z.to_nat sz) eqn:Es; [lia|]. cbn [next_free].
  rewrite (uwrap_small 32 (low + 1)) by (unfold is_uint; lia). destruct (Z.eqb_spec (low + 1) sz); [lia|].
  destruct (lookup_lt_is_Some_2 l (Z.to_nat (low + 1))) as [c Hc]; [lia|]. rewrite Hc.
  apply (slot_of_None l (low + 1) c) in Hs; [by rewrite Hs|lia|done].
Qed.

(** An array from which nothing was ever deleted is filled from the start. *)
Definition dense (d : darray_t A) : Prop :=
  lowest_available d = total_num d /\ forall i, total_num d <= i -> elem d i = None.

Lemma add_dense d x i d' :
  wf d -> dense d -> total_num d < 2 ^ 31 - 1 -> add d x = Some (i, d') -> i = total_num d /\ dense d'.
Proof.
  intros Hwf [Hlow Hfree] Hmax Ha. destruct (add_spec d x Hwf Hmax) as (i' & e & Ha' & Hwfe & _ & _ & Ht & He).
  rewrite Ha in Ha'. injection Ha' as <- <-. pose proof (wf_room _ Hwfe) as Hroom. pose proof (wf_size _ Hwfe) as Hsz.
  pose proof (wf_bound _ Hwfe) as Hb. pose proof (wf_bound _ Hwf). pose proof (wf_total _ Hwf).
  assert (Hnext : elem d' (total_num d + 1) = None).
  { rewrite He. unfold add in Ha. destruct (_ <=? lowest_available d); [done|]. destruct (next_free _ _ _ _); [|done].
    injection Ha as <- <-. destruct (Z.eqb_spec (total_num d + 1) (lowest_available d)); [lia|]. apply Hfree. lia. }
  unfold add in Ha. destruct (_ <=? lowest_available d); [done|]. destruct (next_free _ _ _ _) as [low|] eqn:En; [|done].
  injection Ha as <- <-. split; [done|]. simpl in Hroom, Hsz, Hb, Hnext, Ht. split; simpl.
  - rewrite next_free_first in En; [injection En as <-; lia|lia|lia|lia|].
    replace (lowest_available d + 1) with (total_num d + 1) by lia. exact Hnext.
  - intros i Hi. rewrite Ht in Hi. rewrite He. destruct (Z.eqb_spec i (lowest_available d)); [lia|]. apply Hfree. lia.
Qed.

Lemma del_size d i d' : del d i = Some d' -> size d' = size d.
Proof. unfold del. destruct (data d !! _); [|done]. by intros [= <-]. Qed.

Lemma elem_slot d i : wf d -> is_Some (elem d i) -> 0 <= i < size d.
Proof. intros Hwf Hi. apply slot_of_range in Hi. by rewrite (wf_size d Hwf) in Hi. Qed.

Lemma elem_isvalid d i : wf d -> is_Some (elem d i) -> isvalid d i = true.
Proof. intros Hwf Hi. apply isvalid_elem; [done| |done]. by apply (elem_range d). Qed.

Lemma del_spec d i x :
  wf d -> elem d i = Some x ->
  exists d', del d i = Some d' /\ wf d' /\ total_num d' = total_num d - 1
    /\ forall j, elem d' j = if j =? i then None else elem d j.
Proof.
  intros [Hsz Hb Ht Hroom Hlow Hfree Hhigh Htop] Hx. unfold del, elem in *.
  pose proof Hx as [Hi Hc]%slot_of_Some. pose proof (lookup_lt_Some _ _ _ Hc).
  rewrite !(uwrap_small 32 i) by (unfold is_uint; lia). rewrite Hc. simpl.
  set (l := <[Z.to_nat i := mkData x false]> (data d)).
  assert (Hl : length l = length (data d)) by apply length_insert.
  assert (Hs : forall j, slot_of l j = if j =? i then None else slot_of (data d) j).
  { intros j. unfold l. rewrite slot_of_insert by lia. by rewrite Z2Nat.id by lia. }
  assert (Hlv : S (live l) = live (data d)).
  { pose proof (live_insert _ _ _ (mkData x false) Hc) as H'. simpl in H'. unfold l. lia. }
  eexists. split; [done|]. simpl. rewrite uwrap_small by (unfold is_uint; lia).
  split; [|by split]. split; simpl; try lia; unfold elem; simpl.
  - rewrite Hs, Hfree. by destruct (_ =? _).
  - destruct (Z.eqb_spec i (highest_possible d)); [|lia].
    destruct (lower_high_spec (Z.to_nat (highest_possible d)) l); lia.
  - intros j. rewrite Hs. destruct (Z.eqb_spec j i); [by intros []|]. intros Hj.
    specialize (Htop j Hj). destruct (Z.eqb_spec i (highest_possible d)); [|lia].
    destruct Hj as [y Hy]. pose proof Hy as [Hj Hcj]%slot_of_Some.
    destruct (lower_high_spec (Z.to_nat (highest_possible d)) l ltac:(lia)) as [_ H'].
    specialize (H' (Z.to_nat j) (mkData y true) ltac:(lia)). unfold l in H'.
    rewrite list_lookup_insert_ne in H' by lia. specialize (H' Hcj eq_refl). fold l in H'. lia.
Qed.

Lemma update_elem d i f j :
  0 <= i < 2 ^ 32 -> elem (update d i f) j = (if j =? i then f <$> elem d j else elem d j).
Proof.
  intros Hi. unfold elem, update, slot_of; simpl. rewrite (uwrap_small 32 i) by done. destruct (Z.ltb_spec j 0); [by destruct (j =? i)|].
  destruct (Z.eqb_spec j i) as [->|]; [|by rewrite list_lookup_alter_ne by lia].
  rewrite list_lookup_alter_eq. by destruct (data d !! Z.to_nat i) as [[v []]|].
Qed.

Lemma update_dense d i f : 0 <= i < 2 ^ 32 -> dense d -> dense (update d i f).
Proof.
  intros Hi [Hl Hf]. split; [done|]. intros j Hj. rewrite update_elem by done. change (total_num d <= j) in Hj.
  rewrite (Hf j Hj). by destruct (j =? i).
Qed.

Lemma update_live l (n : nat) f :
  live (alter (fun c => mkData (f (value c)) (flag c)) n l) = live l.
Proof. revert n. induction l as [|c l IH]; intros [|n]; cbn [alter list_alter]; rewrite ?live_cons, ?IH; done. Qed.

Lemma update_wf d i f : wf d -> 0 <= i < 2 ^ 32 -> wf (update d i f).
Proof.
  intros [Hsz Hb Ht Hroom Hlow Hfree Hhigh Htop] Hi.
  split; try done.
  - simpl. by rewrite length_alter.
  - simpl. by rewrite update_live.
  - rewrite update_elem by done. change (lowest_available (update d i f)) with (lowest_available d).
    rewrite Hfree. by destruct (_ =? _).
  - intros j. rewrite update_elem by done. destruct (j =? i); [|apply Htop].
    intros Hs%fmap_is_Some. by apply Htop.
Qed.

(** ** Iteration *)

Lemma iterate_from_spec fuel d p :
  wf d -> 0 <= p < 2 ^ 32 -> highest_possible d + 1 - p <= Z.of_nat fuel ->
  (iterate_from fuel d p = -1 /\ forall i, p <= i -> elem d i = None)
  \/ (p <= iterate_from fuel d p /\ is_Some (elem d (iterate_from fuel d p))
      /\ forall i, p <= i < iterate_from fuel d p -> elem d i = None).
Proof.
  intros Hwf. revert p. induction fuel as [|fuel IH]; intros p Hp Hf; cbn [iterate_from].
  { left. split; [done|]. intros i Hi. apply eq_None_not_Some. intros Hs%(wf_top d Hwf). lia. }
  rewrite uwrap_small by done. destruct (Z.leb_spec p (highest_possible d)) as [Hle|Hgt].
  2: { left. split; [done|]. intros i Hi. apply eq_None_not_Some. intros Hs%(wf_top d Hwf). lia. }
  pose proof (isvalid_elem d p Hwf Hp) as Hv. pose proof (wf_high d Hwf). pose proof (wf_bound d Hwf).
  destruct (isvalid d p); [right; split_and!; [lia|by apply Hv|lia]|].
  assert (Hn : elem d p = None) by (apply eq_None_not_Some; intros Hs; by apply Hv in Hs).
  destruct (decide (p + 1 < 2 ^ 32)) as [Hlt|]; [|lia].
  destruct (IH (p + 1) ltac:(lia) ltac:(lia)) as [[-> H']|(H1 & H2 & H3)]; [left|right].
  - split; [done|]. intros i Hi. destruct (decide (i = p)) as [->|]; [done|]. apply H'. lia.
  - split_and!; [lia|done|]. intros i Hi. destruct (decide (i = p)) as [->|]; [done|]. apply H3. lia.
Qed.

Lemma iterator_next_from d p :
  wf d -> -1 <= p < 2 ^ 32 - 1 ->
  (iterator_next d p = -1 /\ forall i, p < i -> elem d i = None)
  \/ (p < iterator_next d p <= highest_possible d /\ is_Some (elem d (iterator_next d p))
      /\ forall i, p < i < iterator_next d p -> elem d i = None).
Proof.
  intros Hwf Hp. pose proof (wf_high d Hwf). pose proof (wf_bound d Hwf).
  destruct (iterate_from_spec (S (Z.to_nat (highest_possible d))) d (p + 1) Hwf) as [[H1 H2]|(H1 & H2 & H3)];
    [lia|lia|left|right].
  - split; [done|]. intros i Hi. apply H2. lia.
  - unfold iterator_next. pose proof (wf_top d Hwf _ H2).
    split_and!; [lia|lia|done|]. intros i Hi. apply H3. lia.
Qed.

Lemma iterator_next_spec d p :
  wf d -> -1 <= p <= highest_possible d ->
  (iterator_next d p = -1 /\ forall i, p < i -> elem d i = None)
  \/ (p < iterator_next d p <= highest_possible d /\ is_Some (elem d (iterator_next d p))
      /\ forall i, p < i < iterator_next d p -> elem d i = None).
Proof.
  intros Hwf Hp. pose proof (wf_high d Hwf). pose proof (wf_bound d Hwf). apply iterator_next_from; [done|lia].
Qed.

Lemma visit_from_end fuel d : visit_from fuel d (-1) = [].
Proof. by destruct fuel. Qed.

Lemma visit_from_spec fuel d p :
  wf d -> 0 <= p <= highest_possible d -> is_Some (elem d p) ->
  highest_possible d + 1 - p <= Z.of_nat fuel ->
  StronglySorted Z.lt (visit_from fuel d p)
  /\ forall i, i ∈ visit_from fuel d p <-> p <= i /\ is_Some (elem d i).
Proof.
  intros Hwf. revert p. induction fuel as [|fuel IH]; intros p Hp Hs Hf; cbn [visit_from]; [lia|].
  destruct (Z.eqb_spec p (-1)); [lia|].
  destruct (iterator_next_spec d p Hwf ltac:(lia)) as [[-> H']|(Hn & Hsn & H')].
  - rewrite visit_from_end. split; [by repeat constructor|]. intros i. rewrite list_elem_of_singleton.
    split; [intros ->; by split|]. intros [Hi Hsi]. destruct (decide (i = p)); [done|].
    rewrite H' in Hsi by lia. by destruct Hsi.
  - destruct (IH (iterator_next d p) ltac:(lia) Hsn ltac:(lia)) as [H1 H2]. split.
    + constructor; [done|]. apply Forall_forall. intros i [Hi _]%H2. lia.
    + intros i. rewrite elem_of_cons, H2. split; [intros [->|[]]; split; (done || lia)|].
      intros [Hi Hsi]. destruct (decide (i = p)); [by left|right]. split; [|done].
      destruct (decide (iterator_next d p <= i)); [done|]. rewrite H' in Hsi by lia. by destruct Hsi.
Qed.

Lemma visits_spec d :
  wf d -> StronglySorted Z.lt (visits d) /\ forall i, i ∈ visits d <-> is_Some (elem d i).
Proof.
  intros Hwf. pose proof (wf_high d Hwf).
  assert (Hpos : forall i, is_Some (elem d i) -> 0 <= i) by (intros i Hi; apply slot_of_range in Hi; lia).
  destruct (iterator_next_spec d (-1) Hwf ltac:(lia)) as [[E H']|(Hn & Hsn & H')];
    change (iterator_next d (-1)) with (iterator_init d) in *; unfold visits.
  - rewrite E, visit_from_end. split; [constructor|]. intros i. split; [by intros ?%not_elem_of_nil|].
    intros Hi. pose proof (Hpos i Hi). rewrite H' in Hi by lia. by destruct Hi.
  - destruct (visit_from_spec (S (Z.to_nat (highest_possible d))) d (iterator_init d) Hwf) as [H1 H2];
      [lia|done|lia|]. split; [done|]. intros i. rewrite H2. split; [by intros []|]. intros Hi. split; [|done].
    destruct (decide (iterator_init d <= i)); [done|]. pose proof (Hpos i Hi).
    rewrite H' in Hi by lia. by destruct Hi.
Qed.

End facts.

(** ** Arrays in step

    The slots an array hands out depend on its flags and counters only. *)
Definition shape {A} (d : darray_t A) : list bool * Z * Z * Z * Z :=
  (flag <$> data d, size d, lowest_available d, highest_possible d, total_num d).

Section shapes.
Context {A B : Type} `{!Inhabited A, !Inhabited B}.
Implicit Types (l : list (data_t A)) (k : list (data_t B)).

Lemma flags_lookup l k (n : nat) : flag <$> l = flag <$> k -> flag <$> l !! n = flag <$> k !! n.
Proof. intros H. apply (f_equal (.!! n)) in H. by rewrite !list_lookup_fmap in H. Qed.

Lemma next_free_flags l k sz : flag <$> l = flag <$> k -> forall fuel low, next_free fuel l sz low = next_free fuel k sz low.
Proof.
  intros H fuel. induction fuel as [|fuel IH]; [done|]. intros low. simpl. set (p := Z.to_nat _).
  pose proof (flags_lookup l k p H) as Hp. destruct (l !! p) as [a|], (k !! p) as [b|]; simplify_eq/=; [|done].
  rewrite Hp. destruct (flag b); [apply IH|done].
Qed.

Lemma lower_high_flags l k h : flag <$> l = flag <$> k -> lower_high h l = lower_high h k.
Proof.
  intros H. induction h as [|h IH]; [done|]. simpl.
  pose proof (flags_lookup l k (S h) H) as Hp. destruct (l !! S h) as [a|], (k !! S h) as [b|]; simplify_eq/=; [|done].
  rewrite Hp. destruct (flag b); [done|apply IH].
Qed.

Lemma resize_flags l k n : flag <$> l = flag <$> k -> flag <$> vector_resize l n = flag <$> vector_resize k n.
Proof.
  intros H. pose proof (f_equal length H) as Hl. rewrite !length_fmap in Hl.
  unfold vector_resize. rewrite !fmap_app, !fmap_replicate, !fmap_take, H, Hl. done.
Qed.

Lemma shape_add (d : darray_t A) (e : darray_t B) x y i d' :
  shape d = shape e -> add d x = Some (i, d') -> exists e', add e y = Some (i, e') /\ shape d' = shape e'.
Proof.
  destruct d as [low high total sz l], e as [low' high' total' sz' k]. unfold shape, add. simpl. intros [= H <- <- <- <-].
  pose proof (f_equal length H) as Hl. rewrite !length_fmap in Hl. rewrite Hl. destruct (_ <=? low); [done|].
  set (l1 := <[Z.to_nat low := mkData x true]> l). set (k1 := <[Z.to_nat low := mkData y true]> k).
  assert (H1 : flag <$> l1 = flag <$> k1) by (unfold l1, k1; by rewrite !list_fmap_insert, H).
  set (sz2 := if sz <=? u32 (total + 1) then u32 (sz * 2) else sz).
  set (l2 := if sz <=? u32 (total + 1) then vector_resize l1 sz2 else l1).
  set (k2 := if sz <=? u32 (total + 1) then vector_resize k1 sz2 else k1).
  assert (H2 : flag <$> l2 = flag <$> k2) by (unfold l2, k2; destruct (_ <=? _); [by apply resize_flags|done]).
  rewrite (next_free_flags l2 k2 _ H2). destruct (next_free _ k2 _ _) as [lo|]; [|done]. intros [= <- <-].
  eexists. split; [done|]. simpl. by rewrite H2.
Qed.

Lemma shape_del (d : darray_t A) (e : darray_t B) i d' :
  shape d = shape e -> del d i = Some d' -> exists e', del e i = Some e' /\ shape d' = shape e'.
Proof.
  destruct d as [low high total sz l], e as [low' high' total' sz' k]. unfold shape, del. simpl. intros [= H <- <- <- <-].
  pose proof (flags_lookup l k (Z.to_nat (u32 i)) H) as Hp.
  destruct (l !! Z.to_nat (u32 i)) as [a|], (k !! Z.to_nat (u32 i)) as [b|]; simplify_eq/=; [|done]. intros [= <-].
  assert (H1 : flag <$> <[Z.to_nat (u32 i) := mkData (value a) false]> l = flag <$> <[Z.to_nat (u32 i) := mkData (value b) false]> k)
    by (by rewrite !list_fmap_insert, H).
  eexists. split; [done|]. simpl. rewrite H1. by rewrite (lower_high_flags _ _ _ H1).
Qed.

Lemma shape_update (d : darray_t A) i f : shape (update d i f) = shape d.
Proof.
  unfold shape, update. simpl. do 4 f_equal. apply list_eq. intros n. rewrite !list_lookup_fmap, list_lookup_alter.
  case_decide; [subst n|done]. by destruct (data d !! _).
Qed.

End shapes.

(** ** Histories

    The array after a history of calls together with the finite map it stands
    for; [del] is only called for an element that is there. *)
Inductive history {A} `{!Inhabited A} (INITSIZE : Z) : darray_t A -> gmap Z A -> Prop :=
  | history_new : history INITSIZE (darray_new INITSIZE) ∅
  | history_add d m x i d' :
      history INITSIZE d m -> Z.of_nat (base.size m) < 2 ^ 31 - 1 ->
      add d x = Some (i, d') -> history INITSIZE d' (<[i := x]> m)
  | history_del d m i x d' :
      history INITSIZE d m -> m !! i = Some x ->
      del d i = Some d' -> history INITSIZE d' (delete i m)
  | history_update d m i f :
      history INITSIZE d m -> is_Some (m !! i) ->
      history INITSIZE (update d i f) (alter f i m).

Section histories.
Context {A : Type} `{!Inhabited A} (INITSIZE : Z).

Lemma history_inv d (m : gmap Z A) :
  0 < INITSIZE < 2 ^ 32 -> history INITSIZE d m ->
  wf d /\ total_num d = Z.of_nat (base.size m) /\ forall i, elem d i = m !! i.
Proof.
  intros Hi. induction 1 as [|d m x i d' _ (Hwf & Ht & He) Hmax Ha|d m i x d' _ (Hwf & Ht & He) Hx Hd
    |d m i f _ (Hwf & Ht & He) Hs].
  - split; [by apply new_wf|]. split; [by rewrite map_size_empty|]. intros i. rewrite lookup_empty.
    unfold elem. simpl. destruct (slot_of _ i) as [x|] eqn:E; [|done].
    rewrite grow_eq in E by (simpl; lia). apply slot_of_Some in E as [_ [E _]%lookup_replicate]. done.
  - destruct (add_spec d x Hwf ltac:(lia)) as (i' & d'' & Ha' & Hwf' & _ & Hn & Ht' & He'). simplify_eq.
    split; [done|]. split; [rewrite map_size_insert_None by (by rewrite <- He); lia|].
    intros j. rewrite He', lookup_insert, He. by destruct (Z.eqb_spec j i), (decide (i = j)); subst.
  - rewrite <- He in Hx. destruct (del_spec d i x Hwf Hx) as (d'' & Hd' & Hwf' & Ht' & He'). simplify_eq.
    rewrite He in Hx. split; [done|]. split.
    + rewrite map_size_delete_Some by done. assert (base.size m <> O); [|lia].
      intros H0%map_size_empty_inv. by rewrite H0 in Hx.
    + intros j. rewrite He', lookup_delete, He. by destruct (Z.eqb_spec j i), (decide (i = j)); subst.
  - rewrite <- He in Hs. pose proof (elem_range d i Hwf Hs). rewrite He in Hs.
    split; [by apply update_wf|]. split.
    + change (total_num (update d i f)) with (total_num d). by rewrite Ht, <- !size_dom, dom_alter_L.
    + intros j. rewrite update_elem, He by done. destruct (Z.eqb_spec j i) as [->|].
      * by rewrite lookup_alter_eq.
      * by rewrite lookup_alter_ne.
Qed.

(** The slot array is a finite map that chooses its keys.  After every
    history of [add], [del] of an element that is there, and writes through
    [operator[]]: the elements, the count and the answers of [isvalid] are those
    of the map; iterating from [iterator_init] visits exactly the keys, in
    increasing order; [add] always succeeds, with an index that is not in use,
    as long as there are fewer than 2^31 - 1 elements; and every element can be
    read and deleted. *)
Theorem darray_refines_map d (m : gmap Z A) :
  0 < INITSIZE < 2 ^ 32 -> history INITSIZE d m ->
  (forall i, elem d i = m !! i) /\ get_totalsize d = Z.of_nat (base.size m)
  /\ (forall i, 0 <= i < 2 ^ 32 -> isvalid d i = true <-> is_Some (m !! i))
  /\ (StronglySorted Z.lt (visits d) /\ forall i, i ∈ visits d <-> is_Some (m !! i))
  /\ (Z.of_nat (base.size m) < 2 ^ 31 - 1 -> forall x, exists i d', add d x = Some (i, d') /\ m !! i = None)
  /\ (forall i x, m !! i = Some x -> get d i = Some x /\ is_Some (del d i)).
Proof.
  intros Hi Hh. destruct (history_inv d m Hi Hh) as (Hwf & Ht & He).
  destruct (visits_spec d Hwf) as [Hv1 Hv2]. split_and!; [done|done| |done| | |].
  - intros i Hp. rewrite <- He. by apply isvalid_elem.
  - intros i. rewrite <- He. apply Hv2.
  - intros Hmax x. destruct (add_spec d x Hwf ltac:(lia)) as (i & d' & Ha & _ & _ & Hn & _).
    exists i, d'. by rewrite <- He.
  - intros i x Hx. rewrite <- He in Hx. destruct (del_spec d i x Hwf Hx) as (d' & Hd & _).
    split; [|by exists d']. by apply get_elem.
Qed.

End histories.

(** Two elements in an array of two slots make it grow; a freed slot is found
    again when the search comes round. *)
Lemma darray_refines_map_witness :
  exists (d : darray_t Z) i d', add d 14 = Some (i, d') /\ visits d = [0; 2] /\ get d 2 = Some 12
    /\ visits d' = [0; 2; 3].
Proof.
  set (d1 := mkDarray 1 0 1 2 [mkData 10 true; mkData inhabitant false]).
  set (d2 := mkDarray 2 1 2 4 [mkData 10 true; mkData 11 true; mkData inhabitant false; mkData inhabitant false]).
  set (d3 := mkDarray 3 2 3 4 [mkData 10 true; mkData 11 true; mkData 12 true; mkData inhabitant false]).
  set (d4 := mkDarray 3 2 2 4 [mkData 10 true; mkData 11 false; mkData 12 true; mkData inhabitant false]).
  assert (Hh : history 2 d4 (delete 1 (<[2 := 12]> (<[1 := 11]> (<[0 := 10]> ∅))))).
  { apply (history_del 2 d3 _ 1 11); [|by vm_compute|by vm_compute].
    apply (history_add 2 d2 _ 12 2); [|by vm_compute|by vm_compute].
    apply (history_add 2 d1 _ 11 1); [|by vm_compute|by vm_compute].
    apply (history_add 2 (darray_new 2) _ 10 0); [constructor|by vm_compute|by vm_compute]. }
  destruct (darray_refines_map 2 d4 _ ltac:(lia) Hh) as (_ & _ & _ & _ & Hadd & Hget).
  destruct (Hadd ltac:(by vm_compute) 14) as (i & d' & Ha & _). exists d4, i, d'.
  split; [done|]. split; [by vm_compute|]. split; [by apply Hget|].
  vm_compute in Ha. simplify_eq. by vm_compute.
Defined.

(** [init] resizes the vector but clears no flag: after it an array that was in
    use hands out a slot that still counts as valid. *)
Theorem init_keeps_flags :
  let d := mkDarray 1 0 1 2 [mkData 10 true; mkData inhabitant false] in
  (init 2 d).(total_num) = 0 /\ isvalid (init 2 d) 0 = true.
Proof. done. Qed.

End DArray.
