(* ===== verification/AdjList.v ===== *)
(** * The adjacency lists of the prototype

    [common/adjlist_t.hpp]: [adjlist], a table of keys with a circular list of
    elements each, both kept in slot arrays.  The index entry of a key points at
    the last element of its list, so that the list starts at the element after
    it; advancing an iterator moves that pointer.  An operation that reads
    outside a slot array is [None]. *)

From Stdlib Require Import ZArith Lia.
From stdpp Require Import numbers base gmap list.
From S2P Require Import Prelude DArray.
Import DArray.

Module AdjList.

Record index_t (T1 : Type) := mkIndex { data : T1; pointer : Z }.
Arguments mkIndex {T1}.
Arguments data {T1}.
Arguments pointer {T1}.

Record adj_element_t (T2 : Type) := mkEle { adjdata : T2; next : Z }.
Arguments mkEle {T2}.
Arguments adjdata {T2}.
Arguments next {T2}.

#[export] Instance index_inhabited {T1} `{!Inhabited T1} : Inhabited (index_t T1) :=
  populate (mkIndex inhabitant 0).
#[export] Instance adj_element_inhabited {T2} `{!Inhabited T2} : Inhabited (adj_element_t T2) :=
  populate (mkEle inhabitant 0).

Record adjlist (T1 T2 : Type) := mkAdj {
  index : darray_t (index_t T1);
  elements : darray_t (adj_element_t T2)      (* [_adjlist] *)
}.
Arguments mkAdj {T1 T2}.
Arguments index {T1 T2}.
Arguments elements {T1 T2}.

(** [adjlist_iterator_t]; the list it points into is passed along. *)
Record iterator := mkIter {
  prev_ptr : Z;
  start_ptr : Z;
  idx : Z;
  it_valid : bool;
  curr_ptr : Z
}.

Section ops.
Context {T1 T2 : Type} `{!Inhabited T1, !Inhabited T2} (initsizet1 initsizet2 : Z).
Implicit Types (a : adjlist T1 T2) (it : iterator).

Definition adjlist_new : adjlist T1 T2 := mkAdj (darray_new initsizet1) (darray_new initsizet2).

Definition iterator_new (key_idx : Z) : iterator := mkIter (-1) (-1) key_idx false (-1).

(** Writes through the references [index[k]] and [_adjlist[i]]. *)
Definition set_pointer a (k p : Z) : adjlist T1 T2 :=
  mkAdj (update (index a) k (fun ix => mkIndex (data ix) p)) (elements a).
Definition set_next a (i n : Z) : adjlist T1 T2 :=
  mkAdj (index a) (update (elements a) i (fun e => mkEle (adjdata e) n)).
Definition set_elements a es : adjlist T1 T2 := mkAdj (index a) es.

Definition add_key a (input : T1) : option (Z * adjlist T1 T2) :=
  match add (index a) (mkIndex input (-1)) with
  | None => None
  | Some (n, d) => Some (n, mkAdj d (elements a))
  end.

Definition del_key a (key_idx : Z) : option (adjlist T1 T2) :=
  match del (index a) key_idx with
  | None => None
  | Some d => Some (mkAdj d (elements a))
  end.

(** [operator[]] *)
Definition get_key a (i : Z) : option T1 := data <$> get (index a) i.
Definition update_key a (i : Z) (f : T1 -> T1) : adjlist T1 T2 :=
  mkAdj (update (index a) i (fun ix => mkIndex (f (data ix)) (pointer ix))) (elements a).

(** The first element of a key: it is linked to itself. *)
Definition add_first a (key_idx : Z) (input : T2) : option (iterator * adjlist T1 T2) :=
  match add (elements a) (mkEle input (-1)) with
  | None => None
  | Some (n, es) =>
      let a := set_next (set_elements a es) n n in
      let a := set_pointer a key_idx n in
      Some (mkIter n n key_idx true n, a)
  end.

Definition add_element a (key_idx : Z) (input : T2) : option (iterator * adjlist T1 T2) :=
  if negb (isvalid (index a) key_idx) then Some (iterator_new key_idx, a)
  else
    match get (index a) key_idx with
    | None => None
    | Some ix =>
        let ptr := pointer ix in
        if ptr =? -1 then add_first a key_idx input
        else
          match get (elements a) ptr with
          | None => None
          | Some prev =>
              match add (elements a) (mkEle input (next prev)) with
              | None => None
              | Some (n, es) =>
                  Some (mkIter n n key_idx true n, set_next (set_elements a es) ptr n)
              end
          end
    end.

Definition add_element_at a it (key_idx : Z) (input : T2) : option (iterator * adjlist T1 T2) :=
  if negb (isvalid (index a) key_idx) then Some (iterator_new key_idx, a)
  else
    match get (index a) key_idx with
    | None => None
    | Some ix =>
        if pointer ix =? -1 then add_first a key_idx input
        else
          match get (elements a) (curr_ptr it) with
          | None => None
          | Some curr =>
              match add (elements a) (mkEle input (next curr)) with
              | None => None
              | Some (n, es) =>
                  let a := set_next (set_elements a es) (curr_ptr it) n in
                  Some (if next curr =? curr_ptr it
                        then mkIter n (start_ptr it) (idx it) (it_valid it) (curr_ptr it) else it, a)
              end
          end
    end.

(** The loop of [init], [size] calls of [index.add]. *)
Fixpoint add_keys (n : nat) (d : darray_t (index_t T1)) (input : T1) : option (darray_t (index_t T1)) :=
  match n with
  | O => Some d
  | S n =>
      match add d (mkIndex input (-1)) with
      | None => None
      | Some (_, d) => add_keys n d input
      end
  end.

Definition adj_init a (sz : Z) (input : T1) : option (adjlist T1 T2) :=
  match add_keys (Z.to_nat sz) (DArray.init initsizet1 (index a)) input with
  | None => None
  | Some d => Some (mkAdj d (elements a))
  end.

Definition is_keyvalid a (key_idx : Z) : bool := isvalid (index a) key_idx.

Definition set_ptr_to a (key_idx : Z) it : adjlist T1 T2 := set_pointer a key_idx (prev_ptr it).

Definition del_element a it : option (iterator * adjlist T1 T2) :=
  if negb (it_valid it) then Some (it, a)
  else
    let curr := curr_ptr it in
    match get (elements a) curr, get (index a) (idx it) with
    | Some e, Some ix =>
        if next e =? curr then
          match del (elements a) curr with
          | None => None
          | Some es => Some (iterator_new (idx it), set_pointer (set_elements a es) (idx it) (-1))
          end
        else
          let next_ptr := next e in
          let a1 := set_next a (prev_ptr it) next_ptr in
          match del (elements a1) curr with
          | None => None
          | Some es =>
              let a2 := set_elements a1 es in
              let a3 := if pointer ix =? curr then set_pointer a2 (idx it) next_ptr else a2 in
              let start := if start_ptr it =? curr then next_ptr else start_ptr it in
              Some (mkIter (prev_ptr it) start (idx it) (it_valid it) next_ptr, a3)
          end
    | _, _ => None
    end.

Definition begin a (key_idx : Z) : option iterator :=
  if negb (isvalid (index a) key_idx) then Some (iterator_new key_idx)
  else
    match get (index a) key_idx with
    | None => None
    | Some ix =>
        if pointer ix =? -1 then Some (iterator_new key_idx)
        else
          match get (elements a) (pointer ix) with
          | None => None
          | Some e => Some (mkIter (pointer ix) (next e) key_idx true (next e))
          end
    end.

Definition it_next_no_move_ptr a it : option iterator :=
  match get (elements a) (curr_ptr it) with
  | None => None
  | Some e =>
      if next e =? start_ptr it
      then Some (mkIter (prev_ptr it) (start_ptr it) (idx it) false (curr_ptr it))
      else Some (mkIter (curr_ptr it) (start_ptr it) (idx it) (it_valid it) (next e))
  end.

(** [next] first moves the key's pointer to the current element. *)
Definition it_next a it : option (iterator * adjlist T1 T2) :=
  let a := set_pointer a (idx it) (curr_ptr it) in
  match it_next_no_move_ptr a it with
  | None => None
  | Some it => Some (it, a)
  end.

Definition it_end it : bool := negb (it_valid it).

(** [operator*] and [operator->]. *)
Definition it_get a it : option T2 := adjdata <$> get (elements a) (curr_ptr it).
Definition it_set a it (f : T2 -> T2) : adjlist T1 T2 :=
  mkAdj (index a) (update (elements a) (curr_ptr it) (fun e => mkEle (f (adjdata e)) (next e))).

Definition hiter_begin a : Z := iterator_init (index a).
Definition hiter_next a (prev : Z) : Z := iterator_next (index a) prev.

(** The two loops the clients run over a key: up to the first element that
    satisfies [P], and deleting the elements that satisfy it.  A list is not
    longer than the slot array; deleting may go round a second time. *)
Definition turns a : nat := 2 * length (DArray.data (elements a)).

Fixpoint find_loop (fuel : nat) (P : T2 -> bool) a it : option (iterator * adjlist T1 T2) :=
  if it_end it then Some (it, a)
  else
    match fuel, it_get a it with
    | S fuel, Some x =>
        if P x then Some (it, a)
        else match it_next a it with
             | None => None
             | Some (it, a) => find_loop fuel P a it
             end
    | _, _ => None
    end.

Fixpoint purge_loop (fuel : nat) (P : T2 -> bool) a it : option (adjlist T1 T2) :=
  if it_end it then Some a
  else
    match fuel, it_get a it with
    | S fuel, Some x =>
        match (if P x then del_element a it else it_next a it) with
        | None => None
        | Some (it, a) => purge_loop fuel P a it
        end
    | _, _ => None
    end.

End ops.

(** ** The keys

    Only adding and deleting keys changes which keys there are. *)
Section key_shapes.
Context {T1 T2 : Type} `{!Inhabited T1, !Inhabited T2}.
Implicit Types (a : adjlist T1 T2) (it : iterator).

Definition key_shape a : list bool * Z * Z * Z * Z := shape (index a).

Lemma key_shape_set_pointer a k p : key_shape (set_pointer a k p) = key_shape a.
Proof. apply shape_update. Qed.

Lemma key_shape_update_key a k f : key_shape (update_key a k f) = key_shape a.
Proof. apply shape_update. Qed.

Lemma key_shape_it_set a it f : key_shape (it_set a it f) = key_shape a.
Proof. done. Qed.

Lemma key_shape_set_ptr_to a k it : key_shape (set_ptr_to a k it) = key_shape a.
Proof. apply key_shape_set_pointer. Qed.

Lemma key_shape_it_next a it it' a' : it_next a it = Some (it', a') -> key_shape a' = key_shape a.
Proof. unfold it_next. destruct (it_next_no_move_ptr _ _); intros [= <- <-]. by rewrite key_shape_set_pointer. Qed.

Lemma key_shape_add_first a k x it a' : add_first a k x = Some (it, a') -> key_shape a' = key_shape a.
Proof. unfold add_first. destruct (add _ _) as [[n es]|]; intros [= <- <-]. by rewrite key_shape_set_pointer. Qed.

Lemma key_shape_add_element a k x it a' : add_element a k x = Some (it, a') -> key_shape a' = key_shape a.
Proof.
  unfold add_element. destruct (negb _); [by intros [= <- <-]|]. destruct (get _ _) as [ix|]; [|done].
  destruct (_ =? -1); [apply key_shape_add_first|]. destruct (get _ _) as [p|]; [|done].
  destruct (add _ _) as [[n es]|]; by intros [= <- <-].
Qed.

Lemma key_shape_add_element_at a it k x it' a' : add_element_at a it k x = Some (it', a') -> key_shape a' = key_shape a.
Proof.
  unfold add_element_at. destruct (negb _); [by intros [= <- <-]|]. destruct (get _ _) as [ix|]; [|done].
  destruct (_ =? -1); [apply key_shape_add_first|]. destruct (get _ _) as [p|]; [|done].
  destruct (add _ _) as [[n es]|]; by intros [= <- <-].
Qed.

Lemma key_shape_del_element a it it' a' : del_element a it = Some (it', a') -> key_shape a' = key_shape a.
Proof.
  unfold del_element. destruct (negb _); [by intros [= <- <-]|].
  destruct (get (elements a) (curr_ptr it)) as [e|], (get (index a) (idx it)) as [ix|]; try done. destruct (_ =? _).
  - destruct (del _ _); intros [= <- <-]. by rewrite key_shape_set_pointer.
  - destruct (del _ _); intros [= <- <-]. destruct (_ =? curr_ptr it); [by rewrite key_shape_set_pointer|done].
Qed.

End key_shapes.

(** ** Rings

    [seg nx p l q]: following [nx] from [p] goes through [l] and arrives at [q]. *)

Fixpoint seg (nx : Z -> option Z) (p : Z) (l : list Z) (q : Z) : Prop :=
  match l with
  | [] => p = q
  | x :: l => p = x /\ exists r, nx x = Some r /\ seg nx r l q
  end.

Definition ring (nx : Z -> option Z) (l : list Z) : Prop :=
  match l with [] => True | x :: _ => seg nx x l x end.

Section rings.
Implicit Types (nx : Z -> option Z) (l k : list Z) (p q x y c : Z).

Lemma seg_app nx p l k q : seg nx p (l ++ k) q <-> exists r, seg nx p l r /\ seg nx r k q.
Proof.
  revert p. induction l as [|x l IH]; intros p; simpl; [naive_solver|].
  setoid_rewrite IH. naive_solver.
Qed.

Lemma seg_snoc nx p l x q : seg nx p (l ++ [x]) q <-> seg nx p l x /\ nx x = Some q.
Proof. rewrite seg_app. simpl. naive_solver. Qed.

Lemma seg_ext nx nx' p l q : (forall i, i ∈ l -> nx' i = nx i) -> seg nx p l q -> seg nx' p l q.
Proof.
  revert p. induction l as [|x l IH]; intros p H; simpl; [done|]. intros (-> & r & Hr & Hs).
  split; [done|]. exists r. split; [rewrite H by left; done|]. apply IH; [|done]. intros i Hi. apply H. by right.
Qed.

Lemma ring_ext nx nx' l : (forall i, i ∈ l -> nx' i = nx i) -> ring nx l -> ring nx' l.
Proof. destruct l; [done|]. apply seg_ext. Qed.

Lemma seg_head nx p l q : seg nx p l q -> p = default q (head l).
Proof. destruct l; simpl; [done|]. by intros []. Qed.

Lemma ring_cons nx c l : ring nx (c :: l) <-> exists r, nx c = Some r /\ seg nx r l c.
Proof. simpl. naive_solver. Qed.

Lemma ring_rotate nx c l : ring nx (c :: l) -> ring nx (l ++ [c]).
Proof.
  intros (r & Hr & Hs)%ring_cons. pose proof (seg_head _ _ _ _ Hs) as ->.
  destruct l as [|x l]; simpl in *; [by split; [|exists c]|]. split; [done|].
  destruct Hs as (_ & r & Hx & Hs). exists r. split; [done|]. by apply seg_snoc.
Qed.

(** What follows the current element: the rest of the round, then its start. *)
Lemma ring_next nx c post pre :
  ring nx (c :: post ++ pre) -> nx c = Some (default (default c (head pre)) (head post)).
Proof.
  intros (r & Hr & Hs)%ring_cons. rewrite Hr. f_equal. rewrite (seg_head _ _ _ _ Hs).
  by destruct post, pre.
Qed.

Lemma ring_snoc_next nx l p : ring nx (l ++ [p]) -> nx p = Some (default p (head l)).
Proof. destruct l as [|x l]; simpl; [naive_solver|]. intros (_ & r & Hr & [_ Hs]%seg_snoc). done. Qed.

Lemma ring_insert nx nx' n l p :
  ring nx (l ++ [p]) -> (n ∉ (l ++ [p])) -> nx' n = Some (default p (head l)) -> nx' p = Some n ->
  p ∉ l -> (forall i, i ≠ n -> i ≠ p -> nx' i = nx i) -> ring nx' (n :: l ++ [p]).
Proof.
  intros Hr Hn Hnn Hp Hpl Hnx. apply ring_cons. eexists. split; [done|]. apply seg_snoc. split; [|done].
  destruct l as [|x l]; [done|]. apply (seg_snoc nx x (x :: l)) in Hr as [Hs _].
  simpl default. revert Hs. apply seg_ext. intros i Hi. apply Hnx; [|by intros ->].
  intros ->. apply Hn. apply elem_of_app. by left.
Qed.

Lemma ring_remove nx nx' c r l p :
  ring nx (c :: l ++ [p]) -> nx c = Some r -> nx' p = Some r -> p ∉ l -> (c ∉ l) ->
  (forall i, i ≠ c -> i ≠ p -> nx' i = nx i) -> ring nx' (l ++ [p]).
Proof.
  intros (r' & Hr' & [Hs _]%seg_snoc)%ring_cons Hr Hp Hpl Hcl Hnx.
  assert (r' = r) as -> by congruence.
  assert (Hs' : seg nx' r l p) by (revert Hs; apply seg_ext; intros i Hi; apply Hnx; by intros ->).
  pose proof (seg_head _ _ _ _ Hs) as ->.
  destruct l as [|x l]; simpl in *; [by split; [|exists p]|].
  destruct Hs' as (_ & r & Hx & Hs'). split; [done|]. exists r. split; [done|]. by apply seg_snoc.
Qed.

Lemma last_default d (l m : list Z) p : d :: l = m ++ [p] -> default d (last l) = p.
Proof.
  intros H. assert (Hl : last (d :: l) = Some p) by (rewrite H; apply last_snoc).
  rewrite last_cons in Hl. by destruct (last l); simplify_eq/=.
Qed.

End rings.

(** ** Representation

    [R] gives each key its ring, as the list of element positions in the order
    of iteration: the key's pointer is the last of them. *)

Definition nx {T1 T2} (a : adjlist T1 T2) (i : Z) : option Z := next <$> elem (elements a) i.
Definition val {T1 T2} (a : adjlist T1 T2) (i : Z) : option T2 := adjdata <$> elem (elements a) i.
Definition kdata {T1 T2} (a : adjlist T1 T2) (k : Z) : option T1 := data <$> elem (index a) k.
Definition kptr {T1 T2} (a : adjlist T1 T2) (k : Z) : option Z := pointer <$> elem (index a) k.

Record wfa {T1 T2} (a : adjlist T1 T2) (R : gmap Z (list Z)) : Prop := {
  wfa_index : wf (index a);
  wfa_elements : wf (elements a);
  wfa_keys : forall k, kptr a k = default (-1) ∘ last <$> R !! k;
  wfa_ring : forall k l, R !! k = Some l -> ring (nx a) l;
  wfa_nodup : forall k l, R !! k = Some l -> NoDup l;
  wfa_disj : forall k1 k2 l1 l2 i,
    R !! k1 = Some l1 -> R !! k2 = Some l2 -> i ∈ l1 -> i ∈ l2 -> k1 = k2
}.

(** An iterator in the middle of a round: [pre] has been visited, [c] is the
    current element, [post] is still to come, and the list starts at [c]. *)
Record at_pos (R : gmap Z (list Z)) (it : iterator) (k : Z) (pre : list Z) (c : Z) (post : list Z) : Prop := {
  at_ring : R !! k = Some (c :: post ++ pre);
  at_it : it = mkIter (default c (last (post ++ pre))) (default c (head pre)) k true c
}.

(** The elements a purge leaves. *)
Abbreviation keep P := (List.filter (fun v => negb (P v))).

Section representation.
Context {T1 T2 : Type} `{!Inhabited T1, !Inhabited T2}.
Implicit Types (a : adjlist T1 T2) (R : gmap Z (list Z)) (l : list Z) (it : iterator).

Lemma ring_live (f : Z -> option Z) l i : ring f l -> i ∈ l -> is_Some (f i).
Proof.
  intros Hr (l1 & l2 & ->)%list_elem_of_split.
  assert (H : forall p q, seg f p (l1 ++ i :: l2) q -> is_Some (f i)).
  { intros p q (r & _ & Hs)%seg_app. simpl in Hs. naive_solver. }
  destruct l1; simpl in Hr; [|simpl in H]; naive_solver.
Qed.

Lemma wfa_live a R k l i : wfa a R -> R !! k = Some l -> i ∈ l -> is_Some (elem (elements a) i).
Proof. intros Hw Hk Hi. pose proof (ring_live _ _ _ (wfa_ring a R Hw k l Hk) Hi) as H. by apply fmap_is_Some in H. Qed.

Lemma wfa_pos a R k l i : wfa a R -> R !! k = Some l -> i ∈ l -> 0 <= i < 2 ^ 32.
Proof. intros Hw Hk Hi. eapply elem_range, wfa_live; [apply Hw|done..]. Qed.

Lemma wfa_key a R k l :
  wfa a R -> R !! k = Some l -> exists x, elem (index a) k = Some (mkIndex x (default (-1) (last l))).
Proof.
  intros Hw Hk. pose proof (wfa_keys a R Hw k) as H. rewrite Hk in H. unfold kptr in H.
  destruct (elem (index a) k) as [[x p]|]; [|done]. exists x. by simplify_eq/=.
Qed.

Lemma wfa_key_pos a R k l : wfa a R -> R !! k = Some l -> 0 <= k < 2 ^ 32.
Proof. intros Hw Hk. destruct (wfa_key a R k l Hw Hk) as [x Hx]. eapply elem_range; [apply Hw|by eexists]. Qed.

Lemma wfa_isvalid a R k : wfa a R -> 0 <= k < 2 ^ 32 -> isvalid (index a) k = bool_decide (is_Some (R !! k)).
Proof.
  intros Hw Hk. apply eq_bool_prop_intro. rewrite bool_decide_spec, Is_true_true, isvalid_elem by (done || apply Hw).
  pose proof (wfa_keys a R Hw k) as H. unfold kptr in H. rewrite <- (fmap_is_Some (default (-1) ∘ last)), <- H.
  by rewrite fmap_is_Some.
Qed.

(** The one lemma behind all updates: one key gets a new ring, made of its old
    elements and of positions that were free. *)
Lemma wfa_replace a R k l l' a' :
  wfa a R -> R !! k = Some l -> wf (index a') -> wf (elements a') ->
  (forall j, kptr a' j = if j =? k then Some (default (-1) (last l')) else kptr a j) ->
  ring (nx a') l' -> NoDup l' ->
  (forall i, i ∈ l' -> i ∈ l \/ elem (elements a) i = None) ->
  (forall i, (i ∉ l) -> is_Some (nx a i) -> nx a' i = nx a i) ->
  wfa a' (<[k := l']> R).
Proof.
  intros Hw Hk Hi He Hp Hr Hn Hold Hnx. split; [done|done| | | |].
  - intros j. rewrite Hp, lookup_insert. destruct (Z.eqb_spec j k) as [->|]; [by rewrite decide_True|].
    rewrite decide_False by done. apply Hw.
  - intros j lj. rewrite lookup_insert_Some. intros [[<- <-]|[Hne Hj]]; [done|].
    pose proof (wfa_ring a R Hw j lj Hj) as Hrj. revert Hrj. apply ring_ext. intros i Hij.
    apply Hnx; [|by apply (ring_live _ lj); [apply Hw with j|]].
    intros Hil. apply Hne. by apply (wfa_disj a R Hw k j l lj i).
  - intros j lj. rewrite lookup_insert_Some. intros [[<- <-]|[Hne Hj]]; [done|by apply Hw with j].
  - assert (Hfree : forall j lj i, R !! j = Some lj -> j <> k -> i ∈ lj -> (i ∉ l')).
    { intros j lj i Hj Hne Hij [Hil|Hno]%Hold.
      - apply Hne. by apply (wfa_disj a R Hw j k lj l i).
      - destruct (wfa_live a R j lj i Hw Hj Hij). congruence. }
    intros k1 k2 l1 l2 i. rewrite !lookup_insert_Some.
    intros [[<- <-]|[H1 Hk1]] [[<- <-]|[H2 Hk2]] Hi1 Hi2; [done| | |by eapply Hw].
    + by destruct (Hfree k2 l2 i Hk2 (not_eq_sym H2) Hi2).
    + by destruct (Hfree k1 l1 i Hk1 (not_eq_sym H1) Hi1).
Qed.

Lemma kptr_set_pointer a k p j :
  0 <= k < 2 ^ 32 -> is_Some (elem (index a) k) ->
  kptr (set_pointer a k p) j = if j =? k then Some p else kptr a j.
Proof.
  intros Hk [ix Hix]. unfold kptr. simpl. rewrite update_elem by done.
  destruct (Z.eqb_spec j k) as [->|]; [by rewrite Hix|done].
Qed.

Lemma kdata_set_pointer a k p j : 0 <= k < 2 ^ 32 -> kdata (set_pointer a k p) j = kdata a j.
Proof.
  intros Hk. unfold kdata. simpl. rewrite update_elem by done.
  destruct (j =? k); [|done]. by destruct (elem _ j).
Qed.

Lemma nx_set_next a i n j :
  0 <= i < 2 ^ 32 -> nx (set_next a i n) j = if j =? i then (fun _ => n) <$> nx a j else nx a j.
Proof.
  intros Hi. unfold nx. simpl. rewrite update_elem by done.
  destruct (j =? i); [|done]. by destruct (elem _ j).
Qed.

Lemma val_set_next a i n j : 0 <= i < 2 ^ 32 -> val (set_next a i n) j = val a j.
Proof.
  intros Hi. unfold val. simpl. rewrite update_elem by done.
  destruct (j =? i); [|done]. by destruct (elem _ j).
Qed.

(** ** The operations *)

Lemma begin_spec a R k l :
  wfa a R -> R !! k = Some l ->
  exists it, begin a k = Some it
    /\ match l with
       | [] => it = iterator_new k
       | c :: post => at_pos R it k [] c post
       end.
Proof.
  intros Hw Hk. pose proof (wfa_key_pos a R k l Hw Hk) as Hpos.
  destruct (wfa_key a R k l Hw Hk) as [x Hx]. unfold begin.
  rewrite (wfa_isvalid a R k Hw Hpos), Hk, bool_decide_true by done. simpl.
  rewrite (get_elem (index a) k _ (wfa_index a R Hw) Hx). simpl.
  destruct l as [|c post]; [by eexists|].
  destruct (exists_last (l := c :: post) ltac:(done)) as (m & p & Hl). rewrite Hl, last_snoc. simpl.
  pose proof (wfa_ring a R Hw k _ Hk) as Hr. rewrite Hl in Hr. apply ring_snoc_next in Hr. unfold nx in Hr.
  assert (Hp : 0 <= p < 2 ^ 32).
  { apply (wfa_pos a R k (c :: post)); [done|done|]. rewrite Hl. apply elem_of_app. right. by left. }
  destruct (Z.eqb_spec p (-1)) as [|_]; [lia|].
  destruct (elem (elements a) p) as [e|] eqn:He; [|done].
  rewrite (get_elem (elements a) p _ (wfa_elements a R Hw) He). simplify_eq/=. eexists. split; [done|].
  split; [by rewrite app_nil_r|]. rewrite app_nil_r. rewrite Hr. f_equal.
  - by rewrite (last_default c post m p Hl).
  - by destruct m; simplify_eq/=.
  - by destruct m; simplify_eq/=.
Qed.

Lemma begin_invalid a R k : wfa a R -> 0 <= k < 2 ^ 32 -> R !! k = None -> begin a k = Some (iterator_new k).
Proof.
  intros Hw Hpos Hk. unfold begin. rewrite (wfa_isvalid a R k Hw Hpos), Hk, bool_decide_false; [done|].
  by intros [].
Qed.

Lemma it_get_spec a R it k pre c post :
  wfa a R -> at_pos R it k pre c post -> it_get a it = val a c /\ is_Some (val a c).
Proof.
  intros Hw [Hr ->]. destruct (wfa_live a R k _ c Hw Hr ltac:(by left)) as [e He].
  unfold it_get, val. simpl. by rewrite (get_elem _ _ _ (wfa_elements a R Hw) He), He.
Qed.

(** A step of the iteration; the end of the round leaves the order of the list
    as it was at its start. *)
Lemma it_next_spec a R it k pre c post :
  wfa a R -> at_pos R it k pre c post ->
  exists it' a' R', it_next a it = Some (it', a') /\ wfa a' R' /\ elements a' = elements a
    /\ (forall j, kdata a' j = kdata a j)
    /\ match post with
       | [] => it_valid it' = false /\ R' = <[k := pre ++ [c]]> R
       | d :: post => at_pos R' it' k (pre ++ [c]) d post /\ R' = <[k := d :: post ++ pre ++ [c]]> R
       end.
Proof.
  intros Hw [Hk ->]. pose proof (wfa_key_pos a R k _ Hw Hk) as Hpos.
  destruct (wfa_key a R k _ Hw Hk) as [x Hx].
  destruct (wfa_live a R k _ c Hw Hk ltac:(by left)) as [e He].
  pose proof (wfa_ring a R Hw k _ Hk) as Hr. pose proof (wfa_nodup a R Hw k _ Hk) as Hnd.
  pose proof (ring_next _ _ _ _ Hr) as Hn. unfold nx in Hn. rewrite He in Hn. simplify_eq/=.
  set (a' := set_pointer a k c).
  assert (Hw' : wfa a' (<[k := post ++ pre ++ [c]]> R)).
  { apply (wfa_replace a R k (c :: post ++ pre)); [done|done|by apply update_wf; [apply Hw|]|apply Hw| | | | |done].
    - intros j. rewrite app_assoc, last_snoc. apply kptr_set_pointer; [done|by eexists].
    - rewrite app_assoc. apply (ring_rotate (nx a')). exact Hr.
    - rewrite app_assoc, Permutation_app_comm. exact Hnd.
    - intros i Hi. left. revert Hi. clear. set_solver. }
  unfold it_next, it_next_no_move_ptr. cbn [curr_ptr idx start_ptr]. fold a'.
  change (elements a') with (elements a). rewrite (get_elem _ _ _ (wfa_elements a R Hw) He). rewrite Hn.
  destruct post as [|d post]; cbn [head app default from_option id] in *.
  - rewrite Z.eqb_refl. eexists _, a', _. split; [done|]. split_and!; [exact Hw'|done| |done|done].
    intros j. by apply kdata_set_pointer.
  - apply NoDup_cons in Hnd as [Hc [Hd _]%NoDup_cons]. destruct (Z.eqb_spec d (default c (head pre))) as [Heq|_].
    { destruct pre as [|y pre]; simpl in Heq; [destruct Hc; rewrite Heq; by left|].
      destruct Hd. rewrite Heq. apply elem_of_app. right. by left. }
    eexists _, a', _. split; [done|]. split_and!; [exact Hw'|done|intros j; by apply kdata_set_pointer| |done].
    split; [by rewrite lookup_insert_eq|]. rewrite app_assoc, last_snoc. by destruct pre.
Qed.

(** A new element of a key, at position [n]: what both cases of [add_element]
    establish. *)
Definition added a R k l x (n : Z) a' : Prop :=
  wfa a' (<[k := n :: l]> R)
  /\ elem (elements a) n = None /\ total_num (elements a') = total_num (elements a) + 1
  /\ (forall i, val a' i = if i =? n then Some x else val a i)
  /\ (forall j, kdata a' j = kdata a j).

Lemma add_first_spec a R k x :
  wfa a R -> R !! k = Some [] -> total_num (elements a) < 2 ^ 31 - 1 ->
  exists n a', add_first a k x = Some (mkIter n n k true n, a') /\ added a R k [] x n a'.
Proof.
  intros Hw Hk Hmax. pose proof (wfa_key_pos a R k _ Hw Hk) as Hpos.
  destruct (wfa_key a R k _ Hw Hk) as [y Hy]. unfold add_first, added.
  destruct (add_spec (elements a) (mkEle x (-1)) (wfa_elements a R Hw) Hmax)
    as (n & es & -> & Hwf & Hn0 & Hfree & Ht & He).
  assert (Hn : 0 <= n < 2 ^ 32) by (eapply (elem_range es); [done|]; rewrite He, Z.eqb_refl; by eexists).
  set (a' := set_next (set_elements a es) n n). eexists n, _. split; [done|]. split_and!; [|done|done| |].
  - apply (wfa_replace a R k []); [done|done|apply update_wf; [apply Hw|done]|by apply update_wf| | | | |].
    + intros j. apply (kptr_set_pointer a'); [done|by eexists].
    + simpl. split; [done|]. exists n. split; [|done]. change (nx a' n = Some n). unfold a'.
      rewrite nx_set_next, Z.eqb_refl by done. unfold nx. simpl. by rewrite He, Z.eqb_refl.
    + apply NoDup_singleton.
    + intros i ->%list_elem_of_singleton. by right.
    + intros i _ Hs. change (nx a' i = nx a i). unfold a'. rewrite nx_set_next by done. unfold nx in *. simpl.
      rewrite He. destruct (Z.eqb_spec i n) as [->|]; [|done]. rewrite Hfree in Hs. by destruct Hs.
  - intros i. change (val a' i = if i =? n then Some x else val a i). unfold a'. rewrite val_set_next by done.
    unfold val. simpl. rewrite He. by destruct (i =? n).
  - intros j. by apply (kdata_set_pointer a').
Qed.

Lemma ring_member_last (l : list Z) p : NoDup (l ++ [p]) -> (p ∉ l).
Proof. intros (_ & Hd & _)%NoDup_app H. by destruct (Hd p H); left. Qed.

(** Linking a new element after the last one of a ring. *)
Lemma add_behind_spec a R k m p e x n es :
  wfa a R -> R !! k = Some (m ++ [p]) -> elem (elements a) p = Some e ->
  wf es -> elem (elements a) n = None -> total_num es = total_num (elements a) + 1 ->
  (forall i, elem es i = if i =? n then Some (mkEle x (next e)) else elem (elements a) i) ->
  added a R k (m ++ [p]) x n (set_next (set_elements a es) p n).
Proof.
  intros Hw Hk He Hwf Hfree Ht He'. destruct (wfa_key a R k _ Hw Hk) as [y Hy].
  assert (Hpin : p ∈ (m ++ [p])) by (apply elem_of_app; right; by left).
  pose proof (wfa_pos a R k _ p Hw Hk Hpin) as Hp.
  pose proof (wfa_ring a R Hw k _ Hk) as Hr. pose proof (ring_snoc_next _ _ _ Hr) as Hnp.
  unfold nx in Hnp. rewrite He in Hnp. apply (inj Some) in Hnp.
  assert (Hnl : (n ∉ (m ++ [p]))) by (intros Hin; destruct (wfa_live a R k _ n Hw Hk Hin); congruence).
  pose proof (wfa_nodup a R Hw k _ Hk) as Hnd. pose proof (ring_member_last _ _ Hnd) as Hpm.
  set (a' := set_next (set_elements a es) p n).
  assert (Hnx : forall i, nx a' i = if i =? p then Some n else if i =? n then Some (next e) else nx a i).
  { intros i. unfold a'. rewrite nx_set_next by done. unfold nx. simpl. rewrite He'.
    destruct (Z.eqb_spec i p) as [->|]; [|by destruct (i =? n)]. rewrite He. by destruct (p =? n). }
  unfold added. split_and!; [|done|done| |done].
  - apply (wfa_replace a R k (m ++ [p])); [done|done|apply Hw|by apply update_wf| | |by constructor| |].
    + intros j. rewrite app_comm_cons, last_snoc. change (kptr a' j) with (kptr a j).
      destruct (Z.eqb_spec j k) as [->|]; [|done]. unfold kptr. rewrite Hy, last_snoc. done.
    + apply (ring_insert (nx a)); [done|done| | |done|]; try intros i Hin Hip; rewrite Hnx.
      * destruct (Z.eqb_spec n p) as [->|]; [done|]. rewrite Z.eqb_refl. by rewrite Hnp.
      * by rewrite Z.eqb_refl.
      * by destruct (Z.eqb_spec i p), (Z.eqb_spec i n).
    + intros i [->|Hi]%elem_of_cons; [by right|by left].
    + intros i Hi Hs. rewrite Hnx. destruct (Z.eqb_spec i p) as [->|]; [done|].
      destruct (Z.eqb_spec i n) as [->|]; [|done]. unfold nx in Hs. rewrite Hfree in Hs. by destruct Hs.
  - intros i. change (val a' i = if i =? n then Some x else val a i). unfold a'. rewrite val_set_next by done.
    unfold val. simpl. rewrite He'. by destruct (i =? n).
Qed.

Lemma add_element_spec a R k l x :
  wfa a R -> R !! k = Some l -> total_num (elements a) < 2 ^ 31 - 1 ->
  exists n a', add_element a k x = Some (mkIter n n k true n, a') /\ added a R k l x n a'.
Proof.
  intros Hw Hk Hmax. pose proof (wfa_key_pos a R k l Hw Hk) as Hpos.
  destruct (wfa_key a R k l Hw Hk) as [y Hy]. unfold add_element.
  rewrite (wfa_isvalid a R k Hw Hpos), Hk, bool_decide_true by done. cbn [negb].
  rewrite (get_elem (index a) k _ (wfa_index a R Hw) Hy). cbn [pointer].
  destruct (decide (l = [])) as [->|Hne]; [by apply add_first_spec|].
  destruct (exists_last Hne) as (m & p & ->). rewrite last_snoc. cbn [default from_option id].
  assert (Hpin : p ∈ (m ++ [p])) by (apply elem_of_app; right; by left).
  pose proof (wfa_pos a R k _ p Hw Hk Hpin) as Hp. destruct (Z.eqb_spec p (-1)) as [|_]; [lia|].
  destruct (wfa_live a R k _ p Hw Hk Hpin) as [e He].
  rewrite (get_elem _ _ _ (wfa_elements a R Hw) He).
  destruct (add_spec (elements a) (mkEle x (next e)) (wfa_elements a R Hw) Hmax)
    as (n & es & -> & Hwf & Hn0 & Hfree & Ht & He').
  eexists n, _. split; [done|]. by apply (add_behind_spec a R k m p e).
Qed.

(** The current element is gone. *)
Definition deleted a R k (pre : list Z) (c : Z) (post : list Z) a' : Prop :=
  wfa a' (<[k := post ++ pre]> R)
  /\ total_num (elements a') = total_num (elements a) - 1
  /\ (forall i, val a' i = if i =? c then None else val a i)
  /\ (forall j, kdata a' j = kdata a j).

Lemma del_sole_spec a R k c e :
  wfa a R -> R !! k = Some [c] -> elem (elements a) c = Some e ->
  exists es, del (elements a) c = Some es /\ deleted a R k [] c [] (set_pointer (set_elements a es) k (-1)).
Proof.
  intros Hw Hk He. pose proof (wfa_key_pos a R k _ Hw Hk) as Hpos.
  destruct (wfa_key a R k _ Hw Hk) as [x Hx].
  destruct (del_spec (elements a) c e (wfa_elements a R Hw) He) as (es & -> & Hwf & Ht & He').
  eexists. split; [done|]. unfold deleted. split_and!; [|done| |].
  - apply (wfa_replace a R k [c]); [done|done|by apply update_wf; [apply Hw|]|done| |done|constructor| |].
    + intros j. apply (kptr_set_pointer (set_elements a es)); [done|by eexists].
    + by intros i ?%not_elem_of_nil.
    + intros i Hi%not_elem_of_cons _. unfold nx. simpl. rewrite He'. by destruct (Z.eqb_spec i c); [destruct Hi|].
  - intros i. unfold val. simpl. rewrite He'. by destruct (i =? c).
  - intros j. by apply (kdata_set_pointer (set_elements a es)).
Qed.

Lemma del_linked_spec a R k pre c post m p e :
  wfa a R -> R !! k = Some (c :: post ++ pre) -> post ++ pre = m ++ [p] -> elem (elements a) c = Some e ->
  let a1 := set_next a p (next e) in
  exists es, del (elements a1) c = Some es /\ deleted a R k pre c post (set_elements a1 es).
Proof.
  intros Hw Hk Hm He a1. unfold deleted. rewrite Hm in *.
  destruct (wfa_key a R k _ Hw Hk) as [x Hx]. pose proof (wfa_ring a R Hw k _ Hk) as Hr.
  pose proof (wfa_nodup a R Hw k _ Hk) as [Hc Hnd]%NoDup_cons. pose proof (ring_member_last _ _ Hnd) as Hpm.
  assert (Hpin : p ∈ c :: m ++ [p]) by (right; apply elem_of_app; right; by left).
  pose proof (wfa_pos a R k _ p Hw Hk Hpin) as Hp. destruct (wfa_live a R k _ p Hw Hk Hpin) as [ep Hep].
  assert (Hpc : p <> c) by (intros ->; apply Hc, elem_of_app; right; by left).
  assert (Hec : elem (elements a1) c = Some e).
  { unfold a1. simpl. rewrite update_elem by done. by destruct (Z.eqb_spec c p). }
  destruct (del_spec (elements a1) c e) as (es & Hdel & Hwf & Ht & He');
    [by apply update_wf; [apply Hw|]|done|]. rewrite Hdel.
  set (a' := set_elements a1 es). exists es. fold a'. split; [done|].
  assert (Hnx : forall i, nx a' i = if i =? c then None else if i =? p then Some (next e) else nx a i).
  { intros i. change (nx a' i) with (next <$> elem es i). rewrite He'. destruct (i =? c); [done|].
    change (nx a1 i = if i =? p then Some (next e) else nx a i). unfold a1. rewrite nx_set_next by done.
    destruct (Z.eqb_spec i p) as [->|]; [|done]. unfold nx. by rewrite Hep. }
  split_and!; [|done| |done].
  - apply (wfa_replace a R k (c :: m ++ [p])); [done|done|apply Hw|done| | |done| |].
    + intros j. rewrite last_snoc. change (kptr _ j) with (kptr a j).
      destruct (Z.eqb_spec j k) as [->|]; [|done]. unfold kptr. rewrite Hx.
      change (c :: m ++ [p]) with ((c :: m) ++ [p]). by rewrite last_snoc.
    + apply (ring_remove (nx a) _ c (next e)); [done|unfold nx; by rewrite He| |done| |].
      * rewrite Hnx, Z.eqb_refl. by destruct (Z.eqb_spec p c).
      * intros H. apply Hc, elem_of_app. by left.
      * intros i H1 H2. rewrite Hnx. by destruct (Z.eqb_spec i c), (Z.eqb_spec i p).
    + intros i Hi. left. by right.
    + intros i Hi _. rewrite Hnx. destruct (Z.eqb_spec i c) as [->|]; [by destruct Hi; left|].
      by destruct (Z.eqb_spec i p) as [->|].
  - intros i. change (val a' i) with (adjdata <$> elem es i). rewrite He'. destruct (i =? c); [done|].
    by apply (val_set_next a).
Qed.

(** The iterator after a deletion stands at the next element.  When the deleted
    element was the last of its round and others are left, the iterator is not
    at its end: it starts the round again. *)
Definition after_del R (it' : iterator) k (pre post : list Z) : Prop :=
  match post, pre with
  | [], [] => it' = iterator_new k
  | [], x :: pre => at_pos (<[k := x :: pre]> R) it' k [] x pre
  | d :: post, _ => at_pos (<[k := d :: post ++ pre]> R) it' k pre d post
  end.

Lemma del_element_spec a R it k pre c post :
  wfa a R -> at_pos R it k pre c post ->
  exists it' a', del_element a it = Some (it', a') /\ deleted a R k pre c post a' /\ after_del R it' k pre post.
Proof.
  intros Hw [Hk ->]. destruct (wfa_key a R k _ Hw Hk) as [x Hx].
  destruct (wfa_live a R k _ c Hw Hk ltac:(by left)) as [e He].
  pose proof (ring_next _ _ _ _ (wfa_ring a R Hw k _ Hk)) as Hn.
  unfold nx in Hn. rewrite He in Hn. apply (inj Some) in Hn.
  pose proof (wfa_nodup a R Hw k _ Hk) as [Hc _]%NoDup_cons.
  unfold del_element. cbn [it_valid negb curr_ptr idx prev_ptr start_ptr].
  rewrite (get_elem _ _ _ (wfa_elements a R Hw) He), (get_elem _ _ _ (wfa_index a R Hw) Hx). cbn [pointer].
  destruct (decide (post ++ pre = [])) as [Hnil|Hne].
  { apply app_eq_nil in Hnil as [-> ->]. simpl in Hn. rewrite Hn, Z.eqb_refl.
    destruct (del_sole_spec a R k c e Hw Hk He) as (es & -> & Hd). by eexists _, _. }
  destruct (exists_last Hne) as (m & p & Hm).
  destruct (del_linked_spec a R k pre c post m p e Hw Hk Hm He) as (es & Hdel & Hd).
  assert (Hcin : next e <> c).
  { rewrite Hn. intros E. apply Hc. rewrite <- E. destruct post; [destruct pre; [done|]|]; by left. }
  assert (Hpc : p <> c) by (intros ->; apply Hc; rewrite Hm; apply elem_of_app; right; by left).
  destruct (Z.eqb_spec (next e) c) as [|_]; [done|].
  rewrite Hm. change (c :: m ++ [p]) with ((c :: m) ++ [p]). rewrite !last_snoc. cbn [default from_option id].
  rewrite Hdel. destruct (Z.eqb_spec p c) as [|_]; [done|]. eexists _, _. split; [done|]. split; [done|].
  unfold after_del. destruct post as [|d post]; [destruct pre as [|y pre]; [done|]|]; simpl in Hn, Hm.
  - rewrite Hn in *. cbn [head default from_option id]. destruct (Z.eqb_spec y c) as [E|_]; [done|].
    split; rewrite !app_nil_r; [by rewrite lookup_insert_eq|]. by rewrite (last_default y pre m p Hm).
  - split; [by rewrite lookup_insert_eq|]. rewrite Hn. f_equal; [by rewrite (last_default d _ m p Hm)|].
    destruct pre as [|y pre]; simpl; [by rewrite Z.eqb_refl|]. destruct (Z.eqb_spec y c) as [->|]; [|done].
    destruct Hc. right. apply elem_of_app. right. by left.
Qed.

(** A write through the iterator. *)
Lemma it_set_spec a R it k pre c post f :
  wfa a R -> at_pos R it k pre c post ->
  wfa (it_set a it f) R /\ (forall i, val (it_set a it f) i = if i =? c then f <$> val a i else val a i)
  /\ (forall j, kdata (it_set a it f) j = kdata a j).
Proof.
  intros Hw [Hk ->]. pose proof (wfa_pos a R k _ c Hw Hk ltac:(by left)) as Hc. unfold it_set. cbn [curr_ptr].
  split_and!; [|intros i; unfold val; simpl; rewrite update_elem by done;
                destruct (i =? c); [by destruct (elem _ i)|done]|done].
  assert (Hnx : forall i, nx (it_set a (mkIter 0 0 0 true c) f) i = nx a i).
  { intros i. unfold nx. simpl. rewrite update_elem by done. destruct (i =? c); [|done]. by destruct (elem _ i). }
  destruct Hw as [H1 H2 H3 H4 H5 H6]. split; [done|by apply update_wf|done| |done|done].
  intros j l Hj. apply (ring_ext (nx a)); [|by apply H4 with j]. intros i _. apply Hnx.
Qed.

Lemma add_key_spec a R x :
  wfa a R -> total_num (index a) < 2 ^ 31 - 1 ->
  exists k a', add_key a x = Some (k, a') /\ R !! k = None /\ wfa a' (<[k := []]> R) /\ elements a' = elements a
    /\ (forall j, kdata a' j = if j =? k then Some x else kdata a j).
Proof.
  intros Hw Hmax. unfold add_key.
  destruct (add_spec (index a) (mkIndex x (-1)) (wfa_index a R Hw) Hmax) as (k & d & -> & Hwf & _ & Hfree & _ & He).
  eexists k, _. split; [done|].
  assert (HR : R !! k = None).
  { pose proof (wfa_keys a R Hw k) as H. unfold kptr in H. rewrite Hfree in H. by destruct (R !! k). }
  split_and!; [done| |done|intros j; unfold kdata; simpl; rewrite He; by destruct (j =? k)].
  assert (Hl : forall (P : list Z -> Prop) j l, P [] -> (R !! j = Some l -> P l) -> <[k:=[]]> R !! j = Some l -> P l).
  { intros P j l H0 H1 [[_ <-]|[_ Hj]]%lookup_insert_Some; [done|by apply H1]. }
  split; [done|apply Hw| | | |].
  - intros j. unfold kptr. simpl. rewrite He, lookup_insert.
    destruct (Z.eqb_spec j k) as [->|]; [by rewrite decide_True|]. rewrite decide_False by done. apply Hw.
  - intros j l. apply (Hl (ring (nx a))); [done|]. apply Hw.
  - intros j l. apply Hl; [constructor|]. apply Hw.
  - intros k1 k2 l1 l2 i [[<- <-]|[_ H1]]%lookup_insert_Some [[<- <-]|[_ H2]]%lookup_insert_Some; [done|..|].
    + by intros ?%not_elem_of_nil.
    + by intros _ ?%not_elem_of_nil.
    + by eapply Hw.
Qed.

(** ** The abstract value: a map from keys to their datum and list of elements *)

Definition content a R (k : Z) : option (T1 * list T2) :=
  l ← R !! k; x ← kdata a k; vs ← mapM (val a) l; Some (x, vs).

Definition represents a R (M : gmap Z (T1 * list T2)) : Prop := wfa a R /\ forall k, M !! k = content a R k.

Definition models a (M : gmap Z (T1 * list T2)) : Prop := exists R, represents a R M.

(** An iterator in the middle of a round over the list of [k]: [u] is behind it,
    [w] is the current element and [t] is to come. *)
Definition focus a (M : gmap Z (T1 * list T2)) it k (u : list T2) (w : T2) (t : list T2) : Prop :=
  exists R pre c post, represents a R M /\ at_pos R it k pre c post
    /\ mapM (val a) pre = Some u /\ val a c = Some w /\ mapM (val a) post = Some t.

Lemma mapM_ext_in (f g : Z -> option T2) l : (forall i, i ∈ l -> g i = f i) -> mapM g l = mapM f l.
Proof.
  induction l as [|x l IH]; intros H; [done|]. simpl. rewrite H by left. destruct (f x); [|done]. simpl.
  rewrite IH; [done|]. intros i Hi. apply H. by right.
Qed.

Lemma mapM_app (f : Z -> option T2) l k :
  mapM f (l ++ k) = vs ← mapM f l; ws ← mapM f k; Some (vs ++ ws).
Proof.
  induction l as [|x l IH]; simpl; [by destruct (mapM f k)|]. destruct (f x); [|done]. simpl.
  rewrite IH. destruct (mapM f l); [|done]. simpl. by destruct (mapM f k).
Qed.

Lemma mapM_cons (f : Z -> option T2) c l vs :
  mapM f (c :: l) = Some vs -> exists w t, vs = w :: t /\ f c = Some w /\ mapM f l = Some t.
Proof.
  rewrite mapM_Some. intros H. inversion H as [|? w ? t Hc Ht]; subst. exists w, t.
  split; [done|]. split; [done|]. by apply mapM_Some.
Qed.

Lemma mapM_nil (f : Z -> option T2) vs : mapM f [] = Some vs -> vs = [].
Proof. rewrite mapM_Some. by inversion 1. Qed.

Lemma mapM_live a R k l : wfa a R -> R !! k = Some l -> is_Some (mapM (val a) l).
Proof.
  intros Hw Hk. apply mapM_is_Some_2, Forall_forall. intros i Hi.
  apply fmap_is_Some. by eapply wfa_live.
Qed.

Lemma content_Some a R M k x vs :
  represents a R M -> M !! k = Some (x, vs) ->
  exists l, R !! k = Some l /\ kdata a k = Some x /\ mapM (val a) l = Some vs.
Proof.
  intros [Hw HM] Hk. rewrite HM in Hk. unfold content in Hk. destruct (R !! k) as [l|]; [|done]. simpl in Hk.
  destruct (kdata a k) as [x'|]; [|done]. simpl in Hk. destruct (mapM (val a) l) as [vs'|] eqn:E; [|done].
  simplify_eq/=. by exists l.
Qed.

Lemma models_None a R M k : represents a R M -> M !! k = None -> R !! k = None.
Proof.
  intros [Hw HM] Hk. rewrite HM in Hk. unfold content in Hk. destruct (R !! k) as [l|] eqn:E; [|done].
  destruct (wfa_key a R k l Hw E) as [x Hx]. destruct (mapM_live a R k l Hw E) as [vs Hvs].
  unfold kdata in Hk. rewrite Hx in Hk. simpl in Hk. by rewrite Hvs in Hk.
Qed.

(** A change confined to the elements of one key. *)
Lemma represents_insert a R M k l x l' vs' a' :
  represents a R M -> R !! k = Some l -> kdata a k = Some x -> wfa a' (<[k := l']> R) ->
  mapM (val a') l' = Some vs' -> (forall j, kdata a' j = kdata a j) ->
  (forall i, (i ∉ l) -> is_Some (val a i) -> val a' i = val a i) ->
  represents a' (<[k := l']> R) (<[k := (x, vs')]> M).
Proof.
  intros [Hw HM] Hk Hx Hw' Hvs Hd Hv. split; [done|]. intros j. unfold content. rewrite !lookup_insert.
  destruct (decide (k = j)) as [<-|Hne]; [by rewrite Hd, Hx; simpl; rewrite Hvs|].
  rewrite HM, Hd. unfold content. destruct (R !! j) as [lj|] eqn:Hj; [|done]. simpl.
  destruct (kdata a j); [|done]. simpl. rewrite (mapM_ext_in (val a) (val a')); [done|].
  intros i Hi. apply Hv.
  - intros Hil. apply Hne. by apply (wfa_disj a R Hw k j l lj i).
  - apply fmap_is_Some. by eapply wfa_live.
Qed.

Lemma focus_lookup a M it k u w t : focus a M it k u w t -> exists x, M !! k = Some (x, w :: t ++ u).
Proof.
  intros (R & pre & c & post & [Hw HM] & [Hk ->] & Hu & Hc & Ht). rewrite HM. unfold content. rewrite Hk. simpl.
  destruct (wfa_key a R k _ Hw Hk) as [x Hx]. unfold kdata. rewrite Hx. simpl. rewrite Hc. simpl.
  rewrite mapM_app, Ht. simpl. rewrite Hu. simpl. by eexists.
Qed.

Lemma focus_get a M it k u w t : focus a M it k u w t -> it_end it = false /\ it_get a it = Some w.
Proof.
  intros (R & pre & c & post & [Hw HM] & Hat & _ & Hc & _).
  destruct (it_get_spec a R it k pre c post Hw Hat) as [-> _]. by destruct Hat as [_ ->].
Qed.

Lemma focus_begin a M k x vs :
  models a M -> M !! k = Some (x, vs) ->
  exists it, begin a k = Some it
    /\ match vs with [] => it = iterator_new k | w :: t => focus a M it k [] w t end.
Proof.
  intros [R Hm] Hk. destruct (content_Some a R M k x vs Hm Hk) as (l & Hl & Hx & Hvs).
  destruct (begin_spec a R k l (proj1 Hm) Hl) as (it & Hb & Hit). exists it. split; [done|].
  destruct l as [|c post]; [by apply mapM_nil in Hvs as ->|].
  apply mapM_cons in Hvs as (w & t & -> & Hc & Ht). by exists R, [], c, post.
Qed.

Lemma focus_next a M it k u w t :
  focus a M it k u w t ->
  exists it' a' x, it_next a it = Some (it', a') /\ M !! k = Some (x, w :: t ++ u)
    /\ match t with
       | [] => it_end it' = true /\ models a' (<[k := (x, u ++ [w])]> M)
       | y :: t => focus a' (<[k := (x, y :: t ++ u ++ [w])]> M) it' k (u ++ [w]) y t
       end.
Proof.
  intros Hf. destruct (focus_lookup _ _ _ _ _ _ _ Hf) as [x Hk].
  destruct Hf as (R & pre & c & post & Hm & Hat & Hu & Hc & Ht).
  destruct (content_Some a R M k x _ Hm Hk) as (l & Hl & Hx & _). pose proof (at_ring _ _ _ _ _ _ Hat) as Hl'.
  destruct (it_next_spec a R it k pre c post (proj1 Hm) Hat) as (it' & a' & R' & Hn & Hw' & He & Hd & Hc').
  exists it', a', x. split; [done|]. split; [done|].
  assert (Hv : forall i, val a' i = val a i) by (intros i; unfold val; by rewrite He).
  assert (Hvm : forall l, mapM (val a') l = mapM (val a) l) by (intros l0; by apply mapM_ext_in).
  assert (Hprec : mapM (val a') (pre ++ [c]) = Some (u ++ [w])).
  { rewrite Hvm, mapM_app, Hu. simpl. by rewrite Hc. }
  destruct post as [|d post].
  - apply mapM_nil in Ht as ->. destruct Hc' as [Hend ->]. split; [unfold it_end; by rewrite Hend|].
    exists (<[k := pre ++ [c]]> R). by eapply represents_insert.
  - apply mapM_cons in Ht as (y & t' & -> & Hd' & Ht'). destruct Hc' as [Hat' ->].
    eexists _, (pre ++ [c]), d, post. split_and!; [|exact Hat'|done|by rewrite Hv|by rewrite Hvm].
    eapply represents_insert; [done|done|done|done| |done|done].
    change (d :: post ++ pre ++ [c]) with ((d :: post) ++ pre ++ [c]). rewrite mapM_app, Hprec. simpl.
    rewrite Hv, Hd'. simpl. rewrite Hvm, Ht'. done.
Qed.

Lemma focus_set a M it k u w t x f :
  focus a M it k u w t -> M !! k = Some (x, w :: t ++ u) ->
  focus (it_set a it f) (<[k := (x, f w :: t ++ u)]> M) it k u (f w) t.
Proof.
  intros (R & pre & c & post & Hm & Hat & Hu & Hc & Ht) Hk.
  destruct (content_Some a R M k x _ Hm Hk) as (l & Hl & Hx & _). pose proof (at_ring _ _ _ _ _ _ Hat) as Hl'.
  destruct (it_set_spec a R it k pre c post f (proj1 Hm) Hat) as (Hw' & Hv & Hd).
  pose proof (wfa_nodup a R (proj1 Hm) k _ Hl') as [Hnc _]%NoDup_cons.
  assert (Hvm : forall l, (c ∉ l) -> mapM (val (it_set a it f)) l = mapM (val a) l).
  { intros l0 Hc0. apply mapM_ext_in. intros i Hi. rewrite Hv. by destruct (Z.eqb_spec i c) as [->|]. }
  rewrite elem_of_app in Hnc. assert (Hvc : val (it_set a it f) c = Some (f w)) by (by rewrite Hv, Z.eqb_refl, Hc).
  exists R, pre, c, post. split_and!; [|done|by rewrite Hvm; auto|done|by rewrite Hvm; auto].
  rewrite <- (insert_id R k _ Hl').
  eapply represents_insert; [done|done|done|by rewrite insert_id| |done|].
  - simpl. rewrite Hvc. simpl. rewrite Hvm by (rewrite elem_of_app; tauto). rewrite mapM_app, Ht. simpl. by rewrite Hu.
  - intros i Hi _. rewrite Hv. destruct (Z.eqb_spec i c) as [->|]; [by destruct Hi; left|done].
Qed.

Lemma focus_del a M it k u w t :
  focus a M it k u w t ->
  exists it' a' x, del_element a it = Some (it', a') /\ M !! k = Some (x, w :: t ++ u)
    /\ models a' (<[k := (x, t ++ u)]> M)
    /\ match t, u with
       | [], [] => it_end it' = true
       | [], y :: u => focus a' (<[k := (x, y :: u)]> M) it' k [] y u
       | y :: t, _ => focus a' (<[k := (x, y :: t ++ u)]> M) it' k u y t
       end.
Proof.
  intros Hf. destruct (focus_lookup _ _ _ _ _ _ _ Hf) as [x Hk].
  destruct Hf as (R & pre & c & post & Hm & Hat & Hu & Hc & Ht).
  destruct (content_Some a R M k x _ Hm Hk) as (l & Hl & Hx & _). pose proof (at_ring _ _ _ _ _ _ Hat) as Hl'.
  destruct (del_element_spec a R it k pre c post (proj1 Hm) Hat) as (it' & a' & Hdel & (Hw' & _ & Hv & Hd) & Haft).
  exists it', a', x. split; [done|]. split; [done|].
  pose proof (wfa_nodup a R (proj1 Hm) k _ Hl') as [Hnc _]%NoDup_cons.
  assert (Hvm : forall l, (c ∉ l) -> mapM (val a') l = mapM (val a) l).
  { intros l0 Hc0. apply mapM_ext_in. intros i Hi. rewrite Hv. by destruct (Z.eqb_spec i c) as [->|]. }
  assert (Hrep : represents a' (<[k := post ++ pre]> R) (<[k := (x, t ++ u)]> M)).
  { eapply represents_insert; [done|done|done|done| |done|].
    - rewrite Hvm by done. rewrite mapM_app, Ht. simpl. by rewrite Hu.
    - intros i Hi _. rewrite Hv. destruct (Z.eqb_spec i c) as [->|]; [by destruct Hi; left|done]. }
  split; [by eexists|]. rewrite elem_of_app in Hnc. unfold after_del in Haft.
  rewrite <- (Hvm post) in Ht by tauto. rewrite <- (Hvm pre) in Hu by tauto.
  destruct post as [|d post]; [apply mapM_nil in Ht as ->; destruct pre as [|y pre]|].
  - apply mapM_nil in Hu as ->. by rewrite Haft.
  - apply mapM_cons in Hu as (v & vs & -> & Hy & Hpre). by eexists _, [], y, pre.
  - apply mapM_cons in Ht as (v & vs & -> & Hy & Hpre). by eexists _, pre, d, post.
Qed.

Lemma find_loop_spec P fuel a M it k u w t :
  focus a M it k u w t -> (length (w :: t) <= fuel)%nat -> Forall (fun v => P v = false) u ->
  exists it' a' x, find_loop fuel P a it = Some (it', a') /\ M !! k = Some (x, w :: t ++ u)
    /\ ((exists u' w' t', u ++ w :: t = u' ++ w' :: t' /\ Forall (fun v => P v = false) u' /\ P w' = true
           /\ focus a' (<[k := (x, w' :: t' ++ u')]> M) it' k u' w' t')
        \/ (Forall (fun v => P v = false) (u ++ w :: t) /\ it_end it' = true
            /\ models a' (<[k := (x, u ++ w :: t)]> M))).
Proof.
  revert a M it u w t. induction fuel as [|fuel IH]; intros a M it u w t Hf Hlen Hu; [simpl in Hlen; lia|].
  destruct (focus_get _ _ _ _ _ _ _ Hf) as [He Hg]. cbn [find_loop]. rewrite He, Hg.
  destruct (P w) eqn:Hp.
  - destruct (focus_lookup _ _ _ _ _ _ _ Hf) as [x Hx]. exists it, a, x. split; [done|]. split; [done|]. left.
    exists u, w, t. split_and!; [done|done|done|]. by rewrite insert_id.
  - destruct (focus_next _ _ _ _ _ _ _ Hf) as (it' & a' & x & -> & Hx & Hn).
    assert (Hu' : Forall (fun v => P v = false) (u ++ [w])) by (apply Forall_app; split; [done|]; by repeat constructor).
    destruct t as [|y t].
    + destruct Hn as [Hend Hm]. exists it', a', x. split; [destruct fuel; simpl; by rewrite Hend|].
      split; [done|]. right. done.
    + destruct (IH _ _ _ _ _ _ Hn ltac:(simpl in *; lia) Hu') as (it2 & a2 & x2 & -> & Hx2 & Hres).
      rewrite lookup_insert_eq in Hx2. simplify_eq. exists it2, a2, x2. split; [done|]. split; [done|].
      setoid_rewrite insert_insert_eq in Hres. by rewrite <- (assoc_L (++)) in Hres.
Qed.

(** A round over elements that all stay. *)
Lemma purge_clean P fuel a M it k u w t :
  focus a M it k u w t -> (length (w :: t) <= fuel)%nat -> Forall (fun v => P v = false) (w :: t) ->
  exists a' x, purge_loop fuel P a it = Some a' /\ M !! k = Some (x, w :: t ++ u)
    /\ models a' (<[k := (x, u ++ w :: t)]> M).
Proof.
  revert a M it u w t. induction fuel as [|fuel IH]; intros a M it u w t Hf Hlen Hp; [simpl in Hlen; lia|].
  destruct (focus_get _ _ _ _ _ _ _ Hf) as [He Hg]. cbn [purge_loop]. rewrite He, Hg.
  apply Forall_cons in Hp as [-> Hp].
  destruct (focus_next _ _ _ _ _ _ _ Hf) as (it' & a' & x & -> & Hx & Hn).
  destruct t as [|y t].
  - destruct Hn as [Hend Hm]. exists a', x. split; [destruct fuel; simpl; by rewrite Hend|]. done.
  - destruct (IH _ _ _ _ _ _ Hn ltac:(simpl in *; lia) Hp) as (a2 & x2 & -> & Hx2 & Hres).
    rewrite lookup_insert_eq in Hx2. simplify_eq. exists a2, x2. split; [done|]. split; [done|].
    by rewrite insert_insert_eq, <- (assoc_L (++)) in Hres.
Qed.

Lemma purge_loop_spec P fuel a M it k u w t :
  focus a M it k u w t -> (2 * length (w :: t) + length u <= fuel)%nat -> Forall (fun v => P v = false) u ->
  exists a' x, purge_loop fuel P a it = Some a' /\ M !! k = Some (x, w :: t ++ u)
    /\ models a' (<[k := (x, u ++ keep P (w :: t))]> M).
Proof.
  revert a M it u w t. induction fuel as [|fuel IH]; intros a M it u w t Hf Hlen Hu; [simpl in Hlen; lia|].
  destruct (focus_get _ _ _ _ _ _ _ Hf) as [He Hg]. cbn [purge_loop List.filter]. rewrite He, Hg.
  destruct (P w) eqn:Hp; simpl negb; cbv iota.
  - destruct (focus_del _ _ _ _ _ _ _ Hf) as (it' & a' & x & -> & Hx & Hm & Hn).
    destruct t as [|y t]; [destruct u as [|y u]|].
    + exists a', x. split; [destruct fuel; simpl; by rewrite Hn|]. done.
    + destruct (purge_clean P fuel _ _ _ _ _ _ _ Hn ltac:(simpl in *; lia) Hu) as (a2 & x2 & -> & Hx2 & Hres).
      rewrite lookup_insert_eq in Hx2. simplify_eq. exists a2, x2. split; [done|]. split; [done|].
      rewrite insert_insert_eq in Hres. by rewrite app_nil_r.
    + destruct (IH _ _ _ _ _ _ Hn ltac:(simpl in *; lia) Hu) as (a2 & x2 & -> & Hx2 & Hres).
      rewrite lookup_insert_eq in Hx2. simplify_eq. exists a2, x2. split; [done|]. split; [done|].
      by rewrite insert_insert_eq in Hres.
  - destruct (focus_next _ _ _ _ _ _ _ Hf) as (it' & a' & x & -> & Hx & Hn).
    assert (Hu' : Forall (fun v => P v = false) (u ++ [w])) by (apply Forall_app; split; [done|]; by repeat constructor).
    destruct t as [|y t].
    + destruct Hn as [Hend Hm]. exists a', x. split; [destruct fuel; simpl; by rewrite Hend|]. done.
    + destruct (IH _ _ _ _ _ _ Hn ltac:(rewrite length_app; simpl in *; lia) Hu') as (a2 & x2 & -> & Hx2 & Hres).
      rewrite lookup_insert_eq in Hx2. simplify_eq. exists a2, x2. split; [done|]. split; [done|].
      by rewrite insert_insert_eq, <- (assoc_L (++)) in Hres.
Qed.

Lemma list_in_slots a R M k x vs :
  represents a R M -> M !! k = Some (x, vs) -> (2 * length vs <= turns a)%nat.
Proof.
  intros Hm Hk. destruct (content_Some a R M k x vs Hm Hk) as (l & Hl & _ & Hvs).
  apply length_mapM in Hvs. rewrite <- Hvs. unfold turns.
  assert (H : (length l <= length (seqZ 0 (Z.of_nat (length (DArray.data (elements a))))))%nat).
  { apply submseteq_length, NoDup_submseteq; [by apply (wfa_nodup a R (proj1 Hm) k)|]. intros i Hi.
    apply elem_of_seqZ. pose proof (wfa_live a R k l i (proj1 Hm) Hl Hi) as Hs. apply slot_of_range in Hs. lia. }
  rewrite length_seqZ in H. lia.
Qed.

Lemma models_new s1 s2 :
  0 < s1 < 2 ^ 32 -> 0 < s2 < 2 ^ 32 -> models (adjlist_new s1 s2) ∅.
Proof.
  intros H1 H2. assert (Hn : forall k, elem (darray_new s1 : darray_t (index_t T1)) k = None).
  { intros k. pose proof (history_inv s1 (darray_new s1 : darray_t (index_t T1)) ∅ H1 ltac:(constructor)) as (_ & _ & H).
    by rewrite H, lookup_empty. }
  exists ∅. split; [|intros k; unfold content; by rewrite !lookup_empty].
  split; try (by intros *; rewrite lookup_empty); [by apply new_wf|by apply new_wf|].
  intros k. unfold kptr. simpl. by rewrite Hn, lookup_empty.
Qed.

Lemma models_add_key a M x :
  models a M -> get_totalsize (index a) < 2 ^ 31 - 1 ->
  exists k a', add_key a x = Some (k, a') /\ M !! k = None /\ models a' (<[k := (x, [])]> M).
Proof.
  intros [R [Hw HM]] Hmax. destruct (add_key_spec a R x Hw Hmax) as (k & a' & -> & HR & Hw' & He & Hd).
  exists k, a'. split; [done|]. split; [rewrite HM; unfold content; by rewrite HR|].
  exists (<[k := []]> R). split; [done|]. intros j. unfold content. rewrite !lookup_insert, Hd.
  destruct (decide (k = j)) as [<-|Hne]; [by rewrite Z.eqb_refl|]. destruct (Z.eqb_spec j k); [done|].
  rewrite HM. unfold content, val. by rewrite He.
Qed.

Lemma models_add_element a M k x vs v :
  models a M -> M !! k = Some (x, vs) -> get_totalsize (elements a) < 2 ^ 31 - 1 ->
  exists it a', add_element a k v = Some (it, a') /\ it_get a' it = Some v
    /\ models a' (<[k := (x, v :: vs)]> M).
Proof.
  intros [R Hm] Hk Hmax. destruct (content_Some a R M k x vs Hm Hk) as (l & Hl & Hx & Hvs).
  destruct (add_element_spec a R k l v (proj1 Hm) Hl Hmax) as (n & a' & -> & (Hw' & Hfree & _ & Hv & Hd)).
  assert (Hnl : (n ∉ l)) by (intros Hin; destruct (wfa_live a R k l n (proj1 Hm) Hl Hin); congruence).
  eexists _, a'. split; [done|]. split.
  - unfold it_get. cbn [curr_ptr]. specialize (Hv n). rewrite Z.eqb_refl in Hv. unfold val in Hv.
    destruct (elem (elements a') n) as [e|] eqn:He; [|done]. by rewrite (get_elem _ _ _ (wfa_elements _ _ Hw') He).
  - exists (<[k := n :: l]> R). eapply represents_insert; [done|done|done|done| |done|].
    + simpl. rewrite Hv, Z.eqb_refl. simpl. rewrite (mapM_ext_in (val a)), Hvs; [done|].
      intros i Hi. rewrite Hv. by destruct (Z.eqb_spec i n) as [->|].
    + intros i _ Hs. rewrite Hv. destruct (Z.eqb_spec i n) as [->|]; [|done].
      unfold val in Hs. rewrite Hfree in Hs. by destruct Hs.
Qed.

(** The first element of a key: the iterator stands at it. *)
Lemma models_add_sole a M k x v :
  models a M -> M !! k = Some (x, []) -> get_totalsize (elements a) < 2 ^ 31 - 1 ->
  exists it a', add_element a k v = Some (it, a') /\ focus a' (<[k := (x, [v])]> M) it k [] v [].
Proof.
  intros [R Hm] Hk Hmax. destruct (content_Some a R M k x [] Hm Hk) as (l & Hl & Hx & Hvs).
  assert (l = []) as -> by (destruct l as [|c l]; [done|]; apply mapM_cons in Hvs as (? & ? & ? & _); done).
  destruct (add_element_spec a R k [] v (proj1 Hm) Hl Hmax) as (n & a' & -> & (Hw' & Hfree & _ & Hv & Hd)).
  assert (Hn : val a' n = Some v) by (by rewrite Hv, Z.eqb_refl).
  eexists _, a'. split; [done|]. exists (<[k := [n]]> R), [], n, []. split_and!; [|split; [apply lookup_insert_eq|done]|done|done|done].
  eapply represents_insert; [done|done|done|done|simpl; by rewrite Hn|done|].
  intros i _ Hs. rewrite Hv. destruct (Z.eqb_spec i n) as [->|]; [|done].
  unfold val in Hs. rewrite Hfree in Hs. by destruct Hs.
Qed.

(** Looking for an element of a key from [begin]. *)
Lemma models_find P a M k x vs :
  models a M -> M !! k = Some (x, vs) ->
  exists it it' a', begin a k = Some it /\ find_loop (turns a) P a it = Some (it', a')
    /\ ((exists u w t, vs = u ++ w :: t /\ Forall (fun v => P v = false) u /\ P w = true
           /\ focus a' (<[k := (x, w :: t ++ u)]> M) it' k u w t)
        \/ (Forall (fun v => P v = false) vs /\ it_end it' = true /\ models a' M)).
Proof.
  intros Hm Hk. destruct (focus_begin a M k x vs Hm Hk) as (it & Hb & Hf). exists it.
  destruct vs as [|w t].
  - exists it, a. split; [done|]. subst it. split; [by destruct (turns a)|]. by right.
  - pose proof Hm as [R Hr]. pose proof (list_in_slots a R M k x _ Hr Hk).
    destruct (find_loop_spec P (turns a) a M it k [] w t Hf ltac:(lia) ltac:(constructor))
      as (it' & a' & x' & Hfl & Hx & Hres). rewrite app_nil_r in Hx. simplify_eq.
    exists it', a'. split; [done|]. split; [done|]. by rewrite (insert_id M k (x, [] ++ w :: t)) in Hres.
Qed.

Lemma models_purge P a M k x vs :
  models a M -> M !! k = Some (x, vs) ->
  exists it a', begin a k = Some it /\ purge_loop (turns a) P a it = Some a'
    /\ models a' (<[k := (x, keep P vs)]> M).
Proof.
  intros Hm Hk. destruct (focus_begin a M k x vs Hm Hk) as (it & Hb & Hf). exists it.
  destruct vs as [|w t].
  - exists a. split; [done|]. subst it. split; [by destruct (turns a)|]. simpl. by rewrite insert_id.
  - pose proof Hm as [R Hr]. pose proof (list_in_slots a R M k x _ Hr Hk).
    destruct (purge_loop_spec P (turns a) a M it k [] w t Hf ltac:(simpl in *; lia) ltac:(constructor))
      as (a' & x' & Hfl & Hx & Hres). rewrite app_nil_r in Hx. simplify_eq. by exists a'.
Qed.

Lemma models_is_keyvalid a M k :
  models a M -> 0 <= k < 2 ^ 32 -> is_keyvalid a k = bool_decide (is_Some (M !! k)).
Proof.
  intros [R Hm] Hk. unfold is_keyvalid. rewrite (wfa_isvalid a R k (proj1 Hm) Hk). apply bool_decide_ext.
  destruct (M !! k) as [[x vs]|] eqn:E.
  - destruct (content_Some a R M k x vs Hm E) as (l & -> & _). by split.
  - by rewrite (models_None a R M k Hm E).
Qed.

Lemma focus_models a M it k u w t : focus a M it k u w t -> models a M.
Proof. intros (R & _ & _ & _ & Hr & _). by exists R. Qed.

Lemma models_key_pos a M k x vs : models a M -> M !! k = Some (x, vs) -> 0 <= k < 2 ^ 32.
Proof.
  intros [R Hm] Hk. destruct (content_Some a R M k x vs Hm Hk) as (l & Hl & _).
  by apply (wfa_key_pos a R k l (proj1 Hm)).
Qed.

Lemma models_get_key a M k x vs : models a M -> M !! k = Some (x, vs) -> get_key a k = Some x.
Proof.
  intros [R Hm] Hk. destruct (content_Some a R M k x vs Hm Hk) as (l & Hl & Hx & _). unfold kdata in Hx.
  destruct (elem (index a) k) as [ix|] eqn:E; [|done]. unfold get_key.
  by rewrite (get_elem _ _ _ (wfa_index a R (proj1 Hm)) E).
Qed.

Lemma models_update_key a M k x vs f :
  models a M -> M !! k = Some (x, vs) -> models (update_key a k f) (<[k := (f x, vs)]> M).
Proof.
  intros Hms Hk. pose proof (models_key_pos a M k x vs Hms Hk) as Hpos. destruct Hms as [R Hm].
  destruct (content_Some a R M k x vs Hm Hk) as (l & Hl & Hx & Hvs). exists R. destruct Hm as [Hw HM].
  assert (Hkd : forall j, kdata (update_key a k f) j = if j =? k then f <$> kdata a j else kdata a j).
  { intros j. unfold kdata. simpl. rewrite update_elem by done. destruct (j =? k); [|done]. by destruct (elem _ j). }
  split.
  - destruct Hw as [H1 H2 H3 H4 H5 H6]. split; [by apply update_wf|done| |done|done|done].
    intros j. rewrite <- H3. unfold kptr. simpl. rewrite update_elem by done. destruct (j =? k); [|done].
    by destruct (elem _ j).
  - intros j. unfold content. rewrite Hkd, lookup_insert. destruct (decide (k = j)) as [<-|Hne].
    + rewrite Hl, Z.eqb_refl, Hx. simpl. change (mapM (val (update_key a k f)) l) with (mapM (val a) l). by rewrite Hvs.
    + destruct (Z.eqb_spec j k) as [->|]; [done|]. apply HM.
Qed.

(** [set_ptr_to] at the iterator's own position changes nothing. *)
Lemma focus_set_ptr a M it k u w t : focus a M it k u w t -> focus (set_ptr_to a k it) M it k u w t.
Proof.
  intros (R & pre & c & post & [Hw HM] & Hat & Hu & Hc & Ht). exists R, pre, c, post.
  pose proof (at_ring _ _ _ _ _ _ Hat) as Hl. pose proof (wfa_key_pos a R k _ Hw Hl) as Hpos.
  destruct (wfa_key a R k _ Hw Hl) as [x Hx]. pose proof (at_it _ _ _ _ _ _ Hat) as Hit.
  assert (Hp : prev_ptr it = default (-1) (last (c :: post ++ pre))).
  { rewrite Hit. cbn [prev_ptr].
    destruct (decide (post ++ pre = [])) as [->|Hne]; [done|]. destruct (exists_last Hne) as (m & p & ->).
    change (c :: m ++ [p]) with ((c :: m) ++ [p]). by rewrite !last_snoc. }
  split_and!; [|done|done|done|done]. split.
  - destruct Hw as [H1 H2 H3 H4 H5 H6]. split; [by apply update_wf|done| |done|done|done].
    intros j. unfold set_ptr_to. rewrite kptr_set_pointer by (done || by eexists).
    destruct (Z.eqb_spec j k) as [->|]; [|apply H3]. by rewrite Hl, Hp.
  - intros j. rewrite HM. unfold content, set_ptr_to. by rewrite kdata_set_pointer.
Qed.

(** *** [init] of a list that was just made: the keys are the numbers below [sz] *)

(** All elements below the number of elements, and the next free slot there. *)
Definition packed {A} (d : darray_t A) (x : A) : Prop :=
  wf d /\ lowest_available d = total_num d
  /\ forall i, elem d i = if (0 <=? i) && (i <? total_num d) then Some x else None.

Lemma add_packed {A} `{!Inhabited A} (d : darray_t A) x :
  packed d x -> total_num d < 2 ^ 31 - 1 ->
  exists d', add d x = Some (total_num d, d') /\ packed d' x /\ total_num d' = total_num d + 1.
Proof.
  intros (Hwf & Hlow & He) Hmax. destruct (add_spec d x Hwf Hmax) as (i & d' & Ha & Hwf' & _ & _ & Ht & He').
  assert (Hd : dense d).
  { split; [done|]. intros j Hj. rewrite He. destruct (Z.ltb_spec j (total_num d)); [lia|]. by rewrite andb_false_r. }
  destruct (add_dense d x i d' Hwf Hd Hmax Ha) as [-> [Hlow' _]]. exists d'. split; [done|]. split; [|done]. split; [done|]. split; [done|].
  pose proof (wf_total d Hwf). intros i. rewrite He', He, Ht. destruct (Z.eqb_spec i (total_num d)), (Z.leb_spec 0 i),
    (Z.ltb_spec i (total_num d)), (Z.ltb_spec i (total_num d + 1)); (done || lia).
Qed.

Lemma add_keys_packed n (d : darray_t (index_t T1)) x :
  packed d (mkIndex x (-1)) -> total_num d + Z.of_nat n < 2 ^ 31 - 1 ->
  exists d', add_keys n d x = Some d' /\ packed d' (mkIndex x (-1)) /\ total_num d' = total_num d + Z.of_nat n.
Proof.
  revert d. induction n as [|n IH]; intros d Hp Hmax; cbn [add_keys]; [exists d; split_and!; (done || lia)|].
  destruct (add_packed d _ Hp ltac:(lia)) as (d1 & -> & Hp1 & Ht1).
  destruct (IH d1 Hp1 ltac:(lia)) as (d' & -> & Hp' & Ht'). exists d'. split_and!; (done || lia).
Qed.

Lemma init_new {A} `{!Inhabited A} s : DArray.init s (darray_new s : darray_t A) = darray_new s.
Proof.
  unfold DArray.init, darray_new. f_equal. unfold vector_resize. cbn [DArray.data].
  rewrite take_nil, Nat.sub_0_r, app_nil_l, length_replicate, Nat.sub_diag, app_nil_r.
  by rewrite take_ge by (by rewrite length_replicate).
Qed.

Lemma models_init s1 s2 n x :
  0 < s1 < 2 ^ 32 -> 0 < s2 < 2 ^ 32 -> 0 <= n < 2 ^ 31 - 1 ->
  exists a', adj_init s1 (adjlist_new s1 s2) n x = Some a' /\ total_num (elements a') = 0
    /\ exists M, models a' M /\ forall k, M !! k = if (0 <=? k) && (k <? n) then Some (x, []) else None.
Proof.
  intros H1 H2 Hn. unfold adj_init. cbn [index adjlist_new]. rewrite init_new.
  destruct (add_keys_packed (Z.to_nat n) (darray_new s1) x) as (d & -> & (Hwf & _ & He) & Ht).
  { split; [by apply new_wf|]. split; [done|]. intros i. rewrite new_elem by lia. simpl.
    destruct (Z.leb_spec 0 i), (Z.ltb_spec i 0); (done || lia). }
  { simpl. lia. }
  eexists. split; [done|]. split; [done|]. simpl in Ht. replace (total_num d) with n in He by lia.
  set (R := gset_to_gmap ([] : list Z) (list_to_set (seqZ 0 n))).
  assert (HR : forall k, R !! k = if (0 <=? k) && (k <? n) then Some [] else None).
  { intros k. unfold R. rewrite lookup_gset_to_gmap. destruct (Z.leb_spec 0 k), (Z.ltb_spec k n); simpl;
      case_guard as Hg; pose proof Hg as Hg2; rewrite elem_of_list_to_set, elem_of_seqZ in Hg2; (done || lia). }
  assert (Hnil : forall k l, R !! k = Some l -> l = []).
  { intros k l. rewrite HR. destruct (_ && _); congruence. }
  exists ((fun l => (x, [])) <$> R). split; [|intros k; rewrite lookup_fmap, HR; by destruct (_ && _)].
  exists R. split; [split|]; simpl; [done|by apply new_wf| |by intros k l ->%Hnil|intros k l ->%Hnil; constructor| |].
  - intros k. rewrite HR. unfold kptr. simpl. rewrite He. by destruct (_ && _).
  - by intros k1 k2 l1 l2 i ->%Hnil _ ?%not_elem_of_nil.
  - intros k. unfold content, kdata. rewrite lookup_fmap, HR. simpl. rewrite He. by destruct (_ && _).
Qed.

End representation.

(** C37: the adjacency list is a map from keys to a datum and a list of elements.
    In every state that stands for such a map: [add_key] gives an unused key an
    empty list; [add_element] puts the element in front of the list of its key;
    iterating from [begin] up to the first element that satisfies a condition
    returns, and stops at that element with the list rotated to start there, or
    reaches the end with the list unchanged when there is none; and deleting
    every element that satisfies a condition while iterating returns, leaving
    exactly the others in their order.  No list of another key is affected. *)
Theorem adjlist_refines {T1 T2} `{!Inhabited T1, !Inhabited T2} (a : adjlist T1 T2) (M : gmap Z (T1 * list T2)) :
  models a M ->
  (forall x, get_totalsize (index a) < 2 ^ 31 - 1 ->
    exists k a', add_key a x = Some (k, a') /\ M !! k = None /\ models a' (<[k := (x, [])]> M))
  /\ (forall k x vs v, M !! k = Some (x, vs) -> get_totalsize (elements a) < 2 ^ 31 - 1 ->
    exists it a', add_element a k v = Some (it, a') /\ it_get a' it = Some v
      /\ models a' (<[k := (x, v :: vs)]> M))
  /\ (forall P k x vs, M !! k = Some (x, vs) ->
    exists it it' a', begin a k = Some it /\ find_loop (turns a) P a it = Some (it', a')
      /\ ((exists u w t, vs = u ++ w :: t /\ Forall (fun v => P v = false) u /\ P w = true
             /\ it_get a' it' = Some w /\ models a' (<[k := (x, w :: t ++ u)]> M))
          \/ (Forall (fun v => P v = false) vs /\ it_end it' = true /\ models a' M)))
  /\ (forall P k x vs, M !! k = Some (x, vs) ->
    exists it a', begin a k = Some it /\ purge_loop (turns a) P a it = Some a'
      /\ models a' (<[k := (x, keep P vs)]> M)).
Proof.
  intros Hm. split_and!.
  - intros x Hx. by apply models_add_key.
  - intros k x vs v Hk Hx. by apply models_add_element.
  - intros P k x vs Hk. destruct (models_find P a M k x vs Hm Hk) as (it & it' & a' & Hb & Hf & Hres).
    exists it, it', a'. split; [done|]. split; [done|]. destruct Hres as [(u & w & t & Hv & Hu & Hw & Hfo)|]; [left|by right].
    exists u, w, t. split_and!; [done..| |]; [by apply (focus_get _ _ _ _ _ _ _ Hfo)|].
    destruct Hfo as (R & _ & _ & _ & Hr & _). by exists R.
  - intros P k x vs Hk. by apply models_purge.
Qed.

(** A key with the elements 13, 12, 11 in an array that had to grow: looking for
    12 rotates the list, and purging the odd ones leaves 12. *)
Definition demo : adjlist Z Z :=
  let a := adjlist_new 2 2 in
  let a := match add_key a 7 with Some (_, a) => a | None => a end in
  let put a v := match add_element a 0 v with Some (_, a) => a | None => a end in
  put (put (put a 11) 12) 13.

Lemma demo_models : models demo {[0 := (7, [13; 12; 11])]}.
Proof.
  destruct (models_add_key (adjlist_new 2 2 : adjlist Z Z) ∅ 7) as (k0 & a0 & H0 & _ & Hm0); [by apply models_new|done|].
  vm_compute in H0. injection H0 as <- <-.
  destruct (models_add_element _ _ 0 7 [] 11 Hm0) as (i1 & a1 & H1 & _ & Hm1); [by vm_compute..|].
  vm_compute in H1. injection H1 as _ <-. rewrite insert_insert_eq in Hm1.
  destruct (models_add_element _ _ 0 7 [11] 12 Hm1) as (i2 & a2 & H2 & _ & Hm2); [by vm_compute..|].
  vm_compute in H2. injection H2 as _ <-. rewrite insert_insert_eq in Hm2.
  destruct (models_add_element _ _ 0 7 [12; 11] 13 Hm2) as (i3 & a3 & H3 & _ & Hm3); [by vm_compute..|].
  vm_compute in H3. injection H3 as _ <-. rewrite insert_insert_eq in Hm3.
  match type of Hm3 with models ?l _ => replace demo with l by (by vm_compute) end. exact Hm3.
Qed.

Lemma adjlist_refines_witness :
  exists it' a' a'', find_loop (turns demo) (Z.eqb 12) demo (mkIter 0 2 0 true 2) = Some (it', a')
    /\ purge_loop (turns demo) Z.odd demo (mkIter 0 2 0 true 2) = Some a''
    /\ it_get a' it' = Some 12 /\ models a' {[0 := (7, [12; 11; 13])]} /\ models a'' {[0 := (7, [12])]}.
Proof.
  destruct (adjlist_refines demo {[0 := (7, [13; 12; 11])]} demo_models) as (_ & _ & Hfind & Hpurge).
  destruct (Hfind (Z.eqb 12) 0 7 _ eq_refl) as (it & it' & a' & Hb & Hf & Hres).
  destruct (Hpurge Z.odd 0 7 _ eq_refl) as (itp & a'' & Hbp & Hp & Hmp).
  vm_compute in Hb. injection Hb as <-. vm_compute in Hbp. injection Hbp as <-.
  exists it', a', a''. split; [exact Hf|]. split; [exact Hp|]. clear Hfind Hpurge Hf Hp.
  destruct Hres as [(u & w & t & Hv & Hu & Hw & Hg & Hm)|[Hall _]].
  2: { apply Forall_cons in Hall as [_ [Hall _]%Forall_cons]. discriminate Hall. }
  apply Z.eqb_eq in Hw as <-. destruct u as [|v1 [|v2 [|v3 [|]]]]; simplify_eq/=.
  split; [done|]. split; [by rewrite insert_singleton_eq in Hm|]. by rewrite insert_singleton_eq in Hmp.
Defined.

(** Deleting the last element of a round does not end the iteration: the
    iterator is back at the first element. *)
Theorem delete_last_restarts :
  exists it a, del_element demo (mkIter 1 2 0 true 0) = Some (it, a)
    /\ it_end it = false /\ it_get a it = Some 13.
Proof. eexists _, _. split; [by vm_compute|]. by vm_compute. Qed.

(** [del_key] frees the key but none of its elements. *)
Theorem del_key_leaks :
  exists a, del_key demo 0 = Some a /\ is_keyvalid a 0 = false
    /\ get_totalsize (elements a) = 3.
Proof. eexists _. split; [by vm_compute|]. by vm_compute. Qed.

End AdjList.
