(* ===== verification/LocklessQueue.v ===== *)
(** * The lockless queue of the prototype

    [common/locklessqueue_n.hpp]: [locklessqueue_t], a ring of 16-byte elements
    in shared memory for one sender and one receiver.  A slot carries its own
    valid and deleted bits, and the sender keeps a number of credits that the
    receiver returns by a flag, half a ring at a time.  The receiver may delete
    elements out of order. *)

From Stdlib Require Import ZArith Lia.
From stdpp Require Import numbers base sorting gmap list.
From S2P Require Import Prelude.

Module LocklessQueue.

Record element_t (T : Type) := mkElement { data : T; isvalid : bool; isdel : bool }.
Arguments mkElement {T}.
Arguments data {T}.
Arguments isvalid {T}.
Arguments isdel {T}.

(** The memory of a queue: the slots, and the byte behind them. *)
Record shm (T : Type) := mkShm { ringbuffer : list (element_t T); return_flag : bool }.
Arguments mkShm {T}.
Arguments ringbuffer {T}.
Arguments return_flag {T}.

Record rdma_t := mkRdma {
  rdma_qp : Z;
  rdma_cq : Z;
  rdma_lkey : Z;
  rdma_rkey : Z;
  rdma_remote_baseaddr : Z
}.

(** What one process keeps of a queue; [pointer] is the head of a sender and
    the tail of a receiver. *)
Record queue := mkQueue {
  pointer : Z;
  MASK : Z;
  credits : Z;
  CREDITS_PER_RETURN : Z;
  credit_disabled : bool;
  isRDMA : option rdma_t
}.

(** A call of [post_rdma_write]: the offset of the local memory in the queue,
    the remote address, the number of bytes. *)
Record post := mkPost { p_local : Z; p_remote : Z; p_by : rdma_t; p_len : Z }.

Definition element_size : Z := 16.

Section ops.
Context {T : Type} `{!Inhabited T} (SIZE : Z).
Implicit Types (q : queue) (m : shm T) (d : T).

Definition set_pointer q p : queue :=
  mkQueue p (MASK q) (credits q) (CREDITS_PER_RETURN q) (credit_disabled q) (isRDMA q).
Definition set_credits q c : queue :=
  mkQueue (pointer q) (MASK q) c (CREDITS_PER_RETURN q) (credit_disabled q) (isRDMA q).
Definition set_disabled q b : queue :=
  mkQueue (pointer q) (MASK q) (credits q) (CREDITS_PER_RETURN q) b (isRDMA q).
Definition set_flag m b : shm T := mkShm (ringbuffer m) b.

Definition init m (is_receiver : bool) : queue * shm T :=
  (mkQueue 0 (SIZE - 1) (if is_receiver then 0 else SIZE) (SIZE / 2 + 1) false None, set_flag m false).

Definition initRDMA q (r : rdma_t) : queue :=
  mkQueue (pointer q) (MASK q) (credits q) (CREDITS_PER_RETURN q) (credit_disabled q) (Some r).

(** [memset(&ele, 0, ...)] copied to every slot. *)
Definition init_mem m (zero : T) : shm T :=
  mkShm (replicate (Z.to_nat SIZE) (mkElement zero false false)) (return_flag m).

Definition slot q (loc : Z) : nat := Z.to_nat (Z.land loc (MASK q)).
Definition get_slot q m (loc : Z) : option (element_t T) := ringbuffer m !! slot q loc.
Definition set_slot q m (loc : Z) (f : element_t T -> element_t T) : shm T :=
  mkShm (alter f (slot q loc) (ringbuffer m)) (return_flag m).

(** The write posted for the [len] bytes at offset [off] of the queue. *)
Definition post_write q (off len : Z) : list post :=
  match isRDMA q with
  | Some r => [mkPost off (u64 (rdma_remote_baseaddr r + off)) r len]
  | None => []
  end.

(** [//is full?]: [None] when the sender has to wait. *)
Definition take_credits q m : option (queue * shm T) :=
  if negb (credit_disabled q) && (credits q =? 0) then
    if return_flag m
    then Some (set_credits q (u32 (credits q + CREDITS_PER_RETURN q)), set_flag m false)
    else None
  else Some (q, m).

(** [//fillup element] to the end of [push_nb]. *)
Definition put q m d : queue * shm T * list post :=
  let local_ptr := pointer q in
  let m := set_slot q m local_ptr (fun _ => mkElement d true false) in
  let posts := post_write q (Z.of_nat (slot q local_ptr) * element_size) element_size in
  (set_credits (set_pointer q (u32 (pointer q + 1))) (u32 (credits q - 1)), m, posts).

Definition push_nb q m d : bool * (queue * shm T * list post) :=
  match take_credits q m with
  | None => (false, (q, m, []))
  | Some (q, m) => (true, put q m d)
  end.

Definition is_full q : bool := negb (credit_disabled q) && (credits q <? 16).

(** [while (!push_nb(data));]: [None] as long as the peer returns no credits. *)
Definition push q m d : option (queue * shm T * list post) :=
  match push_nb q m d with
  | (true, r) => Some r
  | (false, _) => None
  end.

Definition setpointer q (p : Z) : queue := set_pointer q p.
Definition disable_credit q : queue := set_disabled q true.
Definition enable_credit q : queue := set_disabled q false.

Definition peek q m (loc : Z) : option (T * (bool * bool)) :=
  match get_slot q m loc with
  | None => None
  | Some ele => Some (data ele, (isvalid ele, isdel ele))
  end.

Definition set q m (loc : Z) (input : T) : shm T :=
  set_slot q m loc (fun ele => mkElement input (isvalid ele) (isdel ele)).

(** The condition of the loop of [del]. *)
Definition deletable q m : bool :=
  match get_slot q m (pointer q) with
  | Some ele => isvalid ele && isdel ele
  | None => false
  end.

Definition invalidate q m : shm T :=
  set_slot q m (pointer q) (fun ele => mkElement (data ele) false (isdel ele)).

(** The rest of the body: the element is given back. *)
Definition advance q m : queue * shm T * list post :=
  let q := set_credits (set_pointer q (u32 (pointer q + 1))) (u32 (credits q + 1)) in
  if credits q =? CREDITS_PER_RETURN q
  then (set_credits q 0, set_flag m true, post_write q (SIZE * element_size) 1)
  else (q, m, []).

(** [while (ringbuffer[pointer & MASK].isvalid && ... .isdel)]; every turn
    invalidates a slot, so one turn per slot is enough. *)
Fixpoint del_loop (fuel : nat) q m : option (queue * shm T * list post) :=
  if deletable q m then
    match fuel with
    | O => None
    | S fuel =>
        let '(q, m, p1) := advance q (invalidate q m) in
        match del_loop fuel q m with
        | None => None
        | Some (q, m, p2) => Some (q, m, p1 ++ p2)
        end
    end
  else Some (q, m, []).

Definition mark q m (loc : Z) : shm T :=
  set_slot q m loc (fun ele => mkElement (data ele) (isvalid ele) true).

Definition del q m (loc : Z) : option (queue * shm T * list post) :=
  let loc := Z.land loc (MASK q) in
  let m := mark q m loc in
  if loc =? Z.land (pointer q) (MASK q) then del_loop (Z.to_nat SIZE) q m else Some (q, m, []).

Definition pop_nb q m : option (option T * (queue * shm T * list post)) :=
  match get_slot q m (pointer q) with
  | None => None
  | Some ele =>
      if isvalid ele then
        match del q m (Z.land (pointer q) (MASK q)) with
        | None => None
        | Some r => Some (Some (data ele), r)
        end
      else Some (None, (q, m, []))
  end.

Fixpoint isempty_loop (fuel : nat) q m (tmp_tail : Z) : option bool :=
  match fuel, get_slot q m tmp_tail with
  | S fuel, Some curr_blk =>
      if isvalid curr_blk
      then if isdel curr_blk then isempty_loop fuel q m (u32 (tmp_tail + 1)) else Some false
      else Some true
  | _, _ => None
  end.

Definition isempty q m : option bool := isempty_loop (Z.to_nat SIZE) q m (pointer q).

Definition getmemsize : Z := element_size * SIZE + 64.

End ops.

(** ** The two processes

    Each transition makes one access to the shared memory, as the sender in
    [push_nb] and the receiver in [pop_nb] and [del] make them.  [sent] are the
    elements pushed so far, numbered from 0; [freed] of them have been given
    back; [got] are those [pop_nb] took and [dels] those deleted by a [del]
    after a [peek], with the values that were read. *)

Inductive sender_pc (T : Type) :=
  | SIdle
  | SClear (d : T)    (* has taken the returned credits, clears the flag next *)
  | SWrite (d : T).   (* copies the element next *)
Arguments SIdle {T}.
Arguments SClear {T}.
Arguments SWrite {T}.

Inductive receiver_pc (T : Type) :=
  | RIdle
  | RMark (i : nat) (d : T) (popped : bool)   (* sets the deleted bit next *)
  | RLoop                                     (* at the condition of the loop *)
  | RClear                                    (* clears the valid bit next *)
  | RAdv.                                     (* advances the pointer next *)
Arguments RIdle {T}.
Arguments RMark {T}.
Arguments RLoop {T}.
Arguments RClear {T}.
Arguments RAdv {T}.

Record sys (T : Type) := mkSys {
  sq : queue;
  rq : queue;
  mem : shm T;
  spc : sender_pc T;
  rpc : receiver_pc T;
  sent : list T;
  freed : nat;
  got : list (nat * T);
  dels : list (nat * T)
}.
Arguments mkSys {T}.
Arguments sq {T}.
Arguments rq {T}.
Arguments mem {T}.
Arguments spc {T}.
Arguments rpc {T}.
Arguments sent {T}.
Arguments freed {T}.
Arguments got {T}.
Arguments dels {T}.

Section system.
Context {T : Type} `{!Inhabited T} (SIZE : Z).
Implicit Types (s : sys T) (d : T).

Definition initial (zero : T) : sys T :=
  let m := init_mem SIZE (mkShm [] false) zero in
  mkSys (init SIZE m false).1 (init SIZE m true).1 (init SIZE m true).2 SIdle RIdle [] 0 [] [].

Inductive step : sys T -> sys T -> Prop :=
  (* [push_nb]: credits at hand *)
  | step_credit q r m rp h f g x d :
      credits q <> 0 ->
      step (mkSys q r m SIdle rp h f g x) (mkSys q r m (SWrite d) rp h f g x)
  (* reads the flag, set: takes the credits *)
  | step_return q r m rp h f g x d :
      credits q = 0 -> return_flag m = true ->
      step (mkSys q r m SIdle rp h f g x)
           (mkSys (set_credits q (u32 (credits q + CREDITS_PER_RETURN q))) r m (SClear d) rp h f g x)
  | step_clear q r m rp h f g x d :
      step (mkSys q r m (SClear d) rp h f g x) (mkSys q r (set_flag m false) (SWrite d) rp h f g x)
  | step_write q r m rp h f g x d q' m' p :
      put q m d = (q', m', p) ->
      step (mkSys q r m (SWrite d) rp h f g x) (mkSys q' r m' SIdle rp (h ++ [d]) f g x)
  (* [pop_nb] finds an element at the pointer *)
  | step_pop q r m sp h f g x d b :
      peek r m (pointer r) = Some (d, (true, b)) ->
      step (mkSys q r m sp RIdle h f g x) (mkSys q r m sp (RMark f d true) h f g x)
  (* the owner of an iterator, which may be anywhere in the ring, has seen an
     element that is not deleted and calls [del] *)
  | step_del q r m sp h f g x d (i : nat) :
      (f <= i)%nat -> Z.of_nat i < Z.of_nat f + SIZE ->
      peek r m (u32 (Z.of_nat i)) = Some (d, (true, false)) ->
      step (mkSys q r m sp RIdle h f g x) (mkSys q r m sp (RMark i d false) h f g x)
  | step_mark q r m sp h f g x d i (popped : bool) :
      let loc := Z.land (u32 (Z.of_nat i)) (MASK r) in
      step (mkSys q r m sp (RMark i d popped) h f g x)
           (mkSys q r (mark r m loc) sp (if loc =? Z.land (pointer r) (MASK r) then RLoop else RIdle) h f
                  (if popped then g ++ [(i, d)] else g) (if popped then x else x ++ [(i, d)]))
  | step_loop q r m sp h f g x :
      step (mkSys q r m sp RLoop h f g x)
           (mkSys q r m sp (if deletable r m then RClear else RIdle) h f g x)
  | step_invalidate q r m sp h f g x :
      step (mkSys q r m sp RClear h f g x) (mkSys q r (invalidate r m) sp RAdv h f g x)
  | step_advance q r m sp h f g x r' m' p :
      advance SIZE r m = (r', m', p) ->
      step (mkSys q r m sp RAdv h f g x) (mkSys q r' m' sp RLoop h (S f) g x).

Definition reachable (zero : T) : sys T -> Prop := rtc step (initial zero).

End system.

(** ** Invariant *)

Section invariant.
Context {T : Type} `{!Inhabited T} (e : Z) (He : 1 <= e <= 31).
Let SIZE := 2 ^ e.
Let CPR := SIZE / 2 + 1.
Implicit Types (s : sys T) (d : T).

Definition ring_at (m : shm T) (i : Z) : option (element_t T) := ringbuffer m !! Z.to_nat (i mod SIZE).

(** The elements handed to the receiver's callers. *)
Definition taken (g x : list (nat * T)) : list nat := (g ++ x).*1.

(** The oldest element whose valid bit is still set. *)
Definition base (rp : receiver_pc T) (f : nat) : nat :=
  match rp with RAdv => S f | _ => f end.

Definition in_loop (rp : receiver_pc T) : bool :=
  match rp with RIdle | RMark _ _ _ => false | _ => true end.

Definition clearing (sp : sender_pc T) : Z :=
  match sp with SClear _ => CPR | _ => 0 end.

(** The part of the queue that does not change. *)
Definition fixed (q : queue) : Prop :=
  MASK q = SIZE - 1 /\ CREDITS_PER_RETURN q = CPR /\ credit_disabled q = false /\ isRDMA q = None.

Record slots_ok (m : shm T) (h : list T) (lo : nat) (tk : list nat) : Prop := {
  so_len : Z.of_nat (length (ringbuffer m)) = SIZE;
  so_win : (lo <= length h)%nat /\ Z.of_nat (length h) <= Z.of_nat lo + SIZE;
  so_live : forall i : nat, (lo <= i < length h)%nat ->
    exists d, h !! i = Some d /\ ring_at m (Z.of_nat i) = Some (mkElement d true (bool_decide (i ∈ tk)));
  so_free : forall i : Z, Z.of_nat (length h) <= i < Z.of_nat lo + SIZE ->
    exists ele, ring_at m i = Some ele /\ isvalid ele = false
}.

Record inv s : Prop := {
  i_sq : fixed (sq s) /\ pointer (sq s) = u32 (Z.of_nat (length (sent s)));
  i_rq : fixed (rq s) /\ pointer (rq s) = u32 (Z.of_nat (freed s));
  i_slots : slots_ok (mem s) (sent s) (base (rpc s) (freed s)) (taken (got s) (dels s));
  i_credits : credits (sq s) + (Z.of_nat (length (sent s)) - Z.of_nat (freed s)) + credits (rq s)
              + (if return_flag (mem s) then CPR else 0) - clearing (spc s) = SIZE;
  i_nonneg : 0 <= credits (sq s) /\ 0 <= credits (rq s) < CPR;
  i_spc : match spc s with
          | SIdle => True
          | SClear _ => return_flag (mem s) = true /\ credits (sq s) = CPR
          | SWrite _ => 0 < credits (sq s)
          end;
  i_rpc : match rpc s with
          | RMark i d popped => (freed s <= i < length (sent s))%nat /\ sent s !! i = Some d
                                /\ (i ∉ taken (got s) (dels s)) /\ (popped = true -> i = freed s)
          | RClear | RAdv => freed s ∈ taken (got s) (dels s)
          | _ => True
          end;
  i_head : in_loop (rpc s) = false -> (freed s < length (sent s))%nat -> (freed s ∉ taken (got s) (dels s));
  i_taken : NoDup (taken (got s) (dels s)) /\ forall i, i ∈ taken (got s) (dels s) -> (i < length (sent s))%nat;
  i_values : forall i d, (i, d) ∈ (got s ++ dels s) -> sent s !! i = Some d;
  i_gone : forall i : nat, (i < base (rpc s) (freed s))%nat -> i ∈ taken (got s) (dels s);
  i_order : StronglySorted lt (got s).*1 /\ Forall (fun i => (i <= freed s)%nat) (got s).*1
}.

Lemma SIZE_bounds : 2 <= SIZE <= 2 ^ 31 /\ SIZE < 2 * CPR /\ 2 * CPR <= SIZE + 2.
Proof.
  unfold CPR, SIZE. assert (2 ^ 1 <= 2 ^ e) by (apply Z.pow_le_mono_r; lia).
  assert (2 ^ e <= 2 ^ 31) by (apply Z.pow_le_mono_r; lia).
  pose proof (Z.div_mod (2 ^ e) 2 ltac:(lia)). pose proof (Z.mod_pos_bound (2 ^ e) 2 ltac:(lia)). lia.
Qed.

Lemma slot_mask q i : MASK q = SIZE - 1 -> slot q (u32 i) = Z.to_nat (i mod SIZE).
Proof.
  intros HM. unfold slot. rewrite HM. unfold SIZE. rewrite land_pred_pow2 by lia. f_equal.
  apply mod_mod_divide; [apply Z.pow_pos_nonneg; lia|done|]. exists (2 ^ (32 - e)).
  rewrite <- Z.pow_add_r by lia. f_equal. lia.
Qed.

Lemma slot_land q i : MASK q = SIZE - 1 -> slot q (Z.land i (MASK q)) = slot q i.
Proof. intros HM. unfold slot. by rewrite <- Z.land_assoc, Z.land_diag. Qed.

Lemma get_slot_at q m i : MASK q = SIZE - 1 -> get_slot q m (u32 i) = ring_at m i.
Proof. intros HM. unfold get_slot. by rewrite slot_mask. Qed.

Lemma ring_at_alter m f (i j : Z) :
  ring_at (mkShm (alter f (Z.to_nat (i mod SIZE)) (ringbuffer m)) (return_flag m)) j
  = if decide (i mod SIZE = j mod SIZE) then f <$> ring_at m j else ring_at m j.
Proof.
  pose proof SIZE_bounds. unfold ring_at. simpl.
  pose proof (Z.mod_pos_bound i SIZE ltac:(lia)). pose proof (Z.mod_pos_bound j SIZE ltac:(lia)).
  destruct (decide (i mod SIZE = j mod SIZE)) as [->|Hne]; [apply list_lookup_alter_eq|].
  apply list_lookup_alter_ne. lia.
Qed.

(** Positions of one lap have different slots. *)
Lemma mod_lap a i j : a <= i < a + SIZE -> a <= j < a + SIZE -> i mod SIZE = j mod SIZE -> i = j.
Proof.
  intros Hi Hj. pose proof SIZE_bounds. destruct (Z.lt_trichotomy i j) as [Hlt|[->|Hlt]]; [|done|]; intros E.
  - destruct (mod_inj_close j i SIZE); lia.
  - destruct (mod_inj_close i j SIZE); lia.
Qed.

(** ** The slots under the three writes *)

Lemma slots_flag m h lo tk b : slots_ok m h lo tk -> slots_ok (set_flag m b) h lo tk.
Proof. by intros [H1 H2 H3 H4]. Qed.

Lemma slots_taken m h lo tk tk' :
  (forall i, i ∈ tk <-> i ∈ tk') -> slots_ok m h lo tk -> slots_ok m h lo tk'.
Proof.
  intros Ht [H1 H2 H3 H4]. split; [done|done| |done]. intros i Hi. destruct (H3 i Hi) as (d & Hd & Hr).
  exists d. split; [done|]. by rewrite <- (bool_decide_ext (i ∈ tk) (i ∈ tk') (Ht i)).
Qed.

Lemma slots_put q m h lo tk d :
  MASK q = SIZE - 1 -> slots_ok m h lo tk -> Z.of_nat (length h) < Z.of_nat lo + SIZE ->
  (length h ∉ tk) ->
  slots_ok (set_slot q m (u32 (Z.of_nat (length h))) (fun _ => mkElement d true false)) (h ++ [d]) lo tk.
Proof.
  intros HM [H1 H2 H3 H4] Hroom Ht. unfold set_slot. rewrite slot_mask by done. pose proof SIZE_bounds.
  split; rewrite ?length_app; simpl; [by rewrite length_alter|lia| |].
  - intros i Hi. rewrite ring_at_alter. destruct (decide (i = length h)) as [->|Hne].
    + exists d. rewrite decide_True by done. rewrite lookup_app_r, Nat.sub_diag by done. split; [done|].
      destruct (H4 (Z.of_nat (length h)) ltac:(lia)) as (ele & -> & _). simpl. by rewrite bool_decide_false.
    + destruct (H3 i ltac:(lia)) as (d' & Hd' & Hr). exists d'. split; [rewrite lookup_app_l by lia; done|].
      rewrite decide_False; [done|]. intros E%(mod_lap (Z.of_nat lo)); lia.
  - intros i Hi. destruct (H4 i ltac:(lia)) as (ele & Hele & Hv). exists ele. split; [|done].
    rewrite ring_at_alter, decide_False; [done|]. intros E%(mod_lap (Z.of_nat lo)); lia.
Qed.

Lemma slots_mark r m h lo tk tk' (i : nat) :
  MASK r = SIZE - 1 -> slots_ok m h lo tk -> (lo <= i < length h)%nat ->
  (forall j, j ∈ tk' <-> j ∈ tk \/ j = i) ->
  slots_ok (mark r m (Z.land (u32 (Z.of_nat i)) (MASK r))) h lo tk'.
Proof.
  intros HM [H1 H2 H3 H4] Hi Ht. unfold mark, set_slot. rewrite slot_land, slot_mask by done. pose proof SIZE_bounds.
  split; simpl; [by rewrite length_alter|done| |].
  - intros j Hj. rewrite ring_at_alter. destruct (H3 j Hj) as (d & Hd & Hr). exists d. split; [done|].
    destruct (decide (i = j)) as [->|Hne].
    + rewrite decide_True by done. rewrite Hr. simpl. rewrite bool_decide_true; [done|]. apply Ht. by right.
    + rewrite decide_False by (intros E%(mod_lap (Z.of_nat lo)); lia). rewrite Hr. do 2 f_equal.
      apply bool_decide_ext. rewrite Ht. naive_solver.
  - intros j Hj. destruct (H4 j Hj) as (ele & Hele & Hv). exists ele. split; [|done].
    rewrite ring_at_alter, decide_False; [done|]. intros E%(mod_lap (Z.of_nat lo)); lia.
Qed.

Lemma slots_invalidate r m h lo tk :
  MASK r = SIZE - 1 -> pointer r = u32 (Z.of_nat lo) -> slots_ok m h lo tk -> (lo < length h)%nat ->
  slots_ok (invalidate r m) h (S lo) tk.
Proof.
  intros HM Hp [H1 H2 H3 H4] Hlo. unfold invalidate, set_slot. rewrite Hp, slot_mask by done. pose proof SIZE_bounds.
  split; simpl; [by rewrite length_alter|lia| |].
  - intros j Hj. destruct (H3 j ltac:(lia)) as (d & Hd & Hr). exists d. split; [done|].
    rewrite ring_at_alter, decide_False; [done|]. intros E%(mod_lap (Z.of_nat lo)); lia.
  - intros j Hj. rewrite ring_at_alter. destruct (decide (Z.of_nat lo mod SIZE = j mod SIZE)) as [E|Hne].
    + destruct (H3 lo ltac:(lia)) as (d & Hd & Hr). unfold ring_at in *. rewrite <- E, Hr. by eexists.
    + apply H4. split; [lia|]. destruct (decide (j = Z.of_nat lo + SIZE)) as [->|]; [|lia].
      destruct Hne. replace (Z.of_nat lo + SIZE) with (Z.of_nat lo + 1 * SIZE) by lia. by rewrite Z.mod_add by lia.
Qed.

(** What a [peek] of the receiver says about the numbered elements. *)
Lemma peek_live r m h lo tk (i : nat) d b :
  MASK r = SIZE - 1 -> slots_ok m h lo tk -> (lo <= i)%nat -> Z.of_nat i < Z.of_nat lo + SIZE ->
  peek r m (u32 (Z.of_nat i)) = Some (d, (true, b)) ->
  (i < length h)%nat /\ h !! i = Some d /\ b = bool_decide (i ∈ tk).
Proof.
  intros HM Hs Hlo Hi. unfold peek. rewrite get_slot_at by done.
  destruct (decide (i < length h)%nat) as [Hlt|Hge].
  - destruct (so_live _ _ _ _ Hs i ltac:(lia)) as (d' & Hd' & ->). simpl. intros [=]; by subst.
  - destruct (so_free _ _ _ _ Hs (Z.of_nat i) ltac:(lia)) as (ele & -> & Hv). rewrite Hv. by intros [=].
Qed.

Lemma deletable_live r m h lo tk :
  MASK r = SIZE - 1 -> pointer r = u32 (Z.of_nat lo) -> slots_ok m h lo tk ->
  deletable r m = bool_decide ((lo < length h)%nat /\ lo ∈ tk).
Proof.
  intros HM Hp Hs. unfold deletable. rewrite Hp, get_slot_at by done. pose proof SIZE_bounds.
  destruct (decide (lo < length h)%nat) as [Hlt|Hge].
  - destruct (so_live _ _ _ _ Hs lo ltac:(lia)) as (d' & Hd' & ->). simpl. apply bool_decide_ext. naive_solver.
  - destruct (so_free _ _ _ _ Hs (Z.of_nat lo) ltac:(lia)) as (ele & -> & ->). symmetry. apply bool_decide_false. naive_solver.
Qed.

(** ** Preservation *)

Lemma inv_initial zero : inv (initial SIZE zero).
Proof.
  pose proof SIZE_bounds as HS. unfold initial, init, init_mem. simpl.
  assert (Hr : forall i, ring_at (mkShm (replicate (Z.to_nat SIZE) (mkElement zero false false)) false) i
                         = Some (mkElement zero false false)).
  { intros i. unfold ring_at. simpl. apply lookup_replicate_2. pose proof (Z.mod_pos_bound i SIZE ltac:(lia)). lia. }
  split; simpl; try done; [|lia|lia|lia| | |lia|split; constructor].
  - split; simpl; [rewrite length_replicate; lia|lia|lia|]. intros i _. eexists. split; [apply Hr|done].
  - split; [constructor|]. intros i Hi. by apply not_elem_of_nil in Hi.
  - intros i d Hi. by apply not_elem_of_nil in Hi.
Qed.

Lemma inv_credit q r m rp h f g x d :
  inv (mkSys q r m SIdle rp h f g x) -> credits q <> 0 -> inv (mkSys q r m (SWrite d) rp h f g x).
Proof. intros [H1 H2 H3 H4 H5 H6 H7 H8 H9 H10 H11 H12] Hc. split; try done. simpl in *. lia. Qed.

Lemma inv_return q r m rp h f g x d :
  inv (mkSys q r m SIdle rp h f g x) -> credits q = 0 -> return_flag m = true ->
  inv (mkSys (set_credits q (u32 (credits q + CREDITS_PER_RETURN q))) r m (SClear d) rp h f g x).
Proof.
  intros [H1 H2 H3 H4 H5 H6 H7 H8 H9 H10 H11 H12] Hc Hf. pose proof SIZE_bounds. simpl in *.
  destruct H1 as [(HM & HC & HD & HR) Hp]. rewrite Hc, HC. rewrite uwrap_small by (unfold is_uint; lia).
  rewrite Hf in *. split; simpl; try done; try lia. rewrite Hf. lia.
Qed.

Lemma inv_clear q r m rp h f g x d :
  inv (mkSys q r m (SClear d) rp h f g x) -> inv (mkSys q r (set_flag m false) (SWrite d) rp h f g x).
Proof.
  intros [H1 H2 H3 H4 H5 [H6 H6'] H7 H8 H9 H10 H11 H12]. pose proof SIZE_bounds. simpl in *. rewrite H6 in H4.
  split; simpl; try done; try lia; try (by apply slots_flag).
Qed.

Lemma inv_write q r m rp h f g x d q' m' p :
  inv (mkSys q r m (SWrite d) rp h f g x) -> put q m d = (q', m', p) ->
  inv (mkSys q' r m' SIdle rp (h ++ [d]) f g x).
Proof.
  intros [H1 H2 H3 H4 H5 H6 H7 H8 [H9 H9'] H10 H11 H12] [= <- <- _]. pose proof SIZE_bounds. simpl in *.
  destruct H1 as [(HM & HC & HD & HR) Hp].
  assert (Hflag : 0 <= (if return_flag m then CPR else 0)) by (destruct (return_flag m); lia).
  assert (Hfb : (f <= base rp f)%nat) by (destruct rp; simpl; lia).
  pose proof (so_win _ _ _ _ H3) as Hwin.
  assert (Hnew : (length h ∉ taken g x)) by (intros Hin%H9'; lia).
  assert (Hlook : forall i (d' : T), h !! i = Some d' -> (h ++ [d]) !! i = Some d').
  { intros i d' Hi. by apply lookup_app_l_Some. }
  split; simpl; rewrite ?length_app; simpl; try done.
  - split; [done|]. rewrite Hp, uwrap_add_l. f_equal. lia.
  - rewrite Hp. by apply slots_put; [| |lia|].
  - rewrite uwrap_small by (unfold is_uint; lia). lia.
  - rewrite uwrap_small by (unfold is_uint; lia). lia.
  - destruct rp as [|i d' popped| | |]; try done. destruct H7 as (Hi & Hs & Hn & Hpop).
    split; [lia|]. split; [by apply Hlook|]. done.
  - intros Hl Hlt. destruct (decide (f = length h)) as [->|]; [done|]. apply H8; [done|lia].
  - split; [done|]. intros i Hi%H9'. lia.
  - intros i d' Hin. by apply Hlook, H10.
Qed.

Lemma inv_pop q r m sp h f g x d b :
  inv (mkSys q r m sp RIdle h f g x) -> peek r m (pointer r) = Some (d, (true, b)) ->
  inv (mkSys q r m sp (RMark f d true) h f g x).
Proof.
  intros [H1 H2 H3 H4 H5 H6 H7 H8 H9 H10 H11 H12] Hpk. pose proof SIZE_bounds. simpl in *.
  destruct H2 as [(HM & HC & HD & HR) Hp]. rewrite Hp in Hpk.
  destruct (peek_live r m h f _ f d b HM H3 ltac:(lia) ltac:(lia) Hpk) as (Hlt & Hd & _).
  split; simpl; try done. split_and!; [lia|lia|done|by apply H8|done].
Qed.

Lemma inv_del q r m sp h f g x d (i : nat) :
  inv (mkSys q r m sp RIdle h f g x) -> (f <= i)%nat -> Z.of_nat i < Z.of_nat f + SIZE ->
  peek r m (u32 (Z.of_nat i)) = Some (d, (true, false)) ->
  inv (mkSys q r m sp (RMark i d false) h f g x).
Proof.
  intros [H1 H2 H3 H4 H5 H6 H7 H8 H9 H10 H11 H12] Hi Hi' Hpk. simpl in *.
  destruct H2 as [(HM & HC & HD & HR) Hp].
  destruct (peek_live r m h f _ i d false HM H3 Hi Hi' Hpk) as (Hlt & Hd & Hb).
  split; simpl; try done. split_and!; [lia|lia|done| |done].
  symmetry in Hb. by apply bool_decide_eq_false in Hb.
Qed.

Lemma taken_snoc g x (i : nat) d popped (j : nat) :
  j ∈ taken (if popped : bool then g ++ [(i, d)] else g) (if popped then x else x ++ [(i, d)])
  <-> j ∈ taken g x \/ j = i.
Proof.
  unfold taken. rewrite !fmap_app, !elem_of_app.
  destruct popped; rewrite fmap_app, elem_of_app; simpl; rewrite list_elem_of_singleton; tauto.
Qed.

Lemma taken_snoc_perm g x (i : nat) d popped :
  taken (if popped : bool then g ++ [(i, d)] else g) (if popped then x else x ++ [(i, d)]) ≡ₚ i :: taken g x.
Proof. unfold taken. destruct popped; rewrite !fmap_app; simpl; solve_Permutation. Qed.

Lemma sorted_snoc (l : list nat) i :
  StronglySorted lt l -> Forall (fun j => (j < i)%nat) l -> StronglySorted lt (l ++ [i]).
Proof.
  induction l as [|y l IH]; simpl; intros Hs Hf; [by repeat constructor|].
  apply StronglySorted_inv in Hs as [Hs Hy]. apply Forall_cons in Hf as [Hyi Hf].
  constructor; [by apply IH|]. apply Forall_app. split; [done|]. by repeat constructor.
Qed.

Lemma inv_mark q r m sp h f g x d i popped :
  inv (mkSys q r m sp (RMark i d popped) h f g x) ->
  let loc := Z.land (u32 (Z.of_nat i)) (MASK r) in
  inv (mkSys q r (mark r m loc) sp (if loc =? Z.land (pointer r) (MASK r) then RLoop else RIdle) h f
         (if popped then g ++ [(i, d)] else g) (if popped then x else x ++ [(i, d)])).
Proof.
  intros [H1 H2 H3 H4 H5 H6 H7 H8 [H9 H9'] H10 H11 [H12 H12']] loc. pose proof SIZE_bounds. simpl in *.
  destruct H2 as [(HM & HC & HD & HR) Hp]. destruct H7 as (Hi & Hd & Hn & Hpop).
  set (rp := if loc =? _ then RLoop else RIdle). assert (Hb : base rp f = f) by (unfold rp; by destruct (_ =? _)).
  split; simpl; rewrite ?Hb; try done.
  - eapply slots_mark; [done|done|done|]. intros j. apply taken_snoc.
  - unfold rp. by destruct (_ =? _).
  - intros Hl Hlt. rewrite taken_snoc. intros [Hin| ->]; [by apply H8|].
    revert Hl. unfold rp, loc. rewrite Hp, Z.eqb_refl. done.
  - split; [rewrite taken_snoc_perm; by constructor|]. intros j. rewrite taken_snoc. intros [Hj| ->]; [by apply H9'|lia].
  - intros j d'. destruct popped; rewrite ?app_assoc, !elem_of_app, ?list_elem_of_singleton.
    + intros [[Hj|[=-> ->]]|Hj]; [apply H10; apply elem_of_app; by left|done|apply H10; apply elem_of_app; by right].
    + intros [[Hj|Hj]|[=-> ->]]; [apply H10; apply elem_of_app; by left|apply H10; apply elem_of_app; by right|done].
  - intros j Hj. rewrite taken_snoc. left. by apply H11.
  - destruct popped; [|done]. rewrite fmap_app. simpl. rewrite (Hpop eq_refl) in *. split.
    + apply sorted_snoc; [done|]. apply Forall_forall. intros j Hj. rewrite Forall_forall in H12'.
      specialize (H12' j Hj). destruct (decide (j = f)) as [->|]; [|lia]. destruct Hn. unfold taken.
      rewrite fmap_app. apply elem_of_app. by left.
    + apply Forall_app. split; [done|]. by repeat constructor.
Qed.

Lemma inv_loop q r m sp h f g x :
  inv (mkSys q r m sp RLoop h f g x) ->
  inv (mkSys q r m sp (if deletable r m then RClear else RIdle) h f g x).
Proof.
  intros [H1 H2 H3 H4 H5 H6 H7 H8 H9 H10 H11 H12]. simpl in *. destruct H2 as [(HM & HC & HD & HR) Hp].
  rewrite (deletable_live r m h f (taken g x) HM Hp H3).
  destruct (bool_decide _) eqn:E; [apply bool_decide_eq_true in E|apply bool_decide_eq_false in E];
    split; simpl; try done; naive_solver.
Qed.

Lemma inv_invalidate q r m sp h f g x :
  inv (mkSys q r m sp RClear h f g x) -> inv (mkSys q r (invalidate r m) sp RAdv h f g x).
Proof.
  intros [H1 H2 H3 H4 H5 H6 H7 H8 [H9 H9'] H10 H11 H12]. simpl in *. destruct H2 as [(HM & HC & HD & HR) Hp].
  split; simpl; try done; [by apply slots_invalidate; [..|apply H9']|].
  intros i Hi. destruct (decide (i = f)) as [->|]; [done|]. apply H11. lia.
Qed.

Lemma inv_advance q r m sp h f g x r' m' p :
  inv (mkSys q r m sp RAdv h f g x) -> advance SIZE r m = (r', m', p) ->
  inv (mkSys q r' m' sp RLoop h (S f) g x).
Proof.
  intros [H1 H2 H3 H4 H5 H6 H7 H8 [H9 H9'] H10 H11 [H12 H12']] Ha. pose proof SIZE_bounds. simpl in *.
  destruct H2 as [(HM & HC & HD & HR) Hp]. pose proof (so_win _ _ _ _ H3) as Hwin.
  assert (Hp' : u32 (pointer r + 1) = u32 (Z.of_nat (S f))) by (rewrite Hp, uwrap_add_l; f_equal; lia).
  assert (Hle : Forall (fun i => (i <= S f)%nat) g.*1) by (eapply Forall_impl; [done|]; simpl; lia).
  assert (Hcl : 0 <= clearing sp <= credits q).
  { destruct sp; simpl in *; lia. }
  unfold advance in Ha. simpl in Ha. rewrite (uwrap_small 32 (credits r + 1)), HC in Ha by (unfold is_uint; lia).
  destruct (Z.eqb_spec (credits r + 1) CPR) as [E|E]; injection Ha as <- <- _.
  - assert (Hf : return_flag m = false).
    { destruct (return_flag m); [|done]. exfalso. destruct sp; simpl in *; lia. }
    rewrite Hf in *. split; simpl; try done; try lia; [by apply slots_flag|].
    destruct sp; simpl in *; naive_solver.
  - split; simpl; try done; lia.
Qed.

Lemma inv_step s s' : inv s -> step SIZE s s' -> inv s'.
Proof.
  intros Hi Hs. destruct Hs.
  - by apply inv_credit.
  - by apply inv_return.
  - by eapply inv_clear.
  - by eapply inv_write.
  - by eapply inv_pop.
  - by eapply inv_del.
  - by apply inv_mark.
  - by apply inv_loop.
  - by apply inv_invalidate.
  - by eapply inv_advance.
Qed.

Lemma inv_reachable zero s : reachable SIZE zero s -> inv s.
Proof.
  intros H. assert (Hgen : forall a b, rtc (step SIZE) a b -> inv a -> inv b).
  { induction 1; [done|]. intros Ha. eauto using inv_step. }
  exact (Hgen _ _ H (inv_initial zero)).
Qed.

(** ** The queue as a list

    The elements in the ring, oldest first, with their deleted bits. *)

Definition window (h : list T) (f : nat) (tk : list nat) : list (T * bool) :=
  imap (fun k d => (d, bool_decide ((f + k)%nat ∈ tk))) (drop f h).

(** The effect of the loop of [del]. *)
Fixpoint drop_deleted (l : list (T * bool)) : list (T * bool) :=
  match l with
  | (_, true) :: l => drop_deleted l
  | _ => l
  end.

Lemma window_lookup h f tk k :
  window h f tk !! k = (fun d => (d, bool_decide ((f + k)%nat ∈ tk))) <$> h !! (f + k)%nat.
Proof. unfold window. by rewrite list_lookup_imap, lookup_drop. Qed.

Lemma window_cons h f tk d :
  h !! f = Some d -> window h f tk = (d, bool_decide (f ∈ tk)) :: window h (S f) tk.
Proof.
  intros Hd. apply list_eq. intros [|k]; rewrite window_lookup; simpl.
  - by rewrite Nat.add_0_r, Hd.
  - rewrite window_lookup. by rewrite Nat.add_succ_r.
Qed.

Lemma window_nil h f tk : (length h <= f)%nat -> window h f tk = [].
Proof. intros Hf. unfold window. by rewrite drop_ge. Qed.

Lemma window_length h f tk : length (window h f tk) = (length h - f)%nat.
Proof. unfold window. by rewrite length_imap, length_drop. Qed.

(** ** The calls are runs of these transitions *)

Lemma del_loop_run fuel q r m sp h f g x :
  inv (mkSys q r m sp RLoop h f g x) -> (length h - f <= fuel)%nat ->
  exists r' m' f', del_loop SIZE fuel r m = Some (r', m', [])
    /\ rtc (step SIZE) (mkSys q r m sp RLoop h f g x) (mkSys q r' m' sp RIdle h f' g x)
    /\ window h f' (taken g x) = drop_deleted (window h f (taken g x)).
Proof.
  revert r m f. induction fuel as [|fuel IH]; intros r m f Hi Hfuel; pose proof (inv_loop _ _ _ _ _ _ _ _ Hi) as Hi1;
    pose proof (step_loop SIZE q r m sp h f g x) as Hs1; cbn [del_loop];
    pose proof Hi as [_ [(HM & _ & _ & HR) Hp] H3 _ _ _ _ _ _ _ _ _]; simpl in *;
    pose proof (deletable_live r m h f (taken g x) HM Hp H3) as Hdl.
  - destruct (deletable r m) eqn:E; [symmetry in Hdl; apply bool_decide_eq_true in Hdl; lia|].
    exists r, m, f. split; [done|]. split; [by apply rtc_once|]. by rewrite window_nil by lia.
  - destruct (deletable r m) eqn:E.
    2: { exists r, m, f. split; [done|]. split; [by apply rtc_once|].
         destruct (h !! f) as [d|] eqn:Hd; [|by rewrite window_nil by (by apply lookup_ge_None)].
         rewrite (window_cons h f _ d Hd). symmetry in Hdl. apply bool_decide_eq_false in Hdl.
         rewrite bool_decide_false; [done|]. intros Hin. apply Hdl. split; [by eapply lookup_lt_Some|done]. }
    pose proof (inv_invalidate _ _ _ _ _ _ _ _ Hi1) as Hi2.
    destruct (advance SIZE r (invalidate r m)) as [[r1 m1] p1] eqn:Ha.
    pose proof (inv_advance _ _ _ _ _ _ _ _ _ _ _ Hi2 Ha) as Hi3.
    destruct (IH r1 m1 (S f) Hi3 ltac:(lia)) as (r' & m' & f' & -> & Hrun & Hw). exists r', m', f'.
    assert (p1 = []) as ->.
    { unfold advance, post_write in Ha. simpl in Ha. rewrite HR in Ha. by destruct (_ =? _); injection Ha as _ _ <-. }
    split; [done|]. split.
    + eapply rtc_l; [exact Hs1|]. eapply rtc_l; [apply step_invalidate|].
      eapply rtc_l; [by eapply step_advance|]. exact Hrun.
    + symmetry in Hdl. apply bool_decide_eq_true in Hdl as [Hlt Hin].
      destruct (lookup_lt_is_Some_2 h f Hlt) as [d Hd]. rewrite (window_cons h f _ d Hd).
      by rewrite bool_decide_true.
Qed.

Lemma pop_nb_run q r m sp h f g x :
  inv (mkSys q r m sp RIdle h f g x) ->
  exists r' m' f', pop_nb SIZE r m = Some (h !! f, (r', m', []))
    /\ rtc (step SIZE) (mkSys q r m sp RIdle h f g x)
         (mkSys q r' m' sp RIdle h f' (g ++ match h !! f with Some d => [(f, d)] | None => [] end) x).
Proof.
  intros Hi. pose proof Hi as [_ [(HM & _) Hp] Hs _ _ _ _ _ _ _ _ _]. simpl in *. pose proof SIZE_bounds.
  pose proof (so_win _ _ _ _ Hs) as Hwin. unfold pop_nb. rewrite Hp, get_slot_at by done.
  destruct (decide (f < length h)%nat) as [Hlt|Hge].
  - destruct (so_live _ _ _ _ Hs f ltac:(lia)) as (d & Hd & Hr). rewrite Hr, Hd. cbn [isvalid data].
    assert (Hpk : peek r m (pointer r) = Some (d, (true, bool_decide (f ∈ taken g x)))).
    { unfold peek. by rewrite Hp, get_slot_at, Hr. }
    pose proof (inv_pop _ _ _ _ _ _ _ _ _ _ Hi Hpk) as Hi1. pose proof (inv_mark _ _ _ _ _ _ _ _ _ _ _ Hi1) as Hi2.
    pose proof (step_mark SIZE q r m sp h f g x d f true) as Hsm. simpl in Hi2, Hsm.
    unfold del. rewrite Hp in *. rewrite Z.eqb_refl in *.
    rewrite <- Z.land_assoc, Z.land_diag. rewrite Z.eqb_refl.
    destruct (del_loop_run (Z.to_nat SIZE) _ _ _ _ _ _ _ _ Hi2 ltac:(lia)) as (r' & m' & f' & -> & Hrun & _).
    exists r', m', f'. split; [done|]. eapply rtc_l; [by eapply step_pop; rewrite Hp|]. eapply rtc_l; [exact Hsm|]. exact Hrun.
  - destruct (so_free _ _ _ _ Hs (Z.of_nat f) ltac:(lia)) as (ele & -> & ->).
    rewrite (lookup_ge_None_2 h f) by lia. exists r, m, f. split; [done|]. rewrite app_nil_r. apply rtc_refl.
Qed.

Lemma push_nb_run q r m rp h f g x d :
  inv (mkSys q r m SIdle rp h f g x) ->
  exists b q' m', push_nb q m d = (b, (q', m', []))
    /\ rtc (step SIZE) (mkSys q r m SIdle rp h f g x)
         (mkSys q' r m' SIdle rp (h ++ if b : bool then [d] else []) f g x)
    /\ (b = false -> SIZE / 2 <= Z.of_nat (length h - f)).
Proof.
  intros Hi. pose proof Hi as [[(HM & HC & HD & HR) Hp] _ _ Hcr [Hc1 Hc2] _ _ _ _ _ _ _]. simpl in *. pose proof SIZE_bounds.
  assert (Hput : forall q m, isRDMA q = None -> exists q' m', put q m d = (q', m', [])).
  { intros q0 m0 H0. unfold put, post_write. simpl. rewrite H0. by eexists _, _. }
  unfold push_nb, take_credits. rewrite HD. simpl. destruct (Z.eqb_spec (credits q) 0) as [Hz|Hz].
  - destruct (return_flag m) eqn:Hf.
    + set (q1 := set_credits q _). destruct (Hput q1 (set_flag m false) HR) as (q' & m' & Hpt). rewrite Hpt.
      exists true, q', m'. split; [done|]. split; [|done]. eapply rtc_l; [by eapply (step_return _ _ _ _ _ _ _ _ _ d)|].
      eapply rtc_l; [apply step_clear|]. apply rtc_once. by eapply step_write.
    + exists false, q, m. split; [done|]. rewrite app_nil_r. split; [apply rtc_refl|]. intros _.
      pose proof (so_win _ _ _ _ (i_slots _ Hi)) as Hw. simpl in Hw.
      assert (f <= base rp f)%nat by (destruct rp; simpl; lia). unfold CPR in *. lia.
  - destruct (Hput q m HR) as (q' & m' & Hpt). rewrite Hpt. exists true, q', m'. split; [done|]. split; [|done].
    eapply rtc_l; [by eapply (step_credit _ _ _ _ _ _ _ _ _ d)|]. apply rtc_once. by eapply step_write.
Qed.

(** [isempty] of an idle receiver. *)
Lemma isempty_run q r m sp h f g x :
  inv (mkSys q r m sp RIdle h f g x) -> isempty SIZE r m = Some (bool_decide (f = length h)).
Proof.
  intros [_ [(HM & _) Hp] Hs _ _ _ _ Hh _ _ _ _]. simpl in *. pose proof SIZE_bounds.
  pose proof (so_win _ _ _ _ Hs). unfold isempty. destruct (Z.to_nat SIZE) as [|n] eqn:En; [lia|]. cbn [isempty_loop].
  rewrite Hp, get_slot_at by done. destruct (decide (f < length h)%nat) as [Hlt|Hge].
  - destruct (so_live _ _ _ _ Hs f ltac:(lia)) as (d & Hd & ->). cbn [isvalid isdel].
    rewrite (bool_decide_false (f ∈ taken g x)) by (by apply Hh). rewrite bool_decide_false by lia. done.
  - destruct (so_free _ _ _ _ Hs (Z.of_nat f) ltac:(lia)) as (ele & -> & ->). by rewrite bool_decide_true by lia.
Qed.

Lemma sorted_closed_seq (l : list nat) :
  StronglySorted lt l -> (forall i j, i ∈ l -> (j < i)%nat -> j ∈ l) -> l = seq 0 (length l).
Proof.
  induction l as [|y l IH] using rev_ind; [done|]. intros Hs Hc.
  assert (Hsl : StronglySorted lt l /\ Forall (fun i => (i < y)%nat) l).
  { clear -Hs. induction l as [|z l IH]; [by split; constructor|]. simpl in Hs.
    apply StronglySorted_inv in Hs as [Hs Hz]. destruct (IH Hs) as [H1 H2]. apply Forall_app in Hz as [Hz1 Hz2].
    split; constructor; try done. by apply Forall_cons in Hz2 as [? _]. }
  destruct Hsl as [Hsl Hlt]. rewrite Forall_forall in Hlt.
  assert (Hl : l = seq 0 (length l)).
  { apply IH; [done|]. intros i j Hi Hj. pose proof (Hlt i Hi).
    assert (Hin : j ∈ (l ++ [y])) by (apply (Hc i); [apply elem_of_app; by left|done]).
    apply elem_of_app in Hin as [?|Hin]; [done|]. apply list_elem_of_singleton in Hin. lia. }
  assert (y = length l) as ->.
  { destruct (Nat.lt_trichotomy y (length l)) as [H|[H|H]]; [|done|]; exfalso.
    - assert (Hin : y ∈ l) by (rewrite Hl; apply elem_of_seq; lia). specialize (Hlt _ Hin). lia.
    - assert (Hin : length l ∈ (l ++ [y])) by (apply (Hc y); [apply elem_of_app; right; by left|done]).
      apply elem_of_app in Hin as [Hin|Hin]; [|apply list_elem_of_singleton in Hin; lia].
      rewrite Hl in Hin at 2. apply elem_of_seq in Hin. lia. }
  rewrite length_app. simpl. rewrite seq_app. simpl. by rewrite <- Hl.
Qed.

(** Without out-of-order deletions the values popped are a prefix. *)
Lemma got_prefix s : inv s -> dels s = [] -> (got s).*2 `prefix_of` sent s.
Proof.
  intros [_ _ _ _ _ _ _ _ [_ Hlt] Hv Hg [Hs Hle]] Hd. rewrite Hd in *. unfold taken in *. rewrite app_nil_r in *.
  assert (Hseq : (got s).*1 = seq 0 (length (got s).*1)).
  { apply sorted_closed_seq; [done|]. intros i j Hi Hj. apply Hg. rewrite Forall_forall in Hle.
    specialize (Hle i Hi). destruct (rpc s); simpl; lia. }
  exists (drop (length (got s)) (sent s)). rewrite <- (take_drop (length (got s)) (sent s)) at 1. f_equal.
  apply list_eq. intros k. rewrite list_lookup_fmap. destruct (got s !! k) as [[i d]|] eqn:E.
  - assert (i = k) as ->.
    { assert (Hk : (got s).*1 !! k = Some i) by (rewrite list_lookup_fmap, E; done).
      rewrite Hseq, lookup_seq in Hk. lia. }
    pose proof (lookup_lt_Some _ _ _ E). rewrite lookup_take_lt by done. simpl. apply Hv. by eapply list_elem_of_lookup_2.
  - rewrite lookup_take_ge; [done|]. by apply lookup_ge_None.
Qed.

(** ** Between the calls: refinement of the list *)

Definition queue_rep (q r : queue) (m : shm T) (l : list (T * bool)) : Prop :=
  exists h f g x, inv (mkSys q r m SIdle RIdle h f g x) /\ l = window h f (taken g x).

Lemma inv_rtc s s' : rtc (step SIZE) s s' -> inv s -> inv s'.
Proof. induction 1; [done|]. intros Ha. eauto using inv_step. Qed.

Lemma window_push h f tk d : (f <= length h)%nat -> (length h ∉ tk) ->
  window (h ++ [d]) f tk = window h f tk ++ [(d, false)].
Proof.
  intros Hf Hn. unfold window. rewrite drop_app_le by done. rewrite imap_app, length_drop. simpl. do 2 f_equal.
  rewrite bool_decide_false; [done|]. by replace (f + (length h - f + 0))%nat with (length h) by lia.
Qed.

Lemma window_mark h f tk tk' (k : nat) d :
  h !! (f + k)%nat = Some d -> (forall j, j ∈ tk' <-> j ∈ tk \/ j = (f + k)%nat) ->
  window h f tk' = <[k := (d, true)]> (window h f tk).
Proof.
  intros Hd Ht. apply list_eq. intros j. pose proof (lookup_lt_Some _ _ _ Hd). rewrite window_lookup.
  destruct (decide (j = k)) as [->|Hne].
  - rewrite list_lookup_insert_eq by (rewrite window_length; lia). rewrite Hd. simpl.
    rewrite bool_decide_true; [done|]. apply Ht. by right.
  - rewrite list_lookup_insert_ne by done. rewrite window_lookup. destruct (h !! (f + j)%nat); [|done]. simpl.
    do 2 f_equal. apply bool_decide_ext. rewrite Ht. split; [intros [?|]; [done|lia]|by left].
Qed.

Lemma window_set h f tk (k : nat) d0 d b :
  window h f tk !! k = Some (d0, b) -> window (<[(f + k)%nat := d]> h) f tk = <[k := (d, b)]> (window h f tk).
Proof.
  intros Hk. pose proof (lookup_lt_Some _ _ _ Hk) as Hl. rewrite window_length in Hl. rewrite window_lookup in Hk.
  apply list_eq. intros j. rewrite window_lookup. destruct (decide (j = k)) as [->|Hne].
  - rewrite !list_lookup_insert_eq by (rewrite ?window_length; lia). simpl.
    destruct (h !! (f + k)%nat); by simplify_eq/=.
  - rewrite !list_lookup_insert_ne by lia. by rewrite window_lookup.
Qed.

Lemma rep_push q r m l d :
  queue_rep q r m l ->
  exists b q' m', push_nb q m d = (b, (q', m', []))
    /\ queue_rep q' r m' (if b : bool then l ++ [(d, false)] else l) /\ (b = false -> SIZE / 2 <= Z.of_nat (length l)).
Proof.
  intros (h & f & g & x & Hi & ->). destruct (push_nb_run q r m RIdle h f g x d Hi) as (b & q' & m' & Hp & Hr & Hb).
  exists b, q', m'. split; [done|]. rewrite window_length. split; [|done].
  eexists _, f, g, x. split; [exact (inv_rtc _ _ Hr Hi)|]. destruct b; [|by rewrite app_nil_r].
  pose proof (so_win _ _ _ _ (i_slots _ Hi)). symmetry. apply window_push; [simpl in *; lia|].
  intros Hin%(proj2 (i_taken _ Hi)). simpl in Hin. lia.
Qed.

Lemma rep_peek q r m l (k : nat) :
  queue_rep q r m l -> Z.of_nat k < SIZE -> exists d b v, peek r m (u32 (pointer r + Z.of_nat k)) = Some (d, (v, b))
    /\ match l !! k with Some (d', b') => d = d' /\ b = b' /\ v = true | None => v = false end.
Proof.
  intros (h & f & g & x & [_ [(HM & _) Hp] Hs _ _ _ _ _ _ _ _ _] & ->) Hk. simpl in *.
  rewrite Hp, uwrap_add_l, <- Nat2Z.inj_add. unfold peek. rewrite get_slot_at by done. rewrite window_lookup.
  destruct (decide (f + k < length h)%nat) as [Hlt|Hge].
  - destruct (so_live _ _ _ _ Hs (f + k)%nat ltac:(lia)) as (d & -> & ->). simpl. by eexists _, _, _.
  - destruct (so_free _ _ _ _ Hs (Z.of_nat (f + k)) ltac:(lia)) as (ele & -> & Hv).
    rewrite (lookup_ge_None_2 h) by lia. simpl. by eexists _, _, _.
Qed.

Lemma rep_pointer q r m l : queue_rep q r m l -> u32 (pointer r + Z.of_nat 0) = pointer r.
Proof.
  intros (h & f & g & x & [_ [_ Hp] _ _ _ _ _ _ _ _ _ _] & _). simpl in *.
  by rewrite Z.add_0_r, Hp, (uwrap_uwrap 32) by lia.
Qed.

Lemma rep_head q r m l d b : queue_rep q r m l -> head l = Some (d, b) -> b = false.
Proof.
  intros (h & f & g & x & Hi & ->). rewrite head_lookup, window_lookup, Nat.add_0_r.
  destruct (h !! f) eqn:E; [|done]. simpl. intros [= <- <-]. apply bool_decide_false.
  apply (i_head _ Hi); [done|]. by apply lookup_lt_Some in E.
Qed.

Lemma rep_length q r m l : queue_rep q r m l -> Z.of_nat (length l) <= SIZE.
Proof.
  intros (h & f & g & x & Hi & ->). rewrite window_length. pose proof (so_win _ _ _ _ (i_slots _ Hi)).
  simpl in *. lia.
Qed.

Lemma rep_set q r m l (k : nat) d0 d :
  queue_rep q r m l -> l !! k = Some (d0, false) ->
  queue_rep q r (set r m (u32 (pointer r + Z.of_nat k)) d) (<[k := (d, false)]> l).
Proof.
  intros Hrep Hk. pose proof (rep_length _ _ _ _ Hrep) as Hlen. destruct Hrep as (h & f & g & x & Hi & ->).
  pose proof Hk as Hk'. rewrite window_lookup in Hk'. destruct (h !! (f + k)%nat) as [d1|] eqn:Hd; [|done]. simplify_eq/=.
  apply bool_decide_eq_false in H0 as Hnt. pose proof (lookup_lt_Some _ _ _ Hd) as Hlt. rewrite window_length in Hlen.
  exists (<[(f + k)%nat := d]> h), f, g, x. split; [|by rewrite (window_set _ _ _ _ _ _ _ Hk)].
  destruct Hi as [H1 [(HM & HC & HD & HR) Hp] [L1 L2 L3 L4] H4 H5 H6 H7 H8 [H9 H9'] H10 H11 H12]. simpl in *.
  rewrite Hp, uwrap_add_l, <- Nat2Z.inj_add. unfold set, set_slot. rewrite slot_mask by done.
  split; simpl; rewrite ?length_insert; try done.
  - split; rewrite ?length_insert; simpl; [by rewrite length_alter|done| |].
    + intros i Hi. rewrite ring_at_alter. destruct (L3 i Hi) as (d' & Hd' & Hr). destruct (decide (i = (f + k)%nat)) as [->|Hne].
      * exists d. rewrite decide_True by done. rewrite list_lookup_insert_eq by lia. rewrite Hr. done.
      * exists d'. rewrite list_lookup_insert_ne by done. rewrite decide_False; [done|].
        intros E%(mod_lap (Z.of_nat f)); lia.
    + intros i Hi. destruct (L4 i Hi) as (ele & Hele & Hv). exists ele. split; [|done].
      rewrite ring_at_alter, decide_False; [done|]. intros E%(mod_lap (Z.of_nat f)); lia.
  - intros i d' Hin. rewrite list_lookup_insert_ne; [by apply H10|]. intros <-. apply Hnt. unfold taken.
    apply list_elem_of_fmap. by exists ((f + k)%nat, d').
Qed.

Lemma rep_del q r m l (k : nat) d :
  queue_rep q r m l -> l !! k = Some (d, false) ->
  exists r' m', del SIZE r m (u32 (pointer r + Z.of_nat k)) = Some (r', m', [])
    /\ queue_rep q r' m' (drop_deleted (<[k := (d, true)]> l)).
Proof.
  intros Hrep Hk. pose proof (rep_length _ _ _ _ Hrep) as Hlen. pose proof SIZE_bounds as HS.
  assert (Hkl : Z.of_nat k < SIZE) by (apply lookup_lt_Some in Hk; lia).
  destruct (rep_peek _ _ _ _ k Hrep Hkl) as (d' & b' & v' & Hpk & Hpk'). rewrite Hk in Hpk'. destruct Hpk' as (-> & -> & ->).
  assert (Hh0 : forall d0 b0, head l = Some (d0, b0) -> b0 = false) by (intros d0 b0; by eapply rep_head).
  destruct Hrep as (h & f & g & x & Hi & ->). pose proof Hi as [_ [(HM & _) Hp] Hs _ _ _ _ _ _ _ _ _]. simpl in *.
  rewrite Hp, uwrap_add_l, <- Nat2Z.inj_add in *.
  pose proof (inv_del _ _ _ _ _ _ _ _ d (f + k) Hi ltac:(lia) ltac:(lia) Hpk) as Hi1.
  pose proof (inv_mark _ _ _ _ _ _ _ _ _ _ _ Hi1) as Hi2. simpl in Hi2.
  assert (Hw : window h f (taken g (x ++ [((f + k)%nat, d)])) = <[k := (d, true)]> (window h f (taken g x))).
  { apply window_mark; [rewrite window_lookup in Hk; by destruct (h !! (f + k)%nat); simplify_eq/=|].
    intros j. apply (taken_snoc g x (f + k)%nat d false j). }
  unfold del. rewrite <- Hw. clear Hpk Hi1.
  destruct (Z.eqb_spec (Z.land (u32 (Z.of_nat (f + k))) (MASK r)) (Z.land (pointer r) (MASK r))) as [E|E].
  - destruct (del_loop_run (Z.to_nat SIZE) _ _ _ _ _ _ _ _ Hi2) as (r' & m' & f' & Hd & Hrun & Hw').
    { rewrite window_length in Hlen. lia. }
    exists r', m'. split; [done|]. exists h, f', g, (x ++ [((f + k)%nat, d)]). split; [exact (inv_rtc _ _ Hrun Hi2)|done].
  - exists r, (mark r m (Z.land (u32 (Z.of_nat (f + k))) (MASK r))). split; [done|].
    exists h, f, g, (x ++ [((f + k)%nat, d)]). split; [done|]. destruct k as [|k].
    { destruct E. by rewrite Nat.add_0_r, Hp. }
    rewrite Hw. destruct (window h f (taken g x)) as [|[d0 b0] l]; [done|]. simpl.
    by rewrite (Hh0 d0 b0 eq_refl).
Qed.

Lemma rep_isempty q r m l : queue_rep q r m l -> isempty SIZE r m = Some (bool_decide (l = [])).
Proof.
  intros (h & f & g & x & Hi & ->). rewrite (isempty_run _ _ _ _ _ _ _ _ Hi). f_equal. apply bool_decide_ext.
  rewrite <- length_zero_iff_nil, window_length. pose proof (so_win _ _ _ _ (i_slots _ Hi)). simpl in *. lia.
Qed.

Lemma rep_pop q r m l :
  queue_rep q r m l ->
  exists r' m', pop_nb SIZE r m = Some (fst <$> head l, (r', m', []))
    /\ queue_rep q r' m' (drop_deleted (tail l)).
Proof.
  intros Hrep. pose proof SIZE_bounds as HS.
  destruct (rep_peek _ _ _ _ O Hrep ltac:(lia)) as (d' & b' & v & Hpk & Hl).
  pose proof (rep_pointer _ _ _ _ Hrep) as Hp.
  unfold pop_nb. rewrite Hp in Hpk. unfold peek in Hpk. destruct (get_slot r m (pointer r)) as [ele|]; [|done].
  injection Hpk as Hpd Hpv _. rewrite Hpd, Hpv. destruct l as [|[d b] l]; simpl in Hl; [rewrite Hl; exists r, m; split; [done|exact Hrep]|].
  destruct Hl as (-> & _ & Ev). rewrite Ev.
  assert (b = false) as -> by (by eapply (rep_head _ _ _ _ d b Hrep)).
  destruct (rep_del _ _ _ _ O d Hrep eq_refl) as (r' & m' & Hd & Hrep'). rewrite Hp in Hd. exists r', m'. split; [|done].
  assert (Hdd : del SIZE r m (Z.land (pointer r) (MASK r)) = del SIZE r m (pointer r)).
  { unfold del. by rewrite <- Z.land_assoc, Z.land_diag. }
  by rewrite Hdd, Hd.
Qed.

Lemma rep_initial zero :
  let m := init_mem SIZE (mkShm [] false) zero in
  queue_rep (init SIZE m false).1 (init SIZE m true).1 (init SIZE m true).2 [].
Proof. exists [], O, [], []. split; [exact (inv_initial zero)|done]. Qed.

End invariant.

(** C14: between the calls of its two ends the queue is a list of elements with
    deletion marks.  A push appends, or is refused with at least half a ring in
    the queue; [peek] at a distance from the receiver's pointer shows the
    element and its mark, or that there is none; [set] replaces an element;
    [del] marks one and removes the marked elements from the front; [pop_nb]
    takes the first, which is never a marked one, and likewise cleans the front;
    [isempty] holds just for the empty list. *)
Theorem lockless_refines_list {T} `{!Inhabited T} (e : Z) (q r : queue) (m : shm T) (l : list (T * bool)) :
  1 <= e <= 31 -> queue_rep e q r m l ->
  (forall d, exists b q' m', push_nb q m d = (b, (q', m', []))
     /\ queue_rep e q' r m' (if b : bool then l ++ [(d, false)] else l)
     /\ (b = false -> 2 ^ e / 2 <= Z.of_nat (length l)))
  /\ (forall k : nat, Z.of_nat k < 2 ^ e ->
        exists d b v, peek r m (u32 (pointer r + Z.of_nat k)) = Some (d, (v, b))
          /\ match l !! k with Some (d', b') => d = d' /\ b = b' /\ v = true | None => v = false end)
  /\ (forall (k : nat) d0, l !! k = Some (d0, false) ->
        (forall d, queue_rep e q r (set r m (u32 (pointer r + Z.of_nat k)) d) (<[k := (d, false)]> l))
        /\ exists r' m', del (2 ^ e) r m (u32 (pointer r + Z.of_nat k)) = Some (r', m', [])
             /\ queue_rep e q r' m' (drop_deleted (<[k := (d0, true)]> l)))
  /\ (exists r' m', pop_nb (2 ^ e) r m = Some (fst <$> head l, (r', m', []))
        /\ queue_rep e q r' m' (drop_deleted (tail l)))
  /\ isempty (2 ^ e) r m = Some (bool_decide (l = [])) /\ (forall d b, head l = Some (d, b) -> b = false).
Proof.
  intros He Hr. split_and!.
  - intros d. by apply (rep_push e He).
  - intros k Hk. by apply (rep_peek e He q).
  - intros k d0 Hk. split; [intros d; by apply (rep_set e He _ _ _ _ _ d0)|by apply (rep_del e He)].
  - by apply (rep_pop e He).
  - by apply (rep_isempty e He q).
  - intros d b. by apply (rep_head e _ _ _ _ _ _ Hr).
Qed.

Lemma lockless_refines_list_witness :
  let m := init_mem 2 (mkShm [] false) 0 in
  exists b q' m', push_nb (init 2 m false).1 (init 2 m true).2 7 = (b, (q', m', []))
    /\ queue_rep 1 q' (init 2 m true).1 m' [(7, false)].
Proof.
  destruct (lockless_refines_list 1 _ _ _ _ ltac:(lia) (rep_initial 1 ltac:(lia) 0)) as (Hpush & _).
  destruct (Hpush 7) as (b & q' & m' & Hp & Hr & Hb). exists b, q', m'. split; [exact Hp|].
  destruct b; [exact Hr|]. specialize (Hb eq_refl). by destruct Hb.
Defined.

(** C13: the queue delivers every element once.  In every state the two
    processes reach: an element that [pop_nb] or [del] took has the value that
    was pushed; none is taken twice; [pop_nb] takes them in the order of the
    pushes, and without out-of-order deletions the values it returned are a
    prefix of those pushed; every element that was given back had been taken;
    and the sender only ever overwrites a slot whose valid bit is clear. *)
Theorem lockless_stream {T} `{!Inhabited T} (e : Z) (zero : T) (s : sys T) :
  1 <= e <= 31 -> reachable (2 ^ e) zero s ->
  (forall i d, (i, d) ∈ (got s ++ dels s) -> sent s !! i = Some d)
  /\ NoDup (got s ++ dels s).*1
  /\ StronglySorted lt (got s).*1
  /\ (dels s = [] -> (got s).*2 `prefix_of` sent s)
  /\ (forall i, (i < freed s)%nat -> i ∈ (got s ++ dels s).*1)
  /\ (forall d, spc s = SWrite d ->
        exists ele, get_slot (sq s) (mem s) (pointer (sq s)) = Some ele /\ isvalid ele = false).
Proof.
  intros He Hr. pose proof (inv_reachable e He zero s Hr) as Hi. pose proof (SIZE_bounds e He) as HS.
  pose proof Hi as [[(HM & _) Hp] _ Hs Hc [Hc1 Hc2] Hw _ _ [Hnd _] Hv Hg [Ho _]].
  split_and!; [done|done|done|by apply (got_prefix e)| |].
  - intros i Hi'. apply Hg. destruct (rpc s); simpl; lia.
  - intros d Hd. rewrite Hp, (get_slot_at e He) by done. apply (so_free _ _ _ _ _ Hs). split; [lia|].
    rewrite Hd in Hw, Hc. simpl in Hc. pose proof (so_win _ _ _ _ _ Hs).
    assert (freed s <= base (rpc s) (freed s))%nat by (destruct (rpc s); simpl; lia).
    destruct (return_flag (mem s)); lia.
Qed.

(** A ring of two slots: one element pushed and popped, a second one about to
    be written. *)
Lemma lockless_stream_witness :
  exists s : sys Z, reachable 2 0 s /\ spc s = SWrite 8 /\ (got s).*2 = [7]
    /\ (got s).*2 `prefix_of` sent s
    /\ exists ele, get_slot (sq s) (mem s) (pointer (sq s)) = Some ele /\ isvalid ele = false.
Proof.
  set (q0 := mkQueue 0 1 2 2 false None). set (q1 := mkQueue 1 1 1 2 false None).
  set (r0 := mkQueue 0 1 0 2 false None). set (r1 := mkQueue 1 1 1 2 false None).
  set (z := mkElement 0 false false).
  assert (H : reachable 2 0 (mkSys q1 r1 (mkShm [mkElement 7 false true; z] false) (SWrite 8) RLoop [7] 1 [(0%nat, 7)] [])).
  { eapply rtc_l; [by apply (step_credit 2 q0 r0 (mkShm [z; z] false) RIdle [] 0 [] [] 7)|].
    eapply rtc_l; [by eapply step_write|]. eapply rtc_l; [by eapply step_pop|]. eapply rtc_l; [apply step_mark|].
    eapply rtc_l; [apply step_loop|]. eapply rtc_l; [apply step_invalidate|].
    eapply rtc_l; [by eapply step_advance|]. by apply rtc_once, step_credit. }
  eexists. split; [exact H|]. destruct (lockless_stream 1 0 _ ltac:(lia) H) as (_ & _ & _ & Hp & _ & Hw).
  split; [done|]. split; [done|]. split; [by apply Hp|by apply (Hw 8)].
Defined.

(** The calls terminate and make progress.  Between two calls of each
    process: [push_nb] returns, and it refuses only when at least half of the
    ring is still to be freed by the receiver; [pop_nb] returns the oldest
    element that has not been taken, or nothing when there is none; [isempty]
    says which of the two it is; and what the calls do is what the two processes
    do step by step. *)
Theorem lockless_calls {T} `{!Inhabited T} (e : Z) (zero : T) q r m h f g x :
  1 <= e <= 31 -> reachable (2 ^ e) zero (mkSys q r m SIdle RIdle h f g x) ->
  (forall d, exists b q' m', push_nb q m d = (b, (q', m', []))
     /\ reachable (2 ^ e) zero (mkSys q' r m' SIdle RIdle (h ++ if b : bool then [d] else []) f g x)
     /\ (b = false -> 2 ^ e / 2 <= Z.of_nat (length h - f)))
  /\ (exists r' m' f', pop_nb (2 ^ e) r m = Some (h !! f, (r', m', []))
     /\ reachable (2 ^ e) zero
          (mkSys q r' m' SIdle RIdle h f' (g ++ match h !! f with Some d => [(f, d)] | None => [] end) x))
  /\ isempty (2 ^ e) r m = Some (bool_decide (f = length h)).
Proof.
  intros He Hr. pose proof (inv_reachable e He zero _ Hr) as Hi. split_and!.
  - intros d. destruct (push_nb_run e He _ _ _ _ _ _ _ _ d Hi) as (b & q' & m' & Hp & Hrun & Hb).
    exists b, q', m'. split; [done|]. split; [|done]. by apply (transitivity (R := rtc _) Hr).
  - destruct (pop_nb_run e He _ _ _ _ _ _ _ _ Hi) as (r' & m' & f' & Hp & Hrun).
    exists r', m', f'. split; [done|]. by apply (transitivity (R := rtc _) Hr).
  - by apply (isempty_run e He _ _ _ _ _ _ _ _ Hi).
Qed.

Lemma lockless_calls_witness :
  exists (q r : queue) (m : shm Z), reachable 2 0 (mkSys q r m SIdle RIdle [7] 0 [] [])
    /\ isempty 2 r m = Some false
    /\ exists r' m', pop_nb 2 r m = Some (Some 7, (r', m', [])).
Proof.
  set (q0 := mkQueue 0 1 2 2 false None). set (r0 := mkQueue 0 1 0 2 false None).
  set (z := mkElement 0 false false).
  assert (H : reachable 2 0
            (mkSys (mkQueue 1 1 1 2 false None) r0 (mkShm [mkElement 7 true false; z] false) SIdle RIdle [7] 0 [] [])).
  { eapply rtc_l; [by apply (step_credit 2 q0 r0 (mkShm [z; z] false) RIdle [] 0 [] [] 7)|].
    apply rtc_once. by eapply (step_write 2 q0 r0 _ RIdle [] 0 [] [] 7). }
  eexists _, _, _. split; [exact H|].
  destruct (lockless_calls 1 0 _ _ _ _ _ _ _ ltac:(lia) H) as (_ & (r' & m' & f' & Hp & _) & He).
  split; [exact He|]. exists r', m'. exact Hp.
Defined.

(** No credit is lost and none is counted twice.  In every state the two
    processes reach, the sender's credits, the elements in the ring, the
    elements freed since the last return and a return the sender has not yet
    taken up add to the size of the ring; so the counters never wrap around,
    the receiver always holds fewer than one return, and it never raises a flag
    that is still up. *)
Theorem lockless_credit_bounds {T} `{!Inhabited T} (e : Z) (zero : T) (s : sys T) :
  1 <= e <= 31 -> reachable (2 ^ e) zero s ->
  credits (sq s) + (Z.of_nat (length (sent s)) - Z.of_nat (freed s)) + credits (rq s)
    + (if return_flag (mem s) then 2 ^ e / 2 + 1 else 0)
    - (match spc s with SClear _ => 2 ^ e / 2 + 1 | _ => 0 end) = 2 ^ e
  /\ 0 <= credits (sq s) <= 2 ^ e /\ 0 <= credits (rq s) <= 2 ^ e / 2
  /\ (freed s <= length (sent s))%nat /\ Z.of_nat (length (sent s) - freed s) <= 2 ^ e
  /\ (rpc s = RAdv -> credits (rq s) = 2 ^ e / 2 -> return_flag (mem s) = false).
Proof.
  intros He Hr. pose proof (inv_reachable e He zero s Hr) as [_ _ Hs Hc [Hc1 Hc2] Hw _ _ _ _ _ _].
  pose proof (SIZE_bounds e He) as HS. pose proof (so_win _ _ _ _ _ Hs) as Hwin.
  assert (Hb : (freed s <= base (rpc s) (freed s))%nat) by (destruct (rpc s); simpl; lia).
  unfold clearing in Hc. split; [exact Hc|].
  destruct (spc s), (return_flag (mem s)); simpl in Hw; split_and!; try lia; try done;
    intros Ea; rewrite Ea in Hwin; simpl in Hwin; lia.
Qed.

Lemma lockless_credit_bounds_witness :
  exists s : sys Z, reachable 2 0 s /\ spc s = SWrite 7 /\ credits (sq s) <= 2.
Proof.
  set (q0 := mkQueue 0 1 2 2 false None). set (r0 := mkQueue 0 1 0 2 false None).
  set (z := mkElement 0 false false).
  assert (H : reachable 2 0 (mkSys q0 r0 (mkShm [z; z] false) (SWrite 7) RIdle [] 0 [] [])).
  { by apply rtc_once, (step_credit 2 q0 r0 (mkShm [z; z] false) RIdle [] 0 [] [] 7). }
  eexists. split; [exact H|]. split; [done|].
  destruct (lockless_credit_bounds 1 0 _ ltac:(lia) H) as (_ & [_ Hb] & _). exact Hb.
Defined.

(** ** [is_full]

    The sender asks whether it has at least 16 credits at hand, without looking
    at the flag: after a ring of 256 elements was filled and emptied again, it
    calls the empty queue full. *)
Fixpoint push_many (n : nat) (q : queue) (m : shm Z) : queue * shm Z :=
  match n with
  | O => (q, m)
  | S n => let '(_, (q, m, _)) := push_nb q m (Z.of_nat n) in push_many n q m
  end.

Fixpoint pop_many (n : nat) (r : queue) (m : shm Z) : queue * shm Z :=
  match n with
  | O => (r, m)
  | S n => match pop_nb 256 r m with
           | Some (_, (r, m, _)) => pop_many n r m
           | None => (r, m)
           end
  end.

Theorem is_full_of_empty_queue :
  let m := init_mem 256 (mkShm [] false) 0 in
  let '(q, m) := push_many 256 (init 256 m false).1 m in
  let '(r, m) := pop_many 256 (init 256 m true).1 m in
  isempty 256 r m = Some true /\ is_full q = true /\ return_flag m = true
  /\ (push_nb q m 0).1 = true.
Proof. by vm_compute. Qed.

End LocklessQueue.
