(* ===== verification/Metaqueue.v ===== *)
(** * The control queues between the prototype's processes and its monitor

    [common/metaqueue.h]: the control message, the placement of the four queues
    of a pair in its memory, and the transfer of a long message in elements of
    13 bytes; with the message codes of [common/helper.h]. *)

From Stdlib Require Import ZArith Lia.
From stdpp Require Import numbers base gmap list.
From S2P Require Import Prelude LocklessQueue.
Import LocklessQueue.

Module Metaqueue.

(** The anonymous enumeration of [helper.h]. *)
Inductive command_t :=
  | REQ_NOP | REQ_THRTEST | REQ_THRTEST_INIT | REQ_PING | REQ_CLOSE | REQ_LISTEN
  | REQ_ACCEPT | REQ_CONNECT | RES_ERROR | RES_SUCCESS | RES_NEWCONNECTION
  | REQ_FORK | RES_FORK | RES_PUSH_FORK | REQ_RELAY_RECV | RTS_RELAY | FIN_FORK
  | REQ_RDMA_CONNECT | RES_RDMA_NEWCONNECTION | LONG_MSG | LONG_MSG_HEAD
  | RDMA_QP_INFO | RDMA_QP_ACK.

#[export] Instance command_eq_dec : EqDecision command_t.
Proof. solve_decision. Defined.

(** The members of the union.  A message is written and read through the same
    member; a field that is left unset is [None]. *)
Inductive ctl_body :=
  | raw (bytes : list Z)
  | req_close (port listen_fd : Z)
  | req_connect (port fd : Z) (isRDMA : bool)
  | resp_connect (shm_key : Z) (fd port : option Z) (loc : Z) (isRDMA : option bool)
  | resp_command (res_code : option command_t) (err_code : option Z)
  | req_listen (port is_reuseaddr : Z)
  | req_accept (port : Z)
  | req_fork (old_tid token : Z)
  | req_relay_recv (shmem req_fd peer_fd : Z)
  | resp_fork (oldshmemkey newshmemkey : Z)
  | push_fork (oldshmemkey newshmemkey0 newshmemkey1 : Z)
  | long_msg_head (len : Z) (subcommand : command_t)
  | test_payload (v : Z)
  | unset.

Record metaqueue_ctl_element := mkCtl { command : command_t; body : ctl_body }.

Definition MAX_METAQUEUE_SIZE : Z := 256.

(** ** Placement

    A queue of the pair: where it starts, and whether [init] makes it the
    receiving end; [false] is index 0 and [true] index 1. *)
Record placed := mkPlaced { p_base : Z; p_receiver : bool }.

Record metaqueue_t := mkMetaqueue { q : bool -> placed; q_emergency : bool -> placed }.

Definition q_size : Z := getmemsize MAX_METAQUEUE_SIZE.

Definition get_sharememsize : Z := q_size * 2 + q_size * 2.

Definition init_memlayout (baseaddr : Z) (loc : bool) : metaqueue_t :=
  let b0 := baseaddr in
  let b1 := b0 + q_size in
  let b2 := b1 + q_size in
  let b3 := b2 + q_size in
  mkMetaqueue
    (fun i => if bool_decide (i = loc) then mkPlaced b0 loc else mkPlaced b1 (negb loc))
    (fun i => if bool_decide (i = loc) then mkPlaced b2 loc else mkPlaced b3 (negb loc)).

(** The remote address [initRDMA] gives each queue. *)
Definition initRDMA (remote_addr : Z) (loc : bool) : (bool -> Z) * (bool -> Z) :=
  let r0 := remote_addr in
  let r1 := u64 (r0 + q_size) in
  let r2 := u64 (r1 + q_size) in
  let r3 := u64 (r2 + q_size) in
  ((fun i => if bool_decide (i = loc) then r0 else r1),
   (fun i => if bool_decide (i = loc) then r2 else r3)).

(** [mem_init]: the slots of all four queues are cleared. *)
Definition mem_init {T} (m : shm T * shm T * (shm T * shm T)) (zero : T) : shm T * shm T * (shm T * shm T) :=
  let '(m0, m1, (e0, e1)) := m in
  let clr m := init_mem MAX_METAQUEUE_SIZE m zero in
  (clr m0, clr m1, (clr e0, clr e1)).

(** ** Long messages *)

Definition chunk_size : Z := 13.

(** The loop of [push_longmsg]: [left] are the bytes still to send and [buf]
    the contents of [ele.raw], which [memcpy] overwrites from the start. *)
Fixpoint push_chunks (fuel : nat) (left buf : list Z) : list metaqueue_ctl_element :=
  match fuel with
  | O => []
  | S fuel =>
      let len_left := Z.of_nat (length left) in
      if 0 <? len_left then
        let this_len := if chunk_size <? len_left then chunk_size else len_left in
        let buf := memcpy_at buf 0 left this_len in
        mkCtl LONG_MSG (raw buf) :: push_chunks fuel (drop (Z.to_nat this_len) left) buf
      else []
  end.

(** The elements [push_longmsg] pushes; [buf] is what the union holds besides
    the header. *)
Definition push_longmsg (data buf : list Z) (subcommand : command_t) : list metaqueue_ctl_element :=
  mkCtl LONG_MSG_HEAD (long_msg_head (Z.of_nat (length data)) subcommand)
  :: push_chunks (length data) data buf.

(** [pop_longmsg] on the elements that arrive: [None] is the fatal error, or a
    wait for an element that does not come. *)
Fixpoint pop_longmsg (fuel : nat) (len_left : Z) (arriving : list metaqueue_ctl_element)
    : option (list Z * list metaqueue_ctl_element) :=
  if 0 <? len_left then
    match fuel, arriving with
    | S fuel, mkCtl LONG_MSG (raw bytes) :: arriving =>
        let this_len := if chunk_size <? len_left then chunk_size else len_left in
        match pop_longmsg fuel (len_left - this_len) arriving with
        | None => None
        | Some (rest, arriving) => Some (take (Z.to_nat this_len) bytes ++ rest, arriving)
        end
    | _, _ => None
    end
  else Some ([], arriving).

(** ** Theorems *)

(** Both ends of a pair of control queues agree on the memory.  For each of
    the two kinds of queue, the end at [loc] = 0 sends where the end at [loc] =
    1 receives and receives where it sends; the four queues are disjoint and
    together fill exactly the shared memory; and an RDMA write addresses the
    same offset of the peer's memory. *)
Theorem metaqueue_layout (base remote : Z) (loc i : bool) :
  0 <= remote -> remote + get_sharememsize < 2 ^ 64 ->
  let here := init_memlayout base loc in
  let there := init_memlayout base (negb loc) in
  p_base (q here i) = p_base (q there (negb i)) /\ p_receiver (q here i) = i
  /\ p_base (q_emergency here i) = p_base (q_emergency there (negb i)) /\ p_receiver (q_emergency here i) = i
  /\ p_base <$> [q here loc; q here (negb loc); q_emergency here loc; q_emergency here (negb loc)]
     = (fun k => base + k * q_size) <$> [0; 1; 2; 3]
  /\ get_sharememsize = 4 * q_size
  /\ (initRDMA remote loc).1 i = remote + (p_base (q here i) - base)
  /\ (initRDMA remote loc).2 i = remote + (p_base (q_emergency here i) - base).
Proof.
  intros Hr Hfit. assert (Hq : q_size = 4160) by done. unfold get_sharememsize in *. rewrite Hq in *.
  assert (Hu : forall k, 0 <= k <= 3 -> u64 (remote + k * 4160) = remote + k * 4160).
  { intros k Hk. apply uwrap_small. unfold is_uint. lia. }
  pose proof (Hu 1 ltac:(lia)) as H1. pose proof (Hu 2 ltac:(lia)) as H2. pose proof (Hu 3 ltac:(lia)) as H3.
  unfold initRDMA, init_memlayout. rewrite Hq. rewrite !uwrap_add_l, <- !Z.add_assoc.
  change (4160 + (4160 + 4160)) with (3 * 4160). change (4160 + 4160) with (2 * 4160).
  rewrite H2, H3. change (u64 (remote + 4160)) with (u64 (remote + 1 * 4160)). rewrite H1.
  destruct loc, i; simpl; split_and!; try done; try lia; repeat f_equal; lia.
Qed.

Lemma metaqueue_layout_witness :
  p_base (q (init_memlayout 4096 false) false) = p_base (q (init_memlayout 4096 true) true).
Proof. apply (metaqueue_layout 4096 8192 false false); vm_compute; congruence. Defined.

Lemma take_memcpy (buf left : list Z) n :
  0 <= n <= Z.of_nat (length left) -> n <= Z.of_nat (length buf) ->
  take (Z.to_nat n) (memcpy_at buf 0 left n) = take (Z.to_nat n) left.
Proof.
  intros Hn Hb. apply list_eq. intros i. destruct (decide (i < Z.to_nat n)%nat) as [Hi|Hi].
  - rewrite !lookup_take_lt by done. rewrite memcpy_at_inside by lia. by rewrite Nat.sub_0_r.
  - by rewrite !lookup_take_ge by lia.
Qed.

Lemma pop_push_chunks n left buf rest :
  (length left <= n)%nat -> length buf = 13%nat ->
  pop_longmsg n (Z.of_nat (length left)) (push_chunks n left buf ++ rest) = Some (left, rest).
Proof.
  revert left buf. induction n as [|n IH]; intros left buf Hn Hb; cbn [pop_longmsg push_chunks].
  { by destruct left; [|simpl in Hn; lia]. }
  destruct (Z.ltb_spec 0 (Z.of_nat (length left))) as [Hpos|Hz].
  2: { destruct left; [done|simpl in Hz; lia]. }
  set (k := if chunk_size <? Z.of_nat (length left) then chunk_size else Z.of_nat (length left)).
  assert (Hk : 0 < k <= Z.of_nat (length left) /\ k <= 13).
  { unfold k, chunk_size. destruct (Z.ltb_spec 13 (Z.of_nat (length left))); lia. }
  cbn [app]. fold k.
  replace (Z.of_nat (length left) - k) with (Z.of_nat (length (drop (Z.to_nat k) left))) by (rewrite length_drop; lia).
  rewrite IH by (rewrite ?length_drop, ?memcpy_at_length; lia).
  rewrite take_memcpy by lia. by rewrite take_drop.
Qed.

(** A long message arrives as it was sent.  Whatever the union held before,
    after its header [pop_longmsg] reassembles exactly the bytes that
    [push_longmsg] was given, and leaves the elements behind the message in the
    queue. *)
Theorem longmsg_roundtrip (data buf : list Z) (subcommand : command_t) (rest : list metaqueue_ctl_element) :
  length buf = 13%nat ->
  exists chunks, push_longmsg data buf subcommand
      = mkCtl LONG_MSG_HEAD (long_msg_head (Z.of_nat (length data)) subcommand) :: chunks
    /\ pop_longmsg (length data) (Z.of_nat (length data)) (chunks ++ rest) = Some (data, rest).
Proof. intros Hb. eexists. split; [done|]. by apply pop_push_chunks. Qed.

Lemma longmsg_roundtrip_witness :
  exists chunks, length chunks = 2%nat
    /\ pop_longmsg 15 15 (chunks ++ [mkCtl REQ_NOP unset]) = Some (seqZ 1 15, [mkCtl REQ_NOP unset]).
Proof.
  destruct (longmsg_roundtrip (seqZ 1 15) (replicate 13 0) RDMA_QP_INFO [mkCtl REQ_NOP unset] eq_refl)
    as (chunks & Hp & Hr).
  exists chunks. split; [|exact Hr]. vm_compute in Hp. injection Hp as <-. done.
Defined.

End Metaqueue.
