(* ===== verification/IpBuffer.v ===== *)
(** * The block buffer of the prototype

    [common/interprocess_t.{h,cpp}], class [buffer_t]: the bytes of a transfer
    are copied into a chain of blocks of 1018 bytes; the numbers of the free
    blocks travel through a queue from the side that empties them to the side
    that fills them.  The operations are written against an interface of that
    queue, which the lockless queue implements. *)

From Stdlib Require Import ZArith Lia.
From stdpp Require Import numbers base gmap list.
From S2P Require Import Prelude LocklessQueue.

Module IpBuffer.

Definition INTERPROCESS_SLOTS_IN_BUFFER : Z := 1024.
Definition INTERPROCESS_SLOTS_BLK_SIZE : Z := 1018.

(** Two's complement reading of a 16-bit word, the C++ type [short]. *)
Definition swrap16 (x : Z) : Z := (x + 2 ^ 15) mod 2 ^ 16 - 2 ^ 15.

Record element := mkBlock { size : Z; offset : Z; data : list Z; next_ptr : Z }.

(** ** The queue of free blocks *)

(** The operations of [avail_slots] that [buffer_t] calls.  [tokens] are the
    blocks in the queue, [room] how many more it takes. *)
Class Avail (Q : Type) := {
  a_pop_nb : Q -> option (option Z * Q);
  a_push : Q -> Z -> option Q;
  a_ok : Q -> Prop;
  tokens : Q -> list Z;
  capacity : nat;
  a_pop_law : forall q, a_ok q ->
    exists q', a_pop_nb q = Some (head (tokens q), q') /\ a_ok q' /\ tokens q' = tail (tokens q);
  a_push_law : forall q t, a_ok q -> (length (tokens q) < capacity)%nat ->
    exists q', a_push q t = Some q' /\ a_ok q' /\ tokens q' = tokens q ++ [t]
}.

(** ** The operations *)

Section ops.
Context {Q : Type} `{!Avail Q} (isRDMA : bool).
Implicit Types (mem : list element) (q : Q).

Definition set_next (b : element) (n : Z) : element := mkBlock (size b) (offset b) (data b) n.

(** A block filled with the first [n] bytes of [src]. *)
Definition fill (b : element) (src : list Z) (n : Z) (last : bool) : element :=
  mkBlock n 0 (memcpy_at (data b) 0 src n) (if last then -1 else next_ptr b).

(** The loop of [pushdata]; [posted] are the blocks written to the remote side.
    The result is [ret] with the state, [None] an access outside the buffer. *)
Fixpoint pushdata_loop (fuel : nat) mem q (src : list Z) (prev_blk ret : Z) (posted : list Z)
    : option (Z * list element * Q * list Z) :=
  let size_left := Z.of_nat (length src) in
  if 0 <? size_left then
    match fuel, a_pop_nb q with
    | S fuel, Some (Some blk, q) =>
        let linked := if prev_blk =? -1 then Some mem
                      else if Z.of_nat (length mem) <=? prev_blk then None
                      else Some (alter (fun b => set_next b blk) (Z.to_nat prev_blk) mem) in
        let posted := if isRDMA && negb (prev_blk =? -1) then posted ++ [prev_blk] else posted in
        match linked with
        | None => None
        | Some mem =>
            if (blk <? 0) || (Z.of_nat (length mem) <=? blk) then None
            else
              let true_size := if size_left <? INTERPROCESS_SLOTS_BLK_SIZE
                               then size_left else INTERPROCESS_SLOTS_BLK_SIZE in
              let mem := alter (fun b => fill b src true_size (size_left - true_size =? 0)) (Z.to_nat blk) mem in
              let ret := if prev_blk =? -1 then blk else ret in
              pushdata_loop fuel mem q (drop (Z.to_nat true_size) src) blk ret posted
        end
    | S _, Some (None, q) => Some (ret, mem, q, posted)
    | _, _ => None
    end
  else Some (ret, mem, q, if isRDMA && negb (prev_blk =? -1) then posted ++ [prev_blk] else posted).

(** One turn per block: the bytes to send bound the turns. *)
Definition pushdata mem q (src : list Z) : option (Z * list element * Q * list Z) :=
  pushdata_loop (length src) mem q src (-1) (-1) [].

(** The body shared by [popdata] and [popdata_nomemrelease]: the bytes copied
    out of a block of which [sizeleft] bytes are wanted, their number, the block
    afterwards, and whether it was emptied. *)
Definition take_block (b : element) (sizeleft : Z) : list Z * Z * element * bool :=
  let isfullblk := size b <=? sizeleft in
  let copy_size := if isfullblk then size b else sizeleft in
  let bytes := mem_read (data b) (offset b) copy_size in
  if isfullblk then (bytes, copy_size, b, true)
  else (bytes, copy_size, mkBlock (size b - copy_size) (offset b + copy_size) (data b) (next_ptr b), false).

(** The loop of [popdata]; [release] is false in [popdata_nomemrelease].  The
    result: the block to go on with, the bytes copied and the bytes still
    wanted. *)
Fixpoint popdata_loop (release : bool) (fuel : nat) mem q (current_loc sizeleft : Z)
    : option (Z * list Z * Z * list element * Q) :=
  if negb (current_loc =? -1) && negb (sizeleft =? 0) then
    match fuel with
    | O => None
    | S fuel =>
        if (current_loc <? 0) || (Z.of_nat (length mem) <=? current_loc) then None
        else
          match mem !! Z.to_nat current_loc with
          | None => None
          | Some b =>
              let '(bytes, copy_size, b', isfullblk) := take_block b sizeleft in
              let mem := <[Z.to_nat current_loc := b']> mem in
              let sizeleft := sizeleft - copy_size in
              if (sizeleft =? 0) && negb isfullblk then Some (current_loc, bytes, sizeleft, mem, q)
              else
                match (if isfullblk && release then a_push q current_loc else Some q) with
                | None => None
                | Some q =>
                    match popdata_loop release fuel mem q (next_ptr b) sizeleft with
                    | None => None
                    | Some (loc, rest, sizeleft, mem, q) => Some (loc, bytes ++ rest, sizeleft, mem, q)
                    end
                end
          end
    end
  else Some (current_loc, [], sizeleft, mem, q).

(** The returned block, the bytes copied out and the updated [size]; a chain has
    at most one block per slot. *)
Definition popdata mem q (src sz : Z) : option (Z * list Z * Z * list element * Q) :=
  match popdata_loop true (length mem) mem q (swrap16 src) sz with
  | None => None
  | Some (loc, bytes, sizeleft, mem, q) => Some (loc, bytes, sz - sizeleft, mem, q)
  end.

Definition popdata_nomemrelease mem q (src sz : Z) : option (Z * list Z * Z * list element * Q) :=
  match popdata_loop false (length mem) mem q (swrap16 src) sz with
  | None => None
  | Some (loc, bytes, sizeleft, mem, q) => Some (loc, bytes, sz - sizeleft, mem, q)
  end.

End ops.

(** ** Chains of blocks *)

Definition block_ok (b : element) : Prop :=
  0 < size b /\ 0 <= offset b /\ offset b + size b <= Z.of_nat (length (data b)).

Definition block_bytes (b : element) : list Z := mem_read (data b) (offset b) (size b).

(** From [loc] the blocks [l] are linked, end with -1 and hold [bytes]. *)
Fixpoint chain (mem : list element) (loc : Z) (l : list Z) (bytes : list Z) : Prop :=
  match l with
  | [] => loc = -1 /\ bytes = []
  | x :: l => loc = x /\ 0 <= x /\ exists b rest, mem !! Z.to_nat x = Some b /\ block_ok b
                /\ bytes = block_bytes b ++ rest /\ chain mem (next_ptr b) l rest
  end.

Section facts.
Context {Q : Type} `{!Avail Q}.
Implicit Types (mem : list element) (q : Q) (l : list Z).

Lemma chain_ext mem mem' loc l bytes :
  (forall x, x ∈ l -> 0 <= x -> mem' !! Z.to_nat x = mem !! Z.to_nat x) ->
  chain mem loc l bytes -> chain mem' loc l bytes.
Proof.
  revert loc bytes. induction l as [|x l IH]; intros loc bytes Hm; simpl; [done|].
  intros (-> & Hx & b & rest & Hb & Hok & -> & Hc). split; [done|]. split; [done|]. exists b, rest.
  split; [by rewrite Hm by (done || by left)|]. split_and!; [done|done|]. apply IH; [|done].
  intros y Hy. apply Hm. by right.
Qed.

Lemma chain_range mem loc l bytes x : chain mem loc l bytes -> x ∈ l -> 0 <= x < Z.of_nat (length mem).
Proof.
  revert loc bytes. induction l as [|y l IH]; intros loc bytes Hc; simpl in *; [by intros ?%not_elem_of_nil|].
  destruct Hc as (-> & Hx & b & rest & Hb & _ & _ & Hc). intros [->|Hin]%elem_of_cons; [|by eapply IH].
  apply lookup_lt_Some in Hb. lia.
Qed.

Lemma block_bytes_length b : block_ok b -> Z.of_nat (length (block_bytes b)) = size b.
Proof. intros (H1 & H2 & H3). apply mem_read_length; lia. Qed.

Lemma to_nat_ne (x y : Z) : 0 <= x -> 0 <= y -> x <> y -> Z.to_nat x <> Z.to_nat y.
Proof. lia. Qed.

(** What is read from a block in parts. *)
Lemma mem_read_split (src : list Z) off n k :
  0 <= off -> 0 <= k <= n -> off + n <= Z.of_nat (length src) ->
  mem_read src off n = mem_read src off k ++ mem_read src (off + k) (n - k).
Proof.
  intros H1 H2 H3. unfold mem_read. rewrite (Z2Nat.inj_add off k) by lia. rewrite <- drop_drop.
  rewrite <- (take_drop (Z.to_nat k) (drop (Z.to_nat off) src)) at 1.
  rewrite take_app_ge by (rewrite length_take, length_drop; lia).
  do 2 f_equal. rewrite length_take, length_drop. lia.
Qed.

Lemma take_block_part b n :
  block_ok b -> 0 < n < size b ->
  exists b', take_block b n = (take (Z.to_nat n) (block_bytes b), n, b', false) /\ block_ok b'
    /\ block_bytes b' = drop (Z.to_nat n) (block_bytes b) /\ next_ptr b' = next_ptr b.
Proof.
  intros (H1 & H2 & H3) Hn. unfold take_block. destruct (Z.leb_spec (size b) n); [lia|].
  pose proof (mem_read_split (data b) (offset b) (size b) n H2 ltac:(lia) H3) as Hs.
  pose proof (mem_read_length (data b) (offset b) n ltac:(lia) ltac:(lia) ltac:(lia)) as Hl.
  assert (Hlen : length (mem_read (data b) (offset b) n) = Z.to_nat n) by lia.
  eexists. split; [unfold block_bytes; rewrite Hs, take_app_length' by done; done|].
  split; [unfold block_ok; simpl; lia|]. split; [|done]. unfold block_bytes. simpl.
  by rewrite Hs, drop_app_length' by done.
Qed.

(** What [popdata] does on a chain: the wanted bytes, or all there are; the
    emptied blocks are free again, the others still hold the rest. *)
Definition popped mem q l (bytes : list Z) (n loc left : Z) (out : list Z) mem' q' : Prop :=
  exists l1 l2, l = l1 ++ l2 /\ out = take (Z.to_nat n) bytes
    /\ left = n - Z.min n (Z.of_nat (length bytes))
    /\ a_ok q' /\ tokens q' = tokens q ++ l1
    /\ chain mem' loc l2 (drop (Z.to_nat n) bytes)
    /\ length mem' = length mem
    /\ forall i : nat, (Z.of_nat i ∉ l) -> mem' !! i = mem !! i.

Lemma popdata_loop_spec fuel mem q loc l bytes n :
  chain mem loc l bytes -> NoDup l -> 0 <= n -> a_ok q ->
  (length (tokens q) + length l <= capacity)%nat -> (length l <= fuel)%nat ->
  exists loc' out left mem' q', popdata_loop true fuel mem q loc n = Some (loc', out, left, mem', q')
    /\ popped mem q l bytes n loc' left out mem' q'.
Proof.
  revert mem q loc l bytes n.
  induction fuel as [|fuel IH]; intros mem q loc l bytes n Hc Hnd Hn Hok Hcap Hfuel.
  { destruct l; [|simpl in Hfuel; lia]. destruct Hc as [-> ->]. eexists _, _, _, _, _. split; [done|].
    exists [], []. rewrite take_nil, drop_nil. simpl. split_and!; rewrite ?app_nil_r; (done || lia). }
  destruct l as [|x l].
  { destruct Hc as [-> ->]. eexists _, _, _, _, _. split; [done|].
    exists [], []. rewrite take_nil, drop_nil. simpl. split_and!; rewrite ?app_nil_r; (done || lia). }
  pose proof (chain_range _ _ _ _ x Hc ltac:(by left)) as Hx. pose proof Hc as Hc0.
  destruct Hc as (-> & Hx0 & b & rest & Hb & Hbok & -> & Hc). cbn [popdata_loop].
  destruct (Z.eqb_spec x (-1)); [lia|]. cbn [negb andb]. destruct (Z.eqb_spec n 0) as [->|Hn0]; cbn [negb andb].
  { eexists _, _, _, _, _. split; [done|]. exists [], (x :: l). simpl.
    split_and!; rewrite ?app_nil_r; (done || lia || by exists b, rest). }
  rewrite (proj2 (Z.ltb_ge x 0)), (proj2 (Z.leb_gt _ x)) by lia. cbn [orb]. rewrite Hb.
  pose proof (block_bytes_length b Hbok) as Hbl. apply NoDup_cons in Hnd as [Hxl Hnd].
  destruct (Z.lt_ge_cases n (size b)) as [Hlt|Hge].
  - destruct (take_block_part b n Hbok ltac:(lia)) as (b' & -> & Hok' & Hby & Hnp). rewrite Z.sub_diag, Z.eqb_refl.
    cbn [andb negb]. eexists _, _, _, _, _. split; [done|]. exists [], (x :: l).
    rewrite take_app_le, drop_app_le by lia. split_and!; try done.
    + rewrite length_app. lia.
    + by rewrite app_nil_r.
    + split; [done|]. split; [done|]. exists b', rest. rewrite list_lookup_insert_eq by lia. rewrite Hby, Hnp.
      split_and!; try done. eapply chain_ext; [|done]. intros y Hy Hy0.
      rewrite list_lookup_insert_ne; [done|]. apply to_nat_ne; [lia|lia|]. intros ->. done.
    + by rewrite length_insert.
    + intros i Hi. rewrite list_lookup_insert_ne; [done|]. intros E. apply Hi. replace (Z.of_nat i) with x by lia. by left.
  - unfold take_block. rewrite (proj2 (Z.leb_le _ _)) by lia. rewrite andb_false_r. cbn [andb].
    fold (block_bytes b). rewrite (list_insert_id _ _ _ Hb).
    destruct (a_push_law q x Hok) as (q1 & -> & Hok1 & Ht1); [simpl in Hcap; lia|].
    destruct (IH mem q1 (next_ptr b) l rest (n - size b) Hc Hnd ltac:(lia) Hok1) as
      (loc' & out & left & mem' & q' & -> & l1 & l2 & -> & -> & -> & Hok2 & Ht2 & Hch & Hlen & Hm).
    { rewrite Ht1, length_app. simpl in *. lia. }
    { simpl in Hfuel. lia. }
    eexists _, _, _, _, _. split; [done|]. exists (x :: l1), l2. split_and!; try done.
    + rewrite take_app_ge by lia. do 2 f_equal. lia.
    + rewrite length_app. lia.
    + rewrite Ht2, Ht1, <- app_assoc. done.
    + rewrite drop_app_ge by lia. replace (Z.to_nat n - length (block_bytes b))%nat with (Z.to_nat (n - size b)) by lia. done.
    + intros i Hi. apply Hm. intros Hin. apply Hi. by right.
Qed.

Definition blocks_ok mem : Prop := Forall (fun b => Z.of_nat (length (data b)) = INTERPROCESS_SLOTS_BLK_SIZE) mem.

(** The number of blocks [n] bytes take. *)
Definition blocks_for (n : Z) : Z := (n + (INTERPROCESS_SLOTS_BLK_SIZE - 1)) / INTERPROCESS_SLOTS_BLK_SIZE.

Lemma blocks_for_step n : 1018 < n -> blocks_for n = 1 + blocks_for (n - 1018).
Proof.
  intros Hn. unfold blocks_for, INTERPROCESS_SLOTS_BLK_SIZE.
  replace (n + (1018 - 1)) with ((n - 1018 + (1018 - 1)) + 1 * 1018) by lia. rewrite Z.div_add by lia. lia.
Qed.

Lemma blocks_for_one n : 0 < n <= 1018 -> blocks_for n = 1.
Proof.
  intros Hn. unfold blocks_for, INTERPROCESS_SLOTS_BLK_SIZE. symmetry.
  apply (Z.div_unique _ _ 1 (n - 1)); lia.
Qed.

Lemma fill_ok b src n lst :
  Z.of_nat (length (data b)) = 1018 -> 0 < n <= 1018 -> n <= Z.of_nat (length src) ->
  block_ok (fill b src n lst) /\ block_bytes (fill b src n lst) = take (Z.to_nat n) src
  /\ Z.of_nat (length (data (fill b src n lst))) = 1018.
Proof.
  intros Hb Hn Hs. unfold fill, block_ok, block_bytes, mem_read. simpl. rewrite memcpy_at_length, drop_0.
  split; [lia|]. split; [|done]. apply list_eq. intros i. destruct (decide (i < Z.to_nat n)%nat).
  - rewrite !lookup_take_lt by done. rewrite memcpy_at_inside by lia. by rewrite Nat.sub_0_r.
  - by rewrite !lookup_take_ge by lia.
Qed.

(** The link from the previous block to the new one. *)
Definition link mem (prev_blk blk : Z) : list element :=
  if prev_blk =? -1 then mem else alter (fun b => set_next b blk) (Z.to_nat prev_blk) mem.

Lemma link_length mem p b : length (link mem p b) = length mem.
Proof. unfold link. destruct (p =? -1); [done|]. apply length_alter. Qed.

Lemma link_other mem p b (i : nat) : 0 <= p \/ p = -1 -> Z.of_nat i <> p -> link mem p b !! i = mem !! i.
Proof.
  intros Hp Hi. unfold link. destruct (Z.eqb_spec p (-1)); [done|]. apply list_lookup_alter_ne. lia.
Qed.

Lemma link_blocks_ok mem p b : blocks_ok mem -> blocks_ok (link mem p b).
Proof.
  intros H. unfold link. destruct (p =? -1); [done|]. apply Forall_alter; [done|]. by intros x _ Hx.
Qed.

(** What [pushdata] leaves when the free blocks are enough. *)
Definition pushed mem q (src : list Z) (prev_blk : Z) mem' q' (ts : list Z) (b0 : Z) : Prop :=
  a_ok q' /\ tokens q = ts ++ tokens q' /\ head ts = Some b0 /\ chain mem' b0 ts src
  /\ Z.of_nat (length ts) = blocks_for (Z.of_nat (length src))
  /\ length mem' = length mem /\ blocks_ok mem'
  /\ forall i : nat, (Z.of_nat i ∉ ts) -> mem' !! i = link mem prev_blk b0 !! i.

(** The bytes the next block takes. *)
Definition chunk (src : list Z) : Z :=
  let sz := Z.of_nat (length src) in
  if sz <? INTERPROCESS_SLOTS_BLK_SIZE then sz else INTERPROCESS_SLOTS_BLK_SIZE.

Lemma chunk_bounds src : src <> [] ->
  0 < chunk src <= 1018 /\ chunk src <= Z.of_nat (length src)
  /\ (chunk src < Z.of_nat (length src) -> chunk src = 1018).
Proof.
  intros Hne. assert (0 < Z.of_nat (length src)) by (destruct src; simpl; [done|lia]).
  unfold chunk, INTERPROCESS_SLOTS_BLK_SIZE. destruct (Z.ltb_spec (Z.of_nat (length src)) 1018); lia.
Qed.

(** The memory after a turn that put the next chunk into [blk]. *)
Definition filled mem (prev blk : Z) src mem1 : Prop :=
  length mem1 = length mem /\ blocks_ok mem1
  /\ (forall i : nat, Z.of_nat i <> blk -> mem1 !! i = link mem prev blk !! i)
  /\ exists b, mem1 !! Z.to_nat blk = Some b /\ block_ok b /\ block_bytes b = take (Z.to_nat (chunk src)) src
       /\ (chunk src = Z.of_nat (length src) -> next_ptr b = -1).

Lemma pushdata_turn isRDMA fuel mem q src prev ret posted blk ts :
  a_ok q -> tokens q = blk :: ts -> 0 <= blk < Z.of_nat (length mem) -> blocks_ok mem -> src <> [] ->
  (prev = -1 \/ 0 <= prev < Z.of_nat (length mem)) ->
  exists mem1 q1, a_ok q1 /\ tokens q1 = ts /\ filled mem prev blk src mem1
    /\ pushdata_loop isRDMA (S fuel) mem q src prev ret posted
       = pushdata_loop isRDMA fuel mem1 q1 (drop (Z.to_nat (chunk src)) src) blk
           (if prev =? -1 then blk else ret)
           (if isRDMA && negb (prev =? -1) then posted ++ [prev] else posted).
Proof.
  intros Hok Et Hb Hbl Hne Hprev. destruct (a_pop_law q Hok) as (q1 & Hpop & Hok1 & Ht1). rewrite Et in *.
  pose proof (chunk_bounds src Hne) as Hn. cbn [head tail] in *. cbn [pushdata_loop].
  rewrite (proj2 (Z.ltb_lt _ _)), Hpop by lia.
  assert (Hlink : (if prev =? -1 then Some mem else if Z.of_nat (length mem) <=? prev then None
      else Some (alter (fun b => set_next b blk) (Z.to_nat prev) mem)) = Some (link mem prev blk)).
  { unfold link. destruct (Z.eqb_spec prev (-1)); [done|]. by rewrite (proj2 (Z.leb_gt _ _)) by lia. }
  rewrite Hlink, link_length. rewrite (proj2 (Z.ltb_ge blk 0)), (proj2 (Z.leb_gt _ blk)) by lia. cbn [orb].
  fold (chunk src). set (lst := Z.of_nat (length src) - chunk src =? 0).
  set (mem1 := alter (fun b => fill b src (chunk src) lst) (Z.to_nat blk) (link mem prev blk)).
  exists mem1, q1. split; [done|]. split; [done|]. split; [|done].
  pose proof (link_blocks_ok mem prev blk Hbl) as Hbl0.
  destruct (lookup_lt_is_Some_2 (link mem prev blk) (Z.to_nat blk)) as [b Hbb]; [rewrite link_length; lia|].
  pose proof (proj1 (Forall_lookup _ _) Hbl0 _ _ Hbb) as Hbd. simpl in Hbd.
  destruct (fill_ok b src (chunk src) lst Hbd ltac:(lia) ltac:(lia)) as (Hfok & Hfby & Hfl).
  split_and!; [unfold mem1; by rewrite length_alter, link_length| | |].
  - apply Forall_alter; [done|]. intros x Hx Hx'. simplify_eq. done.
  - intros i Hi. unfold mem1. apply list_lookup_alter_ne. lia.
  - exists (fill b src (chunk src) lst). split; [unfold mem1; by rewrite list_lookup_alter_eq, Hbb|].
    split; [done|]. split; [done|]. intros E. unfold fill, lst. rewrite E, Z.sub_diag. done.
Qed.

Lemma pushdata_loop_spec isRDMA fuel mem q src prev ret posted :
  a_ok q -> NoDup (tokens q) -> Forall (fun t => 0 <= t < Z.of_nat (length mem)) (tokens q) -> blocks_ok mem ->
  src <> [] -> (length src <= fuel)%nat -> Z.of_nat (length src) <= 1018 * Z.of_nat (length (tokens q)) ->
  (prev = -1 \/ 0 <= prev < Z.of_nat (length mem)) ->
  exists mem' q' posted' ts b0,
    pushdata_loop isRDMA fuel mem q src prev ret posted
    = Some (if prev =? -1 then b0 else ret, mem', q', posted')
    /\ pushed mem q src prev mem' q' ts b0.
Proof.
  revert mem q src prev ret posted.
  induction fuel as [|fuel IH]; intros mem q src prev ret posted Hok Hnd Hrng Hbl Hne Hfuel Hcap Hprev.
  { destruct src; [done|simpl in Hfuel; lia]. }
  destruct (tokens q) as [|blk ts] eqn:Et; [destruct src; simpl in *; [done|lia]|].
  apply NoDup_cons in Hnd as [Hblk Hnd]. apply Forall_cons in Hrng as [Hb Hrng].
  destruct (pushdata_turn isRDMA fuel mem q src prev ret posted blk ts Hok Et Hb Hbl Hne Hprev)
    as (mem1 & q1 & Hok1 & Ht1 & (Hl1 & Hbl1 & Hoth & b & Hb1 & Hfok & Hfby & Hfn) & ->).
  pose proof (chunk_bounds src Hne) as Hn. set (n := chunk src) in *. set (sz := Z.of_nat (length src)) in *.
  destruct (decide (n = sz)) as [Hns|Hns].
  - assert (Hdrop : drop (Z.to_nat n) src = []) by (apply drop_ge; lia). rewrite Hdrop.
    assert (Hp : pushed mem q src prev mem1 q1 [blk] blk).
    { split_and!; [done|by rewrite Et, Ht1|done| |by rewrite blocks_for_one by lia|done|done|].
      - split; [done|]. split; [lia|]. exists b, []. rewrite app_nil_r, Hfby, take_ge, (Hfn Hns) by lia. done.
      - intros i Hi. apply Hoth. intros E. apply Hi. rewrite E. by left. }
    destruct fuel; cbn [pushdata_loop length Z.of_nat Z.ltb Z.compare]; by eexists _, _, _, [blk], blk.
  - assert (Hrest : length (drop (Z.to_nat n) src) = Z.to_nat (sz - 1018)) by (rewrite length_drop; lia).
    destruct (IH mem1 q1 (drop (Z.to_nat n) src) blk (if prev =? -1 then blk else ret)
      (if isRDMA && negb (prev =? -1) then posted ++ [prev] else posted))
      as (mem' & q' & posted' & ts' & b0 & -> & Hok' & Ht' & Hh' & Hc' & Hlen' & Hml' & Hbl' & Hm');
      rewrite ?Ht1, ?Hl1, ?Hrest; try done; try lia.
    { intros E. rewrite E in Hrest. simpl in Hrest. lia. }
    { cbn [length] in Hcap. lia. }
    destruct (Z.eqb_spec blk (-1)) as [|_]; [lia|]. rewrite Hl1 in Hml'. rewrite Ht1 in Ht'.
    assert (Hbt : (blk ∉ ts')) by (intros Hin; apply Hblk; rewrite Ht'; apply elem_of_app; by left).
    eexists _, _, _, (blk :: ts'), blk. split; [by destruct (prev =? -1)|].
    split_and!; [done|by rewrite Et, Ht'|done| | |done|done|].
    + split; [done|]. split; [lia|]. exists (set_next b b0), (drop (Z.to_nat n) src). split_and!; [|done| |done].
      * rewrite Hm' by (rewrite Z2Nat.id by lia; done). unfold link. destruct (Z.eqb_spec blk (-1)) as [|_]; [lia|].
        by rewrite list_lookup_alter_eq, Hb1.
      * change (block_bytes (set_next b b0)) with (block_bytes b). rewrite Hfby. by rewrite take_drop.
    + cbn [length]. fold sz. rewrite Nat2Z.inj_succ, Hlen', Hrest, (blocks_for_step sz), Z2Nat.id by lia. lia.
    + intros i Hi%not_elem_of_cons. destruct Hi as [Hi1 Hi2]. rewrite Hm' by done.
      rewrite link_other by (lia || done). by apply Hoth.
Qed.

(** ** A transfer emptied in several calls *)

Fixpoint pops mem q (loc : Z) (ns : list Z) : option (list (list Z) * Z * list element * Q) :=
  match ns with
  | [] => Some ([], loc, mem, q)
  | n :: ns =>
      match popdata mem q loc n with
      | None => None
      | Some (loc, out, _, mem, q) =>
          match pops mem q loc ns with
          | None => None
          | Some (outs, loc, mem, q) => Some (out :: outs, loc, mem, q)
          end
      end
  end.

Definition total (ns : list Z) : Z := foldr Z.add 0 ns.

Lemma swrap16_small x : -1 <= x < 2 ^ 15 -> swrap16 x = x.
Proof. intros Hx. unfold swrap16. rewrite Z.mod_small by lia. lia. Qed.

Lemma chain_loc mem loc l bytes : chain mem loc l bytes -> -1 <= loc < Z.max 0 (Z.of_nat (length mem)) /\ (loc = -1 <-> bytes = []).
Proof.
  intros Hc. destruct l as [|x l]; simpl in Hc.
  - destruct Hc as [-> ->]. split; [lia|done].
  - destruct Hc as (-> & Hx & b & rest & Hb & Hok & -> & _). apply lookup_lt_Some in Hb. split; [lia|].
    split; [lia|]. intros [E _]%app_eq_nil. pose proof (block_bytes_length b Hok) as H'. rewrite E in H'.
    destruct Hok. simpl in H'. lia.
Qed.

Lemma chain_fits mem loc l bytes : chain mem loc l bytes -> NoDup l -> (length l <= length mem)%nat.
Proof.
  intros Hc Hnd. assert (H : (length l <= length (seqZ 0 (Z.of_nat (length mem))))%nat).
  { apply submseteq_length, NoDup_submseteq; [done|]. intros x Hx. apply elem_of_seqZ.
    pose proof (chain_range _ _ _ _ x Hc Hx). lia. }
  rewrite length_seqZ in H. lia.
Qed.

Lemma popdata_spec mem q loc l bytes n :
  chain mem loc l bytes -> NoDup l -> 0 <= n -> a_ok q ->
  (length (tokens q) + length l <= capacity)%nat -> Z.of_nat (length mem) <= 2 ^ 15 ->
  exists loc' out sz mem' q' left, popdata mem q loc n = Some (loc', out, sz, mem', q')
    /\ sz = Z.min n (Z.of_nat (length bytes)) /\ popped mem q l bytes n loc' left out mem' q'.
Proof.
  intros Hc Hnd Hn Hok Hcap Hlen. pose proof (chain_loc _ _ _ _ Hc) as [Hloc _]. unfold popdata.
  rewrite swrap16_small by lia. pose proof (chain_fits _ _ _ _ Hc Hnd).
  destruct (popdata_loop_spec (length mem) mem q loc l bytes n Hc Hnd Hn Hok Hcap ltac:(lia))
    as (loc' & out & left & mem' & q' & -> & Hp).
  eexists _, _, _, _, _, left. split; [done|]. split; [|done].
  destruct Hp as (l1 & l2 & _ & _ & -> & _). lia.
Qed.

Lemma popdata_loop_blocks_ok rel fuel mem q loc n loc' out left mem' q' :
  popdata_loop rel fuel mem q loc n = Some (loc', out, left, mem', q') -> blocks_ok mem -> blocks_ok mem'.
Proof.
  revert mem q loc n loc' out left mem' q'.
  induction fuel as [|fuel IH]; intros mem q loc n loc' out left mem' q'; cbn [popdata_loop];
    (destruct (negb (loc =? -1) && negb (n =? 0)); [|by intros [= <- <- <- <- <-]]); [done|].
  destruct ((loc <? 0) || _); [done|]. destruct (mem !! Z.to_nat loc) as [b|] eqn:Hb; [|done].
  destruct (take_block b n) as [[[bytes cs] b'] full] eqn:Etb. intros Hl Hbl.
  assert (Hmem : blocks_ok (<[Z.to_nat loc := b']> mem)).
  { apply Forall_insert; [done|]. pose proof (proj1 (Forall_lookup _ _) Hbl _ _ Hb) as Hbd. simpl in *.
    unfold take_block in Etb. by destruct (size b <=? n); injection Etb as _ _ <- _. }
  destruct ((n - cs =? 0) && negb full); [by injection Hl as _ _ _ <- _|].
  destruct (if full && rel then a_push q loc else Some q) as [q1|]; [|done].
  destruct (popdata_loop rel fuel _ q1 (next_ptr b) (n - cs)) as [[[[[loc1 rest] sl] mem1] q2]|] eqn:E; [|done].
  injection Hl as _ _ _ <- _. by eapply IH.
Qed.

Lemma popdata_blocks_ok mem q loc n loc' out sz mem' q' :
  popdata mem q loc n = Some (loc', out, sz, mem', q') -> blocks_ok mem -> blocks_ok mem'.
Proof.
  unfold popdata. destruct (popdata_loop _ _ _ _ _ _) as [[[[[loc1 out1] left] mem1] q1]|] eqn:E; [|done].
  intros [= <- <- <- <- <-]. by eapply popdata_loop_blocks_ok.
Qed.

Lemma pops_spec mem q loc l bytes ns :
  chain mem loc l bytes -> NoDup l -> Forall (fun n => 0 <= n) ns -> a_ok q ->
  (length (tokens q) + length l <= capacity)%nat -> Z.of_nat (length mem) <= 2 ^ 15 ->
  exists outs loc' mem' q' l', pops mem q loc ns = Some (outs, loc', mem', q')
    /\ concat outs = take (Z.to_nat (total ns)) bytes
    /\ chain mem' loc' l' (drop (Z.to_nat (total ns)) bytes) /\ a_ok q'
    /\ tokens q' ++ l' ≡ₚ tokens q ++ l.
Proof.
  revert mem q loc l bytes. induction ns as [|n ns IH]; intros mem q loc l bytes Hc Hnd Hns Hok Hcap Hlen; cbn [pops].
  { eexists _, _, _, _, l. split; [done|]. simpl. by rewrite drop_0. }
  apply Forall_cons in Hns as [Hn Hns].
  destruct (popdata_spec mem q loc l bytes n Hc Hnd Hn Hok Hcap Hlen)
    as (loc1 & out & sz & mem1 & q1 & left & -> & _ & l1 & l2 & -> & -> & _ & Hok1 & Ht1 & Hc1 & Hlen1 & _).
  apply NoDup_app in Hnd as (_ & _ & Hnd2).
  destruct (IH mem1 q1 loc1 l2 (drop (Z.to_nat n) bytes) Hc1 Hnd2 Hns Hok1)
    as (outs & loc' & mem' & q' & l' & -> & Ho & Hc' & Hok' & Hp').
  { rewrite Ht1, length_app. rewrite length_app in Hcap. lia. }
  { by rewrite Hlen1. }
  assert (Hpos : 0 <= total ns) by (clear -Hns; induction Hns; simpl; lia).
  eexists _, _, _, _, l'. split; [done|]. simpl. rewrite Ho, Z2Nat.inj_add by lia. rewrite drop_drop in Hc'.
  split_and!; [|done|done|].
  - by rewrite take_take_drop.
  - rewrite Hp', Ht1. by rewrite <- app_assoc.
Qed.

(** What is pushed into the block buffer is what comes out.  When the free
    blocks are enough for the bytes, [pushdata] returns a block, and calls of
    [popdata] with any sizes return consecutive parts of exactly those bytes;
    the last one reports the end (-1) precisely when nothing is left, and then
    every block that was free before the transfer is free again. *)
Theorem buffer_transfer isRDMA mem q (src : list Z) :
  a_ok q -> NoDup (tokens q) -> Forall (fun t => 0 <= t < Z.of_nat (length mem)) (tokens q) -> blocks_ok mem ->
  (length (tokens q) <= capacity)%nat -> Z.of_nat (length mem) <= 2 ^ 15 ->
  src <> [] -> Z.of_nat (length src) <= 1018 * Z.of_nat (length (tokens q)) ->
  exists b mem1 q1 posted, pushdata isRDMA mem q src = Some (b, mem1, q1, posted) /\ 0 <= b
    /\ forall ns, Forall (fun n => 0 <= n) ns ->
         exists outs loc mem2 q2, pops mem1 q1 b ns = Some (outs, loc, mem2, q2)
           /\ concat outs = take (Z.to_nat (total ns)) src
           /\ (loc = -1 <-> Z.of_nat (length src) <= total ns)
           /\ (Z.of_nat (length src) <= total ns -> tokens q2 ≡ₚ tokens q).
Proof.
  intros Hok Hnd Hrng Hbl Hcap Hlen Hne Hfit.
  destruct (pushdata_loop_spec isRDMA (length src) mem q src (-1) (-1) [] Hok Hnd Hrng Hbl Hne ltac:(lia) Hfit ltac:(by left))
    as (mem1 & q1 & posted & ts & b & Hp & Hok1 & Ht1 & Hh & Hc & _ & Hlen1 & _ & _).
  pose proof (chain_loc _ _ _ _ Hc) as [Hb Hb']. assert (b <> -1) by (rewrite Hb'; done).
  exists b, mem1, q1, posted. split; [exact Hp|]. split; [lia|]. intros ns Hns.
  rewrite Ht1 in Hnd, Hcap. apply NoDup_app in Hnd as (Hnd1 & _ & _). rewrite length_app in Hcap.
  destruct (pops_spec mem1 q1 b ts src ns Hc Hnd1 Hns Hok1 ltac:(lia) ltac:(by rewrite Hlen1))
    as (outs & loc & mem2 & q2 & l' & Hpp & Ho & Hc2 & Hok2 & Hperm).
  exists outs, loc, mem2, q2. split; [done|]. split; [done|].
  pose proof (chain_loc _ _ _ _ Hc2) as [_ Hend].
  assert (Hd : drop (Z.to_nat (total ns)) src = [] <-> Z.of_nat (length src) <= total ns).
  { rewrite <- length_zero_iff_nil, length_drop. assert (0 < length src)%nat by (destruct src; simpl; [done|lia]). lia. }
  split; [by rewrite Hend|]. intros Hall. apply Hd in Hall. rewrite Hall in Hc2.
  destruct l' as [|x l']; [|simpl in Hc2; destruct Hc2 as (_ & _ & bb & rest & _ & Hbb & E & _)].
  - rewrite app_nil_r in Hperm. rewrite Hperm, Ht1. apply Permutation_app_comm.
  - symmetry in E. apply app_eq_nil in E as [E _]. pose proof (block_bytes_length bb Hbb) as H'. rewrite E in H'.
    destruct Hbb. simpl in H'. lia.
Qed.

End facts.

(** ** The lockless queue as the queue of free blocks

    [b_avail]: the end that pushes, the end that pops and the memory.  Both
    ends run with credits disabled: there are never more tokens than blocks. *)

Record availq := mkAvailq {
  av_s : LocklessQueue.queue;
  av_r : LocklessQueue.queue;
  av_m : LocklessQueue.shm Z
}.

Definition AVAIL_SIZE : Z := 2 * INTERPROCESS_SLOTS_IN_BUFFER.

Definition availq_pop_nb (q : availq) : option (option Z * availq) :=
  match LocklessQueue.pop_nb AVAIL_SIZE (av_r q) (av_m q) with
  | None => None
  | Some (v, (r, m, _)) => Some (v, mkAvailq (av_s q) r m)
  end.

Definition availq_push (q : availq) (t : Z) : option availq :=
  match LocklessQueue.push (av_s q) (av_m q) t with
  | None => None
  | Some (s, m, _) => Some (mkAvailq s (av_r q) m)
  end.

(** The tokens a receiver would pop. *)
Fixpoint tokens_from (fuel : nat) (q : availq) (loc : Z) : list Z :=
  match fuel with
  | O => []
  | S fuel =>
      match LocklessQueue.peek (av_r q) (av_m q) loc with
      | Some (t, (true, false)) => t :: tokens_from fuel q (u32 (loc + 1))
      | _ => []
      end
  end.

Definition availq_tokens (q : availq) : list Z :=
  tokens_from (Z.to_nat AVAIL_SIZE) q (LocklessQueue.pointer (av_r q)).

(** The tokens [h] have been pushed, the first [lo] of them popped. *)
Definition availq_rep (q : availq) (h : list Z) (lo : nat) : Prop :=
  LocklessQueue.slots_ok 11 (av_m q) h lo (seq 0 lo)
  /\ LocklessQueue.MASK (av_s q) = AVAIL_SIZE - 1 /\ LocklessQueue.MASK (av_r q) = AVAIL_SIZE - 1
  /\ LocklessQueue.credit_disabled (av_s q) = true
  /\ LocklessQueue.pointer (av_s q) = u32 (Z.of_nat (length h))
  /\ LocklessQueue.pointer (av_r q) = u32 (Z.of_nat lo).

Lemma eleven : 1 <= 11 <= 31.
Proof. lia. Qed.

Lemma tokens_from_rep q h lo : forall fuel i : nat,
  availq_rep q h lo -> (lo <= i <= length h)%nat -> (length h - i <= fuel)%nat -> (i + fuel <= lo + 2048)%nat ->
  tokens_from fuel q (u32 (Z.of_nat i)) = drop i h.
Proof.
  induction fuel as [|fuel IH]; intros i Hr Hi Hf Hroom; cbn [tokens_from].
  { rewrite drop_ge by lia. done. }
  pose proof Hr as (Hs & HMs & HMr & Hd & Hps & Hpr).
  unfold LocklessQueue.peek. rewrite (LocklessQueue.get_slot_at 11 eleven) by done.
  destruct (decide (i < length h)%nat) as [Hlt|Hge].
  - destruct (LocklessQueue.so_live _ _ _ _ _ Hs i ltac:(lia)) as (d & Hd' & ->). simpl.
    rewrite bool_decide_false by (rewrite elem_of_seq; lia).
    rewrite uwrap_add_l. replace (Z.of_nat i + 1) with (Z.of_nat (S i)) by lia.
    rewrite (IH (S i) Hr) by lia. by rewrite (drop_S _ _ _ Hd').
  - destruct (LocklessQueue.so_free _ _ _ _ _ Hs (Z.of_nat i)) as (ele & -> & Hv).
    { change (2 ^ 11) with 2048. lia. }
    simpl. rewrite Hv. rewrite drop_ge by lia. done.
Qed.

Lemma availq_tokens_rep q h lo : availq_rep q h lo -> availq_tokens q = drop lo h.
Proof.
  intros Hr. pose proof Hr as (Hs & _ & _ & _ & _ & Hpr). unfold availq_tokens. rewrite Hpr.
  pose proof (LocklessQueue.so_win _ _ _ _ _ Hs) as [Hw1 Hw2]. change (2 ^ 11) with 2048 in Hw2.
  change (Z.to_nat AVAIL_SIZE) with 2048%nat. apply (tokens_from_rep q h lo); [done|lia..].
Qed.

(** A deletion that frees one element only. *)
Lemma del_loop_one n (r : LocklessQueue.queue) (m : LocklessQueue.shm Z) r' m' p :
  LocklessQueue.deletable r m = true ->
  LocklessQueue.advance AVAIL_SIZE r (LocklessQueue.invalidate r m) = (r', m', p) ->
  LocklessQueue.deletable r' m' = false ->
  LocklessQueue.del_loop AVAIL_SIZE (S (S n)) r m = Some (r', m', p ++ []).
Proof. intros H1 H2 H3. cbn [LocklessQueue.del_loop]. by rewrite H1, H2, H3. Qed.

Lemma availq_pop_rep q h lo :
  availq_rep q h lo ->
  exists q', availq_pop_nb q = Some (h !! lo, q') /\ availq_rep q' h (if decide (lo < length h)%nat then S lo else lo).
Proof.
  intros (Hs & HMs & HMr & Hd & Hps & Hpr). pose proof (LocklessQueue.so_win _ _ _ _ _ Hs) as [Hw1 Hw2].
  unfold availq_pop_nb, LocklessQueue.pop_nb. rewrite Hpr, (LocklessQueue.get_slot_at 11 eleven) by done.
  destruct (decide (lo < length h)%nat) as [Hlt|Hge].
  - destruct (LocklessQueue.so_live _ _ _ _ _ Hs lo ltac:(lia)) as (d & Hd' & ->). cbn [LocklessQueue.isvalid].
    unfold LocklessQueue.del. rewrite Hpr, <- Z.land_assoc, Z.land_diag, Z.eqb_refl.
    pose proof (LocklessQueue.slots_mark 11 eleven (av_r q) _ _ _ _ (seq 0 (S lo)) lo HMr Hs ltac:(lia)) as Hs1.
    specialize (Hs1 ltac:(intros j; rewrite !elem_of_seq; lia)).
    set (m1 := LocklessQueue.mark _ _ _) in *.
    pose proof (LocklessQueue.deletable_live 11 eleven _ _ _ _ _ HMr Hpr Hs1) as Hdel.
    rewrite bool_decide_true in Hdel by (rewrite elem_of_seq; lia).
    pose proof (LocklessQueue.slots_invalidate 11 eleven _ _ _ _ _ HMr Hpr Hs1 Hlt) as Hs2.
    set (m2 := LocklessQueue.invalidate _ _) in *.
    assert (Ha : exists r3 m3 p3, LocklessQueue.advance AVAIL_SIZE (av_r q) m2 = (r3, m3, p3)
      /\ LocklessQueue.slots_ok 11 m3 h (S lo) (seq 0 (S lo)) /\ LocklessQueue.MASK r3 = AVAIL_SIZE - 1
      /\ LocklessQueue.pointer r3 = u32 (Z.of_nat (S lo))).
    { unfold LocklessQueue.advance. simpl. rewrite Hpr, uwrap_add_l.
      replace (Z.of_nat lo + 1) with (Z.of_nat (S lo)) by lia.
      destruct (_ =? _); eexists _, _, _; (split; [done|]); [|done]. split; [by apply LocklessQueue.slots_flag|done]. }
    destruct Ha as (r3 & m3 & p3 & Ha & Hs3 & HM3 & Hp3).
    pose proof (LocklessQueue.deletable_live 11 eleven _ _ _ _ _ HM3 Hp3 Hs3) as Hdel3.
    rewrite bool_decide_false in Hdel3 by (rewrite elem_of_seq; lia).
    change (Z.to_nat AVAIL_SIZE) with (S (S 2046)). rewrite (del_loop_one _ _ _ _ _ _ Hdel Ha Hdel3).
    eexists. split; [by rewrite Hd'|]. by split_and!.
  - destruct (LocklessQueue.so_free _ _ _ _ _ Hs (Z.of_nat lo)) as (ele & -> & ->); [change (2 ^ 11) with 2048 in *; lia|].
    eexists. split; [by rewrite lookup_ge_None_2 by lia|]. by split_and!.
Qed.

Lemma availq_push_rep q h lo t :
  availq_rep q h lo -> (length (drop lo h) < 2048)%nat ->
  exists q', availq_push q t = Some q' /\ availq_rep q' (h ++ [t]) lo.
Proof.
  intros (Hs & HMs & HMr & Hd & Hps & Hpr) Hroom. pose proof (LocklessQueue.so_win _ _ _ _ _ Hs) as [Hw1 Hw2].
  rewrite length_drop in Hroom.
  unfold availq_push, LocklessQueue.push, LocklessQueue.push_nb, LocklessQueue.take_credits. rewrite Hd. simpl.
  eexists. split; [done|]. split_and!; try done; simpl.
  - rewrite Hps. apply (LocklessQueue.slots_put 11 eleven); [done|done|change (2 ^ 11) with 2048; lia|].
    rewrite elem_of_seq. lia.
  - rewrite Hps, uwrap_add_l, length_app. simpl. f_equal. lia.
Qed.

#[export] Program Instance availq_avail : Avail availq := {|
  a_pop_nb := availq_pop_nb;
  a_push := availq_push;
  a_ok q := exists h lo, availq_rep q h lo;
  tokens := availq_tokens;
  capacity := 2048
|}.
Next Obligation.
  intros q (h & lo & Hr). destruct (availq_pop_rep q h lo Hr) as (q' & Hp & Hr'). exists q'.
  rewrite (availq_tokens_rep q h lo Hr). rewrite (availq_tokens_rep q' _ _ Hr'). rewrite Hp.
  split; [by rewrite head_lookup, lookup_drop, Nat.add_0_r|]. split; [by eexists _, _|].
  destruct (decide (lo < length h)%nat); [|by rewrite drop_ge by lia].
  rewrite <- (Nat.add_1_r lo), <- drop_drop. by destruct (drop lo h).
Qed.
Next Obligation.
  intros q t (h & lo & Hr) Hroom. rewrite (availq_tokens_rep q h lo Hr) in *.
  destruct (availq_push_rep q h lo t Hr Hroom) as (q' & Hp & Hr'). exists q'. split; [done|]. split; [by eexists _, _|].
  rewrite (availq_tokens_rep q' _ _ Hr'). destruct Hr as (Hs & _).
  pose proof (LocklessQueue.so_win _ _ _ _ _ Hs) as [Hw _]. by rewrite drop_app_le by lia.
Qed.

(** ** The free blocks at the start

    [interprocess_t::init] for the end that fills the buffer ([pops] its free
    blocks, at position 0) and for the end that empties it (pushes behind the
    first 1024), and the tokens [monitor_init] puts in. *)

Definition avail_end (popper : bool) (m : LocklessQueue.shm Z) : LocklessQueue.queue :=
  let q := (LocklessQueue.init AVAIL_SIZE m popper).1 in
  let q := LocklessQueue.setpointer q (if popper then 0 else INTERPROCESS_SLOTS_IN_BUFFER) in
  LocklessQueue.disable_credit q.

(** [for (i = 0; i < n; ++i) push(i)], the last [n] of [total] tokens. *)
Fixpoint push_tokens (n : nat) (next : Z) (q : LocklessQueue.queue) (m : LocklessQueue.shm Z)
    : option (LocklessQueue.queue * LocklessQueue.shm Z) :=
  match n with
  | O => Some (q, m)
  | S n => match LocklessQueue.push q m next with
           | None => None
           | Some (q, m, _) => push_tokens n (next + 1) q m
           end
  end.

(** The queue of free blocks of one direction after [monitor_init], as its two
    ends see it after their own [init]. *)
Definition avail_start : option availq :=
  let m := LocklessQueue.init_mem AVAIL_SIZE (LocklessQueue.mkShm [] false) 0 in
  match push_tokens (Z.to_nat INTERPROCESS_SLOTS_IN_BUFFER) 0 (avail_end true m) m with
  | None => None
  | Some (_, m) => Some (mkAvailq (avail_end false m) (avail_end true m) (LocklessQueue.set_flag m false))
  end.

Lemma push_tokens_rep n q h r :
  availq_rep (mkAvailq (av_s q) r (av_m q)) h 0 -> (length h + n <= 2048)%nat ->
  exists s' m', push_tokens n (Z.of_nat (length h)) (av_s q) (av_m q) = Some (s', m')
    /\ availq_rep (mkAvailq s' r m') (h ++ seqZ (Z.of_nat (length h)) (Z.of_nat n)) 0.
Proof.
  revert q h. induction n as [|n IH]; intros q h Hr Hn; cbn [push_tokens].
  { exists (av_s q), (av_m q). split; [done|]. by rewrite seqZ_nil, app_nil_r by lia. }
  destruct (availq_push_rep _ h 0 (Z.of_nat (length h)) Hr) as (q' & Hp & Hr'); [rewrite drop_0; lia|].
  unfold availq_push in Hp. simpl in Hp. destruct (LocklessQueue.push _ _ _) as [[[s1 m1] p1]|]; [|done].
  injection Hp as <-. simpl in Hr'.
  destruct (IH (mkAvailq s1 r m1) (h ++ [Z.of_nat (length h)]) Hr') as (s' & m' & Hp' & Hr''); [rewrite length_app; simpl; lia|].
  rewrite length_app in Hp'. simpl in Hp'. rewrite Nat2Z.inj_add in Hp'. simpl in Hp'. exists s', m'. split; [done|].
  rewrite (seqZ_cons _ (Z.of_nat (S n))) by lia. replace (Z.pred (Z.of_nat (S n))) with (Z.of_nat n) by lia.
  rewrite length_app, Nat2Z.inj_add in Hr''. simpl in Hr''. rewrite <- (assoc_L (++)) in Hr''. simpl in Hr''.
  replace (Z.succ (Z.of_nat (length h))) with (Z.of_nat (length h) + 1) by lia. done.
Qed.

Lemma avail_start_rep : exists q, avail_start = Some q /\ availq_rep q (seqZ 0 1024) 0.
Proof.
  set (m := LocklessQueue.init_mem AVAIL_SIZE (LocklessQueue.mkShm [] false) 0).
  assert (Hs : LocklessQueue.slots_ok 11 m [] 0 (seq 0 0)).
  { apply LocklessQueue.slots_taken with [].
    { done. }
    pose proof (LocklessQueue.i_slots _ _ (LocklessQueue.inv_initial 11 eleven 0)) as H. simpl in H.
    change (2 ^ 11) with AVAIL_SIZE in H. exact H. }
  destruct (push_tokens_rep 1024 (mkAvailq (avail_end true m) (avail_end true m) m) [] (avail_end true m))
    as (s' & m' & Hp & Hr); [by split_and!|simpl; lia|].
  unfold avail_start. fold m. change (Z.to_nat INTERPROCESS_SLOTS_IN_BUFFER) with 1024%nat.
  simpl av_s in Hp. simpl av_m in Hp. change (Z.of_nat (length [])) with 0 in Hp. rewrite Hp. eexists. split; [done|].
  destruct Hr as (Hs' & _ & _ & _ & _ & _). change ([] ++ seqZ 0 (Z.of_nat 1024)) with (seqZ 0 1024) in Hs'.
  split; [by apply LocklessQueue.slots_flag|]. clear Hp. by split_and!; vm_compute.
Qed.

Lemma buffer_transfer_witness :
  exists q, avail_start = Some q /\
    exists b mem1 q1 posted, pushdata false (replicate 1024 (mkBlock 0 0 (replicate 1018 0) 0)) q (seqZ 0 2000)
      = Some (b, mem1, q1, posted)
    /\ exists outs loc mem2 q2, pops mem1 q1 b [1500; 500] = Some (outs, loc, mem2, q2) /\ concat outs = seqZ 0 2000 /\ loc = -1.
Proof.
  destruct avail_start_rep as (q & Hq & Hr). exists q. split; [exact Hq|].
  pose proof (availq_tokens_rep _ _ _ Hr) as Ht. rewrite drop_0 in Ht. change (availq_tokens q) with (tokens q) in Ht.
  assert (Hmem : length (replicate 1024 (mkBlock 0 0 (replicate 1018 0) 0)) = 1024%nat) by apply length_replicate.
  destruct (buffer_transfer false (replicate 1024 (mkBlock 0 0 (replicate 1018 0) 0)) q (seqZ 0 2000))
    as (b & mem1 & q1 & posted & Hp & _ & Hpop); rewrite ?Ht, ?Hmem.
  - by eexists _, _.
  - apply NoDup_seqZ.
  - apply Forall_forall. intros t Ht'%elem_of_seqZ. lia.
  - apply Forall_replicate. cbn [data]. by rewrite length_replicate.
  - rewrite length_seqZ. change (@capacity availq _) with 2048%nat. lia.
  - lia.
  - intros E%(f_equal length). by rewrite length_seqZ in E.
  - rewrite !length_seqZ. lia.
  - exists b, mem1, q1, posted. split; [exact Hp|].
    destruct (Hpop [1500; 500] ltac:(by repeat constructor)) as (outs & loc & mem2 & q2 & Hpp & Ho & Hl & _).
    exists outs, loc, mem2, q2. split; [exact Hpp|]. rewrite length_seqZ in Hl. split.
    + rewrite Ho. apply take_ge. rewrite length_seqZ. simpl. lia.
    + apply Hl. simpl. lia.
Defined.

(** With too few free blocks [pushdata] takes them all and still returns the
    first one: the rest of the bytes is lost, and the link of the last block is
    whatever it held before. *)
Theorem pushdata_truncates :
  let mem := replicate 2 (mkBlock 0 0 (replicate 1018 0) 0) in
  exists q mem' q', push_tokens 1 0 (avail_end true (LocklessQueue.init_mem AVAIL_SIZE (LocklessQueue.mkShm [] false) 0))
      (LocklessQueue.init_mem AVAIL_SIZE (LocklessQueue.mkShm [] false) 0) = Some q
    /\ pushdata false mem (mkAvailq q.1 (avail_end true q.2) q.2) (replicate 1500 7) = Some (0, mem', q', [])
    /\ (next_ptr <$> mem' !! 0%nat) = Some 0 /\ availq_tokens q' = [].
Proof. eexists _, _, _. split; [vm_compute; reflexivity|]. split; [vm_compute; reflexivity|]. split; vm_compute; reflexivity. Qed.

End IpBuffer.
