(* ===== verification/Interprocess.v ===== *)
(** * The connection of the prototype

    [common/interprocess_t.{h,cpp}] and [interprocess_local_t] of
    [common/interprocess_t_n.hpp]: the placement of the queues and buffers of a
    connection in its shared memory, and the transfer of a message, whose bytes
    go through the block buffer and whose description goes through a queue that
    the receiver walks with an iterator. *)

From Stdlib Require Import ZArith Lia.
From stdpp Require Import numbers base gmap list.
From S2P Require Import Prelude LocklessQueue IpBuffer.

Module Interprocess.

#[export] Existing Instance IpBuffer.availq_avail.

(** [interprocess_t::cmd] *)
Inductive cmd :=
  | NEW_FD | DATA_TRANSFER | DATA_TRANSFER_ZEROCOPY | DATA_TRANSFER_ZEROCOPY_VECTOR
  | ZEROCOPY_RETURN | ZEROCOPY_RETURN_VECTOR | NOP | CLOSE_FD | RDMA_ACK | RTS_RELAY_ACK
  | RTS_RELAY_DATA | CLOSE_REQ_NORD | CLOSE_REQ_NOWR | CLOSE_ACK_NORD | CLOSE_ACK_NOWR.

#[export] Instance cmd_eq_dec : EqDecision cmd.
Proof. solve_decision. Defined.

(** The members of the union of [queue_t::element]; a message is written and
    read through the same member. *)
Inductive body_t :=
  | data_fd_notify (fd : Z)
  | data_fd_rw (pointer fd : Z)
  | data_fd_rw_zc (fd num_pages page_high page_low : Z)
  | data_fd_rw_zcv (pointer fd num_pages : Z)
  | zc_ret (page num_pages : Z)
  | zc_retv (pointer num_pages : Z)
  | close_fd (req_fd peer_fd : Z)
  | pot_fd_rw (fd : Z) (raw : list Z).

Record element := mkElement { command : cmd; body : body_t }.

#[export] Instance element_inhabited : Inhabited element := populate (mkElement NOP (data_fd_notify 0)).

(** ** Placement *)

Definition INTERPROCESS_SLOTS_IN_QUEUE : Z := 256.
Definition MAX_FD_NUM : Z := 102400000.
Definition sizeof_block : Z := 2 + 2 + IpBuffer.INTERPROCESS_SLOTS_BLK_SIZE + 2.
Definition avail_size : Z := LocklessQueue.getmemsize (2 * IpBuffer.INTERPROCESS_SLOTS_IN_BUFFER).
Definition queue_size : Z := LocklessQueue.getmemsize INTERPROCESS_SLOTS_IN_QUEUE.
Definition blocks_size : Z := sizeof_block * IpBuffer.INTERPROCESS_SLOTS_IN_BUFFER.

(** The parts of a connection as one end addresses them, [false] for index 0;
    a queue with whether [init] makes this end its receiver. *)
Record layout := mkLayout {
  b_avail : bool -> Z * bool;
  q : bool -> Z * bool;
  b : bool -> Z;
  q_emergency : bool -> Z * bool;
  rd_mutex : Z;
  sender_turn : bool -> Z
}.

Section placement.
Context (sizeof_mutex : Z).

Definition get_sharedmem_size : Z :=
  2 * avail_size + 2 * queue_size + 2 * queue_size + 2 * sizeof_block * IpBuffer.INTERPROCESS_SLOTS_IN_BUFFER
  + sizeof_mutex + MAX_FD_NUM * 2.

Definition pick {A} (my_loc i : bool) (mine theirs : A) : A := if bool_decide (i = my_loc) then mine else theirs.

Definition init (memory : Z) (my_loc : bool) : layout :=
  let peer_loc := negb my_loc in
  let m0 := memory in
  let m1 := m0 + avail_size in
  let m2 := m1 + avail_size in
  let m3 := m2 + queue_size in
  let m4 := m3 + queue_size in
  let m5 := m4 + blocks_size in
  let m6 := m5 + blocks_size in
  let m7 := m6 + queue_size in
  let m8 := m7 + queue_size in
  let m9 := m8 + sizeof_mutex in
  let m10 := m9 + MAX_FD_NUM in
  mkLayout (fun i => pick my_loc i (m0, peer_loc) (m1, my_loc))
           (fun i => pick my_loc i (m2, my_loc) (m3, peer_loc))
           (fun i => pick my_loc i m4 m5)
           (fun i => pick my_loc i (m6, my_loc) (m7, peer_loc))
           m8
           (fun i => pick my_loc i m9 m10).

(** The remote address [initRDMA] gives each part. *)
Definition initRDMA (remote : Z) (my_loc : bool) : layout :=
  let peer_loc := negb my_loc in
  let r0 := remote in
  let r1 := u64 (r0 + avail_size) in
  let r2 := u64 (r1 + avail_size) in
  let r3 := u64 (r2 + queue_size) in
  let r4 := u64 (r3 + queue_size) in
  let r5 := u64 (r4 + blocks_size) in
  let r6 := u64 (r5 + blocks_size) in
  let r7 := u64 (r6 + queue_size) in
  mkLayout (fun i => pick my_loc i (r0, peer_loc) (r1, my_loc))
           (fun i => pick my_loc i (r2, my_loc) (r3, peer_loc))
           (fun i => pick my_loc i r4 r5)
           (fun i => pick my_loc i (r6, my_loc) (r7, peer_loc))
           0 (fun _ => 0).

End placement.

(** Both ends of a connection agree on its shared memory.  The queue, the
    emergency queue, the block buffer and the queue of free blocks that one end
    uses for sending (index 0) are those the other end uses for receiving
    (index 1), with the opposite role; the read lock is shared and the turn
    flags correspond; the parts lie one behind the other and fill exactly the
    size the segment is created with; and an RDMA write goes to the same offset
    of the peer's memory. *)
Theorem interprocess_layout (sizeof_mutex base remote : Z) (loc i : bool) :
  0 <= sizeof_mutex -> 0 <= remote -> remote + get_sharedmem_size sizeof_mutex < 2 ^ 64 ->
  let here := init sizeof_mutex base loc in
  let there := init sizeof_mutex base (negb loc) in
  let far := initRDMA remote loc in
  (q here i).1 = (q there (negb i)).1 /\ (q here i).2 = i
  /\ (q_emergency here i).1 = (q_emergency there (negb i)).1 /\ (q_emergency here i).2 = i
  /\ b here i = b there (negb i)
  /\ (b_avail here i).1 = (b_avail there (negb i)).1 /\ (b_avail here i).2 = negb i
  /\ rd_mutex here = rd_mutex there /\ sender_turn here i = sender_turn there (negb i)
  /\ (let parts := [((b_avail here loc).1, avail_size); ((b_avail here (negb loc)).1, avail_size);
                    ((q here loc).1, queue_size); ((q here (negb loc)).1, queue_size);
                    (b here loc, blocks_size); (b here (negb loc), blocks_size);
                    ((q_emergency here loc).1, queue_size); ((q_emergency here (negb loc)).1, queue_size);
                    (rd_mutex here, sizeof_mutex);
                    (sender_turn here loc, MAX_FD_NUM); (sender_turn here (negb loc), MAX_FD_NUM)] in
      foldl (fun a p => if p.1 =? a then a + p.2 else -1) base parts = base + get_sharedmem_size sizeof_mutex)
  /\ (b_avail far i).1 - remote = (b_avail here i).1 - base /\ (q far i).1 - remote = (q here i).1 - base
  /\ b far i - remote = b here i - base /\ (q_emergency far i).1 - remote = (q_emergency here i).1 - base.
Proof.
  intros Hm Hr. unfold get_sharedmem_size, initRDMA, init.
  replace (2 * sizeof_block * IpBuffer.INTERPROCESS_SLOTS_IN_BUFFER) with (2 * blocks_size) by (unfold blocks_size; lia).
  assert (HA : 0 <= avail_size) by done. assert (HB : 0 <= queue_size) by done. assert (HC : 0 <= blocks_size) by done.
  assert (HM : 0 <= MAX_FD_NUM) by done. revert HA HB HC HM.
  generalize avail_size, queue_size, blocks_size, MAX_FD_NUM. intros A B C M HA HB HC HM Hfit.
  repeat rewrite (uwrap_small 64) by (unfold is_uint; lia).
  destruct loc, i; unfold pick; simpl; rewrite ?Z.eqb_refl; split_and!; first [lia | reflexivity].
Qed.

Lemma interprocess_layout_witness :
  (q (init 40 4096 false) false).1 = (q (init 40 4096 true) true).1.
Proof. apply (interprocess_layout 40 4096 8192 false false); vm_compute; congruence. Defined.

(** ** Transfers

    One direction of a connection: the two queues the sender keeps, those the
    receiver keeps, and what is in the shared memory. *)

Record tx := mkTx { t_q : LocklessQueue.queue; t_e : LocklessQueue.queue }.
Record rx := mkRx { r_q : LocklessQueue.queue; r_e : LocklessQueue.queue }.
Record wire (Q : Type) := mkWire {
  w_q : LocklessQueue.shm element;
  w_e : LocklessQueue.shm element;
  w_mem : list IpBuffer.element;
  w_av : Q
}.
Arguments mkWire {Q}.
Arguments w_q {Q}.
Arguments w_e {Q}.
Arguments w_mem {Q}.
Arguments w_av {Q}.

(** [Waits]: spinning until the peer returns credits; [Fatal]: the process
    aborts. *)
Inductive outcome (A : Type) := Done (a : A) | Waits | Fatal.
Arguments Done {A}.
Arguments Waits {A}.
Arguments Fatal {A}.

(** [local_q_type::peek], [del] and [set] at a position. *)
Definition SIZE : Z := INTERPROCESS_SLOTS_IN_QUEUE.

Section ops.
Context {Q : Type} `{!IpBuffer.Avail Q}.
Implicit Types (w : wire Q) (ele : element).

(** The assignment to [zc_retv.pointer], [data_fd_rw.pointer] or
    [data_fd_rw_zcv.pointer]. *)
Definition set_block ele (p : Z) : element :=
  mkElement (command ele)
    match body ele with
    | zc_retv _ n => zc_retv p n
    | data_fd_rw _ fd => data_fd_rw p fd
    | data_fd_rw_zcv _ fd n => data_fd_rw_zcv p fd n
    | o => o
    end.

(** [topush_queue->push(topush_ele); return len;] *)
Definition send (emergency : bool) (t : tx) w ele (len : Z) : outcome (Z * tx * wire Q) :=
  if emergency then
    match LocklessQueue.push (t_e t) (w_e w) ele with
    | Some (e, m, _) => Done (len, mkTx (t_q t) e, mkWire (w_q w) m (w_mem w) (w_av w))
    | None => Waits
    end
  else
    match LocklessQueue.push (t_q t) (w_q w) ele with
    | Some (qq, m, _) => Done (len, mkTx qq (t_e t), mkWire m (w_e w) (w_mem w) (w_av w))
    | None => Waits
    end.

(** The bytes go into the buffer first; without a block nothing is sent. *)
Definition store_and_send (emergency : bool) (t : tx) w ele (bytes : list Z) : outcome (Z * tx * wire Q) :=
  match IpBuffer.pushdata false (w_mem w) (w_av w) bytes with
  | None => Fatal
  | Some (start_loc, mem, av, _) =>
      let w := mkWire (w_q w) (w_e w) mem av in
      let start_loc := IpBuffer.swrap16 start_loc in
      if start_loc =? -1 then Done (0, t, w)
      else send emergency t w (set_block ele start_loc) (Z.of_nat (length bytes))
  end.

Definition push_data (t : tx) w (in_meta : element) (bytes : list Z) : outcome (Z * tx * wire Q) :=
  let len := Z.of_nat (length bytes) in
  if 0 <? len then
    match command in_meta with
    | ZEROCOPY_RETURN => send true t w in_meta len
    | ZEROCOPY_RETURN_VECTOR => store_and_send true t w in_meta bytes
    | DATA_TRANSFER => store_and_send false t w in_meta bytes
    | DATA_TRANSFER_ZEROCOPY => send false t w in_meta len
    | DATA_TRANSFER_ZEROCOPY_VECTOR => store_and_send false t w in_meta bytes
    | _ => Fatal
    end
  else send false t w in_meta len.

Definition is_full (t : tx) : bool := LocklessQueue.is_full (t_q t).

(** [interprocess_local_t::_iterator] *)
Record iterator := mkIter {
  q_pointer : Z;
  q_emergency_pointer : Z;
  is_emergency_done : bool
}.

Definition begin (r : rx) : iterator :=
  mkIter (LocklessQueue.pointer (r_q r)) (LocklessQueue.pointer (r_e r)) false.

Definition it_next (r : rx) w (it : iterator) : option iterator :=
  if is_emergency_done it then Some (mkIter (u32 (q_pointer it + 1)) (q_emergency_pointer it) true)
  else
    let p := u32 (q_emergency_pointer it + 1) in
    match LocklessQueue.peek (r_e r) (w_e w) p with
    | None => None
    | Some (_, (isvalid, _)) => Some (mkIter (q_pointer it) p (negb isvalid))
    end.

(** [peek] may switch from the emergency queue to the normal one. *)
Definition it_peek (r : rx) w (it : iterator) : option (element * (bool * bool) * iterator) :=
  if is_emergency_done it then
    match LocklessQueue.peek (r_q r) (w_q w) (q_pointer it) with
    | None => None
    | Some (o, vd) => Some (o, vd, it)
    end
  else
    match LocklessQueue.peek (r_e r) (w_e w) (q_emergency_pointer it) with
    | None => None
    | Some (o, (isvalid, isdel)) =>
        if isvalid then Some (o, (isvalid, isdel), it)
        else
          match LocklessQueue.peek (r_q r) (w_q w) (q_pointer it) with
          | None => None
          | Some (o, vd) => Some (o, vd, mkIter (q_pointer it) (q_emergency_pointer it) true)
          end
    end.

(** After a deletion the iterator is at the front of its queue. *)
Definition it_del (r : rx) w (it : iterator) : option (rx * wire Q * iterator) :=
  if is_emergency_done it then
    match LocklessQueue.del SIZE (r_q r) (w_q w) (q_pointer it) with
    | None => None
    | Some (qq, m, _) => Some (mkRx qq (r_e r), mkWire m (w_e w) (w_mem w) (w_av w),
                               mkIter (LocklessQueue.pointer qq) (q_emergency_pointer it) true)
    end
  else
    match LocklessQueue.del SIZE (r_e r) (w_e w) (q_emergency_pointer it) with
    | None => None
    | Some (e, m, _) => Some (mkRx (r_q r) e, mkWire (w_q w) m (w_mem w) (w_av w),
                              mkIter (q_pointer it) (LocklessQueue.pointer e) false)
    end.

Definition rst_offset (r : rx) w (it : iterator) (c : cmd) (offset : Z) : outcome (wire Q) :=
  match LocklessQueue.peek (if is_emergency_done it then r_q r else r_e r)
                           (if is_emergency_done it then w_q w else w_e w)
                           (if is_emergency_done it then q_pointer it else q_emergency_pointer it) with
  | None => Fatal
  | Some (ele, _) =>
      match c with
      | ZEROCOPY_RETURN_VECTOR | DATA_TRANSFER | DATA_TRANSFER_ZEROCOPY_VECTOR =>
          let ele := set_block ele offset in
          if is_emergency_done it
          then Done (mkWire (LocklessQueue.set (r_q r) (w_q w) (q_pointer it) ele) (w_e w) (w_mem w) (w_av w))
          else Done (mkWire (w_q w) (LocklessQueue.set (r_e r) (w_e w) (q_emergency_pointer it) ele) (w_mem w) (w_av w))
      | _ => Fatal
      end
  end.

(** The block the element points at, for the commands that carry bytes. *)
Definition block_of ele : option Z :=
  match command ele, body ele with
  | ZEROCOPY_RETURN_VECTOR, zc_retv p _ => Some p
  | DATA_TRANSFER, data_fd_rw p _ => Some p
  | DATA_TRANSFER_ZEROCOPY_VECTOR, data_fd_rw_zcv p _ _ => Some p
  | _, _ => None
  end.

(** [pop_data]: the number of bytes, the bytes, and the state. *)
Definition pop_data (r : rx) w (it : iterator) (len : Z) : outcome (Z * list Z * rx * wire Q * iterator) :=
  match it_peek r w it with
  | None => Fatal
  | Some (ele, _, it) =>
      match block_of ele with
      | None => Fatal
      | Some pointer =>
          match IpBuffer.popdata (w_mem w) (w_av w) pointer len with
          | None => Fatal
          | Some (blk, bytes, len, mem, av) =>
              let w := mkWire (w_q w) (w_e w) mem av in
              if blk =? -1 then
                match it_del r w it with
                | None => Fatal
                | Some (r, w, it) => Done (len, bytes, r, w, it)
                end
              else
                match rst_offset r w it (command ele) blk with
                | Done w => Done (len, bytes, r, w, it)
                | Waits => Waits
                | Fatal => Fatal
                end
          end
      end
  end.

End ops.

(** ** What is on the wire

    A cell is an element in the queue with the blocks and the bytes it still
    stands for. *)
Record cell := mkCell { c_ele : element; c_del : bool; c_blks : list Z; c_bytes : list Z }.

Section wires.
Context {Q : Type} `{!IpBuffer.Avail Q}.
Implicit Types (w : wire Q) (L : list cell).

Definition cell_ok (mem : list IpBuffer.element) (c : cell) : Prop :=
  if c_del c then c_blks c = []
  else match block_of (c_ele c) with
       | Some p => IpBuffer.chain mem p (c_blks c) (c_bytes c) /\ c_bytes c <> []
       | None => c_blks c = []
       end.

Definition marks L : list (element * bool) := (fun c => (c_ele c, c_del c)) <$> L.

Definition held L : list Z := concat (c_blks <$> L).

(** A direction of a connection that stands for the cells [L]: the queue holds
    their elements, the emergency queue is empty, and every block of the buffer
    is either free or belongs to exactly one cell.  The buffer has
    [INTERPROCESS_SLOTS_IN_BUFFER] blocks. *)
Record wire_ok (t : tx) (r : rx) w L : Prop := {
  wo_q : LocklessQueue.queue_rep 8 (t_q t) (r_q r) (w_q w) (marks L);
  wo_e : LocklessQueue.queue_rep 8 (t_e t) (r_e r) (w_e w) [];
  wo_av : IpBuffer.a_ok (w_av w);
  wo_nodup : NoDup (IpBuffer.tokens (w_av w) ++ held L);
  wo_range : Forall (fun x => 0 <= x < Z.of_nat (length (w_mem w))) (IpBuffer.tokens (w_av w));
  wo_mem : Z.of_nat (length (w_mem w)) = 1024 /\ IpBuffer.blocks_ok (w_mem w);
  wo_cap : (length (IpBuffer.tokens (w_av w) ++ held L) <= @IpBuffer.capacity Q _)%nat;
  wo_cells : Forall (cell_ok (w_mem w)) L;
  wo_all : IpBuffer.tokens (w_av w) ++ held L ≡ₚ seqZ 0 1024
}.

(** The commands that send bytes through the block buffer and the queue. *)
Definition carries_data (ele : element) : bool :=
  match command ele, body ele with
  | DATA_TRANSFER, data_fd_rw _ _ => true
  | DATA_TRANSFER_ZEROCOPY_VECTOR, data_fd_rw_zcv _ _ _ => true
  | _, _ => false
  end.

Lemma carries_block ele p : carries_data ele = true -> block_of (set_block ele p) = Some p.
Proof. destruct ele as [c bd]. by destruct c, bd. Qed.

Lemma cell_ok_ext mem mem' c :
  (forall x, x ∈ c_blks c -> 0 <= x -> mem' !! Z.to_nat x = mem !! Z.to_nat x) ->
  cell_ok mem c -> cell_ok mem' c.
Proof.
  unfold cell_ok. intros Hm. destruct (c_del c); [done|]. destruct (block_of _); [|done]. intros [Hc Hne].
  split; [|done]. by eapply IpBuffer.chain_ext.
Qed.

Lemma held_app L1 L2 : held (L1 ++ L2) = held L1 ++ held L2.
Proof. unfold held. by rewrite fmap_app, concat_app. Qed.

Lemma held_elem L c x : c ∈ L -> x ∈ c_blks c -> x ∈ held L.
Proof.
  intros Hc Hx. unfold held. apply list_elem_of_In, in_concat. exists (c_blks c).
  split; apply list_elem_of_In; [|done]. apply list_elem_of_fmap. by exists c.
Qed.

(** What [pushdata] does to the buffer of a wire. *)
Lemma store_spec t r w L bytes :
  wire_ok t r w L -> bytes <> [] ->
  Z.of_nat (length bytes) <= 1018 * Z.of_nat (length (IpBuffer.tokens (w_av w))) ->
  exists p mem av posted ts, IpBuffer.pushdata false (w_mem w) (w_av w) bytes = Some (p, mem, av, posted)
    /\ 0 <= p < 2 ^ 15 /\ IpBuffer.a_ok av /\ IpBuffer.tokens (w_av w) = ts ++ IpBuffer.tokens av
    /\ IpBuffer.chain mem p ts bytes /\ length mem = length (w_mem w) /\ IpBuffer.blocks_ok mem
    /\ Forall (cell_ok mem) L.
Proof.
  intros [_ _ Hav Hnd Hrng [Hml Hbl] _ Hcells] Hne Hfit. apply NoDup_app in Hnd as (Hnd & Hdis & _).
  destruct (IpBuffer.pushdata_loop_spec false (length bytes) (w_mem w) (w_av w) bytes (-1) (-1) []
    Hav Hnd Hrng Hbl Hne ltac:(lia) Hfit ltac:(by left))
    as (mem & av & posted & ts & p & Hp & Hok & Ht & Hh & Hc & _ & Hlen & Hbl' & Hm).
  destruct (IpBuffer.chain_loc _ _ _ _ Hc) as [Hr Hr']. assert (p <> -1) by (by rewrite Hr').
  exists p, mem, av, posted, ts. split_and!; [exact Hp|lia|lia|done|done|done|done|done|].
  apply Forall_forall. intros c Hin. rewrite Forall_forall in Hcells. eapply cell_ok_ext; [|by apply Hcells].
  intros x Hx Hx0. rewrite Hm; [done|]. rewrite Z2Nat.id by done. intros Hts.
  apply (Hdis x); [rewrite Ht; apply elem_of_app; by left|by eapply held_elem].
Qed.

(** Sending bytes: a new cell at the end. *)
Lemma push_data_spec t r w L ele bytes :
  wire_ok t r w L -> carries_data ele = true -> bytes <> [] ->
  Z.of_nat (length bytes) <= 1018 * Z.of_nat (length (IpBuffer.tokens (w_av w))) -> (length L < 128)%nat ->
  exists t' w' p blks, push_data t w ele bytes = Done (Z.of_nat (length bytes), t', w')
    /\ wire_ok t' r w' (L ++ [mkCell (set_block ele p) false blks bytes]).
Proof.
  intros Hw Hd Hne Hfit HL. assert (Hpos : 0 < Z.of_nat (length bytes)) by (destruct bytes; simpl; [done|lia]).
  destruct (store_spec t r w L bytes Hw Hne Hfit) as (p & mem & av & posted & ts & Hp & Hr & Hok & Ht & Hc & Hlen & Hbl & Hcells).
  destruct Hw as [Hq He Hav Hnd Hrng [Hml _] Hcap _ Hall].
  destruct (LocklessQueue.rep_push 8 ltac:(lia) _ _ _ _ (set_block ele p) Hq) as (bb & q' & m' & Hpush & Hrep & Hfull).
  destruct bb; [|specialize (Hfull eq_refl); unfold marks in Hfull; rewrite length_fmap in Hfull; change (2 ^ 8 / 2) with 128 in Hfull; lia].
  assert (Hsend : push_data t w ele bytes
    = Done (Z.of_nat (length bytes), mkTx q' (t_e t), mkWire m' (w_e w) mem av)).
  { unfold push_data. rewrite (proj2 (Z.ltb_lt _ _)) by done.
    assert (Hss : store_and_send false t w ele bytes
      = Done (Z.of_nat (length bytes), mkTx q' (t_e t), mkWire m' (w_e w) mem av)).
    { unfold store_and_send. rewrite Hp, IpBuffer.swrap16_small by lia. destruct (Z.eqb_spec p (-1)); [lia|].
      unfold send, LocklessQueue.push. simpl. by rewrite Hpush. }
    destruct ele as [c bd]. by destruct c, bd. }
  exists (mkTx q' (t_e t)), (mkWire m' (w_e w) mem av), p, ts. split; [exact Hsend|].
  assert (Hperm : IpBuffer.tokens av ++ held (L ++ [mkCell (set_block ele p) false ts bytes])
                  ≡ₚ IpBuffer.tokens (w_av w) ++ held L).
  { rewrite held_app, Ht. unfold held at 2. simpl. rewrite app_nil_r. solve_Permutation. }
  split; simpl; try done.
  - unfold marks. by rewrite fmap_app.
  - by rewrite Hperm.
  - rewrite Hlen. rewrite Ht in Hrng. by apply Forall_app in Hrng as [_ Hrng].
  - by rewrite Hlen.
  - by rewrite Hperm.
  - apply Forall_app. split; [done|]. constructor; [|done]. unfold cell_ok. simpl. by rewrite carries_block.
  - by rewrite Hperm.
Qed.

(** The cells left in front after a deletion. *)
Fixpoint drop_front L : list cell :=
  match L with
  | c :: L' => if c_del c then drop_front L' else L
  | [] => []
  end.

Lemma marks_drop_front L : marks (drop_front L) = LocklessQueue.drop_deleted (marks L).
Proof. induction L as [|[e d bl by_] L IH]; [done|]. by destruct d. Qed.

Lemma drop_front_held mem L : Forall (cell_ok mem) L -> held (drop_front L) = held L.
Proof.
  induction 1 as [|c L Hc _ IH]; [done|]. simpl. destruct (c_del c) eqn:E; [|done].
  rewrite IH. unfold cell_ok in Hc. rewrite E in Hc. unfold held. simpl. by rewrite Hc.
Qed.

Lemma drop_front_Forall (P : cell -> Prop) L : Forall P L -> Forall P (drop_front L).
Proof. induction 1; simpl; [constructor|]. destruct (c_del _); [done|by constructor]. Qed.

Lemma marks_insert L (k : nat) c : marks (<[k := c]> L) = <[k := (c_ele c, c_del c)]> (marks L).
Proof. unfold marks. by rewrite list_fmap_insert. Qed.

(** Replacing one cell changes the held blocks by that cell's. *)
Lemma held_insert L (k : nat) c c' :
  L !! k = Some c -> exists rest, held L ≡ₚ c_blks c ++ rest /\ held (<[k := c']> L) ≡ₚ c_blks c' ++ rest.
Proof.
  intros Hk. pose proof (take_drop_middle L k c Hk) as Hs. pose proof (lookup_lt_Some _ _ _ Hk).
  exists (held (take k L) ++ held (drop (S k) L)). split.
  - rewrite <- Hs at 1. rewrite held_app. unfold held at 2. simpl. fold (held (drop (S k) L)). solve_Permutation.
  - rewrite insert_take_drop by done. rewrite held_app. unfold held at 2. simpl. fold (held (drop (S k) L)). solve_Permutation.
Qed.

(** The bytes of the cell at [k] have come out of the buffer; the other cells
    keep theirs. *)
Definition fetched w L (k : nat) c (n blk : Z) mem av (l1 l2 : list Z) : Prop :=
  c_blks c = l1 ++ l2
  /\ IpBuffer.chain mem blk l2 (drop (Z.to_nat n) (c_bytes c))
  /\ IpBuffer.a_ok av /\ IpBuffer.tokens av = IpBuffer.tokens (w_av w) ++ l1
  /\ length mem = length (w_mem w) /\ IpBuffer.blocks_ok mem
  /\ Forall (fun x => 0 <= x < Z.of_nat (length mem)) l1
  /\ forall (j : nat) c', L !! j = Some c' -> j <> k -> cell_ok mem c'.

Lemma fetch_spec t r w L (k : nat) c p n :
  wire_ok t r w L -> L !! k = Some c -> c_del c = false -> block_of (c_ele c) = Some p -> 0 <= n ->
  exists blk mem av l1 l2, IpBuffer.popdata (w_mem w) (w_av w) p n
      = Some (blk, take (Z.to_nat n) (c_bytes c), Z.min n (Z.of_nat (length (c_bytes c))), mem, av)
    /\ fetched w L k c n blk mem av l1 l2.
Proof.
  intros [_ _ Hav Hnd _ [Hml Hbl] Hcap Hcells] Hk Hdel Hp Hn.
  assert (Hc : cell_ok (w_mem w) c) by (by eapply Forall_lookup_1).
  unfold cell_ok in Hc. rewrite Hdel, Hp in Hc. destruct Hc as [Hc Hne].
  destruct (held_insert L k c c Hk) as (rest & Hh & _). rewrite Hh in Hnd, Hcap.
  apply NoDup_app in Hnd as (_ & _ & Hnd). apply NoDup_app in Hnd as (Hnd1 & Hdis & _).
  destruct (IpBuffer.popdata_spec (w_mem w) (w_av w) p (c_blks c) (c_bytes c) n Hc Hnd1 Hn Hav)
    as (blk & out & sz & mem & av & left & Hpop & -> & l1 & l2 & Hl & Ho & _ & Hok & Ht & Hch & Hlen & Hm).
  { rewrite !length_app in Hcap. lia. }
  { lia. }
  exists blk, mem, av, l1, l2. split; [by rewrite Hpop, Ho|]. split_and!; try done.
  - by apply (IpBuffer.popdata_blocks_ok _ _ _ _ _ _ _ _ _ Hpop).
  - apply Forall_forall. intros x Hx. rewrite Hlen. eapply (IpBuffer.chain_range _ _ _ _ x Hc). rewrite Hl. apply elem_of_app. by left.
  - intros j c' Hj Hjk. eapply cell_ok_ext; [|by eapply Forall_lookup_1]. intros x Hx Hx0.
    rewrite Hm; [done|]. rewrite Z2Nat.id by done. intros Hxc. apply (Hdis x Hxc).
    assert (Hin : x ∈ held (<[k := mkCell (c_ele c) true [] []]> L)).
    { apply (held_elem _ c'); [|done]. apply list_elem_of_lookup. exists j. by rewrite list_lookup_insert_ne by done. }
    destruct (held_insert L k c (mkCell (c_ele c) true [] []) Hk) as (rest' & Hh1 & Hh2).
    rewrite Hh2 in Hin. simpl in Hin. rewrite Hh in Hh1. apply Permutation_app_inv_l in Hh1. by rewrite Hh1.
Qed.

(** The iterator stands at the cell [k]. *)
Definition at_cell (r : rx) (it : iterator) (k : nat) : Prop :=
  q_pointer it = u32 (LocklessQueue.pointer (r_q r) + Z.of_nat k)
  /\ (is_emergency_done it = true \/ q_emergency_pointer it = LocklessQueue.pointer (r_e r)).

Lemma cell_bound t r w L (k : nat) c : wire_ok t r w L -> L !! k = Some c -> Z.of_nat k < 2 ^ 8.
Proof.
  intros Hw Hk. pose proof (LocklessQueue.rep_length 8 ltac:(lia) _ _ _ _ (wo_q _ _ _ _ Hw)) as Hl.
  unfold marks in Hl. rewrite length_fmap in Hl. apply lookup_lt_Some in Hk. lia.
Qed.

Lemma it_peek_spec t r w L it (k : nat) c :
  wire_ok t r w L -> at_cell r it k -> L !! k = Some c ->
  it_peek r w it = Some (c_ele c, (true, c_del c), mkIter (q_pointer it) (q_emergency_pointer it) true).
Proof.
  intros Hw [Hq He] Hk.
  destruct (LocklessQueue.rep_peek 8 ltac:(lia) _ _ _ _ k (wo_q _ _ _ _ Hw) (cell_bound _ _ _ _ _ _ Hw Hk)) as (d & bb & v & Hpk & Hl).
  unfold marks in Hl. rewrite list_lookup_fmap, Hk in Hl. destruct Hl as (-> & -> & ->). rewrite <- Hq in Hpk.
  unfold it_peek. rewrite Hpk. destruct it as [qp ep done_]. simpl in *. destruct done_; [done|].
  destruct He as [|He]; [done|].
  destruct (LocklessQueue.rep_peek 8 ltac:(lia) _ _ _ _ O (wo_e _ _ _ _ Hw) ltac:(lia)) as (d & bb & v & Hpe & Hv).
  rewrite (LocklessQueue.rep_pointer _ _ _ _ _ (wo_e _ _ _ _ Hw)), <- He in Hpe. rewrite Hpe. simpl in Hv. by rewrite Hv.
Qed.

Lemma cells_update mem L (k : nat) c c' :
  L !! k = Some c -> cell_ok mem c' ->
  (forall (j : nat) c', L !! j = Some c' -> j <> k -> cell_ok mem c') ->
  Forall (cell_ok mem) (<[k := c']> L).
Proof.
  intros Hk Hc Ho. apply Forall_lookup. intros j cj. destruct (decide (j = k)) as [->|Hne].
  - rewrite list_lookup_insert_eq by (by eapply lookup_lt_Some). by intros [= <-].
  - rewrite list_lookup_insert_ne by done. intros Hj. by apply (Ho j).
Qed.

(** Receiving from a cell: part of its bytes, or all of them. *)
Definition after_pop L (k : nat) c (n blk : Z) (blks : list Z) : list cell :=
  if Z.of_nat (length (c_bytes c)) <=? n then drop_front (<[k := mkCell (c_ele c) true [] []]> L)
  else <[k := mkCell (set_block (c_ele c) blk) false blks (drop (Z.to_nat n) (c_bytes c))]> L.

Lemma block_carries ele p : block_of ele = Some p ->
  (command ele = ZEROCOPY_RETURN_VECTOR \/ command ele = DATA_TRANSFER \/ command ele = DATA_TRANSFER_ZEROCOPY_VECTOR)
  /\ forall x, block_of (set_block ele x) = Some x.
Proof. destruct ele as [c bd]. unfold block_of, set_block. simpl. destruct c, bd; try done; intros _; tauto. Qed.

(** The blocks of a connection are the free ones and those of the cells. *)
Lemma fetched_blocks t r w L (k : nat) c n blk mem av l1 l2 c' :
  wire_ok t r w L -> L !! k = Some c -> fetched w L k c n blk mem av l1 l2 -> c_blks c' = l2 ->
  IpBuffer.tokens av ++ held (<[k := c']> L) ≡ₚ IpBuffer.tokens (w_av w) ++ held L
  /\ Forall (fun x => 0 <= x < Z.of_nat (length mem)) (IpBuffer.tokens av).
Proof.
  intros Hw Hk (Hl & _ & _ & Ht & Hlen & _ & Hl1 & _) Hc'. split.
  - destruct (held_insert L k c c' Hk) as (rest & H1 & H2). rewrite H1, H2, Hl, Ht, Hc'. solve_Permutation.
  - rewrite Ht. apply Forall_app. split; [|done]. rewrite Hlen. apply Hw.
Qed.

(** The wire after the last bytes of a cell were taken. *)
Lemma cell_emptied t r w L (k : nat) c n mem av l1 q' m' :
  wire_ok t r w L -> L !! k = Some c -> fetched w L k c n (-1) mem av l1 [] ->
  LocklessQueue.queue_rep 8 (t_q t) q' m' (LocklessQueue.drop_deleted (<[k := (c_ele c, true)]> (marks L))) ->
  wire_ok t (mkRx q' (r_e r)) (mkWire m' (w_e w) mem av) (drop_front (<[k := mkCell (c_ele c) true [] []]> L)).
Proof.
  intros Hw Hk Hf Hrep. set (c' := mkCell (c_ele c) true [] []).
  destruct (fetched_blocks _ _ _ _ _ _ _ _ _ _ _ _ c' Hw Hk Hf eq_refl) as [Hperm Hrng].
  destruct Hf as (_ & _ & Hok & _ & Hlen & Hbl & _ & Hoth). destruct Hw as [_ He _ Hnd _ [Hml _] Hcap _ Hall].
  pose proof (cells_update mem L k c c' Hk eq_refl Hoth) as Hcells'.
  split; simpl; rewrite ?(drop_front_held mem _ Hcells'), ?Hperm; try done.
  - by rewrite marks_drop_front, marks_insert.
  - by rewrite Hlen.
  - by apply drop_front_Forall.
Qed.

(** The wire after a part of them. *)
Lemma cell_shortened t r w L (k : nat) c p n blk mem av l1 l2 m' :
  wire_ok t r w L -> L !! k = Some c -> block_of (c_ele c) = Some p -> fetched w L k c n blk mem av l1 l2 ->
  drop (Z.to_nat n) (c_bytes c) <> [] ->
  LocklessQueue.queue_rep 8 (t_q t) (r_q r) m' (<[k := (set_block (c_ele c) blk, false)]> (marks L)) ->
  wire_ok t r (mkWire m' (w_e w) mem av)
    (<[k := mkCell (set_block (c_ele c) blk) false l2 (drop (Z.to_nat n) (c_bytes c))]> L).
Proof.
  intros Hw Hk Hp Hf Hne Hrep. set (c' := mkCell (set_block (c_ele c) blk) false l2 (drop (Z.to_nat n) (c_bytes c))).
  destruct (fetched_blocks _ _ _ _ _ _ _ _ _ _ _ _ c' Hw Hk Hf eq_refl) as [Hperm Hrng].
  destruct Hf as (_ & Hch & Hok & _ & Hlen & Hbl & _ & Hoth). destruct Hw as [_ He _ Hnd _ [Hml _] Hcap _ Hall].
  split; simpl; rewrite ?Hperm; try done.
  - by rewrite marks_insert.
  - by rewrite Hlen.
  - apply (cells_update mem L k c); [done| |done]. unfold cell_ok. simpl.
    rewrite (proj2 (block_carries (c_ele c) p Hp)). by split.
Qed.

Lemma pop_data_spec t r w L it (k : nat) c p n :
  wire_ok t r w L -> at_cell r it k -> L !! k = Some c -> c_del c = false -> block_of (c_ele c) = Some p -> 0 <= n ->
  exists r' w' it' blk blks, pop_data r w it n
      = Done (Z.min n (Z.of_nat (length (c_bytes c))), take (Z.to_nat n) (c_bytes c), r', w', it')
    /\ wire_ok t r' w' (after_pop L k c n blk blks).
Proof.
  intros Hw Hat Hk Hdel Hp Hn.
  destruct (fetch_spec t r w L k c p n Hw Hk Hdel Hp Hn) as (blk & mem & av & l1 & l2 & Hpop & Hf).
  unfold pop_data. rewrite (it_peek_spec t r w L it k c Hw Hat Hk), Hp, Hpop.
  pose proof (wo_q _ _ _ _ Hw) as Hq. destruct Hat as [Hqp _]. pose proof Hf as (_ & Hch & _).
  destruct (IpBuffer.chain_loc _ _ _ _ Hch) as [_ Hend].
  assert (Hmk : marks L !! k = Some (c_ele c, false)) by (unfold marks; by rewrite list_lookup_fmap, Hk, <- Hdel).
  assert (Hall : drop (Z.to_nat n) (c_bytes c) = [] <-> Z.of_nat (length (c_bytes c)) <= n).
  { rewrite <- length_zero_iff_nil, length_drop. lia. }
  unfold after_pop. destruct (Z.eqb_spec blk (-1)) as [->|Hblk].
  - rewrite (proj2 (Z.leb_le _ _)) by (by apply Hall, Hend).
    assert (l2 = []) as -> by (destruct l2 as [|x l2]; [done|]; destruct Hch as (<- & ? & _); lia).
    destruct (LocklessQueue.rep_del 8 ltac:(lia) _ _ _ _ k (c_ele c) Hq Hmk) as (q' & m' & Hd & Hrep).
    unfold it_del. cbn [is_emergency_done q_pointer w_q]. rewrite Hqp. change SIZE with (2 ^ 8). rewrite Hd.
    eexists _, _, _, (-1), []. split; [done|]. exact (cell_emptied t r w L k c n mem av l1 q' m' Hw Hk Hf Hrep).
  - assert (Hlt : ~ Z.of_nat (length (c_bytes c)) <= n) by (rewrite <- Hall, <- Hend; done).
    rewrite (proj2 (Z.leb_gt _ _)) by lia. destruct (block_carries (c_ele c) p Hp) as [Hcmd _].
    destruct (LocklessQueue.rep_peek 8 ltac:(lia) _ _ _ _ k Hq (cell_bound _ _ _ _ _ _ Hw Hk)) as (d & bb & v & Hpk' & Hl').
    rewrite Hmk in Hl'. destruct Hl' as (-> & _ & _).
    pose proof (LocklessQueue.rep_set 8 ltac:(lia) _ _ _ _ k (c_ele c) (set_block (c_ele c) blk) Hq Hmk) as Hrep.
    set (m' := LocklessQueue.set _ _ _ _) in Hrep.
    assert (Hrst : rst_offset r (mkWire (w_q w) (w_e w) mem av) (mkIter (q_pointer it) (q_emergency_pointer it) true)
      (command (c_ele c)) blk = Done (mkWire m' (w_e w) mem av)).
    { unfold rst_offset. simpl. rewrite Hqp, Hpk'. by destruct Hcmd as [->|[->| ->]]. }
    rewrite Hrst. eexists _, _, _, blk, l2. split; [done|]. eapply cell_shortened; [done|done|done|done| |done].
    by rewrite Hall.
Qed.

(** Sending an element without bytes. *)
Lemma push_ctl_spec t r w L ele :
  wire_ok t r w L -> block_of ele = None -> (length L < 128)%nat ->
  exists t' w', push_data t w ele [] = Done (0, t', w') /\ wire_ok t' r w' (L ++ [mkCell ele false [] []]).
Proof.
  intros [Hq He Hav Hnd Hrng Hmem Hcap Hcells Hall] Hb HL.
  destruct (LocklessQueue.rep_push 8 ltac:(lia) _ _ _ _ ele Hq) as (bb & q' & m' & Hpush & Hrep & Hfull).
  destruct bb; [|specialize (Hfull eq_refl); unfold marks in Hfull; rewrite length_fmap in Hfull; change (2 ^ 8 / 2) with 128 in Hfull; lia].
  exists (mkTx q' (t_e t)), (mkWire m' (w_e w) (w_mem w) (w_av w)). split.
  { unfold push_data, send, LocklessQueue.push. simpl. by rewrite Hpush. }
  assert (Hh : held (L ++ [mkCell ele false [] []]) = held L) by (rewrite held_app; unfold held at 2; simpl; by rewrite app_nil_r).
  split; cbn [t_q t_e w_q w_e w_mem w_av]; rewrite ?Hh; try done.
  - unfold marks. by rewrite fmap_app.
  - apply Forall_app. split; [done|]. apply Forall_singleton. unfold cell_ok. simpl. by rewrite Hb.
Qed.

(** Behind the last element there is nothing. *)
Lemma it_peek_end t r w L it :
  wire_ok t r w L -> at_cell r it (length L) -> (length L < 256)%nat ->
  exists o d, it_peek r w it = Some (o, (false, d), mkIter (q_pointer it) (q_emergency_pointer it) true).
Proof.
  intros Hw [Hq He] HL.
  destruct (LocklessQueue.rep_peek 8 ltac:(lia) _ _ _ _ (length L) (wo_q _ _ _ _ Hw) ltac:(lia)) as (d & bb & v & Hpk & Hl).
  unfold marks in Hl. rewrite list_lookup_fmap, lookup_ge_None_2 in Hl by done. simpl in Hl. subst v. rewrite <- Hq in Hpk.
  exists d, bb. unfold it_peek. rewrite Hpk. destruct it as [qp ep done_]. simpl in *. destruct done_; [done|].
  destruct He as [|He]; [done|].
  destruct (LocklessQueue.rep_peek 8 ltac:(lia) _ _ _ _ O (wo_e _ _ _ _ Hw) ltac:(lia)) as (d' & bb' & v & Hpe & Hv).
  rewrite (LocklessQueue.rep_pointer _ _ _ _ _ (wo_e _ _ _ _ Hw)), <- He in Hpe. rewrite Hpe. simpl in Hv. by rewrite Hv.
Qed.

Lemma at_cell_begin t r w L : wire_ok t r w L -> at_cell r (begin r) 0.
Proof.
  intros Hw. split; simpl; [|by right]. by rewrite (LocklessQueue.rep_pointer _ _ _ _ _ (wo_q _ _ _ _ Hw)).
Qed.

Lemma at_cell_next r w it (k : nat) :
  is_emergency_done it = true -> at_cell r it k -> exists it', it_next r w it = Some it' /\ at_cell r it' (S k).
Proof.
  intros Hd [Hq _]. unfold it_next. rewrite Hd. eexists. split; [done|]. split; simpl; [|by left].
  rewrite Hq, uwrap_add_l. f_equal. lia.
Qed.

(** Deleting an element that has no blocks. *)
Lemma it_del_spec t r w L it (k : nat) c :
  wire_ok t r w L -> is_emergency_done it = true -> at_cell r it k -> L !! k = Some c -> c_del c = false -> c_blks c = [] ->
  exists r' w' it', it_del r w it = Some (r', w', it')
    /\ wire_ok t r' w' (drop_front (<[k := mkCell (c_ele c) true [] []]> L)).
Proof.
  intros Hw Hd [Hqp _] Hk Hdel Hb. pose proof Hw as [Hq He Hav Hnd Hrng Hmem Hcap Hcells Hall].
  assert (Hmk : marks L !! k = Some (c_ele c, false)) by (unfold marks; by rewrite list_lookup_fmap, Hk, <- Hdel).
  destruct (LocklessQueue.rep_del 8 ltac:(lia) _ _ _ _ k (c_ele c) Hq Hmk) as (q' & m' & Hdl & Hrep).
  unfold it_del. rewrite Hd, Hqp. change SIZE with (2 ^ 8). rewrite Hdl. eexists _, _, _. split; [done|].
  set (c' := mkCell (c_ele c) true [] []).
  pose proof (cells_update (w_mem w) L k c c' Hk eq_refl (fun j cj Hj _ => Forall_lookup_1 _ _ _ _ Hcells Hj)) as Hcells'.
  destruct (held_insert L k c c' Hk) as (rest & H1 & H2). rewrite Hb in H1. simpl in H1, H2.
  assert (Hheld : held (drop_front (<[k := c']> L)) ≡ₚ held L) by (by rewrite (drop_front_held _ _ Hcells'), H1, H2).
  split; cbn [r_q r_e w_q w_e w_mem w_av]; rewrite ?Hheld; try done.
  - by rewrite marks_drop_front, marks_insert.
  - by apply drop_front_Forall.
Qed.

End wires.

(** ** The start

    One direction after [monitor_init] and the [init] of both ends. *)
Definition zero_element : element := mkElement NOP (data_fd_notify 0).

Definition monitor_init : option (tx * rx * wire IpBuffer.availq) :=
  let m := LocklessQueue.init_mem SIZE (LocklessQueue.mkShm [] false) zero_element in
  let s := (LocklessQueue.init SIZE m false).1 in
  let '(r, m) := LocklessQueue.init SIZE m true in
  match IpBuffer.avail_start with
  | None => None
  | Some av =>
      let blk := IpBuffer.mkBlock 0 0 (replicate (Z.to_nat IpBuffer.INTERPROCESS_SLOTS_BLK_SIZE) 0) 0 in
      Some (mkTx s s, mkRx r r, mkWire m m (replicate (Z.to_nat IpBuffer.INTERPROCESS_SLOTS_IN_BUFFER) blk) av)
  end.

Lemma monitor_init_ok :
  exists t r w, monitor_init = Some (t, r, w) /\ wire_ok t r w [] /\ IpBuffer.tokens (w_av w) = seqZ 0 1024.
Proof.
  unfold monitor_init. destruct IpBuffer.avail_start_rep as (av & -> & Hav).
  pose proof (IpBuffer.availq_tokens_rep _ _ _ Hav) as Ht. rewrite drop_0 in Ht. change (IpBuffer.availq_tokens av) with (IpBuffer.tokens av) in Ht.
  pose proof (LocklessQueue.rep_initial 8 ltac:(lia) zero_element) as Hr. change (2 ^ 8) with SIZE in Hr. cbv zeta in Hr.
  set (m := LocklessQueue.init_mem SIZE (LocklessQueue.mkShm [] false) zero_element) in *.
  destruct (LocklessQueue.init SIZE m true) as [rq m0]. eexists _, _, _. split; [done|]. split; [|exact Ht].
  split; unfold held; cbn [w_q w_e w_mem w_av t_q t_e r_q r_e]; rewrite ?app_nil_r, ?Ht, ?length_replicate; try done.
  - by eexists _, _.
  - apply NoDup_seqZ.
  - apply Forall_forall. intros x Hx%elem_of_seqZ. change (Z.to_nat IpBuffer.INTERPROCESS_SLOTS_IN_BUFFER) with 1024%nat. lia.
  - split; [by vm_compute|]. apply Forall_replicate. cbn [IpBuffer.data]. by rewrite length_replicate.
  - cbn [fmap list_fmap concat app]. rewrite ?app_nil_r, length_seqZ. change (@IpBuffer.capacity IpBuffer.availq _) with 2048%nat. lia.
Qed.

(** C12: a connection carries messages without loss.  A direction of a
    connection with nothing in its emergency queue stands for the list of the
    messages that were sent and not yet taken, each with the bytes still to be
    read.  With less than 128 messages in the queue, [push_data] of a non-empty
    run of bytes that fit into the free blocks appends a message with exactly
    those bytes, and returns their number.  [pop_data] at any message returns its
    next bytes, as many as asked or as there are; a message that has bytes left
    stays with the rest of them, and one that has none is deleted.  The other
    messages keep theirs, and after both every block of the buffer is either in
    the queue of free blocks or part of exactly one message, so that none is lost
    or used twice. *)
Theorem interprocess_transfer {Q} `{!IpBuffer.Avail Q} (t : tx) (r : rx) (w : wire Q) (L : list cell) :
  wire_ok t r w L ->
  (forall ele bytes, carries_data ele = true -> bytes <> [] ->
     Z.of_nat (length bytes) <= 1018 * Z.of_nat (length (IpBuffer.tokens (w_av w))) -> (length L < 128)%nat ->
     exists t' w' p blks, push_data t w ele bytes = Done (Z.of_nat (length bytes), t', w')
       /\ wire_ok t' r w' (L ++ [mkCell (set_block ele p) false blks bytes]))
  /\ (forall it (k : nat) c p n, at_cell r it k -> L !! k = Some c -> c_del c = false ->
        block_of (c_ele c) = Some p -> 0 <= n ->
        exists r' w' it' blk blks, pop_data r w it n
            = Done (Z.min n (Z.of_nat (length (c_bytes c))), take (Z.to_nat n) (c_bytes c), r', w', it')
          /\ wire_ok t r' w' (after_pop L k c n blk blks)).
Proof.
  intros Hw. split.
  - intros ele bytes. by apply push_data_spec.
  - intros it k c p n. by apply pop_data_spec.
Qed.

Lemma interprocess_transfer_witness :
  exists t r w, monitor_init = Some (t, r, w) /\
    exists t' w' (blks : list Z), push_data t w (mkElement DATA_TRANSFER (data_fd_rw 0 3)) [1; 2; 3] = Done (3, t', w')
      /\ IpBuffer.tokens (w_av w') ++ blks ++ [] ≡ₚ seqZ 0 1024
      /\ exists r'' w'' it'', pop_data r w' (begin r) 2 = Done (2, [1; 2], r'', w'', it'').
Proof.
  destruct monitor_init_ok as (t & r & w & Hm & Hw & Ht). exists t, r, w. split; [exact Hm|].
  destruct (interprocess_transfer t r w [] Hw) as [Hpush _].
  destruct (Hpush (mkElement DATA_TRANSFER (data_fd_rw 0 3)) [1; 2; 3]) as (t' & w' & p & blks & Hp & Hw').
  - reflexivity.
  - discriminate.
  - rewrite Ht, length_seqZ. simpl. lia.
  - simpl. lia.
  - exists t', w', blks. split; [exact Hp|]. split.
    + exact (wo_all _ _ _ _ Hw').
    + destruct (interprocess_transfer t' r w' _ Hw') as [_ Hpop].
      destruct (Hpop (begin r) 0%nat (mkCell (mkElement DATA_TRANSFER (data_fd_rw p 3)) false blks [1; 2; 3]) p 2)
        as (r'' & w'' & it'' & blk & bl & Hr & _); [|reflexivity|reflexivity|reflexivity|lia|].
      * exact (at_cell_begin _ _ _ _ Hw').
      * exists r'', w'', it''. exact Hr.
Defined.

(** When the free blocks do not suffice, the message is sent all the same with
    the bytes that fitted, and [push_data] reports all of them as sent. *)
Theorem push_data_reports_lost_bytes :
  let av := IpBuffer.mkAvailq (IpBuffer.avail_end false (LocklessQueue.mkShm [] false))
              (IpBuffer.avail_end true (LocklessQueue.mkShm [] false))
              (LocklessQueue.mkShm (LocklessQueue.mkElement 0 true false
                                    :: replicate 2047 (LocklessQueue.mkElement 0 false false)) false) in
  let m := LocklessQueue.init_mem SIZE (LocklessQueue.mkShm [] false) zero_element in
  let s := (LocklessQueue.init SIZE m false).1 in
  let mem := [IpBuffer.mkBlock 0 0 (replicate 1018 0) 0] in
  exists t' w', push_data (mkTx s s) (mkWire m m mem av) (mkElement DATA_TRANSFER (data_fd_rw 0 3)) (replicate 1500 7)
      = Done (1500, t', w')
    /\ (IpBuffer.size <$> w_mem w' !! O) = Some 1018 /\ IpBuffer.tokens (w_av w') = [].
Proof. eexists _, _. split; [vm_compute; reflexivity|]. split; vm_compute; reflexivity. Qed.

End Interprocess.
