(* ===== verification/ProtoMonitor.v ===== *)
(** * The monitor of the prototype

    [src/monitor]: the processes that attached ([process.cpp]), the listeners
    and connections ([sock_monitor.cpp]), the relaying of RDMA set-up messages
    ([rdma_monitor.cpp]) and the event loop ([main.cpp]).  A handler is a
    computation on the monitor's state that may push control messages into the
    queues of processes and may end the monitor ([FATAL], or an access outside
    a container) or stop it for good: a push into a queue whose 256 slots are
    full spins until the process takes messages out.  Both are [None]. *)

From Stdlib Require Import ZArith Lia.
From stdpp Require Import numbers base gmap list.
From S2P Require Import Prelude DArray AdjList LocklessQueue Metaqueue.
Import Metaqueue.

Module ProtoMonitor.

(** ** State *)

Record process_sturc := mkProc {
  isRDMA : bool;
  pid : Z;
  tid : Z;
  uniq_shmem_id : Z;
  token : Z;
  mq_base : Z;            (* where [init_memlayout] placed [metaqueue] *)
  glb_ref : Z
}.

#[export] Instance process_inhabited : Inhabited process_sturc := populate (mkProc false 0 0 0 0 0 0).

Record monitor_sock_adjlist_t := mkListener { peer_fd : Z; peer_qid : Z; is_accepting : bool }.
Record monitor_sock_node_t := mkNode { is_listening : Z; is_blocking : Z; is_addrreuse : Z }.
Record interprocess_buf_map_t := mkBuf { buffer_key : Z; loc : Z }.

#[export] Instance listener_inhabited : Inhabited monitor_sock_adjlist_t := populate (mkListener 0 0 false).
#[export] Instance node_inhabited : Inhabited monitor_sock_node_t := populate (mkNode 0 0 0).

Definition port_table : Type := AdjList.adjlist monitor_sock_node_t monitor_sock_adjlist_t.

(** The part of [remote_process_t] that is not an RDMA object. *)
Record remote_process_t := mkRemote { r_rkey : Z; remote_buf_ptr : Z; r_qid : Z }.

#[export] Instance remote_inhabited : Inhabited remote_process_t := populate (mkRemote 0 0 0).

(** The globals of the monitor; [thr_counter] is [counter] of [main.cpp].
    [segments] are the keys of the connection segments that
    [interprocess_t::monitor_init] has initialised, [inbox] holds the elements
    in the queue [q[1]] of each process, and [q_credits] the credits the monitor
    has for [q[0]] ([false]) and [q_emergency[0]] ([true]) of each process, with
    those the process has returned. *)
Record monitor := mkMonitor {
  process : DArray.darray_t process_sturc;
  tidmap : gmap Z Z;
  ports : port_table;
  interprocess_buf_idx : gmap Z (gmap Z (list interprocess_buf_map_t));
  interprocess_key2tid : gmap Z (Z * Z);
  rdma_id2key : gmap Z (gmap Z interprocess_buf_map_t);
  rdma_key2qid : gmap Z (Z * Z);
  rdma_processes : DArray.darray_t remote_process_t;
  rdma_processes_seq : Z;
  current_q_counter : Z;
  thr_counter : Z;
  segments : list Z;
  inbox : gmap Z (list metaqueue_ctl_element);
  q_credits : gmap (Z * bool) Z
}.

(** A push into the queue of a process. *)
Record out := mkOut { dest : Z; emergency : bool; ele : metaqueue_ctl_element }.

Definition set_process (m : monitor) v : monitor :=
  mkMonitor v (tidmap m) (ports m) (interprocess_buf_idx m) (interprocess_key2tid m)
    (rdma_id2key m) (rdma_key2qid m) (rdma_processes m) (rdma_processes_seq m)
    (current_q_counter m) (thr_counter m) (segments m) (inbox m) (q_credits m).
Definition set_tidmap (m : monitor) v : monitor :=
  mkMonitor (process m) v (ports m) (interprocess_buf_idx m) (interprocess_key2tid m)
    (rdma_id2key m) (rdma_key2qid m) (rdma_processes m) (rdma_processes_seq m)
    (current_q_counter m) (thr_counter m) (segments m) (inbox m) (q_credits m).
Definition set_ports (m : monitor) v : monitor :=
  mkMonitor (process m) (tidmap m) v (interprocess_buf_idx m) (interprocess_key2tid m)
    (rdma_id2key m) (rdma_key2qid m) (rdma_processes m) (rdma_processes_seq m)
    (current_q_counter m) (thr_counter m) (segments m) (inbox m) (q_credits m).
Definition set_buf_idx (m : monitor) v : monitor :=
  mkMonitor (process m) (tidmap m) (ports m) v (interprocess_key2tid m) (rdma_id2key m)
    (rdma_key2qid m) (rdma_processes m) (rdma_processes_seq m) (current_q_counter m)
    (thr_counter m) (segments m) (inbox m) (q_credits m).
Definition set_key2tid (m : monitor) v : monitor :=
  mkMonitor (process m) (tidmap m) (ports m) (interprocess_buf_idx m) v (rdma_id2key m)
    (rdma_key2qid m) (rdma_processes m) (rdma_processes_seq m) (current_q_counter m)
    (thr_counter m) (segments m) (inbox m) (q_credits m).
Definition set_rdma (m : monitor) v w : monitor :=
  mkMonitor (process m) (tidmap m) (ports m) (interprocess_buf_idx m) (interprocess_key2tid m) v w
    (rdma_processes m) (rdma_processes_seq m) (current_q_counter m) (thr_counter m) (segments m)
    (inbox m) (q_credits m).
Definition set_remote (m : monitor) v w : monitor :=
  mkMonitor (process m) (tidmap m) (ports m) (interprocess_buf_idx m) (interprocess_key2tid m)
    (rdma_id2key m) (rdma_key2qid m) v w (current_q_counter m) (thr_counter m) (segments m)
    (inbox m) (q_credits m).
Definition set_counter (m : monitor) v : monitor :=
  mkMonitor (process m) (tidmap m) (ports m) (interprocess_buf_idx m) (interprocess_key2tid m)
    (rdma_id2key m) (rdma_key2qid m) (rdma_processes m) (rdma_processes_seq m) v (thr_counter m)
    (segments m) (inbox m) (q_credits m).
Definition set_thr_counter (m : monitor) v : monitor :=
  mkMonitor (process m) (tidmap m) (ports m) (interprocess_buf_idx m) (interprocess_key2tid m)
    (rdma_id2key m) (rdma_key2qid m) (rdma_processes m) (rdma_processes_seq m)
    (current_q_counter m) v (segments m) (inbox m) (q_credits m).
Definition set_segments (m : monitor) v : monitor :=
  mkMonitor (process m) (tidmap m) (ports m) (interprocess_buf_idx m) (interprocess_key2tid m)
    (rdma_id2key m) (rdma_key2qid m) (rdma_processes m) (rdma_processes_seq m)
    (current_q_counter m) (thr_counter m) v (inbox m) (q_credits m).
Definition set_inbox (m : monitor) v : monitor :=
  mkMonitor (process m) (tidmap m) (ports m) (interprocess_buf_idx m) (interprocess_key2tid m)
    (rdma_id2key m) (rdma_key2qid m) (rdma_processes m) (rdma_processes_seq m)
    (current_q_counter m) (thr_counter m) (segments m) v (q_credits m).
Definition set_credits (m : monitor) v : monitor :=
  mkMonitor (process m) (tidmap m) (ports m) (interprocess_buf_idx m) (interprocess_key2tid m)
    (rdma_id2key m) (rdma_key2qid m) (rdma_processes m) (rdma_processes_seq m)
    (current_q_counter m) (thr_counter m) (segments m) (inbox m) v.

(** ** Computations *)

Definition M (A : Type) : Type := monitor -> option (A * monitor * list out).

#[export] Instance M_ret : MRet M := fun A a m => Some (a, m, []).
#[export] Instance M_bind : MBind M := fun A B k c m =>
  match c m with
  | None => None
  | Some (a, m, o) =>
      match k a m with
      | None => None
      | Some (b, m, o') => Some (b, m, o ++ o')
      end
  end.

Definition fatal {A} : M A := fun _ => None.
Definition gets {A} (f : monitor -> A) : M A := fun m => Some (f m, m, []).
Definition modify (f : monitor -> monitor) : M unit := fun m => Some (tt, f m, []).
(** An access outside a container ends the monitor. *)
Definition need {A} (o : option A) : M A := fun m => match o with Some a => Some (a, m, []) | None => None end.
Definition emit (o : out) : M unit := fun m => Some (tt, m, [o]).

(** ** [process.cpp] *)

Definition MAX_PROCESS_NUM : Z := 1024.

Definition process_init : M unit :=
  modify (fun m => set_process m (DArray.init MAX_PROCESS_NUM (process m))).

Definition process_get (qid : Z) : M process_sturc :=
  p ← gets process; need (DArray.get p qid).

(** The credits for a queue of a process; a position that never held a process
    has none, since its queues have no memory. *)
Definition credits_of (m : monitor) (qid : Z) (emergency : bool) : Z := default 0 (q_credits m !! (qid, emergency)).
Definition set_credits_of (qid : Z) (emergency : bool) (n : Z) (m : monitor) : monitor :=
  set_credits m (<[(qid, emergency) := n]> (q_credits m)).

(** The state after a push: a credit is used. *)
Definition spend (qid : Z) (emergency : bool) (m : monitor) : monitor :=
  set_credits_of qid emergency (credits_of m qid emergency - 1) m.

(** [while (!push_nb(data));] on a full queue: the monitor does not get past it
    before the process takes messages out. *)
Definition waits {A} : M A := fun _ => None.

(** [q[0].push] and [q_emergency[0].push] of the queues of [process[qid]]. *)
Definition push_to (qid : Z) (emergency : bool) (e : metaqueue_ctl_element) : M unit :=
  _ ← process_get qid;
  c ← gets (fun m => credits_of m qid emergency);
  if c <=? 0 then waits
  else _ ← modify (spend qid emergency); emit (mkOut qid emergency e).

(** [init_memlayout] of the queues of a new process: [credits = SIZE]. *)
Definition MAX_METAQUEUE_SIZE : Z := 256.
Definition fresh_credits (id : Z) (m : monitor) : monitor :=
  set_credits_of id true MAX_METAQUEUE_SIZE (set_credits_of id false MAX_METAQUEUE_SIZE m).

(** The system's part of [process_add]: the random token, the key of [ftok] and
    the address the segment is attached at; a failure is fatal. *)
Record add_answers := mkAnswers { a_rand : Z; a_ftok : option Z; a_attach : option Z }.

Definition process_add (p t : Z) (sys : add_answers) : M (Z * Z) :=
  pr ← gets process;
  '(id, pr) ← need (DArray.add pr inhabitant);
  _ ← modify (fun m => set_process m pr);
  match a_ftok sys, a_attach sys with
  | Some key, Some base =>
      let curr_proc := mkProc false p t key (a_rand sys) base 0 in
      _ ← modify (fun m => set_process m (DArray.update (process m) id (fun _ => curr_proc)));
      _ ← modify (fun m => set_inbox m (<[id := []]> (inbox m)));
      _ ← modify (fresh_credits id);
      _ ← modify (fun m => set_tidmap m (<[t := id]> (tidmap m)));
      mret (key, a_rand sys)
  | _, _ => fatal
  end.

(** [1<<64] shifts a 32-bit number by more than its width; on the machine the
    count is taken modulo 32, so the value is 1. *)
Definition process_add_rdma (base rdma_proc_idx : Z) : M unit :=
  pr ← gets process;
  '(id, pr) ← need (DArray.add pr (mkProc true 0 0 0 0 base (1 + rdma_proc_idx)));
  _ ← modify (fun m => set_process m pr);
  _ ← modify (fun m => set_inbox m (<[id := []]> (inbox m)));
  modify (fresh_credits id).

Definition process_del (qid : Z) : M unit :=
  pr ← gets process; pr ← need (DArray.del pr qid); modify (fun m => set_process m pr).

Definition process_isexist (m : monitor) (qid : Z) : bool := DArray.isvalid (process m) qid.
Definition process_gettid (qid : Z) : M Z := p ← process_get qid; mret (tid p).
Definition process_isRDMA (qid : Z) : M bool := p ← process_get qid; mret (isRDMA p).

(** The loop of [process_chk_remove]; [alive] is whether the directory of the
    thread exists in [/proc]. *)
Fixpoint chk_remove_from (fuel : nat) (alive : Z -> Z -> bool) (i : Z) : M unit :=
  match fuel with
  | O => mret tt
  | S fuel =>
      if i =? -1 then mret tt
      else
        p ← process_get i;
        _ ← (if isRDMA p || alive (pid p) (tid p) then mret tt
             else _ ← modify (fun m => set_tidmap m (delete (tid p) (tidmap m))); process_del i);
        pr ← gets process;
        chk_remove_from fuel alive (DArray.iterator_next pr i)
  end.

(** A turn per slot is enough: the iterator only moves forward. *)
Definition process_chk_remove (alive : Z -> Z -> bool) : M unit :=
  pr ← gets process;
  chk_remove_from (S (Z.to_nat (DArray.size pr))) alive (DArray.iterator_init pr).

(** [tidmap[tid]]: a missing entry is created with the value 0. *)
Definition tidmap_at (t : Z) : M Z :=
  tm ← gets tidmap;
  match tm !! t with
  | Some q => mret q
  | None => _ ← modify (fun m => set_tidmap m (<[t := 0]> (tidmap m))); mret 0
  end.

(** ** [sock_monitor.cpp] *)

(** [9837423 + current_q_counter], and the counter moves on. *)
Definition new_key : M Z :=
  c ← gets current_q_counter;
  _ ← modify (fun m => set_counter m (c + 1));
  mret (9837423 + c).

(** [interprocess_buf_idx[a][b].push_back]. *)
Definition buf_push (a b : Z) (v : interprocess_buf_map_t) (m : monitor) : monitor :=
  let inner := default ∅ (interprocess_buf_idx m !! a) in
  set_buf_idx m (<[a := <[b := default [] (inner !! b) ++ [v]]> inner]> (interprocess_buf_idx m)).

(** [attach] is whether the system creates and attaches the segment. *)
Definition buffer_new (attach : Z -> bool) (tid_from tid_to l : Z) : M Z :=
  key ← new_key;
  if attach key then
    _ ← modify (fun m => set_segments m (segments m ++ [key]));
    _ ← modify (buf_push tid_from tid_to (mkBuf key l));
    _ ← modify (buf_push tid_to tid_from (mkBuf key (if l =? 0 then 1 else 0)));
    _ ← modify (fun m => set_key2tid m (<[key := (tid_from, tid_to)]> (interprocess_key2tid m)));
    mret key
  else fatal.

Definition buffer_new_rdma (qid rdmaqid l : Z) : M Z :=
  key ← new_key;
  _ ← modify (fun m =>
        let inner := default ∅ (rdma_id2key m !! qid) in
        set_rdma m (<[qid := <[rdmaqid := mkBuf key l]> inner]> (rdma_id2key m))
                   (<[key := (qid, rdmaqid)]> (rdma_key2qid m)));
  mret key.

Definition buffer_del (tid_from tid_to : Z) : M unit :=
  modify (fun m =>
    let inner := default ∅ (interprocess_buf_idx m !! tid_from) in
    let keys := buffer_key <$> default [] (inner !! tid_to) in
    let m := set_key2tid m (foldr delete (interprocess_key2tid m) keys) in
    let m := set_buf_idx m (<[tid_from := delete tid_to (default ∅ (interprocess_buf_idx m !! tid_from))]> (interprocess_buf_idx m)) in
    set_buf_idx m (<[tid_to := delete tid_from (default ∅ (interprocess_buf_idx m !! tid_to))]> (interprocess_buf_idx m))).

Definition buff_get_handler (m : monitor) (t : Z) : option (gmap Z (list interprocess_buf_map_t)) :=
  interprocess_buf_idx m !! t.

Definition sock_monitor_init : M unit :=
  p ← gets ports;
  p ← need (AdjList.adj_init 65536 p 65536 (mkNode 0 1 0));
  modify (fun m => set_ports m p).

Definition port_get (port : Z) : M monitor_sock_node_t :=
  p ← gets ports; need (AdjList.get_key p port).

(** [ports.begin(port)] and the loop up to the first listener that satisfies
    [P]. *)
Definition find_listener (port : Z) (P : monitor_sock_adjlist_t -> bool) : M AdjList.iterator :=
  p ← gets ports;
  it ← need (AdjList.begin p port);
  '(it, p) ← need (AdjList.find_loop (AdjList.turns p) P p it);
  _ ← modify (fun m => set_ports m p);
  mret it.

Definition accept_handler (port qid : Z) : M unit :=
  node ← port_get port;
  if is_listening node =? 0 then mret tt
  else
    it ← find_listener port (fun l => peer_qid l =? qid);
    if AdjList.it_end it then mret tt
    else modify (fun m => set_ports m (AdjList.it_set (ports m) it (fun l => mkListener (peer_fd l) (peer_qid l) true))).

(** [EADDRINUSE] *)
Definition EADDRINUSE : Z := 98.

Definition listen_handler (port is_reuseaddr qid : Z) : M metaqueue_ctl_element :=
  node ← port_get port;
  if negb (is_listening node =? 0) && (is_addrreuse node =? 0)
  then mret (mkCtl RES_ERROR (resp_command (Some RES_ERROR) (Some EADDRINUSE)))
  else
    _ ← (if is_listening node =? 0
         then modify (fun m => set_ports m (AdjList.update_key (ports m) port
                                  (fun n => mkNode 1 (is_blocking n) is_reuseaddr)))
         else mret tt);
    p ← gets ports;
    '(_, p) ← need (AdjList.add_element p port (mkListener (-1) qid false));
    _ ← modify (fun m => set_ports m p);
    mret (mkCtl RES_SUCCESS (resp_command (Some RES_SUCCESS) None)).

(** The choice of the listener: the first accepting one, after which the list
    starts. *)
Definition dispatch (port : Z) : M (option monitor_sock_adjlist_t) :=
  it ← find_listener port is_accepting;
  if AdjList.it_end it then mret None
  else
    p ← gets ports;
    adjdata ← need (AdjList.it_get p it);
    let p := AdjList.set_ptr_to p port it in
    '(it, p) ← need (AdjList.it_next p it);
    let p := if AdjList.it_end it then p else AdjList.set_ptr_to p port it in
    _ ← modify (fun m => set_ports m p);
    mret (Some adjdata).

Definition connect_error : metaqueue_ctl_element := mkCtl RES_ERROR (resp_command (Some RES_ERROR) None).

(** The key of the new connection; looking up the maps first creates the
    entries of the two processes. *)
Definition connect_key (attach : Z -> bool) (rdma : bool) (qid peer : Z) : M Z :=
  if rdma then
    _ ← modify (fun m => set_rdma m (<[peer := default ∅ (rdma_id2key m !! peer)]> (rdma_id2key m)) (rdma_key2qid m));
    buffer_new_rdma peer qid 0
  else
    selftid ← process_gettid qid;
    _ ← modify (fun m => set_buf_idx m
          (<[selftid := default ∅ (interprocess_buf_idx m !! selftid)]> (interprocess_buf_idx m)));
    peertid ← process_gettid peer;
    buffer_new attach selftid peertid 0.

Definition connect_handler (attach : Z -> bool) (port fd : Z) (rdma : bool) (qid : Z) : M metaqueue_ctl_element :=
  node ← port_get port;
  if is_listening node =? 0 then mret connect_error
  else
    chosen ← dispatch port;
    match chosen with
    | None => mret connect_error
    | Some l =>
        key ← connect_key attach rdma qid (peer_qid l);
        _ ← push_to (peer_qid l) false
              (mkCtl RES_NEWCONNECTION (resp_connect key (Some fd) (Some port) 1 (Some rdma)));
        mret (mkCtl RES_SUCCESS (resp_connect key None None 0 None))
    end.

(** [ports.begin(i).end()] and [is_listening = 0]. *)
Definition unlisten_if_empty (port : Z) : M unit :=
  p ← gets ports;
  it ← need (AdjList.begin p port);
  if AdjList.it_end it
  then modify (fun m => set_ports m (AdjList.update_key (ports m) port
                          (fun n => mkNode 0 (is_blocking n) (is_addrreuse n))))
  else mret tt.

Definition close_handler (port qid : Z) : M unit :=
  node ← port_get port;
  if is_listening node =? 0 then mret tt
  else
    it ← find_listener port (fun l => peer_qid l =? qid);
    if AdjList.it_end it then mret tt
    else
      p ← gets ports;
      '(_, p) ← need (AdjList.del_element p it);
      _ ← modify (fun m => set_ports m p);
      unlisten_if_empty port.

(** The inner loop of [sock_resource_gc]. *)
Fixpoint gc_loop (fuel : nat) (port : Z) (it : AdjList.iterator) : M unit :=
  if AdjList.it_end it then mret tt
  else
    match fuel with
    | O => fatal
    | S fuel =>
        p ← gets ports;
        l ← need (AdjList.it_get p it);
        m ← gets (fun m => m);
        if process_isexist m (peer_qid l) then
          '(it, p) ← need (AdjList.it_next p it);
          _ ← modify (fun m => set_ports m p);
          gc_loop fuel port it
        else
          '(it, p) ← need (AdjList.del_element p it);
          _ ← modify (fun m => set_ports m p);
          _ ← unlisten_if_empty port;
          gc_loop fuel port it
    end.

Definition gc_port (port : Z) : M unit :=
  node ← port_get port;
  if is_listening node =? 0 then mret tt
  else
    p ← gets ports;
    it ← need (AdjList.begin p port);
    gc_loop (AdjList.turns p) port it.

(** [for (int i=0;i<=65535;++i)]. *)
Fixpoint gc_ports (n : nat) (port : Z) : M unit :=
  match n with
  | O => mret tt
  | S n => _ ← gc_port port; gc_ports n (port + 1)
  end.

Definition sock_resource_gc : M unit := gc_ports (Z.to_nat 65536) 0.

(** ** Requests between processes *)

(** The vector of the keys that [old_tid] shares with a peer, which the loop of [fork_handler] walks
    and [buffer_new] appends to. *)
Definition buf_vector (m : monitor) (a b : Z) : list interprocess_buf_map_t :=
  default [] (interprocess_buf_idx m !! a ≫= fun inner => inner !! b).

(** A turn of the inner loop, with its iterator at index [i] of the vector as it
    is now; [false] at the end of the vector.  (In the source the iterator is
    moreover invalid once [push_back] moves the storage.) *)
Definition fork_turn (attach : Z -> bool) (qid old_tid new_tid peer_tid : Z) (i : nat) : M bool :=
  v ← gets (fun m => buf_vector m old_tid peer_tid);
  match v !! i with
  | None => mret false
  | Some old =>
      key4nproc ← buffer_new attach new_tid peer_tid (loc old);
      key4oldproc ← buffer_new attach old_tid peer_tid (loc old);
      _ ← push_to qid false (mkCtl RES_FORK (resp_fork (buffer_key old) key4nproc));
      old_qid ← tidmap_at old_tid;
      _ ← push_to old_qid false (mkCtl RES_FORK (resp_fork (buffer_key old) key4oldproc));
      peer_qid ← tidmap_at peer_tid;
      _ ← push_to peer_qid true (mkCtl RES_PUSH_FORK (push_fork (buffer_key old) key4oldproc key4nproc));
      mret true
  end.

(** [n] turns from index [i]: whether the loop still runs. *)
Fixpoint fork_turns (attach : Z -> bool) (qid old_tid new_tid peer_tid : Z) (n i : nat) : M bool :=
  match n with
  | O => mret true
  | S n =>
      b ← fork_turn attach qid old_tid new_tid peer_tid i;
      if b : bool then fork_turns attach qid old_tid new_tid peer_tid n (S i) else mret false
  end.

(** The loop over the peers in the order [peers] the hash table yields them;
    [None] if a loop takes more than [fuel] turns. *)
Fixpoint fork_peers (fuel : nat) (attach : Z -> bool) (qid old_tid new_tid : Z) (peers : list Z) : M unit :=
  match peers with
  | [] => mret tt
  | p :: peers =>
      b ← fork_turns attach qid old_tid new_tid p fuel 0;
      if b : bool then fatal else fork_peers fuel attach qid old_tid new_tid peers
  end.

Definition fork_error : metaqueue_ctl_element := mkCtl RES_ERROR (resp_command None (Some 1)).

Definition fork_handler (fuel : nat) (attach : Z -> bool) (order : gmap Z (list interprocess_buf_map_t) -> list Z)
    (old_tid tok qid : Z) : M unit :=
  me ← process_get qid;
  tm ← gets tidmap;
  match tm !! old_tid with
  | None => push_to qid false fork_error
  | Some old_qid =>
      old ← process_get old_qid;
      if negb (token old =? tok) then push_to qid false fork_error
      else
        m ← gets (fun m => m);
        match buff_get_handler m old_tid with
        | None => push_to qid false (mkCtl FIN_FORK unset)
        | Some h =>
            _ ← fork_peers fuel attach qid old_tid (tid me) (order h);
            _ ← push_to qid false (mkCtl FIN_FORK unset);
            old_qid ← tidmap_at old_tid;
            push_to old_qid false (mkCtl FIN_FORK unset)
        end
  end.

Definition recv_takeover_handler (req : metaqueue_ctl_element) (shmem_key qid : Z) : M unit :=
  k2t ← gets interprocess_key2tid;
  match k2t !! shmem_key with
  | None => fatal
  | Some (t1, t2) =>
      me ← process_get qid;
      dest_qid ← (if tid me =? t1 then tidmap_at t2 else tidmap_at t1);
      push_to dest_qid true req
  end.

(** [metaqueue_long_msg_rdmainfo_t::shm_key], the first four bytes. *)
Definition key_of_bytes (bytes : list Z) : Z :=
  match bytes with
  | b0 :: b1 :: b2 :: b3 :: _ => swrap32 (b0 + 2 ^ 8 * b1 + 2 ^ 16 * b2 + 2 ^ 24 * b3)
  | _ => 0
  end.

(** The elements in the queue [q[1]] of a process. *)
Definition queued (m : monitor) (qid : Z) : list metaqueue_ctl_element := default [] (inbox m !! qid).
Definition set_queued (qid : Z) (l : list metaqueue_ctl_element) : M unit :=
  modify (fun m => set_inbox m (<[qid := l]> (inbox m))).

Fixpoint push_all (qid : Z) (es : list metaqueue_ctl_element) : M unit :=
  match es with
  | [] => mret tt
  | e :: es => _ ← push_to qid false e; push_all qid es
  end.

(** The handler of a long message all of whose elements are in the queue of the
    sender; [buf] are the stale bytes of the element that [push_longmsg]
    fills. *)
Definition long_msg_handler (len : Z) (subcommand : command_t) (buf : list Z) (qid : Z) : M unit :=
  if bool_decide (subcommand = RDMA_QP_INFO) then
    _ ← process_get qid;
    arriving ← gets (fun m => queued m qid);
    '(bytes, arriving) ← need (pop_longmsg (Z.to_nat len) len arriving);
    _ ← set_queued qid arriving;
    k2q ← gets rdma_key2qid;
    '(qid1, qid2) ← need (k2q !! key_of_bytes bytes);
    rdma ← process_isRDMA qid;
    let peerqid := if rdma : bool then qid1 else qid2 in
    if peerqid =? qid then fatal
    else push_all peerqid (push_longmsg bytes buf RDMA_QP_INFO)
  else fatal.

Definition rdma_ack_handler (req : metaqueue_ctl_element) (key qid : Z) : M unit :=
  k2q ← gets rdma_key2qid;
  '(qid1, qid2) ← need (k2q !! key);
  rdma ← process_isRDMA qid1;
  let peerqid := if negb rdma then qid1 else qid2 in
  if peerqid =? qid then fatal
  else push_to peerqid false req.

(** ** Remote processes *)

Definition MAX_RDMA_CONN_NUM : Z := 32.

(** The queues of a remote process in the buffer at [MR_ptr], which has room
    for [MAX_RDMA_CONN_NUM] of them. *)
Definition rdma_region (MR_ptr proc_idx : Z) : Z := MR_ptr + u32 (proc_idx * get_sharememsize).

(** A remote monitor that connected and what it sent of its memory; the
    exchange itself and the queue pair are the RDMA library's. *)
Record rdma_answers := mkRdmaAnswers { peer_rkey : Z; peer_buf : Z }.

(** [mem_init] writes the queues of the process at [proc_idx] of the buffer; from
    [MAX_RDMA_CONN_NUM] on they are outside the memory of the buffer, which ends
    the monitor like any access outside a container. *)
Definition try_new_rdma (MR_ptr : Z) (accepted : option rdma_answers) : M bool :=
  match accepted with
  | None => mret false
  | Some a =>
      seq ← gets rdma_processes_seq;
      rp ← gets rdma_processes;
      '(proc_idx, rp) ← need (DArray.add rp (mkRemote 0 0 seq));
      if MAX_RDMA_CONN_NUM <=? proc_idx then fatal else
      let rp := DArray.update rp proc_idx (fun r => mkRemote (peer_rkey a) (peer_buf a) (r_qid r)) in
      _ ← modify (fun m => set_remote m rp (seq + 1));
      _ ← process_add_rdma (rdma_region MR_ptr proc_idx) proc_idx;
      mret true
  end.

(** ** [main.cpp] *)

Definition thr_test_init_handler : M unit := modify (fun m => set_thr_counter m 0).

Definition thr_test_handler (cnt_recv : Z) : M unit :=
  c ← gets thr_counter;
  if negb (cnt_recv =? c) then fatal else modify (fun m => set_thr_counter m (c + 1)).

(** [~req_body->test_payload]. *)
Definition ping_handler (v : Z) : metaqueue_ctl_element := mkCtl REQ_PING (test_payload (Z.lnot v)).

(** The whole of [event_processer] on the queue of process [qid].  A request
    carries the member of the union that its command names; the monitor is not
    modelled on others. *)
Definition event_processer (fuel : nat) (attach : Z -> bool)
    (order : gmap Z (list interprocess_buf_map_t) -> list Z) (buf : list Z) (qid : Z) : M unit :=
  arrived ← gets (fun m => queued m qid);
  match arrived with
  | [] => fatal
  | req :: rest =>
      _ ← set_queued qid rest;
      match command req, body req with
      | REQ_THRTEST, test_payload v => thr_test_handler v
      | REQ_THRTEST_INIT, _ => thr_test_init_handler
      | REQ_PING, test_payload v => push_to qid false (ping_handler v)
      | REQ_LISTEN, req_listen port reuse => res ← listen_handler port reuse qid; push_to qid false res
      | REQ_ACCEPT, req_accept port => accept_handler port qid
      | REQ_CONNECT, req_connect port fd rdma =>
          res ← connect_handler attach port fd rdma qid; push_to qid false res
      | REQ_CLOSE, req_close port _ => close_handler port qid
      | REQ_FORK, req_fork old_tid tok => fork_handler fuel attach order old_tid tok qid
      | REQ_RELAY_RECV, req_relay_recv key _ _ => recv_takeover_handler req key qid
      | LONG_MSG_HEAD, long_msg_head len sub => long_msg_handler len sub buf qid
      | RDMA_QP_ACK, req_relay_recv key _ _ => rdma_ack_handler req key qid
      | (REQ_THRTEST | REQ_PING | REQ_LISTEN | REQ_ACCEPT | REQ_CONNECT | REQ_CLOSE | REQ_FORK
         | REQ_RELAY_RECV | LONG_MSG_HEAD | RDMA_QP_ACK), _ => fatal
      | _, _ => mret tt
      end
  end.

(** [try_accept_new_proc]: a process that connected to the set-up socket, with
    the answer it is sent. *)
Definition try_accept_new_proc (request : option (Z * Z)) (sys : add_answers) : M (option (Z * Z)) :=
  match request with
  | None => mret None
  | Some (p, t) => r ← process_add p t sys; mret (Some r)
  end.

(** The inner loop of [event_loop]: a request of each process that has one. *)
Fixpoint serve_from (turns fuel : nat) (attach : Z -> bool)
    (order : gmap Z (list interprocess_buf_map_t) -> list Z) (buf : list Z) (i : Z) : M unit :=
  match turns with
  | O => mret tt
  | S turns =>
      if i =? -1 then mret tt
      else
        _ ← process_get i;
        arrived ← gets (fun m => queued m i);
        _ ← (match arrived with
             | [] => mret tt
             | _ => event_processer fuel attach order buf i
             end);
        pr ← gets process;
        serve_from turns fuel attach order buf (DArray.iterator_next pr i)
  end.

(** What the system answers in a turn of [event_loop]. *)
Record turn_input := mkTurn {
  t_attach : Z -> bool;
  t_order : gmap Z (list interprocess_buf_map_t) -> list Z;
  t_buf : list Z;
  t_new : option (Z * Z);
  t_sys : add_answers;
  t_rdma : option rdma_answers;
  t_alive : Z -> Z -> bool
}.

(** What the loop does every 65536 rounds. *)
Definition housekeeping (MR_ptr : Z) (t : turn_input) : M unit :=
  _ ← try_accept_new_proc (t_new t) (t_sys t);
  _ ← try_new_rdma MR_ptr (t_rdma t);
  _ ← process_chk_remove (t_alive t);
  sock_resource_gc.

Definition event_loop_turn (fuel : nat) (MR_ptr : Z) (t : turn_input) (round : Z) : M Z :=
  pr ← gets process;
  _ ← serve_from (S (Z.to_nat (DArray.size pr))) fuel (t_attach t) (t_order t) (t_buf t) (DArray.iterator_init pr);
  let round := u32 (round + 1) in
  _ ← (if Z.land round 0xFFFF =? 0 then housekeeping MR_ptr t else mret tt);
  mret round.

(** The tables when the program starts, and the part of [main] before the event
    loop that touches them. *)
Definition monitor_new : monitor :=
  mkMonitor (DArray.darray_new MAX_PROCESS_NUM) ∅ (AdjList.adjlist_new 65536 1000) ∅ ∅ ∅ ∅
    (DArray.darray_new 32) 0 0 0 [] ∅ ∅.

Definition main_init : M unit :=
  _ ← modify (fun m => set_remote m (DArray.init 32 (rdma_processes m)) 0);
  _ ← sock_monitor_init;
  process_init.

(** ** Total correctness of a computation

    [wp c Q m]: from [m] the computation [c] ends, and its result, the state it
    leaves and the messages it pushes satisfy [Q]. *)
Definition wp {A} (c : M A) (Q : A -> monitor -> list out -> Prop) (m : monitor) : Prop :=
  match c m with Some (a, m', o) => Q a m' o | None => False end.

Section wp.
Context {A B : Type}.
Implicit Types (c : M A) (k : A -> M B) (m : monitor).

Lemma wp_ret (a : A) (Q : A -> monitor -> list out -> Prop) m : Q a m [] -> wp (mret a) Q m.
Proof. done. Qed.

Lemma wp_bind c k Q m :
  wp c (fun a m' o => wp (k a) (fun b m'' o' => Q b m'' (o ++ o')) m') m -> wp (c ≫= k) Q m.
Proof.
  unfold wp, mbind, M_bind. destruct (c m) as [[[a m1] o1]|]; [|done].
  by destruct (k a m1) as [[[b m2] o2]|].
Qed.

Lemma wp_gets (f : monitor -> A) (Q : A -> monitor -> list out -> Prop) m : Q (f m) m [] -> wp (gets f) Q m.
Proof. done. Qed.

Lemma wp_need (o : option A) a (Q : A -> monitor -> list out -> Prop) m :
  o = Some a -> Q a m [] -> wp (need o) Q m.
Proof. by intros ->. Qed.

Lemma wp_mono c (Q Q' : A -> monitor -> list out -> Prop) m :
  wp c Q m -> (forall a m' o, Q a m' o -> Q' a m' o) -> wp c Q' m.
Proof. unfold wp. destruct (c m) as [[[a m1] o1]|]; [|done]. auto. Qed.

Lemma wp_run c (Q : A -> monitor -> list out -> Prop) m :
  wp c Q m <-> exists a m' o, c m = Some (a, m', o) /\ Q a m' o.
Proof.
  unfold wp. destruct (c m) as [[[a m1] o1]|]; split; [|intros (? & ? & ? & ? & ?); by simplify_eq|done|
    by intros (? & ? & ? & ? & ?)]. intros H. by exists a, m1, o1.
Qed.

End wp.

Lemma wp_modify (f : monitor -> monitor) (Q : unit -> monitor -> list out -> Prop) m :
  Q tt (f m) [] -> wp (modify f) Q m.
Proof. done. Qed.

Lemma wp_emit e (Q : unit -> monitor -> list out -> Prop) m : Q tt m [e] -> wp (emit e) Q m.
Proof. done. Qed.

(** The position of a process in the array, whether or not it is in use. *)
Definition is_slot (m : monitor) (q : Z) : Prop := 0 <= q < DArray.size (process m).

Lemma slot_get m q : DArray.wf (process m) -> is_slot m q -> is_Some (DArray.get (process m) q).
Proof.
  intros Hwf Hq. unfold is_slot in Hq. pose proof (DArray.wf_bound _ Hwf). pose proof (DArray.wf_size _ Hwf).
  unfold DArray.get. rewrite uwrap_small by (unfold is_uint; lia). apply fmap_is_Some, lookup_lt_is_Some_2. lia.
Qed.

Lemma wp_process_get q (Q : process_sturc -> monitor -> list out -> Prop) m :
  DArray.wf (process m) -> is_slot m q ->
  (forall p, DArray.get (process m) q = Some p -> Q p m []) -> wp (process_get q) Q m.
Proof.
  intros Hwf Hq H. destruct (slot_get m q Hwf Hq) as [p Hp]. apply wp_bind, wp_gets. eapply wp_need; [done|]. by apply H.
Qed.

Lemma wp_push_to q e x (Q : unit -> monitor -> list out -> Prop) m :
  DArray.wf (process m) -> is_slot m q -> 0 < credits_of m q e ->
  Q tt (spend q e m) [mkOut q e x] -> wp (push_to q e x) Q m.
Proof.
  intros Hwf Hq Hc H. apply wp_bind, wp_process_get; [done|done|]. intros p _. apply wp_bind, wp_gets.
  destruct (Z.leb_spec (credits_of m q e) 0); [lia|]. apply wp_bind, wp_modify, wp_emit. exact H.
Qed.

(** The first part of a computation is known, or does not end. *)
Lemma bind_run {A B} (c : M A) (k : A -> M B) m a m' o :
  c m = Some (a, m', o) ->
  (c ≫= k) m = match k a m' with Some (b, m2, o') => Some (b, m2, o ++ o') | None => None end.
Proof. intros H. unfold mbind, M_bind. by rewrite H. Qed.

Lemma bind_stuck {A B} (c : M A) (k : A -> M B) m : c m = None -> (c ≫= k) m = None.
Proof. intros H. unfold mbind, M_bind. by rewrite H. Qed.

(** On a full queue the monitor waits. *)
Lemma push_to_full q e x m : credits_of m q e <= 0 -> push_to q e x m = None.
Proof.
  intros Hc. unfold push_to, process_get, mbind, M_bind, gets, need. destruct (DArray.get (process m) q); [|done].
  destruct (Z.leb_spec (credits_of m q e) 0); [done|lia].
Qed.

Lemma credits_spend q e m q' e' :
  credits_of (spend q e m) q' e' = credits_of m q' e' - (if bool_decide (q' = q /\ e' = e) then 1 else 0).
Proof.
  unfold spend, credits_of, set_credits_of. simpl. case_bool_decide as H.
  - destruct H as [-> ->]. by rewrite lookup_insert_eq.
  - rewrite lookup_insert_ne by (intros [= -> ->]; by destruct H). lia.
Qed.

(** The structural steps of a proof about a computation. *)
Ltac wp_step :=
  cbv beta iota;
  lazymatch goal with
  | |- wp (mbind _ _) _ _ => apply wp_bind
  | |- wp (mret _) _ _ => apply wp_ret
  | |- wp (gets _) _ _ => apply wp_gets
  | |- wp (modify _) _ _ => apply wp_modify
  | |- wp (emit _) _ _ => apply wp_emit
  end.
Ltac wp_steps := repeat wp_step.

End ProtoMonitor.
