(* ===== verification/MonitorPorts.v ===== *)
(** * The port table of the prototype's monitor

    The handlers of [monitor/sock_monitor.cpp] against an abstract table: a port
    has its flags and the list of its listeners in the order in which connections
    are offered to them. *)

From Stdlib Require Import ZArith Lia.
From stdpp Require Import numbers base gmap list.
From S2P Require Import Prelude DArray AdjList Metaqueue ProtoMonitor.
Import Metaqueue ProtoMonitor.

Module MonitorPorts.

Abbreviation listener := monitor_sock_adjlist_t.
Abbreviation node := monitor_sock_node_t.
Abbreviation table := (gmap Z (node * list listener)).

(** ** The abstract operations on a port *)

(** The first listener that satisfies [P] and the others, in the order that
    starts behind it; [u] is what has been passed. *)
Fixpoint rotate_to (P : listener -> bool) (u vs : list listener) : option (listener * list listener) :=
  match vs with
  | [] => None
  | w :: t => if P w then Some (w, t ++ u) else rotate_to P (u ++ [w]) t
  end.

Definition listening (n : node) : bool := negb (is_listening n =? 0).
Definition of_process (qid : Z) (l : listener) : bool := peer_qid l =? qid.
Definition accepting (l : listener) : listener := mkListener (peer_fd l) (peer_qid l) true.
Definition stop_if_empty (n : node) (vs : list listener) : node :=
  match vs with [] => mkNode 0 (is_blocking n) (is_addrreuse n) | _ => n end.

(** A process listens: [None] when the address is in use. *)
Definition abs_listen (reuse qid : Z) (v : node * list listener) : option (node * list listener) :=
  let '(n, vs) := v in
  if listening n && (is_addrreuse n =? 0) then None
  else Some (if listening n then n else mkNode 1 (is_blocking n) reuse, mkListener (-1) qid false :: vs).

(** A process accepts: its listener is marked, and is offered the next
    connection. *)
Definition abs_accept (qid : Z) (v : node * list listener) : node * list listener :=
  let '(n, vs) := v in
  if listening n then
    match rotate_to (of_process qid) [] vs with
    | Some (w, others) => (n, accepting w :: others)
    | None => v
    end
  else v.

(** A connection: the first listener that accepts gets it and goes to the end
    of the queue. *)
Definition abs_dispatch (v : node * list listener) : option (listener * (node * list listener)) :=
  let '(n, vs) := v in
  if listening n then
    match rotate_to is_accepting [] vs with
    | Some (w, others) => Some (w, (n, others ++ [w]))
    | None => None
    end
  else None.

(** A process closes its listener; the port stops listening with its last
    one. *)
Definition abs_close (qid : Z) (v : node * list listener) : node * list listener :=
  let '(n, vs) := v in
  if listening n then
    match rotate_to (of_process qid) [] vs with
    | Some (_, others) => (stop_if_empty n others, others)
    | None => v
    end
  else v.

(** The listeners of processes that are gone are dropped. *)
Definition abs_gc (alive : Z -> bool) (v : node * list listener) : node * list listener :=
  let '(n, vs) := v in
  if listening n then
    let vs' := List.filter (fun l => alive (peer_qid l)) vs in
    (match vs with [] => n | _ => stop_if_empty n vs' end, vs')
  else v.

(** ** The search *)

Lemma rotate_to_found P a u w t :
  Forall (fun v => P v = false) u -> P w = true -> rotate_to P a (u ++ w :: t) = Some (w, t ++ a ++ u).
Proof.
  intros Hu Hw. revert a. induction Hu as [|v u Hv _ IH]; intros a; simpl; [by rewrite Hw, app_nil_r|].
  rewrite Hv, IH. by rewrite <- (assoc_L (++)).
Qed.

Lemma rotate_to_none P a vs : Forall (fun v => P v = false) vs -> rotate_to P a vs = None.
Proof. intros H. revert a. induction H as [|v vs Hv _ IH]; intros a; simpl; [done|]. by rewrite Hv. Qed.

Lemma rotate_to_perm P a vs w r : rotate_to P a vs = Some (w, r) -> P w = true /\ w :: r ≡ₚ a ++ vs.
Proof.
  revert a. induction vs as [|v vs IH]; intros a; simpl; [done|]. destruct (P v) eqn:Hv.
  - intros [= -> <-]. split; [done|]. by rewrite (comm (++) vs a), Permutation_middle.
  - intros [H1 H2]%IH. split; [done|]. by rewrite H2, <- (assoc_L (++)).
Qed.

(** ** The handlers *)

(** Only the port table of [m] has changed, to [Mp]. *)
Definition ported (m : monitor) (Mp : table) (m' : monitor) : Prop :=
  exists p, m' = set_ports m p /\ AdjList.models p Mp.

Lemma ported_intro m p Mp : AdjList.models p Mp -> ported m Mp (set_ports m p).
Proof. intros H. by exists p. Qed.

Lemma ported_refl m Mp : AdjList.models (ports m) Mp -> ported m Mp m.
Proof. intros H. exists (ports m). split; [by destruct m|done]. Qed.

Section handlers.
Context (m : monitor) (Mp : table) (port : Z) (n : node) (vs : list listener).
Context (Hm : AdjList.models (ports m) Mp) (Hport : Mp !! port = Some (n, vs)).

Lemma wp_port_get (Q : node -> monitor -> list out -> Prop) : Q n m [] -> wp (port_get port) Q m.
Proof using Hm Hport.
  intros H. unfold port_get. wp_steps. eapply wp_need; [by eapply AdjList.models_get_key|done].
Qed.

Lemma wp_find_listener P (Q : AdjList.iterator -> monitor -> list out -> Prop) :
  (forall u w t it p, vs = u ++ w :: t -> Forall (fun v => P v = false) u -> P w = true ->
     AdjList.focus p (<[port := (n, w :: t ++ u)]> Mp) it port u w t -> Q it (set_ports m p) []) ->
  (forall it p, Forall (fun v => P v = false) vs -> AdjList.it_end it = true ->
     AdjList.models p Mp -> Q it (set_ports m p) []) ->
  wp (find_listener port P) Q m.
Proof using Hm Hport.
  intros Hyes Hno. destruct (AdjList.models_find P _ _ _ _ _ Hm Hport) as (it & it' & a' & Hb & Hf & Hres).
  unfold find_listener. wp_steps. eapply wp_need; [done|]. wp_steps. eapply wp_need; [done|]. simpl. wp_steps. simpl.
  destruct Hres as [(u & w & t & Hv & Hu & Hw & Hfo)|(Hall & He & Hm')]; [by eapply Hyes|by apply Hno].
Qed.

Lemma accept_spec qid :
  wp (accept_handler port qid) (fun _ m' o => o = [] /\ ported m (<[port := abs_accept qid (n, vs)]> Mp) m') m.
Proof using Hm Hport.
  unfold accept_handler. wp_step. apply wp_port_get. unfold abs_accept, listening.
  destruct (is_listening n =? 0); simpl negb; cbv iota.
  { wp_step. split; [done|]. rewrite insert_id by done. by apply ported_refl. }
  wp_step. apply wp_find_listener.
  - intros u w t it p Hv Hu Hw Hf. destruct (AdjList.focus_get _ _ _ _ _ _ _ Hf) as [-> _]. wp_steps. split; [done|].
    rewrite Hv, rotate_to_found by done. apply (ported_intro m). rewrite <- (insert_insert_eq Mp port _ (n, w :: t ++ u)).
    eapply AdjList.focus_models, AdjList.focus_set; [done|by rewrite lookup_insert_eq].
  - intros it p Hall -> Hp. wp_steps. split; [done|]. rewrite rotate_to_none by done. rewrite insert_id by done.
    by apply ported_intro.
Qed.

Lemma listen_spec reuse qid :
  DArray.total_num (AdjList.elements (ports m)) < 2 ^ 31 - 1 ->
  wp (listen_handler port reuse qid)
    (fun res m' o => o = []
      /\ match abs_listen reuse qid (n, vs) with
         | None => res = mkCtl RES_ERROR (resp_command (Some RES_ERROR) (Some EADDRINUSE)) /\ m' = m
         | Some v => res = mkCtl RES_SUCCESS (resp_command (Some RES_SUCCESS) None) /\ ported m (<[port := v]> Mp) m'
         end) m.
Proof using Hm Hport.
  intros Hmax. unfold listen_handler. wp_step. apply wp_port_get. unfold abs_listen, listening.
  destruct (negb (is_listening n =? 0) && (is_addrreuse n =? 0)); [by wp_step|]. wp_step.
  set (n' := if negb (is_listening n =? 0) then n else mkNode 1 (is_blocking n) reuse).
  assert (Hadd : forall p, AdjList.models p (<[port := (n', vs)]> Mp) ->
    DArray.total_num (AdjList.elements p) < 2 ^ 31 - 1 ->
    exists it p', AdjList.add_element p port (mkListener (-1) qid false) = Some (it, p')
      /\ AdjList.models p' (<[port := (n', mkListener (-1) qid false :: vs)]> Mp)).
  { intros p Hp Hmax'. destruct (AdjList.models_add_element p _ port n' vs (mkListener (-1) qid false) Hp)
      as (it & p' & Ha & _ & Hp'); [by rewrite lookup_insert_eq|done|]. exists it, p'. split; [done|].
    by rewrite insert_insert_eq in Hp'. }
  unfold n' in *. destruct (is_listening n =? 0); simpl negb in *; cbv iota in *.
  - wp_steps. destruct (Hadd _ (AdjList.models_update_key _ _ _ _ _
      (fun n => mkNode 1 (is_blocking n) reuse) Hm Hport) Hmax) as (it & p' & Ha & Hp').
    wp_steps. eapply wp_need; [exact Ha|]. wp_steps. split; [done|]. split; [done|]. by apply (ported_intro m).
  - wp_steps. rewrite insert_id in Hadd by done. destruct (Hadd _ Hm Hmax) as (it & p' & Ha & Hp').
    eapply wp_need; [exact Ha|]. wp_steps. split; [done|]. split; [done|]. by apply (ported_intro m).
Qed.

Lemma dispatch_spec :
  listening n = true ->
  wp (dispatch port)
    (fun r m' o => o = []
      /\ match abs_dispatch (n, vs) with
         | None => r = None /\ ported m Mp m'
         | Some (l, v) => r = Some l /\ is_accepting l = true /\ ported m (<[port := v]> Mp) m'
         end) m.
Proof using Hm Hport.
  intros Hl. unfold dispatch, abs_dispatch. rewrite Hl. wp_step. apply wp_find_listener.
  - intros u w t it p Hv Hu Hw Hf. rewrite Hv, rotate_to_found by done. cbn [app].
    destruct (AdjList.focus_get _ _ _ _ _ _ _ Hf) as [-> Hg]. wp_steps. eapply wp_need; [exact Hg|]. cbv zeta.
    apply AdjList.focus_set_ptr in Hf.
    destruct (AdjList.focus_next _ _ _ _ _ _ _ Hf) as (it' & a' & x & Hn & Hx & Hres).
    rewrite lookup_insert_eq in Hx. injection Hx as <-. wp_step. eapply wp_need; [exact Hn|]. wp_steps. simpl.
    split; [done|]. split; [done|]. split; [done|].
    destruct t as [|y t]; rewrite insert_insert_eq in Hres.
    + destruct Hres as [-> Hm']. by apply (ported_intro m).
    + destruct (AdjList.focus_get _ _ _ _ _ _ _ Hres) as [-> _]. apply (ported_intro m).
      apply AdjList.focus_set_ptr, AdjList.focus_models in Hres. simpl. by rewrite <- (assoc_L (++)).
  - intros it p Hall -> Hp. wp_steps. rewrite rotate_to_none by done. split; [done|]. split; [done|].
    by apply ported_intro.
Qed.

(** [is_listening] is cleared when the list is empty. *)
Lemma unlisten_spec (Q : unit -> monitor -> list out -> Prop) :
  (forall m', ported m (<[port := (stop_if_empty n vs, vs)]> Mp) m' -> (vs <> [] -> m' = m) -> Q tt m' []) ->
  wp (unlisten_if_empty port) Q m.
Proof using Hm Hport.
  intros H. destruct (AdjList.focus_begin _ _ _ _ _ Hm Hport) as (it & Hb & Hf). unfold unlisten_if_empty. wp_steps.
  eapply wp_need; [exact Hb|]. destruct vs as [|w t]; simpl stop_if_empty in H.
  - rewrite Hf. simpl. wp_steps. apply H; [|done]. apply ported_intro.
    by apply (AdjList.models_update_key _ _ _ n []
      (fun n => mkNode 0 (is_blocking n) (is_addrreuse n))).
  - destruct (AdjList.focus_get _ _ _ _ _ _ _ Hf) as [-> _]. wp_steps. apply H; [|done].
    rewrite insert_id by done. by apply ported_refl.
Qed.

End handlers.

Section collection.
Context (port : Z).

Lemma close_spec m Mp n vs qid :
  AdjList.models (ports m) Mp -> Mp !! port = Some (n, vs) ->
  wp (close_handler port qid) (fun _ m' o => o = [] /\ ported m (<[port := abs_close qid (n, vs)]> Mp) m') m.
Proof.
  intros Hm Hport. unfold close_handler. wp_step. apply (wp_port_get m Mp port n vs Hm Hport).
  unfold abs_close, listening. destruct (is_listening n =? 0); simpl negb; cbv iota.
  { wp_step. split; [done|]. rewrite insert_id by done. by apply ported_refl. }
  wp_step. apply (wp_find_listener m Mp port n vs Hm Hport).
  - intros u w t it p Hv Hu Hw Hf. destruct (AdjList.focus_get _ _ _ _ _ _ _ Hf) as [-> _]. wp_steps.
    destruct (AdjList.focus_del _ _ _ _ _ _ _ Hf) as (it' & p' & x & Hd & Hx & Hm' & _).
    rewrite lookup_insert_eq in Hx. injection Hx as <-. eapply wp_need; [exact Hd|]. wp_steps.
    rewrite Hv, rotate_to_found by done. rewrite insert_insert_eq in Hm'. cbn [app].
    eapply (unlisten_spec (set_ports m p') _ port n (t ++ u) Hm'); [by rewrite lookup_insert_eq|].
    intros m' (p2 & -> & Hp2) _. split; [done|]. rewrite insert_insert_eq in Hp2. by apply (ported_intro m).
  - intros it p Hall -> Hp. wp_steps. split; [done|]. rewrite rotate_to_none by done.
    rewrite insert_id by done. by apply ported_intro.
Qed.

Definition alive_in (m : monitor) (l : listener) : bool := process_isexist m (peer_qid l).

Lemma stop_if_nonempty n vs : vs <> [] -> stop_if_empty n vs = n.
Proof. by destruct vs. Qed.

Lemma gc_loop_end fuel it m : AdjList.it_end it = true -> gc_loop fuel port it m = Some (tt, m, []).
Proof. intros H. destruct fuel; simpl; by rewrite H. Qed.

Lemma wp_gc_loop_end fuel it m (Q : unit -> monitor -> list out -> Prop) :
  AdjList.it_end it = true -> Q tt m [] -> wp (gc_loop fuel port it) Q m.
Proof. intros H HQ. unfold wp. by rewrite gc_loop_end. Qed.

(** A turn of the collection at a listener that is alive, and at one that is
    gone. *)
Lemma gc_turn_alive fuel m Mp it n u w t (Q : unit -> monitor -> list out -> Prop) :
  AdjList.focus (ports m) Mp it port u w t -> Mp !! port = Some (n, w :: t ++ u) -> alive_in m w = true ->
  (forall it' p, match t with
     | [] => AdjList.it_end it' = true /\ AdjList.models p (<[port := (n, u ++ [w])]> Mp)
     | y :: t => AdjList.focus p (<[port := (n, y :: t ++ u ++ [w])]> Mp) it' port (u ++ [w]) y t
     end -> wp (gc_loop fuel port it') Q (set_ports m p)) ->
  wp (gc_loop (S fuel) port it) Q m.
Proof.
  intros Hf Hp Hw HQ. destruct (AdjList.focus_get _ _ _ _ _ _ _ Hf) as [He Hg]. cbn [gc_loop]. rewrite He. wp_steps.
  eapply wp_need; [exact Hg|]. wp_steps. unfold alive_in in Hw. rewrite Hw.
  destruct (AdjList.focus_next _ _ _ _ _ _ _ Hf) as (it' & a' & x & Hn & Hx & Hres). rewrite Hp in Hx. injection Hx as <-.
  wp_steps. eapply wp_need; [exact Hn|]. wp_steps. simpl. apply HQ. by destruct t.
Qed.

Lemma gc_turn_gone fuel m Mp it n u w t (Q : unit -> monitor -> list out -> Prop) :
  AdjList.focus (ports m) Mp it port u w t -> Mp !! port = Some (n, w :: t ++ u) -> alive_in m w = false ->
  (forall it' p, match t, u with
     | [], [] => AdjList.it_end it' = true /\ AdjList.models p (<[port := (stop_if_empty n [], [])]> Mp)
     | [], y :: u => AdjList.focus p (<[port := (n, y :: u)]> Mp) it' port [] y u
     | y :: t, _ => AdjList.focus p (<[port := (n, y :: t ++ u)]> Mp) it' port u y t
     end -> wp (gc_loop fuel port it') Q (set_ports m p)) ->
  wp (gc_loop (S fuel) port it) Q m.
Proof.
  intros Hf Hp Hw HQ. destruct (AdjList.focus_get _ _ _ _ _ _ _ Hf) as [He Hg]. cbn [gc_loop]. rewrite He. wp_steps.
  eapply wp_need; [exact Hg|]. wp_steps. unfold alive_in in Hw. rewrite Hw.
  destruct (AdjList.focus_del _ _ _ _ _ _ _ Hf) as (it' & p' & x & Hd & Hx & Hm' & Hres).
  rewrite Hp in Hx. injection Hx as <-. wp_steps. eapply wp_need; [exact Hd|]. wp_steps. simpl.
  eapply (unlisten_spec (set_ports m p') _ port n (t ++ u) Hm'); [by rewrite lookup_insert_eq|].
  intros m' (p2 & -> & Hp2) Hkeep. rewrite insert_insert_eq in Hp2. simpl. apply HQ.
  destruct t as [|y t]; [destruct u as [|y u]|].
  - done.
  - specialize (Hkeep ltac:(done)). injection Hkeep as ->. done.
  - specialize (Hkeep ltac:(done)). injection Hkeep as ->. done.
Qed.

(** A round over listeners that are all alive. *)
Lemma gc_loop_clean fuel m Mp it n u w t :
  AdjList.focus (ports m) Mp it port u w t -> Mp !! port = Some (n, w :: t ++ u) ->
  (length (w :: t) <= fuel)%nat -> Forall (fun l => alive_in m l = true) (w :: t) ->
  wp (gc_loop fuel port it) (fun _ m' o => o = [] /\ ported m (<[port := (n, u ++ w :: t)]> Mp) m') m.
Proof.
  revert m Mp it u w t. induction fuel as [|fuel IH]; intros m Mp it u w t Hf Hp Hlen Ha; [simpl in Hlen; lia|].
  apply Forall_cons in Ha as [Hw Ha]. apply (gc_turn_alive fuel m Mp it n u w t _ Hf Hp Hw). intros it' p Hres.
  destruct t as [|y t].
  - destruct Hres as [He Hm]. apply wp_gc_loop_end; [done|]. split; [done|]. by apply ported_intro.
  - eapply wp_mono; [eapply (IH (set_ports m p) _ it' (u ++ [w]) y t Hres);
      [by rewrite lookup_insert_eq|simpl in *; lia|done]|].
    intros _ m' o [-> (p2 & -> & Hp2)]. split; [done|]. rewrite insert_insert_eq, <- (assoc_L (++)) in Hp2.
    by apply (ported_intro m).
Qed.

Lemma gc_loop_spec fuel m Mp it n u w t :
  AdjList.focus (ports m) Mp it port u w t -> Mp !! port = Some (n, w :: t ++ u) ->
  (2 * length (w :: t) + length u <= fuel)%nat -> Forall (fun l => alive_in m l = true) u ->
  let vs' := u ++ List.filter (alive_in m) (w :: t) in
  wp (gc_loop fuel port it) (fun _ m' o => o = [] /\ ported m (<[port := (stop_if_empty n vs', vs')]> Mp) m') m.
Proof.
  revert m Mp it u w t. induction fuel as [|fuel IH]; intros m Mp it u w t Hf Hp Hlen Hu vs'; [simpl in Hlen; lia|].
  unfold vs'. cbn [List.filter]. destruct (alive_in m w) eqn:Hw.
  - apply (gc_turn_alive fuel m Mp it n u w t _ Hf Hp Hw). intros it' p Hres.
    rewrite stop_if_nonempty by (by destruct u). destruct t as [|y t].
    + destruct Hres as [He Hm]. apply wp_gc_loop_end; [done|]. split; [done|]. by apply ported_intro.
    + eapply wp_mono; [eapply (IH (set_ports m p) _ it' (u ++ [w]) y t Hres); [by rewrite lookup_insert_eq| |]|].
      * rewrite length_app. simpl in *. lia.
      * apply Forall_app. by repeat constructor.
      * intros _ m' o [-> (p2 & -> & Hp2)]. split; [done|]. rewrite insert_insert_eq, <- (assoc_L (++)) in Hp2.
        rewrite stop_if_nonempty in Hp2 by (by destruct u). by apply (ported_intro m).
  - apply (gc_turn_gone fuel m Mp it n u w t _ Hf Hp Hw). intros it' p Hres.
    destruct t as [|y t]; [destruct u as [|y u]|].
    + destruct Hres as [He Hm]. apply wp_gc_loop_end; [done|]. split; [done|]. by apply ported_intro.
    + rewrite app_nil_r. simpl stop_if_empty.
      eapply wp_mono; [eapply (gc_loop_clean fuel (set_ports m p) _ it' n [] y u Hres);
        [rewrite app_nil_r; by rewrite lookup_insert_eq|simpl in *; lia|done]|].
      intros _ m' o [-> (p2 & -> & Hp2)]. split; [done|]. rewrite insert_insert_eq in Hp2. by apply (ported_intro m).
    + eapply wp_mono; [eapply (IH (set_ports m p) _ it' u y t Hres); [by rewrite lookup_insert_eq|simpl in *; lia|done]|].
      intros _ m' o [-> (p2 & -> & Hp2)]. split; [done|]. rewrite insert_insert_eq in Hp2. by apply (ported_intro m).
Qed.

Lemma gc_port_spec m Mp n vs :
  AdjList.models (ports m) Mp -> Mp !! port = Some (n, vs) ->
  wp (gc_port port)
    (fun _ m' o => o = [] /\ ported m (<[port := abs_gc (process_isexist m) (n, vs)]> Mp) m') m.
Proof.
  intros Hm Hport. unfold gc_port. wp_step. apply (wp_port_get m Mp port n vs Hm Hport).
  unfold abs_gc, listening. destruct (is_listening n =? 0); simpl negb; cbv iota.
  { wp_step. split; [done|]. rewrite insert_id by done. by apply ported_refl. }
  wp_steps. destruct (AdjList.focus_begin _ _ _ _ _ Hm Hport) as (it & Hb & Hf). eapply wp_need; [exact Hb|].
  destruct vs as [|w t].
  - subst it. apply wp_gc_loop_end; [done|]. split; [done|]. simpl. rewrite insert_id by done. by apply ported_refl.
  - pose proof Hm as [R Hr]. pose proof (AdjList.list_in_slots _ R Mp port n _ Hr Hport).
    apply (gc_loop_spec _ m Mp it n [] w t Hf); [by rewrite app_nil_r|simpl in *; lia|constructor].
Qed.

End collection.

(** [ports.init(65536, ..)]: a key for every port number. *)
Definition all_ports (Mp : table) : Prop := forall k, is_Some (Mp !! k) <-> 0 <= k < 65536.

Lemma gc_ports_spec k port m Mp :
  AdjList.models (ports m) Mp -> (forall j, port <= j < port + Z.of_nat k -> is_Some (Mp !! j)) ->
  wp (gc_ports k port)
    (fun _ m' o => o = [] /\ exists Mp', ported m Mp' m' /\ forall j,
       Mp' !! j = if decide (port <= j < port + Z.of_nat k) then abs_gc (process_isexist m) <$> Mp !! j else Mp !! j) m.
Proof.
  revert port m Mp. induction k as [|k IH]; intros port m Mp Hm Hdom; cbn [gc_ports].
  { wp_step. split; [done|]. exists Mp. split; [by apply ported_refl|]. intros j. by rewrite decide_False by lia. }
  destruct (Hdom port ltac:(lia)) as [[n vs] Hp]. wp_step. eapply wp_mono; [by apply gc_port_spec|].
  intros [] m1 o [-> (p1 & -> & Hp1)]. eapply wp_mono; [apply (IH (port + 1) (set_ports m p1) _ Hp1)|].
  { intros j Hj. rewrite lookup_insert_ne by lia. apply Hdom. lia. }
  intros _ m' o [-> (Mp' & (p2 & -> & Hp2) & HMp')]. split; [done|]. exists Mp'. split; [by apply (ported_intro m)|].
  intros j. rewrite HMp', lookup_insert. destruct (decide (port = j)) as [<-|Hne].
  - rewrite decide_False by lia. rewrite decide_True by lia. by rewrite Hp.
  - destruct (decide (port + 1 <= j < _)), (decide (port <= j < _)); (done || lia).
Qed.

Lemma gc_spec m Mp :
  AdjList.models (ports m) Mp -> all_ports Mp ->
  wp sock_resource_gc (fun _ m' o => o = [] /\ ported m (abs_gc (process_isexist m) <$> Mp) m') m.
Proof.
  intros Hm Hall. unfold sock_resource_gc. eapply wp_mono; [apply gc_ports_spec; [done|]|].
  { intros j Hj. apply Hall. lia. }
  intros _ m' o [-> (Mp' & Hp & HMp')]. split; [done|]. replace (abs_gc (process_isexist m) <$> Mp) with Mp'; [done|].
  apply map_eq. intros j. rewrite HMp', lookup_fmap. specialize (Hall j).
  destruct (decide (0 <= j < 0 + Z.of_nat (Z.to_nat 65536))) as [|Hj]; [done|].
  destruct (Mp !! j); [|done]. destruct Hj. rewrite Z2Nat.id by lia. by apply Hall.
Qed.

(** ** Connecting *)

Definition next_key (m : monitor) : Z := 9837423 + current_q_counter m.

(** The state after [buffer_new] and after [buffer_new_rdma]. *)
Definition buffer_added (a b l : Z) (m : monitor) : monitor :=
  let key := next_key m in
  let m := set_counter m (current_q_counter m + 1) in
  let m := set_segments m (segments m ++ [key]) in
  let m := buf_push a b (mkBuf key l) m in
  let m := buf_push b a (mkBuf key (if l =? 0 then 1 else 0)) m in
  set_key2tid m (<[key := (a, b)]> (interprocess_key2tid m)).

Definition rdma_added (q r l : Z) (m : monitor) : monitor :=
  let key := next_key m in
  let inner := default ∅ (rdma_id2key m !! q) in
  set_rdma (set_counter m (current_q_counter m + 1))
    (<[q := <[r := mkBuf key l]> inner]> (rdma_id2key m)) (<[key := (q, r)]> (rdma_key2qid m)).

Lemma wp_buffer_new attach a b l m (Q : Z -> monitor -> list out -> Prop) :
  attach (next_key m) = true -> Q (next_key m) (buffer_added a b l m) [] -> wp (buffer_new attach a b l) Q m.
Proof.
  intros Ha HQ. unfold buffer_new, new_key. wp_steps. simpl. unfold next_key in Ha. rewrite Ha. wp_steps. exact HQ.
Qed.

Lemma wp_buffer_new_rdma q r l m (Q : Z -> monitor -> list out -> Prop) :
  Q (next_key m) (rdma_added q r l m) [] -> wp (buffer_new_rdma q r l) Q m.
Proof. intros HQ. unfold buffer_new_rdma, new_key. wp_steps. exact HQ. Qed.

(** The state after [connect_key] for a client at [qid] and a listener at
    [peer], with their thread ids [a] and [b]. *)
Definition connected (rdma : bool) (qid peer a b : Z) (m : monitor) : monitor :=
  if rdma
  then rdma_added peer qid 0 (set_rdma m (<[peer := default ∅ (rdma_id2key m !! peer)]> (rdma_id2key m)) (rdma_key2qid m))
  else buffer_added a b 0 (set_buf_idx m (<[a := default ∅ (interprocess_buf_idx m !! a)]> (interprocess_buf_idx m))).

Lemma connect_key_spec attach rdma qid peer m (Q : Z -> monitor -> list out -> Prop) :
  DArray.wf (process m) -> is_slot m qid -> is_slot m peer -> attach (next_key m) = true ->
  (forall pc pl, DArray.get (process m) qid = Some pc -> DArray.get (process m) peer = Some pl ->
     Q (next_key m) (connected rdma qid peer (tid pc) (tid pl) m) []) ->
  wp (connect_key attach rdma qid peer) Q m.
Proof.
  intros Hwf Hq Hp Ha HQ. destruct (slot_get m qid Hwf Hq) as [pc Hpc]. destruct (slot_get m peer Hwf Hp) as [pl Hpl].
  specialize (HQ pc pl Hpc Hpl). unfold connect_key, process_gettid. destruct rdma; wp_steps.
  - by apply wp_buffer_new_rdma.
  - apply wp_process_get; [done|done|]. intros p Hp'. rewrite Hpc in Hp'. injection Hp' as <-. wp_steps.
    apply wp_process_get; [done|done|]. intros p' Hp'. simpl in Hp'. rewrite Hpl in Hp'. injection Hp' as <-. wp_steps.
    apply wp_buffer_new; [done|]. exact HQ.
Qed.

(** A new connection uses no credit. *)
Lemma connect_key_credits attach rdma qid peer m key m' o :
  connect_key attach rdma qid peer m = Some (key, m', o) -> forall q e, credits_of m' q e = credits_of m q e.
Proof.
  unfold connect_key, process_gettid, process_get, buffer_new_rdma, buffer_new, new_key, mbind, M_bind, gets, modify, need, mret, M_ret.
  destruct rdma; [by intros [= _ <- _]|]. destruct (DArray.get (process m) qid); [|done]. simpl.
  destruct (DArray.get (process m) peer); [|done]. simpl. destruct (attach _); [|done]. by intros [= _ <- _].
Qed.

(** What the client and the listener are told of a new connection. *)
Definition to_client (key : Z) : metaqueue_ctl_element := mkCtl RES_SUCCESS (resp_connect key None None 0 None).
Definition to_listener (key fd port : Z) (rdma : bool) : metaqueue_ctl_element :=
  mkCtl RES_NEWCONNECTION (resp_connect key (Some fd) (Some port) 1 (Some rdma)).

Lemma abs_dispatch_found v l v' : abs_dispatch v = Some (l, v') -> l ∈ v.2 /\ is_accepting l = true.
Proof.
  destruct v as [n vs]. unfold abs_dispatch. destruct (listening n); [|done].
  destruct (rotate_to is_accepting [] vs) as [[w r]|] eqn:Hr; [|done]. intros [= -> _].
  apply rotate_to_perm in Hr as [Ha Hr]. simpl in Hr. split; [|done]. simpl. rewrite <- Hr. by left.
Qed.

Lemma connect_spec attach port fd rdma qid m Mp n vs :
  AdjList.models (ports m) Mp -> Mp !! port = Some (n, vs) -> DArray.wf (process m) -> is_slot m qid ->
  Forall (fun l => is_slot m (peer_qid l)) vs -> attach (next_key m) = true ->
  (forall l v, abs_dispatch (n, vs) = Some (l, v) -> 0 < credits_of m (peer_qid l) false) ->
  wp (connect_handler attach port fd rdma qid)
    (fun res m' o =>
      match abs_dispatch (n, vs) with
      | None => res = connect_error /\ o = [] /\ ported m Mp m'
      | Some (l, v) =>
          l ∈ vs /\ is_accepting l = true /\ res = to_client (next_key m)
          /\ o = [mkOut (peer_qid l) false (to_listener (next_key m) fd port rdma)]
          /\ exists pc pl m1, DArray.get (process m) qid = Some pc /\ DArray.get (process m) (peer_qid l) = Some pl
               /\ ported m (<[port := v]> Mp) m1
               /\ m' = spend (peer_qid l) false (connected rdma qid (peer_qid l) (tid pc) (tid pl) m1)
      end) m.
Proof.
  intros Hm Hport Hwf Hq Hvs Ha Hroom. unfold connect_handler. wp_step. apply (wp_port_get m Mp port n vs Hm Hport).
  destruct (is_listening n =? 0) eqn:Hl; cbv iota.
  { wp_steps. unfold abs_dispatch, listening. rewrite Hl. simpl. split_and!; [done|done|]. by apply ported_refl. }
  wp_step. eapply wp_mono; [apply (dispatch_spec m Mp port n vs Hm Hport); unfold listening; by rewrite Hl|].
  intros r m1 o [-> Hres]. destruct (abs_dispatch (n, vs)) as [[l v]|] eqn:Hd.
  2: { destruct Hres as [-> Hp]. wp_steps. done. }
  destruct Hres as (-> & Hacc & Hp).
  destruct (abs_dispatch_found _ _ _ Hd) as [Hin _]. simpl in Hin.
  rewrite Forall_forall in Hvs. specialize (Hvs l Hin). destruct Hp as (p1 & -> & Hp1). wp_step.
  apply connect_key_spec; [done|done|done|done|]. intros pc pl Hpc Hpl. wp_step.
  apply wp_push_to; [by destruct rdma|by destruct rdma|by destruct rdma; apply (Hroom l v)|]. wp_steps. simpl app.
  split_and!; [done|done|done|done|]. eexists pc, pl, _. split_and!; [done|done| |done]. by apply ported_intro.
Qed.

(** The queue of the listener whose turn it is has no slot left: the monitor
    does not return from the push. *)
Lemma connect_waits attach port fd rdma qid m Mp n vs l v :
  AdjList.models (ports m) Mp -> Mp !! port = Some (n, vs) -> abs_dispatch (n, vs) = Some (l, v) ->
  credits_of m (peer_qid l) false <= 0 ->
  connect_handler attach port fd rdma qid m = None.
Proof.
  intros Hm Hport Hd Hc. assert (Hl : listening n = true).
  { unfold abs_dispatch in Hd. by destruct (listening n). }
  pose proof (dispatch_spec m Mp port n vs Hm Hport Hl) as H. rewrite Hd in H.
  apply wp_run in H as (r & m1 & o & Hrun & -> & -> & _ & p & -> & _).
  pose proof (wp_port_get m Mp port n vs Hm Hport (fun n' m' o => n' = n /\ m' = m /\ o = []) ltac:(done)) as Hn.
  apply wp_run in Hn as (n' & m' & o & Hn & -> & -> & ->).
  unfold connect_handler. rewrite (bind_run _ _ _ _ _ _ Hn). unfold listening in Hl.
  destruct (is_listening n =? 0); [done|]. rewrite (bind_run _ _ _ _ _ _ Hrun).
  cbv beta iota. unfold mbind at 1, M_bind at 1.
  destruct (connect_key attach rdma qid (peer_qid l) (set_ports m p)) as [[[key m2] o2]|] eqn:Ek; [|done].
  rewrite bind_stuck; [done|]. apply push_to_full. by rewrite (connect_key_credits _ _ _ _ _ _ _ _ Ek).
Qed.

(** ** Theorems *)

(** C18: the monitor's handlers of listeners are the operations on an abstract
    table of ports.  In every state whose linked lists stand for a table, and
    for every port: [listen_handler] fails with [EADDRINUSE] exactly when the
    port is taken and not shared, and otherwise adds the listener;
    [accept_handler] marks the caller's listener; [close_handler] removes the
    caller's listener and ends listening with the last one; and
    [sock_resource_gc] removes from all ports exactly the listeners of processes
    that do not exist.  These change nothing of the monitor's state but the port
    table.  [connect_handler], when the segment of the connection can be
    attached, answers with an error, changing nothing, when no listener accepts;
    otherwise it gives the connection to the first that does, telling client and
    listener the same key and opposite sides, and changes, besides the order of
    the listeners and a credit of the listener's queue, exactly the tables of
    connections, where the new one is entered; if the 256 slots of the queue of
    that listener are full it does not return.  All loops over the lists end. *)
Theorem ports_refine (m : monitor) (Mp : table) (port : Z) (n : node) (vs : list listener) :
  AdjList.models (ports m) Mp -> Mp !! port = Some (n, vs) ->
  (forall reuse qid, DArray.total_num (AdjList.elements (ports m)) < 2 ^ 31 - 1 ->
    exists res m', listen_handler port reuse qid m = Some (res, m', [])
      /\ match abs_listen reuse qid (n, vs) with
         | None => res = mkCtl RES_ERROR (resp_command (Some RES_ERROR) (Some EADDRINUSE)) /\ m' = m
         | Some v => res = mkCtl RES_SUCCESS (resp_command (Some RES_SUCCESS) None) /\ ported m (<[port := v]> Mp) m'
         end)
  /\ (forall qid, exists m', accept_handler port qid m = Some (tt, m', [])
        /\ ported m (<[port := abs_accept qid (n, vs)]> Mp) m')
  /\ (forall qid, exists m', close_handler port qid m = Some (tt, m', [])
        /\ ported m (<[port := abs_close qid (n, vs)]> Mp) m')
  /\ (all_ports Mp -> exists m', sock_resource_gc m = Some (tt, m', [])
        /\ ported m (abs_gc (process_isexist m) <$> Mp) m')
  /\ (forall attach fd rdma qid, DArray.wf (process m) -> is_slot m qid ->
        Forall (fun l => is_slot m (peer_qid l)) vs -> attach (next_key m) = true ->
        match abs_dispatch (n, vs) with
        | None => exists m', connect_handler attach port fd rdma qid m = Some (connect_error, m', []) /\ ported m Mp m'
        | Some (l, v) =>
            is_accepting l = true
            /\ if credits_of m (peer_qid l) false <=? 0 then connect_handler attach port fd rdma qid m = None
               else exists pc pl m1, DArray.get (process m) qid = Some pc /\ DArray.get (process m) (peer_qid l) = Some pl
                 /\ ported m (<[port := v]> Mp) m1
                 /\ connect_handler attach port fd rdma qid m
                    = Some (to_client (next_key m),
                            spend (peer_qid l) false (connected rdma qid (peer_qid l) (tid pc) (tid pl) m1),
                            [mkOut (peer_qid l) false (to_listener (next_key m) fd port rdma)])
        end).
Proof.
  intros Hm Hport. split_and!.
  - intros reuse qid Hmax. pose proof (listen_spec m Mp port n vs Hm Hport reuse qid Hmax) as H.
    apply wp_run in H as (res & m' & o & Hr & -> & H). by exists res, m'.
  - intros qid. pose proof (accept_spec m Mp port n vs Hm Hport qid) as H.
    apply wp_run in H as ([] & m' & o & Hr & -> & H). by exists m'.
  - intros qid. pose proof (close_spec port m Mp n vs qid Hm Hport) as H.
    apply wp_run in H as ([] & m' & o & Hr & -> & H). by exists m'.
  - intros Hall. pose proof (gc_spec m Mp Hm Hall) as H. apply wp_run in H as ([] & m' & o & Hr & -> & H). by exists m'.
  - intros attach fd rdma qid Hwf Hq Hvs Ha.
    pose proof (connect_spec attach port fd rdma qid m Mp n vs Hm Hport Hwf Hq Hvs Ha) as H.
    destruct (abs_dispatch (n, vs)) as [[l v]|] eqn:Hd.
    + split; [by eapply abs_dispatch_found|]. destruct (Z.leb_spec (credits_of m (peer_qid l) false) 0) as [Hc|Hc].
      { by eapply connect_waits. }
      specialize (H ltac:(intros ? ? [= <- <-]; lia)). apply wp_run in H as (res & m' & o & Hr & H).
      destruct H as (_ & _ & -> & -> & pc & pl & m1 & Hpc & Hpl & Hp & ->). by exists pc, pl, m1.
    + specialize (H ltac:(done)). apply wp_run in H as (res & m' & o & Hr & -> & -> & H). by exists m'.
Qed.







Section round_robin.
Context (attach : Z -> bool) (port : Z) (Ha : forall key, attach key = true).





End round_robin.


(** A table with one shared port, on which the processes 2 and 1 listen and
    accept. *)
Definition demo_node : node := mkNode 1 1 1.
Definition demo_table : table := {[0 := (demo_node, [mkListener (-1) 2 true; mkListener (-1) 1 true])]}.
Definition demo_ports : port_table :=
  let a := AdjList.adjlist_new 2 2 in
  let a := match AdjList.add_key a demo_node with Some (_, a) => a | None => a end in
  let put a v := match AdjList.add_element a 0 v with Some (_, a) => a | None => a end in
  put (put a (mkListener (-1) 1 true)) (mkListener (-1) 2 true).
Definition demo_monitor : monitor :=
  fresh_credits 1 (fresh_credits 2 (set_ports (set_process monitor_new (DArray.darray_new 4)) demo_ports)).

Lemma demo_ports_model : AdjList.models demo_ports demo_table.
Proof.
  destruct (AdjList.models_add_key (AdjList.adjlist_new 2 2 : port_table) ∅ demo_node) as (k0 & a0 & H0 & _ & Hm0);
    [by apply AdjList.models_new|done|]. vm_compute in H0. injection H0 as <- <-.
  destruct (AdjList.models_add_element _ _ 0 demo_node [] (mkListener (-1) 1 true) Hm0) as (i1 & a1 & H1 & _ & Hm1);
    [by vm_compute..|]. vm_compute in H1. injection H1 as _ <-. rewrite insert_insert_eq in Hm1.
  destruct (AdjList.models_add_element _ _ 0 demo_node [mkListener (-1) 1 true] (mkListener (-1) 2 true) Hm1)
    as (i2 & a2 & H2 & _ & Hm2); [by vm_compute..|]. vm_compute in H2. injection H2 as _ <-.
  rewrite insert_insert_eq in Hm2.
  match type of Hm2 with AdjList.models ?l _ => replace demo_ports with l by (by vm_compute) end. exact Hm2.
Qed.

Lemma demo_wf : DArray.wf (process demo_monitor).
Proof. by apply DArray.new_wf. Qed.

Lemma ports_refine_witness :
  exists m1 m2, accept_handler 0 1 demo_monitor = Some (tt, m1, [])
    /\ ported demo_monitor {[0 := (demo_node, [mkListener (-1) 1 true; mkListener (-1) 2 true])]} m1
    /\ close_handler 0 2 demo_monitor = Some (tt, m2, [])
    /\ ported demo_monitor {[0 := (demo_node, [mkListener (-1) 1 true])]} m2
    /\ exists m3, connect_handler (fun _ => true) 0 5 false 3 demo_monitor
         = Some (to_client 9837423, m3, [mkOut 2 false (to_listener 9837423 5 0 false)]).
Proof.
  destruct (ports_refine demo_monitor demo_table 0 _ _ demo_ports_model eq_refl) as (_ & Ha & Hc & _ & Hco).
  specialize (Hco (fun _ => true) 5 false 3 demo_wf ltac:(done) ltac:(by repeat constructor) eq_refl).
  destruct Hco as (_ & pc & pl & m3 & _ & _ & _ & H3).
  destruct (Ha 1) as (m1 & H1 & Hp1). destruct (Hc 2) as (m2 & H2 & Hp2). exists m1, m2.
  split; [exact H1|]. split; [|split; [exact H2|split; [|eexists; exact H3]]].
  - unfold demo_table in Hp1. rewrite insert_singleton_eq in Hp1. exact Hp1.
  - unfold demo_table in Hp2. rewrite insert_singleton_eq in Hp2. exact Hp2.
Defined.



End MonitorPorts.
