(* ===== verification/MonitorRun.v ===== *)
(** * The prototype's monitor at work

    The invariant of the monitor's tables, that every request for which
    [request_ok] holds and the housekeeping of the event loop preserve it and
    never bring the monitor down, and what its answers mean: who is told of a
    connection, where relayed messages go, and whose listeners are kept. *)

From Stdlib Require Import ZArith Lia.
From stdpp Require Import numbers base gmap list relations.
From S2P Require Import Prelude DArray AdjList Metaqueue ProtoMonitor MonitorPorts.
Import Metaqueue ProtoMonitor MonitorPorts.

Module MonitorRun.

(** ** Removing dead processes *)








(** ** The invariant *)

(** A port listens exactly when it has listeners, and these are processes in
    the array. *)
Definition port_ok (pr : DArray.darray_t process_sturc) (v : node * list listener) : Prop :=
  (listening v.1 = true <-> v.2 <> []) /\ Forall (fun l => is_Some (DArray.elem pr (peer_qid l))) v.2.

Definition ports_inv (m : monitor) : Prop :=
  exists Mp, AdjList.models (ports m) Mp /\ all_ports Mp /\ map_Forall (fun _ => port_ok (process m)) Mp.

Abbreviation buffers := (gmap Z (gmap Z (list interprocess_buf_map_t))).

Definition vec (idx : buffers) (a b : Z) : list interprocess_buf_map_t :=
  default [] (idx !! a ≫= fun inner => inner !! b).

Definition other_side (e : interprocess_buf_map_t) : interprocess_buf_map_t := mkBuf (buffer_key e) (1 - loc e).

(** Every connection between threads [a] and [b] is registered for both, with
    opposite sides, and its key belongs to the two. *)
Definition buffers_ok (k2t : gmap Z (Z * Z)) (idx : buffers) : Prop :=
  forall a b e, e ∈ vec idx a b ->
    (loc e = 0 \/ loc e = 1) /\ other_side e ∈ vec idx b a
    /\ (k2t !! buffer_key e = Some (a, b) \/ k2t !! buffer_key e = Some (b, a)).

Record tables_ok (sz : Z) (tm : gmap Z Z) (rk : gmap Z (Z * Z)) (seg : list Z) (next : Z)
    (k2t : gmap Z (Z * Z)) (idx : buffers) : Prop := {
  tables_tid : map_Forall (fun _ q => 0 <= q < sz) tm;
  tables_rdma : map_Forall (fun k qr => (0 <= qr.1 < sz /\ 0 <= qr.2 < sz) /\ k < next /\ (k ∉ seg)) rk;
  tables_seg : NoDup seg /\ Forall (fun k => k < next) seg;
  tables_key : map_Forall (fun k _ => k ∈ seg) k2t;
  tables_buf : buffers_ok k2t idx
}.

Definition tables_inv (m : monitor) : Prop :=
  tables_ok (DArray.size (process m)) (tidmap m) (rdma_key2qid m) (segments m) (next_key m)
    (interprocess_key2tid m) (interprocess_buf_idx m).

(** No remote process is ever removed. *)
Definition remotes_ok (d : DArray.darray_t remote_process_t) : Prop := DArray.wf d /\ DArray.dense d.

Definition mon_inv (m : monitor) : Prop :=
  DArray.wf (process m) /\ remotes_ok (rdma_processes m) /\ ports_inv m /\ tables_inv m.

Implicit Types (pr : DArray.darray_t process_sturc) (m : monitor).

(** *** The abstract port operations keep it *)

Lemma rotated_ok pr P vs w r :
  rotate_to P [] vs = Some (w, r) -> Forall (fun l => is_Some (DArray.elem pr (peer_qid l))) vs ->
  is_Some (DArray.elem pr (peer_qid w)) /\ Forall (fun l => is_Some (DArray.elem pr (peer_qid l))) r.
Proof. intros [_ Hp]%rotate_to_perm H. simpl in Hp. rewrite <- Hp in H. by apply Forall_cons in H. Qed.



Lemma abs_dispatch_ok pr v l v' : port_ok pr v -> abs_dispatch v = Some (l, v') -> port_ok pr v'.
Proof.
  intros [H1 H2]. destruct v as [n vs]. unfold abs_dispatch. destruct (listening n) eqn:Hl; [|done].
  destruct (rotate_to _ _ _) as [[w r]|] eqn:Hr; [|done]. intros [= <- <-]. destruct (rotated_ok pr _ _ _ _ Hr H2).
  split; simpl; [rewrite Hl; by destruct r|]. apply Forall_app. by repeat constructor.
Qed.




(** *** The tables *)

Lemma buf_push_vec a b v m x y :
  vec (interprocess_buf_idx (buf_push a b v m)) x y
  = if bool_decide (x = a /\ y = b) then vec (interprocess_buf_idx m) a b ++ [v] else vec (interprocess_buf_idx m) x y.
Proof.
  unfold vec, buf_push. simpl. destruct (decide (x = a)) as [->|Hx].
  - rewrite lookup_insert_eq. simpl. destruct (decide (y = b)) as [->|Hy].
    + rewrite lookup_insert_eq, bool_decide_true by done. simpl. by destruct (interprocess_buf_idx m !! a).
    + rewrite lookup_insert_ne, bool_decide_false by (done || intros []; done).
      by destruct (interprocess_buf_idx m !! a).
  - rewrite lookup_insert_ne, bool_decide_false by (done || intros []; done). done.
Qed.

Lemma vec_touch (idx : buffers) a x y : vec (<[a := default ∅ (idx !! a)]> idx) x y = vec idx x y.
Proof.
  unfold vec. destruct (decide (a = x)) as [->|]; [|by rewrite lookup_insert_ne]. rewrite lookup_insert_eq. simpl.
  by destruct (idx !! x).
Qed.

Lemma buffers_touch k2t idx a : buffers_ok k2t idx -> buffers_ok k2t (<[a := default ∅ (idx !! a)]> idx).
Proof. intros H x y e. rewrite !vec_touch. apply H. Qed.

Lemma buffer_added_vec a b l m (Hl : l = 0 \/ l = 1) x y :
  vec (interprocess_buf_idx (buffer_added a b l m)) x y
  = vec (interprocess_buf_idx m) x y
    ++ (if bool_decide (x = a /\ y = b) then [mkBuf (next_key m) l] else [])
    ++ (if bool_decide (x = b /\ y = a) then [mkBuf (next_key m) (1 - l)] else []).
Proof.
  set (m1 := set_segments (set_counter m (current_q_counter m + 1)) (segments m ++ [next_key m])).
  change (interprocess_buf_idx (buffer_added a b l m)) with (interprocess_buf_idx
    (buf_push b a (mkBuf (next_key m) (if l =? 0 then 1 else 0)) (buf_push a b (mkBuf (next_key m) l) m1))).
  replace (if l =? 0 then 1 else 0) with (1 - l) by (destruct Hl as [-> | ->]; done).
  rewrite !buf_push_vec. change (interprocess_buf_idx m1) with (interprocess_buf_idx m).
  repeat case_bool_decide; destruct_and?; subst; rewrite ?app_nil_r, <- ?(assoc_L (++)); (done || naive_solver).
Qed.

Lemma tables_buffer_added a b l m : (l = 0 \/ l = 1) -> tables_inv m -> tables_inv (buffer_added a b l m).
Proof.
  intros Hl [H1 H2 [H3 H3'] H4 H5]. unfold tables_inv. set (key := next_key m).
  assert (Hnk : next_key (buffer_added a b l m) = key + 1) by (unfold key, next_key; simpl; lia).
  rewrite Hnk. assert (Hfresh : (key ∉ segments m)).
  { intros Hin. rewrite Forall_forall in H3'. specialize (H3' key Hin). simpl in H3'. fold key in H3'. lia. }
  split.
  - exact H1.
  - intros k qr Hk. destruct (H2 k qr Hk) as (Hs & Hlt & Hns). simpl in *. fold key in Hlt. split; [done|]. split; [lia|].
    intros [?|Hin]%elem_of_app; [done|]. apply list_elem_of_singleton in Hin. unfold key in *. lia.
  - simpl. fold key. split.
    + apply NoDup_app. split; [done|]. split; [|repeat constructor; by intros ?%not_elem_of_nil].
      intros x Hx ->%list_elem_of_singleton. done.
    + apply Forall_app. split; [|repeat constructor; lia]. eapply Forall_impl; [exact H3'|]. simpl. fold key. intros; lia.
  - intros k ab' Hk. simpl in *. fold key in Hk |- *. apply elem_of_app. apply lookup_insert_Some in Hk as [[<- _]|[_ Hk]].
    + right. by left.
    + left. by apply (H4 k ab').
  - intros x y e He. simpl interprocess_key2tid in *. change (next_key m) with key in He |- *.
    pose proof (buffer_added_vec a b l m Hl) as Hvec. fold key in Hvec.
    rewrite Hvec in He |- *. apply elem_of_app in He as [He|He].
    + destruct (H5 x y e He) as (Hle & Ho & Hk). split; [done|]. split; [apply elem_of_app; by left|].
      assert (Hne : key <> buffer_key e).
      { intros E. destruct Hk as [Hk|Hk]; apply H4 in Hk; rewrite <- E in Hk; done. }
      by rewrite !lookup_insert_ne.
    + apply elem_of_app in He as [He|He]; case_bool_decide as Hxy; try (by apply not_elem_of_nil in He);
        apply list_elem_of_singleton in He as ->; destruct Hxy as [-> ->]; simpl; rewrite !lookup_insert_eq;
        (split; [lia|]; split; [|tauto]); unfold other_side; simpl; rewrite ?elem_of_app.
      * right. right. rewrite bool_decide_true by done. by left.
      * right. left. rewrite bool_decide_true by done. replace (1 - (1 - l)) with l by lia. by left.
Qed.

Lemma tables_rdma_added q r l m : is_slot m q -> is_slot m r -> tables_inv m -> tables_inv (rdma_added q r l m).
Proof.
  intros Hq Hr [H1 H2 [H3 H3'] H4 H5]. unfold tables_inv.
  assert (Hnk : next_key (rdma_added q r l m) = next_key m + 1) by (unfold next_key; simpl; lia). rewrite Hnk. split.
  - exact H1.
  - intros k qr Hk. simpl in Hk. apply lookup_insert_Some in Hk as [[<- <-]|[_ Hk]].
    + split; [done|]. split; [lia|]. intros Hin. rewrite Forall_forall in H3'. specialize (H3' _ Hin). simpl in H3'. lia.
    + destruct (H2 k qr Hk) as (? & ? & ?). split; [done|]. split; [lia|done].
  - split; [done|]. eapply Forall_impl; [exact H3'|]. simpl. intros; lia.
  - exact H4.
  - exact H5.
Qed.

Lemma tables_connected rdma qid peer a b m :
  is_slot m qid -> is_slot m peer -> tables_inv m -> tables_inv (connected rdma qid peer a b m).
Proof.
  intros Hq Hp Ht. unfold connected. destruct rdma; [by apply tables_rdma_added|].
  apply tables_buffer_added; [by left|]. destruct Ht as [H1 H2 H3 H4 H5]. split; [done..|]. by apply buffers_touch.
Qed.

(** *** The requests keep it *)

(** Each message has used a credit of its queue. *)
Definition sent_to (q : Z) (e : bool) (o : list out) : Z :=
  Z.of_nat (length (filter (fun x => dest x = q /\ emergency x = e) o)).
Definition credited (m m' : monitor) (o : list out) : Prop :=
  forall q e, credits_of m' q e = credits_of m q e - sent_to q e o.

Lemma sent_to_app q e o o' : sent_to q e (o ++ o') = sent_to q e o + sent_to q e o'.
Proof. unfold sent_to. rewrite filter_app, length_app. lia. Qed.


Lemma sent_to_one q e q' e' x : sent_to q e [mkOut q' e' x] = if bool_decide (q = q' /\ e = e') then 1 else 0.
Proof.
  unfold sent_to. rewrite filter_cons, filter_nil. simpl. case_bool_decide as H.
  - destruct H as [-> ->]. by rewrite decide_True.
  - rewrite decide_False; [done|]. intros [-> ->]. by destruct H.
Qed.

Lemma credited_same m m' : (forall q e, credits_of m' q e = credits_of m q e) -> credited m m' [].
Proof. intros H q e. rewrite H. unfold sent_to. simpl. lia. Qed.

Lemma credited_app m m1 m2 o o' : credited m m1 o -> credited m1 m2 o' -> credited m m2 (o ++ o').
Proof. intros H1 H2 q e. rewrite H2, H1, sent_to_app. lia. Qed.

Lemma credited_push m q e x : credited m (spend q e m) [mkOut q e x].
Proof. intros q' e'. by rewrite credits_spend, sent_to_one. Qed.

(** Only messages have been pushed. *)
Definition pushed (m m' : monitor) (o : list out) : Prop := (exists c, m' = set_credits m c) /\ credited m m' o.

Lemma pushed_push m q e x : pushed m (spend q e m) [mkOut q e x].
Proof. split; [by eexists|apply credited_push]. Qed.

Lemma mon_inv_credits m c : mon_inv m -> mon_inv (set_credits m c).
Proof. intros H. exact H. Qed.

(** What every handler guarantees: the invariant, no change of the processes,
    and messages only to positions of the array, each for a credit. *)
Definition handled (m m' : monitor) (o : list out) : Prop :=
  mon_inv m' /\ process m' = process m /\ Forall (fun x => is_slot m (dest x)) o /\ credited m m' o.


Lemma handled_same m m' :
  mon_inv m' -> process m' = process m -> (forall q e, credits_of m' q e = credits_of m q e) -> handled m m' [].
Proof. intros H1 H2 H3. split_and!; [done|done|constructor|by apply credited_same]. Qed.

Lemma handled_push m m' q e x :
  mon_inv m' -> process m' = process m -> (forall q e, credits_of m' q e = credits_of m q e) -> is_slot m q ->
  handled m (spend q e m') [mkOut q e x].
Proof.
  intros H1 H2 H3 H4. split_and!; [exact H1|exact H2|by apply Forall_singleton|].
  eapply (credited_app m m' _ []); [by apply credited_same|apply credited_push].
Qed.


Lemma inv_ported m Mp m' :
  mon_inv m -> all_ports Mp -> map_Forall (fun _ => port_ok (process m)) Mp -> ported m Mp m' ->
  mon_inv m' /\ process m' = process m.
Proof.
  intros (H1 & H2 & H3 & H4) Hall Hok (p & -> & Hp). split; [|done]. split; [done|]. split; [done|]. split; [by exists Mp|].
  exact H4.
Qed.

Lemma all_ports_insert (Mp : table) k v : 0 <= k < 65536 -> all_ports Mp -> all_ports (<[k := v]> Mp).
Proof.
  intros Hk H j. unfold all_ports in H. rewrite <- (H j). destruct (decide (k = j)) as [<-|]; [|by rewrite lookup_insert_ne].
  rewrite lookup_insert_eq. split; [intros _; by apply H|done].
Qed.

Lemma push_all_total m q es :
  DArray.wf (process m) -> is_slot m q -> Z.of_nat (length es) <= credits_of m q false ->
  wp (push_all q es) (fun _ m' o => pushed m m' o /\ o = mkOut q false <$> es) m.
Proof.
  revert m. induction es as [|e es IH]; intros m Hwf Hq Hc; cbn [push_all].
  { wp_step. split; [|done]. split; [exists (q_credits m); by destruct m|by apply credited_same]. }
  simpl length in Hc. wp_step. apply wp_push_to; [done|done|lia|].
  eapply wp_mono; [apply IH; [done|done|rewrite credits_spend, bool_decide_true by done; lia]|].
  intros _ m' o [[[c ->] Hcr] ->]. split; [|done]. split; [by eexists|]. eapply credited_app; [apply credited_push|done].
Qed.

Lemma abs_dispatch_listening v r : abs_dispatch v = Some r -> listening v.1 = true.
Proof. destruct v as [n vs]. unfold abs_dispatch. simpl. by destruct (listening n). Qed.

(** The queue of the listener that gets the next connection to [port] is not
    full. *)
Definition listener_room (m : monitor) (port : Z) : Prop :=
  forall Mp n vs l v, AdjList.models (ports m) Mp -> Mp !! port = Some (n, vs) -> abs_dispatch (n, vs) = Some (l, v) ->
    0 < credits_of m (peer_qid l) false.

(** One table that the lists stand for is enough to see it. *)
Lemma listener_room_intro m port Mp n vs :
  AdjList.models (ports m) Mp -> Mp !! port = Some (n, vs) ->
  (forall l v, abs_dispatch (n, vs) = Some (l, v) -> 0 < credits_of m (peer_qid l) false) -> listener_room m port.
Proof.
  intros Hm Hport Habs Mp' n' vs' l v Hm' Hport' Hd. pose proof (abs_dispatch_listening _ _ Hd) as Hl. simpl in Hl.
  pose proof (AdjList.models_get_key _ _ _ _ _ Hm Hport) as Hk.
  rewrite (AdjList.models_get_key _ _ _ _ _ Hm' Hport') in Hk. injection Hk as ->.
  pose proof (dispatch_spec m Mp port n vs Hm Hport Hl) as H.
  pose proof (dispatch_spec m Mp' port n vs' Hm' Hport' Hl) as H'. unfold wp in H, H'.
  destruct (dispatch port m) as [[[r m'] o]|]; [|done]. rewrite Hd in H'. destruct H' as (_ & -> & _), H as [_ H].
  destruct (abs_dispatch (n, vs)) as [[l0 v0]|] eqn:E; destruct H as [Hr _]; [|done]. injection Hr as ->. by eapply Habs.
Qed.


Section requests.
Context (m : monitor) (Hinv : mon_inv m).

Lemma mon_inv_wf : DArray.wf (process m).
Proof using Hinv. apply Hinv. Qed.

Lemma inv_port port :
  0 <= port < 65536 -> exists Mp n vs, AdjList.models (ports m) Mp /\ all_ports Mp
    /\ map_Forall (fun _ => port_ok (process m)) Mp /\ Mp !! port = Some (n, vs) /\ port_ok (process m) (n, vs).
Proof using Hinv.
  intros Hp. destruct Hinv as (_ & _ & (Mp & Hm & Hall & Hok) & _). destruct (proj2 (Hall port) Hp) as [[n vs] Hv].
  exists Mp, n, vs. split_and!; try done; apply (Hok port (n, vs) Hv).
Qed.

Lemma live_slot q : is_Some (DArray.elem (process m) q) -> is_slot m q.
Proof using Hinv. apply DArray.elem_slot, mon_inv_wf. Qed.

Lemma port_listeners n vs : port_ok (process m) (n, vs) -> Forall (fun l => is_slot m (peer_qid l)) vs.
Proof using Hinv. intros [_ H]. eapply Forall_impl; [exact H|]. intros l. apply live_slot. Qed.

(** A change of one port. *)
Lemma handled_port Mp port v m' :
  0 <= port < 65536 -> all_ports Mp -> map_Forall (fun _ => port_ok (process m)) Mp ->
  port_ok (process m) v -> ported m (<[port := v]> Mp) m' -> handled m m' [].
Proof using Hinv.
  intros Hp Hall Hok Hv Hpd. destruct (inv_ported m _ m' Hinv (all_ports_insert _ _ v Hp Hall)) with (2 := Hpd) as [H1 H2].
  { by apply map_Forall_insert_2. }
  destruct Hpd as (p & -> & _). by apply handled_same.
Qed.




Lemma connect_total attach port fd rdma qid :
  0 <= port < 65536 -> is_slot m qid -> attach (next_key m) = true -> listener_room m port ->
  wp (connect_handler attach port fd rdma qid) (fun _ m' o => (length o <= 1)%nat /\ handled m m' o) m.
Proof using Hinv.
  intros Hp Hq Ha Hroom. destruct (inv_port port Hp) as (Mp & n & vs & Hm & Hall & Hok & Hv & Hpo).
  pose proof (port_listeners n vs Hpo) as Hls.
  eapply wp_mono; [apply (connect_spec attach port fd rdma qid m Mp n vs); try done; [apply mon_inv_wf|intros l v; by apply (Hroom Mp n vs)]|].
  intros res m' o Hres. destruct (abs_dispatch (n, vs)) as [[l v]|] eqn:Hd.
  - destruct Hres as (Hl & _ & -> & -> & pc & pl & m1 & _ & _ & Hpd & ->).
    rewrite Forall_forall in Hls. specialize (Hls l Hl).
    destruct (handled_port Mp port v m1 Hp Hall Hok) as ((H1 & H2 & H3 & H4) & H5 & _);
      [by eapply abs_dispatch_ok|done|]. split; [done|].
    assert (Hslot : forall q, is_slot m q -> is_slot m1 q) by (unfold is_slot; by rewrite H5).
    assert (Hcr : forall q e, credits_of m1 q e = credits_of m q e) by (by destruct Hpd as (p & -> & _)).
    apply handled_push; [|by destruct rdma|by destruct rdma|done]. destruct rdma; (split; [done|]; split; [done|]; split; [done|]);
      apply (tables_connected _ qid (peer_qid l) (tid pc) (tid pl) m1); auto.
  - destruct Hres as (-> & -> & Hpd). split; [simpl; lia|]. eapply (handled_port Mp port (n, vs)); try done.
    by rewrite insert_id.
Qed.





(** The process a relayed RDMA message of process [qid] goes to. *)
Definition relay_peer (m : monitor) (key qid : Z) : option Z :=
  '(q1, q2) ← rdma_key2qid m !! key;
  p ← DArray.get (process m) qid;
  Some (if isRDMA p then q1 else q2).

Definition ack_peer (m : monitor) (key : Z) : option Z :=
  '(q1, q2) ← rdma_key2qid m !! key;
  p ← DArray.get (process m) q1;
  Some (if negb (isRDMA p) then q1 else q2).

Lemma relay_slot key q1 q2 : rdma_key2qid m !! key = Some (q1, q2) -> is_slot m q1 /\ is_slot m q2.
Proof using Hinv.
  intros Hk. pose proof Hinv as (_ & _ & _ & [_ Hr _ _ _]). by destruct (Hr key (q1, q2) Hk) as [? _].
Qed.

Lemma long_msg_spec len buf qid bytes rest peer :
  is_slot m qid -> pop_longmsg (Z.to_nat len) len (queued m qid) = Some (bytes, rest) ->
  relay_peer m (key_of_bytes bytes) qid = Some peer -> peer <> qid ->
  Z.of_nat (length (push_longmsg bytes buf RDMA_QP_INFO)) <= credits_of m peer false ->
  wp (long_msg_handler len RDMA_QP_INFO buf qid)
    (fun _ m' o => pushed (set_inbox m (<[qid := rest]> (inbox m))) m' o
       /\ o = mkOut peer false <$> push_longmsg bytes buf RDMA_QP_INFO /\ is_slot m peer) m.
Proof using Hinv.
  intros Hq Hpop Hpeer Hne Hc. unfold relay_peer in Hpeer. pose proof mon_inv_wf as Hwf.
  destruct (rdma_key2qid m !! _) as [[q1 q2]|] eqn:Hk; [|done]. simpl in Hpeer.
  destruct (relay_slot _ _ _ Hk) as [Hs1 Hs2]. destruct (DArray.get (process m) qid) as [p|] eqn:Hp; [|done].
  injection Hpeer as Hpeer. unfold long_msg_handler, set_queued. rewrite bool_decide_true by done. wp_step.
  apply wp_process_get; [done|done|]. intros _ _. wp_steps. eapply wp_need; [exact Hpop|]. wp_steps.
  eapply wp_need; [exact Hk|]. wp_step. unfold process_isRDMA. wp_step. apply wp_process_get; [done|done|].
  intros p' Hp'. simpl in Hp'. rewrite Hp in Hp'. injection Hp' as <-. wp_step. cbv zeta. rewrite Hpeer.
  assert (Hslot : is_slot m peer) by (rewrite <- Hpeer; by destruct (isRDMA p)).
  destruct (Z.eqb_spec peer qid); [done|]. eapply wp_mono; [by apply (push_all_total (set_inbox m _))|].
  by intros _ m' o [? ->].
Qed.

Lemma ack_spec req key qid peer :
  ack_peer m key = Some peer -> peer <> qid -> 0 < credits_of m peer false ->
  wp (rdma_ack_handler req key qid)
    (fun _ m' o => m' = spend peer false m /\ o = [mkOut peer false req] /\ is_slot m peer) m.
Proof using Hinv.
  intros Hpeer Hne Hc. unfold ack_peer in Hpeer. pose proof mon_inv_wf as Hwf.
  destruct (rdma_key2qid m !! key) as [[q1 q2]|] eqn:Hk; [|done]. simpl in Hpeer.
  destruct (relay_slot _ _ _ Hk) as [Hs1 Hs2]. destruct (DArray.get (process m) q1) as [p|] eqn:Hp; [|done].
  injection Hpeer as Hpeer. unfold rdma_ack_handler, process_isRDMA. wp_steps. eapply wp_need; [exact Hk|]. wp_steps.
  apply wp_process_get; [done|done|]. intros p' Hp'. rewrite Hp in Hp'. injection Hp' as <-. wp_step. cbv zeta. rewrite Hpeer.
  assert (Hslot : is_slot m peer) by (rewrite <- Hpeer; by destruct (isRDMA p)).
  destruct (Z.eqb_spec peer qid); [done|]. by apply wp_push_to.
Qed.

End requests.




(** *** Housekeeping keeps it *)









(** The thirty-third remote process does not fit into the buffer. *)
Lemma new_rdma_overflows MR_ptr a m :
  mon_inv m -> MAX_RDMA_CONN_NUM <= DArray.total_num (rdma_processes m) < 2 ^ 31 - 1 ->
  try_new_rdma MR_ptr (Some a) m = None.
Proof.
  intros (_ & [Hwfr Hdr] & _) Hfull. unfold try_new_rdma, mbind, M_bind, gets, need.
  destruct (DArray.add _ _) as [[idx rp]|] eqn:Ea; [|done].
  destruct (DArray.add_dense _ _ _ _ Hwfr Hdr ltac:(lia) Ea) as [-> _].
  destruct (Z.leb_spec MAX_RDMA_CONN_NUM (DArray.total_num (rdma_processes m))); [done|lia].
Qed.




(** ** Runs *)

Lemma fresh_all_ports (Mp : table) v :
  (forall k, Mp !! k = if (0 <=? k) && (k <? 65536) then Some v else None) -> all_ports Mp.
Proof.
  intros HMp k. rewrite HMp. destruct (Z.leb_spec 0 k), (Z.ltb_spec k 65536); simpl; split; try (done || lia); by intros [].
Qed.

Lemma fresh_ports_ok pr (Mp : table) :
  (forall k, Mp !! k = if (0 <=? k) && (k <? 65536) then Some (mkNode 0 1 0, []) else None) ->
  map_Forall (fun _ => port_ok pr) Mp.
Proof. intros HMp k v Hv. rewrite HMp in Hv. destruct (_ && _); [|done]. injection Hv as <-. by split. Qed.

Lemma no_remotes : remotes_ok (DArray.darray_new 32).
Proof.
  split; [apply DArray.new_wf; lia|]. split; [done|]. intros i _. by apply DArray.new_elem.
Qed.





(** ** Forks of threads with connections *)

(** Nothing of a turn of the loop of [fork_handler] shortens a vector, and
    [buffer_new] lengthens the one the loop walks. *)
Lemma buf_push_length a b v m x y :
  (length (vec (interprocess_buf_idx m) x y) <= length (vec (interprocess_buf_idx (buf_push a b v m)) x y))%nat.
Proof. rewrite buf_push_vec. case_bool_decide as H; [destruct H as [-> ->]; rewrite length_app|]; lia. Qed.

Lemma buffer_new_grows attach a b l m key m' o :
  buffer_new attach a b l m = Some (key, m', o) ->
  (length (vec (interprocess_buf_idx m) a b) < length (vec (interprocess_buf_idx m') a b))%nat
  /\ forall x y, (length (vec (interprocess_buf_idx m) x y) <= length (vec (interprocess_buf_idx m') x y))%nat.
Proof.
  unfold buffer_new, new_key, mbind, M_bind, gets, modify, mret, M_ret. destruct (attach _); [|done]. intros [= _ <- _].
  set (m1 := set_segments _ _). set (v1 := mkBuf _ l). set (v2 := mkBuf _ (if l =? 0 then 1 else 0)).
  change (interprocess_buf_idx (set_key2tid _ _)) with (interprocess_buf_idx (buf_push b a v2 (buf_push a b v1 m1))).
  change (interprocess_buf_idx m) with (interprocess_buf_idx m1). split.
  - eapply Nat.lt_le_trans; [|apply buf_push_length]. rewrite buf_push_vec, bool_decide_true, length_app by done. simpl. lia.
  - intros x y. etrans; apply buf_push_length.
Qed.

Lemma push_to_idx q e x m r m' o : push_to q e x m = Some (r, m', o) -> interprocess_buf_idx m' = interprocess_buf_idx m.
Proof.
  unfold push_to, process_get, mbind, M_bind, gets, need, modify, emit. destruct (DArray.get _ _); [|done].
  destruct (_ <=? 0); [done|]. by intros [= _ <- _].
Qed.

Lemma tidmap_at_idx t m r m' o : tidmap_at t m = Some (r, m', o) -> interprocess_buf_idx m' = interprocess_buf_idx m.
Proof.
  unfold tidmap_at, mbind, M_bind, gets, modify, mret, M_ret. destruct (tidmap m !! t); by intros [= _ <- _].
Qed.

(** The first part of a computation that ends. *)
Lemma m_bind_inv {A B} (c : M A) (k : A -> M B) m b m' o :
  (c ≫= k) m = Some (b, m', o) -> exists a m1 o1 o2, c m = Some (a, m1, o1) /\ k a m1 = Some (b, m', o2) /\ o = o1 ++ o2.
Proof.
  unfold mbind, M_bind. destruct (c m) as [[[a m1] o1]|]; [|done]. destruct (k a m1) as [[[b' m2] o2]|] eqn:E; [|done].
  intros [= -> -> <-]. by exists a, m1, o1, o2.
Qed.

Lemma fork_turn_grows attach qid old_tid new_tid peer i m r m' o :
  (i < length (vec (interprocess_buf_idx m) old_tid peer))%nat ->
  fork_turn attach qid old_tid new_tid peer i m = Some (r, m', o) ->
  r = true /\ (S i < length (vec (interprocess_buf_idx m') old_tid peer))%nat.
Proof.
  intros Hi H. destruct (lookup_lt_is_Some_2 _ _ Hi) as [e He]. unfold fork_turn in H.
  apply m_bind_inv in H as (v & m0 & o0 & o1 & [= <- <- <-] & H & _).
  change (buf_vector m old_tid peer) with (vec (interprocess_buf_idx m) old_tid peer) in H. rewrite He in H.
  apply m_bind_inv in H as (k1 & m1 & ? & ? & H1 & H & _). apply buffer_new_grows in H1 as [_ H1].
  apply m_bind_inv in H as (k2 & m2 & ? & ? & H2 & H & _). apply buffer_new_grows in H2 as [H2 _].
  apply m_bind_inv in H as (? & m3 & ? & ? & H3 & H & _). apply push_to_idx in H3.
  apply m_bind_inv in H as (? & m4 & ? & ? & H4 & H & _). apply tidmap_at_idx in H4.
  apply m_bind_inv in H as (? & m5 & ? & ? & H5 & H & _). apply push_to_idx in H5.
  apply m_bind_inv in H as (? & m6 & ? & ? & H6 & H & _). apply tidmap_at_idx in H6.
  apply m_bind_inv in H as (? & m7 & ? & ? & H7 & H & _). apply push_to_idx in H7. injection H as <- <- _. split; [done|].
  rewrite H7, H6, H5, H4, H3. specialize (H1 old_tid peer). lia.
Qed.

(** The loop of [fork_handler] over the connections with a peer does not end:
    after any number of turns the iterator is still before the end of the
    vector. *)
Lemma fork_turns_go_on attach qid old_tid new_tid peer n i m r m' o :
  (i < length (vec (interprocess_buf_idx m) old_tid peer))%nat ->
  fork_turns attach qid old_tid new_tid peer n i m = Some (r, m', o) -> r = true.
Proof.
  revert i m o. induction n as [|n IH]; intros i m o Hi H; cbn [fork_turns] in H; [by injection H as <-|].
  apply m_bind_inv in H as (b & m1 & o1 & o2 & H1 & H & _). apply fork_turn_grows in H1 as [-> H1]; [|done]. by eapply IH.
Qed.

Lemma fork_peers_stuck fuel attach qid old_tid new_tid peers m :
  Exists (fun p => vec (interprocess_buf_idx m) old_tid p <> []) peers ->
  fork_peers fuel attach qid old_tid new_tid peers m = None.
Proof.
  induction peers as [|p peers IH]; intros Hex; [by apply Exists_nil in Hex|]. cbn [fork_peers].
  destruct (fork_turns attach qid old_tid new_tid p fuel 0 m) as [[[r m'] o]|] eqn:Ef; [|by apply bind_stuck].
  rewrite (bind_run _ _ _ _ _ _ Ef). destruct r; [done|].
  destruct (vec (interprocess_buf_idx m) old_tid p) as [|e l] eqn:Ev.
  - destruct fuel; cbn [fork_turns] in Ef; [done|]. unfold fork_turn in Ef. apply m_bind_inv in Ef as (b & m1 & o1 & o2 & H1 & H & _).
    apply m_bind_inv in H1 as (v & m0 & o0 & o3 & [= <- <- <-] & H1 & _).
    change (buf_vector m old_tid p) with (vec (interprocess_buf_idx m) old_tid p) in H1. rewrite Ev in H1.
    injection H1 as <- <- _. injection H as <- _. rewrite IH; [done|]. by apply Exists_cons in Hex as [?|?].
  - apply fork_turns_go_on in Ef; [done|]. rewrite Ev. simpl. lia.
Qed.

(** ** Runs of the monitor *)





(** ** Theorems *)




(** A fork of a thread with connections, with the right token, does not end: the
    handler walks the vector of the connections with a peer while [buffer_new]
    appends to it.  No number of turns is enough. *)
Theorem fork_never_ends fuel attach order old_tid tok qid m oq po h :
  tidmap m !! old_tid = Some oq -> DArray.get (process m) oq = Some po -> token po = tok ->
  interprocess_buf_idx m !! old_tid = Some h -> Exists (fun p => vec (interprocess_buf_idx m) old_tid p <> []) (order h) ->
  fork_handler fuel attach order old_tid tok qid m = None.
Proof.
  intros Ht Hpo Htok Hh Hex. unfold fork_handler.
  assert (Hget : forall q p, DArray.get (process m) q = Some p -> process_get q m = Some (p, m, [])).
  { intros q p Hp. unfold process_get, mbind, M_bind, gets, need. by rewrite Hp. }
  destruct (DArray.get (process m) qid) as [me|] eqn:Eme.
  2: { apply bind_stuck. unfold process_get, mbind, M_bind, gets, need. by rewrite Eme. }
  rewrite (bind_run _ _ _ _ _ _ (Hget _ _ Eme)). rewrite (bind_run (gets tidmap) _ m (tidmap m) m []) by done.
  rewrite Ht. rewrite (bind_run _ _ _ _ _ _ (Hget _ _ Hpo)), Htok, Z.eqb_refl. change (negb true) with false. cbv iota.
  rewrite (bind_run (gets (fun m => m)) _ m m m []) by done. unfold buff_get_handler. rewrite Hh.
  rewrite bind_stuck; [done|]. by apply fork_peers_stuck.
Qed.

(** A long message at the head of a queue, and an acknowledgement. *)
Lemma relay_long_msg fuel attach order buf0 buf m q data rest peer :
  mon_inv m -> is_slot m q -> length buf0 = 13%nat ->
  queued m q = push_longmsg data buf0 RDMA_QP_INFO ++ rest ->
  relay_peer m (key_of_bytes data) q = Some peer -> peer <> q ->
  Z.of_nat (length (push_longmsg data buf RDMA_QP_INFO)) <= credits_of m peer false ->
  exists m', event_processer fuel attach order buf q m
      = Some (tt, m', mkOut peer false <$> push_longmsg data buf RDMA_QP_INFO) /\ queued m' q = rest.
Proof.
  intros Hinv Hq Hb Hqueue Hpeer Hne Hc.
  assert (H : wp (event_processer fuel attach order buf q) (fun _ m' o =>
    o = mkOut peer false <$> push_longmsg data buf RDMA_QP_INFO /\ queued m' q = rest) m).
  { unfold event_processer. wp_steps. rewrite Hqueue. cbn [push_longmsg app]. unfold set_queued. wp_steps.
    set (m1 := set_inbox m _). assert (Hinv1 : mon_inv m1) by exact Hinv. cbn [command body].
    eapply wp_mono; [apply (long_msg_spec m1 Hinv1 _ buf q data rest peer); try done|].
    - unfold queued, m1. cbn [inbox set_inbox]. rewrite lookup_insert_eq. cbn [default from_option id].
      rewrite Nat2Z.id. by apply pop_push_chunks.
    - intros _ m' o ([[c ->] _] & -> & _). split; [done|]. unfold queued. cbn [inbox set_inbox set_credits]. by rewrite lookup_insert_eq. }
  apply wp_run in H as ([] & m' & o & Hrun & -> & H). by exists m'.
Qed.

Lemma relay_ack fuel attach order buf m q key fd1 fd2 rest peer :
  mon_inv m -> is_slot m q -> queued m q = mkCtl RDMA_QP_ACK (req_relay_recv key fd1 fd2) :: rest ->
  ack_peer m key = Some peer -> peer <> q -> 0 < credits_of m peer false ->
  exists m', event_processer fuel attach order buf q m
      = Some (tt, m', [mkOut peer false (mkCtl RDMA_QP_ACK (req_relay_recv key fd1 fd2))]) /\ queued m' q = rest.
Proof.
  intros Hinv Hq Hqueue Hpeer Hne Hc.
  assert (H : wp (event_processer fuel attach order buf q) (fun _ m' o =>
    o = [mkOut peer false (mkCtl RDMA_QP_ACK (req_relay_recv key fd1 fd2))] /\ queued m' q = rest) m).
  { unfold event_processer. wp_steps. rewrite Hqueue. unfold set_queued. wp_steps.
    set (m1 := set_inbox m _). assert (Hinv1 : mon_inv m1) by exact Hinv. cbn [command body].
    eapply wp_mono; [by apply (ack_spec m1 Hinv1 _ _ q peer)|]. intros _ m' o (-> & -> & _). split; [done|].
    unfold queued, spend, set_credits_of, m1. cbn [inbox set_inbox set_credits]. by rewrite lookup_insert_eq. }
  apply wp_run in H as ([] & m' & o & Hrun & -> & H). by exists m'.
Qed.

(** The entry a remote connection leaves. *)
Lemma connect_rdma_entry attach port fd r l m key m1 :
  mon_inv m -> attach (next_key m) = true -> 0 <= port < 65536 -> is_slot m r ->
  connect_handler attach port fd true r m
    = Some (to_client key, m1, [mkOut l false (to_listener key fd port true)]) ->
  rdma_key2qid m1 !! key = Some (l, r).
Proof.
  intros Hinv Ha Hp Hr Hrun. destruct (inv_port m Hinv port Hp) as (Mp & n & vs & Hm & _ & _ & Hv & Hpo).
  pose proof (connect_spec attach port fd true r m Mp n vs Hm Hv (mon_inv_wf m Hinv) Hr (port_listeners m Hinv n vs Hpo) Ha) as H.
  lapply H; [clear H; intros H|intros l0 v Hd; destruct (decide (0 < credits_of m (peer_qid l0) false)); [done|];
    rewrite (connect_waits _ _ _ _ _ _ _ _ _ _ _ Hm Hv Hd) in Hrun by lia; done].
  unfold wp in H. rewrite Hrun in H. destruct (abs_dispatch (n, vs)) as [[l0 v]|]; [|by destruct H].
  destruct H as (_ & _ & Hres & Ho & pc & pl & m2 & _ & _ & (p & -> & _) & ->).
  injection Hres as ->. injection Ho as ->. simpl. change (next_key _) with (next_key m). by rewrite lookup_insert_eq.
Qed.

(** The RDMA set-up of a connection is relayed between its two ends.  After
    a remote client at position [r] has been connected to the listener at [l],
    and as long as the monitor keeps the connection's entry and the two
    processes, and their queues have room: queue-pair information of the client
    about this connection is passed on, byte for byte, to the listener, the listener's to the client, and
    the client's acknowledgement to the listener; the handled message leaves the
    sender's queue, and what is behind it stays. *)
Theorem rdma_relay attach port fd r l m key m1 :
  mon_inv m -> attach (next_key m) = true -> 0 <= port < 65536 -> is_slot m r ->
  connect_handler attach port fd true r m
    = Some (to_client key, m1, [mkOut l false (to_listener key fd port true)]) ->
  forall m2 p_r p_l, mon_inv m2 -> rdma_key2qid m1 ⊆ rdma_key2qid m2 ->
  DArray.elem (process m2) r = Some p_r -> isRDMA p_r = true ->
  DArray.elem (process m2) l = Some p_l -> isRDMA p_l = false ->
  forall fuel order buf0 buf data rest, length buf0 = 13%nat -> key_of_bytes data = key ->
  (forall q, q = r \/ q = l -> Z.of_nat (length (push_longmsg data buf RDMA_QP_INFO)) <= credits_of m2 q false) ->
  let relays q q' := queued m2 q = push_longmsg data buf0 RDMA_QP_INFO ++ rest ->
    exists m3, event_processer fuel attach order buf q m2
        = Some (tt, m3, mkOut q' false <$> push_longmsg data buf RDMA_QP_INFO) /\ queued m3 q = rest in
  let ack := mkCtl RDMA_QP_ACK (req_relay_recv key 0 0) in
  relays r l /\ relays l r
  /\ (queued m2 r = ack :: rest -> exists m3, event_processer fuel attach order buf r m2
        = Some (tt, m3, [mkOut l false ack]) /\ queued m3 r = rest).
Proof.
  intros Hinv Ha Hp Hr Hrun m2 p_r p_l Hinv2 Hsub Hpr Hrr Hpl Hll fuel order buf0 buf data rest Hb Hk Hc relays ack.
  pose proof (connect_rdma_entry attach port fd r l m key m1 Hinv Ha Hp Hr Hrun) as He.
  pose proof (lookup_weaken _ _ _ _ He Hsub) as He2. pose proof (mon_inv_wf m2 Hinv2) as Hwf2.
  assert (Hne : l <> r) by (intros ->; congruence).
  pose proof (DArray.get_elem _ _ _ Hwf2 Hpr) as Hgr. pose proof (DArray.get_elem _ _ _ Hwf2 Hpl) as Hgl.
  assert (Hsr : is_slot m2 r) by (apply live_slot; [done|by eexists]).
  assert (Hsl : is_slot m2 l) by (apply live_slot; [done|by eexists]).
  split; [|split].
  - intros Hqueue. apply (relay_long_msg _ _ _ buf0); try done; [|by apply Hc; right]. unfold relay_peer. rewrite Hk, He2. simpl.
    by rewrite Hgr; simpl; rewrite Hrr.
  - intros Hqueue. apply (relay_long_msg _ _ _ buf0); try done; [|by apply Hc; left]. unfold relay_peer. rewrite Hk, He2. simpl.
    by rewrite Hgl; simpl; rewrite Hll.
  - intros Hqueue. apply relay_ack; try done; [|specialize (Hc l ltac:(by right)); cbn [push_longmsg length] in Hc; lia]. unfold ack_peer. rewrite He2. simpl. by rewrite Hgl; simpl; rewrite Hll.
Qed.

(** A take-over message reaches the other end of its connection.  For every
    connection registered between two different threads that are both attached,
    a relay request of one of them is put, unchanged, into the urgent queue of
    the other, when that queue has room. *)
Theorem takeover_reaches_peer fuel attach order buf m a b e qa qb pa fd1 fd2 rest :
  mon_inv m -> e ∈ vec (interprocess_buf_idx m) a b -> a <> b ->
  tidmap m !! a = Some qa -> tidmap m !! b = Some qb -> DArray.get (process m) qa = Some pa -> tid pa = a ->
  let req := mkCtl REQ_RELAY_RECV (req_relay_recv (buffer_key e) fd1 fd2) in
  queued m qa = req :: rest -> 0 < credits_of m qb true ->
  exists m', event_processer fuel attach order buf qa m = Some (tt, m', [mkOut qb true req])
    /\ queued m' qa = rest.
Proof.
  intros Hinv He Hab Ha Hb Hpa Hta req Hqueue Hc. pose proof Hinv as (Hwf & _ & _ & [T1 _ _ _ T5]).
  destruct (T5 a b e He) as (_ & _ & Hk). pose proof (T1 a qa Ha) as Hqa. pose proof (T1 b qb Hb) as Hqb.
  assert (H : wp (event_processer fuel attach order buf qa)
    (fun _ m' o => o = [mkOut qb true req] /\ queued m' qa = rest) m).
  { unfold event_processer. wp_steps. rewrite Hqueue. unfold set_queued. wp_steps. set (m1 := set_inbox m _).
    unfold req. cbn [command body]. unfold recv_takeover_handler. wp_steps.
    assert (Hpush : forall t, t = b -> wp (tidmap_at t) (fun q m' o => wp (push_to q true req)
      (fun _ m' o' => [] ++ [] ++ [] ++ [] ++ o ++ o' = [mkOut qb true req] /\ queued m' qa = rest) m') m1).
    { intros t ->. unfold tidmap_at. wp_steps. change (tidmap m1) with (tidmap m). rewrite Hb. wp_steps.
      apply wp_push_to; [done|done|done|]. split; [done|]. unfold queued, spend, set_credits_of, m1.
      cbn [inbox set_inbox set_credits]. by rewrite lookup_insert_eq. }
    change (interprocess_key2tid m1) with (interprocess_key2tid m).
    destruct Hk as [Hk|Hk]; rewrite Hk; wp_step; (apply wp_process_get; [done|done|]); intros p Hp;
      change (process m1) with (process m) in Hp; rewrite Hpa in Hp; injection Hp as <-; wp_step; rewrite Hta.
    - rewrite Z.eqb_refl. by apply Hpush.
    - destruct (Z.eqb_spec a b); [done|]. by apply Hpush. }
  apply wp_run in H as ([] & m' & o & Hrun & -> & H). by exists m'.
Qed.

(** A peer that is gone is looked up as process 0: [operator[]] of the map
    creates the entry. *)
Theorem takeover_of_dead_peer m key t1 t2 qa pa req :
  mon_inv m -> interprocess_key2tid m !! key = Some (t1, t2) -> tidmap m !! t2 = None ->
  is_slot m qa -> DArray.get (process m) qa = Some pa -> tid pa = t1 -> 0 < credits_of m 0 true ->
  exists m', recv_takeover_handler req key qa m = Some (tt, m', [mkOut 0 true req]) /\ tidmap m' !! t2 = Some 0.
Proof.
  intros Hinv Hk Ht Hqa Hpa Hta Hc. pose proof (mon_inv_wf m Hinv) as Hwf.
  assert (H : wp (recv_takeover_handler req key qa) (fun _ m' o => o = [mkOut 0 true req] /\ tidmap m' !! t2 = Some 0) m).
  { unfold recv_takeover_handler. wp_steps. rewrite Hk. wp_step. apply wp_process_get; [done|done|]. intros p Hp.
    rewrite Hpa in Hp. injection Hp as <-. wp_step. rewrite Hta, Z.eqb_refl. unfold tidmap_at. wp_steps. rewrite Ht. wp_steps.
    apply wp_push_to; [done|unfold is_slot; pose proof (DArray.wf_bound _ Hwf); simpl; lia|done|]. split; [done|].
    simpl. by rewrite lookup_insert_eq. }
  apply wp_run in H as ([] & m' & o & Hrun & -> & H). by exists m'.
Qed.

(** *** An instance

    A remote monitor at position 0 and two local threads 11 and 12 at positions
    1 and 2; thread 11 listens on port 80 and accepts. *)
Definition demo_process : DArray.darray_t process_sturc :=
  let put d x := match DArray.add d x with Some (_, d) => d | None => d end in
  put (put (put (DArray.darray_new 2) (mkProc true 0 0 0 0 0 1)) (mkProc false 5 11 1 1 0 0)) (mkProc false 6 12 2 2 0 0).

Definition demo_started (a : port_table) (ib : gmap Z (list metaqueue_ctl_element)) : monitor :=
  mkMonitor demo_process {[11 := 1; 12 := 2]} a ∅ ∅ ∅ ∅ (DArray.darray_new 32) 0 0 0 [] ib
    {[(0, false) := 256; (0, true) := 256; (1, false) := 256; (1, true) := 256; (2, false) := 256; (2, true) := 256]}.

Lemma demo_process_elem :
  DArray.wf demo_process /\ DArray.elem demo_process 0 = Some (mkProc true 0 0 0 0 0 1)
  /\ DArray.elem demo_process 1 = Some (mkProc false 5 11 1 1 0 0)
  /\ DArray.elem demo_process 2 = Some (mkProc false 6 12 2 2 0 0).
Proof.
  split; [|by vm_compute]. unfold demo_process.
  set (d1 := match DArray.add (DArray.darray_new 2) _ with Some (_, d) => d | None => _ end).
  set (d2 := match DArray.add d1 _ with Some (_, d) => d | None => _ end).
  apply (DArray.history_inv 2 _ (<[2 := mkProc false 6 12 2 2 0 0]> (<[1 := mkProc false 5 11 1 1 0 0]>
    (<[0 := mkProc true 0 0 0 0 0 1]> ∅)))); [lia|].
  apply (DArray.history_add 2 d2 _ _ 2); [|by vm_compute|by vm_compute].
  apply (DArray.history_add 2 d1 _ _ 1); [|by vm_compute|by vm_compute].
  apply (DArray.history_add 2 (DArray.darray_new 2) _ _ 0); [constructor|by vm_compute|by vm_compute].
Qed.

Lemma demo_slot a ib q : 0 <= q <= 2 -> is_slot (demo_started a ib) q.
Proof. intros Hq. unfold is_slot. change (0 <= q < 4). lia. Qed.

Definition demo_listeners : node * list listener := (mkNode 1 1 0, [mkListener (-1) 1 true]).

Lemma demo_inv : exists a (Mp : table), AdjList.models a Mp /\ Mp !! 80 = Some demo_listeners
  /\ forall ib, mon_inv (demo_started a ib).
Proof.
  destruct (AdjList.models_init (T2 := listener) 65536 1000 65536 (mkNode 0 1 0)) as (a & _ & Ht & Mp & Hm & HMp);
    [lia|lia|lia|].
  assert (H80 : Mp !! 80 = Some (mkNode 0 1 0, [])) by exact (HMp 80).
  pose proof (AdjList.models_update_key a Mp 80 _ [] (fun _ => mkNode 1 1 0) Hm H80) as Hm1.
  destruct (AdjList.models_add_element _ _ 80 (mkNode 1 1 0) [] (mkListener (-1) 1 true) Hm1) as (it & a' & _ & _ & Hm2).
  { by rewrite lookup_insert_eq. }
  { change (DArray.total_num (AdjList.elements a) < 2 ^ 31 - 1). lia. }
  rewrite insert_insert_eq in Hm2. exists a', (<[80 := demo_listeners]> Mp). split; [exact Hm2|].
  split; [by rewrite lookup_insert_eq|]. intros ib. destruct demo_process_elem as (Hwf & _ & H1 & _).
  split; [exact Hwf|]. split; [exact no_remotes|]. split.
  - eexists. split; [exact Hm2|]. split.
    + apply all_ports_insert; [lia|]. exact (fresh_all_ports Mp _ HMp).
    + apply map_Forall_insert_2; [split; [split; discriminate || reflexivity|]; apply Forall_singleton; eexists; exact H1|].
      exact (fresh_ports_ok _ Mp HMp).
  - split; [|apply map_Forall_empty|by split; constructor|apply map_Forall_empty|].
    + apply map_Forall_insert_2; [by vm_compute|]. apply map_Forall_singleton. by vm_compute.
    + intros x y e He. unfold vec in He. simpl in He. rewrite lookup_empty in He. by apply not_elem_of_nil in He.
Qed.

Lemma demo_room a l v : abs_dispatch demo_listeners = Some (l, v) -> 0 < credits_of (demo_started a ∅) (peer_qid l) false.
Proof. intros [= <- _]. reflexivity. Qed.

(** The remote client connects to port 80 and sends its queue-pair information,
    which thread 11 receives. *)
Definition demo_key : list Z := [111; 27; 150; 0; 1; 2; 3].

Lemma rdma_relay_witness :
  exists m1 m2, queued m2 0 = push_longmsg demo_key (replicate 13 0) RDMA_QP_INFO /\
    (exists m, connect_handler (fun _ => true) 80 5 true 0 m
       = Some (to_client 9837423, m1, [mkOut 1 false (to_listener 9837423 5 80 true)]))
    /\ exists m3, event_processer 0 (fun _ => true) (fun _ => []) (replicate 13 7) 0 m2
         = Some (tt, m3, mkOut 1 false <$> push_longmsg demo_key (replicate 13 7) RDMA_QP_INFO).
Proof.
  destruct demo_inv as (a & Mp & Hm & H80 & Hinv). destruct demo_process_elem as (Hwf & H0 & H1 & _).
  set (m := demo_started a ∅). specialize (Hinv ∅) as Hi. fold m in Hi.
  pose proof (demo_slot a ∅ 0 ltac:(lia)) as Hs. pose proof (demo_slot a ∅ 1 ltac:(lia)) as Hs1. fold m in Hs, Hs1.
  assert (Hls : Forall (fun l => is_slot m (peer_qid l)) [mkListener (-1) 1 true]) by (constructor; [exact Hs1|constructor]).
  pose proof (demo_room a) as Hroom'. pose proof (listener_room_intro m 80 Mp _ _ Hm H80 Hroom') as Hroom.
  pose proof (connect_total m Hi (fun _ => true) 80 5 true 0 ltac:(lia) Hs eq_refl Hroom) as Htot.
  pose proof (connect_spec (fun _ => true) 80 5 true 0 m Mp (mkNode 1 1 0) [mkListener (-1) 1 true] Hm H80 Hwf Hs
    Hls eq_refl Hroom') as Hspec.
  destruct (proj1 (wp_run _ _ _) Hspec) as (res & m1 & o & Hrun & Hres). clear Hspec. unfold wp in Htot. rewrite Hrun in Htot.
  cbn [abs_dispatch listening negb is_listening rotate_to is_accepting app Z.eqb] in Hres.
  destruct Hres as (_ & _ & -> & -> & _). destruct Htot as (_ & Hi1 & Hp1 & _ & Hcr).
  set (m2 := set_inbox m1 {[0 := push_longmsg demo_key (replicate 13 0) RDMA_QP_INFO]}).
  assert (Hq : queued m2 0 = push_longmsg demo_key (replicate 13 0) RDMA_QP_INFO ++ []) by (rewrite app_nil_r; reflexivity).
  assert (Hroom2 : forall q, q = 0 \/ q = 1 ->
    Z.of_nat (length (push_longmsg demo_key (replicate 13 7) RDMA_QP_INFO)) <= credits_of m2 q false).
  { intros q Hq'. change (credits_of m2 q false) with (credits_of m1 q false). rewrite Hcr.
    destruct Hq' as [-> | ->]; vm_compute; discriminate. }
  exists m1, m2. split; [reflexivity|]. split; [exists m; exact Hrun|].
  destruct (rdma_relay (fun _ => true) 80 5 0 1 m (next_key m) m1 Hi eq_refl ltac:(lia) Hs Hrun m2
    (mkProc true 0 0 0 0 0 1) (mkProc false 5 11 1 1 0 0) Hi1 ltac:(reflexivity)
    ltac:(change (process m2) with (process m1); rewrite Hp1; exact H0) eq_refl
    ltac:(change (process m2) with (process m1); rewrite Hp1; exact H1) eq_refl
    0%nat (fun _ => []) (replicate 13 0) (replicate 13 7) demo_key [] eq_refl eq_refl Hroom2) as (Hrel & _ & _).
  destruct (Hrel Hq) as (m3 & H3 & _). exists m3. exact H3.
Defined.

Lemma connected_registered qid peer a b m :
  mkBuf (next_key m) 0 ∈ vec (interprocess_buf_idx (connected false qid peer a b m)) a b.
Proof.
  unfold connected. rewrite buffer_added_vec by (by left). apply elem_of_app. right. apply elem_of_app. left.
  rewrite bool_decide_true by done. by left.
Qed.

Lemma mon_inv_set_inbox m ib : mon_inv m -> mon_inv (set_inbox m ib).
Proof. intros H. exact H. Qed.

Lemma buf_idx_set_inbox m ib : interprocess_buf_idx (set_inbox m ib) = interprocess_buf_idx m.
Proof. done. Qed.

Lemma buf_idx_spend q e m : interprocess_buf_idx (spend q e m) = interprocess_buf_idx m.
Proof. done. Qed.

(** Thread 12 connects to port 80; its take-over message reaches thread 11. *)
Lemma takeover_reaches_peer_witness :
  exists m2 m3 req, queued m2 2 = [req]
    /\ event_processer 0 (fun _ => true) (fun _ => []) [] 2 m2 = Some (tt, m3, [mkOut 1 true req]).
Proof.
  destruct demo_inv as (a & Mp & Hm & H80 & Hinv). destruct demo_process_elem as (Hwf & _ & H1 & H2).
  set (m := demo_started a ∅). specialize (Hinv ∅) as Hi. fold m in Hi. pose proof (demo_slot a ∅ 2 ltac:(lia)) as Hs.
  pose proof (demo_slot a ∅ 1 ltac:(lia)) as Hs1. fold m in Hs, Hs1.
  assert (Hls : Forall (fun l => is_slot m (peer_qid l)) [mkListener (-1) 1 true]) by (constructor; [exact Hs1|constructor]).
  pose proof (demo_room a) as Hroom'. pose proof (listener_room_intro m 80 Mp _ _ Hm H80 Hroom') as Hroom.
  pose proof (connect_total m Hi (fun _ => true) 80 5 false 2 ltac:(lia) Hs eq_refl Hroom) as Htot.
  pose proof (connect_spec (fun _ => true) 80 5 false 2 m Mp (mkNode 1 1 0) [mkListener (-1) 1 true] Hm H80 Hwf Hs
    Hls eq_refl Hroom') as Hspec.
  destruct (proj1 (wp_run _ _ _) Hspec) as (res & m1 & o & Hrun & Hres). clear Hspec. unfold wp in Htot. rewrite Hrun in Htot.
  cbn [abs_dispatch listening negb is_listening rotate_to is_accepting app Z.eqb] in Hres. clear Hrun.
  destruct Hres as (_ & _ & -> & -> & pc & pl & m1' & Hpc & Hpl & (p & -> & _) & ->). destruct Htot as (_ & Hi1 & _).
  change (DArray.get demo_process 2 = Some pc) in Hpc. change (DArray.get demo_process 1 = Some pl) in Hpl.
  vm_compute in Hpc. injection Hpc as <-. vm_compute in Hpl. injection Hpl as <-. cbn [tid peer_qid] in Hi1.
  set (e := mkBuf (next_key (set_ports m p)) 0).
  pose proof (connected_registered 2 1 12 11 (set_ports m p)) as He. fold e in He.
  set (m1 := spend 1 false (connected false 2 1 12 11 (set_ports m p))) in *.
  set (req := mkCtl REQ_RELAY_RECV (req_relay_recv (buffer_key e) 3 4)). set (m2 := set_inbox m1 {[2 := [req]]}).
  destruct (takeover_reaches_peer 0 (fun _ => true) (fun _ => []) [] m2 12 11 e 2 1
    (mkProc false 6 12 2 2 0 0) 3 4 [] (mon_inv_set_inbox m1 _ Hi1)) as (m3 & H3 & _); [|lia|reflexivity..|].
  - unfold m2, m1. rewrite buf_idx_set_inbox, buf_idx_spend. exact He.
  - exists m2, m3, req. split; [reflexivity|exact H3].
Defined.

End MonitorRun.
