(* ===== verification/ProtoFd.v ===== *)
(** * The descriptors of the prototype

    The table of virtual descriptors of [lib/socket_lib.cpp] and the hooks of
    [lib/file_lib.cpp] that translate descriptors.  A program sees virtual
    descriptors; each stands for a type and a real descriptor, which is the
    kernel's for system files and an index of the library for sockets. *)

From Stdlib Require Import ZArith Lia.
From stdpp Require Import numbers base gmap list strings.
From S2P Require Import Prelude.

Module ProtoFd.

Inductive fd_type_t := FD_TYPE_SYSTEM | FD_TYPE_SOCKET | FD_TYPE_EPOLL | FD_TYPE_UNKNOWN.

#[export] Instance fd_type_eq_dec : EqDecision fd_type_t.
Proof. solve_decision. Defined.

Record fd_remap_entry_t := mkEntry { type : fd_type_t; real_fd : Z }.

Definition INIT_FD_REMAP_TABLE_SIZE : Z := 128.

(** The static variables; [fd_reverse_map_table] is indexed by the type, and
    [deleted_virtual_fds] is a stack with its top at the end. *)
Record fdmap := mkFdmap {
  fd_remap_initialized : bool;
  fd_remap_table : list fd_remap_entry_t;
  fd_reverse_map_table : fd_type_t -> list Z;
  max_virtual_fd : Z;
  deleted_virtual_fds : list Z
}.

Definition fdmap_new : fdmap := mkFdmap false [] (fun _ => []) 0 [].

Implicit Types (f : fdmap).

Definition table_size f : Z := Z.of_nat (length (fd_remap_table f)).

(** An index outside a vector has no value. *)
Definition get_fd_type f (fd : Z) : option fd_type_t :=
  if negb (fd_remap_initialized f) then Some FD_TYPE_SYSTEM
  else if fd <? 0 then Some FD_TYPE_UNKNOWN
  else if table_size f <=? fd then Some FD_TYPE_UNKNOWN
  else type <$> fd_remap_table f !! Z.to_nat fd.

Definition get_real_fd f (virtual_fd : Z) : option Z :=
  if (virtual_fd <? 0) || negb (fd_remap_initialized f) then Some virtual_fd
  else if table_size f <=? virtual_fd then Some (-1)
  else real_fd <$> fd_remap_table f !! Z.to_nat virtual_fd.

(** [fd_reverse_map_table[type]] exists once [fd_remapping_init] has run. *)
Definition get_virtual_fd f (t : fd_type_t) (r : Z) : option Z :=
  if r <? 0 then Some r
  else if negb (fd_remap_initialized f) then None
  else if Z.of_nat (length (fd_reverse_map_table f t)) <=? r then Some (-1)
  else fd_reverse_map_table f t !! Z.to_nat r.

(** [resize] and the initialisation of the entries that were added. *)
Definition resize_with {A} (l : list A) (n : Z) (x : A) : list A :=
  take (Z.to_nat n) l ++ replicate (Z.to_nat n - length l) x.

Definition grow f (virtual_fd : Z) : option fdmap :=
  if table_size f <=? virtual_fd then
    let new_size := virtual_fd * 2 in
    if 2 ^ 31 <=? new_size then None
    else
      let new_size := if new_size <? INIT_FD_REMAP_TABLE_SIZE then INIT_FD_REMAP_TABLE_SIZE else new_size in
      Some (mkFdmap (fd_remap_initialized f)
              (resize_with (fd_remap_table f) new_size (mkEntry FD_TYPE_UNKNOWN (-1)))
              (fun t => resize_with (fd_reverse_map_table f t) new_size (-1))
              (max_virtual_fd f) (deleted_virtual_fds f))
  else Some f.

(** [None]: a failed assertion or an access outside a vector. *)
Definition set_fd_type f (virtual_fd : Z) (t : fd_type_t) (r : Z) : option fdmap :=
  if (virtual_fd <? 0) || (r <? 0) then None
  else
    f ← grow f virtual_fd;
    _ ← fd_remap_table f !! Z.to_nat virtual_fd;
    let tbl := <[Z.to_nat virtual_fd := mkEntry t r]> (fd_remap_table f) in
    rev ← (if bool_decide (t = FD_TYPE_UNKNOWN) then Some (fd_reverse_map_table f)
           else _ ← fd_reverse_map_table f t !! Z.to_nat r;
                Some (fun u => if bool_decide (u = t) then <[Z.to_nat r := virtual_fd]> (fd_reverse_map_table f t)
                               else fd_reverse_map_table f u));
    Some (mkFdmap (fd_remap_initialized f) tbl rev
            (if max_virtual_fd f <? virtual_fd then virtual_fd else max_virtual_fd f)
            (deleted_virtual_fds f)).

Definition set_max f (m : Z) : fdmap :=
  mkFdmap (fd_remap_initialized f) (fd_remap_table f) (fd_reverse_map_table f) m (deleted_virtual_fds f).

Definition set_deleted f (d : list Z) : fdmap :=
  mkFdmap (fd_remap_initialized f) (fd_remap_table f) (fd_reverse_map_table f) (max_virtual_fd f) d.

Definition alloc_unmapped_virtual_fd f : Z * fdmap :=
  match last (deleted_virtual_fds f) with
  | None => (max_virtual_fd f + 1, set_max f (max_virtual_fd f + 1))
  | Some v => (v, set_deleted f (removelast (deleted_virtual_fds f)))
  end.

Definition alloc_virtual_fd f (t : fd_type_t) (r : Z) : option (Z * fdmap) :=
  if (r <? 0) || negb (fd_remap_initialized f) then Some (r, f)
  else
    let '(v, f) := alloc_unmapped_virtual_fd f in
    f ← set_fd_type f v t r;
    Some (v, f).

Definition delete_virtual_fd f (virtual_fd : Z) : option fdmap :=
  if virtual_fd <? 0 then None else Some (set_deleted f (deleted_virtual_fds f ++ [virtual_fd])).

(** The loop of [fd_remapping_init]. *)
Fixpoint map_to_self (n : nat) (i : Z) f : option fdmap :=
  match n with
  | O => Some f
  | S n => f ← set_fd_type f i FD_TYPE_SYSTEM i; map_to_self n (i + 1) f
  end.

(** [probe] is the descriptor the kernel gives for the fake socket; a failure
    is fatal. *)
Definition fd_remapping_init f (probe : Z) : option fdmap :=
  if probe =? -1 then None
  else map_to_self (Z.to_nat probe) 0
         (mkFdmap true (fd_remap_table f) (fd_reverse_map_table f) (probe - 1) (deleted_virtual_fds f)).

(** ** Hooks that only translate descriptors

    What the kernel answers is an argument; the result is what the program gets,
    with the error number the hook itself sets, and the table. *)
Record reply := mkReply { ret : Z; err : option errno }.

(** The kernel's [dup]. *)
Definition dup f (oldfd : Z) (kernel : Z -> Z) : option (reply * fdmap) :=
  t ← get_fd_type f oldfd;
  if bool_decide (t = FD_TYPE_SYSTEM) then
    r ← get_real_fd f oldfd;
    '(v, f) ← alloc_virtual_fd f FD_TYPE_SYSTEM (kernel r);
    Some (mkReply v None, f)
  else Some (mkReply (-1) (Some ENOTSUP), f).

(** [dup2] and [dup3]: [fake] is the kernel's answer to [socket], and [kernel]
    duplicates onto it. *)
Definition dup2 f (oldfd newfd fake : Z) (kernel : Z -> Z -> Z) : option (reply * fdmap) :=
  t ← get_fd_type f oldfd;
  if bool_decide (t = FD_TYPE_SYSTEM) then
    if fake <? 0 then Some (mkReply (-1) (Some ENOMEM), f)
    else
      r ← get_real_fd f oldfd;
      f ← set_fd_type f newfd FD_TYPE_SYSTEM (kernel r fake);
      Some (mkReply newfd None, f)
  else Some (mkReply (-1) (Some ENOTSUP), f).

Definition dup3 f (oldfd newfd flags fake : Z) (kernel : Z -> Z -> Z -> Z) : option (reply * fdmap) :=
  dup2 f oldfd newfd fake (fun r n => kernel r n flags).

(** [socketpair], [pipe] and [pipe2]: the kernel's result and its two
    descriptors, and what the program finds in its array. *)
Definition descriptor_pair f (res a b : Z) : option (Z * (Z * Z) * fdmap) :=
  if res =? 0 then
    '(va, f) ← alloc_virtual_fd f FD_TYPE_SYSTEM a;
    '(vb, f) ← alloc_virtual_fd f FD_TYPE_SYSTEM b;
    Some (res, (va, vb), f)
  else Some (res, (a, b), f).

Definition socketpair f (kernel : Z * Z * Z) := descriptor_pair f kernel.1.1 kernel.1.2 kernel.2.
Definition pipe f (kernel : Z * Z * Z) := descriptor_pair f kernel.1.1 kernel.1.2 kernel.2.
Definition pipe2 f (kernel : Z * Z * Z) := descriptor_pair f kernel.1.1 kernel.1.2 kernel.2.

(** [file_lib.cpp].  The argument is the descriptor the function gets, if any;
    the others are passed on unchanged. *)
Inductive file_call :=
  | open_ | open64 | creat | eventfd
  | openat (dirfd : Z) | openat64 (dirfd : Z)
  | mmap (fd : Z) | faccessat (fd : Z) | lseek (fd : Z) | lseek64 (fd : Z) | fchown (fd : Z) | fchownat (fd : Z)
  | fchdir (fd : Z) | fexecve (fd : Z) | fpathconf (fd : Z) | ttyname (fd : Z) | ttyname_r (fd : Z) | isatty (fd : Z)
  | readlinkat (fd : Z) | unlinkat (fd : Z) | tcgetpgrp (fd : Z) | tcsetpgrp (fd : Z) | fsync (fd : Z) | syncfs (fd : Z)
  | ftruncate (fd : Z) | ftruncate64 (fd : Z) | lockf (fd : Z) | lockf64 (fd : Z) | fstat (fd : Z) | fstat64 (fd : Z)
  | fstatat (fd : Z) | fstatat64 (fd : Z) | fchmod (fd : Z) | fchmodat (fd : Z) | mkdirat (fd : Z) | mknodat (fd : Z)
  | mkfifoat (fd : Z) | utimensat (fd : Z) | futimens (fd : Z) | xmknodat (fd : Z) | fxstat (fd : Z) | fxstatat (fd : Z)
  | fxstat64 (fd : Z) | fxstatat64 (fd : Z).

(** [SYS_RETURN_FD]: the result is a descriptor. *)
Definition returns_fd (c : file_call) : bool :=
  match c with
  | open_ | open64 | creat | eventfd | openat _ | openat64 _ => true
  | _ => false
  end.

(** The descriptor the program passes. *)
Definition fd_of (c : file_call) : option Z :=
  match c with
  | open_ | open64 | creat | eventfd => None
  | openat fd | openat64 fd
  | mmap fd | faccessat fd | lseek fd | lseek64 fd | fchown fd | fchownat fd | fchdir fd | fexecve fd | fpathconf fd
  | ttyname fd | ttyname_r fd | isatty fd | readlinkat fd | unlinkat fd | tcgetpgrp fd | tcsetpgrp fd | fsync fd
  | syncfs fd | ftruncate fd | ftruncate64 fd | lockf fd | lockf64 fd | fstat fd | fstat64 fd | fstatat fd
  | fstatat64 fd | fchmod fd | fchmodat fd | mkdirat fd | mknodat fd | mkfifoat fd | utimensat fd | futimens fd
  | xmknodat fd | fxstat fd | fxstatat fd | fxstat64 fd | fxstatat64 fd => Some fd
  end.

(** The one the kernel's function is called with: [SYS_PARAM_FD0],
    [SYS_PARAM_FD] and [SYS_PARAM_FD2] translate it, [openat] does not. *)
Definition kernel_fd f (c : file_call) : option (option Z) :=
  match c with
  | openat d | openat64 d => Some (Some d)
  | _ => match fd_of c with Some fd => Some <$> get_real_fd f fd | None => Some None end
  end.

Definition file_hook f (c : file_call) (kernel : file_call -> option Z -> Z) : option (Z * fdmap) :=
  r ← kernel_fd f c;
  if returns_fd c then alloc_virtual_fd f FD_TYPE_SYSTEM (kernel c r) else Some (kernel c r, f).

(** ** The descriptors that are open

    [tracks f O]: the table agrees with the map [O] of the descriptors that are
    open, and every other number up to the largest one is on the stack. *)
Record tracks f (O : gmap Z (fd_type_t * Z)) : Prop := {
  tr_init : fd_remap_initialized f = true;
  tr_entry : forall v t r, O !! v = Some (t, r) ->
    0 <= v <= max_virtual_fd f /\ t <> FD_TYPE_UNKNOWN /\ 0 <= r
    /\ fd_remap_table f !! Z.to_nat v = Some (mkEntry t r);
  tr_deleted : NoDup (deleted_virtual_fds f);
  tr_free : forall v, v ∈ deleted_virtual_fds f <-> 0 <= v <= max_virtual_fd f /\ O !! v = None;
  tr_rev_size : forall t, length (fd_reverse_map_table f t) = length (fd_remap_table f);
  tr_max : -1 <= max_virtual_fd f < 2 ^ 30 - 1;
  tr_room : max_virtual_fd f < table_size f;
  tr_rev : forall v t r, O !! v = Some (t, r) -> t <> FD_TYPE_EPOLL ->
    fd_reverse_map_table f t !! Z.to_nat r = Some v
}.

Lemma resize_grows {A} (l : list A) n x (k : nat) y :
  Z.of_nat (length l) <= n -> l !! k = Some y -> resize_with l n x !! k = Some y.
Proof.
  intros Hn Hk. unfold resize_with. rewrite take_ge by lia. by apply lookup_app_l_Some.
Qed.

Lemma fd_resize_length {A} (l : list A) n x : 0 <= n -> Z.of_nat (length l) <= n -> Z.of_nat (length (resize_with l n x)) = n.
Proof. intros H0 Hn. unfold resize_with. rewrite length_app, length_take, length_replicate. lia. Qed.

(** The length of the tables when descriptor [v] has been entered. *)
Definition size_with f (v : Z) : Z := if table_size f <=? v then Z.max INIT_FD_REMAP_TABLE_SIZE (v * 2) else table_size f.

(** What [grow] keeps and provides. *)
Record grown f f' (v : Z) : Prop := {
  gr_init : fd_remap_initialized f' = fd_remap_initialized f;
  gr_max : max_virtual_fd f' = max_virtual_fd f;
  gr_deleted : deleted_virtual_fds f' = deleted_virtual_fds f;
  gr_size : table_size f <= table_size f' /\ v < table_size f';
  gr_exact : table_size f' = size_with f v;
  gr_rev_size : forall t, length (fd_reverse_map_table f' t) = length (fd_remap_table f');
  gr_table : forall (k : nat) e, fd_remap_table f !! k = Some e -> fd_remap_table f' !! k = Some e;
  gr_rev : forall t (k : nat) w, fd_reverse_map_table f t !! k = Some w -> fd_reverse_map_table f' t !! k = Some w
}.

Lemma grow_spec f v :
  (forall t, length (fd_reverse_map_table f t) = length (fd_remap_table f)) -> 0 <= v < 2 ^ 30 ->
  exists f', grow f v = Some f' /\ grown f f' v.
Proof.
  intros Hrev Hv. unfold grow. destruct (Z.leb_spec (table_size f) v) as [Hs|Hs].
  - rewrite (proj2 (Z.leb_gt _ _)) by lia. eexists. split; [done|]. unfold table_size, INIT_FD_REMAP_TABLE_SIZE in *.
    set (n := if v * 2 <? 128 then 128 else v * 2).
    assert (Hn : v < n /\ 0 <= n) by (unfold n; destruct (Z.ltb_spec (v * 2) 128); lia).
    split; unfold table_size; cbn [fd_remap_table fd_reverse_map_table max_virtual_fd fd_remap_initialized deleted_virtual_fds]; try done.
    + rewrite fd_resize_length by lia. lia.
    + rewrite fd_resize_length by lia. unfold size_with, table_size, INIT_FD_REMAP_TABLE_SIZE. rewrite (proj2 (Z.leb_le _ _)) by lia.
      unfold n. destruct (Z.ltb_spec (v * 2) 128); lia.
    + intros t. apply Nat2Z.inj. rewrite !fd_resize_length; rewrite ?Hrev; lia.
    + intros k e. apply resize_grows. lia.
    + intros t k w. apply resize_grows. rewrite Hrev. lia.
  - exists f. split; [done|]. split; auto; [lia|]. unfold size_with. by rewrite (proj2 (Z.leb_gt _ _)) by lia.
Qed.

Lemma size_with_room f v : 0 <= v -> table_size f <= size_with f v /\ v < size_with f v.
Proof. intros Hv. unfold size_with, INIT_FD_REMAP_TABLE_SIZE. destruct (Z.leb_spec (table_size f) v); lia. Qed.

Lemma set_fd_type_spec f v t r :
  (forall u, length (fd_reverse_map_table f u) = length (fd_remap_table f)) -> 0 <= v < 2 ^ 30 ->
  0 <= r < size_with f v -> t <> FD_TYPE_UNKNOWN ->
  exists f1 f', set_fd_type f v t r = Some f' /\ grown f f1 v
    /\ f' = mkFdmap (fd_remap_initialized f) (<[Z.to_nat v := mkEntry t r]> (fd_remap_table f1))
              (fun u => if bool_decide (u = t) then <[Z.to_nat r := v]> (fd_reverse_map_table f1 t)
                        else fd_reverse_map_table f1 u)
              (Z.max (max_virtual_fd f) v) (deleted_virtual_fds f).
Proof.
  intros Hrev Hv Hr Ht. destruct (grow_spec f v Hrev Hv) as (f1 & Hg & G). exists f1. eexists.
  unfold set_fd_type. rewrite !(proj2 (Z.ltb_ge _ _)) by lia. simpl. rewrite Hg. simpl. unfold table_size in *.
  destruct (lookup_lt_is_Some_2 (fd_remap_table f1) (Z.to_nat v)) as [e He].
  { pose proof (gr_size _ _ _ G) as Hs. unfold table_size in Hs. lia. }
  rewrite He. simpl. rewrite bool_decide_eq_false_2 by done.
  destruct (lookup_lt_is_Some_2 (fd_reverse_map_table f1 t) (Z.to_nat r)) as [w Hw].
  { pose proof (gr_exact _ _ _ G) as Hs. unfold table_size in Hs. rewrite (gr_rev_size _ _ _ G). lia. }
  rewrite Hw. simpl. split; [done|]. split; [done|].
  rewrite (gr_init _ _ _ G), (gr_max _ _ _ G), (gr_deleted _ _ _ G). f_equal.
  destruct (Z.ltb_spec (max_virtual_fd f) v); lia.
Qed.

(** A real descriptor that is too large is written outside the reverse table. *)
Lemma set_fd_type_outside f v t r :
  (forall u, length (fd_reverse_map_table f u) = length (fd_remap_table f)) -> 0 <= v < 2 ^ 30 ->
  size_with f v <= r -> t <> FD_TYPE_UNKNOWN -> set_fd_type f v t r = None.
Proof.
  intros Hrev Hv Hr Ht. destruct (grow_spec f v Hrev Hv) as (f1 & Hg & G). pose proof (size_with_room f v ltac:(lia)) as Hs.
  unfold set_fd_type. rewrite !(proj2 (Z.ltb_ge _ _)) by lia. simpl. rewrite Hg. cbn [mbind option_bind]. destruct (fd_remap_table f1 !! Z.to_nat v); [|done]. cbn [mbind option_bind].
  rewrite bool_decide_eq_false_2 by done. rewrite lookup_ge_None_2; [done|]. rewrite (gr_rev_size _ _ _ G).
  pose proof (gr_exact _ _ _ G) as He. unfold table_size at 1 in He. lia.
Qed.

(** The number that is handed out is not in use, and leaves the stack. *)
Lemma alloc_unmapped_spec f O :
  tracks f O -> max_virtual_fd f < 2 ^ 30 - 2 ->
  exists v f0, alloc_unmapped_virtual_fd f = (v, f0) /\ O !! v = None /\ 0 <= v <= max_virtual_fd f0
    /\ (max_virtual_fd f0 = Z.max (max_virtual_fd f) v /\ max_virtual_fd f0 < 2 ^ 30 - 1)
    /\ fd_remap_table f0 = fd_remap_table f /\ fd_reverse_map_table f0 = fd_reverse_map_table f
    /\ fd_remap_initialized f0 = true /\ NoDup (deleted_virtual_fds f0)
    /\ (forall w, w ∈ deleted_virtual_fds f0 <-> (0 <= w <= max_virtual_fd f0 /\ O !! w = None) /\ w <> v).
Proof.
  intros T Hmax. pose proof (tr_max _ _ T) as Hm. unfold alloc_unmapped_virtual_fd.
  destruct (last (deleted_virtual_fds f)) as [v|] eqn:El.
  - apply last_Some in El as [d Hd]. eexists v, _. rewrite Hd, removelast_last. split; [done|].
    pose proof (tr_deleted _ _ T) as Hnd. pose proof (tr_free _ _ T) as Hfree. rewrite Hd in Hnd.
    apply NoDup_app in Hnd as (Hnd & Hv & _).
    destruct (proj1 (Hfree v)) as [Hr HO]; [rewrite Hd; apply elem_of_app; right; apply list_elem_of_singleton; done|].
    simpl. split_and!; try done; try lia; [apply T|].
    intros w. rewrite <- Hfree, Hd, elem_of_app, list_elem_of_singleton. split.
    + intros Hw. split; [by left|]. intros ->. apply (Hv v Hw). by apply list_elem_of_singleton.
    + by intros [[Hw|Hw] Hne].
  - apply last_None in El. eexists _, _. split; [done|]. pose proof (tr_free _ _ T) as Hfree. rewrite El in Hfree.
    simpl. rewrite El. split_and!; try done; try lia; [|apply T|constructor|].
    + destruct (O !! (max_virtual_fd f + 1)) as [[t r]|] eqn:E; [|done]. destruct (tr_entry _ _ T _ _ _ E). lia.
    + intros w. split; [by intros ?%elem_of_nil|]. intros [[Hw HO] Hne]. apply Hfree. split; [lia|done].
Qed.

(** How large a real descriptor the next allocation can enter. *)
Definition real_room f : Z := size_with f (fst (alloc_unmapped_virtual_fd f)).

Lemma fd_alloc_outside f O t r :
  tracks f O -> max_virtual_fd f < 2 ^ 30 - 2 -> t <> FD_TYPE_UNKNOWN -> real_room f <= r -> alloc_virtual_fd f t r = None.
Proof.
  intros T Hmax Ht. unfold real_room. destruct (alloc_unmapped_spec f O T Hmax) as (v & f0 & Ha & HO & Hv & Hm & Htb & Hrv & Hi & _).
  rewrite Ha. cbn [fst]. intros Hr. pose proof (size_with_room f v ltac:(lia)) as Hs.
  unfold alloc_virtual_fd. rewrite (tr_init _ _ T), (proj2 (Z.ltb_ge _ _)) by (unfold table_size in Hs; lia). cbn [negb orb]. rewrite Ha.
  rewrite set_fd_type_outside; [done|intros u; rewrite Hrv, Htb; apply T|lia| |done]. unfold size_with, table_size in *. by rewrite Htb.
Qed.

(** A fresh number for a descriptor of the system or of the library. *)
Lemma fd_alloc_spec f O t r :
  tracks f O -> max_virtual_fd f < 2 ^ 30 - 2 -> t <> FD_TYPE_UNKNOWN -> 0 <= r < real_room f ->
  (t <> FD_TYPE_EPOLL -> forall w, O !! w <> Some (t, r)) ->
  exists v f', alloc_virtual_fd f t r = Some (v, f') /\ 0 <= v /\ O !! v = None
    /\ tracks f' (<[v := (t, r)]> O) /\ table_size f <= table_size f'.
Proof.
  intros T Hmax Ht Hr Hfresh.
  destruct (alloc_unmapped_spec f O T Hmax) as (v & f0 & Ha & HO & Hv & Hm & Htb & Hrv & Hi & Hnd & Hfree).
  destruct (set_fd_type_spec f0 v t r) as (f1 & f' & Hs & G & ->);
    [intros u; rewrite Hrv, Htb; apply T|lia|unfold real_room in Hr; rewrite Ha in Hr; unfold size_with, table_size in *; rewrite Htb; exact Hr|done|].
  unfold alloc_virtual_fd. rewrite (tr_init _ _ T), (proj2 (Z.ltb_ge _ _)) by lia. cbn [negb orb]. rewrite Ha, Hs. simpl.
  eexists v, _. split; [done|]. split; [lia|]. split; [done|].
  pose proof (gr_size _ _ _ G) as [Hsz Hvs]. unfold table_size in Hsz, Hvs |- *. rewrite Htb in Hsz.
  assert (Hrr : r < Z.of_nat (length (fd_remap_table f1))).
  { pose proof (gr_exact _ _ _ G) as He. unfold real_room in Hr. rewrite Ha in Hr. unfold size_with, table_size in *. rewrite Htb in He. cbn [fst] in Hr. lia. }
  assert (Hmx : Z.max (max_virtual_fd f0) v = max_virtual_fd f0) by lia. rewrite Hmx.
  split; [|simpl; rewrite length_insert; lia].
  split; simpl; try done.
  - intros w t' r' Hw. apply lookup_insert_Some in Hw as [[<- [= <- <-]]|[Hne Hw]].
    + split_and!; try lia; [done|]. apply list_lookup_insert_eq. lia.
    + destruct (tr_entry _ _ T _ _ _ Hw) as (Hw0 & Ht' & Hr' & He). split_and!; try lia; [done|].
      rewrite list_lookup_insert_ne by lia. apply G. by rewrite Htb.
  - intros w. rewrite Hfree, lookup_insert_None. naive_solver.
  - intros u. rewrite length_insert. case_bool_decide; rewrite ?length_insert; apply G.
  - lia.
  - unfold table_size. simpl. rewrite length_insert. pose proof (tr_room _ _ T) as Hroom. unfold table_size in Hroom. lia.
  - intros w t' r' Hw Hne'. apply lookup_insert_Some in Hw as [[<- [= <- <-]]|[Hne Hw]].
    + rewrite bool_decide_eq_true_2 by done. apply list_lookup_insert_eq. rewrite (gr_rev_size _ _ _ G). lia.
    + destruct (tr_entry _ _ T _ _ _ Hw) as (_ & _ & Hr' & _).
      pose proof (tr_rev _ _ T _ _ _ Hw Hne') as Hrev. rewrite <- Hrv in Hrev. apply (gr_rev _ _ _ G) in Hrev.
      case_bool_decide as Hu; [subst t'|done]. rewrite list_lookup_insert_ne; [done|].
      intros Heq. apply (Hfresh Hne' w). rewrite Hw. do 2 f_equal. lia.
Qed.

(** A new largest number is only taken when all others are open. *)
Lemma alloc_last_resort f O t r v f' :
  tracks f O -> 0 <= r -> alloc_virtual_fd f t r = Some (v, f') -> max_virtual_fd f < v ->
  forall w, 0 <= w <= max_virtual_fd f -> is_Some (O !! w).
Proof.
  intros T Hr Ha Hv w Hw. unfold alloc_virtual_fd in Ha.
  rewrite (tr_init _ _ T), (proj2 (Z.ltb_ge _ _)) in Ha by done. cbn [negb orb] in Ha.
  unfold alloc_unmapped_virtual_fd in Ha. destruct (last (deleted_virtual_fds f)) as [u|] eqn:El.
  - destruct (set_fd_type _ _ _ _); [|done]. simpl in Ha. injection Ha as -> _. exfalso.
    apply last_Some in El as [d Hd]. destruct (proj1 (tr_free _ _ T v)); [|lia].
    rewrite Hd. apply elem_of_app. right. by apply list_elem_of_singleton.
  - apply last_None in El. destruct (O !! w) eqn:Ew; [by eauto|]. exfalso.
      assert (Hin : w ∈ deleted_virtual_fds f) by (by apply (tr_free _ _ T)). rewrite El in Hin. by apply elem_of_nil in Hin.
Qed.

Lemma tracks_delete f O v e :
  tracks f O -> O !! v = Some e -> exists f', delete_virtual_fd f v = Some f' /\ tracks f' (delete v O).
Proof.
  intros T HO. destruct e as [t r]. destruct (tr_entry _ _ T _ _ _ HO) as (Hv & _).
  unfold delete_virtual_fd. rewrite (proj2 (Z.ltb_ge _ _)) by lia. eexists. split; [done|].
  split; simpl; try apply T.
  - intros w t' r' [_ Hw]%lookup_delete_Some. by apply (tr_entry _ _ T).
  - apply NoDup_app. split_and!; [apply T| |apply NoDup_singleton].
    intros w Hw ->%list_elem_of_singleton. apply (tr_free _ _ T) in Hw. destruct Hw. congruence.
  - intros w. rewrite elem_of_app, list_elem_of_singleton, (tr_free _ _ T), lookup_delete_None. split.
    + intros [[Hw Hn]| ->]; [by auto|]. split; [lia|by left].
    + intros [Hw [->|Hn]]; [by right|by left].
  - intros w t' r' [_ Hw]%lookup_delete_Some. by apply (tr_rev _ _ T).
Qed.

Lemma tracks_get f O v t r :
  tracks f O -> O !! v = Some (t, r) ->
  get_fd_type f v = Some t /\ get_real_fd f v = Some r
  /\ (t <> FD_TYPE_EPOLL -> get_virtual_fd f t r = Some v).
Proof.
  intros T HO. destruct (tr_entry _ _ T _ _ _ HO) as (Hv & _ & Hr & He).
  pose proof (tr_room _ _ T) as Hroom. unfold get_fd_type, get_real_fd, get_virtual_fd. rewrite (tr_init _ _ T).
  rewrite !(proj2 (Z.ltb_ge _ _)) by lia. rewrite (proj2 (Z.leb_gt (table_size f) _)) by lia. simpl. rewrite He.
  split; [done|]. split; [done|]. intros Hne. pose proof (tr_rev _ _ T _ _ _ HO Hne) as Hrev.
  pose proof (lookup_lt_Some _ _ _ Hrev). rewrite (proj2 (Z.leb_gt _ _)) by lia. done.
Qed.

(** The descriptors a program starts with. *)
Definition inherited (probe : Z) : gmap Z (fd_type_t * Z) :=
  list_to_map ((fun i => (i, (FD_TYPE_SYSTEM, i))) <$> seqZ 0 probe).

Lemma inherited_lookup probe v e : inherited probe !! v = Some e <-> 0 <= v < probe /\ e = (FD_TYPE_SYSTEM, v).
Proof.
  unfold inherited. rewrite <- elem_of_list_to_map.
  - rewrite list_elem_of_fmap. setoid_rewrite elem_of_seqZ. split.
    + intros (y & [= -> ->] & Hy). split; [lia|done].
    + intros [Hv ->]. exists v. split; [done|lia].
  - rewrite <- list_fmap_compose. rewrite (list_fmap_ext _ id); [rewrite list_fmap_id; apply NoDup_seqZ|done].
Qed.

(** The numbers below [i] are mapped to themselves. *)
Record self_below (i : Z) f : Prop := {
  sb_init : fd_remap_initialized f = true;
  sb_deleted : deleted_virtual_fds f = [];
  sb_rev_size : forall t, length (fd_reverse_map_table f t) = length (fd_remap_table f);
  sb_size : i <= table_size f;
  sb_table : forall k, 0 <= k < i -> fd_remap_table f !! Z.to_nat k = Some (mkEntry FD_TYPE_SYSTEM k);
  sb_rev : forall k, 0 <= k < i -> fd_reverse_map_table f FD_TYPE_SYSTEM !! Z.to_nat k = Some k
}.

Lemma map_to_self_spec n i f :
  self_below i f -> 0 <= i -> i + Z.of_nat n < 2 ^ 30 ->
  exists f', map_to_self n i f = Some f' /\ self_below (i + Z.of_nat n) f'
    /\ max_virtual_fd f' = Z.max (max_virtual_fd f) (if n is O then max_virtual_fd f else i + Z.of_nat n - 1).
Proof.
  revert i f. induction n as [|n IH]; intros i f S Hi Hn; simpl.
  { exists f. split; [done|]. rewrite Z.add_0_r. split; [done|lia]. }
  destruct (set_fd_type_spec f i FD_TYPE_SYSTEM i) as (f1 & f' & Hs & G & ->); [apply S|lia|pose proof (size_with_room f i Hi); lia|done|].
  rewrite Hs. simpl. pose proof (gr_size _ _ _ G) as [Hg1 Hg2]. unfold table_size in Hg1, Hg2.
  destruct (IH (i + 1) (mkFdmap (fd_remap_initialized f) (<[Z.to_nat i := mkEntry FD_TYPE_SYSTEM i]> (fd_remap_table f1))
      (fun u => if bool_decide (u = FD_TYPE_SYSTEM) then <[Z.to_nat i := i]> (fd_reverse_map_table f1 FD_TYPE_SYSTEM)
                else fd_reverse_map_table f1 u) (Z.max (max_virtual_fd f) i) (deleted_virtual_fds f)))
    as (f2 & Hf2 & S2 & Hm2); [|lia|lia|].
  - split; simpl; try apply S.
    + intros u. rewrite length_insert. case_bool_decide; rewrite ?length_insert; apply G.
    + unfold table_size. simpl. rewrite length_insert. lia.
    + intros k Hk. destruct (decide (k = i)) as [->|Hne]; [apply list_lookup_insert_eq; lia|].
      rewrite list_lookup_insert_ne by lia. apply G, S. lia.
    + intros k Hk. destruct (decide (k = i)) as [->|Hne]; [apply list_lookup_insert_eq; rewrite (gr_rev_size _ _ _ G); lia|].
      rewrite list_lookup_insert_ne by lia. apply G, S. lia.
  - exists f2. split; [exact Hf2|]. replace (i + Z.of_nat (Datatypes.S n)) with (i + 1 + Z.of_nat n) by lia.
    split; [exact S2|]. rewrite Hm2. simpl. destruct n; lia.
Qed.

Lemma init_tracks probe :
  0 <= probe < 2 ^ 30 - 1 -> exists f, fd_remapping_init fdmap_new probe = Some f /\ tracks f (inherited probe).
Proof.
  intros Hp. unfold fd_remapping_init. rewrite (proj2 (Z.eqb_neq _ _)) by lia.
  destruct (map_to_self_spec (Z.to_nat probe) 0 (mkFdmap true [] (fun _ => []) (probe - 1) [])) as (f & Hf & S & Hm).
  - split; simpl; try done; intros k ?; lia.
  - lia.
  - lia.
  - exists f. split; [exact Hf|]. assert (Hmax : max_virtual_fd f = probe - 1) by (rewrite Hm; simpl; destruct (Z.to_nat probe) eqn:?; lia).
    rewrite Z2Nat.id in S by lia. simpl in S. split.
    + apply S.
    + intros v t r [Hv [= -> ->]]%inherited_lookup. split_and!; try lia; [done|]. apply S. lia.
    + rewrite (sb_deleted _ _ S). constructor.
    + intros v. rewrite (sb_deleted _ _ S). split; [by intros ?%elem_of_nil|]. intros [Hv HO]. exfalso.
      assert (Hin : inherited probe !! v = Some (FD_TYPE_SYSTEM, v)) by (apply inherited_lookup; split; [lia|done]). congruence.
    + apply S.
    + lia.
    + pose proof (sb_size _ _ S). lia.
    + intros v t r [Hv [= -> ->]]%inherited_lookup _. apply S. lia.
Qed.

(** ** Histories

    What a program can do with descriptors it holds: get a new one from the
    kernel or from the library, and close one.  The kernel does not give out a
    descriptor that is open, and neither does the library its sockets.  Fewer
    than 2^30 numbers are in use, so that their doubles are of type [int]. *)
Inductive history (probe : Z) : fdmap -> gmap Z (fd_type_t * Z) -> Prop :=
  | h_init f : fd_remapping_init fdmap_new probe = Some f -> history probe f (inherited probe)
  | h_open f O t r v f' :
      history probe f O -> t <> FD_TYPE_UNKNOWN -> 0 <= r -> max_virtual_fd f < 2 ^ 30 - 2 ->
      (t <> FD_TYPE_EPOLL -> forall w, O !! w <> Some (t, r)) ->
      alloc_virtual_fd f t r = Some (v, f') -> history probe f' (<[v := (t, r)]> O)
  | h_close f O v e f' :
      history probe f O -> O !! v = Some e -> delete_virtual_fd f v = Some f' -> history probe f' (delete v O).

Lemma history_tracks probe f O : 0 <= probe < 2 ^ 30 - 1 -> history probe f O -> tracks f O.
Proof.
  intros Hp. induction 1 as [f Hf|f O t r v f' _ IH Ht Hr Hm Hfr Ha|f O v e f' _ IH HO Hd].
  - destruct (init_tracks probe Hp) as (f' & Hf' & T). congruence.
  - destruct (Z.lt_ge_cases r (real_room f)) as [Hr'|Hr']; [|by rewrite (fd_alloc_outside f O t r IH Hm Ht Hr') in Ha].
    destruct (fd_alloc_spec f O t r IH Hm Ht (conj Hr Hr') Hfr) as (v' & f1 & Ha' & _ & _ & T & _). congruence.
  - destruct (tracks_delete f O v e IH HO) as (f1 & Hd' & T). congruence.
Qed.

(** C33: the table implements the map of open descriptors.  After any history of
    allocations, of real descriptors that are not open already, and of deletions
    of open numbers, a descriptor that is open has the type and the real
    descriptor it was opened with, and a system or socket descriptor is found
    again from them.  While fewer than 2^30 numbers are in use, an allocation
    succeeds exactly if the real descriptor is below the length of the reverse
    table, and then gives a number that is not open, one above all others only
    when no closed one can be reused; a larger real descriptor is written outside
    that table.  Errors of the kernel are passed on unchanged, and the hooks of
    [file_lib.cpp] call the kernel with the real descriptor, those that return
    one apart. *)
Theorem proto_fd_refines (probe : Z) (f : fdmap) (O : gmap Z (fd_type_t * Z)) :
  0 <= probe < 2 ^ 30 - 1 -> history probe f O ->
  (forall v t r, O !! v = Some (t, r) ->
     get_fd_type f v = Some t /\ get_real_fd f v = Some r /\ (t <> FD_TYPE_EPOLL -> get_virtual_fd f t r = Some v))
  /\ table_size f <= real_room f
  /\ (forall t r, t <> FD_TYPE_UNKNOWN -> 0 <= r -> max_virtual_fd f < 2 ^ 30 - 2 ->
       (t <> FD_TYPE_EPOLL -> forall w, O !! w <> Some (t, r)) ->
       if r <? real_room f then
         exists v f', alloc_virtual_fd f t r = Some (v, f') /\ O !! v = None /\ history probe f' (<[v := (t, r)]> O)
           /\ (max_virtual_fd f < v -> forall w, 0 <= w <= max_virtual_fd f -> is_Some (O !! w))
       else alloc_virtual_fd f t r = None)
  /\ (forall t r, r < 0 -> alloc_virtual_fd f t r = Some (r, f))
  /\ (forall v t r, O !! v = Some (t, r) -> exists f', delete_virtual_fd f v = Some f' /\ history probe f' (delete v O))
  /\ (forall v t r c k, O !! v = Some (t, r) -> fd_of c = Some v -> returns_fd c = false ->
       file_hook f c k = Some (k c (Some r), f)).
Proof.
  intros Hp H. pose proof (history_tracks probe f O Hp H) as T. split_and!.
  - intros v t r. by apply tracks_get.
  - unfold real_room, size_with. destruct (Z.leb_spec (table_size f) (fst (alloc_unmapped_virtual_fd f))); [|done].
    pose proof (tr_room _ _ T). pose proof (tr_max _ _ T). unfold INIT_FD_REMAP_TABLE_SIZE. lia.
  - intros t r Ht Hr Hm Hfr. destruct (Z.ltb_spec r (real_room f)) as [Hr'|Hr']; [|by apply (fd_alloc_outside f O)].
    destruct (fd_alloc_spec f O t r T Hm Ht (conj Hr Hr') Hfr) as (v & f' & Ha & Hv & HO & _).
    exists v, f'. split; [done|]. split; [done|]. split; [by eapply h_open|]. by eapply (alloc_last_resort f O t r); [done|lia|].
  - intros t r Hr. unfold alloc_virtual_fd. by rewrite (proj2 (Z.ltb_lt _ _)) by done.
  - intros v t r HO. destruct (tracks_delete f O v _ T HO) as (f' & Hd & _). exists f'. split; [done|]. by eapply h_close.
  - intros v t r c k HO Hc Hret. destruct (tracks_get f O v t r T HO) as (_ & Hr & _). unfold file_hook.
    assert (Hk : kernel_fd f c = Some (Some r)) by (destruct c; simplify_eq/=; by rewrite Hr). by rewrite Hk, Hret.
Qed.

(** Socket 7 is opened, the inherited descriptor 1 closed, and its number goes to
    descriptor 9 of the kernel. *)
Lemma proto_fd_refines_witness :
  exists f f1 f2 f3, fd_remapping_init fdmap_new 3 = Some f /\ alloc_virtual_fd f FD_TYPE_SOCKET 7 = Some (3, f1)
    /\ delete_virtual_fd f1 1 = Some f2 /\ alloc_virtual_fd f2 FD_TYPE_SYSTEM 9 = Some (1, f3)
    /\ get_real_fd f3 1 = Some 9 /\ get_virtual_fd f3 FD_TYPE_SOCKET 7 = Some 3.
Proof.
  destruct (init_tracks 3 ltac:(lia)) as (f & Hf & _). exists f. vm_compute in Hf. injection Hf as <-.
  eexists _, _, _. split; [vm_compute; reflexivity|]. split; [vm_compute; reflexivity|]. split; [vm_compute; reflexivity|]. split; [vm_compute; reflexivity|].
  match goal with |- get_real_fd ?f3 _ = _ /\ _ => set (f' := f3) end.
  assert (H : history 3 f' (<[1 := (FD_TYPE_SYSTEM, 9)]> (delete 1 (<[3 := (FD_TYPE_SOCKET, 7)]> (inherited 3))))).
  { eapply h_open; [eapply h_close; [eapply h_open; [eapply h_init| | | | |]|..]|..].
    all: try (vm_compute; reflexivity); try done; try (vm_compute; discriminate).
    all: intros _ w Hw; try apply lookup_delete_Some in Hw as [_ Hw]; try apply lookup_insert_Some in Hw as [[_ Hw]|[_ Hw]];
      try apply inherited_lookup in Hw as [? Hw]; simplify_eq; lia. }
  destruct (proto_fd_refines 3 f' _ ltac:(lia) H) as (Hg & _). split.
  - by apply (Hg 1 FD_TYPE_SYSTEM 9).
  - by apply (Hg 3 FD_TYPE_SOCKET 7).
Defined.

(** ** What goes wrong *)

(** A descriptor that was deleted still resolves. *)
Theorem closed_fd_still_resolves (probe : Z) (f f' : fdmap) (O : gmap Z (fd_type_t * Z)) v t r :
  0 <= probe < 2 ^ 30 - 1 -> history probe f O -> O !! v = Some (t, r) -> delete_virtual_fd f v = Some f' ->
  get_fd_type f' v = Some t /\ get_real_fd f' v = Some r.
Proof.
  intros Hp H HO Hd. destruct (tracks_get f O v t r (history_tracks probe f O Hp H) HO) as (Ht & Hr & _).
  unfold delete_virtual_fd in Hd. destruct (v <? 0); [done|]. injection Hd as <-. done.
Qed.

(** Deleting a number twice gives it to two users. *)
Theorem deleted_twice_issued_twice :
  exists f f1 f2, fd_remapping_init fdmap_new 3 = Some f
    /\ (delete_virtual_fd f 2 ≫= fun f => delete_virtual_fd f 2) = Some f1
    /\ alloc_virtual_fd f1 FD_TYPE_SOCKET 0 = Some (2, f2)
    /\ fst <$> alloc_virtual_fd f2 FD_TYPE_SOCKET 1 = Some 2.
Proof. eexists _, _, _. split_and!; vm_compute; reflexivity. Qed.

(** A number [dup2] maps although it is on the stack is issued again while it
    is open. *)
Theorem dup2_of_freed_number :
  exists f f1 f2, fd_remapping_init fdmap_new 3 = Some f /\ delete_virtual_fd f 2 = Some f1
    /\ dup2 f1 1 2 7 (fun _ n => n) = Some (mkReply 2 None, f2) /\ get_real_fd f2 2 = Some 7
    /\ fst <$> alloc_virtual_fd f2 FD_TYPE_SOCKET 0 = Some 2.
Proof. eexists _, _, _. split_and!; vm_compute; reflexivity. Qed.

(** The reverse table only grows with the virtual numbers: a kernel descriptor
    of 128 is written outside it. *)
Theorem large_real_fd_out_of_range :
  exists f, fd_remapping_init fdmap_new 3 = Some f /\ alloc_virtual_fd f FD_TYPE_SYSTEM 128 = None
    /\ is_Some (alloc_virtual_fd f FD_TYPE_SYSTEM 127).
Proof. eexists _. split_and!; vm_compute; eauto. Qed.

(** [openat] gives the kernel the virtual number of the directory. *)
Theorem openat_not_translated :
  exists f f1, fd_remapping_init fdmap_new 3 = Some f /\ alloc_virtual_fd f FD_TYPE_SYSTEM 9 = Some (3, f1)
    /\ kernel_fd f1 (openat 3) = Some (Some 3) /\ kernel_fd f1 (unlinkat 3) = Some (Some 9).
Proof. eexists _, _. split_and!; vm_compute; reflexivity. Qed.

End ProtoFd.
