(* ===== verification/ProtoSock.v ===== *)
(** * The sockets of the prototype

    [lib/socket_lib.cpp] and [lib/fork.cpp]: the socket calls of a thread of a
    hooked program.  A call is a computation on the thread's tables and on the
    memory it shares with its peers.  It may end the process ([FATAL], or an
    access outside a container) or spin.  What the kernel, the monitor and the
    peers do meanwhile are arguments or lists consumed from the front. *)

From Stdlib Require Import ZArith Lia.
From stdpp Require Import numbers base gmap list.
From S2P Require Import Prelude Text DArray AdjList LocklessQueue Metaqueue IpBuffer Interprocess ProtoFd.
Import ProtoFd.

Module ProtoSock.

#[export] Existing Instance IpBuffer.availq_avail.
#[export] Existing Instance Metaqueue.command_eq_dec.
#[export] Existing Instance Interprocess.cmd_eq_dec.

Abbreviation outcome := Interprocess.outcome.
Abbreviation Done := Interprocess.Done.
Abbreviation Waits := Interprocess.Waits.
Abbreviation Fatal := Interprocess.Fatal.
Abbreviation ctl := Metaqueue.metaqueue_ctl_element.

(** ** State *)

Inductive sock_type := USOCKET_TCP_LISTEN | USOCKET_TCP_CONNECT.

#[export] Instance sock_type_eq_dec : EqDecision sock_type.
Proof. solve_decision. Defined.

Record socket_property_t := mkProp {
  is_addrreuse : bool;
  is_blocking : bool;
  is_accept_command_sent : bool;
  port : Z;
  isopened : bool
}.

(** [type] is a number in the source; [None] is a value that is neither of the
    two. *)
Record file_struc_rd_t := mkFile { ftype : option sock_type; peer_fd : Z; property : socket_property_t }.
Record fd_rd_list_t := mkRd { rd_buffer : Z; rd_status : Z; child0 : Z; child1 : Z }.
Record fd_wr_list_t := mkWr { wr_buffer : Z; wr_status : Z; write_count : Z }.

#[export] Instance file_inhabited : Inhabited file_struc_rd_t :=
  populate (mkFile None 0 (mkProp false false false 0 false)).
#[export] Instance rd_inhabited : Inhabited fd_rd_list_t := populate (mkRd 0 0 0 0).
#[export] Instance wr_inhabited : Inhabited fd_wr_list_t := populate (mkWr 0 0 0).

Definition FD_STATUS_Q_ISOLATED : Z := 32.
Definition FD_STATUS_RD_SND_FORKED : Z := 128.

(** A connection segment: the direction each end sends in, and the turn flags
    of each end's descriptors. *)
Record segment := mkSegment {
  wire_of : bool -> Interprocess.wire IpBuffer.availq;
  turn_of : bool -> gmap Z bool
}.

(** [interprocess_local_t]: which end of the segment this is, and its queues. *)
Record ends := mkEnds { e_loc : bool; e_tx : Interprocess.tx; e_rx : Interprocess.rx }.

Record buffer_t := mkBuffer { data : option ends; isvalid : bool; loc : Z; shmemkey : Z; isRDMA : bool }.

Definition BUFFERNUM : Z := 100.

(** [epoll_event] *)
Record epoll_event := mkEvent { events : Z; udata : Z }.

(** [thread_data_t] and [thread_sock_data_t], with the descriptors, the epoll
    sets and the memory.  Of the queues to the monitor, [to_monitor] is what was
    pushed; [from_monitor] and [urgent] are what successive polls of the two
    queues find; and likewise for the queues to remote monitors. *)
Record thread := mkThread {
  fdm : fdmap;
  fds_datawithrd : AdjList.adjlist file_struc_rd_t fd_rd_list_t;
  fds_wr : AdjList.adjlist Z fd_wr_list_t;
  rd_tree : DArray.darray_t fd_rd_list_t;
  is_rdma_initialized : bool;
  bufferhash : gmap Z Z;
  lowest_available : Z;
  total_num : Z;
  buffer : list buffer_t;
  to_monitor : list ctl;
  from_monitor : list (option ctl);
  urgent : list (option ctl);
  remote_monitor : gmap Z (list ctl * list (option ctl));
  epoll_fds : gmap Z (gmap Z epoll_event);
  sys_poll_throttle_counter : Z;
  last_error : option errno;
  mem : gmap Z segment
}.

Definition set_fdm (s : thread) v : thread :=
  mkThread v (fds_datawithrd s) (fds_wr s) (rd_tree s) (is_rdma_initialized s) (bufferhash s)
    (lowest_available s) (total_num s) (buffer s) (to_monitor s) (from_monitor s) (urgent s) (remote_monitor
    s) (epoll_fds s) (sys_poll_throttle_counter s) (last_error s) (mem s).
Definition set_rd (s : thread) v : thread :=
  mkThread (fdm s) v (fds_wr s) (rd_tree s) (is_rdma_initialized s) (bufferhash s) (lowest_available s)
    (total_num s) (buffer s) (to_monitor s) (from_monitor s) (urgent s) (remote_monitor s) (epoll_fds s)
    (sys_poll_throttle_counter s) (last_error s) (mem s).
Definition set_wr (s : thread) v : thread :=
  mkThread (fdm s) (fds_datawithrd s) v (rd_tree s) (is_rdma_initialized s) (bufferhash s) (lowest_available
    s) (total_num s) (buffer s) (to_monitor s) (from_monitor s) (urgent s) (remote_monitor s) (epoll_fds s)
    (sys_poll_throttle_counter s) (last_error s) (mem s).
Definition set_tree (s : thread) v : thread :=
  mkThread (fdm s) (fds_datawithrd s) (fds_wr s) v (is_rdma_initialized s) (bufferhash s) (lowest_available
    s) (total_num s) (buffer s) (to_monitor s) (from_monitor s) (urgent s) (remote_monitor s) (epoll_fds s)
    (sys_poll_throttle_counter s) (last_error s) (mem s).
Definition set_rdma_ready (s : thread) v : thread :=
  mkThread (fdm s) (fds_datawithrd s) (fds_wr s) (rd_tree s) v (bufferhash s) (lowest_available s)
    (total_num s) (buffer s) (to_monitor s) (from_monitor s) (urgent s) (remote_monitor s) (epoll_fds s)
    (sys_poll_throttle_counter s) (last_error s) (mem s).
Definition set_bufs (s : thread) h lo n b : thread :=
  mkThread (fdm s) (fds_datawithrd s) (fds_wr s) (rd_tree s) (is_rdma_initialized s) h lo n b (to_monitor s)
    (from_monitor s) (urgent s) (remote_monitor s) (epoll_fds s) (sys_poll_throttle_counter s) (last_error
    s) (mem s).
Definition set_to (s : thread) v : thread :=
  mkThread (fdm s) (fds_datawithrd s) (fds_wr s) (rd_tree s) (is_rdma_initialized s) (bufferhash s)
    (lowest_available s) (total_num s) (buffer s) v (from_monitor s) (urgent s) (remote_monitor s)
    (epoll_fds s) (sys_poll_throttle_counter s) (last_error s) (mem s).
Definition set_from (s : thread) v : thread :=
  mkThread (fdm s) (fds_datawithrd s) (fds_wr s) (rd_tree s) (is_rdma_initialized s) (bufferhash s)
    (lowest_available s) (total_num s) (buffer s) (to_monitor s) v (urgent s) (remote_monitor s) (epoll_fds
    s) (sys_poll_throttle_counter s) (last_error s) (mem s).
Definition set_urgent (s : thread) v : thread :=
  mkThread (fdm s) (fds_datawithrd s) (fds_wr s) (rd_tree s) (is_rdma_initialized s) (bufferhash s)
    (lowest_available s) (total_num s) (buffer s) (to_monitor s) (from_monitor s) v (remote_monitor s)
    (epoll_fds s) (sys_poll_throttle_counter s) (last_error s) (mem s).
Definition set_remote (s : thread) v : thread :=
  mkThread (fdm s) (fds_datawithrd s) (fds_wr s) (rd_tree s) (is_rdma_initialized s) (bufferhash s)
    (lowest_available s) (total_num s) (buffer s) (to_monitor s) (from_monitor s) (urgent s) v (epoll_fds s)
    (sys_poll_throttle_counter s) (last_error s) (mem s).
Definition set_epoll (s : thread) v : thread :=
  mkThread (fdm s) (fds_datawithrd s) (fds_wr s) (rd_tree s) (is_rdma_initialized s) (bufferhash s)
    (lowest_available s) (total_num s) (buffer s) (to_monitor s) (from_monitor s) (urgent s) (remote_monitor
    s) v (sys_poll_throttle_counter s) (last_error s) (mem s).
Definition set_throttle (s : thread) v : thread :=
  mkThread (fdm s) (fds_datawithrd s) (fds_wr s) (rd_tree s) (is_rdma_initialized s) (bufferhash s)
    (lowest_available s) (total_num s) (buffer s) (to_monitor s) (from_monitor s) (urgent s) (remote_monitor
    s) (epoll_fds s) v (last_error s) (mem s).
Definition set_error (s : thread) v : thread :=
  mkThread (fdm s) (fds_datawithrd s) (fds_wr s) (rd_tree s) (is_rdma_initialized s) (bufferhash s)
    (lowest_available s) (total_num s) (buffer s) (to_monitor s) (from_monitor s) (urgent s) (remote_monitor
    s) (epoll_fds s) (sys_poll_throttle_counter s) v (mem s).
Definition set_mem (s : thread) v : thread :=
  mkThread (fdm s) (fds_datawithrd s) (fds_wr s) (rd_tree s) (is_rdma_initialized s) (bufferhash s)
    (lowest_available s) (total_num s) (buffer s) (to_monitor s) (from_monitor s) (urgent s) (remote_monitor
    s) (epoll_fds s) (sys_poll_throttle_counter s) (last_error s) v.

(** ** Computations *)

Definition M (A : Type) : Type := thread -> outcome (A * thread).

#[export] Instance M_ret : MRet M := fun A a s => Done (a, s).
#[export] Instance M_bind : MBind M := fun A B k c s =>
  match c s with
  | Done (a, s) => k a s
  | Waits => Waits
  | Fatal => Fatal
  end.

Definition fatal {A} : M A := fun _ => Fatal.
Definition spins {A} : M A := fun _ => Waits.
Definition gets {A} (f : thread -> A) : M A := fun s => Done (f s, s).
Definition modify (f : thread -> thread) : M unit := fun s => Done (tt, f s).
Definition need {A} (o : option A) : M A := fun s => match o with Some a => Done (a, s) | None => Fatal end.
Definition lift {A} (o : outcome A) : M A :=
  fun s => match o with Done a => Done (a, s) | Waits => Waits | Fatal => Fatal end.

(** [errno = e; return -1;] *)
Definition fail (e : errno) : M Z := _ ← modify (fun s => set_error s (Some e)); mret (-1).

(** The parts of the tables. *)
Definition fd_type (fd : Z) : M fd_type_t := f ← gets fdm; need (get_fd_type f fd).
Definition real (fd : Z) : M Z := f ← gets fdm; need (get_real_fd f fd).
Definition alloc_fd (t : fd_type_t) (r : Z) : M Z :=
  f ← gets fdm; '(v, f) ← need (alloc_virtual_fd f t r); _ ← modify (fun s => set_fdm s f); mret v.
Definition delete_fd (v : Z) : M unit :=
  f ← gets fdm; f ← need (delete_virtual_fd f v); modify (fun s => set_fdm s f).

(** [fds_datawithrd[fd]], read and assigned; an index outside the vector is not
    checked by the code. *)
Definition file (fd : Z) : M file_struc_rd_t := a ← gets fds_datawithrd; need (AdjList.get_key a fd).
Definition set_file (fd : Z) (f : file_struc_rd_t -> file_struc_rd_t) : M unit :=
  _ ← file fd; modify (fun s => set_rd s (AdjList.update_key (fds_datawithrd s) fd f)).
Definition set_prop (fd : Z) (f : socket_property_t -> socket_property_t) : M unit :=
  set_file fd (fun x => mkFile (ftype x) (peer_fd x) (f (property x))).
Definition keyvalid (fd : Z) : M bool := a ← gets fds_datawithrd; mret (AdjList.is_keyvalid a fd).

(** The queues to the monitor of this host and to remote ones.  A push waits
    until there is room. *)
Inductive line := Local | Remote (addr : Z).

Definition push_line (ln : line) (e : ctl) : M unit :=
  match ln with
  | Local => modify (fun s => set_to s (to_monitor s ++ [e]))
  | Remote a =>
      r ← gets remote_monitor; '(to, from) ← need (r !! a);
      modify (fun s => set_remote s (<[a := (to ++ [e], from)]> (remote_monitor s)))
  end.

Fixpoint push_all (ln : line) (l : list ctl) : M unit :=
  match l with
  | [] => mret tt
  | e :: l => _ ← push_line ln e; push_all ln l
  end.

(** [q[1].pop_nb] *)
Definition poll_monitor : M (option ctl) :=
  l ← gets from_monitor;
  match l with
  | [] => mret None
  | x :: l => _ ← modify (fun s => set_from s l); mret x
  end.

(** [while (!q[1].pop_nb(e));] *)
Fixpoint first_arrival (l : list (option ctl)) : option (ctl * list (option ctl)) :=
  match l with
  | [] => None
  | None :: l => first_arrival l
  | Some e :: l => Some (e, l)
  end.

Definition wait_line (ln : line) : M ctl :=
  match ln with
  | Local =>
      l ← gets from_monitor;
      match first_arrival l with
      | None => spins
      | Some (e, l) => _ ← modify (fun s => set_from s l); mret e
      end
  | Remote a =>
      r ← gets remote_monitor; '(to, from) ← need (r !! a);
      match first_arrival from with
      | None => spins
      | Some (e, from) => _ ← modify (fun s => set_remote s (<[a := (to, from)]> (remote_monitor s))); mret e
      end
  end.

(** [pop_longmsg] *)
Fixpoint pop_longmsg (fuel : nat) (ln : line) (len_left : Z) : M (list Z) :=
  if 0 <? len_left then
    match fuel with
    | O => spins
    | S fuel =>
        e ← wait_line ln;
        match Metaqueue.command e, Metaqueue.body e with
        | Metaqueue.LONG_MSG, Metaqueue.raw bytes =>
            let this_len := if Metaqueue.chunk_size <? len_left then Metaqueue.chunk_size else len_left in
            rest ← pop_longmsg fuel ln (len_left - this_len);
            mret (take (Z.to_nat this_len) bytes ++ rest)
        | _, _ => fatal
        end
    end
  else mret [].

(** ** Connections *)

Definition set_wire (sg : segment) (l : bool) (w : Interprocess.wire IpBuffer.availq) : segment :=
  mkSegment (fun i => if bool_decide (i = l) then w else wire_of sg i) (turn_of sg).
Definition set_turn (sg : segment) (l : bool) (fd : Z) (b : bool) : segment :=
  mkSegment (wire_of sg) (fun i => if bool_decide (i = l) then <[fd := b]> (turn_of sg i) else turn_of sg i).

(** [interprocess_t::init] of end [l]: its queues start afresh, and it clears
    the return flags. *)
Definition attach (sg : segment) (l : bool) : ends * segment :=
  let ws := wire_of sg l in
  let wr := wire_of sg (negb l) in
  let '(q0, m0) := LocklessQueue.init Interprocess.SIZE (Interprocess.w_q ws) false in
  let '(e0, n0) := LocklessQueue.init Interprocess.SIZE (Interprocess.w_e ws) false in
  let '(q1, m1) := LocklessQueue.init Interprocess.SIZE (Interprocess.w_q wr) true in
  let '(e1, n1) := LocklessQueue.init Interprocess.SIZE (Interprocess.w_e wr) true in
  let as_ := Interprocess.w_av ws in
  let ar := Interprocess.w_av wr in
  let as' := IpBuffer.mkAvailq (IpBuffer.av_s as_) (IpBuffer.avail_end true (IpBuffer.av_m as_))
               (LocklessQueue.set_flag (IpBuffer.av_m as_) false) in
  let ar' := IpBuffer.mkAvailq (IpBuffer.avail_end false (IpBuffer.av_m ar)) (IpBuffer.av_r ar)
               (LocklessQueue.set_flag (IpBuffer.av_m ar) false) in
  (mkEnds l (Interprocess.mkTx q0 e0) (Interprocess.mkRx q1 e1),
   set_wire (set_wire sg l (Interprocess.mkWire m0 n0 (Interprocess.w_mem ws) as')) (negb l)
            (Interprocess.mkWire m1 n1 (Interprocess.w_mem wr) ar')).

Definition buffer_at (i : Z) : M buffer_t :=
  l ← gets buffer; if i <? 0 then fatal else need (l !! Z.to_nat i).

(** [buffer[i]], its connection and the segment behind it. *)
Definition conn_at (i : Z) : M (buffer_t * ends * segment) :=
  b ← buffer_at i;
  e ← need (data b);
  m ← gets mem;
  sg ← need (m !! shmemkey b);
  mret (b, e, sg).

Definition set_conn (i : Z) (b : buffer_t) (e : ends) (sg : segment) : M unit :=
  modify (fun s => set_mem (set_bufs s (bufferhash s) (lowest_available s) (total_num s)
    (<[Z.to_nat i := mkBuffer (Some e) (isvalid b) (loc b) (shmemkey b) (isRDMA b)]> (buffer s)))
    (<[shmemkey b := sg]> (mem s))).

Definition push_data (i : Z) (ele : Interprocess.element) (bytes : list Z) : M Z :=
  '(b, e, sg) ← conn_at i;
  '(n, t, w) ← lift (Interprocess.push_data (e_tx e) (wire_of sg (e_loc e)) ele bytes);
  _ ← set_conn i b (mkEnds (e_loc e) t (e_rx e)) (set_wire sg (e_loc e) w);
  mret n.

Definition pop_data (i : Z) (it : Interprocess.iterator) (n : Z) : M (Z * list Z * Interprocess.iterator) :=
  '(b, e, sg) ← conn_at i;
  '(n, bytes, r, w, it) ← lift (Interprocess.pop_data (e_rx e) (wire_of sg (negb (e_loc e))) it n);
  _ ← set_conn i b (mkEnds (e_loc e) (e_tx e) r) (set_wire sg (negb (e_loc e)) w);
  mret (n, bytes, it).

Definition ele_begin (i : Z) : M Interprocess.iterator :=
  '(_, e, _) ← conn_at i; mret (Interprocess.begin (e_rx e)).

Definition ele_peek (i : Z) (it : Interprocess.iterator)
    : M (Interprocess.element * (bool * bool) * Interprocess.iterator) :=
  '(_, e, sg) ← conn_at i; need (Interprocess.it_peek (e_rx e) (wire_of sg (negb (e_loc e))) it).

Definition ele_next (i : Z) (it : Interprocess.iterator) : M Interprocess.iterator :=
  '(_, e, sg) ← conn_at i; need (Interprocess.it_next (e_rx e) (wire_of sg (negb (e_loc e))) it).

Definition ele_del (i : Z) (it : Interprocess.iterator) : M Interprocess.iterator :=
  '(b, e, sg) ← conn_at i;
  '(r, w, it) ← need (Interprocess.it_del (e_rx e) (wire_of sg (negb (e_loc e))) it);
  _ ← set_conn i b (mkEnds (e_loc e) (e_tx e) r) (set_wire sg (negb (e_loc e)) w);
  mret it.

(** [( *sender_turn[0])[fd]] of the connection, assigned, and
    [( *sender_turn[1])[fd]], read. *)
Definition fd_in_turns (fd : Z) : bool := (0 <=? fd) && (fd <? Interprocess.MAX_FD_NUM).

Definition set_my_turn (i fd : Z) (v : bool) : M unit :=
  '(b, e, sg) ← conn_at i;
  if fd_in_turns fd then set_conn i b e (set_turn sg (e_loc e) fd v) else fatal.

Definition peer_turn (i fd : Z) : M bool :=
  '(b, e, sg) ← conn_at i;
  if fd_in_turns fd then mret (default false (turn_of sg (negb (e_loc e)) !! fd)) else fatal.

(** ** [thread_sock_data_t] *)

Definition isexist (s : thread) (key : Z) : option Z :=
  match bufferhash s !! key with
  | None => Some (-1)
  | Some i => b ← buffer s !! Z.to_nat i; Some (if isvalid b then i else -1)
  end.

(** The slot [lowest_available] is filled and the counters move on; the
    hundredth buffer is fatal. *)
Definition take_slot (b : buffer_t) : M Z :=
  i ← gets lowest_available;
  _ ← buffer_at i;
  _ ← modify (fun s => set_bufs s (<[shmemkey b := i]> (bufferhash s)) (i + 1) (total_num s + 1)
                         (<[Z.to_nat i := b]> (buffer s)));
  n ← gets total_num;
  if n =? BUFFERNUM then fatal else mret i.

Definition newbuffer (key l : Z) : M Z :=
  m ← gets mem;
  sg ← need (m !! key);
  let '(e, sg) := attach sg (negb (l =? 0)) in
  _ ← modify (fun s => set_mem s (<[key := sg]> (mem s)));
  take_slot (mkBuffer (Some e) true l key false).

(** The connection object is created later, when the queue pair is connected. *)
Definition newbuffer_rdma (key l : Z) : M Z := take_slot (mkBuffer None true l key true).

(** [( *bufferhash)[key]]: a missing entry is created with value 0. *)
Definition hash_at (key : Z) : M Z :=
  h ← gets bufferhash;
  match h !! key with
  | Some i => mret i
  | None => _ ← modify (fun s => set_bufs s (<[key := 0]> (bufferhash s)) (lowest_available s) (total_num s) (buffer s)); mret 0
  end.

(** [usocket_init] *)
Definition usocket_init (s : thread) : option thread :=
  rd ← AdjList.adj_init 1000 (fds_datawithrd s) 0 inhabitant;
  wr ← AdjList.adj_init 1000 (fds_wr s) 0 0;
  Some (set_rdma_ready (set_bufs (set_wr (set_rd s rd) wr) ∅ 0 0
          (replicate (Z.to_nat BUFFERNUM) (mkBuffer None false 0 0 false))) false).

(** A new [thread_data_t] attached to the monitor. *)
Definition thread_new (f : fdmap) : thread :=
  mkThread f (AdjList.adjlist_new 1000 1000) (AdjList.adjlist_new 1000 1000) (DArray.darray_new 1000) false ∅ 0 0 []
    [] [] [] ∅ ∅ 0 None ∅.

(** ** Urgent messages of the monitor

    [garbage] stands for the value of an automatic variable that is read before
    it is assigned. *)
Section calls.
Context (garbage : Z).

(** [fork.cpp]; the depth of the tree is bounded by its size. *)
Fixpoint fork_traverse_rd_tree (fuel : nat) (tree : DArray.darray_t fd_rd_list_t) (curr_idx match_bid : Z) : option Z :=
  if curr_idx =? -1 then Some (-1)
  else
    match fuel with
    | O => None
    | S fuel =>
        node ← DArray.get tree curr_idx;
        if match_bid =? rd_buffer node then Some curr_idx
        else
          r ← (if child0 node =? -1 then Some (-1) else fork_traverse_rd_tree fuel tree (child0 node) match_bid);
          if negb (r =? -1) then Some r
          else if child1 node =? -1 then Some (-1)
          else fork_traverse_rd_tree fuel tree (child1 node) match_bid
    end.

Definition traverse (curr_idx match_bid : Z) : M Z :=
  t ← gets rd_tree; need (fork_traverse_rd_tree (S (length (DArray.data t))) t curr_idx match_bid).

(** An element of [fds_wr] whose queue is that of the old process is isolated,
    and the queues of the two new ones are put behind it. *)
Definition isolate_at (fd old new0 new1 : Z) (it : AdjList.iterator) (wr : AdjList.adjlist Z fd_wr_list_t)
    : option (AdjList.iterator * AdjList.adjlist Z fd_wr_list_t) :=
  x ← AdjList.it_get wr it;
  if wr_buffer x =? old then
    let wr := AdjList.it_set wr it (fun y => mkWr (wr_buffer y) FD_STATUS_Q_ISOLATED (write_count y)) in
    '(it, wr) ← AdjList.add_element_at wr it fd (mkWr new0 0 garbage);
    AdjList.add_element_at wr it fd (mkWr new1 0 garbage)
  else Some (it, wr).

Fixpoint isolate_list (fuel : nat) (fd : Z) (it : AdjList.iterator) (old new0 new1 : Z) : M unit :=
  if AdjList.it_end it then mret tt
  else
    match fuel with
    | O => spins
    | S fuel =>
        wr ← gets fds_wr;
        '(it, wr) ← need (isolate_at fd old new0 new1 it wr);
        _ ← modify (fun s => set_wr s wr);
        wr ← gets fds_wr;
        '(it, wr) ← need (AdjList.it_next wr it);
        _ ← modify (fun s => set_wr s wr);
        isolate_list fuel fd it old new0 new1
    end.

Fixpoint isolate_all (fuel : nat) (fd old new0 new1 : Z) : M unit :=
  if fd =? -1 then mret tt
  else
    match fuel with
    | O => spins
    | S fuel =>
        wr ← gets fds_wr;
        it ← need (AdjList.begin wr fd);
        _ ← isolate_list (3 * AdjList.turns wr) fd it old new0 new1;
        wr ← gets fds_wr;
        isolate_all fuel (AdjList.hiter_next wr fd) old new0 new1
    end.

(** Two leaves for the new queues. *)
Definition add_leaves (new0 new1 : Z) : M (Z * Z) :=
  t ← gets rd_tree;
  '(a, t) ← need (DArray.add t (mkRd new0 0 (-1) (-1)));
  _ ← modify (fun s => set_tree s t);
  t ← gets rd_tree;
  '(b, t) ← need (DArray.add t (mkRd new1 0 (-1) (-1)));
  _ ← modify (fun s => set_tree s t);
  mret (a, b).

Definition forked (x : fd_rd_list_t) (a b : Z) : fd_rd_list_t :=
  mkRd (rd_buffer x) (Z.lor (rd_status x) FD_STATUS_RD_SND_FORKED) a b.

(** One list of [fds_datawithrd]: the new queues become children of the old
    one, in the list or in the tree below an element of it. *)
Fixpoint fork_list (fuel : nat) (it : AdjList.iterator) (old new0 new1 : Z) : M unit :=
  if AdjList.it_end it then mret tt
  else
    match fuel with
    | O => spins
    | S fuel =>
        rd ← gets fds_datawithrd;
        x ← need (AdjList.it_get rd it);
        _ ← (if rd_buffer x =? old then
               '(a, b) ← add_leaves new0 new1;
               modify (fun s => set_rd s (AdjList.it_set (fds_datawithrd s) it (fun y => forked y a b)))
             else
               r ← (if child0 x =? -1 then mret (-1) else traverse (child0 x) old);
               r ← (if (r =? -1) && negb (child1 x =? -1) then traverse (child1 x) old else mret r);
               if r =? -1 then mret tt
               else
                 '(a, b) ← add_leaves new0 new1;
                 modify (fun s => set_tree s (DArray.update (rd_tree s) r (fun y => forked y a b))));
        rd ← gets fds_datawithrd;
        '(it, rd) ← need (AdjList.it_next rd it);
        _ ← modify (fun s => set_rd s rd);
        fork_list fuel it old new0 new1
    end.

(** The loop starts with the keys of [fds_datawithrd] and goes on with those of
    [fds_wr]. *)
Fixpoint fork_all (fuel : nat) (fd old new0 new1 : Z) : M unit :=
  if fd =? -1 then mret tt
  else
    match fuel with
    | O => spins
    | S fuel =>
        rd ← gets fds_datawithrd;
        it ← need (AdjList.begin rd fd);
        _ ← fork_list (AdjList.turns rd) it old new0 new1;
        wr ← gets fds_wr;
        fork_all fuel (AdjList.hiter_next wr fd) old new0 new1
    end.

Definition keys {T1 T2} (a : AdjList.adjlist T1 T2) : nat := S (Z.to_nat (DArray.size (AdjList.index a))).

Definition res_push_fork_handler (oldkey key0 key1 : Z) : M unit :=
  old ← hash_at oldkey;
  b ← buffer_at old;
  new0 ← newbuffer key0 (loc b);
  new1 ← newbuffer key1 (loc b);
  wr ← gets fds_wr;
  _ ← isolate_all (keys wr) (AdjList.hiter_begin wr) old new0 new1;
  rd ← gets fds_datawithrd;
  wr ← gets fds_wr;
  fork_all (keys rd + keys wr) (AdjList.hiter_begin rd) old new0 new1.

(** The sending queue of a connection, for the sender's own reading. *)
Definition tx_peek (i p : Z) : M (Interprocess.element * (bool * bool)) :=
  '(_, e, sg) ← conn_at i; need (LocklessQueue.peek (Interprocess.t_q (e_tx e)) (Interprocess.w_q (wire_of sg (e_loc e))) p).

Definition tx_pointer (i : Z) : M (Z * Z) :=
  '(_, e, _) ← conn_at i;
  mret (LocklessQueue.pointer (Interprocess.t_q (e_tx e)), LocklessQueue.MASK (Interprocess.t_q (e_tx e))).

Definition set_tx (i : Z) (b : buffer_t) (e : ends) (sg : segment) q m : M unit :=
  let w := wire_of sg (e_loc e) in
  set_conn i b (mkEnds (e_loc e) (Interprocess.mkTx q (Interprocess.t_e (e_tx e))) (e_rx e))
    (set_wire sg (e_loc e) (Interprocess.mkWire m (Interprocess.w_e w) (Interprocess.w_mem w) (Interprocess.w_av w))).

Definition tx_del (i p : Z) : M unit :=
  '(b, e, sg) ← conn_at i;
  '(q, m, _) ← need (LocklessQueue.del Interprocess.SIZE (Interprocess.t_q (e_tx e)) (Interprocess.w_q (wire_of sg (e_loc e))) p);
  set_tx i b e sg q m.

Definition tx_push (i : Z) (ele : Interprocess.element) : M unit :=
  '(b, e, sg) ← conn_at i;
  match LocklessQueue.push (Interprocess.t_q (e_tx e)) (Interprocess.w_q (wire_of sg (e_loc e))) ele with
  | None => spins
  | Some (q, m, _) => set_tx i b e sg q m
  end.

(** The sending buffer: blocks read without being freed, and a block stored. *)
Definition set_blocks (i : Z) (b : buffer_t) (e : ends) (sg : segment) mm av : M unit :=
  let w := wire_of sg (e_loc e) in
  set_conn i b e (set_wire sg (e_loc e) (Interprocess.mkWire (Interprocess.w_q w) (Interprocess.w_e w) mm av)).

Definition tx_read (i blk n : Z) : M (Z * list Z * Z) :=
  '(b, e, sg) ← conn_at i;
  let w := wire_of sg (e_loc e) in
  '(blk, bytes, n, mm, av) ← need (IpBuffer.popdata_nomemrelease (Interprocess.w_mem w) (Interprocess.w_av w) blk n);
  _ ← set_blocks i b e sg mm av;
  mret (blk, bytes, n).

Definition tx_store (i : Z) (bytes : list Z) : M Z :=
  '(b, e, sg) ← conn_at i;
  let w := wire_of sg (e_loc e) in
  '(p, mm, av, _) ← need (IpBuffer.pushdata false (Interprocess.w_mem w) (Interprocess.w_av w) bytes);
  _ ← set_blocks i b e sg mm av;
  mret (IpBuffer.swrap16 p).

(** The start of the old queue, searched backwards from its end. *)
Fixpoint queue_start (fuel : nat) (i p mask : Z) : M Z :=
  match fuel with
  | O => spins
  | S fuel =>
      pk ← tx_peek i (Z.land (u32 (p - 1)) mask);
      if (pk.2.1 : bool) then queue_start fuel i (u32 (p - 1)) mask else mret p
  end.

(** The blocks of a message, one new message each. *)
Fixpoint move_blocks (fuel : nat) (i j blk receiver_fd : Z) : M unit :=
  match fuel with
  | O => spins
  | S fuel =>
      '(blk, bytes, n) ← tx_read i blk IpBuffer.INTERPROCESS_SLOTS_BLK_SIZE;
      p ← tx_store j bytes;
      _ ← tx_push j (Interprocess.mkElement Interprocess.DATA_TRANSFER (Interprocess.data_fd_rw p receiver_fd));
      if blk =? -1 then mret tt else move_blocks fuel i j blk receiver_fd
  end.

(** Everything the old queue [i] still holds goes to [j]. *)
Fixpoint move_queue (fuel : nat) (i j p receiver_fd : Z) : M unit :=
  match fuel with
  | O => spins
  | S fuel =>
      pk ← tx_peek i p;
      let tmp := pk.1 in
      if negb pk.2.1 then mret tt
      else
        _ ← (if (pk.2.2 : bool) then mret tt
             else
               _ ← match Interprocess.command tmp, Interprocess.body tmp with
                   | Interprocess.DATA_TRANSFER, Interprocess.data_fd_rw blk fd =>
                       if fd =? receiver_fd
                       then move_blocks (S (Z.to_nat IpBuffer.INTERPROCESS_SLOTS_IN_BUFFER)) i j blk receiver_fd
                       else tx_push j tmp
                   | _, _ => tx_push j tmp
                   end;
               tx_del i p);
        '(tail, _) ← tx_pointer i;
        move_queue fuel i j (if p <? tail then tail else u32 (p + 1)) receiver_fd
  end.

Definition relay_isolated (i j receiver_fd : Z) : M unit :=
  '(p, mask) ← tx_pointer i;
  pk ← tx_peek i (Z.land p mask);
  p ← (if (pk.2.1 : bool) then mret p else queue_start (Z.to_nat Interprocess.SIZE) i p mask);
  move_queue (2 * Z.to_nat Interprocess.SIZE) i j p receiver_fd.

(** The element of the list whose queue is [match_id]; the pointer stays. *)
Fixpoint find_queue (fuel : nat) (wr : AdjList.adjlist Z fd_wr_list_t) (it : AdjList.iterator) (match_id : Z)
    : option AdjList.iterator :=
  if AdjList.it_end it then Some it
  else
    match fuel, AdjList.it_get wr it with
    | S fuel, Some x =>
        if wr_buffer x =? match_id then Some it
        else it ← AdjList.it_next_no_move_ptr wr it; find_queue fuel wr it match_id
    | _, _ => None
    end.

Definition recv_takeover_req_handler (shmem receiver_fd myfd : Z) : M unit :=
  match_id ← hash_at shmem;
  wr ← gets fds_wr;
  clk ← need (AdjList.begin wr myfd);
  req ← need (find_queue (AdjList.turns wr) wr clk match_id);
  if AdjList.it_end req then fatal
  else if AdjList.curr_ptr req =? AdjList.curr_ptr clk then mret tt
  else
    c ← need (AdjList.it_get wr clk);
    r ← need (AdjList.it_get wr req);
    _ ← (if Z.land (wr_status c) FD_STATUS_Q_ISOLATED =? 0 then mret tt
         else relay_isolated (wr_buffer c) (wr_buffer r) receiver_fd);
    _ ← set_my_turn (wr_buffer c) myfd false;
    _ ← set_my_turn (wr_buffer r) myfd true;
    modify (fun s => set_wr s (AdjList.set_ptr_to (fds_wr s) myfd req)).

(** A message whose body does not belong to its command is none the monitor
    sends. *)
Definition urgent_message (e : ctl) : M unit :=
  match Metaqueue.command e, Metaqueue.body e with
  | Metaqueue.RES_PUSH_FORK, Metaqueue.push_fork old k0 k1 => res_push_fork_handler old k0 k1
  | Metaqueue.REQ_RELAY_RECV, Metaqueue.req_relay_recv shmem req peer => recv_takeover_req_handler shmem req peer
  | Metaqueue.RES_PUSH_FORK, _ | Metaqueue.REQ_RELAY_RECV, _ => fatal
  | _, _ => mret tt
  end.

Fixpoint urgent_from (l : list (option ctl)) : M unit :=
  match l with
  | [] => modify (fun s => set_urgent s [])
  | None :: l => modify (fun s => set_urgent s l)
  | Some e :: l => _ ← urgent_message e; urgent_from l
  end.

Definition monitor2proc_hook : M unit := l ← gets urgent; urgent_from l.

(** ** Setting up sockets *)

(** A call on a system descriptor goes to the kernel with the real one; other
    descriptors are translated and served here. *)
Inductive via (A : Type) := Kernel (fd : Z) | Lib (a : A).
Arguments Kernel {A}.
Arguments Lib {A}.

Definition hooked {A} (fd : Z) (k : Z -> M A) : M (via A) :=
  t ← fd_type fd;
  r ← real fd;
  if bool_decide (t = FD_TYPE_SYSTEM) then mret (Kernel r) else a ← k r; mret (Lib a).

Definition AF_INET : Z := 2.
Definition SOCK_STREAM : Z := 1.
Definition SOCK_NONBLOCK : Z := 2048.

(** A new key in both tables. *)
Definition add_keys (x : file_struc_rd_t) : M Z :=
  rd ← gets fds_datawithrd;
  '(i, rd) ← need (AdjList.add_key rd x);
  _ ← modify (fun s => set_rd s rd);
  mret i.

Definition add_wr_key : M unit :=
  wr ← gets fds_wr;
  '(_, wr) ← need (AdjList.add_key wr 0);
  modify (fun s => set_wr s wr).

(** [kernel]: the kernel's answer for other sockets; [rdma_ok]: whether the RDMA
    library initialises; [junk]: the contents of the automatic variable. *)
Definition socket (domain type_ kernel : Z) (rdma_ok : bool) (junk : file_struc_rd_t) : M Z :=
  if negb (domain =? AF_INET) || negb (type_ =? SOCK_STREAM) then alloc_fd FD_TYPE_SYSTEM kernel
  else
    ready ← gets is_rdma_initialized;
    _ ← (if ready : bool then mret tt else if rdma_ok then modify (fun s => set_rdma_ready s true) else fatal);
    idx_nfd ← add_keys (mkFile (ftype junk) (peer_fd junk) (mkProp false true false (port (property junk)) false));
    _ ← add_wr_key;
    alloc_fd FD_TYPE_SOCKET idx_nfd.

Definition bind (fd p : Z) : M (via Z) :=
  hooked fd (fun fd =>
    _ ← set_prop fd (fun x => mkProp (is_addrreuse x) (is_blocking x) (is_accept_command_sent x) p (isopened x));
    mret 0).

Definition b2z (b : bool) : Z := if b then 1 else 0.

(** [errno] is assigned after the [return]. *)
Definition listen (fd : Z) : M (via Z) :=
  hooked fd (fun fd =>
    valid ← keyvalid fd;
    if negb valid then fail EBADF
    else
      _ ← set_file fd (fun x => mkFile (Some USOCKET_TCP_LISTEN) (peer_fd x) (property x));
      x ← file fd;
      _ ← push_line Local (Metaqueue.mkCtl Metaqueue.REQ_LISTEN
            (Metaqueue.req_listen (port (property x)) (b2z (is_addrreuse (property x)))));
      e ← wait_line Local;
      if bool_decide (Metaqueue.command e = Metaqueue.RES_ERROR) then mret (-1) else mret 0).

Definition shutdown (fd : Z) : M (via Z) := hooked fd (fun _ => mret 0).

(** The loop of [close]: the peer of each queue is told, and the list is
    emptied. *)
Fixpoint close_list (fuel : nat) (fd peer : Z) (it : AdjList.iterator) : M unit :=
  if AdjList.it_end it then mret tt
  else
    match fuel with
    | O => spins
    | S fuel =>
        rd ← gets fds_datawithrd;
        x ← need (AdjList.it_get rd it);
        _ ← push_data (rd_buffer x) (Interprocess.mkElement Interprocess.CLOSE_FD (Interprocess.close_fd fd peer)) [];
        rd ← gets fds_datawithrd;
        '(it, rd) ← need (AdjList.del_element rd it);
        _ ← modify (fun s => set_rd s rd);
        close_list fuel fd peer it
    end.

(** [epoll_remove] of [poll_lib.cpp]. *)
Definition epoll_remove (fd : Z) : M unit :=
  _ ← modify (fun s => set_epoll s (delete fd (epoll_fds s))); delete_fd fd.

Definition close_socket (fd : Z) : M Z :=
  valid ← keyvalid fd;
  if negb valid then fail EBADF
  else
    x ← file fd;
    _ ← (if bool_decide (ftype x = Some USOCKET_TCP_CONNECT) then
           rd ← gets fds_datawithrd;
           it ← need (AdjList.begin rd fd);
           close_list (AdjList.turns rd) fd (peer_fd x) it
         else mret tt);
    _ ← (if bool_decide (ftype x = Some USOCKET_TCP_LISTEN)
         then push_line Local (Metaqueue.mkCtl Metaqueue.REQ_CLOSE (Metaqueue.req_close (port (property x)) fd))
         else mret tt);
    _ ← set_prop fd (fun p => mkProp (is_addrreuse p) (is_blocking p) (is_accept_command_sent p) (port p) false);
    rd ← gets fds_datawithrd;
    rd ← need (AdjList.del_key rd fd);
    _ ← modify (fun s => set_rd s rd);
    wr ← gets fds_wr;
    wr ← need (AdjList.del_key wr fd);
    _ ← modify (fun s => set_wr s wr);
    _ ← delete_fd fd;
    mret 0.

(** [kernel] is the kernel's [close]. *)
Definition close (fd : Z) (kernel : Z -> Z) : M Z :=
  t ← fd_type fd;
  r ← real fd;
  match t with
  | FD_TYPE_SYSTEM =>
      let res := kernel r in
      _ ← (if res =? 0 then delete_fd fd else mret tt);
      mret res
  | FD_TYPE_EPOLL => _ ← epoll_remove fd; mret 0
  | _ => close_socket r
  end.

(** ** Connecting *)

Record sockaddr_in := mkAddr { sa_family : Z; sin_addr : Z; sin_port : Z }.

(** 127.0.0.1 *)
Definition INADDR_LOOPBACK : Z := 2130706433.
Definition EAFNOSUPPORT : errno := EOTHER 97.
Definition ECONNREFUSED : errno := EOTHER 111.

(** What an RDMA connection gets from outside the library: the polls of the
    queue to a monitor it was not connected to ([None]: it cannot be reached),
    the description of the own queue pair and the bytes a union holds besides
    it, the numbers of the queue pair with those of the peer's description, and
    the memory of the connection with what the peer has written to it. *)
Record rdma_env := mkRdmaEnv {
  re_monitor : option (list (option ctl));
  re_info : list Z;
  re_union : list Z;
  re_qp : Z; re_cq : Z; re_lkey : Z; re_rkey : Z; re_remote : Z;
  re_mem : segment
}.

(** [interprocess_t::init] and [initRDMA] on the connection's own memory. *)
Definition rdma_attach (env : rdma_env) (l : bool) : option (ends * segment) :=
  let far := Interprocess.initRDMA (re_remote env) l in
  let by_ a := LocklessQueue.mkRdma (re_qp env) (re_cq env) (re_lkey env) (re_rkey env) a in
  let '(e, sg) := attach (re_mem env) l in
  let ws := wire_of sg l in
  let wr := wire_of sg (negb l) in
  let fresh q a := LocklessQueue.initRDMA (LocklessQueue.enable_credit (LocklessQueue.setpointer q 0)) (by_ a) in
  let as_ := Interprocess.w_av ws in
  let ar := Interprocess.w_av wr in
  let as' := IpBuffer.mkAvailq (IpBuffer.av_s as_) (fresh (IpBuffer.av_r as_) (Interprocess.b_avail far false).1) (IpBuffer.av_m as_) in
  '(s, m) ← IpBuffer.push_tokens (Z.to_nat IpBuffer.INTERPROCESS_SLOTS_IN_BUFFER) 0
              (fresh (IpBuffer.av_s ar) (Interprocess.b_avail far true).1) (IpBuffer.av_m ar);
  let ar' := IpBuffer.mkAvailq s (IpBuffer.av_r ar) m in
  Some (mkEnds l
          (Interprocess.mkTx (LocklessQueue.initRDMA (Interprocess.t_q (e_tx e)) (by_ (Interprocess.q far false).1))
                             (LocklessQueue.initRDMA (Interprocess.t_e (e_tx e)) (by_ (Interprocess.q_emergency far false).1)))
          (Interprocess.mkRx (LocklessQueue.initRDMA (Interprocess.r_q (e_rx e)) (by_ (Interprocess.q far true).1))
                             (LocklessQueue.initRDMA (Interprocess.r_e (e_rx e)) (by_ (Interprocess.q_emergency far true).1))),
        set_wire (set_wire sg l (Interprocess.mkWire (Interprocess.w_q ws) (Interprocess.w_e ws) (Interprocess.w_mem ws) as'))
                 (negb l) (Interprocess.mkWire (Interprocess.w_q wr) (Interprocess.w_e wr) (Interprocess.w_mem wr) ar')).

(** [buffer[i].data] of an RDMA connection. *)
Definition set_rdma_data (i : Z) (env : rdma_env) (l : Z) : M unit :=
  b ← buffer_at i;
  '(e, sg) ← need (rdma_attach env (negb (l =? 0)));
  set_conn i b e sg.

(** [connect_with_rdma_stub] and [rdma_try_connect_remote_monitor]. *)
Definition remote_line (addr : Z) (env : rdma_env) : M line :=
  r ← gets remote_monitor;
  match r !! addr with
  | Some _ => mret (Remote addr)
  | None =>
      from ← need (re_monitor env);
      _ ← modify (fun s => set_remote s (<[addr := ([], from)]> (remote_monitor s)));
      mret (Remote addr)
  end.

(** The peer's description of its queue pair. *)
Definition wait_qp_info (ln : line) : M (list Z) :=
  e ← wait_line ln;
  match Metaqueue.command e, Metaqueue.body e with
  | Metaqueue.LONG_MSG_HEAD, Metaqueue.long_msg_head len Metaqueue.RDMA_QP_INFO => pop_longmsg (Z.to_nat len) ln len
  | _, _ => fatal
  end.

(** The client sends its description first and acknowledges the server's. *)
Definition rdma_connect (ln : line) (key l : Z) (env : rdma_env) : M Z :=
  idx ← newbuffer_rdma key l;
  _ ← push_all ln (Metaqueue.push_longmsg (re_info env) (re_union env) Metaqueue.RDMA_QP_INFO);
  _ ← wait_qp_info ln;
  _ ← set_rdma_data idx env l;
  _ ← push_line ln (Metaqueue.mkCtl Metaqueue.RDMA_QP_ACK (Metaqueue.req_relay_recv key garbage garbage));
  mret idx.

Definition rdma_accept (key l : Z) (env : rdma_env) : M Z :=
  idx ← newbuffer_rdma key l;
  _ ← wait_qp_info Local;
  _ ← push_all Local (Metaqueue.push_longmsg (re_info env) (re_union env) Metaqueue.RDMA_QP_INFO);
  e ← wait_line Local;
  if bool_decide (Metaqueue.command e = Metaqueue.RDMA_QP_ACK)
  then _ ← set_rdma_data idx env l; mret idx
  else fatal.

(** The buffer of a new connection. *)
Definition conn_buffer (key : Z) (make : M Z) : M Z :=
  s ← gets (fun s => s);
  i ← need (isexist s key);
  if i =? -1 then make else mret i.

(** The element of [fds_datawithrd] and the one of [fds_wr], which becomes the
    next to be used. *)
Definition add_rd (fd idx : Z) : M unit :=
  rd ← gets fds_datawithrd;
  '(_, rd) ← need (AdjList.add_element rd fd (mkRd idx 0 (-1) (-1)));
  _ ← modify (fun s => set_rd s rd);
  mret tt.

Definition add_wr (fd idx count : Z) : M AdjList.iterator :=
  wr ← gets fds_wr;
  '(it, wr) ← need (AdjList.add_element wr fd (mkWr idx 0 count));
  _ ← modify (fun s => set_wr s wr);
  mret it.

Definition point_wr (fd : Z) (it : AdjList.iterator) : M unit :=
  modify (fun s => set_wr s (AdjList.set_ptr_to (fds_wr s) fd it)).

(** One pass of [connect] over the elements that have arrived. *)
Fixpoint find_new_fd (fuel : nat) (i : Z) (it : Interprocess.iterator) : M (option Z) :=
  match fuel with
  | O => spins
  | S fuel =>
      '(ele, vd, it) ← ele_peek i it;
      if negb (vd.1 : bool) then mret None
      else if (vd.2 : bool) then it ← ele_next i it; find_new_fd fuel i it
      else
        match Interprocess.command ele, Interprocess.body ele with
        | Interprocess.NEW_FD, Interprocess.data_fd_notify fd => _ ← ele_del i it; mret (Some fd)
        | Interprocess.NEW_FD, _ => fatal
        | _, _ => it ← ele_next i it; find_new_fd fuel i it
        end
  end.

(** The turns of a pass over both queues of a connection; a deletion goes back
    to the front. *)
Definition scan_turns : nat := Z.to_nat (4 * Interprocess.SIZE * Interprocess.SIZE).

(** The passes, with what the peers do to the memory between them. *)
Fixpoint await_new_fd (i : Z) (peers : list (gmap Z segment -> gmap Z segment)) : M Z :=
  it ← ele_begin i;
  r ← find_new_fd scan_turns i it;
  match r, peers with
  | Some fd, _ => mret fd
  | None, [] => spins
  | None, p :: peers => _ ← modify (fun s => set_mem s (p (mem s))); await_new_fd i peers
  end.

(** [address_len] is the size of a [sockaddr_in], so that the address is printed
    and read back; [kernel_close] is the kernel's [close]. *)
Definition connect (fd : Z) (address : sockaddr_in) (kernel_close : Z -> Z) (env : rdma_env)
    (peers : list (gmap Z segment -> gmap Z segment)) : M (via Z) :=
  hooked fd (fun socket =>
    if negb (sa_family address =? AF_INET) then fail EAFNOSUPPORT
    else
      valid ← keyvalid socket;
      if negb valid then fail EBADF
      else
        x ← file socket;
        _ ← (if isopened (property x) then _ ← close socket kernel_close; mret tt else mret tt);
        _ ← set_file socket (fun x => mkFile (Some USOCKET_TCP_CONNECT) (peer_fd x)
              (mkProp (is_addrreuse (property x)) (is_blocking (property x)) (is_accept_command_sent (property x))
                      (port (property x)) true));
        let rdma := negb (sin_addr address =? INADDR_LOOPBACK) in
        q2monitor ← (if rdma then remote_line (sin_addr address) env else mret Local);
        _ ← push_line q2monitor (Metaqueue.mkCtl Metaqueue.REQ_CONNECT (Metaqueue.req_connect (sin_port address) socket rdma));
        res ← wait_line q2monitor;
        match Metaqueue.command res, Metaqueue.body res with
        | Metaqueue.RES_SUCCESS, Metaqueue.resp_connect key _ _ l _ =>
            idx ← conn_buffer key (if rdma then rdma_connect q2monitor key l env else newbuffer key l);
            _ ← add_rd socket idx;
            it ← add_wr socket idx 0;
            _ ← point_wr socket it;
            _ ← (if rdma then mret tt else set_my_turn idx socket true);
            peer ← await_new_fd idx peers;
            _ ← set_file socket (fun x => mkFile (ftype x) peer (property x));
            mret 0
        | Metaqueue.RES_SUCCESS, _ => fatal
        | _, _ => fail ECONNREFUSED
        end).

(** ** Accepting *)

(** The request to be told of connections is sent once. *)
Definition send_accept_command (fd : Z) : M unit :=
  x ← file fd;
  if is_accept_command_sent (property x) then mret tt
  else
    _ ← push_line Local (Metaqueue.mkCtl Metaqueue.REQ_ACCEPT (Metaqueue.req_accept (port (property x))));
    set_prop fd (fun p => mkProp (is_addrreuse p) (is_blocking p) true (port p) (isopened p)).

(** [None]: nothing has arrived and the socket does not block. *)
Definition next_connection (fd : Z) : M (option ctl) :=
  e ← poll_monitor;
  match e with
  | Some e => mret (Some e)
  | None =>
      _ ← send_accept_command fd;
      x ← file fd;
      if is_blocking (property x) then e ← wait_line Local; mret (Some e) else mret None
  end.

(** The descriptor and the queue of a connection from [peer]. *)
Definition install (peer key l flags : Z) (rdma : bool) (junk : file_struc_rd_t) (env : rdma_env) : M Z :=
  idx_nfd ← add_keys (mkFile (Some USOCKET_TCP_CONNECT) (peer_fd junk)
               (mkProp false (Z.land flags SOCK_NONBLOCK =? 0) (is_accept_command_sent (property junk))
                       (port (property junk)) true));
  _ ← set_file idx_nfd (fun x => mkFile (ftype x) peer (property x));
  idx ← conn_buffer key (if rdma then rdma_accept key l env else newbuffer key l);
  _ ← add_rd idx_nfd idx;
  _ ← add_wr_key;
  it ← add_wr idx_nfd idx garbage;
  _ ← (if rdma then mret tt else set_my_turn idx idx_nfd true);
  _ ← point_wr idx_nfd it;
  _ ← push_data idx (Interprocess.mkElement Interprocess.NEW_FD (Interprocess.data_fd_notify idx_nfd)) [];
  alloc_fd FD_TYPE_SOCKET idx_nfd.

Definition accept_socket (fd flags : Z) (junk : file_struc_rd_t) (env : rdma_env) : M Z :=
  e ← next_connection fd;
  match e with
  | None => fail EAGAIN
  | Some e =>
      match Metaqueue.command e, Metaqueue.body e with
      | Metaqueue.RES_NEWCONNECTION, Metaqueue.resp_connect key cfd cport l crdma =>
          valid ← keyvalid fd;
          if negb valid then fail EBADF
          else
            x ← file fd;
            if bool_decide (ftype x = Some USOCKET_TCP_LISTEN) then
              if default garbage cport =? port (property x)
              then install (default garbage cfd) key l flags (default (negb (garbage =? 0)) crdma) junk env
              else fatal
            else fail EBADF
      | _, _ => fatal
      end
  end.

(** [kernel]: the kernel's answer for a system descriptor.  The address of the
    peer is a placeholder ([getpeername] below). *)
Definition accept4 (fd flags : Z) (kernel : Z -> Z) (junk : file_struc_rd_t) (env : rdma_env) : M Z :=
  t ← fd_type fd;
  r ← real fd;
  if bool_decide (t = FD_TYPE_SYSTEM) then alloc_fd FD_TYPE_SYSTEM (kernel r)
  else accept_socket r flags junk env.

Definition accept (fd : Z) (kernel : Z -> Z) (junk : file_struc_rd_t) (env : rdma_env) : M Z :=
  t ← fd_type fd;
  if bool_decide (t = FD_TYPE_SYSTEM) then r ← real fd; alloc_fd FD_TYPE_SYSTEM (kernel r)
  else accept4 fd 0 kernel junk env.

(** ** Options *)

Definition SOL_SOCKET : Z := 1.
Definition SO_REUSEPORT : Z := 15.
Definition reuse_option (level name : Z) : bool := (level =? SOL_SOCKET) && (name =? SO_REUSEPORT).

Definition setsockopt (fd level name value : Z) : M (via Z) :=
  hooked fd (fun fd =>
    if reuse_option level name then
      valid ← keyvalid fd;
      if negb valid then fail EBADF
      else
        _ ← set_prop fd (fun p => mkProp (negb (value =? 0)) (is_blocking p) (is_accept_command_sent p) (port p) (isopened p));
        mret 0
    else mret 0).

(** The result with the value and the length that are stored. *)
Definition getsockopt (fd level name : Z) : M (via (Z * option Z * Z)) :=
  hooked fd (fun fd =>
    if reuse_option level name then
      valid ← keyvalid fd;
      if negb valid then r ← fail EBADF; mret (r, None, 0)
      else x ← file fd; mret (0, Some (b2z (is_addrreuse (property x))), 4)
    else mret (0, None, 0)).

(** Placeholders: 127.0.0.1 with port 80 and with port 12345. *)
Definition name_of (p fd : Z) : M (via (Z * option sockaddr_in)) :=
  hooked fd (fun fd =>
    valid ← keyvalid fd;
    if negb valid then r ← fail EBADF; mret (r, None)
    else mret (0, Some (mkAddr AF_INET INADDR_LOOPBACK p))).

Definition getsockname : Z -> M (via (Z * option sockaddr_in)) := name_of 80.
Definition getpeername : Z -> M (via (Z * option sockaddr_in)) := name_of 12345.

Definition F_GETFD : Z := 1.
Definition F_SETFD : Z := 2.
Definition F_GETFL : Z := 3.
Definition F_SETFL : Z := 4.
Definition O_RDWR : Z := 2.
Definition O_NONBLOCK : Z := 2048.

Definition set_blocking (fd : Z) (b : bool) : M unit :=
  set_prop fd (fun p => mkProp (is_addrreuse p) b (is_accept_command_sent p) (port p) (isopened p)).

Definition fcntl_socket (fd cmd flags : Z) : M Z :=
  valid ← keyvalid fd;
  if negb valid then fail EBADF
  else if cmd =? F_SETFL then
    _ ← (if flags =? O_NONBLOCK then set_blocking fd false else mret tt);
    mret 0
  else if cmd =? F_GETFL then
    x ← file fd;
    mret (if is_blocking (property x) then O_NONBLOCK else O_RDWR)
  else if (cmd =? F_SETFD) || (cmd =? F_GETFD) then mret 0
  else fail ENOTSUP.

Definition fcntl (fd cmd flags : Z) : M (via Z) :=
  t ← fd_type fd;
  r ← real fd;
  match t with
  | FD_TYPE_SYSTEM => mret (Kernel r)
  | FD_TYPE_EPOLL => mret (Lib 0)
  | _ => v ← fcntl_socket r cmd flags; mret (Lib v)
  end.

Definition FIONBIO : Z := 0x5421.

Definition ioctl (fd request : Z) : M (via Z) :=
  hooked fd (fun fd =>
    valid ← keyvalid fd;
    if negb valid then fail EBADF
    else
      _ ← (if request =? FIONBIO then set_blocking fd false else mret tt);
      mret 0).

(** ** Receiving *)

(** Whether the file can be used for data. *)
Definition connected (x : file_struc_rd_t) : bool :=
  bool_decide (ftype x = Some USOCKET_TCP_CONNECT) && isopened (property x).

(** What a queue that holds nothing for the descriptor leads to: a queue of
    before a fork is replaced by its children once it is empty; and when the
    sender's turn is not at this queue, it is asked for. *)
Definition add_child (fd child : Z) (it : AdjList.iterator) : M AdjList.iterator :=
  if child =? -1 then mret it
  else
    t ← gets rd_tree;
    y ← need (DArray.get t child);
    rd ← gets fds_datawithrd;
    '(it, rd) ← need (AdjList.add_element_at rd it fd y);
    _ ← modify (fun s => set_rd s rd);
    mret it.

Definition rd_next (it : AdjList.iterator) : M AdjList.iterator :=
  rd ← gets fds_datawithrd;
  '(it, rd) ← need (AdjList.it_next rd it);
  _ ← modify (fun s => set_rd s rd);
  mret it.

Definition rd_del (it : AdjList.iterator) : M AdjList.iterator :=
  rd ← gets fds_datawithrd;
  '(it, rd) ← need (AdjList.del_element rd it);
  _ ← modify (fun s => set_rd s rd);
  mret it.

Definition rd_get (it : AdjList.iterator) : M fd_rd_list_t :=
  rd ← gets fds_datawithrd; need (AdjList.it_get rd it).

Definition queue_isempty (i : Z) : M bool :=
  '(_, e, sg) ← conn_at i;
  need (LocklessQueue.isempty Interprocess.SIZE (Interprocess.r_q (e_rx e)) (Interprocess.w_q (wire_of sg (negb (e_loc e))))).

Definition recv_empty_hook (it : AdjList.iterator) (fd : Z) : M AdjList.iterator :=
  x ← rd_get it;
  if negb (child0 x =? -1) || negb (child1 x =? -1) then
    empty ← queue_isempty (rd_buffer x);
    if empty : bool then
      it ← add_child fd (child0 x) it;
      y ← rd_get it;
      it ← add_child fd (child1 y) it;
      rd_del it
    else rd_next it
  else
    f ← file fd;
    turn ← peer_turn (rd_buffer x) (peer_fd f);
    _ ← (if turn : bool then mret tt
         else
           b ← buffer_at (rd_buffer x);
           push_line Local (Metaqueue.mkCtl Metaqueue.REQ_RELAY_RECV (Metaqueue.req_relay_recv (shmemkey b) fd (peer_fd f))));
    rd_next it.

(** [data_fd_rw.fd] of an element: the second word of the union, which in
    [data_fd_rw_zc] are the number of pages and the high part of the address. *)
Definition rw_fd (ele : Interprocess.element) : option Z :=
  match Interprocess.body ele with
  | Interprocess.data_fd_rw _ fd => Some fd
  | Interprocess.data_fd_rw_zcv _ fd _ => Some fd
  | Interprocess.data_fd_rw_zc _ n high _ => Some (swrap32 (n + 65536 * high))
  | _ => None
  end.

Definition is_data (ele : Interprocess.element) : bool :=
  match Interprocess.command ele with
  | Interprocess.DATA_TRANSFER | Interprocess.DATA_TRANSFER_ZEROCOPY | Interprocess.DATA_TRANSFER_ZEROCOPY_VECTOR => true
  | _ => false
  end.

(** [ITERATE_FD_IN_BUFFER_STATE]; [FIND] with the place. *)
Inductive scan_state := CLOSED | FIND (at_ : Interprocess.iterator) | NOTFIND | ALLCLOSED.

(** The end of [recvfrom_iter_fd_in_buf]. *)
Definition scan_end (fd i : Z) (iter : AdjList.iterator) : M (scan_state * AdjList.iterator) :=
  b ← buffer_at i;
  iter ← (if isRDMA b then rd_next iter else recv_empty_hook iter fd);
  mret (NOTFIND, iter).

(** The loop over the elements of the connection [i]; [add_remote_page_to_pool]
    does nothing. *)
Fixpoint scan (fuel : nat) (fd i : Z) (iter : AdjList.iterator) (it : Interprocess.iterator)
    : M (scan_state * AdjList.iterator) :=
  match fuel with
  | O => spins
  | S fuel =>
      '(ele, vd, it) ← ele_peek i it;
      if negb (vd.1 : bool) then scan_end fd i iter
      else if (vd.2 : bool) then it ← ele_next i it; scan fuel fd i iter it
      else
        let go_on it := it ← ele_next i it; scan fuel fd i iter it in
        match Interprocess.command ele, Interprocess.body ele with
        | Interprocess.CLOSE_FD, Interprocess.close_fd req peer =>
            f ← file fd;
            if (peer =? fd) && (req =? peer_fd f) then
              _ ← ele_del i it;
              iter ← rd_del iter;
              mret (if AdjList.it_end iter then ALLCLOSED else CLOSED, iter)
            else
              valid ← keyvalid peer;
              if valid : bool then go_on it else it ← ele_del i it; go_on it
        | Interprocess.CLOSE_FD, _ => fatal
        | Interprocess.ZEROCOPY_RETURN, _ => it ← ele_del i it; go_on it
        | Interprocess.ZEROCOPY_RETURN_VECTOR, Interprocess.zc_retv _ num_pages =>
            '(n, _, it) ← pop_data i it (8 * num_pages);
            if n =? 8 * num_pages then it ← ele_del i it; go_on it else fatal
        | Interprocess.ZEROCOPY_RETURN_VECTOR, _ => fatal
        | _, _ =>
            if is_data ele && bool_decide (rw_fd ele = Some fd) then mret (FIND it, iter) else go_on it
        end
  end.

Definition recvfrom_iter_fd_in_buf (fd : Z) (iter : AdjList.iterator) : M (scan_state * AdjList.iterator) :=
  x ← rd_get iter;
  it ← ele_begin (rd_buffer x);
  scan scan_turns fd (rd_buffer x) iter it.

Definition PAGE_SIZE : Z := 4096.

(** What a receive stores: bytes, or the pages it maps. *)
Record received := mkReceived { got : Z; got_bytes : list Z; got_pages : list Z }.

(** A vector of 8-byte page numbers in a message. *)
Definition u64_bytes (x : Z) : list Z := (fun k => Z.land (Z.shiftr x (8 * k)) 255) <$> seqZ 0 8.
Definition pages_bytes (l : list Z) : list Z := concat (u64_bytes <$> l).

Fixpoint consecutive (l : list Z) : bool :=
  match l with
  | a :: (b :: _) as l' => (b =? u64 (a + 1)) && consecutive l'
  | _ => true
  end.

Fixpoint bytes_pages (n : nat) (l : list Z) : list Z :=
  match n with
  | O => []
  | S n => foldr (fun b acc => b + 256 * acc) 0 (take 8 l) :: bytes_pages n (drop 8 l)
  end.

(** The pages that were mapped before go back to the peer. *)
Definition return_pages (i : Z) (l : list Z) : M unit :=
  let n := Z.of_nat (length l) in
  _ ← (if consecutive l
       then push_data i (Interprocess.mkElement Interprocess.ZEROCOPY_RETURN
              (Interprocess.zc_ret (default garbage (head l)) (uwrap 16 n))) []
       else push_data i (Interprocess.mkElement Interprocess.ZEROCOPY_RETURN_VECTOR
              (Interprocess.zc_retv garbage (uwrap 16 n))) (pages_bytes l));
  mret tt.

(** [map_and_return_pages]: [mapped] is the kernel's answer, the pages that were
    mapped at the buffer before. *)
Definition receive_pages (i : Z) (it : Interprocess.iterator) (len num_pages : Z) (mapped : list Z -> list Z) : M received :=
  let n := if len <? PAGE_SIZE then 1
           else if len / PAGE_SIZE * PAGE_SIZE <? num_pages * PAGE_SIZE then len / PAGE_SIZE else num_pages in
  '(k, bytes, _) ← pop_data i it (8 * n);
  if k =? 8 * n then
    let pages := bytes_pages (Z.to_nat n) bytes in
    _ ← return_pages i (mapped pages);
    mret (mkReceived (n * PAGE_SIZE) [] pages)
  else fatal.

(** The element at which the search stopped. *)
Definition take_found (i : Z) (it : Interprocess.iterator) (len : Z) (mapped : list Z -> list Z) : M received :=
  '(ele, _, it) ← ele_peek i it;
  match Interprocess.command ele, Interprocess.body ele with
  | Interprocess.DATA_TRANSFER, _ =>
      '(n, bytes, _) ← pop_data i it (swrap32 len);
      mret (mkReceived n bytes [])
  | Interprocess.DATA_TRANSFER_ZEROCOPY_VECTOR, Interprocess.data_fd_rw_zcv _ _ num_pages =>
      if len <=? 0 then spins else receive_pages i it len num_pages mapped
  | _, _ => fatal
  end.

(** One round over the queues of the descriptor: [None] when nothing was
    found. *)
Fixpoint recv_round (fuel : nat) (fd len : Z) (mapped : list Z -> list Z) (iter : AdjList.iterator) : M (option received) :=
  match fuel with
  | O => spins
  | S fuel =>
      x ← rd_get iter;
      '(st, iter) ← recvfrom_iter_fd_in_buf fd iter;
      match st with
      | ALLCLOSED => mret (Some (mkReceived 0 [] []))
      | CLOSED => recv_round fuel fd len mapped iter
      | FIND it =>
          r ← take_found (rd_buffer x) it len mapped;
          if 0 <? got r then mret (Some r)
          else if AdjList.it_end iter then mret None
          else recv_round fuel fd len mapped iter
      | NOTFIND =>
          if AdjList.it_end iter then mret None else recv_round fuel fd len mapped iter
      end
  end.

(** The rounds, with what the peers do to the memory between them. *)
Fixpoint recv_rounds (fd len : Z) (mapped : list Z -> list Z)
    (peers : list (gmap Z segment -> gmap Z segment)) : M received :=
  rd ← gets fds_datawithrd;
  iter ← need (AdjList.begin rd fd);
  r ← recv_round (S (AdjList.turns rd)) fd len mapped iter;
  match r with
  | Some r => mret r
  | None =>
      _ ← monitor2proc_hook;
      f ← file fd;
      if is_blocking (property f) then
        match peers with
        | [] => spins
        | p :: peers => _ ← modify (fun s => set_mem s (p (mem s))); recv_rounds fd len mapped peers
        end
      else r ← fail EAGAIN; mret (mkReceived r [] [])
  end.

Definition recv_socket (fd len : Z) (mapped : list Z -> list Z)
    (peers : list (gmap Z segment -> gmap Z segment)) : M received :=
  valid ← keyvalid fd;
  if negb valid then r ← fail EBADF; mret (mkReceived r [] [])
  else
    f ← file fd;
    if negb (connected f) then r ← fail EBADF; mret (mkReceived r [] [])
    else
      rd ← gets fds_datawithrd;
      iter ← need (AdjList.begin rd fd);
      if AdjList.it_end iter then mret (mkReceived 0 [] [])
      else
        _ ← monitor2proc_hook;
        recv_rounds fd len mapped peers.

Definition recvfrom (fd len : Z) (mapped : list Z -> list Z)
    (peers : list (gmap Z segment -> gmap Z segment)) : M (via received) :=
  hooked fd (fun fd => recv_socket fd len mapped peers).

(** ** Readiness *)

Definition POLLIN : Z := 1.
Definition POLLOUT : Z := 4.
Definition POLLERR : Z := 8.

(** The loop of [check_sockfd_receive]. *)
Fixpoint check_round (fuel : nat) (fd : Z) (iter : AdjList.iterator) : M Z :=
  match fuel with
  | O => spins
  | S fuel =>
      '(st, iter) ← recvfrom_iter_fd_in_buf fd iter;
      match st with
      | ALLCLOSED => mret 0
      | CLOSED => check_round fuel fd iter
      | FIND _ => mret POLLIN
      | NOTFIND => if AdjList.it_end iter then mret 0 else check_round fuel fd iter
      end
  end.

(** Whether a message of the monitor is waiting; a poll that finds nothing is
    consumed. *)
Definition monitor_waiting : M bool :=
  l ← gets from_monitor;
  match l with
  | Some _ :: _ => mret true
  | None :: l => _ ← modify (fun s => set_from s l); mret false
  | [] => mret false
  end.

Definition check_connected (fd : Z) : M Z :=
  rd ← gets fds_datawithrd;
  iter ← need (AdjList.begin rd fd);
  f ← file fd;
  if AdjList.it_end iter || negb (connected f) then mret 0
  else
    _ ← monitor2proc_hook;
    rd ← gets fds_datawithrd;
    iter ← need (AdjList.begin rd fd);
    check_round (S (AdjList.turns rd)) fd iter.

Definition check_sockfd_receive (fd : Z) : M Z :=
  valid ← keyvalid fd;
  if negb valid then _ ← fail EBADF; mret POLLERR
  else
    f ← file fd;
    if bool_decide (ftype f = Some USOCKET_TCP_LISTEN) then
      waiting ← monitor_waiting;
      if waiting : bool then mret POLLIN
      else _ ← send_accept_command fd; check_connected fd
    else check_connected fd.

Definition wr_begin (fd : Z) : M AdjList.iterator :=
  wr ← gets fds_wr; need (AdjList.begin wr fd).

Definition wr_get (it : AdjList.iterator) : M fd_wr_list_t :=
  wr ← gets fds_wr; need (AdjList.it_get wr it).

Definition check_sockfd_send (fd : Z) : M Z :=
  valid ← keyvalid fd;
  if negb valid then _ ← fail EBADF; mret POLLERR
  else
    f ← file fd;
    if bool_decide (ftype f = Some USOCKET_TCP_LISTEN) then mret 0
    else
      it ← wr_begin fd;
      if AdjList.it_end it || negb (connected f) then mret 0
      else
        _ ← monitor2proc_hook;
        it ← wr_begin fd;
        x ← wr_get it;
        '(_, e, _) ← conn_at (wr_buffer x);
        mret (if Interprocess.is_full (e_tx e) then 0 else POLLOUT).

(** ** Sending *)

Definition MIN_PAGES_FOR_ZEROCOPY : Z := 4.
Definition CHECK_READ_PER_WRITE : Z := 64.

Definition send_bytes (i peer : Z) (bytes : list Z) : M unit :=
  _ ← push_data i (Interprocess.mkElement Interprocess.DATA_TRANSFER (Interprocess.data_fd_rw garbage peer)) bytes;
  mret tt.

(** The pages of the static buffer [pot_mock_data], whose physical addresses
    the kernel gives ([phys]). *)
Definition send_mock_pages (i peer num_pages : Z) (phys : Z -> list Z) : M unit :=
  let l := phys num_pages in
  _ ← (if consecutive l
       then push_data i (Interprocess.mkElement Interprocess.DATA_TRANSFER_ZEROCOPY
              (Interprocess.data_fd_rw_zc peer (uwrap 16 num_pages)
                 (uwrap 16 (Z.shiftr (default garbage (head l)) 32)) (u32 (default garbage (head l))))) []
       else push_data i (Interprocess.mkElement Interprocess.DATA_TRANSFER_ZEROCOPY_VECTOR
              (Interprocess.data_fd_rw_zcv garbage peer (uwrap 16 num_pages))) (pages_bytes l));
  mret tt.

(** What follows the pages is taken from the second page on. *)
Definition write_nbyte (i peer : Z) (bytes : list Z) (phys : Z -> list Z) : M Z :=
  let n := Z.of_nat (length bytes) in
  _ ← (if PAGE_SIZE * MIN_PAGES_FOR_ZEROCOPY <=? n then
         _ ← send_bytes i peer (take (Z.to_nat PAGE_SIZE) bytes);
         let left := n - PAGE_SIZE in
         let num_pages := left / PAGE_SIZE in
         _ ← send_mock_pages i peer num_pages phys;
         let left := left - num_pages * PAGE_SIZE in
         if 0 <? left then send_bytes i peer (take (Z.to_nat left) (drop (Z.to_nat PAGE_SIZE) bytes)) else mret tt
       else if 0 <? n then send_bytes i peer bytes else mret tt);
  mret n.

(** The loop of [writev]. *)
Fixpoint write_all (fd i peer : Z) (it : AdjList.iterator) (iov : list (list Z)) (phys : Z -> list Z) : M Z :=
  match iov with
  | [] => mret 0
  | bytes :: iov =>
      n ← write_nbyte i peer bytes phys;
      _ ← wr_get it;
      _ ← modify (fun s => set_wr s (AdjList.it_set (fds_wr s) it
            (fun x => mkWr (wr_buffer x) (wr_status x) (u32 (write_count x + 1)))));
      x ← wr_get it;
      _ ← (if write_count x mod CHECK_READ_PER_WRITE =? 0 then _ ← check_sockfd_receive fd; mret tt else mret tt);
      total ← write_all fd i peer it iov phys;
      mret (n + total)
  end.

Definition write_socket (fd : Z) (iov : list (list Z)) (phys : Z -> list Z) : M Z :=
  it ← wr_begin fd;
  if AdjList.it_end it then fail EBADF
  else
    f ← file fd;
    if negb (connected f) then fail EBADF
    else
      _ ← monitor2proc_hook;
      it ← wr_begin fd;
      x ← wr_get it;
      f ← file fd;
      write_all fd (wr_buffer x) (peer_fd f) it iov phys.

Definition writev (fd : Z) (iov : list (list Z)) (phys : Z -> list Z) : M (via Z) :=
  hooked fd (fun fd => write_socket fd iov phys).

(** ** The other calls for data *)

Definition write (fd : Z) (bytes : list Z) (phys : Z -> list Z) : M (via Z) := writev fd [bytes] phys.
Definition send (fd : Z) (bytes : list Z) (flags : Z) (phys : Z -> list Z) : M (via Z) := write fd bytes phys.
Definition sendto (fd : Z) (bytes : list Z) (flags : Z) (phys : Z -> list Z) : M (via Z) := send fd bytes flags phys.
Definition sendmsg (fd : Z) (iov : list (list Z)) (flags : Z) (phys : Z -> list Z) : M (via Z) := writev fd iov phys.

Definition read (fd n : Z) (mapped : list Z -> list Z) (peers : list (gmap Z segment -> gmap Z segment)) : M (via received) :=
  recvfrom fd n mapped peers.
Definition recv (fd n flags : Z) (mapped : list Z -> list Z) (peers : list (gmap Z segment -> gmap Z segment))
    : M (via received) := read fd n mapped peers.

(** [readv] tries every part, also after one that failed; each part has its own
    peers' actions. *)
Fixpoint read_all (fd : Z) (lens : list Z) (mapped : list Z -> list Z)
    (peers : list (list (gmap Z segment -> gmap Z segment))) : M (Z * bool * list received) :=
  match lens with
  | [] => mret (0, false, [])
  | n :: lens =>
      r ← recv_socket fd n mapped (default [] (head peers));
      '(total, iserror, l) ← read_all fd lens mapped (tail peers);
      mret (if got r =? -1 then (total, true, r :: l) else (got r + total, iserror, r :: l))
  end.

Definition readv (fd : Z) (lens : list Z) (mapped : list Z -> list Z)
    (peers : list (list (gmap Z segment -> gmap Z segment))) : M (via (Z * list received)) :=
  hooked fd (fun fd =>
    '(total, iserror, l) ← read_all fd lens mapped peers;
    mret (if iserror : bool then -1 else total, l)).

Definition recvmsg := readv.

(** The checked variants of the C library. *)
Definition recvfrom_chk := recvfrom.
Definition read_chk := read.
Definition recv_chk := recv.

(** [pread], [pread64], [pwrite] and [pwrite64]. *)
Definition at_offset (fd : Z) : M (via Z) := hooked fd (fun _ => fail EINVAL).
Definition pread := at_offset.
Definition pread64 := at_offset.
Definition pwrite := at_offset.
Definition pwrite64 := at_offset.

(** ** [sendfile]

    Both descriptors are used through the hooked calls; for a system descriptor
    the kernel's answers are lists: what each [read] returns or its error, and
    the result of each [write] or its error.  [contents] are the bytes of a page
    that a zero-copy receive maps. *)
Definition any_read (fd n : Z) (kreads : list (list Z + errno)) (contents : Z -> list Z) (mapped : list Z -> list Z)
    (peers : list (gmap Z segment -> gmap Z segment)) : M ((list Z + errno) * list (list Z + errno)) :=
  v ← read fd n mapped peers;
  match v with
  | Kernel _ => match kreads with [] => spins | r :: kreads => mret (r, kreads) end
  | Lib r =>
      if got r =? -1 then e ← gets last_error; mret (inr (default (EOTHER garbage) e), kreads)
      else mret (inl (got_bytes r ++ concat (contents <$> got_pages r)), kreads)
  end.

Definition any_write (fd : Z) (bytes : list Z) (kwrites : list (Z + errno)) (phys : Z -> list Z)
    : M ((Z + errno) * list (Z + errno)) :=
  v ← write fd bytes phys;
  match v with
  | Kernel _ => match kwrites with [] => spins | r :: kwrites => mret (r, kwrites) end
  | Lib n => if n =? -1 then e ← gets last_error; mret (inr (default (EOTHER garbage) e), kwrites) else mret (inl n, kwrites)
  end.

Definition sendfile_bufsize : Z := 16384.

(** The inner loop: every turn writes [read_bytes] bytes from [done_] on, not
    what is left.  [None] is the error. *)
Fixpoint write_out (fuel : nat) (out_fd : Z) (buf : list Z) (done_ write_bytes read_bytes : Z)
    (kwrites : list (Z + errno)) (phys : Z -> list Z) : M (option (list (Z + errno))) :=
  if write_bytes <=? 0 then mret (Some kwrites)
  else
    match fuel with
    | O => spins
    | S fuel =>
        if (0 <=? done_) && (done_ + read_bytes <=? sendfile_bufsize) then
          '(r, kwrites) ← any_write out_fd (take (Z.to_nat read_bytes) (drop (Z.to_nat done_) buf)) kwrites phys;
          match r with
          | inr EAGAIN => write_out fuel out_fd buf done_ write_bytes read_bytes kwrites phys
          | inr _ => _ ← fail EPIPE; mret None
          | inl n => write_out fuel out_fd buf (done_ + n) (write_bytes - n) read_bytes kwrites phys
          end
        else fatal
    end.

Fixpoint sendfile_loop (fuel : nat) (out_fd in_fd count total : Z) (buf : list Z) (kreads : list (list Z + errno))
    (kwrites : list (Z + errno)) (phys contents : Z -> list Z) (mapped : list Z -> list Z)
    (peers : list (gmap Z segment -> gmap Z segment)) : M (option Z) :=
  if u64 (count - total) =? 0 then mret (Some total)
  else
    match fuel with
    | O => spins
    | S fuel =>
        let max_read := Z.min sendfile_bufsize (u64 (count - total)) in
        '(r, kreads) ← any_read in_fd max_read kreads contents mapped peers;
        match r with
        | inr EAGAIN => sendfile_loop fuel out_fd in_fd count total buf kreads kwrites phys contents mapped peers
        | inr _ => _ ← fail EPIPE; mret None
        | inl [] => mret (Some total)
        | inl bytes =>
            let n := Z.of_nat (length bytes) in
            let buf := bytes ++ drop (length bytes) buf in
            k ← write_out fuel out_fd buf 0 n n kwrites phys;
            match k with
            | None => mret None
            | Some kwrites => sendfile_loop fuel out_fd in_fd count (total + n) buf kreads kwrites phys contents mapped peers
            end
        end
    end.

(** The result and the offset afterwards; [kseek] is the answer of the first
    [lseek], that of the last one is ignored.  [None] for the result: both
    descriptors are the kernel's. *)
Definition sendfile (fuel : nat) (out_fd in_fd : Z) (offset : option Z) (count kseek : Z) (buf : list Z)
    (kreads : list (list Z + errno)) (kwrites : list (Z + errno)) (phys contents : Z -> list Z) (mapped : list Z -> list Z)
    (peers : list (gmap Z segment -> gmap Z segment)) : M (option (Z * option Z)) :=
  tin ← fd_type in_fd;
  tout ← fd_type out_fd;
  if bool_decide (tin = FD_TYPE_SYSTEM) && bool_decide (tout = FD_TYPE_SYSTEM) then mret None
  else if (if offset is Some _ then kseek =? -1 else false) then mret (Some (-1, offset))
  else
    r ← sendfile_loop fuel out_fd in_fd count 0 buf kreads kwrites phys contents mapped peers;
    match r with
    | None => mret (Some (-1, offset))
    | Some total => mret (Some (total, if 0 <? total then (fun o => o + total) <$> offset else offset))
    end.

Definition sendfile64 := sendfile.

End calls.

Arguments Kernel {A}.
Arguments Lib {A}.

End ProtoSock.
