(* ===== verification/ProtoTables.v ===== *)
(** * The two tables of descriptors of the prototype

    The library keeps the reading and the writing side of a descriptor in two
    tables and uses the same index for both, although each table chooses the
    index itself ([socket] and [accept4] ignore what the second one returns).
    Every call keeps the tables in step, so that this is justified. *)

From Stdlib Require Import ZArith Lia.
From stdpp Require Import numbers base gmap list relations.
From S2P Require Import Prelude DArray AdjList LocklessQueue Metaqueue IpBuffer Interprocess ProtoFd ProtoSock.
Import ProtoFd ProtoSock.

Module ProtoTables.

#[export] Existing Instance AdjList.index_inhabited.

Definition rd_shape (s : thread) := AdjList.key_shape (fds_datawithrd s).
Definition wr_shape (s : thread) := AdjList.key_shape (fds_wr s).

(** A computation that leaves the keys of both tables alone. *)
Definition keeps {A} (c : M A) : Prop :=
  forall s a s', c s = Done (a, s') -> rd_shape s' = rd_shape s /\ wr_shape s' = wr_shape s.

Create HintDb keeps.

Section rules.
Context {A B : Type}.

Lemma keeps_ret (a : A) : keeps (mret a).
Proof. by intros s b s' [= <- <-]. Qed.

Lemma keeps_bind (c : M B) (k : B -> M A) : keeps c -> (forall b, keeps (k b)) -> keeps (c ≫= k).
Proof.
  intros Hc Hk s a s'. unfold mbind, M_bind. destruct (c s) as [[b s1]| |] eqn:E; try done. intros H.
  destruct (Hc _ _ _ E) as [H1 H2], (Hk _ _ _ _ H) as [H3 H4]. split; congruence.
Qed.

Lemma keeps_gets (f : thread -> A) : keeps (gets f).
Proof. by intros s b s' [= <- <-]. Qed.

Lemma keeps_need (o : option A) : keeps (need o).
Proof. intros s b s'. unfold need. destruct o; by intros [= <- <-]. Qed.

Lemma keeps_lift (o : outcome A) : keeps (lift o).
Proof. intros s b s'. unfold lift. destruct o; by intros [= <- <-]. Qed.

Lemma keeps_fatal : keeps (fatal : M A).
Proof. done. Qed.

Lemma keeps_spins : keeps (spins : M A).
Proof. done. Qed.

(** A step on one table that leaves its keys alone. *)
Lemma keeps_rd_op {C} (op : _ -> option (C * _)) (k : C -> M A) :
  (forall a x a', op a = Some (x, a') -> AdjList.key_shape a' = AdjList.key_shape a) -> (forall x, keeps (k x)) ->
  keeps (rd ← gets fds_datawithrd; '(x, rd) ← need (op rd); _ ← modify (fun s => set_rd s rd); k x).
Proof.
  intros Hop Hk s a s'. unfold mbind, M_bind, gets, need, modify. destruct (op (fds_datawithrd s)) as [[x rd]|] eqn:E; [|done].
  intros H. destruct (Hk x _ _ _ H) as [H1 H2]. split; [|exact H2]. rewrite H1. unfold rd_shape. simpl. by eapply Hop.
Qed.

Lemma keeps_wr_op {C} (op : _ -> option (C * _)) (k : C -> M A) :
  (forall a x a', op a = Some (x, a') -> AdjList.key_shape a' = AdjList.key_shape a) -> (forall x, keeps (k x)) ->
  keeps (wr ← gets fds_wr; '(x, wr) ← need (op wr); _ ← modify (fun s => set_wr s wr); k x).
Proof.
  intros Hop Hk s a s'. unfold mbind, M_bind, gets, need, modify. destruct (op (fds_wr s)) as [[x wr]|] eqn:E; [|done].
  intros H. destruct (Hk x _ _ _ H) as [H1 H2]. split; [exact H1|]. rewrite H2. unfold wr_shape. simpl. by eapply Hop.
Qed.

End rules.

Lemma keeps_modify (f : thread -> thread) :
  (forall s, rd_shape (f s) = rd_shape s /\ wr_shape (f s) = wr_shape s) -> keeps (modify f).
Proof. intros H s a s' [= <- <-]. apply H. Qed.

#[export] Hint Resolve keeps_ret keeps_gets keeps_need keeps_lift keeps_fatal keeps_spins : keeps.

(** One step of a proof: the rules, the lemmas of the database, and cases. *)
Ltac keeps_step :=
  cbv beta iota zeta;
  first
  [ solve [auto with keeps nocore]
  | apply keeps_bind; [|intros ?]
  | apply keeps_modify; intros ?; split; reflexivity
  | match goal with |- keeps (match ?x with _ => _ end) => destruct x end ].
Ltac keeps := intros; repeat keeps_step.

Lemma keeps_set_rd f : (forall a, AdjList.key_shape (f a) = AdjList.key_shape a) ->
  keeps (modify (fun s => set_rd s (f (fds_datawithrd s)))).
Proof. intros H. apply keeps_modify. intros s. split; [apply H|done]. Qed.

Lemma keeps_set_wr f : (forall a, AdjList.key_shape (f a) = AdjList.key_shape a) ->
  keeps (modify (fun s => set_wr s (f (fds_wr s)))).
Proof. intros H. apply keeps_modify. intros s. split; [done|apply H]. Qed.

(** ** The computations that do not open or close a descriptor *)

Lemma keeps_fail e : keeps (fail e).
Proof. unfold fail. keeps. Qed.
Lemma keeps_fd_type fd : keeps (fd_type fd).
Proof. unfold fd_type. keeps. Qed.
Lemma keeps_real fd : keeps (real fd).
Proof. unfold real. keeps. Qed.
Lemma keeps_alloc_fd t r : keeps (alloc_fd t r).
Proof. unfold alloc_fd. keeps. Qed.
Lemma keeps_delete_fd v : keeps (delete_fd v).
Proof. unfold delete_fd. keeps. Qed.
Lemma keeps_file fd : keeps (file fd).
Proof. unfold file. keeps. Qed.
#[export] Hint Resolve keeps_fail keeps_fd_type keeps_real keeps_alloc_fd keeps_delete_fd keeps_file : keeps.

Lemma keeps_set_file fd f : keeps (set_file fd f).
Proof. unfold set_file. keeps. apply (keeps_set_rd (fun a => AdjList.update_key a fd f)). intros a. apply AdjList.key_shape_update_key. Qed.
Lemma keeps_set_prop fd f : keeps (set_prop fd f).
Proof. apply keeps_set_file. Qed.
Lemma keeps_keyvalid fd : keeps (keyvalid fd).
Proof. unfold keyvalid. keeps. Qed.
Lemma keeps_push_line ln e : keeps (push_line ln e).
Proof. unfold push_line. keeps. Qed.
Lemma keeps_poll_monitor : keeps poll_monitor.
Proof. unfold poll_monitor. keeps. Qed.
Lemma keeps_wait_line ln : keeps (wait_line ln).
Proof. unfold wait_line. keeps. Qed.
#[export] Hint Resolve keeps_set_file keeps_set_prop keeps_keyvalid keeps_push_line keeps_poll_monitor keeps_wait_line : keeps.

Lemma keeps_push_all ln l : keeps (push_all ln l).
Proof. induction l; simpl; keeps. Qed.
Lemma keeps_pop_longmsg fuel ln n : keeps (pop_longmsg fuel ln n).
Proof. revert n. induction fuel; intros n; simpl; keeps. Qed.
Lemma keeps_buffer_at i : keeps (buffer_at i).
Proof. unfold buffer_at. keeps. Qed.
#[export] Hint Resolve keeps_push_all keeps_pop_longmsg keeps_buffer_at : keeps.
Lemma keeps_conn_at i : keeps (conn_at i).
Proof. unfold conn_at. keeps. Qed.
Lemma keeps_set_conn i b e sg : keeps (set_conn i b e sg).
Proof. unfold set_conn. keeps. Qed.
#[export] Hint Resolve keeps_conn_at keeps_set_conn : keeps.
Lemma keeps_push_data i ele bytes : keeps (push_data i ele bytes).
Proof. unfold push_data. keeps. Qed.
Lemma keeps_pop_data i it n : keeps (pop_data i it n).
Proof. unfold pop_data. keeps. Qed.
Lemma keeps_ele_begin i : keeps (ele_begin i).
Proof. unfold ele_begin. keeps. Qed.
Lemma keeps_ele_peek i it : keeps (ele_peek i it).
Proof. unfold ele_peek. keeps. Qed.
Lemma keeps_ele_next i it : keeps (ele_next i it).
Proof. unfold ele_next. keeps. Qed.
Lemma keeps_ele_del i it : keeps (ele_del i it).
Proof. unfold ele_del. keeps. Qed.
Lemma keeps_set_my_turn i fd v : keeps (set_my_turn i fd v).
Proof. unfold set_my_turn. keeps. Qed.
Lemma keeps_peer_turn i fd : keeps (peer_turn i fd).
Proof. unfold peer_turn. keeps. Qed.
Lemma keeps_take_slot b : keeps (take_slot b).
Proof. unfold take_slot. keeps. Qed.
#[export] Hint Resolve keeps_push_data keeps_pop_data keeps_ele_begin keeps_ele_peek keeps_ele_next keeps_ele_del
  keeps_set_my_turn keeps_peer_turn keeps_take_slot : keeps.
Lemma keeps_newbuffer key l : keeps (newbuffer key l).
Proof. unfold newbuffer. keeps. Qed.
Lemma keeps_newbuffer_rdma key l : keeps (newbuffer_rdma key l).
Proof. unfold newbuffer_rdma. keeps. Qed.
Lemma keeps_hash_at key : keeps (hash_at key).
Proof. unfold hash_at. keeps. Qed.
Lemma keeps_traverse i b : keeps (traverse i b).
Proof. unfold traverse. keeps. Qed.
#[export] Hint Resolve keeps_newbuffer keeps_newbuffer_rdma keeps_hash_at keeps_traverse : keeps.

Section urgent.
Context (g : Z).

Lemma isolate_at_shape fd old n0 n1 it wr it' wr' :
  isolate_at g fd old n0 n1 it wr = Some (it', wr') -> AdjList.key_shape wr' = AdjList.key_shape wr.
Proof.
  unfold isolate_at. destruct (AdjList.it_get wr it) as [x|]; [|done]. simpl. destruct (_ =? _); [|by intros [= <- <-]].
  destruct (AdjList.add_element_at _ _ _ _) as [[it1 wr1]|] eqn:E1; [|done]. simpl. intros E2.
  apply AdjList.key_shape_add_element_at in E1, E2. by rewrite E2, E1.
Qed.

Lemma keeps_isolate_list fuel fd it old n0 n1 : keeps (isolate_list g fuel fd it old n0 n1).
Proof.
  revert it. induction fuel as [|fuel IH]; intros it; simpl; destruct (AdjList.it_end it); [keeps|keeps|keeps|].
  apply (keeps_wr_op (isolate_at g fd old n0 n1 it)); [apply isolate_at_shape|intros it1].
  apply (keeps_wr_op (fun wr => AdjList.it_next wr it1)); [intros ???; apply AdjList.key_shape_it_next|apply IH].
Qed.
#[local] Hint Resolve keeps_isolate_list : keeps.

Lemma keeps_isolate_all fuel fd old n0 n1 : keeps (isolate_all g fuel fd old n0 n1).
Proof. revert fd. induction fuel; intros fd; simpl; keeps. Qed.

Lemma keeps_add_leaves n0 n1 : keeps (add_leaves n0 n1).
Proof. unfold add_leaves. keeps. Qed.
#[local] Hint Resolve keeps_isolate_all keeps_add_leaves : keeps.

Lemma keeps_rd_next it : keeps (rd_next it).
Proof. apply (keeps_rd_op (fun rd => AdjList.it_next rd it)); [intros ???; apply AdjList.key_shape_it_next|keeps]. Qed.

Lemma keeps_fork_list fuel it old n0 n1 : keeps (fork_list fuel it old n0 n1).
Proof.
  revert it. induction fuel as [|fuel IH]; intros it; simpl; destruct (AdjList.it_end it); [keeps|keeps|keeps|].
  apply keeps_bind; [keeps|intros rd]. apply keeps_bind; [keeps|intros x]. apply keeps_bind.
  - keeps.
  - intros _. apply (keeps_rd_op (fun rd => AdjList.it_next rd it)); [intros ???; apply AdjList.key_shape_it_next|apply IH].
Qed.
#[local] Hint Resolve keeps_fork_list : keeps.

Lemma keeps_fork_all fuel fd old n0 n1 : keeps (fork_all fuel fd old n0 n1).
Proof. revert fd. induction fuel; intros fd; simpl; keeps. Qed.
#[local] Hint Resolve keeps_fork_all : keeps.

Lemma keeps_res_push_fork_handler a b c : keeps (res_push_fork_handler g a b c).
Proof. unfold res_push_fork_handler. keeps. Qed.

Lemma keeps_tx_peek i p : keeps (tx_peek i p).
Proof. unfold tx_peek. keeps. Qed.
Lemma keeps_tx_pointer i : keeps (tx_pointer i).
Proof. unfold tx_pointer. keeps. Qed.
Lemma keeps_tx_del i p : keeps (tx_del i p).
Proof. unfold tx_del, set_tx. keeps. Qed.
Lemma keeps_tx_push i e : keeps (tx_push i e).
Proof. unfold tx_push, set_tx. keeps. Qed.
Lemma keeps_tx_read i b n : keeps (tx_read i b n).
Proof. unfold tx_read, set_blocks. keeps. Qed.
Lemma keeps_tx_store i l : keeps (tx_store i l).
Proof. unfold tx_store, set_blocks. keeps. Qed.
#[local] Hint Resolve keeps_res_push_fork_handler keeps_tx_peek keeps_tx_pointer keeps_tx_del keeps_tx_push keeps_tx_read
  keeps_tx_store : keeps.

Lemma keeps_queue_start fuel i p m : keeps (queue_start fuel i p m).
Proof. revert p. induction fuel; intros p; simpl; keeps. Qed.
Lemma keeps_move_blocks fuel i j b fd : keeps (move_blocks fuel i j b fd).
Proof. revert b. induction fuel; intros b; simpl; keeps. Qed.
#[local] Hint Resolve keeps_queue_start keeps_move_blocks : keeps.
Lemma keeps_move_queue fuel i j p fd : keeps (move_queue fuel i j p fd).
Proof. revert p. induction fuel; intros p; cbn [move_queue]; keeps. Qed.
#[local] Hint Resolve keeps_move_queue : keeps.
Lemma keeps_relay_isolated i j fd : keeps (relay_isolated i j fd).
Proof. unfold relay_isolated. keeps. Qed.
#[local] Hint Resolve keeps_relay_isolated : keeps.

Lemma keeps_point_wr fd it : keeps (point_wr fd it).
Proof. apply (keeps_set_wr (fun a => AdjList.set_ptr_to a fd it)). intros a. apply AdjList.key_shape_set_ptr_to. Qed.

Lemma keeps_recv_takeover_req_handler a b c : keeps (recv_takeover_req_handler a b c).
Proof. unfold recv_takeover_req_handler. keeps. apply keeps_point_wr. Qed.
#[local] Hint Resolve keeps_recv_takeover_req_handler : keeps.

Lemma keeps_urgent_from l : keeps (urgent_from g l).
Proof. induction l as [|[e|] l IH]; simpl; [keeps| |keeps]. unfold urgent_message. keeps. Qed.

Lemma keeps_monitor2proc_hook : keeps (monitor2proc_hook g).
Proof. apply keeps_bind; [keeps|apply keeps_urgent_from]. Qed.

End urgent.
#[export] Hint Resolve keeps_monitor2proc_hook keeps_rd_next keeps_point_wr : keeps.

Lemma keeps_hooked {A} fd (k : Z -> M A) : (forall r, keeps (k r)) -> keeps (hooked fd k).
Proof. intros H. unfold hooked. keeps. Qed.
Ltac keeps_hooked := intros; apply keeps_hooked; keeps.

Lemma keeps_bind_call fd p : keeps (bind fd p).
Proof. keeps_hooked. Qed.
Lemma keeps_listen fd : keeps (listen fd).
Proof. keeps_hooked. Qed.
Lemma keeps_shutdown fd : keeps (shutdown fd).
Proof. keeps_hooked. Qed.

Section connections.
Context (g : Z).

Lemma keeps_set_rdma_data i env l : keeps (set_rdma_data i env l).
Proof. unfold set_rdma_data. keeps. Qed.
Lemma keeps_remote_line a env : keeps (remote_line a env).
Proof. unfold remote_line. keeps. Qed.
Lemma keeps_wait_qp_info ln : keeps (wait_qp_info ln).
Proof. unfold wait_qp_info. keeps. Qed.
#[local] Hint Resolve keeps_set_rdma_data keeps_remote_line keeps_wait_qp_info : keeps.
Lemma keeps_rdma_connect ln k l env : keeps (rdma_connect g ln k l env).
Proof. unfold rdma_connect. keeps. Qed.
Lemma keeps_rdma_accept k l env : keeps (rdma_accept k l env).
Proof. unfold rdma_accept. keeps. Qed.
Lemma keeps_conn_buffer k c : keeps c -> keeps (conn_buffer k c).
Proof. intros H. unfold conn_buffer. keeps. Qed.
Lemma keeps_add_rd fd i : keeps (add_rd fd i).
Proof. apply (keeps_rd_op (fun rd => AdjList.add_element rd fd _)); [intros ???; apply AdjList.key_shape_add_element|keeps]. Qed.
Lemma keeps_add_wr fd i n : keeps (add_wr fd i n).
Proof. apply (keeps_wr_op (fun wr => AdjList.add_element wr fd _)); [intros ???; apply AdjList.key_shape_add_element|keeps]. Qed.
Lemma keeps_find_new_fd fuel i it : keeps (find_new_fd fuel i it).
Proof. revert it. induction fuel; intros it; cbn [find_new_fd]; keeps. Qed.
#[local] Hint Resolve keeps_rdma_connect keeps_rdma_accept keeps_add_rd keeps_add_wr keeps_find_new_fd : keeps.
Lemma keeps_await_new_fd i peers : keeps (await_new_fd i peers).
Proof. induction peers; cbn [await_new_fd]; keeps. Qed.
Lemma keeps_send_accept_command fd : keeps (send_accept_command fd).
Proof. unfold send_accept_command. keeps. Qed.
#[local] Hint Resolve keeps_send_accept_command : keeps.
Lemma keeps_next_connection fd : keeps (next_connection fd).
Proof. unfold next_connection. keeps. Qed.

End connections.
#[export] Hint Resolve keeps_remote_line keeps_rdma_connect keeps_rdma_accept keeps_conn_buffer keeps_add_rd keeps_add_wr
  keeps_await_new_fd keeps_send_accept_command keeps_next_connection : keeps.

(** ** Data *)

Section data.
Context (g : Z).

Lemma keeps_add_child fd c it : keeps (add_child fd c it).
Proof.
  unfold add_child. destruct (_ =? -1); [keeps|]. apply keeps_bind; [keeps|intros t]. apply keeps_bind; [keeps|intros y].
  apply (keeps_rd_op (fun rd => AdjList.add_element_at rd it fd y)); [intros ???; apply AdjList.key_shape_add_element_at|keeps].
Qed.
Lemma keeps_rd_del it : keeps (rd_del it).
Proof. apply (keeps_rd_op (fun rd => AdjList.del_element rd it)); [intros ???; apply AdjList.key_shape_del_element|keeps]. Qed.
Lemma keeps_rd_get it : keeps (rd_get it).
Proof. unfold rd_get. keeps. Qed.
Lemma keeps_queue_isempty i : keeps (queue_isempty i).
Proof. unfold queue_isempty. keeps. Qed.
#[local] Hint Resolve keeps_add_child keeps_rd_del keeps_rd_get keeps_queue_isempty : keeps.
Lemma keeps_recv_empty_hook it fd : keeps (recv_empty_hook it fd).
Proof. unfold recv_empty_hook. keeps. Qed.
#[local] Hint Resolve keeps_recv_empty_hook : keeps.
Lemma keeps_scan_end fd i it : keeps (scan_end fd i it).
Proof. unfold scan_end. keeps. Qed.
#[local] Hint Resolve keeps_scan_end : keeps.
Lemma keeps_scan fuel fd i iter it : keeps (scan fuel fd i iter it).
Proof. revert it. induction fuel; intros it; cbn [scan]; keeps. Qed.
#[local] Hint Resolve keeps_scan : keeps.
Lemma keeps_recvfrom_iter fd iter : keeps (recvfrom_iter_fd_in_buf fd iter).
Proof. unfold recvfrom_iter_fd_in_buf. keeps. Qed.
Lemma keeps_return_pages i l : keeps (return_pages g i l).
Proof. unfold return_pages. keeps. Qed.
#[local] Hint Resolve keeps_recvfrom_iter keeps_return_pages : keeps.
Lemma keeps_receive_pages i it n k m : keeps (receive_pages g i it n k m).
Proof. unfold receive_pages. keeps. Qed.
#[local] Hint Resolve keeps_receive_pages : keeps.
Lemma keeps_take_found i it n m : keeps (take_found g i it n m).
Proof. unfold take_found. keeps. Qed.
#[local] Hint Resolve keeps_take_found : keeps.
Lemma keeps_recv_round fuel fd n m iter : keeps (recv_round g fuel fd n m iter).
Proof. revert iter. induction fuel; intros iter; cbn [recv_round]; keeps. Qed.
#[local] Hint Resolve keeps_recv_round : keeps.
Lemma keeps_recv_rounds fd n m peers : keeps (recv_rounds g fd n m peers).
Proof. induction peers; cbn [recv_rounds]; keeps. Qed.
#[local] Hint Resolve keeps_recv_rounds : keeps.
Lemma keeps_recv_socket fd n m peers : keeps (recv_socket g fd n m peers).
Proof. unfold recv_socket. keeps. Qed.
Lemma keeps_check_round fuel fd it : keeps (check_round fuel fd it).
Proof. revert it. induction fuel; intros it; cbn [check_round]; keeps. Qed.
#[local] Hint Resolve keeps_check_round : keeps.
Lemma keeps_check_connected fd : keeps (check_connected g fd).
Proof. unfold check_connected. keeps. Qed.
Lemma keeps_monitor_waiting : keeps monitor_waiting.
Proof. unfold monitor_waiting. keeps. Qed.
#[local] Hint Resolve keeps_check_connected keeps_monitor_waiting : keeps.
Lemma keeps_check_sockfd_receive fd : keeps (check_sockfd_receive g fd).
Proof. unfold check_sockfd_receive. keeps. Qed.
Lemma keeps_wr_begin fd : keeps (wr_begin fd).
Proof. unfold wr_begin. keeps. Qed.
Lemma keeps_wr_get it : keeps (wr_get it).
Proof. unfold wr_get. keeps. Qed.
#[local] Hint Resolve keeps_check_sockfd_receive keeps_wr_begin keeps_wr_get : keeps.
Lemma keeps_check_sockfd_send fd : keeps (check_sockfd_send g fd).
Proof. unfold check_sockfd_send. keeps. Qed.
Lemma keeps_send_bytes i p l : keeps (send_bytes g i p l).
Proof. unfold send_bytes. keeps. Qed.
Lemma keeps_send_mock_pages i p n phys : keeps (send_mock_pages g i p n phys).
Proof. unfold send_mock_pages. keeps. Qed.
#[local] Hint Resolve keeps_send_bytes keeps_send_mock_pages : keeps.
Lemma keeps_write_nbyte i p l phys : keeps (write_nbyte g i p l phys).
Proof. unfold write_nbyte. keeps. Qed.
#[local] Hint Resolve keeps_write_nbyte : keeps.
Lemma keeps_write_all fd i p it iov phys : keeps (write_all g fd i p it iov phys).
Proof. induction iov; cbn [write_all]; keeps. Qed.
#[local] Hint Resolve keeps_write_all : keeps.
Lemma keeps_write_socket fd iov phys : keeps (write_socket g fd iov phys).
Proof. unfold write_socket. keeps. Qed.
#[local] Hint Resolve keeps_recv_socket keeps_write_socket : keeps.
Lemma keeps_recvfrom fd n m peers : keeps (recvfrom g fd n m peers).
Proof. unfold recvfrom. keeps_hooked. Qed.
Lemma keeps_writev fd iov phys : keeps (writev g fd iov phys).
Proof. unfold writev. keeps_hooked. Qed.
Lemma keeps_read_all fd l m peers : keeps (read_all g fd l m peers).
Proof. revert peers. induction l; intros peers; cbn [read_all]; keeps. Qed.
#[local] Hint Resolve keeps_read_all : keeps.
Lemma keeps_readv fd l m peers : keeps (readv g fd l m peers).
Proof. unfold readv. keeps_hooked. Qed.

End data.
#[export] Hint Resolve keeps_recvfrom keeps_writev keeps_readv keeps_check_sockfd_receive keeps_check_sockfd_send : keeps.

(** ** The calls that open and close descriptors *)

Definition in_step (s : thread) : Prop := rd_shape s = wr_shape s.

Definition steady {A} (c : M A) : Prop := forall s a s', in_step s -> c s = Done (a, s') -> in_step s'.

Lemma steady_keeps {A} (c : M A) : keeps c -> steady c.
Proof. intros H s a s' Hs E. destruct (H _ _ _ E) as [H1 H2]. unfold in_step. congruence. Qed.

Lemma bind_inv {A B} (c : M B) (k : B -> M A) s a s' :
  (c ≫= k) s = Done (a, s') -> exists b s1, c s = Done (b, s1) /\ k b s1 = Done (a, s').
Proof. unfold mbind, M_bind. destruct (c s) as [[b s1]| |]; naive_solver. Qed.

Lemma steady_bind {A B} (c : M B) (k : B -> M A) : steady c -> (forall b, steady (k b)) -> steady (c ≫= k).
Proof. intros Hc Hk s a s' Hs E. apply bind_inv in E as (b & s1 & E1 & E2). exact (Hk b _ _ _ (Hc _ _ _ Hs E1) E2). Qed.

Lemma steady_hooked {A} fd (k : Z -> M A) : (forall r, steady (k r)) -> steady (hooked fd k).
Proof.
  intros H. apply steady_bind; [apply steady_keeps; keeps|intros t]. apply steady_bind; [apply steady_keeps; keeps|intros r].
  destruct (bool_decide _); [apply steady_keeps; keeps|]. apply steady_bind; [apply H|intros; apply steady_keeps; keeps].
Qed.

(** A key of the reading table, whatever happens to the elements, and then one
    of the writing table. *)
Lemma steady_both {A B} x (c : Z -> M B) (k : Z -> B -> M A) :
  (forall i, keeps (c i)) -> (forall i b, keeps (k i b)) ->
  steady (i ← add_keys x; b ← c i; _ ← add_wr_key; k i b).
Proof.
  intros Hc Hk s a s' Hs E. apply bind_inv in E as (i & s1 & E1 & E). apply bind_inv in E as (b & s2 & E2 & E).
  apply bind_inv in E as ([] & s3 & E3 & E4).
  destruct (Hc _ _ _ _ E2) as [H1 H2], (Hk _ _ _ _ _ E4) as [H3 H4]. unfold in_step. rewrite H3, H4. clear E2 E4 H3 H4.
  revert E1 E3. unfold add_keys, add_wr_key, mbind, M_bind, gets, need, modify, mret, M_ret, AdjList.add_key.
  destruct (DArray.add (AdjList.index (fds_datawithrd s)) _) as [[i' d]|] eqn:E1; [|done]. intros [= -> <-].
  destruct (DArray.add (AdjList.index (fds_wr s2)) _) as [[j e]|] eqn:E3; [|done]. intros [= <-].
  assert (He : DArray.shape (AdjList.index (fds_datawithrd s)) = DArray.shape (AdjList.index (fds_wr s2)))
    by (transitivity (wr_shape s); [exact Hs|symmetry; exact H2]).
  destruct (DArray.shape_add _ _ _ (AdjList.mkIndex 0 (-1)) _ _ He E1) as (e' & E & Hd). rewrite E in E3. injection E3 as -> ->.
  exact (eq_trans H1 Hd).
Qed.

Lemma steady_socket domain ty kernel ok junk : steady (socket domain ty kernel ok junk).
Proof.
  unfold socket. destruct (_ || _); [apply steady_keeps; keeps|]. apply steady_bind; [apply steady_keeps; keeps|intros r].
  apply steady_bind; [apply steady_keeps; keeps|intros _].
  intros s a s' Hs E. eapply (steady_both _ (fun i => mret i) (fun i _ => alloc_fd FD_TYPE_SOCKET i)); [intros; keeps..|exact Hs|exact E].
Qed.

Section steady.
Context (g : Z).

Lemma steady_install p k l fl rdma junk env : steady (install g p k l fl rdma junk env).
Proof.
  intros s a s' Hs E.
  eapply (steady_both _ (fun i => _ ← set_file i (fun x => mkFile (ftype x) p (property x));
                                  idx ← conn_buffer k (if rdma then rdma_accept k l env else newbuffer k l);
                                  _ ← add_rd i idx; mret idx)
            (fun i idx => it ← add_wr i idx g;
                          _ ← (if rdma then mret tt else set_my_turn idx i true);
                          _ ← point_wr i it;
                          _ ← push_data idx (Interprocess.mkElement Interprocess.NEW_FD (Interprocess.data_fd_notify i)) [];
                          alloc_fd FD_TYPE_SOCKET i)); [intros; keeps..|exact Hs|].
  apply bind_inv in E as (i & s1 & E1 & E). unfold mbind, M_bind in E |- *. rewrite E1.
  destruct (set_file _ _ s1) as [[[] s2]| |]; [|done..]. destruct (conn_buffer _ _ s2) as [[idx s3]| |]; [|done..].
  destruct (add_rd _ _ s3) as [[[] s4]| |]; [|done..]. exact E.
Qed.

Lemma steady_accept_socket fd fl junk env : steady (accept_socket g fd fl junk env).
Proof.
  unfold accept_socket. apply steady_bind; [apply steady_keeps; keeps|intros [e|]]; [|apply steady_keeps; keeps].
  destruct (Metaqueue.command e); try (apply steady_keeps; keeps; fail).
  destruct (Metaqueue.body e); try (apply steady_keeps; keeps; fail).
  apply steady_bind; [apply steady_keeps; keeps|intros v]. destruct (negb v); [apply steady_keeps; keeps|].
  apply steady_bind; [apply steady_keeps; keeps|intros x].
  destruct (bool_decide _); [|apply steady_keeps; keeps]. destruct (_ =? _); [apply steady_install|apply steady_keeps; keeps].
Qed.

Lemma steady_accept4 fd fl kernel junk env : steady (accept4 g fd fl kernel junk env).
Proof.
  unfold accept4. do 2 (apply steady_bind; [apply steady_keeps; keeps|intros ?]).
  destruct (bool_decide _); [apply steady_keeps; keeps|apply steady_accept_socket].
Qed.

Lemma steady_accept fd kernel junk env : steady (accept g fd kernel junk env).
Proof.
  unfold accept. apply steady_bind; [apply steady_keeps; keeps|intros ?].
  destruct (bool_decide _); [apply steady_keeps; keeps|apply steady_accept4].
Qed.

Lemma keeps_close_list fuel fd p it : keeps (close_list fuel fd p it).
Proof.
  revert it. induction fuel; intros it; cbn [close_list]; [keeps|]. destruct (AdjList.it_end it); [keeps|].
  apply keeps_bind; [keeps|intros rd]. apply keeps_bind; [keeps|intros x]. apply keeps_bind; [keeps|intros _].
  apply (keeps_rd_op (fun rd => AdjList.del_element rd it)); [intros ???; apply AdjList.key_shape_del_element|done].
Qed.
#[local] Hint Resolve keeps_close_list : keeps.

(** The key is deleted from both tables. *)
Lemma steady_del fd : steady (rd ← gets fds_datawithrd;
    rd ← need (AdjList.del_key rd fd);
    _ ← modify (fun s => set_rd s rd);
    wr ← gets fds_wr;
    wr ← need (AdjList.del_key wr fd);
    _ ← modify (fun s => set_wr s wr);
    _ ← delete_fd fd;
    mret 0).
Proof.
  intros s a s' Hs. unfold mbind at 1 2 3 4 5 6, M_bind at 1 2 3 4 5 6, gets, need at 1 2, modify at 1 2, AdjList.del_key.
  destruct (DArray.del (AdjList.index (fds_datawithrd s)) fd) as [d|] eqn:E1; [|done]. simpl.
  destruct (DArray.del (AdjList.index (fds_wr s)) fd) as [e|] eqn:E2; [|done]. simpl. apply steady_keeps; [keeps|].
  destruct (DArray.shape_del _ _ _ _ Hs E1) as (e' & E & Hd). rewrite E2 in E. injection E as ->. exact Hd.
Qed.

Lemma steady_close_socket fd : steady (close_socket fd).
Proof.
  unfold close_socket. apply steady_bind; [apply steady_keeps; keeps|intros v]. destruct (negb v); [apply steady_keeps; keeps|].
  do 4 (apply steady_bind; [apply steady_keeps; keeps|intros ?]). apply steady_del.
Qed.

Lemma steady_close fd kernel : steady (close fd kernel).
Proof.
  unfold close. apply steady_bind; [apply steady_keeps; keeps|intros t].
  apply steady_bind; [apply steady_keeps; keeps|intros r].
  destruct t; first [apply steady_close_socket | apply steady_keeps; unfold epoll_remove; keeps].
Qed.

Lemma steady_connect fd addr kc env peers : steady (connect g fd addr kc env peers).
Proof.
  apply steady_hooked. intros r. destruct (negb _); [apply steady_keeps; keeps|].
  apply steady_bind; [apply steady_keeps; keeps|intros v]. destruct (negb v); [apply steady_keeps; keeps|].
  apply steady_bind; [apply steady_keeps; keeps|intros x]. apply steady_bind; [|intros ?; apply steady_keeps; keeps].
  destruct (isopened _); [|apply steady_keeps; keeps]. apply steady_bind; [apply steady_close|intros; apply steady_keeps; keeps].
Qed.

End steady.

(** ** Every call *)

Section options.
Context (g : Z).

Lemma keeps_setsockopt fd l n v : keeps (setsockopt fd l n v).
Proof. keeps_hooked. Qed.
Lemma keeps_getsockopt fd l n : keeps (getsockopt fd l n).
Proof. keeps_hooked. Qed.
Lemma keeps_name_of p fd : keeps (name_of p fd).
Proof. keeps_hooked. Qed.
Lemma keeps_fcntl fd c fl : keeps (fcntl fd c fl).
Proof. unfold fcntl, fcntl_socket, set_blocking. keeps. Qed.
Lemma keeps_ioctl fd r : keeps (ioctl fd r).
Proof. unfold ioctl, set_blocking. keeps_hooked. Qed.
Lemma keeps_any_read fd n k c m peers : keeps (any_read g fd n k c m peers).
Proof. unfold any_read, read. keeps. Qed.
Lemma keeps_any_write fd l k phys : keeps (any_write g fd l k phys).
Proof. unfold any_write, write. keeps. Qed.
#[local] Hint Resolve keeps_any_read keeps_any_write : keeps.
Lemma keeps_write_out fuel fd buf d w r k phys : keeps (write_out g fuel fd buf d w r k phys).
Proof. revert d w k. induction fuel; intros d w k; cbn [write_out]; keeps. Qed.
#[local] Hint Resolve keeps_write_out : keeps.
Lemma keeps_sendfile_loop fuel o i c t buf kr kw phys ct m peers : keeps (sendfile_loop g fuel o i c t buf kr kw phys ct m peers).
Proof. revert t buf kr kw. induction fuel; intros t buf kr kw; cbn [sendfile_loop]; keeps. Qed.
#[local] Hint Resolve keeps_sendfile_loop : keeps.
Lemma keeps_sendfile fuel o i off c ks buf kr kw phys ct m peers : keeps (sendfile g fuel o i off c ks buf kr kw phys ct m peers).
Proof. unfold sendfile. keeps. Qed.

End options.

Section reachable.
Context (g : Z).

(** A call of the library that returns, or anything that other code does to the
    rest of the thread's data ([step_other]). *)
Inductive step (s : thread) : thread -> Prop :=
  | step_socket domain ty kernel ok junk v s' : socket domain ty kernel ok junk s = Done (v, s') -> step s s'
  | step_bind fd p v s' : bind fd p s = Done (v, s') -> step s s'
  | step_listen fd v s' : listen fd s = Done (v, s') -> step s s'
  | step_shutdown fd v s' : shutdown fd s = Done (v, s') -> step s s'
  | step_close fd kernel v s' : close fd kernel s = Done (v, s') -> step s s'
  | step_connect fd addr kc env peers v s' : connect g fd addr kc env peers s = Done (v, s') -> step s s'
  | step_accept fd kernel junk env v s' : accept g fd kernel junk env s = Done (v, s') -> step s s'
  | step_accept4 fd fl kernel junk env v s' : accept4 g fd fl kernel junk env s = Done (v, s') -> step s s'
  | step_setsockopt fd l n x v s' : setsockopt fd l n x s = Done (v, s') -> step s s'
  | step_getsockopt fd l n v s' : getsockopt fd l n s = Done (v, s') -> step s s'
  | step_name p fd v s' : name_of p fd s = Done (v, s') -> step s s'
  | step_fcntl fd c fl v s' : fcntl fd c fl s = Done (v, s') -> step s s'
  | step_ioctl fd r v s' : ioctl fd r s = Done (v, s') -> step s s'
  | step_recvfrom fd n m peers v s' : recvfrom g fd n m peers s = Done (v, s') -> step s s'
  | step_readv fd l m peers v s' : readv g fd l m peers s = Done (v, s') -> step s s'
  | step_writev fd iov phys v s' : writev g fd iov phys s = Done (v, s') -> step s s'
  | step_sendfile fuel o i off c ks buf kr kw phys ct m peers v s' :
      sendfile g fuel o i off c ks buf kr kw phys ct m peers s = Done (v, s') -> step s s'
  | step_can_read fd v s' : check_sockfd_receive g fd s = Done (v, s') -> step s s'
  | step_can_write fd v s' : check_sockfd_send g fd s = Done (v, s') -> step s s'
  | step_urgent v s' : monitor2proc_hook g s = Done (v, s') -> step s s'
  | step_other s' : fds_datawithrd s' = fds_datawithrd s -> fds_wr s' = fds_wr s -> step s s'.

Lemma step_in_step s s' : step s s' -> in_step s -> in_step s'.
Proof.
  intros H Hs.
  assert (Hk : forall A (c : M A) v, steady c -> c s = Done (v, s') -> in_step s') by (intros A c v Hc; by apply Hc).
  destruct H; [..|unfold in_step, rd_shape, wr_shape in *; congruence]; (eapply Hk; [|eassumption]);
  first [ apply steady_socket | apply steady_close | apply steady_connect | apply steady_accept | apply steady_accept4
        | apply steady_keeps;
          first [ apply keeps_bind_call | apply keeps_listen | apply keeps_shutdown | apply keeps_setsockopt
                | apply keeps_getsockopt | apply keeps_name_of | apply keeps_fcntl | apply keeps_ioctl | apply keeps_recvfrom
                | apply keeps_readv | apply keeps_writev | apply keeps_sendfile | apply keeps_check_sockfd_receive
                | apply keeps_check_sockfd_send | apply keeps_monitor2proc_hook ] ].
Qed.

Lemma init_in_step f s : usocket_init (thread_new f) = Some s -> in_step s.
Proof. unfold usocket_init. simpl. intros [= <-]. vm_compute. reflexivity. Qed.

Lemma shape_isvalid {A B} (d : DArray.darray_t A) (e : DArray.darray_t B) i :
  DArray.shape d = DArray.shape e -> DArray.isvalid d i = DArray.isvalid e i.
Proof.
  unfold DArray.shape, DArray.isvalid. intros [= H1 H2 H3 H4 H5]. rewrite H4. destruct (_ <? _); [done|].
  pose proof (DArray.flags_lookup _ _ (Z.to_nat (u32 i)) H1) as Hf.
  destruct (DArray.data d !! _), (DArray.data e !! _); simplify_eq/=; auto.
Qed.

(** C34: in every state that calls of the library lead to from [usocket_init], the
    two tables have the same descriptors, and the next descriptor that the
    reading table hands out is the one the writing table hands out, which
    [socket] and [accept4] do not look at. *)
Theorem tables_in_step f s0 s :
  usocket_init (thread_new f) = Some s0 -> rtc step s0 s ->
  (forall fd, AdjList.is_keyvalid (fds_datawithrd s) fd = AdjList.is_keyvalid (fds_wr s) fd) /\
  (forall x fd rd, AdjList.add_key (fds_datawithrd s) x = Some (fd, rd) ->
     exists wr, AdjList.add_key (fds_wr s) 0 = Some (fd, wr)).
Proof.
  intros H0 H. assert (Hs : in_step s).
  { apply init_in_step in H0. induction H as [|s0 s1 s2 H1 _ IH]; eauto using step_in_step. }
  split; [intros fd; by apply shape_isvalid|]. intros x fd rd. unfold AdjList.add_key.
  destruct (DArray.add (AdjList.index (fds_datawithrd s)) _) as [[n d]|] eqn:E; [|done]. intros [= -> <-].
  destruct (DArray.shape_add _ _ _ (AdjList.mkIndex 0 (-1)) _ _ Hs E) as (e & -> & _). eauto.
Qed.

End reachable.

(** After a [socket], another one and a [close] of the first. *)
Definition after {A} (c : M A) (s : thread) : thread := match c s with Done (_, s') => s' | _ => s end.
Definition demo_fds : fdmap := default fdmap_new (fd_remapping_init fdmap_new 3).
Definition demo_0 : thread := default (thread_new demo_fds) (usocket_init (thread_new demo_fds)).
Definition demo_1 : thread := after (socket AF_INET SOCK_STREAM 0 true inhabitant) demo_0.
Definition demo_2 : thread := after (socket AF_INET SOCK_STREAM 0 true inhabitant) demo_1.
Definition demo_3 : thread := after (close 3 (fun _ => 0)) demo_2.

Lemma tables_in_step_witness :
  usocket_init (thread_new demo_fds) = Some demo_0 /\
  (AdjList.is_keyvalid (fds_datawithrd demo_3) 0 = false /\ AdjList.is_keyvalid (fds_datawithrd demo_3) 1 = true) /\
  forall fd, AdjList.is_keyvalid (fds_datawithrd demo_3) fd = AdjList.is_keyvalid (fds_wr demo_3) fd.
Proof.
  assert (H0 : usocket_init (thread_new demo_fds) = Some demo_0) by (vm_compute; reflexivity).
  split; [exact H0|]. split; [vm_compute; split; reflexivity|]. apply (tables_in_step 0 demo_fds demo_0 demo_3 H0).
  eapply rtc_l; [apply (step_socket _ _ AF_INET SOCK_STREAM 0 true inhabitant 3 demo_1); vm_compute; reflexivity|].
  eapply rtc_l; [apply (step_socket _ _ AF_INET SOCK_STREAM 0 true inhabitant 4 demo_2); vm_compute; reflexivity|].
  eapply rtc_l; [apply (step_close _ _ 3 (fun _ => 0) 0 demo_3); vm_compute; reflexivity|]. apply rtc_refl.
Defined.

End ProtoTables.
