(* ===== verification/ProtoCalls.v ===== *)
(** * Single calls of the prototype's socket interface

    What the calls of [ProtoSock] do on the branches that need no peer: the
    errors of a descriptor that is not in use, and the places where a call
    differs from the interface it stands for. *)

From Stdlib Require Import ZArith Lia.
From stdpp Require Import numbers base gmap list.
From S2P Require Import Prelude DArray AdjList LocklessQueue Metaqueue IpBuffer Interprocess ProtoFd ProtoSock ProtoTables.
Import ProtoFd ProtoSock ProtoTables.

Module ProtoCalls.

(** A virtual descriptor that the library serves as a socket. *)
Definition socket_fd (s : thread) (v fd : Z) : Prop :=
  get_fd_type (fdm s) v = Some FD_TYPE_SOCKET /\ get_real_fd (fdm s) v = Some fd.

Lemma socket_lookup {A} (k : fd_type_t -> Z -> M A) s v fd :
  socket_fd s v fd -> (t ← fd_type v; r ← real v; k t r) s = k FD_TYPE_SOCKET fd s.
Proof. intros [H1 H2]. unfold fd_type, real, mbind, M_bind, gets, need. by rewrite H1, H2. Qed.

Lemma hooked_socket {A} (k : Z -> M A) s v fd :
  socket_fd s v fd -> hooked v k s = (a ← k fd; mret (Lib a)) s.
Proof. intros H. unfold hooked. by rewrite (socket_lookup _ _ _ _ H). Qed.

(** ** Descriptors that are not in use *)

Section errors.
Context (g : Z).
Variables (s : thread) (v fd : Z).
Hypothesis Hfd : socket_fd s v fd.
Hypothesis Hbad : AdjList.is_keyvalid (fds_datawithrd s) fd = false.
Hypothesis Hstep : in_step s.

Definition bad : thread := set_error s (Some EBADF).

(** The computation fails at once. *)
Definition fails {A} (c : M A) (r : A) : Prop := c s = Done (r, bad).

Lemma guard_fails {A} (k e : M A) r : fails e r -> fails (b ← keyvalid fd; if negb b then e else k) r.
Proof. intros H. unfold fails, keyvalid, mbind, M_bind, gets, mret, M_ret. by rewrite Hbad. Qed.

Lemma hooked_fails {A} (k : Z -> M A) (r : A) : fails (k fd) r -> fails (hooked v k) (Lib r).
Proof. unfold fails. intros H. rewrite (hooked_socket _ _ _ _ Hfd). unfold mbind, M_bind. by rewrite H. Qed.

Lemma recv_fails n mapped peers : fails (recv_socket g fd n mapped peers) (mkReceived (-1) [] []).
Proof. by apply guard_fails. Qed.

Lemma write_fails iov phys : fails (write_socket g fd iov phys) (-1).
Proof.
  assert (E : DArray.isvalid (AdjList.index (fds_wr s)) fd = false)
    by (rewrite <- (shape_isvalid (AdjList.index (fds_datawithrd s))) by exact Hstep; exact Hbad).
  unfold fails, write_socket, wr_begin, mbind, M_bind, gets, need, AdjList.begin. by rewrite E.
Qed.

Lemma fcntl_fails cmd flags : fails (fcntl v cmd flags) (Lib (-1)).
Proof.
  unfold fails, fcntl. rewrite (socket_lookup _ _ _ _ Hfd). unfold mbind at 1, M_bind at 1, fcntl_socket.
  by rewrite guard_fails with (r := -1).
Qed.

Lemma close_fails kernel : fails (close v kernel) (-1).
Proof. unfold fails, close. rewrite (socket_lookup _ _ _ _ Hfd). by apply guard_fails. Qed.

(** The calls that do not look at the table, or too late. *)
Lemma bind_unchecked p : bind v p s =
  if AdjList.get_key (fds_datawithrd s) fd is Some _ then
    Done (Lib 0, set_rd s (AdjList.update_key (fds_datawithrd s) fd (fun x => mkFile (ftype x) (peer_fd x)
      (mkProp (is_addrreuse (property x)) (is_blocking (property x)) (is_accept_command_sent (property x)) p (isopened (property x))))))
  else Fatal.
Proof.
  unfold bind. rewrite (hooked_socket _ _ _ _ Hfd). unfold set_prop, set_file, file, mbind, M_bind, gets, need, modify, mret, M_ret.
  by destruct (AdjList.get_key _ _).
Qed.

Lemma accept_late flags kernel junk env body l : from_monitor s = Some (Metaqueue.mkCtl Metaqueue.RES_NEWCONNECTION body) :: l ->
  (exists key cfd cport loc crdma, body = Metaqueue.resp_connect key cfd cport loc crdma) ->
  accept4 g v flags kernel junk env s = Done (-1, set_error (set_from s l) (Some EBADF)).
Proof.
  intros Hl (key & cfd & cport & loc & crdma & ->). unfold accept4. rewrite (socket_lookup _ _ _ _ Hfd). rewrite bool_decide_eq_false_2 by done.
  unfold accept_socket, next_connection, poll_monitor, mbind, M_bind, gets. rewrite Hl. simpl.
  unfold keyvalid, mbind, M_bind, gets, mret, M_ret. simpl. by rewrite Hbad.
Qed.

End errors.

Lemma read_all_fails g s fd lens mapped peers :
  AdjList.is_keyvalid (fds_datawithrd s) fd = false ->
  exists t rs s', read_all g fd lens mapped peers s = Done ((t, negb (bool_decide (lens = [])), rs), s')
    /\ s' = if bool_decide (lens = []) then s else bad s.
Proof.
  revert s peers. induction lens as [|n lens IH]; intros s peers Hbad; [by eexists _, _, _|].
  destruct (IH (bad s) (tail peers) Hbad) as (t & rs & s' & E & Hs').
  cbn [read_all]. unfold mbind, M_bind. rewrite (recv_fails g s fd Hbad), E. simpl. eexists _, _, _. split; [reflexivity|].
  rewrite Hs'. by destruct (bool_decide (lens = [])).
Qed.

(** C40: on a socket whose descriptor is not in use, with reading and writing
    table in step, [listen], [close], [getsockname], [getpeername], [fcntl],
    [ioctl], [recvfrom] and [writev] (and with them [read], [recv], [write],
    [send], [sendto] and [sendmsg]), [connect] to an [AF_INET] address, [readv] of
    at least one part and the [SO_REUSEPORT] option fail with [EBADF] and change
    nothing else; the readiness checks report an error.  The other calls do not:
    [connect] to another family gives [EAFNOSUPPORT], [pread] and [pwrite]
    [EINVAL]; [shutdown], the other options and an empty [readv] succeed; [bind]
    writes the port into the unused entry, or outside the table; and [accept4]
    fails with [EBADF] only after it has taken a new connection from the monitor,
    which is lost. *)
Theorem bad_descriptor g s v fd addr kernel env peers mapped iov phys n l lens :
  socket_fd s v fd -> AdjList.is_keyvalid (fds_datawithrd s) fd = false -> in_step s ->
  (listen v s = Done (Lib (-1), bad s)
  /\ close v kernel s = Done (-1, bad s)
  /\ connect g v addr kernel env peers s = Done (Lib (-1), if sa_family addr =? AF_INET then bad s else set_error s (Some EAFNOSUPPORT))
  /\ setsockopt v SOL_SOCKET SO_REUSEPORT n s = Done (Lib (-1), bad s)
  /\ getsockopt v SOL_SOCKET SO_REUSEPORT s = Done (Lib (-1, None, 0), bad s)
  /\ getsockname v s = Done (Lib (-1, None), bad s)
  /\ getpeername v s = Done (Lib (-1, None), bad s)
  /\ fcntl v n l s = Done (Lib (-1), bad s)
  /\ ioctl v n s = Done (Lib (-1), bad s)
  /\ recvfrom g v n mapped peers s = Done (Lib (mkReceived (-1) [] []), bad s)
  /\ writev g v iov phys s = Done (Lib (-1), bad s)
  /\ check_sockfd_receive g fd s = Done (POLLERR, bad s)
  /\ check_sockfd_send g fd s = Done (POLLERR, bad s)
  /\ exists rs, readv g v lens mapped [] s = if decide (lens = []) then Done (Lib (0, []), s) else Done (Lib (-1, rs), bad s))
  /\ at_offset v s = Done (Lib (-1), set_error s (Some EINVAL))
  /\ shutdown v s = Done (Lib 0, s)
  /\ (forall level name x, reuse_option level name = false ->
       setsockopt v level name x s = Done (Lib 0, s) /\ getsockopt v level name s = Done (Lib (0, None, 0), s))
  /\ (forall p, bind v p s =
       if AdjList.get_key (fds_datawithrd s) fd is Some _ then
         Done (Lib 0, set_rd s (AdjList.update_key (fds_datawithrd s) fd (fun x => mkFile (ftype x) (peer_fd x)
           (mkProp (is_addrreuse (property x)) (is_blocking (property x)) (is_accept_command_sent (property x)) p (isopened (property x))))))
       else Fatal)
  /\ (forall flags junk key cfd cport loc crdma rest,
       from_monitor s = Some (Metaqueue.mkCtl Metaqueue.RES_NEWCONNECTION (Metaqueue.resp_connect key cfd cport loc crdma)) :: rest ->
       accept4 g v flags kernel junk env s = Done (-1, set_error (set_from s rest) (Some EBADF))).
Proof.
  intros Hfd Hbad Hstep. split_and!.
  - by eapply hooked_fails, guard_fails.
  - by eapply close_fails.
  - destruct (Z.eqb_spec (sa_family addr) AF_INET) as [Ha|Ha].
    + eapply hooked_fails; [done|]. rewrite Ha. by apply guard_fails.
    + unfold connect. rewrite (hooked_socket _ _ _ _ Hfd). by rewrite (proj2 (Z.eqb_neq _ _) Ha).
  - by eapply hooked_fails, guard_fails.
  - by eapply hooked_fails, guard_fails.
  - by eapply hooked_fails, guard_fails.
  - by eapply hooked_fails, guard_fails.
  - by eapply fcntl_fails.
  - by eapply hooked_fails, guard_fails.
  - by eapply hooked_fails, recv_fails.
  - by eapply hooked_fails, write_fails.
  - by apply guard_fails.
  - by apply guard_fails.
  - destruct (read_all_fails g s fd lens mapped [] Hbad) as (t & rs & s' & E & Hs'). exists rs. unfold readv. destruct (decide (lens = [])) as [->|Hl].
    + by rewrite (hooked_socket _ _ _ _ Hfd).
    + rewrite bool_decide_false in Hs', E by done. eapply hooked_fails; [done|]. unfold fails, mbind, M_bind. rewrite E, Hs'. done.
  - unfold at_offset. by rewrite (hooked_socket _ _ _ _ Hfd).
  - unfold shutdown. by rewrite (hooked_socket _ _ _ _ Hfd).
  - intros level name x Ho. unfold setsockopt, getsockopt. by rewrite !(hooked_socket _ _ _ _ Hfd), Ho.
  - intros p. by apply bind_unchecked.
  - intros flags junk key cfd cport loc crdma rest Hl. eapply accept_late; [done|done|exact Hl|by do 5 eexists].
Qed.

(** A socket after it was closed. *)
Definition demo_segment : segment :=
  let q := IpBuffer.avail_end false (LocklessQueue.mkShm [] false) in
  mkSegment (fun _ => Interprocess.mkWire (LocklessQueue.mkShm [] false) (LocklessQueue.mkShm [] false) []
                        (IpBuffer.mkAvailq q q (LocklessQueue.mkShm [] false))) (fun _ => ∅).

Lemma bad_descriptor_witness :
  recvfrom 0 3 10 id [] demo_3 = Done (Lib (mkReceived (-1) [] []), bad demo_3)
  /\ close 3 (fun _ => 0) demo_3 = Done (-1, bad demo_3).
Proof.
  destruct (bad_descriptor 0 demo_3 3 0 (mkAddr AF_INET 0 0) (fun _ => 0)
    (mkRdmaEnv None [] [] 0 0 0 0 0 demo_segment) [] id [] (fun _ => []) 10 0 [])
    as ((_ & H1 & _ & _ & _ & _ & _ & _ & _ & H2 & _) & _).
  - split; vm_compute; reflexivity.
  - vm_compute. reflexivity.
  - vm_compute. reflexivity.
  - split; [exact H2|exact H1].
Defined.

(** ** Differences from the interface *)

(** [close] gives the number of the socket in the tables back to the descriptors,
    not the one the program knows: after a socket is closed the next descriptor
    is 0, the number of the standard input, which is open. *)
Lemma close_frees_another_descriptor : exists s',
  get_fd_type (fdm demo_2) 0 = Some FD_TYPE_SYSTEM /\ close 3 (fun _ => 0) demo_2 = Done (0, demo_3)
  /\ alloc_fd FD_TYPE_SYSTEM 7 demo_3 = Done (0, s').
Proof. eexists. split; [vm_compute; reflexivity|]. split; [vm_compute; reflexivity|]. vm_compute. reflexivity. Qed.

(** [F_GETFL] reports a socket that blocks as one that does not. *)
Lemma getfl_inverted s v fd x flags :
  socket_fd s v fd -> AdjList.is_keyvalid (fds_datawithrd s) fd = true -> AdjList.get_key (fds_datawithrd s) fd = Some x ->
  fcntl v F_GETFL flags s = Done (Lib (if is_blocking (property x) then O_NONBLOCK else O_RDWR), s).
Proof.
  intros Hfd Hv Hx. unfold fcntl. rewrite (socket_lookup _ _ _ _ Hfd).
  unfold fcntl_socket, keyvalid, file, mbind, M_bind, gets, need, mret, M_ret. rewrite Hv. simpl. by rewrite Hx.
Qed.

(** The error of a refused [listen] is not stored. *)
Lemma listen_error_lost s v fd x body l :
  socket_fd s v fd -> AdjList.is_keyvalid (fds_datawithrd s) fd = true -> AdjList.get_key (fds_datawithrd s) fd = Some x ->
  from_monitor s = Some (Metaqueue.mkCtl Metaqueue.RES_ERROR body) :: l ->
  exists s', listen v s = Done (Lib (-1), s') /\ last_error s' = last_error s.
Proof.
  intros Hfd Hv Hx Hm. unfold listen. rewrite (hooked_socket _ _ _ _ Hfd).
  unfold keyvalid, set_file, file, mbind, M_bind, gets, need, mret, M_ret, modify. rewrite Hv. simpl. rewrite Hx. simpl.
  destruct (AdjList.get_key (AdjList.update_key _ _ _) fd) as [y|] eqn:Ey.
  - unfold push_line, wait_line, modify, mbind, M_bind, gets. destruct s. simpl in Hm. subst. simpl. eexists. split; reflexivity.
  - exfalso. revert Ey Hx. unfold AdjList.get_key, AdjList.update_key, DArray.get, DArray.update. simpl.
    rewrite list_lookup_alter, decide_True by done. by destruct (DArray.data _ !! _).
Qed.

End ProtoCalls.
