(* ===== verification/ProtoPoll.v ===== *)
(** * Waiting for events in the prototype ([lib/poll_lib.cpp])

    [poll], [select] and [epoll] of the intercepted library: descriptors of the
    kernel are asked for with the kernel's [poll], and only in every 65536th
    call; sockets are looked at with the checks of [ProtoSock]. *)

From Stdlib Require Import ZArith Lia.
From stdpp Require Import numbers base gmap list.
From S2P Require Import Prelude DArray AdjList LocklessQueue Metaqueue IpBuffer Interprocess ProtoFd ProtoSock.
Import ProtoFd ProtoSock.

Module ProtoPoll.

Section calls.
Context (garbage : Z).

(** What is outside the library during one turn of a waiting loop: the kernel's
    [poll] of one descriptor for some events, the clock afterwards in
    nanoseconds, and what the peers do to the memory. *)
Record moment := mkMoment {
  kpoll : Z -> Z -> Z;
  clock : Z;
  others : gmap Z segment -> gmap Z segment
}.

Definition asks (events e : Z) : bool := negb (Z.land events e =? 0).

Definition check_sockfd_event (sockfd events : Z) : M Z :=
  r ← (if asks events POLLIN then check_sockfd_receive garbage sockfd else mret 0);
  w ← (if asks events POLLOUT then check_sockfd_send garbage sockfd else mret 0);
  mret (Z.lor r w).

Definition SYS_POLL_THROTTLE_FACTOR : Z := 65536.

Definition check_fd_event (k : Z -> Z -> Z) (fd events : Z) : M Z :=
  t ← fd_type fd;
  if bool_decide (t = FD_TYPE_SYSTEM) then
    c ← gets sys_poll_throttle_counter;
    if c mod SYS_POLL_THROTTLE_FACTOR =? 0 then r ← real fd; mret (k r events) else mret 0
  else
    sockfd ← real fd;
    check_sockfd_event sockfd events.

Definition tick : M unit := modify (fun s => set_throttle s (u32 (sys_poll_throttle_counter s + 1))).

(** Between two turns. *)
Definition pass (m : moment) : M unit := modify (fun s => set_mem s (others m (mem s))).

(** The milliseconds between two times, truncated. *)
Definition diff_ms (end_ begin_ : Z) : Z := Z.quot (end_ - begin_) 1000000.

(** ** [poll] *)

Record pollfd := mkPollfd { pfd : Z; pevents : Z; revents : Z }.

Fixpoint poll_round (k : Z -> Z -> Z) (fds : list pollfd) : M (list pollfd * Z) :=
  match fds with
  | [] => mret ([], 0)
  | p :: fds =>
      r ← check_fd_event k (pfd p) (pevents p);
      '(fds, n) ← poll_round k fds;
      mret (mkPollfd (pfd p) (pevents p) r :: fds, if r =? 0 then n else 1 + n)
  end.

Fixpoint poll_loop (timeout begin_ : Z) (fds : list pollfd) (ms : list moment) : M (list pollfd * Z) :=
  match ms with
  | [] => spins
  | m :: ms =>
      '(fds, n) ← poll_round (kpoll m) fds;
      if negb (n =? 0) then mret (fds, n)
      else if timeout =? 0 then mret (fds, n)
      else if timeout <=? diff_ms (clock m) begin_ then mret (fds, n)
      else _ ← pass m; poll_loop timeout begin_ fds ms
  end.

(** [start] is the time at the beginning; it is only taken for a positive
    timeout, otherwise the variable holds [junk]. *)
Definition poll (fds : list pollfd) (timeout start junk : Z) (ms : list moment) : M (list pollfd * Z) :=
  '(fds, n) ← poll_loop timeout (if 0 <? timeout then start else junk) fds ms;
  _ ← tick;
  mret (fds, n).

Definition ppoll (fds : list pollfd) (tv_sec tv_nsec start junk : Z) (ms : list moment) : M (list pollfd * Z) :=
  poll fds (swrap32 (Z.quot (tv_sec * 1000000000 + tv_nsec) 1000000)) start junk ms.

(** ** [select] *)

Definition isset (s : option (gset Z)) (fd : Z) : bool := if s is Some s then bool_decide (fd ∈ s) else false.

Definition fd_clr (fd : Z) (s : option (gset Z)) : option (gset Z) := (fun s => s ∖ {[fd]}) <$> s.

(** The [if] in one set: its condition is on the events asked for. *)
Definition select_in (events e fd : Z) (s : option (gset Z)) : option (gset Z) * Z :=
  if isset s fd then (if asks events e then (s, 1) else (fd_clr fd s, 0)) else (s, 0).

Definition fd_sets : Type := option (gset Z) * option (gset Z) * option (gset Z).

Definition select_events (sets : fd_sets) (fd : Z) : Z :=
  let '(r, w, x) := sets in
  Z.lor (Z.lor (if isset r fd then POLLIN else 0) (if isset w fd then POLLOUT else 0)) (if isset x fd then POLLERR else 0).

Fixpoint select_fds (k : Z -> Z -> Z) (n : nat) (fd : Z) (sets : fd_sets) : M (fd_sets * Z) :=
  match n with
  | O => mret (sets, 0)
  | S n =>
      let events := select_events sets fd in
      if events =? 0 then select_fds k n (fd + 1) sets
      else
        _ ← check_fd_event k fd events;
        let '(r, w, x) := sets in
        let '(r, a) := select_in events POLLIN fd r in
        let '(w, b) := select_in events POLLOUT fd w in
        let '(x, c) := select_in events POLLERR fd x in
        '(sets, m) ← select_fds k n (fd + 1) (r, w, x);
        mret (sets, a + b + c + m)
  end.

Definition select_nonblock (k : Z -> Z -> Z) (nfds : Z) (sets : fd_sets) : M (fd_sets * Z) :=
  '(sets, n) ← select_fds k (Z.to_nat nfds) 0 sets;
  _ ← tick;
  mret (sets, n).

(** The timeout is a pair of seconds and microseconds. *)
Fixpoint select_loop (nfds : Z) (timeout : option (Z * Z)) (begin_ : Z) (sets : fd_sets) (ms : list moment) : M (fd_sets * Z) :=
  match ms with
  | [] => spins
  | m :: ms =>
      '(sets, n) ← select_nonblock (kpoll m) nfds sets;
      if negb (n =? 0) then mret (sets, n)
      else
        match timeout with
        | None => mret (sets, n)
        | Some (sec, usec) =>
            if sec * 1000000 + usec <=? 1000 * diff_ms (clock m) begin_ then mret (sets, n)
            else _ ← pass m; select_loop nfds timeout begin_ sets ms
        end
  end.

Definition select (nfds : Z) (sets : fd_sets) (timeout : option (Z * Z)) (start junk : Z) (ms : list moment) : M (fd_sets * Z) :=
  select_loop nfds timeout (if timeout is Some _ then start else junk) sets ms.

Definition pselect (nfds : Z) (sets : fd_sets) (timeout : option (Z * Z)) (start : Z) (ms : list moment) : M (fd_sets * Z) :=
  select nfds sets (Some (if timeout is Some (sec, nsec) then (sec, Z.quot nsec 1000) else (0, 0))) start start ms.

(** ** [epoll] *)

Definition EPOLL_CTL_ADD : Z := 1.
Definition EPOLL_CTL_DEL : Z := 2.
Definition EPOLL_CTL_MOD : Z := 3.
Definition EPOLLIN : Z := 1.
Definition EPOLLOUT : Z := 4.
Definition EPOLLERR : Z := 8.

Definition epoll_create (size : Z) : M Z :=
  if size <=? 0 then fail EINVAL
  else
    fd ← alloc_fd FD_TYPE_EPOLL 0;
    _ ← modify (fun s => set_epoll s (<[fd := ∅]> (epoll_fds s)));
    mret fd.

Definition epoll_create1 (flags : Z) : M Z := if flags <? 0 then fail EINVAL else epoll_create 1.

Definition epoll_ctl (epfd op fd : Z) (event : epoll_event) : M Z :=
  sets ← gets epoll_fds;
  match sets !! epfd with
  | None => fail EBADF
  | Some set =>
      t ← fd_type fd;
      if bool_decide (t = FD_TYPE_UNKNOWN) then fail EBADF
      else
        _ ← (if (op =? EPOLL_CTL_ADD) || (op =? EPOLL_CTL_MOD)
             then modify (fun s => set_epoll s (<[epfd := <[fd := event]> set]> (epoll_fds s)))
             else if op =? EPOLL_CTL_DEL
             then modify (fun s => set_epoll s (<[epfd := delete fd set]> (epoll_fds s)))
             else mret tt);
        mret 0
  end.

(** The events of one interface in terms of the other. *)
Definition renamed (events : Z) (names : list (Z * Z)) : Z :=
  foldr (fun p acc => Z.lor acc (if asks events p.1 then p.2 else 0)) 0 names.
Definition poll_of (epoll_events : Z) : Z := renamed epoll_events [(EPOLLIN, POLLIN); (EPOLLOUT, POLLOUT); (EPOLLERR, POLLERR)].
Definition epoll_of (poll_events : Z) : Z := renamed poll_events [(POLLIN, EPOLLIN); (POLLOUT, EPOLLOUT); (POLLERR, EPOLLERR)].

(** [order] lists a set the way the hash table is walked. *)
Section hash.
Context (order : gmap Z epoll_event -> list (Z * epoll_event)).

(** The loop; the limit is looked at after an event is stored. *)
Fixpoint epoll_scan (k : Z -> Z -> Z) (l : list (Z * epoll_event)) (return_events maxevents : Z) : M (list epoll_event) :=
  match l with
  | [] => mret []
  | (fd, ev) :: l =>
      r ← check_fd_event k fd (poll_of (events ev));
      if r =? 0 then epoll_scan k l return_events maxevents
      else
        rest ← (if maxevents <=? return_events + 1 then mret [] else epoll_scan k l (return_events + 1) maxevents);
        mret (mkEvent (epoll_of r) (udata ev) :: rest)
  end.

(** The result, and the events that are stored. *)
Definition epoll_wait_nonblock (k : Z -> Z -> Z) (epfd maxevents : Z) : M (Z * list epoll_event) :=
  sets ← gets epoll_fds;
  match sets !! epfd with
  | None => r ← fail EBADF; mret (r, [])
  | Some set =>
      l ← epoll_scan k (order set) 0 maxevents;
      _ ← tick;
      mret (Z.of_nat (length l), l)
  end.

Fixpoint epoll_loop (epfd maxevents timeout begin_ : Z) (ms : list moment) : M (Z * list epoll_event) :=
  match ms with
  | [] => spins
  | m :: ms =>
      '(n, l) ← epoll_wait_nonblock (kpoll m) epfd maxevents;
      if negb (n =? 0) then mret (n, l)
      else if timeout =? 0 then mret (n, l)
      else if timeout <? 0 then _ ← pass m; epoll_loop epfd maxevents timeout begin_ ms
      else if timeout <=? diff_ms (clock m) begin_ then mret (n, l)
      else _ ← pass m; epoll_loop epfd maxevents timeout begin_ ms
  end.

Definition epoll_wait (epfd maxevents timeout start junk : Z) (ms : list moment) : M (Z * list epoll_event) :=
  epoll_loop epfd maxevents timeout (if 0 <? timeout then start else junk) ms.

Definition epoll_pwait := epoll_wait.

End hash.
End calls.

(** ** Descriptors of the kernel *)

Section system.
Context (garbage : Z).
Implicit Types (s : thread) (k : Z -> Z -> Z) (l : list (Z * epoll_event * Z)).

(** A descriptor of the kernel and its real number. *)
Definition sysfd (f : fdmap) (fd r : Z) : Prop :=
  get_fd_type f fd = Some FD_TYPE_SYSTEM /\ get_real_fd f fd = Some r.

Definition due s : bool := sys_poll_throttle_counter s mod SYS_POLL_THROTTLE_FACTOR =? 0.

Lemma check_system k fd events s r :
  sysfd (fdm s) fd r -> check_fd_event garbage k fd events s = Done (if due s then k r events else 0, s).
Proof.
  intros [H1 H2]. unfold check_fd_event, fd_type, real, due, mbind, M_bind, gets, need. rewrite H1. simpl.
  destruct (_ =? 0); [|done]. rewrite H2. done.
Qed.

(** The events of system descriptors, each with its real number. *)
Definition ready k (l : list (Z * epoll_event * Z)) : list epoll_event :=
  omap (fun p => let x := k p.2 (poll_of (events p.1.2)) in
                 if x =? 0 then None else Some (mkEvent (epoll_of x) (udata p.1.2))) l.

Definition all_system s (l : list (Z * epoll_event * Z)) : Prop := Forall (fun p => sysfd (fdm s) p.1.1 p.2) l.

Lemma scan_system k (l : list (Z * epoll_event * Z)) n mx s :
  all_system s l -> 0 <= n ->
  epoll_scan garbage k l.*1 n mx s =
    Done (if due s then take (Z.to_nat (Z.max 1 (mx - n))) (ready k l) else [], s).
Proof.
  intros H. revert n. induction H as [|[[fd ev] r] l Hfd Hl IH]; intros n Hn; cbn [fmap list_fmap epoll_scan].
  { unfold ready. simpl. rewrite take_nil. by destruct (due s). }
  unfold mbind, M_bind. simpl in Hfd |- *. rewrite (check_system _ _ _ _ _ Hfd). destruct (due s) eqn:Hd; simpl; [|by apply IH].
  destruct (k r _ =? 0); [by rewrite IH|].
  destruct (mx <=? n + 1) eqn:E.
  - replace (Z.to_nat (Z.max 1 (mx - n))) with 1%nat by lia. done.
  - rewrite IH by lia. replace (Z.to_nat (Z.max 1 (mx - n))) with (S (Z.to_nat (Z.max 1 (mx - (n + 1))))) by lia. done.
Qed.

Lemma due_tick s n : (sys_poll_throttle_counter s + n) mod SYS_POLL_THROTTLE_FACTOR = 0 ->
  (u32 (sys_poll_throttle_counter s + 1) + (n - 1)) mod SYS_POLL_THROTTLE_FACTOR = 0.
Proof.
  intros H. unfold SYS_POLL_THROTTLE_FACTOR, uwrap in *. rewrite <- Zplus_mod_idemp_l.
  rewrite Z.mod_mod_divide by (by exists 65536).
  rewrite Zplus_mod_idemp_l. by replace (sys_poll_throttle_counter s + 1 + (n - 1)) with (sys_poll_throttle_counter s + n) by lia.
Qed.

Section epoll.
Context (order : gmap Z epoll_event -> list (Z * epoll_event)).

(** A set whose descriptors are the kernel's. *)
Definition system_set s epfd (l : list (Z * epoll_event * Z)) : Prop :=
  exists set, epoll_fds s !! epfd = Some set /\ order set = l.*1 /\ all_system s l.

Lemma system_set_step s epfd l m c : system_set s epfd l -> system_set (set_mem (set_throttle s c) m) epfd l.
Proof. done. Qed.

Lemma nonblock_system k s epfd mx l : system_set s epfd l ->
  epoll_wait_nonblock garbage order k epfd mx s =
    (let evs := if due s then take (Z.to_nat (Z.max 1 mx)) (ready k l) else [] in
     Done ((Z.of_nat (length evs), evs), set_throttle s (u32 (sys_poll_throttle_counter s + 1)))).
Proof.
  intros (set & H1 & H2 & H3). unfold epoll_wait_nonblock, mbind, M_bind, gets. rewrite H1, H2, (scan_system _ _ 0) by done.
  by rewrite Z.sub_0_r.
Qed.

Lemma epoll_turns (n : nat) ms s epfd mx timeout b l :
  system_set s epfd l -> timeout < 0 -> (n < length ms)%nat -> Z.of_nat n < SYS_POLL_THROTTLE_FACTOR ->
  (sys_poll_throttle_counter s + Z.of_nat n) mod SYS_POLL_THROTTLE_FACTOR = 0 ->
  Forall (fun m => ready (kpoll m) l <> []) ms ->
  exists m s', m ∈ ms /\ let evs := take (Z.to_nat (Z.max 1 mx)) (ready (kpoll m) l) in
    epoll_loop garbage order epfd mx timeout b ms s = Done ((Z.of_nat (length evs), evs), s').
Proof.
  revert ms s. induction n as [|n IH]; intros ms s Hs Ht Hn Hf Hc Hr; destruct Hr as [|m ms Hm Hr]; simpl in Hn; try lia.
  all: cbn [epoll_loop]; unfold mbind at 1, M_bind at 1; rewrite (nonblock_system _ _ _ _ _ Hs); cbv zeta beta iota.
  - assert (Hd : due s = true) by (unfold due; rewrite <- Hc; apply Z.eqb_eq; f_equal; lia). rewrite Hd.
    exists m. eexists. split; [left|]. destruct (ready (kpoll m) l) as [|e evs]; [done|].
    destruct (Z.to_nat (Z.max 1 mx)) as [|k] eqn:E; [lia|]. simpl. done.
  - destruct (due s) eqn:Hd.
    + exists m. eexists. split; [left|]. destruct (ready (kpoll m) l) as [|e evs]; [done|].
      destruct (Z.to_nat (Z.max 1 mx)) as [|k] eqn:E; [lia|]. simpl. done.
    + simpl. destruct (timeout =? 0) eqn:E0; [lia|]. destruct (timeout <? 0) eqn:E1; [|lia].
      destruct (IH ms (set_mem (set_throttle s (u32 (sys_poll_throttle_counter s + 1))) (others m (mem s)))) as (m' & s' & Hin & E);
        [by apply system_set_step|done|lia|lia| |done|].
      * pose proof (due_tick s (Z.of_nat (S n)) Hc) as Hk. by replace (Z.of_nat (S n) - 1) with (Z.of_nat n) in Hk by lia.
      * exists m', s'. split; [by right|]. exact E.
Qed.

(** [epoll_wait] without a timeout on descriptors of the kernel returns as
    soon as the counter of calls comes to a multiple of 65536, so after at most
    65536 turns if one of the descriptors stays ready, with the events of the
    descriptors that the kernel reports, up to [maxevents] of them and at least
    one. *)
Theorem epoll_system_ready s epfd maxevents timeout start junk ms l :
  system_set s epfd l -> timeout < 0 -> 0 <= sys_poll_throttle_counter s < 2 ^ 32 ->
  65536 <= Z.of_nat (length ms) -> Forall (fun m => ready (kpoll m) l <> []) ms ->
  exists m s', m ∈ ms /\ let evs := take (Z.to_nat (Z.max 1 maxevents)) (ready (kpoll m) l) in
    epoll_wait garbage order epfd maxevents timeout start junk ms s = Done ((Z.of_nat (length evs), evs), s').
Proof.
  intros Hs Ht Hc Hm Hr. set (c := sys_poll_throttle_counter s) in *.
  assert (0 <= (- c) mod 65536 < 65536) by (apply Z.mod_pos_bound; lia).
  apply (epoll_turns (Z.to_nat ((- c) mod 65536))); [done..|lia|unfold SYS_POLL_THROTTLE_FACTOR; lia| |done].
  rewrite Z2Nat.id by lia. unfold SYS_POLL_THROTTLE_FACTOR. rewrite Zplus_mod_idemp_r. by rewrite Z.add_opp_diag_r.
Qed.

End epoll.

(** ** [select] and [poll] on descriptors of the kernel *)

Definition bits (sets : fd_sets) (fd : Z) : Z :=
  let '(r, w, x) := sets in
  (if isset r fd then 1 else 0) + (if isset w fd then 1 else 0) + (if isset x fd then 1 else 0).

Lemma select_in_all r w x fd :
  let e := select_events (r, w, x) fd in
  select_in e POLLIN fd r = (r, if isset r fd then 1 else 0) /\
  select_in e POLLOUT fd w = (w, if isset w fd then 1 else 0) /\
  select_in e POLLERR fd x = (x, if isset x fd then 1 else 0) /\ (e =? 0) = (bits (r, w, x) fd =? 0).
Proof. unfold select_events, select_in, bits. by destruct (isset r fd), (isset w fd), (isset x fd). Qed.

Lemma select_fds_system k (n : nat) fd (sets : fd_sets) s :
  (forall i, fd <= i < fd + Z.of_nat n -> bits sets i <> 0 -> exists r, sysfd (fdm s) i r) ->
  select_fds garbage k n fd sets s = Done ((sets, foldr Z.add 0 (bits sets <$> seqZ fd (Z.of_nat n))), s).
Proof.
  revert fd. induction n as [|n IH]; intros fd H; [done|]. rewrite seqZ_cons by lia. cbn [select_fds].
  replace (Z.succ fd) with (fd + 1) by lia. replace (Z.pred (Z.of_nat (S n))) with (Z.of_nat n) by lia.
  specialize (IH (fd + 1) ltac:(intros i Hi; apply H; lia)). specialize (H fd ltac:(lia)).
  destruct sets as [[r w] x]. destruct (select_in_all r w x fd) as (H1 & H2 & H3 & H4). rewrite H4. cbn [fmap list_fmap foldr].
  destruct (bits (r, w, x) fd =? 0) eqn:E; [apply Z.eqb_eq in E; by rewrite IH, E|].
  destruct H as [i Hi]; [lia|]. unfold mbind, M_bind. by rewrite (check_system _ _ _ _ _ Hi), H1, H2, H3, IH.
Qed.

(** [select] does not look at what the check found: every descriptor of the sets
    counts as ready. *)
Lemma select_reports_everything k nfds (sets : fd_sets) s :
  0 <= nfds -> (forall i, 0 <= i < nfds -> bits sets i <> 0 -> exists r, sysfd (fdm s) i r) ->
  exists s', select_nonblock garbage k nfds sets s = Done ((sets, foldr Z.add 0 (bits sets <$> seqZ 0 nfds)), s').
Proof.
  intros Hn H. unfold select_nonblock, mbind, M_bind. rewrite select_fds_system; [|by rewrite Z2Nat.id by lia].
  rewrite Z2Nat.id by lia. eexists. reflexivity.
Qed.

Lemma poll_round_throttled k fds s :
  due s = false -> Forall (fun p => exists r, sysfd (fdm s) (pfd p) r) fds ->
  poll_round garbage k fds s = Done (((fun p => mkPollfd (pfd p) (pevents p) 0) <$> fds, 0), s).
Proof.
  intros Hd H. induction H as [|p fds [r Hr] _ IH]; [done|]. cbn [poll_round fmap list_fmap]. unfold mbind, M_bind.
  rewrite (check_system _ _ _ _ _ Hr), Hd, IH. done.
Qed.

(** A [poll] of descriptors of the kernel waits for its whole timeout and reports
    nothing, whatever the kernel answers, unless the number of calls before it is
    a multiple of 65536. *)
Lemma poll_misses_events fds timeout start junk m ms s :
  due s = false -> Forall (fun p => exists r, sysfd (fdm s) (pfd p) r) fds -> 0 < timeout ->
  timeout <= diff_ms (clock m) start ->
  exists s', poll garbage fds timeout start junk (m :: ms) s =
    Done (((fun p => mkPollfd (pfd p) (pevents p) 0) <$> fds, 0), s').
Proof.
  intros Hd Hf Ht Hc. unfold poll. cbn [poll_loop]. unfold mbind, M_bind. rewrite poll_round_throttled by done. simpl.
  destruct (timeout =? 0) eqn:E0; [lia|]. destruct (0 <? timeout) eqn:E1; [|lia].
  destruct (timeout <=? diff_ms (clock m) start) eqn:E2; [|lia]. eexists. reflexivity.
Qed.

(** Without a timeout [poll] returns after one turn, with nothing ready, when the
    variable that the time was not stored in holds a past time. *)
Lemma poll_does_not_wait fds timeout start junk m ms s :
  due s = false -> Forall (fun p => exists r, sysfd (fdm s) (pfd p) r) fds -> timeout < 0 -> junk <= clock m ->
  exists s', poll garbage fds timeout start junk (m :: ms) s =
    Done (((fun p => mkPollfd (pfd p) (pevents p) 0) <$> fds, 0), s').
Proof.
  intros Hd Hf Ht Hc. unfold poll. cbn [poll_loop]. unfold mbind, M_bind. rewrite poll_round_throttled by done. simpl.
  destruct (timeout =? 0) eqn:E0; [lia|]. destruct (0 <? timeout) eqn:E1; [lia|].
  assert (0 <= diff_ms (clock m) junk) by (apply Z.quot_pos; lia).
  destruct (timeout <=? diff_ms (clock m) junk) eqn:E2; [|lia]. eexists. reflexivity.
Qed.

End system.

(** A set with one descriptor that is always readable. *)
Definition stdin_thread : thread :=
  set_throttle (set_epoll (thread_new (default fdmap_new (fd_remapping_init fdmap_new 3)))
    {[4 := {[0 := mkEvent EPOLLIN 7]}]}) 1.

Lemma epoll_system_ready_witness : exists s',
  epoll_wait 0 map_to_list 4 10 (-1) 0 0 (replicate (Z.to_nat 65536) (mkMoment (fun _ e => e) 0 id)) stdin_thread
    = Done ((1, [mkEvent EPOLLIN 7]), s').
Proof.
  assert (Hr : ready (fun _ e => e) [(0, mkEvent EPOLLIN 7, 0)] = [mkEvent EPOLLIN 7]) by reflexivity.
  assert (Hs : system_set map_to_list stdin_thread 4 [(0, mkEvent EPOLLIN 7, 0)]).
  { exists {[0 := mkEvent EPOLLIN 7]}. split; [reflexivity|]. split; [apply map_to_list_singleton|].
    apply Forall_singleton. split; vm_compute; reflexivity. }
  destruct (epoll_system_ready 0 map_to_list stdin_thread 4 10 (-1) 0 0 (replicate (Z.to_nat 65536) (mkMoment (fun _ e => e) 0 id))
    [(0, mkEvent EPOLLIN 7, 0)]) as (m & s' & Hm & E).
  - exact Hs.
  - reflexivity.
  - vm_compute. split; [discriminate|reflexivity].
  - rewrite length_replicate, Z2Nat.id; discriminate.
  - apply Forall_replicate. discriminate.
  - apply elem_of_replicate in Hm as [-> _]. exists s'. exact E.
Defined.

End ProtoPoll.
