(* ===== verification/ProtoLib.v ===== *)
(** * Threads and processes of the prototype ([lib/lib.cpp])

    What the library does when a program starts, and when it creates a thread or
    forks: the new thread gets a queue of its own to the monitor, copies of the
    tables of descriptors, and announces the sockets that listen again. *)

From Stdlib Require Import ZArith Lia.
From stdpp Require Import numbers base gmap list sorting.
From S2P Require Import Prelude DArray AdjList LocklessQueue Metaqueue IpBuffer Interprocess ProtoFd ProtoSock ProtoTables.
Import ProtoFd ProtoSock ProtoTables.

Module ProtoLib.

Fixpoint send_listen (fuel : nat) (sockfd : Z) : M unit :=
  if sockfd =? -1 then mret tt
  else
    match fuel with
    | O => spins
    | S fuel =>
        x ← file sockfd;
        _ ← (if bool_decide (ftype x = Some USOCKET_TCP_LISTEN) then
               f ← gets fdm;
               v ← need (get_virtual_fd f FD_TYPE_SOCKET sockfd);
               _ ← listen v;
               mret tt
             else mret tt);
        rd ← gets fds_datawithrd;
        send_listen fuel (AdjList.hiter_next rd sockfd)
    end.

Definition child_send_listen_socket_to_monitor : M unit :=
  rd ← gets fds_datawithrd; send_listen (keys rd) (AdjList.hiter_begin rd).

Definition import_thread_data (parent : thread) : M unit :=
  _ ← modify (fun s => set_tree (set_wr (set_rd s (fds_datawithrd parent)) (fds_wr parent)) (rd_tree parent));
  child_send_listen_socket_to_monitor.

(** The new thread uses the object of the old one; the two threads of a process
    share it from then on. *)
Definition import_thread_sock_data (parent : thread) : M unit :=
  modify (fun s => set_bufs s (bufferhash parent) (ProtoSock.lowest_available parent) (ProtoSock.total_num parent) (buffer parent)).

(** [connect_monitor] and [usocket_init].  [process] has what the threads of the
    process share; [q] is what successive polls of the two queues from the
    monitor will find, or [None] when the monitor cannot be reached. *)
Definition thread_init (process : thread) (q : option (list (option ctl) * list (option ctl))) : outcome thread :=
  match q with
  | None => Fatal
  | Some (from, urg) =>
      let s := set_mem (set_throttle (set_epoll (set_remote (thread_new (fdm process)) (remote_monitor process))
                 (epoll_fds process)) (sys_poll_throttle_counter process)) (mem process) in
      match usocket_init (set_urgent (set_from s from) urg) with
      | None => Fatal
      | Some s => Done s
      end
  end.

(** [m] is the memory; [probe] the number of the descriptor that the kernel
    hands out. *)
Definition after_exec (m : gmap Z segment) (q : option (list (option ctl) * list (option ctl))) (probe : Z) : outcome thread :=
  match thread_init (set_mem (thread_new fdmap_new) m) q with
  | Done s => match fd_remapping_init (fdm s) probe with None => Fatal | Some f => Done (set_fdm s f) end
  | Waits => Waits
  | Fatal => Fatal
  end.

Definition after_thread_create_or_fork (old : thread) (q : option (list (option ctl) * list (option ctl))) (rdma_ok : bool) : outcome thread :=
  match thread_init old q with
  | Done s =>
      match (_ ← import_thread_data old;
             _ ← import_thread_sock_data old;
             if rdma_ok then modify (fun s => set_rdma_ready s true) else fatal) s with
      | Done (_, s) => Done s
      | Waits => Waits
      | Fatal => Fatal
      end
  | Waits => Waits
  | Fatal => Fatal
  end.

(** The thread of the caller goes on unchanged; [start] is what the new one
    runs. *)
Definition thread_wrapper {A} (start : M A) (old : thread) (q : option (list (option ctl) * list (option ctl))) (rdma_ok : bool)
    : outcome (A * thread) :=
  match after_thread_create_or_fork old q rdma_ok with
  | Done s => start s
  | Waits => Waits
  | Fatal => Fatal
  end.

(** The result of the kernel's [fork] tells the two processes apart. *)
Definition fork (ibv_fork_init kernel : Z) (q : option (list (option ctl) * list (option ctl))) (rdma_ok : bool) : M Z := fun parent =>
  if negb (ibv_fork_init =? 0) then Fatal
  else if kernel =? 0 then
    match after_thread_create_or_fork parent q rdma_ok with
    | Done s => Done (kernel, s)
    | Waits => Waits
    | Fatal => Fatal
    end
  else Done (kernel, parent).

(** ** The sockets that listen *)

Definition listens (s : thread) (fd : Z) : bool :=
  if AdjList.get_key (fds_datawithrd s) fd is Some x then bool_decide (ftype x = Some USOCKET_TCP_LISTEN) else false.

Definition listening (s : thread) : list Z :=
  filter (fun fd => Is_true (listens s fd)) (DArray.visits (AdjList.index (fds_datawithrd s))).

Definition announcement (s : thread) (fd : Z) : ctl :=
  let x := default inhabitant (AdjList.get_key (fds_datawithrd s) fd) in
  Metaqueue.mkCtl Metaqueue.REQ_LISTEN (Metaqueue.req_listen (port (property x)) (b2z (is_addrreuse (property x)))).

(** The number of a socket that the program knows. *)
Definition resolves (f : fdmap) (fd : Z) : Prop :=
  exists v, get_virtual_fd f FD_TYPE_SOCKET fd = Some v /\ get_fd_type f v = Some FD_TYPE_SOCKET /\ get_real_fd f v = Some fd.

Definition arrivals (l : list (option ctl)) : list ctl := omap id l.

Lemma first_arrival_arrivals l e k : arrivals l = e :: k -> exists l', first_arrival l = Some (e, l') /\ arrivals l' = k.
Proof.
  induction l as [|[a|] l IH]; [done| |exact IH]. change (arrivals (Some a :: l)) with (a :: arrivals l). intros [= -> <-].
  by exists l.
Qed.

(** Writing back what is there. *)
Lemma update_same {A} (d : DArray.darray_t A) i f x : DArray.get d i = Some x -> f x = x -> DArray.update d i f = d.
Proof.
  destruct d as [low high total sz l]. unfold DArray.get, DArray.update. simpl. intros H Hf. f_equal.
  apply list_eq. intros j. rewrite list_lookup_alter. case_decide as Hj; [subst j|done].
  destruct (l !! Z.to_nat (u32 i)) as [[y b]|]; [|done]. simpl in H. injection H as ->. simpl. by rewrite Hf.
Qed.

Lemma update_key_same {T1 T2} (a : AdjList.adjlist T1 T2) i f x :
  AdjList.get_key a i = Some x -> f x = x -> AdjList.update_key a i f = a.
Proof.
  destruct a as [d es]. unfold AdjList.get_key, AdjList.update_key. simpl. intros H Hf. f_equal.
  destruct (DArray.get d i) as [ix|] eqn:E; [|done]. injection H as H. eapply update_same; [exact E|]. rewrite H, Hf.
  subst x. by destruct ix.
Qed.

Lemma set_rd_same s : set_rd s (fds_datawithrd s) = s.
Proof. by destruct s. Qed.

(** A socket that listens already listens again: one message. *)
Lemma listen_again s v fd x e k :
  get_fd_type (fdm s) v = Some FD_TYPE_SOCKET -> get_real_fd (fdm s) v = Some fd ->
  AdjList.is_keyvalid (fds_datawithrd s) fd = true ->
  AdjList.get_key (fds_datawithrd s) fd = Some x -> ftype x = Some USOCKET_TCP_LISTEN -> arrivals (from_monitor s) = e :: k ->
  exists r l', arrivals l' = k /\ listen v s = Done (r, set_from (set_to s (to_monitor s ++ [announcement s fd])) l').
Proof.
  intros Ht Hr Hv Hx Hl Ha. destruct (first_arrival_arrivals _ _ _ Ha) as (l' & E & Hk).
  assert (Hup : AdjList.update_key (fds_datawithrd s) fd (fun x => mkFile (Some USOCKET_TCP_LISTEN) (peer_fd x) (property x))
    = fds_datawithrd s) by (eapply update_key_same; [exact Hx|destruct x; simpl in *; by subst]).
  unfold listen, hooked, fd_type, real, mbind, M_bind, gets, need. rewrite Ht, Hr. simpl. unfold keyvalid, mbind, M_bind, gets, mret, M_ret.
  rewrite Hv. simpl. unfold set_file, file, mbind, M_bind, gets, need, modify. rewrite Hx. simpl. rewrite Hup, Hx, set_rd_same, E.
  unfold announcement. rewrite Hx. simpl. destruct (bool_decide _); eexists _, l'; (split; [exact Hk|reflexivity]).
Qed.

(** The messages of the sockets in [V] have been sent, and [k] more answers are
    there. *)
Definition announced (s : thread) (V : list Z) (k : list ctl) (s' : thread) : Prop :=
  exists l', arrivals l' = k /\ s' = set_from (set_to s (to_monitor s ++ (announcement s <$> V))) l'.

Lemma announced_nil s : announced s [] (arrivals (from_monitor s)) s.
Proof. exists (from_monitor s). split; [done|]. destruct s. by rewrite app_nil_r. Qed.

Lemma announced_cons s fd V k s' l' :
  announced (set_from (set_to s (to_monitor s ++ [announcement s fd])) l') V k s' -> announced s (fd :: V) k s'.
Proof. intros (l & Hk & ->). exists l. split; [done|]. simpl. by rewrite <- app_assoc. Qed.

(** One turn of the loop. *)
Lemma send_turn s fd x :
  DArray.isvalid (AdjList.index (fds_datawithrd s)) fd = true -> AdjList.get_key (fds_datawithrd s) fd = Some x ->
  (listens s fd = true -> resolves (fdm s) fd /\ arrivals (from_monitor s) <> []) -> fd <> -1 ->
  exists s', (if listens s fd then announced s [fd] (tail (arrivals (from_monitor s))) s' else s' = s) /\
    forall fuel, send_listen (S fuel) fd s =
      send_listen fuel (DArray.iterator_next (AdjList.index (fds_datawithrd s)) fd) s'.
Proof.
  intros Hv Hx Hr Hne. unfold listens in *. rewrite Hx in *. destruct (bool_decide (ftype x = Some USOCKET_TCP_LISTEN)) eqn:El.
  - destruct Hr as [(v & Hr1 & Hr2 & Hr3) Ha]; [done|]. destruct (arrivals (from_monitor s)) as [|e k] eqn:Ea; [done|].
    destruct (listen_again s v fd x e k Hr2 Hr3 Hv Hx (bool_decide_eq_true_1 _ El) Ea) as (r & l' & Hk & E).
    eexists. split; [exists l'; split; [exact Hk|reflexivity]|]. intros fuel. cbn [send_listen].
    rewrite (proj2 (Z.eqb_neq fd (-1)) Hne). unfold file, mbind, M_bind, gets, need. rewrite Hx, El, Hr1, E. done.
  - exists s. split; [done|]. intros fuel. cbn [send_listen]. rewrite (proj2 (Z.eqb_neq fd (-1)) Hne).
    unfold file, mbind, M_bind, gets, need. by rewrite Hx, El.
Qed.

Definition among (s : thread) (V : list Z) : list Z := filter (fun fd => Is_true (listens s fd)) V.

Lemma among_cons s fd V : among s (fd :: V) = if listens s fd then fd :: among s V else among s V.
Proof. unfold among. rewrite filter_cons. by destruct (listens s fd). Qed.

Lemma send_listen_spec n fuel s p :
  DArray.wf (AdjList.index (fds_datawithrd s)) ->
  let d := AdjList.index (fds_datawithrd s) in
  0 <= p <= DArray.highest_possible d -> is_Some (DArray.elem d p) ->
  DArray.highest_possible d + 1 - p <= Z.of_nat n -> DArray.highest_possible d + 1 - p <= Z.of_nat fuel ->
  Forall (resolves (fdm s)) (among s (DArray.visit_from n d p)) ->
  (length (among s (DArray.visit_from n d p)) <= length (arrivals (from_monitor s)))%nat ->
  exists s' k, announced s (among s (DArray.visit_from n d p)) k s' /\ send_listen fuel p s = Done (tt, s').
Proof.
  intros Hwf d. revert fuel s p Hwf d. induction n as [|n IH]; intros fuel s p Hwf d Hp Hs Hn Hf; [lia|]. cbn [DArray.visit_from].
  destruct (Z.eqb_spec p (-1)) as [|Hne]; [lia|]. rewrite among_cons. destruct fuel as [|fuel]; [lia|].
  assert (Hv : DArray.isvalid d p = true) by (by apply DArray.elem_isvalid).
  destruct (AdjList.get_key (fds_datawithrd s) p) as [x|] eqn:Hx.
  2: { destruct Hs as [ix Hs]. unfold AdjList.get_key in Hx. rewrite (DArray.get_elem _ _ _ Hwf Hs) in Hx. done. }
  intros HR HL.
  destruct (send_turn s p x Hv Hx) as (s1 & H1 & E).
  { intros Hl. rewrite Hl in HR, HL. apply Forall_cons in HR as [HR _]. split; [done|]. intros Hnil. rewrite Hnil in HL. simpl in HL. lia. }
  { done. }
  assert (Hsame : fdm s1 = fdm s /\ fds_datawithrd s1 = fds_datawithrd s) by (destruct (listens s p); [by destruct H1 as (? & _ & ->)|by subst]).
  destruct Hsame as [Hfd Hrd]. rewrite E.
  assert (Hann : forall V k s', announced s1 V k s' -> announced s ((if listens s p then [p] else []) ++ V) k s').
  { destruct (listens s p); [destruct H1 as (l' & _ & ->)|by subst]. intros V k s'. apply announced_cons. }
  assert (Hof : forall V, among s1 V = among s V).
  { intros V. unfold among. apply list_filter_iff. intros y. unfold listens. by rewrite Hrd. }
  assert (Hlen : (length (among s (DArray.visit_from n d (DArray.iterator_next d p))) <= length (arrivals (from_monitor s1)))%nat).
  { destruct (listens s p); [destruct H1 as (l' & Hk & ->)|by subst]. simpl. rewrite Hk. simpl in HL.
    destruct (arrivals (from_monitor s)); simpl in *; lia. }
  assert (HR' : Forall (resolves (fdm s)) (among s (DArray.visit_from n d (DArray.iterator_next d p)))).
  { destruct (listens s p); [by apply Forall_cons in HR as [_ HR]|done]. }
  replace (if listens s p then _ else _) with ((if listens s p then [p] else []) ++ among s (DArray.visit_from n d (DArray.iterator_next d p)))
    by (by destruct (listens s p)).
  destruct (DArray.iterator_next_spec d p Hwf ltac:(lia)) as [[En _]|(Hnx & Hsn & _)].
  - change (AdjList.index (fds_datawithrd s)) with d. rewrite En, DArray.visit_from_end. exists s1, (arrivals (from_monitor s1)).
    split; [apply Hann, announced_nil|by destruct fuel].
  - specialize (IH fuel s1 (DArray.iterator_next d p)). cbv zeta in IH. rewrite Hrd, Hfd, !Hof in IH. fold d in IH.
    destruct IH as (s' & k & Ha & E'); [done|lia|done|lia|lia|done|done|]. exists s', k. split; [by apply Hann|exact E'].
Qed.

Lemma child_announces s :
  DArray.wf (AdjList.index (fds_datawithrd s)) -> Forall (resolves (fdm s)) (listening s) ->
  (length (listening s) <= length (arrivals (from_monitor s)))%nat ->
  exists s' k, announced s (listening s) k s' /\ child_send_listen_socket_to_monitor s = Done (tt, s').
Proof.
  intros Hwf HR HL. unfold child_send_listen_socket_to_monitor, mbind, M_bind, gets, AdjList.hiter_begin, listening, DArray.visits in *.
  pose proof (DArray.wf_high _ Hwf).
  destruct (DArray.iterator_next_spec _ (-1) Hwf ltac:(lia)) as [[E _]|(Hn & Hsn & _)];
    change (DArray.iterator_next (AdjList.index (fds_datawithrd s)) (-1))
      with (DArray.iterator_init (AdjList.index (fds_datawithrd s))) in *.
  - rewrite E, DArray.visit_from_end. exists s, (arrivals (from_monitor s)). split; [apply announced_nil|done].
  - apply send_listen_spec; [done|lia|done|lia|unfold keys; lia|done|done].
Qed.

Lemma sorted_filter (P : Z -> Prop) `{forall x, Decision (P x)} l : StronglySorted Z.lt l -> StronglySorted Z.lt (filter P l).
Proof.
  induction 1 as [|x l Hl IH Hx]; [constructor|]. rewrite filter_cons. destruct (decide (P x)); [|done]. constructor; [done|].
  apply Forall_forall. intros y [_ Hy]%list_elem_of_filter. by eapply Forall_forall in Hx.
Qed.

(** A thread that is created, or the child of a fork, starts with the
    parent's descriptors and connections, and with a queue to the monitor that
    holds one announcement for each socket that listens, with its port and its
    reuse flag, in the order of their numbers. *)
Theorem child_relistens p from urg :
  DArray.wf (AdjList.index (fds_datawithrd p)) -> Forall (resolves (fdm p)) (listening p) ->
  (length (listening p) <= length (arrivals from))%nat ->
  exists c, after_thread_create_or_fork p (Some (from, urg)) true = Done c
    /\ fds_datawithrd c = fds_datawithrd p /\ fds_wr c = fds_wr p /\ rd_tree c = rd_tree p
    /\ buffer c = buffer p /\ bufferhash c = bufferhash p /\ fdm c = fdm p
    /\ to_monitor c = announcement p <$> listening p
    /\ StronglySorted Z.lt (listening p)
    /\ forall fd, fd ∈ listening p <-> is_Some (DArray.elem (AdjList.index (fds_datawithrd p)) fd) /\ listens p fd = true.
Proof.
  intros Hwf HR HL. unfold after_thread_create_or_fork, thread_init, usocket_init. simpl. unfold import_thread_data, mbind, M_bind, modify.
  match goal with |- context [child_send_listen_socket_to_monitor ?s] => destruct (child_announces s) as (s' & k & (l' & _ & ->) & ->) end;
    [done..|]. eexists. split; [reflexivity|]. do 7 (split; [reflexivity|]).
  destruct (DArray.visits_spec _ Hwf) as [Hs Hin]. split.
  - unfold listening. by apply sorted_filter.
  - intros fd. unfold listening. rewrite list_elem_of_filter, Hin. destruct (listens p fd); naive_solver.
Qed.

(** A parent with one socket that listens. *)
Definition listener : file_struc_rd_t := mkFile (Some USOCKET_TCP_LISTEN) 0 (mkProp true true false 80 false).
Definition demo_keys : DArray.darray_t (AdjList.index_t file_struc_rd_t) :=
  if DArray.add (DArray.darray_new 1000) (AdjList.mkIndex listener (-1)) is Some (_, d) then d else DArray.darray_new 1000.
Definition demo_map : fdmap :=
  if alloc_virtual_fd demo_fds FD_TYPE_SOCKET 0 is Some (_, f) then f else demo_fds.
Definition demo_parent : thread :=
  set_rd (thread_new demo_map) (AdjList.mkAdj demo_keys (AdjList.elements (fds_datawithrd (thread_new demo_map)))).
Definition demo_answer : ctl := Metaqueue.mkCtl Metaqueue.RES_SUCCESS (Metaqueue.raw []).

Lemma child_relistens_witness : exists c,
  after_thread_create_or_fork demo_parent (Some ([None; Some demo_answer], [])) true = Done c
  /\ fds_datawithrd c = fds_datawithrd demo_parent
  /\ to_monitor c = [Metaqueue.mkCtl Metaqueue.REQ_LISTEN (Metaqueue.req_listen 80 1)].
Proof.
  assert (Hwf : DArray.wf demo_keys).
  { destruct (DArray.add_spec (DArray.darray_new 1000 : DArray.darray_t (AdjList.index_t file_struc_rd_t)) (AdjList.mkIndex listener (-1)))
      as (i & d & E & H & _); [apply DArray.new_wf; split; reflexivity|reflexivity|]. unfold demo_keys. rewrite E. exact H. }
  assert (Hl : listening demo_parent = [0]) by (vm_compute; reflexivity).
  destruct (child_relistens demo_parent [None; Some demo_answer] []) as (c & E & H1 & _ & _ & _ & _ & _ & H2 & _).
  - exact Hwf.
  - rewrite Hl. apply Forall_singleton. exists 3. vm_compute. repeat split; reflexivity.
  - rewrite Hl. simpl. lia.
  - exists c. split; [exact E|]. split; [exact H1|]. rewrite H2, Hl. vm_compute. reflexivity.
Defined.

End ProtoLib.
