(* ===== verification/ProtoStream.v ===== *)
(** * Data between two threads of the prototype

    Two threads that share a connection: what one writes into its descriptor
    the other reads from its own, through the hooked calls of [ProtoSock]. *)

From Stdlib Require Import ZArith Lia.
From stdpp Require Import numbers base gmap list relations.
From S2P Require Import Prelude Text DArray AdjList LocklessQueue Metaqueue IpBuffer Interprocess ProtoFd ProtoSock.
Import ProtoFd ProtoSock.

Module ProtoStream.

(** ** Total correctness of a call

    [wp c Q s]: from [s] the call returns, and its result and the thread's state
    afterwards satisfy [Q]. *)
Definition wp {A} (c : M A) (Q : A -> thread -> Prop) (s : thread) : Prop :=
  match c s with Done (a, s') => Q a s' | _ => False end.

Section wp.
Context {A B : Type}.
Implicit Types (Q : A -> thread -> Prop) (s : thread).

Lemma tw_ret (a : A) Q s : Q a s -> wp (mret a) Q s.
Proof. done. Qed.

Lemma tw_bind (c : M B) (k : B -> M A) Q s : wp c (fun b s' => wp (k b) Q s') s -> wp (c ≫= k) Q s.
Proof. unfold wp, mbind, M_bind. by destruct (c s) as [[b s']| |]. Qed.

Lemma tw_gets (f : thread -> A) Q s : Q (f s) s -> wp (gets f) Q s.
Proof. done. Qed.

Lemma tw_need (o : option A) a Q s : o = Some a -> Q a s -> wp (need o) Q s.
Proof. by intros ->. Qed.

Lemma tw_lift (o : outcome A) a Q s : o = Done a -> Q a s -> wp (lift o) Q s.
Proof. by intros ->. Qed.

Lemma tw_mono (c : M A) Q Q' s : wp c Q s -> (forall a s', Q a s' -> Q' a s') -> wp c Q' s.
Proof. unfold wp. destruct (c s) as [[a s']| |]; auto. Qed.

Lemma tw_done (c : M A) Q s : wp c Q s <-> exists a s', c s = Done (a, s') /\ Q a s'.
Proof.
  unfold wp. split; [destruct (c s) as [[a s']| |]; by eauto|]. by intros (a & s' & -> & HQ).
Qed.

End wp.

Lemma tw_modify f (Q : unit -> thread -> Prop) s : Q tt (f s) -> wp (modify f) Q s.
Proof. done. Qed.

Ltac tw_step :=
  cbv beta iota;
  match goal with
  | |- wp (mbind _ _) _ _ => apply tw_bind
  | |- wp (mret _) _ _ => apply tw_ret
  | |- wp (gets _) _ _ => apply tw_gets
  | |- wp (modify _) _ _ => apply tw_modify
  end.
Ltac tw_steps := repeat tw_step; cbv beta iota.

(** ** One end of a connection *)

(** The buffer [i] of the thread is a connection over the segment of [key]. *)
Record holds (s : thread) (i key : Z) (e : ends) (sg : segment) : Prop := {
  h_pos : 0 <= i;
  h_buf : exists b, buffer s !! Z.to_nat i = Some b /\ data b = Some e /\ shmemkey b = key /\ isRDMA b = false;
  h_mem : mem s !! key = Some sg
}.

(** The thread after its connection and the segment have changed. *)
Definition put_conn (s : thread) (i : Z) (b : buffer_t) (e : ends) (sg : segment) : thread :=
  set_mem (set_bufs s (bufferhash s) (lowest_available s) (total_num s)
    (<[Z.to_nat i := mkBuffer (Some e) (isvalid b) (loc b) (shmemkey b) (isRDMA b)]> (buffer s)))
    (<[shmemkey b := sg]> (mem s)).

Lemma holds_put s i key e sg b e' sg' :
  holds s i key e sg -> buffer s !! Z.to_nat i = Some b -> shmemkey b = key -> isRDMA b = false ->
  holds (put_conn s i b e' sg') i key e' sg'.
Proof.
  intros [Hi _ _] Hb Hk Hr. split; [done| |simpl; rewrite Hk; apply lookup_insert_eq].
  eexists. split; [apply list_lookup_insert_eq; by eapply lookup_lt_Some|]. by rewrite <- Hk, <- Hr.
Qed.

Lemma tw_conn_at s i key e sg (Q : buffer_t * ends * segment -> thread -> Prop) :
  holds s i key e sg ->
  (forall b, buffer s !! Z.to_nat i = Some b -> shmemkey b = key -> isRDMA b = false -> Q (b, e, sg) s) ->
  wp (conn_at i) Q s.
Proof.
  intros [Hi (b & Hb & Hd & Hk & Hr) Hm] HQ. unfold conn_at, buffer_at.
  tw_steps. rewrite (proj2 (Z.ltb_ge _ _)) by done. eapply tw_need; [done|]. tw_steps. eapply tw_need; [done|].
  tw_steps. eapply tw_need; [by rewrite Hk|]. tw_steps. by apply HQ.
Qed.

Lemma tw_push s i key e sg ele bytes n t w (Q : Z -> thread -> Prop) :
  holds s i key e sg -> Interprocess.push_data (e_tx e) (wire_of sg (e_loc e)) ele bytes = Done (n, t, w) ->
  (forall b, shmemkey b = key -> holds (put_conn s i b (mkEnds (e_loc e) t (e_rx e)) (set_wire sg (e_loc e) w)) i key
               (mkEnds (e_loc e) t (e_rx e)) (set_wire sg (e_loc e) w) ->
     Q n (put_conn s i b (mkEnds (e_loc e) t (e_rx e)) (set_wire sg (e_loc e) w))) ->
  wp (push_data i ele bytes) Q s.
Proof.
  intros H Hp HQ. unfold push_data. tw_step. eapply tw_conn_at; [done|]. intros b Hb Hk Hr. tw_step.
  eapply tw_lift; [done|]. unfold set_conn. tw_steps. apply HQ; [done|]. by eapply holds_put.
Qed.

Lemma tw_pop s i key e sg it n k bytes r w it' (Q : Z * list Z * Interprocess.iterator -> thread -> Prop) :
  holds s i key e sg ->
  Interprocess.pop_data (e_rx e) (wire_of sg (negb (e_loc e))) it n = Done (k, bytes, r, w, it') ->
  (forall b, shmemkey b = key -> holds (put_conn s i b (mkEnds (e_loc e) (e_tx e) r) (set_wire sg (negb (e_loc e)) w)) i key
               (mkEnds (e_loc e) (e_tx e) r) (set_wire sg (negb (e_loc e)) w) ->
     Q (k, bytes, it') (put_conn s i b (mkEnds (e_loc e) (e_tx e) r) (set_wire sg (negb (e_loc e)) w))) ->
  wp (pop_data i it n) Q s.
Proof.
  intros H Hp HQ. unfold pop_data. tw_step. eapply tw_conn_at; [done|]. intros b Hb Hk Hr. tw_step.
  eapply tw_lift; [done|]. unfold set_conn. tw_steps. apply HQ; [done|]. by eapply holds_put.
Qed.

Lemma tw_peek s i key e sg it x (Q : Interprocess.element * (bool * bool) * Interprocess.iterator -> thread -> Prop) :
  holds s i key e sg -> Interprocess.it_peek (e_rx e) (wire_of sg (negb (e_loc e))) it = Some x -> Q x s ->
  wp (ele_peek i it) Q s.
Proof.
  intros H Hp HQ. unfold ele_peek. tw_step. eapply tw_conn_at; [done|]. intros b _ _ _. by eapply tw_need.
Qed.

Lemma tw_ele_next s i key e sg it x (Q : Interprocess.iterator -> thread -> Prop) :
  holds s i key e sg -> Interprocess.it_next (e_rx e) (wire_of sg (negb (e_loc e))) it = Some x -> Q x s ->
  wp (ele_next i it) Q s.
Proof.
  intros H Hp HQ. unfold ele_next. tw_step. eapply tw_conn_at; [done|]. intros b _ _ _. by eapply tw_need.
Qed.

Lemma tw_ele_begin s i key e sg (Q : Interprocess.iterator -> thread -> Prop) :
  holds s i key e sg -> Q (Interprocess.begin (e_rx e)) s -> wp (ele_begin i) Q s.
Proof.
  intros H HQ. unfold ele_begin. tw_step. eapply tw_conn_at; [done|]. intros b _ _ _. by tw_step.
Qed.

(** ** What the reader looks for

    The cells of a connection that carry bytes for the descriptor [d], and those
    the search passes by without touching them. *)
Definition live_data (d : Z) (c : Interprocess.cell) : bool :=
  negb (Interprocess.c_del c)
  && match Interprocess.command (Interprocess.c_ele c), Interprocess.body (Interprocess.c_ele c) with
     | Interprocess.DATA_TRANSFER, Interprocess.data_fd_rw _ fd => fd =? d
     | _, _ => false
     end.

Definition passed (c : Interprocess.cell) : bool :=
  Interprocess.c_del c
  || match Interprocess.command (Interprocess.c_ele c) with
     | Interprocess.NEW_FD => true
     | _ => false
     end.

Definition carried (d : Z) (c : Interprocess.cell) : Prop := live_data d c = true \/ passed c = true.

Definition pending (d : Z) (L : list Interprocess.cell) : list Z :=
  concat (Interprocess.c_bytes <$> filter (fun c => live_data d c = true) L).

Lemma live_passed d c : live_data d c = true -> passed c = false.
Proof.
  unfold live_data, passed. destruct (Interprocess.c_del c); [done|]. simpl.
  by destruct (Interprocess.command _).
Qed.

Lemma live_shape d c : live_data d c = true ->
  Interprocess.c_del c = false /\ Interprocess.command (Interprocess.c_ele c) = Interprocess.DATA_TRANSFER
  /\ exists p, Interprocess.body (Interprocess.c_ele c) = Interprocess.data_fd_rw p d.
Proof.
  unfold live_data. intros [Hd H]%andb_true_iff. apply negb_true_iff in Hd. split; [done|].
  destruct (Interprocess.command _), (Interprocess.body _); try done. apply Z.eqb_eq in H as ->. by eauto.
Qed.

(** Where a search of the cells from [k] on stops. *)
Definition first_live (d : Z) (L : list Interprocess.cell) (k j : nat) : Prop :=
  (k <= j)%nat /\ (exists c, L !! j = Some c /\ live_data d c = true)
  /\ forall (j' : nat) c, (k <= j' < j)%nat -> L !! j' = Some c -> live_data d c = false.
Definition none_live (d : Z) (L : list Interprocess.cell) (k : nat) : Prop :=
  forall (j : nat) c, (k <= j)%nat -> L !! j = Some c -> live_data d c = false.

Lemma first_live_S d L (k j : nat) c :
  L !! k = Some c -> live_data d c = false -> first_live d L (S k) j -> first_live d L k j.
Proof.
  intros Hk Hc (Hj & Hl & Hn). split; [lia|]. split; [done|]. intros j' c' Hj' Hc'.
  destruct (decide (j' = k)) as [->|]; [congruence|]. apply (Hn j'); [lia|done].
Qed.

Lemma none_live_S d L (k : nat) c :
  L !! k = Some c -> live_data d c = false -> none_live d L (S k) -> none_live d L k.
Proof.
  intros Hk Hc Hn j c' Hj Hc'. destruct (decide (j = k)) as [->|]; [congruence|]. apply (Hn j); [lia|done].
Qed.

(** The search over the elements: it ends at the first cell that carries bytes
    for the descriptor, and changes nothing. *)
Lemma scan_from fuel s fd i key e sg t L iter it (k : nat) (Q : scan_state * AdjList.iterator -> thread -> Prop) :
  holds s i key e sg -> Interprocess.wire_ok t (e_rx e) (wire_of sg (negb (e_loc e))) L ->
  Interprocess.at_cell (e_rx e) it k -> (k <= length L < k + fuel)%nat -> (length L < 256)%nat -> Forall (carried fd) L ->
  (forall it' j, Interprocess.at_cell (e_rx e) it' j -> first_live fd L k j -> Q (FIND it', iter) s) ->
  (none_live fd L k -> wp (scan_end fd i iter) Q s) ->
  wp (scan fuel fd i iter it) Q s.
Proof.
  intros H Hw. revert it k. induction fuel as [|fuel IH]; intros it k Hat Hk HL HC HF HN; [lia|].
  simpl. tw_step. destruct (decide (k = length L)) as [->|Hne].
  { destruct (Interprocess.it_peek_end t _ _ L it Hw Hat HL) as (o & dd & Hp). eapply tw_peek; [done|done|].
    cbv beta iota. simpl. apply HN. intros j c Hj Hc. apply lookup_lt_Some in Hc. lia. }
  destruct (lookup_lt_is_Some_2 L k ltac:(lia)) as [c Hc].
  eapply tw_peek; [done|by eapply Interprocess.it_peek_spec|]. cbv beta iota. cbn [fst snd negb].
  set (it1 := Interprocess.mkIter _ _ _).
  assert (Hat1 : Interprocess.at_cell (e_rx e) it1 k) by (split; [apply Hat|by left]).
  assert (Hnext : live_data fd c = false -> wp (it ← ele_next i it1; scan fuel fd i iter it) Q s).
  { intros Hl. tw_step.
    destruct (Interprocess.at_cell_next (e_rx e) (wire_of sg (negb (e_loc e))) it1 k eq_refl Hat1) as (it2 & Hn & Hat2).
    eapply tw_ele_next; [done|done|]. apply (IH it2 (S k)); [done|lia|done|done| |].
    - intros it' j Ha Hf. apply (HF it' j Ha). by eapply first_live_S.
    - intros Hn2. apply HN. by eapply none_live_S. }
  pose proof (Forall_lookup_1 _ _ _ _ HC Hc) as [Hl|Hpass].
  - destruct (live_shape _ _ Hl) as (Hd & Hcmd & p & Hb). rewrite Hd, Hcmd. unfold is_data, rw_fd. rewrite Hcmd, Hb.
    rewrite bool_decide_eq_true_2 by done. simpl. tw_step. apply (HF it1 k Hat1). split; [lia|]. split; [by eauto|]. intros; lia.
  - assert (Hl : live_data fd c = false) by (destruct (live_data fd c) eqn:El; [|done]; apply live_passed in El; congruence).
    destruct (Interprocess.c_del c) eqn:Ed; [by apply Hnext|]. unfold passed in Hpass. rewrite Ed in Hpass. simpl in Hpass.
    destruct (Interprocess.command (Interprocess.c_ele c)) eqn:Ec; try done.
    unfold is_data. rewrite Ec. simpl. by apply Hnext.
Qed.

(** ** A connected descriptor

    The thread uses [fd] for a connection to the peer's descriptor [peer] over
    its buffer [i]; [blk] is whether it blocks. *)
Section process.
Context (F : fdmap).

Record endpoint (s : thread) (fd peer i : Z) (blk : bool) : Prop := {
  ep_fd : 0 <= fd < 2 ^ 32;
  ep_peer : fd_in_turns peer = true;
  ep_rd : exists MR f st, AdjList.models (fds_datawithrd s) MR /\ MR !! fd = Some (f, [mkRd i st (-1) (-1)])
            /\ connected f = true /\ peer_fd f = peer /\ is_blocking (property f) = blk;
  ep_wr : exists MW x w, AdjList.models (fds_wr s) MW /\ MW !! fd = Some (x, [w]) /\ wr_buffer w = i;
  ep_urgent : urgent s = [];
  ep_fdm : fdm s = F
}.

Lemma endpoint_frame s s' fd peer i blk :
  fds_datawithrd s' = fds_datawithrd s -> fds_wr s' = fds_wr s -> urgent s' = urgent s -> fdm s' = fdm s ->
  endpoint s fd peer i blk -> endpoint s' fd peer i blk.
Proof. intros Hr Hw Hu Hf [H1 H2 H3 H4 H5 H6]. split; rewrite ?Hr, ?Hw, ?Hu, ?Hf; done. Qed.

Lemma holds_frame s s' i key e sg : buffer s' = buffer s -> mem s' = mem s -> holds s i key e sg -> holds s' i key e sg.
Proof. intros Hb Hm [H1 H2 H3]. split; rewrite ?Hb, ?Hm; done. Qed.

Lemma set_rd_id s : set_rd s (fds_datawithrd s) = s.
Proof. by destruct s. Qed.

Lemma set_urgent_id s : urgent s = [] -> set_urgent s [] = s.
Proof. intros H. destruct s. unfold set_urgent. simpl in *. by rewrite H. Qed.

Lemma tw_hook g s (Q : unit -> thread -> Prop) : urgent s = [] -> Q tt s -> wp (monitor2proc_hook g) Q s.
Proof. intros Hu HQ. unfold monitor2proc_hook. tw_steps. rewrite Hu. simpl. tw_step. by rewrite set_urgent_id. Qed.

Lemma tw_file s fd f l MR (Q : file_struc_rd_t -> thread -> Prop) :
  AdjList.models (fds_datawithrd s) MR -> MR !! fd = Some (f, l) -> Q f s -> wp (file fd) Q s.
Proof. intros HM Hl HQ. unfold file. tw_steps. eapply tw_need; [by eapply AdjList.models_get_key|done]. Qed.

Lemma tw_keyvalid s fd x MR (Q : bool -> thread -> Prop) :
  AdjList.models (fds_datawithrd s) MR -> 0 <= fd < 2 ^ 32 -> MR !! fd = Some x -> Q true s -> wp (keyvalid fd) Q s.
Proof.
  intros HM Hfd Hl HQ. unfold keyvalid. tw_steps.
  rewrite (AdjList.models_is_keyvalid _ _ _ HM Hfd), bool_decide_eq_true_2; [done|by rewrite Hl].
Qed.

(** The sender's turn is at this connection. *)
Definition my_turn (sg : segment) (l : bool) (fd : Z) : Prop := turn_of sg l !! fd = Some true.

(** A queue that holds nothing for the descriptor, in a list of one queue. *)
Lemma tw_scan_end s fd peer i key e sg iter MR f st (Q : scan_state * AdjList.iterator -> thread -> Prop) :
  holds s i key e sg -> my_turn sg (negb (e_loc e)) peer -> fd_in_turns peer = true ->
  AdjList.focus (fds_datawithrd s) MR iter fd [] (mkRd i st (-1) (-1)) [] ->
  MR !! fd = Some (f, [mkRd i st (-1) (-1)]) -> peer_fd f = peer ->
  (forall iter' rd', AdjList.it_end iter' = true -> AdjList.models rd' MR -> Q (NOTFIND, iter') (set_rd s rd')) ->
  wp (scan_end fd i iter) Q s.
Proof.
  intros H Hturn Hin HF Hl Hp HQ. pose proof H as [Hi (b & Hb & Hd & Hk & Hr) Hm].
  unfold scan_end, buffer_at. tw_steps. rewrite (proj2 (Z.ltb_ge _ _)) by done. eapply tw_need; [done|].
  rewrite Hr. unfold recv_empty_hook, rd_get. tw_steps. eapply tw_need; [apply (AdjList.focus_get _ _ _ _ _ _ _ HF)|].
  cbn [child0 child1 rd_buffer]. simpl. tw_step. eapply tw_file; [by eapply AdjList.focus_models|done|]. tw_step.
  unfold peer_turn. tw_step. eapply tw_conn_at; [done|]. intros b' _ _ _. rewrite Hp, Hin. tw_step.
  rewrite Hturn. simpl. tw_steps. unfold rd_next. tw_steps.
  destruct (AdjList.focus_next _ _ _ _ _ _ _ HF) as (iter' & rd' & x & Hn & Hl' & He & HM').
  eapply tw_need; [done|]. tw_steps. apply HQ; [done|]. rewrite Hl in Hl'. injection Hl' as <-.
  by rewrite (insert_id MR) in HM'.
Qed.

(** The search over the only queue of a descriptor. *)
Lemma tw_find s fd peer i key e sg t L iter MR f st (Q : scan_state * AdjList.iterator -> thread -> Prop) :
  holds s i key e sg -> my_turn sg (negb (e_loc e)) peer -> fd_in_turns peer = true ->
  AdjList.focus (fds_datawithrd s) MR iter fd [] (mkRd i st (-1) (-1)) [] ->
  MR !! fd = Some (f, [mkRd i st (-1) (-1)]) -> peer_fd f = peer ->
  Interprocess.wire_ok t (e_rx e) (wire_of sg (negb (e_loc e))) L -> (length L < 256)%nat -> Forall (carried fd) L ->
  (forall it j, Interprocess.at_cell (e_rx e) it j -> first_live fd L 0 j -> Q (FIND it, iter) s) ->
  (none_live fd L 0 -> forall iter' rd', AdjList.it_end iter' = true -> AdjList.models rd' MR ->
     Q (NOTFIND, iter') (set_rd s rd')) ->
  wp (recvfrom_iter_fd_in_buf fd iter) Q s.
Proof.
  intros H Hturn Hin HF Hl Hp Hw HL HC HQ1 HQ2. unfold recvfrom_iter_fd_in_buf, rd_get. tw_steps.
  eapply tw_need; [apply (AdjList.focus_get _ _ _ _ _ _ _ HF)|]. tw_steps. eapply tw_ele_begin; [done|].
  cbn [rd_buffer]. eapply (scan_from _ s fd i key e sg t L); [done|done|by eapply Interprocess.at_cell_begin| |done|done| |].
  - unfold scan_turns. change Interprocess.SIZE with 256. lia.
  - done.
  - intros Hn. eapply tw_scan_end; [done|done|done|done|done|done|]. by apply HQ2.
Qed.

(** ** The bytes that wait *)

Lemma pending_app d L1 L2 : pending d (L1 ++ L2) = pending d L1 ++ pending d L2.
Proof. unfold pending. by rewrite filter_app, fmap_app, concat_app. Qed.

Lemma pending_cons d c L : pending d (c :: L) = (if live_data d c then Interprocess.c_bytes c else []) ++ pending d L.
Proof. unfold pending. rewrite filter_cons. destruct (live_data d c) eqn:E; case_decide; done || congruence. Qed.

Lemma pending_dead d L : (forall c, c ∈ L -> live_data d c = false) -> pending d L = [].
Proof.
  induction L as [|c L IH]; [done|]. intros H. rewrite pending_cons, (H c) by (by left). simpl.
  apply IH. intros c' Hc'. apply H. by right.
Qed.

Lemma none_live_pending d L : none_live d L 0 -> pending d L = [].
Proof. intros Hn. apply pending_dead. intros c [j Hj]%list_elem_of_lookup. apply (Hn j); [lia|done]. Qed.

(** Everything before the first live cell is passed by. *)
Lemma first_live_pending d L (j : nat) c :
  first_live d L 0 j -> L !! j = Some c -> forall c',
  pending d (<[j := c']> L) = (if live_data d c' then Interprocess.c_bytes c' else []) ++ pending d (drop (S j) L)
  /\ pending d L = Interprocess.c_bytes c ++ pending d (drop (S j) L).
Proof.
  intros (_ & (c0 & Hc0 & Hl) & Hn) Hc c'. assert (c0 = c) as -> by congruence.
  assert (Hpre : pending d (take j L) = []).
  { apply pending_dead. intros x [k Hk]%list_elem_of_lookup. apply lookup_take_Some in Hk as [Hk Hkj]. apply (Hn k); [lia|done]. }
  split.
  - rewrite insert_take_drop by (by eapply lookup_lt_Some). rewrite pending_app, pending_cons, Hpre. done.
  - rewrite <- (take_drop_middle L j c Hc) at 1. by rewrite pending_app, pending_cons, Hpre, Hl.
Qed.

Lemma pending_drop_front d L : pending d (Interprocess.drop_front L) = pending d L.
Proof.
  induction L as [|c L IH]; [done|]. simpl. destruct (Interprocess.c_del c) eqn:E; [|done].
  rewrite IH, pending_cons. unfold live_data. by rewrite E.
Qed.

Lemma live_set_block d c p blks bytes :
  live_data d c = true -> live_data d (Interprocess.mkCell (Interprocess.set_block (Interprocess.c_ele c) p) false blks bytes) = true.
Proof.
  intros Hl. destruct (live_shape _ _ Hl) as (_ & Hc & q & Hb). unfold live_data, Interprocess.set_block. simpl.
  rewrite Hc, Hb. simpl. by rewrite Z.eqb_refl.
Qed.

Lemma drop_front_length L : (length (Interprocess.drop_front L) <= length L)%nat.
Proof. induction L as [|c L IH]; [done|]. simpl. destruct (Interprocess.c_del c); simpl; lia. Qed.

(** What a receive leaves. *)
Lemma after_pop_pending d L (j : nat) c n blk blks :
  first_live d L 0 j -> L !! j = Some c -> 0 <= n -> Forall (carried d) L ->
  let L' := Interprocess.after_pop L j c n blk blks in
  let k := Z.to_nat (Z.min n (Z.of_nat (length (Interprocess.c_bytes c)))) in
  take (Z.to_nat n) (Interprocess.c_bytes c) = take k (pending d L) /\ pending d L' = drop k (pending d L)
  /\ Forall (carried d) L' /\ (length L' <= length L)%nat.
Proof.
  intros Hf Hc Hn HC L' k. pose proof Hf as (_ & (c0 & Hc0 & Hl) & _). assert (c0 = c) as -> by congruence.
  pose proof (lookup_lt_Some _ _ _ Hc) as Hj. destruct (first_live_pending d L j c Hf Hc c) as [_ Hp].
  split.
  { rewrite Hp. unfold k. destruct (Z.le_gt_cases (Z.of_nat (length (Interprocess.c_bytes c))) n).
    - rewrite Z.min_r by lia. rewrite Nat2Z.id, take_app_length. apply take_ge. lia.
    - rewrite Z.min_l by lia. rewrite take_app_le by lia. done. }
  unfold L', Interprocess.after_pop. destruct (Z.leb_spec (Z.of_nat (length (Interprocess.c_bytes c))) n) as [Hle|Hgt].
  - set (c' := Interprocess.mkCell _ _ _ _). destruct (first_live_pending d L j c Hf Hc c') as [Hi _].
    rewrite pending_drop_front, Hi, Hp. simpl. unfold k. rewrite Z.min_r, Nat2Z.id, drop_app_length by lia.
    split; [done|]. split.
    + apply Interprocess.drop_front_Forall, Forall_insert; [done|]. by right.
    + etransitivity; [apply drop_front_length|]. by rewrite length_insert.
  - set (c' := Interprocess.mkCell _ _ _ _). destruct (first_live_pending d L j c Hf Hc c') as [Hi _].
    assert (Hl' : live_data d c' = true) by (by apply live_set_block). rewrite Hi, Hp, Hl'. simpl. unfold k. rewrite Z.min_l by lia.
    rewrite drop_app_le by lia. split; [done|]. split; [apply Forall_insert; [done|by left]|by rewrite length_insert].
Qed.

(** ** Receiving

    The state after a receive that took [k] bytes. *)
Record took (s s' : thread) (fd peer i key : Z) (blk : bool) (e : ends) (sg : segment) tP
    (L : list Interprocess.cell) (k : nat) : Prop := {
  tk_some : (0 < k <= length (pending fd L))%nat;
  tk_endpoint : endpoint s' fd peer i blk;
  tk_after : exists r' w' L', holds s' i key (mkEnds (e_loc e) (e_tx e) r') (set_wire sg (negb (e_loc e)) w')
    /\ Interprocess.wire_ok tP r' w' L' /\ Forall (carried fd) L' /\ pending fd L' = drop k (pending fd L)
    /\ (length L' <= length L)%nat /\ mem s' = <[key := set_wire sg (negb (e_loc e)) w']> (mem s)
}.

Lemma tw_take_found s fd i key e sg tP L it (j : nat) n mapped g blk peer (Q : received -> thread -> Prop) :
  endpoint s fd peer i blk -> holds s i key e sg ->
  Interprocess.wire_ok tP (e_rx e) (wire_of sg (negb (e_loc e))) L -> Interprocess.at_cell (e_rx e) it j ->
  first_live fd L 0 j -> Forall (carried fd) L -> 0 < n < 2 ^ 31 ->
  (forall (k : nat) s', took s s' fd peer i key blk e sg tP L k -> (Z.of_nat k <= n) ->
     Q (mkReceived (Z.of_nat k) (take k (pending fd L)) []) s') ->
  wp (take_found g i it n mapped) Q s.
Proof.
  intros HE H Hw Hat Hf HC Hn HQ. pose proof Hf as (_ & (c & Hc & Hl) & _). destruct (live_shape _ _ Hl) as (Hd & Hcmd & p & Hb).
  unfold take_found. tw_step. eapply tw_peek; [done|by eapply Interprocess.it_peek_spec|]. cbv beta iota. rewrite Hcmd.
  rewrite Text.swrap32_small by lia. tw_step.
  assert (Hblk : Interprocess.block_of (Interprocess.c_ele c) = Some p) by (unfold Interprocess.block_of; by rewrite Hcmd, Hb).
  assert (Hne : Interprocess.c_bytes c <> []).
  { pose proof (Forall_lookup_1 _ _ _ _ (Interprocess.wo_cells _ _ _ _ Hw) Hc) as Hok.
    unfold Interprocess.cell_ok in Hok. rewrite Hd, Hblk in Hok. apply Hok. }
  destruct (Interprocess.pop_data_spec tP (e_rx e) (wire_of sg (negb (e_loc e))) L
              (Interprocess.mkIter (Interprocess.q_pointer it) (Interprocess.q_emergency_pointer it) true) j c p n)
    as (r' & w' & it' & blk' & blks & Hpop & Hw'); [done|split; [apply Hat|by left]|done|done|done|lia|].
  destruct (after_pop_pending fd L j c n blk' blks Hf Hc ltac:(lia) HC) as (Htake & Hpend & HC' & Hlen).
  set (k := Z.to_nat (Z.min n (Z.of_nat (length (Interprocess.c_bytes c))))) in *.
  assert (Hlen0 : (0 < length (Interprocess.c_bytes c))%nat) by (destruct (Interprocess.c_bytes c); simpl; [done|lia]).
  destruct (first_live_pending fd L j c Hf Hc c) as [_ Hp].
  eapply tw_pop; [done|done|]. intros b Hk Hh. tw_step. rewrite Htake.
  replace (Z.min n (Z.of_nat (length (Interprocess.c_bytes c)))) with (Z.of_nat k) by (unfold k; lia).
  apply HQ; [|unfold k; lia]. split.
  - rewrite Hp, length_app. unfold k. lia.
  - by eapply endpoint_frame; [..|exact HE].
  - exists r', w', (Interprocess.after_pop L j c n blk' blks). split; [done|]. split; [done|]. split; [done|]. split; [done|].
    split; [done|]. unfold put_conn. simpl. by rewrite Hk.
Qed.

Lemma first_live_some d L (j : nat) : first_live d L 0 j -> forall t r w, Interprocess.wire_ok (Q := IpBuffer.availq) t r w L -> pending d L <> [].
Proof.
  intros Hf t r w Hw. pose proof Hf as (_ & (c & Hc & Hl) & _). destruct (first_live_pending d L j c Hf Hc c) as [_ ->].
  destruct (live_shape _ _ Hl) as (Hd & Hcmd & p & Hb).
  pose proof (Forall_lookup_1 _ _ _ _ (Interprocess.wo_cells _ _ _ _ Hw) Hc) as Hok.
  unfold Interprocess.cell_ok, Interprocess.block_of in Hok. rewrite Hd, Hcmd, Hb in Hok. destruct Hok as [_ Hne].
  by destruct (Interprocess.c_bytes c).
Qed.

Lemma endpoint_set_rd s fd peer i blk MR f st rd' :
  endpoint s fd peer i blk -> MR !! fd = Some (f, [mkRd i st (-1) (-1)]) -> connected f = true -> peer_fd f = peer ->
  is_blocking (property f) = blk -> AdjList.models rd' MR -> endpoint (set_rd s rd') fd peer i blk.
Proof. intros [H1 H2 H3 H4 H5] Hl Hc Hp Hb HM. split; try done. by exists MR, f, st. Qed.

(** The first round of a receive. *)
Lemma tw_recv_round s fd peer i key e sg tP L blk iter MR f st n mapped g m (Q : option received -> thread -> Prop) :
  endpoint s fd peer i blk -> holds s i key e sg -> my_turn sg (negb (e_loc e)) peer ->
  AdjList.focus (fds_datawithrd s) MR iter fd [] (mkRd i st (-1) (-1)) [] ->
  MR !! fd = Some (f, [mkRd i st (-1) (-1)]) -> peer_fd f = peer -> connected f = true -> is_blocking (property f) = blk ->
  Interprocess.wire_ok tP (e_rx e) (wire_of sg (negb (e_loc e))) L -> (length L < 256)%nat -> Forall (carried fd) L ->
  0 < n < 2 ^ 31 ->
  (forall (k : nat) s', took s s' fd peer i key blk e sg tP L k -> Z.of_nat k <= n ->
     Q (Some (mkReceived (Z.of_nat k) (take k (pending fd L)) [])) s') ->
  (pending fd L = [] -> forall rd', AdjList.models rd' MR -> Q None (set_rd s rd')) ->
  wp (recv_round g (S m) fd n mapped iter) Q s.
Proof.
  intros HE H Hturn HF Hl Hp Hc Hb Hw HL HC Hn HQ1 HQ2. simpl. unfold rd_get at 1. tw_steps.
  eapply tw_need; [apply (AdjList.focus_get _ _ _ _ _ _ _ HF)|]. tw_step.
  eapply (tw_find s fd peer); try done; [apply HE| |].
  - intros it j Hat Hf. tw_step. cbn [rd_buffer]. eapply tw_take_found; [done|done|done|done|done|done|done|].
    intros k s' Htk Hkn. cbn [got]. pose proof (tk_some _ _ _ _ _ _ _ _ _ _ _ _ Htk).
    rewrite (proj2 (Z.ltb_lt _ _)) by lia. tw_step. by apply HQ1.
  - intros Hnl iter' rd' He HM. cbv beta iota. rewrite He. tw_step. apply HQ2; [by apply none_live_pending|done].
Qed.

Lemma tw_recv s fd peer i key e sg tP L blk n mapped peers g (Q : received -> thread -> Prop) :
  endpoint s fd peer i blk -> holds s i key e sg -> my_turn sg (negb (e_loc e)) peer ->
  Interprocess.wire_ok tP (e_rx e) (wire_of sg (negb (e_loc e))) L -> (length L < 256)%nat -> Forall (carried fd) L ->
  0 < n < 2 ^ 31 -> blk = false \/ pending fd L <> [] ->
  (forall (k : nat) s', took s s' fd peer i key blk e sg tP L k -> Z.of_nat k <= n ->
     Q (mkReceived (Z.of_nat k) (take k (pending fd L)) []) s') ->
  (pending fd L = [] -> forall s', endpoint s' fd peer i blk -> holds s' i key e sg -> mem s' = mem s ->
     last_error s' = Some EAGAIN -> Q (mkReceived (-1) [] []) s') ->
  wp (recv_socket g fd n mapped peers) Q s.
Proof.
  intros HE H Hturn Hw HL HC Hn Hblk HQ1 HQ2. pose proof HE as [Hfd Hin (MR & f & st & HM & Hl & Hc & Hp & Hb) _ Hu].
  unfold recv_socket. tw_step. eapply tw_keyvalid; [done|done|done|]. simpl. tw_step. eapply tw_file; [done|done|].
  rewrite Hc. simpl. tw_steps. destruct (AdjList.focus_begin _ _ _ _ _ HM Hl) as (iter & Hbeg & HF).
  eapply tw_need; [done|]. destruct (AdjList.focus_get _ _ _ _ _ _ _ HF) as [He _]. rewrite He. tw_step.
  apply tw_hook; [done|].
  assert (Hround : forall c : option received -> M received,
    (forall r, c (Some r) = mret r) ->
    (forall s', urgent s' = [] -> AdjList.models (fds_datawithrd s') MR -> blk = false ->
       Q (mkReceived (-1) [] []) (set_error s' (Some EAGAIN)) -> wp (c None) Q s') ->
    wp (rd ← gets fds_datawithrd; iter ← need (AdjList.begin rd fd); r ← recv_round g (S (AdjList.turns rd)) fd n mapped iter; c r) Q s).
  { intros c Hsome Hnone. tw_steps. eapply tw_need; [done|]. tw_step.
    eapply (tw_recv_round s fd peer i key e sg tP L blk iter MR f st);
      [done|done|done|done|done|done|done|done|done|done|done|done| |].
    - intros k s' Htk Hk. rewrite Hsome. tw_step. by apply HQ1.
    - intros Hpend rd' HM'. destruct Hblk as [->|?]; [|done]. apply Hnone; [done|done|done|].
      apply HQ2; [done| |by apply (holds_frame s)|done|done].
      eapply (endpoint_frame (set_rd s rd')); [done|done|done|done|]. by eapply endpoint_set_rd. }
  assert (Htail : forall cont s', urgent s' = [] -> AdjList.models (fds_datawithrd s') MR -> blk = false ->
    Q (mkReceived (-1) [] []) (set_error s' (Some EAGAIN)) ->
    wp (_ ← monitor2proc_hook g; f ← file fd;
        if is_blocking (property f) then cont else r ← fail EAGAIN; mret (mkReceived r [] [])) Q s').
  { intros cont s' Hu' HM' -> HQ. tw_step. apply tw_hook; [done|]. tw_step. eapply tw_file; [done|done|].
    rewrite Hb. unfold fail. by tw_steps. }
  destruct peers as [|pp peers]; apply Hround; try done; intros s' Hu' HM' Hb'; by apply Htail.
Qed.

(** ** Looking for something to receive *)

Lemma tw_check s fd peer i key e sg tP L blk g (Q : Z -> thread -> Prop) :
  endpoint s fd peer i blk -> holds s i key e sg -> my_turn sg (negb (e_loc e)) peer ->
  Interprocess.wire_ok tP (e_rx e) (wire_of sg (negb (e_loc e))) L -> (length L < 256)%nat -> Forall (carried fd) L ->
  (forall s', endpoint s' fd peer i blk -> holds s' i key e sg -> mem s' = mem s -> fds_wr s' = fds_wr s ->
     Q (if bool_decide (pending fd L = []) then 0 else POLLIN) s') ->
  wp (check_sockfd_receive g fd) Q s.
Proof.
  intros HE H Hturn Hw HL HC HQ. pose proof HE as [Hfd Hin (MR & f & st & HM & Hl & Hc & Hp & Hb) _ Hu].
  unfold check_sockfd_receive. tw_step. eapply tw_keyvalid; [done|done|done|]. simpl. tw_step. eapply tw_file; [done|done|].
  assert (Ht : ftype f = Some USOCKET_TCP_CONNECT) by (unfold connected in Hc; apply andb_true_iff in Hc as [Hc _]; by apply bool_decide_eq_true in Hc).
  rewrite Ht, bool_decide_eq_false_2 by done. unfold check_connected. tw_steps.
  destruct (AdjList.focus_begin _ _ _ _ _ HM Hl) as (iter & Hbeg & HF). eapply tw_need; [done|]. tw_step.
  eapply tw_file; [done|done|]. destruct (AdjList.focus_get _ _ _ _ _ _ _ HF) as [He _]. rewrite He, Hc. simpl. tw_step.
  apply tw_hook; [done|]. tw_steps. eapply tw_need; [done|]. simpl. tw_step.
  eapply (tw_find s fd peer); try done.
  - intros it j _ Hf. tw_step. specialize (HQ s). rewrite bool_decide_eq_false_2 in HQ by (by eapply first_live_some).
    by apply HQ.
  - intros Hn iter' rd' He' HM'. cbv beta iota. rewrite He'. tw_step.
    pose proof (none_live_pending _ _ Hn) as Hpend. specialize (HQ (set_rd s rd')). rewrite bool_decide_eq_true_2 in HQ by done.
    apply HQ; [by eapply endpoint_set_rd|by apply (holds_frame s)|done|done].
Qed.

(** ** Sending *)

(** The state after a write of [bytes]. *)
Record sent (s s' : thread) (fd peer i key : Z) (blk : bool) (e : ends) (sg : segment) rP
    (L : list Interprocess.cell) (bytes : list Z) : Prop := {
  st_endpoint : endpoint s' fd peer i blk;
  st_after : exists t' w' c, holds s' i key (mkEnds (e_loc e) t' (e_rx e)) (set_wire sg (e_loc e) w')
    /\ Interprocess.wire_ok t' rP w' (L ++ [c]) /\ live_data peer c = true /\ Interprocess.c_bytes c = bytes
    /\ mem s' = <[key := set_wire sg (e_loc e) w']> (mem s)
}.

Lemma wire_of_set_ne sg l w : wire_of (set_wire sg l w) (negb l) = wire_of sg (negb l).
Proof. unfold set_wire. simpl. by rewrite bool_decide_eq_false_2 by (by destruct l). Qed.

Lemma wire_of_set_eq sg l w : wire_of (set_wire sg l w) l = w.
Proof. unfold set_wire. simpl. by rewrite bool_decide_eq_true_2. Qed.

Lemma tw_send_bytes s fd peer i key blk e sg rP L bytes g (Q : unit -> thread -> Prop) :
  endpoint s fd peer i blk -> holds s i key e sg -> Interprocess.wire_ok (e_tx e) rP (wire_of sg (e_loc e)) L ->
  bytes <> [] -> Z.of_nat (length bytes) <= 1018 * Z.of_nat (length (IpBuffer.tokens (Interprocess.w_av (wire_of sg (e_loc e))))) ->
  (length L < 128)%nat ->
  (forall s', sent s s' fd peer i key blk e sg rP L bytes -> fds_datawithrd s' = fds_datawithrd s -> fds_wr s' = fds_wr s ->
     urgent s' = urgent s -> Q tt s') ->
  wp (send_bytes g i peer bytes) Q s.
Proof.
  intros HE H Hw Hne Hfit HL HQ. unfold send_bytes. tw_step.
  set (ele := Interprocess.mkElement Interprocess.DATA_TRANSFER (Interprocess.data_fd_rw g peer)).
  destruct (Interprocess.push_data_spec (e_tx e) rP (wire_of sg (e_loc e)) L ele bytes Hw eq_refl Hne Hfit HL)
    as (t' & w' & p & blks & Hpush & Hw').
  eapply tw_push; [done|done|]. intros b Hk Hh. tw_step. apply HQ; [|done|done|done]. split.
  - by eapply endpoint_frame; [..|exact HE].
  - eexists t', w', _. split; [done|]. split; [done|]. split; [unfold live_data; simpl; apply Z.eqb_refl|].
    split; [done|]. unfold put_conn. simpl. by rewrite Hk.
Qed.

Lemma tw_write s fd peer i key blk e sg rP tP L LR bytes phys g (Q : Z -> thread -> Prop) :
  endpoint s fd peer i blk -> holds s i key e sg -> my_turn sg (negb (e_loc e)) peer ->
  Interprocess.wire_ok (e_tx e) rP (wire_of sg (e_loc e)) L ->
  Interprocess.wire_ok tP (e_rx e) (wire_of sg (negb (e_loc e))) LR -> (length LR < 256)%nat -> Forall (carried fd) LR ->
  bytes <> [] -> Z.of_nat (length bytes) < 16384 ->
  Z.of_nat (length bytes) <= 1018 * Z.of_nat (length (IpBuffer.tokens (Interprocess.w_av (wire_of sg (e_loc e))))) ->
  (length L < 128)%nat ->
  (forall s', sent s s' fd peer i key blk e sg rP L bytes -> Q (Z.of_nat (length bytes)) s') ->
  wp (write_socket g fd [bytes] phys) Q s.
Proof.
  intros HE H Hturn Hw HwR HLR HC Hne Hsmall Hfit HL HQ.
  pose proof HE as [Hfd Hin (MR & f & st & HM & Hl & Hc & Hp & Hb) (MW & x & w & HMW & Hlw & Hwi) Hu].
  unfold write_socket, wr_begin. tw_steps. destruct (AdjList.focus_begin _ _ _ _ _ HMW Hlw) as (it & Hbeg & HF).
  eapply tw_need; [done|]. destruct (AdjList.focus_get _ _ _ _ _ _ _ HF) as [He Hget]. rewrite He. tw_step.
  eapply tw_file; [done|done|]. rewrite Hc. simpl. tw_step. apply tw_hook; [done|]. tw_steps. eapply tw_need; [done|].
  unfold wr_get at 1. tw_steps. eapply tw_need; [done|]. tw_step. eapply tw_file; [done|done|]. rewrite Hwi, Hp.
  cbn [write_all]. tw_step. unfold write_nbyte.
  assert (Hpos : 0 < Z.of_nat (length bytes)) by (destruct bytes; simpl; [done|lia]).
  rewrite (proj2 (Z.leb_gt _ _)) by (unfold PAGE_SIZE, MIN_PAGES_FOR_ZEROCOPY; lia). rewrite (proj2 (Z.ltb_lt _ _)) by done. tw_step.
  eapply tw_send_bytes; [done|done|done|done|done|done|]. intros s1 Hs Hrd Hwr Hur. tw_step. unfold wr_get. tw_steps.
  eapply tw_need; [by rewrite Hwr|]. tw_steps.
  assert (HF1 : AdjList.focus (fds_wr s1) MW it fd [] w []) by (by rewrite Hwr).
  pose proof (AdjList.focus_set _ _ _ _ _ _ _ x (fun y => mkWr (wr_buffer y) (wr_status y) (u32 (write_count y + 1))) HF1 Hlw) as HF2.
  set (wr2 := AdjList.it_set _ _ _) in *. set (s2 := set_wr s1 wr2).
  assert (Hs2 : sent s s2 fd peer i key blk e sg rP L bytes).
  { destruct Hs as [HE1 (t' & w' & c & Hh & ?)]. split.
    - destruct HE1 as [E1 E2 E3 E4 E5]. split; try done. eexists _, x, _. split; [by eapply AdjList.focus_models|].
      rewrite lookup_insert_eq. split; [done|]. done.
    - exists t', w', c. split; [by apply (holds_frame s1)|done]. }
  eapply tw_need; [apply (AdjList.focus_get _ _ _ _ _ _ _ HF2)|]. tw_step. cbn [write_count].
  destruct (_ mod CHECK_READ_PER_WRITE =? 0); tw_step; [|tw_steps; rewrite Z.add_0_r; by apply HQ].
  destruct Hs2 as [HE2 (t' & w' & c & Hh & Hw' & Hlc & Hcb & Hmem)].
  eapply (tw_check s2 fd peer i key _ _ tP LR); [done|done|done|by rewrite wire_of_set_ne|done|done|].
  intros s3 HE3 Hh3 Hm3 _. tw_steps. rewrite Z.add_0_r. apply HQ. split; [done|]. exists t', w', c. by rewrite Hm3.
Qed.

End process.

End ProtoStream.
