(* ===== verification/ProtoHandshake.v ===== *)
(** * Connecting two threads of the prototype

    The calls [accept] and [connect] of two threads over a segment that the
    monitor has prepared: afterwards each has a descriptor whose queue leads to
    the other's. *)

From Stdlib Require Import ZArith Lia.
From stdpp Require Import numbers base gmap list relations.
From S2P Require Import Prelude Text DArray AdjList LocklessQueue Metaqueue IpBuffer Interprocess ProtoFd ProtoSock ProtoTables ProtoCalls ProtoStream.
Import ProtoFd ProtoSock ProtoTables ProtoCalls ProtoStream.

Module ProtoHandshake.

(** ** A segment that nobody has used *)

(** The queues of an end that has just attached. *)
Definition new_tx : Interprocess.tx :=
  let q := (LocklessQueue.init Interprocess.SIZE (LocklessQueue.mkShm ([] : list (LocklessQueue.element_t Interprocess.element)) false) false).1 in
  Interprocess.mkTx q q.
Definition new_rx : Interprocess.rx :=
  let q := (LocklessQueue.init Interprocess.SIZE (LocklessQueue.mkShm ([] : list (LocklessQueue.element_t Interprocess.element)) false) true).1 in
  Interprocess.mkRx q q.

(** A direction in which nothing has been freed: attaching does not change it. *)
Record settled (w : Interprocess.wire IpBuffer.availq) : Prop := {
  se_q : LocklessQueue.return_flag (Interprocess.w_q w) = false;
  se_e : LocklessQueue.return_flag (Interprocess.w_e w) = false;
  se_av : LocklessQueue.return_flag (IpBuffer.av_m (Interprocess.w_av w)) = false;
  se_r : IpBuffer.av_r (Interprocess.w_av w) = IpBuffer.avail_end true (IpBuffer.av_m (Interprocess.w_av w));
  se_s : IpBuffer.av_s (Interprocess.w_av w) = IpBuffer.avail_end false (IpBuffer.av_m (Interprocess.w_av w))
}.

Lemma set_flag_same {T} (m : LocklessQueue.shm T) : LocklessQueue.return_flag m = false -> LocklessQueue.set_flag m false = m.
Proof. destruct m. simpl. by intros ->. Qed.

Lemma attach_settled sg l : settled (wire_of sg l) -> settled (wire_of sg (negb l)) ->
  exists sg', attach sg l = (mkEnds l new_tx new_rx, sg') /\ turn_of sg' = turn_of sg
    /\ forall b, wire_of sg' b = wire_of sg b.
Proof.
  intros [H1 H2 H3 H4 H5] [K1 K2 K3 K4 K5]. unfold attach. simpl. eexists. split; [reflexivity|]. split; [done|].
  intros b. unfold set_wire. simpl.
  destruct (decide (b = negb l)) as [->|Hb]; [rewrite bool_decide_true by done|rewrite bool_decide_false by done].
  - rewrite !set_flag_same by done. rewrite <- K5. destruct (wire_of sg (negb l)) as [q e m av]. simpl in *. by destruct av.
  - assert (b = l) as -> by (destruct b, l; done). rewrite bool_decide_true by done.
    rewrite !set_flag_same by done. rewrite <- H4. destruct (wire_of sg l) as [q e m av]. simpl in *. by destruct av.
Qed.

(** The segment of the monitor. *)
Lemma avail_settled av : IpBuffer.avail_start = Some av ->
  LocklessQueue.return_flag (IpBuffer.av_m av) = false
  /\ IpBuffer.av_r av = IpBuffer.avail_end true (IpBuffer.av_m av) /\ IpBuffer.av_s av = IpBuffer.avail_end false (IpBuffer.av_m av).
Proof.
  unfold IpBuffer.avail_start. set (o := IpBuffer.push_tokens _ _ _ _). clearbody o. destruct o as [[q m]|]; [|done].
  intros [= <-]. done.
Qed.

Lemma monitor_wire : exists w, Interprocess.monitor_init = Some (new_tx, new_rx, w)
  /\ Interprocess.wire_ok new_tx new_rx w [] /\ settled w /\ IpBuffer.tokens (Interprocess.w_av w) = seqZ 0 1024.
Proof.
  destruct Interprocess.monitor_init_ok as (t & r & w & E & Hw & Ht). revert E. unfold Interprocess.monitor_init.
  pose proof avail_settled as Hav. set (o := IpBuffer.avail_start) in *. clearbody o. destruct o as [av|]; [|done].
  destruct (Hav av eq_refl) as (H1 & H2 & H3). set (rep := replicate _ _). clearbody rep. set (m := LocklessQueue.init_mem _ _ _).
  assert (Hm : LocklessQueue.return_flag m = false) by reflexivity. clearbody m. intros E. injection E as <- <- <-.
  eexists. split; [reflexivity|]. split; [exact Hw|]. split; [by split|exact Ht].
Qed.

(** A message without data leaves the rest of the direction alone. *)
Lemma push_ctl_settled t w ele n t' w' :
  LocklessQueue.credits (Interprocess.t_q t) <> 0 -> settled w ->
  Interprocess.push_data t w ele [] = Done (n, t', w') -> settled w'.
Proof.
  intros Hc [H1 H2 H3 H4 H5]. unfold Interprocess.push_data, Interprocess.send, LocklessQueue.push, LocklessQueue.push_nb, LocklessQueue.take_credits.
  simpl. rewrite (proj2 (Z.eqb_neq _ _) Hc), andb_false_r. unfold LocklessQueue.put. intros [= <- <- <-]. by split.
Qed.

Lemma push_ctl_av t (w : Interprocess.wire IpBuffer.availq) ele n t' w' :
  Interprocess.push_data t w ele [] = Done (n, t', w') -> Interprocess.w_av w' = Interprocess.w_av w.
Proof.
  unfold Interprocess.push_data, Interprocess.send. simpl. destruct (LocklessQueue.push (Interprocess.t_q t) (Interprocess.w_q w) ele) as [[[q m] po]|]; [|done].
  by intros [= _ _ <-].
Qed.

(** ** The parts of the calls *)

Section parts.
Implicit Types (s : thread) (MR : gmap Z (file_struc_rd_t * list fd_rd_list_t)) (MW : gmap Z (Z * list fd_wr_list_t)).

Definition few {T1 T2} (a : AdjList.adjlist T1 T2) : Prop :=
  DArray.get_totalsize (AdjList.index a) < 2 ^ 31 - 1 /\ DArray.get_totalsize (AdjList.elements a) < 2 ^ 31 - 1.

Lemma tw_add_keys s MR x (Q : Z -> thread -> Prop) :
  AdjList.models (fds_datawithrd s) MR -> few (fds_datawithrd s) ->
  (forall n rd, AdjList.add_key (fds_datawithrd s) x = Some (n, rd) -> MR !! n = None -> AdjList.models rd (<[n := (x, [])]> MR) ->
     AdjList.elements rd = AdjList.elements (fds_datawithrd s) -> Q n (set_rd s rd)) ->
  wp (add_keys x) Q s.
Proof.
  intros HM [Hf _] HQ. destruct (AdjList.models_add_key _ _ x HM Hf) as (n & rd & E & Hn & HM'). unfold add_keys. tw_steps.
  eapply tw_need; [exact E|]. tw_steps. apply HQ; try done. revert E. unfold AdjList.add_key.
  destruct (DArray.add _ _) as [[k d]|]; [|done]. by intros [= <- <-].
Qed.

Lemma tw_add_wr_key s MW n wr (Q : unit -> thread -> Prop) :
  AdjList.models (fds_wr s) MW -> few (fds_wr s) -> AdjList.add_key (fds_wr s) 0 = Some (n, wr) ->
  (AdjList.models wr (<[n := (0, [])]> MW) -> AdjList.elements wr = AdjList.elements (fds_wr s) -> Q tt (set_wr s wr)) ->
  wp add_wr_key Q s.
Proof.
  intros HM [Hf _] E HQ. destruct (AdjList.models_add_key _ _ 0 HM Hf) as (n' & wr' & E' & Hn & HM').
  rewrite E in E'. injection E' as <- <-. unfold add_wr_key. tw_steps. eapply tw_need; [exact E|]. tw_steps. apply HQ; [done|].
  revert E. unfold AdjList.add_key. destruct (DArray.add _ _) as [[k d]|]; [|done]. by intros [= <- <-].
Qed.

Lemma tw_set_file s MR fd h f vs (Q : unit -> thread -> Prop) :
  AdjList.models (fds_datawithrd s) MR -> MR !! fd = Some (f, vs) ->
  (forall rd, AdjList.models rd (<[fd := (h f, vs)]> MR) -> AdjList.elements rd = AdjList.elements (fds_datawithrd s) -> Q tt (set_rd s rd)) ->
  wp (set_file fd h) Q s.
Proof.
  intros HM Hl HQ. unfold set_file. tw_step. eapply tw_file; [done|done|]. tw_step. apply HQ; [|done].
  by eapply AdjList.models_update_key.
Qed.

Lemma tw_add_rd s MR fd f i (Q : unit -> thread -> Prop) :
  AdjList.models (fds_datawithrd s) MR -> MR !! fd = Some (f, []) ->
  DArray.get_totalsize (AdjList.elements (fds_datawithrd s)) < 2 ^ 31 - 1 ->
  (forall rd, AdjList.models rd (<[fd := (f, [mkRd i 0 (-1) (-1)])]> MR) -> Q tt (set_rd s rd)) ->
  wp (add_rd fd i) Q s.
Proof.
  intros HM Hl Hf HQ. destruct (AdjList.models_add_sole _ _ _ _ (mkRd i 0 (-1) (-1)) HM Hl Hf) as (it & rd & E & HF).
  unfold add_rd. tw_steps. eapply tw_need; [exact E|]. tw_steps. apply HQ. by eapply AdjList.focus_models.
Qed.

(** The element of [fds_wr] with the pointer of its list. *)
Lemma tw_add_wr s MW fd x i n (Q : AdjList.iterator -> thread -> Prop) :
  AdjList.models (fds_wr s) MW -> MW !! fd = Some (x, []) ->
  DArray.get_totalsize (AdjList.elements (fds_wr s)) < 2 ^ 31 - 1 ->
  (forall it wr, AdjList.focus wr (<[fd := (x, [mkWr i 0 n])]> MW) it fd [] (mkWr i 0 n) [] -> Q it (set_wr s wr)) ->
  wp (add_wr fd i n) Q s.
Proof.
  intros HM Hl Hf HQ. destruct (AdjList.models_add_sole _ _ _ _ (mkWr i 0 n) HM Hl Hf) as (it & wr & E & HF).
  unfold add_wr. tw_steps. eapply tw_need; [exact E|]. tw_steps. by apply HQ.
Qed.

Lemma tw_point_wr s MW fd it w (Q : unit -> thread -> Prop) :
  AdjList.focus (fds_wr s) MW it fd [] w [] ->
  (forall wr, AdjList.models wr MW -> Q tt (set_wr s wr)) -> wp (point_wr fd it) Q s.
Proof.
  intros HF HQ. unfold point_wr. tw_step. apply HQ. eapply AdjList.focus_models, AdjList.focus_set_ptr, HF.
Qed.

(** A slot for a new connection. *)
Record slots s (key : Z) : Prop := {
  sl_hash : bufferhash s !! key = None;
  sl_room : 0 <= ProtoSock.lowest_available s < Z.of_nat (length (buffer s));
  sl_total : ProtoSock.total_num s + 1 <> BUFFERNUM
}.

Definition opened s (key l : Z) (e : ends) (sg : segment) : thread :=
  let i := ProtoSock.lowest_available s in
  set_bufs (set_mem s (<[key := sg]> (mem s))) (<[key := i]> (bufferhash s)) (i + 1) (ProtoSock.total_num s + 1)
    (<[Z.to_nat i := mkBuffer (Some e) true l key false]> (buffer s)).

Lemma opened_holds s key l e sg : slots s key -> holds (opened s key l e sg) (ProtoSock.lowest_available s) key e sg.
Proof.
  intros [H1 H2 H3]. split; [lia| |simpl; apply lookup_insert_eq].
  eexists. split; [apply list_lookup_insert_eq; lia|]. done.
Qed.

Lemma tw_conn_buffer s key l sg e sg' (Q : Z -> thread -> Prop) :
  slots s key -> mem s !! key = Some sg -> attach sg (negb (l =? 0)) = (e, sg') ->
  Q (ProtoSock.lowest_available s) (opened s key l e sg') ->
  wp (conn_buffer key (newbuffer key l)) Q s.
Proof.
  intros [H1 H2 H3] Hm Ha HQ. unfold conn_buffer, isexist. tw_steps. eapply tw_need; [by rewrite H1|]. simpl.
  unfold newbuffer. tw_steps. eapply tw_need; [exact Hm|]. rewrite Ha. tw_steps. unfold take_slot, buffer_at. tw_steps. simpl.
  rewrite (proj2 (Z.ltb_ge _ _)) by lia. destruct (lookup_lt_is_Some_2 (buffer s) (Z.to_nat (ProtoSock.lowest_available s))) as [b Hb]; [lia|].
  eapply tw_need; [exact Hb|]. tw_steps. simpl. rewrite (proj2 (Z.eqb_neq _ _) H3). tw_step. exact HQ.
Qed.

(** The turn flag of the own descriptor. *)
Lemma tw_set_my_turn s i key e sg fd v (Q : unit -> thread -> Prop) :
  holds s i key e sg -> fd_in_turns fd = true ->
  (forall b, shmemkey b = key -> let sg' := set_turn sg (e_loc e) fd v in holds (put_conn s i b e sg') i key e sg' -> Q tt (put_conn s i b e sg')) ->
  wp (set_my_turn i fd v) Q s.
Proof.
  intros H Hin HQ. unfold set_my_turn. tw_step. eapply tw_conn_at; [done|]. intros b Hb Hk Hr. cbv beta iota. rewrite Hin.
  unfold set_conn. tw_step. apply HQ; [done|]. by eapply holds_put.
Qed.

End parts.

(** ** Accepting *)

(** A thread that can open a connection over the segment of [key]. *)
Record opener (s : thread) (MR : gmap Z (file_struc_rd_t * list fd_rd_list_t)) (MW : gmap Z (Z * list fd_wr_list_t)) (key : Z) : Prop := {
  op_rd : AdjList.models (fds_datawithrd s) MR;
  op_wr : AdjList.models (fds_wr s) MW;
  op_few : few (fds_datawithrd s) /\ few (fds_wr s);
  op_step : in_step s;
  op_slots : slots s key;
  op_urgent : urgent s = []
}.

(** The descriptor that the next key gets. *)
Definition numbered (s : thread) : Prop := forall x n rd, AdjList.add_key (fds_datawithrd s) x = Some (n, rd) ->
  fd_in_turns n = true /\ exists v f, alloc_virtual_fd (fdm s) FD_TYPE_SOCKET n = Some (v, f)
    /\ get_fd_type f v = Some FD_TYPE_SOCKET /\ get_real_fd f v = Some n.

Definition new_fd_cell (n : Z) : Interprocess.cell :=
  Interprocess.mkCell (Interprocess.mkElement Interprocess.NEW_FD (Interprocess.data_fd_notify n)) false [] [].

(** Parts of the state that do not matter to a connection. *)
Lemma holds_set_fdm s i key e sg f : holds s i key e sg -> holds (set_fdm s f) i key e sg.
Proof. by intros [H1 H2 H3]. Qed.

Lemma holds_set_wr s i key e sg wr : holds s i key e sg -> holds (set_wr s wr) i key e sg.
Proof. by intros [H1 H2 H3]. Qed.

Lemma holds_set_rd s i key e sg rd : holds s i key e sg -> holds (set_rd s rd) i key e sg.
Proof. by intros [H1 H2 H3]. Qed.

(** The thread after it has accepted a connection as end [l] of the segment. *)
Record accepted (s s' : thread) (key : Z) (l : bool) (sg : segment) (v n peer : Z) (blk : bool) : Prop := {
  ac_endpoint : endpoint (fdm s') s' n peer (ProtoSock.lowest_available s) blk;
  ac_fd : socket_fd s' v n;
  ac_turns : fd_in_turns n = true;
  ac_after : exists t sg', holds s' (ProtoSock.lowest_available s) key (mkEnds l t new_rx) sg' /\ mem s' = <[key := sg']> (mem s)
    /\ Interprocess.wire_ok t new_rx (wire_of sg' l) [new_fd_cell n] /\ settled (wire_of sg' l)
    /\ Interprocess.w_av (wire_of sg' l) = Interprocess.w_av (wire_of sg l)
    /\ wire_of sg' (negb l) = wire_of sg (negb l) /\ my_turn sg' l n /\ turn_of sg' (negb l) = turn_of sg (negb l)
}.

Lemma wr_same_key (s : thread) x n rd : in_step s -> AdjList.add_key (fds_datawithrd s) x = Some (n, rd) ->
  exists wr, AdjList.add_key (fds_wr s) 0 = Some (n, wr).
Proof.
  intros Hs. unfold AdjList.add_key. destruct (DArray.add (AdjList.index (fds_datawithrd s)) _) as [[k d]|] eqn:E; [|done]. intros [= -> <-].
  destruct (DArray.shape_add _ _ _ (AdjList.mkIndex 0 (-1)) _ _ Hs E) as (e & -> & _). eauto.
Qed.

Lemma turn_set_eq sg l fd v : turn_of (set_turn sg l fd v) l !! fd = Some v.
Proof. unfold set_turn. simpl. rewrite bool_decide_true by done. apply lookup_insert_eq. Qed.

Lemma turn_set_ne sg l fd v : turn_of (set_turn sg l fd v) (negb l) = turn_of sg (negb l).
Proof. unfold set_turn. simpl. by rewrite bool_decide_false by (by destruct l). Qed.

Lemma tw_install g s MR MW key sg l peer flags junk env (Q : Z -> thread -> Prop) :
  opener s MR MW key -> numbered s -> mem s !! key = Some sg -> let lb := negb (l =? 0) in
  settled (wire_of sg lb) -> settled (wire_of sg (negb lb)) -> Interprocess.wire_ok new_tx new_rx (wire_of sg lb) [] ->
  fd_in_turns peer = true ->
  (forall v n s', MR !! n = None -> accepted s s' key lb sg v n peer (Z.land flags SOCK_NONBLOCK =? 0) -> Q v s') ->
  wp (install g peer key l flags false junk env) Q s.
Proof.
  intros [HR HW [[Hf1 Hf2] Hfw] Hstep Hsl Hu] Hnum Hm lb Hs1 Hs2 Hw Hp HQ. unfold install. cbv zeta.
  set (f0 := mkFile _ _ _). tw_step. eapply tw_add_keys; [exact HR|by split|]. intros n rd E Hn HR1 He1.
  destruct (Hnum _ _ _ E) as (Hin & v & f & Ha & Ht & Hr). destruct (wr_same_key _ _ _ _ Hstep E) as [wr Ew]. tw_step.
  eapply tw_set_file; [exact HR1|apply lookup_insert_eq|]. simpl. intros rd2 HR2 He2. rewrite insert_insert_eq in HR2. tw_step.
  destruct (attach_settled sg lb Hs1 Hs2) as (sg1 & Hat & Htu & Hwi).
  eapply tw_conn_buffer; [by destruct Hsl|exact Hm|exact Hat|]. set (s1 := opened _ _ _ _ _).
  assert (Hh1 : holds s1 (ProtoSock.lowest_available s) key (mkEnds lb new_tx new_rx) sg1) by (by apply (opened_holds (set_rd s rd2)); destruct Hsl).
  tw_step. eapply tw_add_rd; [exact HR2|apply lookup_insert_eq|simpl in *; rewrite He2, He1; exact Hf2|]. simpl. intros rd3 HR3.
  rewrite insert_insert_eq in HR3. tw_step. eapply (tw_add_wr_key _ MW n wr); [exact HW|exact Hfw|exact Ew|]. simpl. intros HW1 Hew.
  tw_step. eapply tw_add_wr; [exact HW1|apply lookup_insert_eq|simpl; rewrite Hew; apply Hfw|]. simpl. intros it wr2 HF.
  rewrite insert_insert_eq in HF. tw_step.
  eapply (tw_set_my_turn _ _ key (mkEnds lb new_tx new_rx) sg1); [apply holds_set_wr, holds_set_wr, holds_set_rd; exact Hh1|exact Hin|]. intros b Hk. cbv zeta. simpl e_loc.
  set (sg2 := set_turn sg1 lb n true). intros Hh2. tw_step. eapply tw_point_wr; [exact HF|]. intros wr3 HW3. tw_step.
  destruct (Interprocess.push_ctl_spec new_tx new_rx (wire_of sg lb) [] (Interprocess.mkElement Interprocess.NEW_FD (Interprocess.data_fd_notify n)) Hw eq_refl ltac:(simpl; lia))
    as (t & w & Hpush & Hw').
  assert (Hw2 : wire_of sg2 lb = wire_of sg lb) by (unfold sg2, set_turn; simpl; apply Hwi).
  eapply tw_push; [apply holds_set_wr; exact Hh2|cbn [e_tx e_loc]; rewrite Hw2; exact Hpush|]. intros b2 Hk2 Hh3.
  unfold alloc_fd. tw_steps. eapply tw_need; [exact Ha|]. tw_steps. apply (HQ v n); [done|]. simpl e_loc in *. simpl e_rx in *.
  split; [|by split|done|].
  - split; try done; [exact (AdjList.models_key_pos _ _ _ _ _ HR3 (lookup_insert_eq _ _ _))| |].
    + eexists _, _, 0. split; [exact HR3|]. rewrite lookup_insert_eq. split; [reflexivity|]. done.
    + eexists _, _, _. split; [exact HW3|]. rewrite lookup_insert_eq. split; [reflexivity|]. done.
  - exists t, (set_wire sg2 lb w). rewrite wire_of_set_eq, wire_of_set_ne. split; [apply holds_set_fdm; exact Hh3|].
    split; [simpl; rewrite Hk, Hk2; by rewrite !insert_insert_eq|]. split; [exact Hw'|].
    split; [eapply push_ctl_settled; [|exact Hs1|exact Hpush]; done|]. split.
    { by eapply push_ctl_av. }
    split; [unfold sg2, set_turn; simpl; apply Hwi|]. split; [apply turn_set_eq|]. unfold sg2. rewrite <- Htu. apply turn_set_ne.
Qed.

Lemma tw_accept4 g s MR MW key sg l peer flags junk env kernel vl fl x vs rest (Q : Z -> thread -> Prop) :
  opener s MR MW key -> numbered s -> mem s !! key = Some sg -> let lb := negb (l =? 0) in
  settled (wire_of sg lb) -> settled (wire_of sg (negb lb)) -> Interprocess.wire_ok new_tx new_rx (wire_of sg lb) [] ->
  fd_in_turns peer = true ->
  socket_fd s vl fl -> MR !! fl = Some (x, vs) -> ftype x = Some USOCKET_TCP_LISTEN ->
  from_monitor s = Some (Metaqueue.mkCtl Metaqueue.RES_NEWCONNECTION
    (Metaqueue.resp_connect key (Some peer) (Some (port (property x))) l (Some false))) :: rest ->
  (forall v n s', MR !! n = None -> accepted s s' key lb sg v n peer (Z.land flags SOCK_NONBLOCK =? 0) -> Q v s') ->
  wp (accept4 g vl flags kernel junk env) Q s.
Proof.
  intros Ho Hnum Hm lb Hs1 Hs2 Hw Hp Hfd Hx Hl Hfrom HQ. unfold wp, accept4. rewrite (socket_lookup _ _ _ _ Hfd).
  change (wp (accept_socket g fl flags junk env) Q s). unfold accept_socket, next_connection, poll_monitor. tw_steps. rewrite Hfrom. tw_steps.
  assert (Ho' : opener (set_from s rest) MR MW key) by (by destruct Ho as [H1 H2 H3 H4 [] H6]).
  cbn [Metaqueue.command Metaqueue.body]. tw_step.
  eapply tw_keyvalid; [apply Ho'|exact (AdjList.models_key_pos _ _ _ _ _ (op_rd _ _ _ _ Ho) Hx)|exact Hx|]. simpl negb. cbv iota. tw_step.
  eapply tw_file; [apply Ho'|exact Hx|]. rewrite Hl, bool_decide_true by done. cbn [default]. rewrite Z.eqb_refl.
  eapply tw_install; [exact Ho'|exact Hnum|exact Hm|exact Hs1|exact Hs2|exact Hw|exact Hp|]. intros v n s' Hn [H1 H2 H3 H4].
  apply (HQ v n); [exact Hn|]. by split.
Qed.

(** ** Connecting *)

Lemma tw_ele_del s i key e sg it r w it' (Q : Interprocess.iterator -> thread -> Prop) :
  holds s i key e sg -> Interprocess.it_del (e_rx e) (wire_of sg (negb (e_loc e))) it = Some (r, w, it') ->
  (forall b, shmemkey b = key -> holds (put_conn s i b (mkEnds (e_loc e) (e_tx e) r) (set_wire sg (negb (e_loc e)) w)) i key
               (mkEnds (e_loc e) (e_tx e) r) (set_wire sg (negb (e_loc e)) w) ->
     Q it' (put_conn s i b (mkEnds (e_loc e) (e_tx e) r) (set_wire sg (negb (e_loc e)) w))) ->
  wp (ele_del i it) Q s.
Proof.
  intros H Hp HQ. unfold ele_del. tw_step. eapply tw_conn_at; [done|]. intros b Hb Hk Hr. tw_step.
  eapply tw_need; [done|]. unfold set_conn. tw_steps. apply HQ; [done|]. by eapply holds_put.
Qed.

Lemma it_del_av r (w : Interprocess.wire IpBuffer.availq) it r' w' it' :
  Interprocess.it_del r w it = Some (r', w', it') -> Interprocess.w_av w' = Interprocess.w_av w.
Proof. unfold Interprocess.it_del. destruct (Interprocess.is_emergency_done it), (LocklessQueue.del _ _ _ _) as [[[??]?]|]; by intros [= <- <- <-]. Qed.

Lemma scan_turns_S : exists m, scan_turns = S m.
Proof. unfold scan_turns. destruct (Z.to_nat _) eqn:E; [|eauto]. assert (0 < 4 * Interprocess.SIZE * Interprocess.SIZE) by reflexivity. lia. Qed.

(** The answer of the peer is in the queue. *)
Lemma tw_await_now s i key e sg tP n peers (Q : Z -> thread -> Prop) :
  holds s i key e sg -> Interprocess.wire_ok tP (e_rx e) (wire_of sg (negb (e_loc e))) [new_fd_cell n] ->
  (forall b r w, let e' := mkEnds (e_loc e) (e_tx e) r in let sg' := set_wire sg (negb (e_loc e)) w in
     shmemkey b = key -> Interprocess.wire_ok tP r w [] ->
     Interprocess.w_av w = Interprocess.w_av (wire_of sg (negb (e_loc e))) -> holds (put_conn s i b e' sg') i key e' sg' ->
     Q n (put_conn s i b e' sg')) ->
  wp (await_new_fd i peers) Q s.
Proof.
  intros H Hw HQ. destruct scan_turns_S as [m Hm].
  assert (Hfind : wp (find_new_fd scan_turns i (Interprocess.begin (e_rx e))) (fun r s' => r = Some n /\ Q n s') s).
  { rewrite Hm. cbn [find_new_fd]. tw_step. pose proof (Interprocess.at_cell_begin _ _ _ _ Hw) as Hat.
    eapply tw_peek; [exact H|by eapply Interprocess.it_peek_spec|]. cbv beta iota. cbn [fst snd negb]. simpl. tw_step.
    destruct (Interprocess.it_del_spec tP (e_rx e) (wire_of sg (negb (e_loc e))) [new_fd_cell n]
      (Interprocess.mkIter (Interprocess.q_pointer (Interprocess.begin (e_rx e))) (Interprocess.q_emergency_pointer (Interprocess.begin (e_rx e))) true) 0 (new_fd_cell n))
      as (r' & w' & it' & Hd & Hw'); [done|done|split; [apply Hat|by left]|done|done|done|].
    eapply tw_ele_del; [exact H|exact Hd|]. intros b Hk Hh. tw_step. split; [done|]. apply HQ; [done|done|by eapply it_del_av|done]. }
  destruct peers; cbn [await_new_fd]; tw_step; (eapply tw_ele_begin; [exact H|]); tw_step;
    (eapply tw_mono; [exact Hfind|]); intros a s' [-> HQ']; by tw_step.
Qed.

(** Nothing is there yet; then the peer answers. *)
Lemma tw_await_later s i key e sg tP p peers (Q : Z -> thread -> Prop) :
  holds s i key e sg -> Interprocess.wire_ok tP (e_rx e) (wire_of sg (negb (e_loc e))) [] ->
  wp (await_new_fd i peers) Q (set_mem s (p (mem s))) -> wp (await_new_fd i (p :: peers)) Q s.
Proof.
  intros H Hw HQ. destruct scan_turns_S as [m Hm]. cbn [await_new_fd]. tw_step. eapply tw_ele_begin; [exact H|]. tw_step.
  rewrite Hm. cbn [find_new_fd]. tw_step. pose proof (Interprocess.at_cell_begin _ _ _ _ Hw) as Hat.
  destruct (Interprocess.it_peek_end _ _ _ _ _ Hw Hat ltac:(simpl; lia)) as (o & d & Hpk).
  eapply tw_peek; [exact H|exact Hpk|]. cbv beta iota. cbn [fst snd negb]. cbv iota. tw_steps. exact HQ.
Qed.

Lemma tw_push_local s e (Q : unit -> thread -> Prop) : Q tt (set_to s (to_monitor s ++ [e])) -> wp (push_line Local e) Q s.
Proof. done. Qed.

Lemma tw_wait_local s e rest (Q : ctl -> thread -> Prop) :
  from_monitor s = Some e :: rest -> Q e (set_from s rest) -> wp (wait_line Local) Q s.
Proof. intros E HQ. unfold wait_line. tw_steps. by rewrite E. Qed.

(** Only connections and memory have changed. *)
Record data_only (s s' : thread) : Prop := {
  do_rd : fds_datawithrd s' = fds_datawithrd s;
  do_wr : fds_wr s' = fds_wr s;
  do_fdm : fdm s' = fdm s;
  do_urgent : urgent s' = urgent s
}.

(** The thread while it waits for the answer of its peer. *)
Record half_open (s s1 : thread) (key : Z) (l : bool) (sg sg1 : segment) (fd : Z) : Prop := {
  ho_holds : holds s1 (ProtoSock.lowest_available s) key (mkEnds l new_tx new_rx) sg1;
  ho_mem : mem s1 = <[key := sg1]> (mem s);
  ho_wires : forall b, wire_of sg1 b = wire_of sg b;
  ho_turn : my_turn sg1 l fd;
  ho_other : turn_of sg1 (negb l) = turn_of sg (negb l)
}.

Lemma tw_connect g s MR MW key sg l v fd x y a b c p rest kc env peers (P : Z -> thread -> Prop) (Q : via Z -> thread -> Prop) :
  opener s MR MW key -> mem s !! key = Some sg -> let lb := negb (l =? 0) in
  settled (wire_of sg lb) -> settled (wire_of sg (negb lb)) ->
  socket_fd s v fd -> MR !! fd = Some (x, []) -> MW !! fd = Some (y, []) -> isopened (property x) = false -> fd_in_turns fd = true ->
  from_monitor s = Some (Metaqueue.mkCtl Metaqueue.RES_SUCCESS (Metaqueue.resp_connect key a b l c)) :: rest ->
  (forall s1 sg1, half_open s s1 key lb sg sg1 fd ->
     wp (await_new_fd (ProtoSock.lowest_available s) peers) (fun n s2 => data_only s1 s2 /\ fd_in_turns n = true /\ P n s2) s1) ->
  (forall n s2 rd, P n s2 -> endpoint (fdm s2) (set_rd s2 rd) fd n (ProtoSock.lowest_available s) (is_blocking (property x)) ->
     socket_fd (set_rd s2 rd) v fd -> Q (Lib 0) (set_rd s2 rd)) ->
  wp (connect g v (mkAddr AF_INET INADDR_LOOPBACK p) kc env peers) Q s.
Proof.
  intros Ho Hm lb Hs1 Hs2 Hfd Hx Hy Hno Hin Hfrom Hawait HQ. pose proof Ho as [HR HW [[_ Hf2] [_ Hfw]] Hstep Hsl Hu].
  unfold wp, connect. rewrite (hooked_socket _ _ _ _ Hfd). match goal with |- match ?c s with _ => _ end => change (wp c Q s) end.
  tw_step. cbn [sa_family sin_addr sin_port]. rewrite Z.eqb_refl. cbn [negb]. tw_step.
  eapply tw_keyvalid; [exact HR|exact (AdjList.models_key_pos _ _ _ _ _ HR Hx)|exact Hx|]. simpl negb. cbv iota. tw_step.
  eapply tw_file; [exact HR|exact Hx|]. rewrite Hno. tw_steps.
  eapply tw_set_file; [exact HR|exact Hx|]. simpl. intros rd1 HR1 He1. tw_step. tw_step. tw_step.
  apply tw_push_local. tw_step. eapply tw_wait_local; [exact Hfrom|]. cbn [Metaqueue.command Metaqueue.body]. tw_step.
  destruct (attach_settled sg lb Hs1 Hs2) as (sg1 & Hat & Htu & Hwi).
  eapply tw_conn_buffer; [by destruct Hsl|exact Hm|exact Hat|]. set (s1 := opened _ _ _ _ _).
  assert (Hh1 : holds s1 (ProtoSock.lowest_available s) key (mkEnds lb new_tx new_rx) sg1)
    by (apply (opened_holds (set_from (set_to (set_rd s rd1) _) rest)); by destruct Hsl).
  tw_step. eapply tw_add_rd; [exact HR1|apply lookup_insert_eq|simpl in *; rewrite He1; exact Hf2|]. simpl. intros rd2 HR2.
  rewrite insert_insert_eq in HR2. tw_step. eapply tw_add_wr; [exact HW|exact Hy|exact Hfw|]. simpl. intros it wr1 HF. tw_step.
  eapply tw_point_wr; [exact HF|]. intros wr2 HW2. tw_step.
  eapply (tw_set_my_turn _ _ key (mkEnds lb new_tx new_rx) sg1); [apply holds_set_wr, holds_set_wr, holds_set_rd; exact Hh1|exact Hin|].
  intros bf Hk. cbv zeta. simpl e_loc. set (sg2 := set_turn sg1 lb fd true). intros Hh2. tw_step.
  eapply tw_mono; [apply (Hawait _ sg2)|].
  - split; [exact Hh2|simpl; rewrite Hk; by rewrite insert_insert_eq|exact Hwi|apply turn_set_eq|unfold sg2; rewrite turn_set_ne; by rewrite Htu].
  - intros n s2 ([D1 D2 D3 D4] & Hn & HP). tw_step.
    eapply tw_set_file; [rewrite D1; exact HR2|apply lookup_insert_eq|]. simpl. intros rd3 HR3 _. rewrite insert_insert_eq in HR3. tw_steps.
    apply (HQ n s2 rd3 HP); [|destruct Hfd; split; simpl; by rewrite D3]. split; [exact (AdjList.models_key_pos _ _ _ _ _ HR Hx)|done| | |by simpl; rewrite D4|done].
    + eexists _, _, 0. split; [exact HR3|]. rewrite lookup_insert_eq. split; [reflexivity|]. done.
    + eexists _, _, _. split; [simpl; rewrite D2; exact HW2|]. rewrite lookup_insert_eq. split; [reflexivity|]. done.
Qed.

End ProtoHandshake.
