(* ===== verification/ProtoPair.v ===== *)
(** * Two threads of the prototype

    Two threads at the two ends of a connection, each calling [read] and [write]
    on its own descriptor: what one reads is what the other wrote, in order and
    without loss; and the calls [accept] and [connect] lead there. *)

From Stdlib Require Import ZArith Lia.
From stdpp Require Import numbers base gmap list relations.
From S2P Require Import Prelude Text DArray AdjList LocklessQueue Metaqueue IpBuffer Interprocess ProtoFd ProtoSock ProtoTables ProtoCalls ProtoStream ProtoHandshake.
Import ProtoFd ProtoSock ProtoTables ProtoCalls ProtoStream ProtoHandshake.

Module ProtoPair.

(** ** How full a queue is *)

(** The messages that the receiver [r] finds, counted. *)
Fixpoint count_from (fuel : nat) (r : LocklessQueue.queue) (m : LocklessQueue.shm Interprocess.element) (k : nat) : nat :=
  match fuel with
  | O => k
  | S fuel =>
      match LocklessQueue.peek r m (u32 (LocklessQueue.pointer r + Z.of_nat k)) with
      | Some (_, (true, _)) => count_from fuel r m (S k)
      | _ => k
      end
  end.
Definition queued (r : Interprocess.rx) (w : Interprocess.wire IpBuffer.availq) : nat :=
  count_from (Z.to_nat Interprocess.SIZE) (Interprocess.r_q r) (Interprocess.w_q w) 0.

Lemma count_from_ok t r w L fuel (k : nat) :
  Interprocess.wire_ok t r w L -> (length L < 256)%nat -> (k <= length L)%nat -> (length L - k < fuel)%nat ->
  count_from fuel (Interprocess.r_q r) (Interprocess.w_q w) k = length L.
Proof.
  intros Hw HL. revert k. induction fuel as [|fuel IH]; intros k Hk Hf; [lia|]. cbn [count_from].
  destruct (LocklessQueue.rep_peek 8 ltac:(lia) _ _ _ _ k (Interprocess.wo_q _ _ _ _ Hw) ltac:(lia)) as (d & b & v & -> & Hl).
  unfold Interprocess.marks in Hl. rewrite list_lookup_fmap in Hl. destruct (L !! k) as [c|] eqn:E.
  - destruct Hl as (_ & _ & ->). apply lookup_lt_Some in E. apply IH; lia.
  - simpl in Hl. subst v. apply lookup_ge_None in E. lia.
Qed.

Lemma queued_ok t r w L : Interprocess.wire_ok t r w L -> (length L < 256)%nat -> queued r w = length L.
Proof. intros Hw HL. unfold queued. eapply count_from_ok; [exact Hw|exact HL|lia|]. change (Z.to_nat Interprocess.SIZE) with 256%nat. lia. Qed.

(** ** The two threads *)

(** The thread at each end, with the bytes it has written and those it has
    read. *)
Record pair := mkPair { th : bool -> thread; out : bool -> list Z; inn : bool -> list Z }.

Definition upd {A} (f : bool -> A) (b : bool) (x : A) : bool -> A := fun c => if bool_decide (c = b) then x else f c.

Lemma upd_eq {A} (f : bool -> A) b x : upd f b x b = x.
Proof. unfold upd. by rewrite bool_decide_true. Qed.
Lemma upd_ne {A} (f : bool -> A) b x : upd f b x (negb b) = f (negb b).
Proof. unfold upd. by rewrite bool_decide_false by (by destruct b). Qed.

(** A call of end [b] has left its thread in [s]; the memory is common. *)
Definition after_call (P : pair) (b : bool) (s : thread) : bool -> thread :=
  upd (upd (th P) (negb b) (set_mem (th P (negb b)) (mem s))) b s.

Lemma after_call_eq P b s : after_call P b s b = s.
Proof. apply upd_eq. Qed.
Lemma after_call_ne P b s : after_call P b s (negb b) = set_mem (th P (negb b)) (mem s).
Proof. unfold after_call. rewrite upd_ne. apply upd_eq. Qed.

Lemma both (b : bool) (Q : bool -> Prop) : Q b -> Q (negb b) -> forall c, Q c.
Proof. destruct b; by intros ?? []. Qed.

Section system.
(** The segment of the connection, the descriptors the programs use, their
    numbers in the tables, and the places of the connection's buffers. *)
Context (g key : Z) (F : bool -> fdmap) (vfd fd idx : bool -> Z) (blk : bool -> bool).

(** [L b] are the messages on their way from end [b]. *)
Record link (P : pair) (e : bool -> ends) (sg : segment) (L : bool -> list Interprocess.cell) : Prop := {
  lk_fd : forall b, get_fd_type (F b) (vfd b) = Some FD_TYPE_SOCKET /\ get_real_fd (F b) (vfd b) = Some (fd b);
  lk_ep : forall b, endpoint (F b) (th P b) (fd b) (fd (negb b)) (idx b) (blk b);
  lk_holds : forall b, holds (th P b) (idx b) key (e b) sg;
  lk_loc : forall b, e_loc (e b) = b;
  lk_wire : forall b, Interprocess.wire_ok (e_tx (e b)) (e_rx (e (negb b))) (wire_of sg b) (L b);
  lk_len : forall b, (length (L b) <= 128)%nat;
  lk_carried : forall b, Forall (carried (fd (negb b))) (L b);
  lk_turn : forall b, my_turn sg b (fd b);
  lk_bytes : forall b, out P b = inn P (negb b) ++ pending (fd (negb b)) (L b)
}.

Definition linked (P : pair) : Prop := exists e sg L, link P e sg L.

(** There is room for a write: less than half of the ring is used, and there are
    blocks for the bytes. *)
Definition room (P : pair) (b : bool) (bytes : list Z) : Prop :=
  bytes <> [] /\ Z.of_nat (length bytes) < 16384 /\
  exists e e' sg, holds (th P b) (idx b) key e sg /\ holds (th P (negb b)) (idx (negb b)) key e' sg
    /\ (queued (e_rx e') (wire_of sg b) < 128)%nat
    /\ Z.of_nat (length bytes) <= 1018 * Z.of_nat (length (IpBuffer.tokens (Interprocess.w_av (wire_of sg b)))).

Definition unread (P : pair) (b : bool) : Prop := out P (negb b) <> inn P b.

Inductive step (P : pair) : pair -> Prop :=
  | step_write b bytes phys n s : room P b bytes -> write g (vfd b) bytes phys (th P b) = Done (Lib n, s) ->
      step P (mkPair (after_call P b s) (upd (out P) b (out P b ++ take (Z.to_nat n) bytes)) (inn P))
  | step_read b n mapped r s : 0 < n < 2 ^ 31 -> blk b = false \/ unread P b ->
      read g (vfd b) n mapped [] (th P b) = Done (Lib r, s) ->
      step P (mkPair (after_call P b s) (out P) (upd (inn P) b (inn P b ++ got_bytes r)))
  | step_check b r s : check_sockfd_receive g (fd b) (th P b) = Done (r, s) ->
      step P (mkPair (after_call P b s) (out P) (inn P)).

Lemma holds_fun s i e sg e' sg' : holds s i key e sg -> holds s i key e' sg' -> e = e' /\ sg = sg'.
Proof. intros [_ (b & H1 & H2 & _) H3] [_ (b' & K1 & K2 & _) K3]. split; congruence. Qed.

Lemma holds_set_mem s i e sg m sg' : holds s i key e sg -> m !! key = Some sg' -> holds (set_mem s m) i key e sg'.
Proof. intros [H1 H2 H3] Hm. by split. Qed.

Lemma unread_pending P e sg L b : link P e sg L -> unread P b <-> pending (fd b) (L (negb b)) <> [].
Proof.
  intros K. unfold unread. pose proof (lk_bytes _ _ _ _ K (negb b)) as H. rewrite negb_involutive in H. rewrite H.
  rewrite <- (app_nil_r (inn P b)) at 2. split; intros Hn E; apply Hn; [by rewrite E|by apply app_inv_head in E].
Qed.

(** ** What the calls do *)

Lemma link_socket P e sg L b : link P e sg L -> socket_fd (th P b) (vfd b) (fd b).
Proof. intros K. unfold socket_fd. rewrite (ep_fdm _ _ _ _ _ _ (lk_ep _ _ _ _ K b)). apply K. Qed.

Lemma via_lib {A} (c : Z -> M A) P e sg L b (a : A) s :
  link P e sg L -> c (fd b) (th P b) = Done (a, s) -> hooked (vfd b) c (th P b) = Done (Lib a, s).
Proof. intros K E. rewrite (hooked_socket _ _ _ _ (link_socket _ _ _ _ b K)). unfold mbind, M_bind. by rewrite E. Qed.

Lemma turn_peer P e sg L b : link P e sg L -> my_turn sg (negb (e_loc (e b))) (fd (negb b)).
Proof. intros K. rewrite (lk_loc _ _ _ _ K). apply K. Qed.

(** The messages for end [b]. *)
Lemma wire_in P e sg L b : link P e sg L ->
  Interprocess.wire_ok (e_tx (e (negb b))) (e_rx (e b)) (wire_of sg (negb (e_loc (e b)))) (L (negb b))
  /\ (length (L (negb b)) < 256)%nat /\ Forall (carried (fd b)) (L (negb b)).
Proof.
  intros K. rewrite (lk_loc _ _ _ _ K). pose proof (lk_wire _ _ _ _ K (negb b)) as H. pose proof (lk_len _ _ _ _ K (negb b)).
  pose proof (lk_carried _ _ _ _ K (negb b)) as H2. rewrite negb_involutive in *. split_and!; [done|lia|done].
Qed.

Lemma call_write P e sg L b bytes phys : link P e sg L -> room P b bytes -> exists s,
  write g (vfd b) bytes phys (th P b) = Done (Lib (Z.of_nat (length bytes)), s)
  /\ (length (L b) < 128)%nat
  /\ sent (F b) (th P b) s (fd b) (fd (negb b)) (idx b) key (blk b) (e b) sg (e_rx (e (negb b))) (L b) bytes.
Proof.
  intros K (Hne & Hsm & e1 & e2 & sg1 & H1 & H2 & Hq & Hfit).
  destruct (holds_fun _ _ _ _ _ _ H1 (lk_holds _ _ _ _ K b)) as [-> ->].
  destruct (holds_fun _ _ _ _ _ _ H2 (lk_holds _ _ _ _ K (negb b))) as [-> _].
  destruct (wire_in _ _ _ _ b K) as (Hwi & Hli & Hci). pose proof (lk_wire _ _ _ _ K b) as Hw. pose proof (lk_len _ _ _ _ K b) as Hl.
  rewrite (queued_ok _ _ _ _ Hw) in Hq by lia.
  assert (Hw1 : Interprocess.wire_ok (e_tx (e b)) (e_rx (e (negb b))) (wire_of sg (e_loc (e b))) (L b)) by (by rewrite (lk_loc _ _ _ _ K)).
  assert (Hfit1 : Z.of_nat (length bytes) <= 1018 * Z.of_nat (length (IpBuffer.tokens (Interprocess.w_av (wire_of sg (e_loc (e b)))))))
    by (by rewrite (lk_loc _ _ _ _ K)).
  assert (Hwp : wp (write_socket g (fd b) [bytes] phys) (fun n s => n = Z.of_nat (length bytes) /\
    sent (F b) (th P b) s (fd b) (fd (negb b)) (idx b) key (blk b) (e b) sg (e_rx (e (negb b))) (L b) bytes) (th P b)).
  { eapply tw_write; [apply K|apply K|by eapply turn_peer|exact Hw1|exact Hwi|exact Hli|exact Hci|exact Hne|exact Hsm|exact Hfit1|exact Hq|]. done. }
  apply tw_done in Hwp as (n & s & E & -> & Hs). exists s. split; [|done]. by eapply via_lib.
Qed.

Lemma call_read P e sg L b n mapped : link P e sg L -> 0 < n < 2 ^ 31 -> unread P b -> exists (k : nat) s,
  read g (vfd b) n mapped [] (th P b) = Done (Lib (mkReceived (Z.of_nat k) (take k (pending (fd b) (L (negb b)))) []), s)
  /\ Z.of_nat k <= n
  /\ took (F b) (th P b) s (fd b) (fd (negb b)) (idx b) key (blk b) (e b) sg (e_tx (e (negb b))) (L (negb b)) k.
Proof.
  intros K Hn Hu. destruct (wire_in _ _ _ _ b K) as (Hwi & Hli & Hci). apply (unread_pending _ _ _ _ _ K) in Hu.
  assert (Hwp : wp (recv_socket g (fd b) n mapped []) (fun r s => exists k : nat, r = mkReceived (Z.of_nat k) (take k (pending (fd b) (L (negb b)))) []
    /\ Z.of_nat k <= n /\ took (F b) (th P b) s (fd b) (fd (negb b)) (idx b) key (blk b) (e b) sg (e_tx (e (negb b))) (L (negb b)) k) (th P b)).
  { eapply tw_recv; [apply K|apply K|by eapply turn_peer|exact Hwi|exact Hli|exact Hci|exact Hn|by right| |done]. intros k s Hk Hkn. by exists k. }
  apply tw_done in Hwp as (r & s & E & k & -> & Hkn & Hk). exists k, s. split; [|done]. by eapply via_lib.
Qed.

Lemma call_read_empty P e sg L b n mapped : link P e sg L -> 0 < n < 2 ^ 31 -> blk b = false -> ~ unread P b -> exists s,
  read g (vfd b) n mapped [] (th P b) = Done (Lib (mkReceived (-1) [] []), s) /\ last_error s = Some EAGAIN
  /\ endpoint (F b) s (fd b) (fd (negb b)) (idx b) (blk b) /\ holds s (idx b) key (e b) sg /\ mem s = mem (th P b).
Proof.
  intros K Hn Hb Hu. destruct (wire_in _ _ _ _ b K) as (Hwi & Hli & Hci). rewrite (unread_pending _ _ _ _ _ K) in Hu.
  assert (Hwp : wp (recv_socket g (fd b) n mapped []) (fun r s => r = mkReceived (-1) [] [] /\ last_error s = Some EAGAIN
    /\ endpoint (F b) s (fd b) (fd (negb b)) (idx b) (blk b) /\ holds s (idx b) key (e b) sg /\ mem s = mem (th P b)) (th P b)).
  { eapply tw_recv; [apply K|apply K|by eapply turn_peer|exact Hwi|exact Hli|exact Hci|exact Hn|by left| |done].
    intros k s Hk _. exfalso. apply Hu. intros E. pose proof (tk_some _ _ _ _ _ _ _ _ _ _ _ _ _ Hk) as Hp. rewrite E in Hp. simpl in Hp. lia. }
  apply tw_done in Hwp as (r & s & E & -> & Hs). exists s. split; [|done]. by eapply via_lib.
Qed.

Lemma call_check P e sg L b : link P e sg L -> exists s,
  check_sockfd_receive g (fd b) (th P b) = Done (if bool_decide (pending (fd b) (L (negb b)) = []) then 0 else POLLIN, s)
  /\ endpoint (F b) s (fd b) (fd (negb b)) (idx b) (blk b) /\ holds s (idx b) key (e b) sg /\ mem s = mem (th P b).
Proof.
  intros K. destruct (wire_in _ _ _ _ b K) as (Hwi & Hli & Hci).
  assert (Hwp : wp (check_sockfd_receive g (fd b)) (fun r s => r = (if bool_decide (pending (fd b) (L (negb b)) = []) then 0 else POLLIN)
    /\ endpoint (F b) s (fd b) (fd (negb b)) (idx b) (blk b) /\ holds s (idx b) key (e b) sg /\ mem s = mem (th P b)) (th P b)).
  { eapply tw_check; [apply K|apply K|by eapply turn_peer|exact Hwi|exact Hli|exact Hci|]. done. }
  apply tw_done in Hwp as (r & s & E & -> & Hs). by exists s.
Qed.

(** ** The connection is kept *)

Lemma link_call P e sg L b s e1 sg1 L1 o1 i1 : link P e sg L ->
  endpoint (F b) s (fd b) (fd (negb b)) (idx b) (blk b) -> holds s (idx b) key e1 sg1 -> e_loc e1 = b ->
  Interprocess.wire_ok (e_tx e1) (e_rx (e (negb b))) (wire_of sg1 b) (L1 b) ->
  Interprocess.wire_ok (e_tx (e (negb b))) (e_rx e1) (wire_of sg1 (negb b)) (L1 (negb b)) ->
  (forall c, length (L1 c) <= 128)%nat -> (forall c, Forall (carried (fd (negb c))) (L1 c)) -> turn_of sg1 = turn_of sg ->
  (forall c, o1 c = i1 (negb c) ++ pending (fd (negb c)) (L1 c)) ->
  link (mkPair (after_call P b s) o1 i1) (upd e b e1) sg1 L1.
Proof.
  intros K HE H1 Hloc Hw1 Hw2 Hlen HC Ht Hby. split; try done.
  - apply K.
  - apply (both b); simpl; [by rewrite after_call_eq|rewrite after_call_ne]. eapply endpoint_frame; [..|apply K]; done.
  - apply (both b); simpl; [by rewrite after_call_eq, upd_eq|rewrite after_call_ne, upd_ne].
    eapply holds_set_mem; [apply K|apply H1].
  - apply (both b); [by rewrite upd_eq|rewrite upd_ne]. apply K.
  - apply (both b); rewrite ?negb_involutive, upd_eq, upd_ne; done.
  - intros c. unfold my_turn. rewrite Ht. apply K.
Qed.

Lemma pending_live f c : live_data f c = true -> pending f [c] = Interprocess.c_bytes c.
Proof. intros H. unfold pending. rewrite filter_cons_True by done. simpl. apply app_nil_r. Qed.

Lemma link_write P e sg L b bytes s : link P e sg L -> (length (L b) < 128)%nat ->
  sent (F b) (th P b) s (fd b) (fd (negb b)) (idx b) key (blk b) (e b) sg (e_rx (e (negb b))) (L b) bytes ->
  linked (mkPair (after_call P b s) (upd (out P) b (out P b ++ bytes)) (inn P)).
Proof.
  intros K Hl [HE (t & w & c & H1 & Hw & Hlv & Hcb & Hm)]. rewrite (lk_loc _ _ _ _ K b) in *.
  exists (upd e b (mkEnds b t (e_rx (e b)))), (set_wire sg b w), (upd L b (L b ++ [c])). eapply link_call; [done|done|done|done|..].
  - by rewrite wire_of_set_eq, upd_eq.
  - rewrite wire_of_set_ne, upd_ne. pose proof (lk_wire _ _ _ _ K (negb b)) as Hn. by rewrite negb_involutive in Hn.
  - apply (both b); [rewrite upd_eq, length_app; simpl; lia|rewrite upd_ne; apply K].
  - apply (both b); [rewrite upd_eq|rewrite upd_ne; apply K]. apply Forall_app. split; [apply K|]. constructor; [by left|done].
  - done.
  - apply (both b); [|rewrite !upd_ne; apply K]. rewrite !upd_eq, pending_app, (lk_bytes _ _ _ _ K b), <- app_assoc.
    by rewrite (pending_live _ c) by done; rewrite Hcb.
Qed.

Lemma link_read P e sg L b k s : link P e sg L ->
  took (F b) (th P b) s (fd b) (fd (negb b)) (idx b) key (blk b) (e b) sg (e_tx (e (negb b))) (L (negb b)) k ->
  linked (mkPair (after_call P b s) (out P) (upd (inn P) b (inn P b ++ take k (pending (fd b) (L (negb b)))))).
Proof.
  intros K [Hk HE (r & w & L' & H1 & Hw & HC & Hp & Hlen & Hm)]. rewrite (lk_loc _ _ _ _ K b) in *.
  exists (upd e b (mkEnds b (e_tx (e b)) r)), (set_wire sg (negb b) w), (upd L (negb b) L').
  assert (Hb : upd L (negb b) L' b = L b) by (rewrite <- (negb_involutive b) at 2; rewrite upd_ne; by rewrite negb_involutive).
  eapply link_call; [done|done|done|done|..].
  - pose proof (wire_of_set_ne sg (negb b) w) as Hn. rewrite negb_involutive in Hn. rewrite Hn, Hb. apply K.
  - by rewrite wire_of_set_eq, upd_eq.
  - apply (both b); [rewrite Hb; apply K|rewrite upd_eq]. pose proof (lk_len _ _ _ _ K (negb b)). lia.
  - apply (both b); [rewrite Hb; apply K|by rewrite upd_eq, negb_involutive].
  - done.
  - apply (both b); [rewrite Hb, upd_ne; apply K|]. rewrite !upd_eq, negb_involutive, upd_eq, Hp, <- app_assoc, take_drop.
    pose proof (lk_bytes _ _ _ _ K (negb b)) as H. by rewrite negb_involutive in H.
Qed.

Lemma link_still P e sg L b s : link P e sg L -> endpoint (F b) s (fd b) (fd (negb b)) (idx b) (blk b) ->
  holds s (idx b) key (e b) sg -> linked (mkPair (after_call P b s) (out P) (inn P)).
Proof.
  intros K HE H. exists (upd e b (e b)), sg, L. eapply link_call; try done; try apply K.
  pose proof (lk_wire _ _ _ _ K (negb b)) as Hn. by rewrite negb_involutive in Hn.
Qed.

(** Each step keeps the connection. *)
Lemma step_linked P P' : linked P -> step P P' -> linked P'.
Proof.
  intros (e & sg & L & K) St. destruct St as [b bytes phys n s Hr E|b n mapped r s Hn Hu E|b r s E].
  - destruct (call_write _ _ _ _ _ _ phys K Hr) as (s' & E' & Hl & Hs). rewrite E in E'. injection E' as -> ->.
    rewrite Nat2Z.id, firstn_all. by eapply link_write.
  - destruct (decide (pending (fd b) (L (negb b)) = [])) as [Hp|Hp].
    + assert (Hnu : ~ unread P b) by (rewrite (unread_pending _ _ _ _ _ K); tauto).
      destruct (call_read_empty _ _ _ _ b n mapped K Hn) as (s' & E' & _ & HE & H & _); [tauto|done|].
      rewrite E in E'. injection E' as -> ->. destruct (link_still _ _ _ _ b s' K HE H) as (e1 & sg1 & L1 & K1).
      exists e1, sg1, L1. destruct K1 as [A1 A2 A3 A4 A5 A6 A7 A8 A9]. split; try done. intros c. specialize (A9 c). cbn [out inn] in *. rewrite A9. f_equal.
      unfold upd. destruct (bool_decide_reflect (negb c = b)) as [<-|]; [by rewrite app_nil_r|done].
    + destruct (call_read _ _ _ _ b n mapped K Hn) as (k & s' & E' & Hk & Ht); [by apply (unread_pending _ _ _ _ _ K)|].
      rewrite E in E'. injection E' as -> ->. by eapply link_read.
  - destruct (call_check _ _ _ _ b K) as (s' & E' & HE & H & _). rewrite E in E'. injection E' as -> ->. by eapply link_still.
Qed.

Lemma steps_linked P P' : linked P -> rtc step P P' -> linked P'.
Proof. intros H St. induction St; eauto using step_linked. Qed.

End system.

(** ** Opening the connection *)

(** One value for end [l], another for the other. *)
Definition two {A} (l : bool) (x y : A) : bool -> A := upd (fun _ => y) l x.

Lemma two_eq {A} l (x y : A) : two l x y l = x.
Proof. apply upd_eq. Qed.
Lemma two_ne {A} l (x y : A) : two l x y (negb l) = y.
Proof. apply upd_ne. Qed.

Definition opening (l : bool) (a b : thread) : pair := mkPair (two l a b) (fun _ => []) (fun _ => []).

Lemma linked_opening key (l : bool) ta tb va vb fa fb ia ib ba bb xa ra xb rb sg :
  endpoint (fdm ta) ta fa fb ia ba -> endpoint (fdm tb) tb fb fa ib bb -> socket_fd ta va fa -> socket_fd tb vb fb ->
  holds ta ia key (mkEnds l xa ra) sg -> holds tb ib key (mkEnds (negb l) xb rb) sg ->
  Interprocess.wire_ok xa rb (wire_of sg l) [] -> Interprocess.wire_ok xb ra (wire_of sg (negb l)) [] ->
  my_turn sg l fa -> my_turn sg (negb l) fb ->
  linked key (two l (fdm ta) (fdm tb)) (two l va vb) (two l fa fb) (two l ia ib) (two l ba bb) (opening l ta tb).
Proof.
  intros Ea Eb Va Vb Ha Hb Wa Wb Ta Tb.
  exists (two l (mkEnds l xa ra) (mkEnds (negb l) xb rb)), sg, (fun _ => []).
  split; try (apply (both l); rewrite ?negb_involutive; cbn [th opening]; rewrite ?two_eq, ?two_ne; done); simpl; try done; intros; lia.
Qed.

(** Any first write of less than four pages finds room. *)
Definition writable (key : Z) (idx : bool -> Z) (P : pair) : Prop :=
  forall b bytes, bytes <> [] -> Z.of_nat (length bytes) < 16384 -> room key idx P b bytes.

Lemma writable_opening key (l : bool) ta tb ia ib xa ra xb rb sg :
  holds ta ia key (mkEnds l xa ra) sg -> holds tb ib key (mkEnds (negb l) xb rb) sg ->
  Interprocess.wire_ok xa rb (wire_of sg l) [] -> Interprocess.wire_ok xb ra (wire_of sg (negb l)) [] ->
  (forall b, length (IpBuffer.tokens (Interprocess.w_av (wire_of sg b))) = 1024%nat) ->
  writable key (two l ia ib) (opening l ta tb).
Proof.
  intros Ha Hb Wa Wb Ht b bytes Hne Hlen. split; [done|]. split; [done|]. revert b. apply (both l).
  - exists (mkEnds l xa ra), (mkEnds (negb l) xb rb), sg. cbn [th opening]. rewrite !two_eq, !two_ne, Ht. cbn [e_rx].
    rewrite (queued_ok _ _ _ _ Wa) by (simpl; lia). split_and!; [done|done|simpl; lia|lia].
  - exists (mkEnds (negb l) xb rb), (mkEnds l xa ra), sg. cbn [th opening]. rewrite !negb_involutive, !two_eq, !two_ne, Ht. cbn [e_rx].
    rewrite (queued_ok _ _ _ _ Wb) by (simpl; lia). split_and!; [done|done|simpl; lia|lia].
Qed.

(** A segment that the monitor has just made. *)
Definition fresh (sg : segment) : Prop :=
  exists t r w, Interprocess.monitor_init = Some (t, r, w) /\ forall b, wire_of sg b = w.

Lemma fresh_facts sg b : fresh sg -> settled (wire_of sg b) /\ Interprocess.wire_ok new_tx new_rx (wire_of sg b) []
  /\ length (IpBuffer.tokens (Interprocess.w_av (wire_of sg b))) = 1024%nat.
Proof.
  intros (t & r & w & E & Hw). destruct monitor_wire as (w' & E' & Hok & Hs & Ht). rewrite E in E'. injection E' as -> -> ->.
  rewrite Hw, Ht, length_seqZ. split; [exact Hs|]. split; [exact Hok|reflexivity].
Qed.

(** A listening thread whose monitor has a connection for it, from the descriptor
    [peer] of the other thread. *)
Definition has_request (s : thread) (key l vl peer : Z) : Prop :=
  exists MR MW fl x vs rest, opener s MR MW key /\ numbered s /\ socket_fd s vl fl /\ MR !! fl = Some (x, vs)
    /\ ftype x = Some USOCKET_TCP_LISTEN
    /\ from_monitor s = Some (Metaqueue.mkCtl Metaqueue.RES_NEWCONNECTION
         (Metaqueue.resp_connect key (Some peer) (Some (port (property x))) l (Some false))) :: rest.

(** A thread with an unconnected socket [fd], whose monitor will grant it the
    connection. *)
Definition has_answer (s : thread) (key l v fd : Z) (blk : bool) : Prop :=
  exists MR MW x y a b c rest, opener s MR MW key /\ socket_fd s v fd /\ MR !! fd = Some (x, []) /\ MW !! fd = Some (y, [])
    /\ isopened (property x) = false /\ is_blocking (property x) = blk /\ fd_in_turns fd = true
    /\ from_monitor s = Some (Metaqueue.mkCtl Metaqueue.RES_SUCCESS (Metaqueue.resp_connect key a b l c)) :: rest.

(** The answer has been taken; the segment was [sg]. *)
Definition answered (s s' : thread) (i key : Z) (l : bool) (tP : Interprocess.tx) (sg : segment) : Prop :=
  exists r sg', holds s' i key (mkEnds l new_tx r) sg' /\ mem s' = <[key := sg']> (mem s)
    /\ Interprocess.wire_ok tP r (wire_of sg' (negb l)) [] /\ wire_of sg' l = wire_of sg l
    /\ Interprocess.w_av (wire_of sg' (negb l)) = Interprocess.w_av (wire_of sg (negb l)) /\ turn_of sg' = turn_of sg.

Lemma tw_answer s i key l tP sg n peers : holds s i key (mkEnds l new_tx new_rx) sg ->
  Interprocess.wire_ok tP new_rx (wire_of sg (negb l)) [new_fd_cell n] -> fd_in_turns n = true ->
  wp (await_new_fd i peers) (fun n' s' => data_only s s' /\ fd_in_turns n' = true /\ n' = n /\ answered s s' i key l tP sg) s.
Proof.
  intros H Hw Hn. eapply tw_await_now; [exact H|exact Hw|]. intros b r w. cbn [e_loc e_tx]. cbv zeta. intros Hk Hok Hav Hh.
  split; [done|]. split; [done|]. split; [done|]. exists r, (set_wire sg (negb l) w).
  pose proof (wire_of_set_ne sg (negb l) w) as Hne. rewrite negb_involutive in Hne.
  split; [done|]. split; [simpl; by rewrite Hk|]. rewrite wire_of_set_eq. done.
Qed.

(** The threads [a] and [b] hold the ends of a connection with nothing in it, and
    each of them can write. *)
Definition joined (l : bool) (key : Z) (a b : thread) (va vb fa fb ia ib : Z) (ba bb : bool) : Prop :=
  let P := opening l a (set_mem b (mem a)) in
  linked key (two l (fdm a) (fdm b)) (two l va vb) (two l fa fb) (two l ia ib) (two l ba bb) P /\ writable key (two l ia ib) P.

Lemma join key (l : bool) s1 s2 rd b ia ib fa fb va vb ba bb tP sg sg1 :
  endpoint (fdm b) b fb fa ib bb -> socket_fd b vb fb -> holds b ib key (mkEnds (negb l) tP new_rx) sg1 ->
  answered s1 s2 ia key l tP sg -> endpoint (fdm s2) (set_rd s2 rd) fa fb ia ba -> socket_fd (set_rd s2 rd) va fa ->
  Interprocess.wire_ok new_tx new_rx (wire_of sg l) [] -> my_turn sg l fa -> my_turn sg (negb l) fb ->
  (forall c, length (IpBuffer.tokens (Interprocess.w_av (wire_of sg c))) = 1024%nat) ->
  joined l key (set_rd s2 rd) b va vb fa fb ia ib ba bb.
Proof.
  intros Eb Vb Hb (r & sg2 & Ha & Hm & Hw & Hl & Hav & Ht) Ea Va Wl Ta Tb Htok.
  assert (Ha' : holds (set_rd s2 rd) ia key (mkEnds l new_tx r) sg2) by (by apply holds_set_rd).
  assert (Hb' : holds (set_mem b (mem s2)) ib key (mkEnds (negb l) tP new_rx) sg2).
  { eapply holds_set_mem; [exact Hb|]. apply Ha. }
  rewrite <- Hl in Wl. split.
  - eapply (linked_opening key l (set_rd s2 rd) (set_mem b (mem s2))); [exact Ea| |exact Va|exact Vb|exact Ha'|exact Hb'|exact Wl|exact Hw|..].
    + eapply endpoint_frame; [..|exact Eb]; done.
    + unfold my_turn. by rewrite Ht.
    + unfold my_turn. by rewrite Ht.
  - eapply writable_opening; [exact Ha'|exact Hb'|exact Wl|exact Hw|]. apply (both l); [by rewrite Hl|by rewrite Hav].
Qed.

Lemma set_mem_id s : set_mem s (mem s) = s.
Proof. by destruct s. Qed.

Lemma request_accepted g key sg lb b m vl fa flags kernel junk env : has_request b key lb vl fa -> fd_in_turns fa = true ->
  m !! key = Some sg -> (forall c, settled (wire_of sg c) /\ Interprocess.wire_ok new_tx new_rx (wire_of sg c) []) ->
  exists vb fb b', accept4 g vl flags kernel junk env (set_mem b m) = Done (vb, b')
    /\ accepted (set_mem b m) b' key (negb (lb =? 0)) sg vb fb fa (Z.land flags SOCK_NONBLOCK =? 0).
Proof.
  intros (MR & MW & fl & x & vs & rest & Ho & Hnum & Hfd & Hx & Hty & Hfrom) Hin Hm Hc.
  assert (Hacc : wp (accept4 g vl flags kernel junk env)
    (fun vb b' => exists fb, accepted (set_mem b m) b' key (negb (lb =? 0)) sg vb fb fa (Z.land flags SOCK_NONBLOCK =? 0)) (set_mem b m)).
  { eapply (tw_accept4 _ _ MR MW); [by destruct Ho as [??? ? [] ?]|exact Hnum|exact Hm|apply Hc|apply Hc|apply Hc|exact Hin|exact Hfd|exact Hx|exact Hty|exact Hfrom|].
    intros vb fb b' _ Hac. by exists fb. }
  apply tw_done in Hacc as (vb & b' & Eb & fb & Hac). by exists vb, fb, b'.
Qed.

(** [accept4], then [connect]. *)
Lemma accept_then_connect g key sg la lb a b vl v fa ba flags kernel junk env kc env' p :
  has_request b key lb vl fa -> has_answer a key la v fa ba -> mem b !! key = Some sg -> fresh sg -> (lb =? 0) = negb (la =? 0) ->
  exists vb fb b' a', accept4 g vl flags kernel junk env b = Done (vb, b')
    /\ connect g v (mkAddr AF_INET INADDR_LOOPBACK p) kc env' [] (set_mem a (mem b')) = Done (Lib 0, a')
    /\ joined (negb (la =? 0)) key a' b' v vb fa fb (ProtoSock.lowest_available a) (ProtoSock.lowest_available b) ba (Z.land flags SOCK_NONBLOCK =? 0).
Proof.
  intros Hreq (MR & MW & x & y & q1 & q2 & q3 & rest & Ho & Hfd & Hx & Hy & Hno & Hbl & Hin & Hfrom) Hm Hfr Hl.
  destruct (request_accepted g _ sg _ b (mem b) vl fa flags kernel junk env Hreq Hin Hm) as (vb & fb & b' & Eb & Hac);
    [intros c; by destruct (fresh_facts _ c Hfr) as (?&?&?)|].
  rewrite Hl in Hac. rewrite set_mem_id in Eb, Hac. set (l := negb (la =? 0)) in *. exists vb, fb, b'.
  destruct Hac as [HEb Hvb Htb (t & sg1 & Hh1 & Hm1 & Hw1 & Hs1 & Hav1 & Hot1 & Hmy1 & Htu1)].
  destruct (fresh_facts _ l Hfr) as (S1 & W1 & T1). destruct (fresh_facts _ (negb l) Hfr) as (_ & _ & T2). rewrite negb_involutive in Hot1.
  assert (Hcon : wp (connect g v (mkAddr AF_INET INADDR_LOOPBACK p) kc env' []) (fun r a' => r = Lib 0 /\
    joined l key a' b' v vb fa fb (ProtoSock.lowest_available a) (ProtoSock.lowest_available b) ba (Z.land flags SOCK_NONBLOCK =? 0)) (set_mem a (mem b'))).
  { eapply (tw_connect g (set_mem a (mem b')) MR MW key sg1 la v fa x y q1 q2 q3 p rest kc env' []
      (fun n s2 => n = fb /\ exists s1 sg2, half_open (set_mem a (mem b')) s1 key l sg1 sg2 fa /\ answered s1 s2 (ProtoSock.lowest_available a) key l t sg2));
      [by destruct Ho as [??? ? [] ?]|apply Hh1|by fold l; rewrite Hot1|exact Hs1|exact Hfd|exact Hx|exact Hy|exact Hno|exact Hin|exact Hfrom|..]; fold l.
    - intros s1 sg2 Hho. pose proof Hho as [Hh2 Hm2 Hwi2 Hmy2 Hot2].
      eapply tw_mono; [apply (tw_answer _ _ key l t sg2 fb); [exact Hh2|by rewrite Hwi2|exact Htb]|].
      intros n s2 (D1 & D2 & -> & D3). split; [exact D1|]. split; [exact D2|]. split; [done|]. by exists s1, sg2.
    - intros n s2 rd (-> & s1 & sg2 & [Hh2 Hm2 Hwi2 Hmy2 Hot2] & Han) HEa HVa. split; [done|]. rewrite <- Hbl.
      eapply join; [exact HEb|exact Hvb|exact Hh1|exact Han|exact HEa|exact HVa|rewrite Hwi2, Hot1; exact W1|exact Hmy2| |].
      + unfold my_turn. by rewrite Hot2.
      + apply (both l); rewrite Hwi2; [rewrite Hot1; exact T1|rewrite Hav1; exact T2]. }
  apply tw_done in Hcon as (r & a' & Ea & -> & Hj). by exists a'.
Qed.

(** What [accept4] in thread [b] does to the memory. *)
Definition accepts (c : M Z) (b : thread) (m : gmap Z segment) : gmap Z segment :=
  match c (set_mem b m) with Done (_, b') => mem b' | _ => m end.

(** [connect] waits, and [accept4] runs meanwhile. *)
Lemma accept_while_connecting g key sg la lb a b vl v fa ba flags kernel junk env kc env' p :
  has_request b key lb vl fa -> has_answer a key la v fa ba -> mem a !! key = Some sg -> fresh sg -> (lb =? 0) = negb (la =? 0) ->
  let c := accept4 g vl flags kernel junk env in
  exists m vb fb b' a', connect g v (mkAddr AF_INET INADDR_LOOPBACK p) kc env' [accepts c b] a = Done (Lib 0, a')
    /\ c (set_mem b m) = Done (vb, b')
    /\ joined (negb (la =? 0)) key a' b' v vb fa fb (ProtoSock.lowest_available a) (ProtoSock.lowest_available b) ba (Z.land flags SOCK_NONBLOCK =? 0).
Proof.
  intros Hreq (MR & MW & x & y & q1 & q2 & q3 & rest & Ho & Hfd & Hx & Hy & Hno & Hbl & Hin & Hfrom) Hm Hfr Hl c.
  set (l := negb (la =? 0)) in *. set (bb := Z.land flags SOCK_NONBLOCK =? 0).
  set (ia := ProtoSock.lowest_available a). set (ib := ProtoSock.lowest_available b).
  assert (Hcon : wp (connect g v (mkAddr AF_INET INADDR_LOOPBACK p) kc env' [accepts c b]) (fun r a' => r = Lib 0 /\
    exists m vb fb b', c (set_mem b m) = Done (vb, b') /\ joined l key a' b' v vb fa fb ia ib ba bb) a).
  { eapply (tw_connect g a MR MW key sg la v fa x y q1 q2 q3 p rest kc env' [accepts c b]
      (fun n s2 => exists s1 sg1 sg2 t vb b', half_open a s1 key l sg sg1 fa /\ c (set_mem b (mem s1)) = Done (vb, b')
         /\ accepted (set_mem b (mem s1)) b' key (negb l) sg1 vb n fa bb
         /\ holds b' ib key (mkEnds (negb l) t new_rx) sg2
         /\ answered (set_mem s1 (mem b')) s2 ia key l t sg2));
      [exact Ho|exact Hm|by apply fresh_facts|by apply fresh_facts|exact Hfd|exact Hx|exact Hy|exact Hno|exact Hin|exact Hfrom|..]; fold l.
    - intros s1 sg1 Hho. pose proof Hho as [Hh1 Hm1 Hwi1 Hmy1 Hot1].
      destruct (request_accepted g _ sg1 _ b (mem s1) vl fa flags kernel junk env Hreq Hin) as (vb & fb & b' & Eb & Hac);
        [apply Hh1|intros c'; rewrite Hwi1; by destruct (fresh_facts _ c' Hfr) as (?&?&?)|].
      rewrite Hl in Hac. fold l bb in Hac. pose proof Hac as [HEb Hvb Htb (t & sg2 & Hh2 & Hm2 & Hw2 & Hs2 & Hav2 & Hot2 & Hmy2 & Htu2)].
      eapply tw_await_later; [exact Hh1|cbn [e_loc e_rx]; rewrite Hwi1; by apply fresh_facts|].
      assert (Hp : accepts c b (mem s1) = mem b') by (unfold accepts, c; by rewrite Eb). rewrite Hp.
      eapply tw_mono; [apply (tw_answer _ _ key l t sg2 fb); [|exact Hw2|exact Htb]|].
      + eapply holds_set_mem; [exact Hh1|apply Hh2].
      + intros n s2 ([D1 D2 D3 D4] & D5 & -> & D6). split; [by split|]. split; [exact D5|]. by exists s1, sg1, sg2, t, vb, b'.
    - intros n s2 rd (s1 & sg1 & sg2 & t & vb & b' & [Hh1 Hm1 Hwi1 Hmy1 Hot1] & Eb & [HEb Hvb Htb Haf] & Hh2 & Han) HEa HVa.
      split; [done|]. exists (mem s1), vb, n, b'. split; [exact Eb|]. rewrite <- Hbl.
      destruct Haf as (t' & sg2' & Hh2' & Hm2 & Hw2 & Hs2 & Hav2 & Hot2 & Hmy2 & Htu2). destruct (holds_fun _ _ _ _ _ _ _ Hh2 Hh2') as [[= <-] <-].
      rewrite negb_involutive in Hot2, Htu2.
      destruct (fresh_facts _ l Hfr) as (S1 & W1 & T1). destruct (fresh_facts _ (negb l) Hfr) as (_ & _ & T2).
      eapply join; [exact HEb|exact Hvb|exact Hh2|exact Han|exact HEa|exact HVa|rewrite Hot2, Hwi1; exact W1| |exact Hmy2|].
      + unfold my_turn. by rewrite Htu2.
      + apply (both l); [rewrite Hot2, Hwi1; exact T1|rewrite Hav2, Hwi1; exact T2]. }
  apply tw_done in Hcon as (r & a' & Ea & -> & m & vb & fb & b' & Eb & Hj). by exists m, vb, fb, b', a'.
Qed.

(** ** The claims *)

(** A client and a server on one host: the client has a socket, the server one
    that listens on port 80, and the monitor has made segment 77 for them. *)
Definition demo_wire : Interprocess.wire IpBuffer.availq :=
  match Interprocess.monitor_init with Some (_, _, w) => w | None => wire_of demo_segment true end.
Definition demo_conn : segment := mkSegment (fun _ => demo_wire) (fun _ => ∅).
Definition demo_mem : gmap Z segment := {[77 := demo_conn]}.
Definition demo_granted : ctl := Metaqueue.mkCtl Metaqueue.RES_SUCCESS (Metaqueue.resp_connect 77 None None 0 None).
Definition demo_incoming : ctl :=
  Metaqueue.mkCtl Metaqueue.RES_NEWCONNECTION (Metaqueue.resp_connect 77 (Some 0) (Some 80) 1 (Some false)).
Definition demo_client : thread := set_mem (set_from demo_1 [Some demo_granted]) demo_mem.
Definition demo_listening : thread := after (listen 3) (set_from (after (bind 3 80) demo_1) [Some demo_granted; Some demo_incoming]).
Definition demo_server : thread := set_mem demo_listening demo_mem.

Lemma demo_fresh : fresh demo_conn.
Proof. destruct monitor_wire as (w & E & _). exists new_tx, new_rx, w. split; [done|]. intros b. simpl. unfold demo_wire. by rewrite E. Qed.

Lemma models_one {T1 T2} `{!Inhabited T1, !Inhabited T2} (x0 x : T1) (a a' : AdjList.adjlist T1 T2) n :
  AdjList.adj_init 1000 (AdjList.adjlist_new 1000 1000) 0 x0 = Some a -> AdjList.add_key a x = Some (n, a') ->
  AdjList.models a' {[n := (x, [])]}.
Proof.
  intros E E'. destruct (AdjList.models_init (T2 := T2) 1000 1000 0 x0) as (a1 & E1 & _ & M & HM & HN); [lia|lia|lia|].
  rewrite E in E1. injection E1 as <-. assert (M = ∅) as ->.
  { apply map_eq. intros k. rewrite HN, lookup_empty. destruct (Z.leb_spec 0 k), (Z.ltb_spec k 0); (done || lia). }
  destruct (AdjList.models_add_key _ _ x HM) as (k & a2 & E2 & _ & HM2).
  { unfold AdjList.adj_init in E. simpl in E. injection E as <-. vm_compute. reflexivity. }
  rewrite E' in E2. by injection E2 as <- <-.
Qed.

Lemma slots_empty s key : bufferhash s = ∅ -> ProtoSock.lowest_available s = 0 -> length (buffer s) = 100%nat -> ProtoSock.total_num s = 0 -> slots s key.
Proof. intros H1 H2 H3 H4. split; [by rewrite H1, lookup_empty|lia|rewrite H4; done]. Qed.

Definition demo_file (t : option sock_type) (p : Z) : file_struc_rd_t :=
  mkFile t (peer_fd inhabitant) (mkProp false true false p false).

(** What [opener] asks of a thread with one socket. *)
Lemma opener_one s x key n rd0 wr0 : AdjList.adj_init 1000 (AdjList.adjlist_new 1000 1000) 0 inhabitant = Some rd0 ->
  AdjList.adj_init 1000 (AdjList.adjlist_new 1000 1000) 0 0 = Some wr0 ->
  AdjList.add_key rd0 x = Some (n, fds_datawithrd s) -> AdjList.add_key wr0 0 = Some (n, fds_wr s) -> few (fds_datawithrd s) /\ few (fds_wr s) ->
  in_step s -> slots s key -> urgent s = [] -> opener s {[n := (x, [])]} {[n := (0, [])]} key.
Proof. intros E1 E2 E3 E4 Hf Hi Hs Hu. split; [by eapply models_one|by eapply models_one|done|done|done|done]. Qed.

Lemma alloc_some (r : option (Z * fdmap)) n :
  match r with Some (v, f) => get_fd_type f v = Some FD_TYPE_SOCKET /\ get_real_fd f v = Some n | None => False end ->
  exists v f, r = Some (v, f) /\ get_fd_type f v = Some FD_TYPE_SOCKET /\ get_real_fd f v = Some n.
Proof. destruct r as [[v f]|]; [|done]. by exists v, f. Qed.

Lemma demo_request : has_request demo_server 77 1 3 0.
Proof.
  exists {[0 := (demo_file (Some USOCKET_TCP_LISTEN) 80, [])]}, {[0 := (0, [])]}, 0, (demo_file (Some USOCKET_TCP_LISTEN) 80), [], [].
  split.
  { eapply opener_one; [vm_compute; reflexivity|vm_compute; reflexivity|vm_compute; reflexivity|vm_compute; reflexivity| | | |reflexivity].
    - repeat split; vm_compute; reflexivity.
    - vm_compute. reflexivity.
    - apply slots_empty; vm_compute; reflexivity. }
  split.
  { intros x n rd E. assert (E1 : fst <$> AdjList.add_key (fds_datawithrd demo_server) x = Some 1) by (vm_compute; reflexivity).
    rewrite E in E1. injection E1 as ->. split; [vm_compute; reflexivity|].
    apply alloc_some. vm_compute. by split. }
  split; [split; vm_compute; reflexivity|]. split; [by rewrite lookup_singleton_eq|]. split; [done|]. vm_compute. reflexivity.
Qed.

Lemma demo_answer_for : has_answer demo_client 77 0 3 0 true.
Proof.
  exists {[0 := (demo_file (ftype inhabitant) (port (property inhabitant)), [])]}, {[0 := (0, [])]}.
  eexists _, _, None, None, None, [].
  split.
  { eapply opener_one; [vm_compute; reflexivity|vm_compute; reflexivity|vm_compute; reflexivity|vm_compute; reflexivity| | | |reflexivity].
    - repeat split; vm_compute; reflexivity.
    - vm_compute. reflexivity.
    - apply slots_empty; vm_compute; reflexivity. }
  split; [split; vm_compute; reflexivity|]. rewrite !lookup_singleton_eq. done.
Qed.

(** C16: a client and a server of one host whose monitor has made a segment for
    them end up connected, whether the server calls [accept4] before the client
    calls [connect] or while it waits there: [connect] returns 0, and the two
    threads hold the ends of an empty connection on which each can write. *)
Theorem proto_handshake g key sg la lb a b vl v fa ba flags kernel junk env kc env' p :
  has_request b key lb vl fa -> has_answer a key la v fa ba -> mem a !! key = Some sg -> mem b !! key = Some sg -> fresh sg ->
  (lb =? 0) = negb (la =? 0) ->
  let accepting := accept4 g vl flags kernel junk env in
  let connecting := connect g v (mkAddr AF_INET INADDR_LOOPBACK p) kc env' in
  let done a' b' vb fb := joined (negb (la =? 0)) key a' b' v vb fa fb
    (ProtoSock.lowest_available a) (ProtoSock.lowest_available b) ba (Z.land flags SOCK_NONBLOCK =? 0) in
  (exists vb fb b' a', accepting b = Done (vb, b') /\ connecting [] (set_mem a (mem b')) = Done (Lib 0, a') /\ done a' b' vb fb)
  /\ (exists m vb fb b' a', connecting [accepts accepting b] a = Done (Lib 0, a') /\ accepting (set_mem b m) = Done (vb, b')
        /\ done a' b' vb fb).
Proof.
  intros Hb Ha Hma Hmb Hf Hl accepting connecting. split; [by eapply accept_then_connect|by eapply accept_while_connecting].
Qed.

Definition demo_env : rdma_env := mkRdmaEnv None [] [] 0 0 0 0 0 demo_segment.

Lemma proto_handshake_witness :
  (has_request demo_server 77 1 3 0 /\ has_answer demo_client 77 0 3 0 true) /\
  exists vb b' a', accept4 0 3 0 id inhabitant demo_env demo_server = Done (vb, b')
    /\ connect 0 3 (mkAddr AF_INET INADDR_LOOPBACK 80) id demo_env [] (set_mem demo_client (mem b')) = Done (Lib 0, a').
Proof.
  split; [split; [apply demo_request|apply demo_answer_for]|].
  destruct (proto_handshake 0 77 demo_conn 0 1 demo_client demo_server 3 3 0 true 0 id inhabitant demo_env id demo_env 80
    demo_request demo_answer_for (lookup_singleton_eq _ _) (lookup_singleton_eq _ _) demo_fresh eq_refl)
    as [(vb & fb & b' & a' & H1 & H2 & _) _]. exists vb, b', a'. exact (conj H1 H2).
Defined.

(** C11: after any sequence of calls on a connection between two threads, what one
    has read is a prefix of what the other has written.  The calls are readiness
    checks, reads of 1 to 2^31 - 1 bytes, on a blocking descriptor only when bytes
    are unread, and writes for which there is [room]: 1 to 16383 bytes, with fewer
    than 128 messages queued and free blocks for the bytes.  Such a write takes
    all its bytes; a read takes at least one byte when some are unread, and those
    it takes are the next ones; a read on a non-blocking descriptor fails with
    [EAGAIN] when there are none; and [check_sockfd_receive] reports [POLLIN]
    exactly when there are some.  Writes from 16384 bytes on send pages of a
    static buffer instead of the caller's and are not among the calls. *)
Theorem proto_stream g key F vfd fd idx blk P0 P b :
  linked key F vfd fd idx blk P0 -> rtc (step g key vfd fd idx blk) P0 P ->
  let next := drop (length (inn P b)) (out P (negb b)) in
  (out P (negb b) = inn P b ++ next)
  /\ (forall bytes phys, room key idx P b bytes -> exists s, write g (vfd b) bytes phys (th P b) = Done (Lib (Z.of_nat (length bytes)), s))
  /\ (forall n mapped, 0 < n < 2 ^ 31 -> next <> [] -> exists (k : nat) s, (0 < k <= length next)%nat /\ Z.of_nat k <= n
        /\ read g (vfd b) n mapped [] (th P b) = Done (Lib (mkReceived (Z.of_nat k) (take k next) []), s))
  /\ (forall n mapped, 0 < n < 2 ^ 31 -> next = [] -> blk b = false ->
        exists s, read g (vfd b) n mapped [] (th P b) = Done (Lib (mkReceived (-1) [] []), s) /\ last_error s = Some EAGAIN)
  /\ (exists s, check_sockfd_receive g (fd b) (th P b) = Done (if bool_decide (next = []) then 0 else POLLIN, s)).
Proof.
  intros H St next. destruct (steps_linked _ _ _ _ _ _ _ _ _ H St) as (e & sg & L & K).
  pose proof (lk_bytes _ _ _ _ _ _ _ _ _ _ K (negb b)) as Hb. rewrite negb_involutive in Hb.
  assert (Hn : next = pending (fd b) (L (negb b))) by (unfold next; by rewrite Hb, drop_app_length).
  assert (Hu : unread P b <-> next <> []) by (rewrite Hn; by eapply unread_pending). split; [by rewrite Hn|]. split_and!.
  - intros bytes phys Hr. destruct (call_write g _ _ _ _ _ _ _ _ _ _ _ _ phys K Hr) as (s & E & _). by exists s.
  - intros n mapped Hr Hne. destruct (call_read g _ _ _ _ _ _ _ _ _ _ b n mapped K Hr) as (k & s & E & Hk & Ht); [by apply Hu|].
    exists k, s. rewrite Hn. split; [apply Ht|]. done.
  - intros n mapped Hr He Hbl. destruct (call_read_empty g _ _ _ _ _ _ _ _ _ _ b n mapped K Hr Hbl) as (s & E & Hs & _); [tauto|]. by exists s.
  - destruct (call_check g _ _ _ _ _ _ _ _ _ _ b K) as (s & E & _). exists s. by rewrite Hn.
Qed.

(** The client writes three bytes, and the server reads. *)
Lemma proto_stream_witness :
  exists key F vfd fd idx blk P0 P, linked key F vfd fd idx blk P0 /\ rtc (step 0 key vfd fd idx blk) P0 P
    /\ out P false = [1; 2; 3] /\ inn P true = []
    /\ exists (k : nat) s, (0 < k)%nat /\ read 0 (vfd true) 10 id [] (th P true) = Done (Lib (mkReceived (Z.of_nat k) (take k [1; 2; 3]) []), s).
Proof.
  destruct (accept_then_connect 0 77 demo_conn 0 1 demo_client demo_server 3 3 0 true 0 id inhabitant demo_env id demo_env 80
    demo_request demo_answer_for (lookup_singleton_eq _ _) demo_fresh eq_refl) as (vb & fb & b' & a' & _ & _ & Hl & Hw).
  cbv zeta in Hl, Hw. change (negb (0 =? 0)) with false in Hl, Hw.
  set (P0 := opening _ _ _) in Hl, Hw. pose proof Hl as (e & sg & L & K). pose proof (Hw false [1; 2; 3] ltac:(done) ltac:(done)) as Hr.
  destruct (call_write 0 _ _ _ _ _ _ _ _ _ _ _ _ (fun _ => []) K Hr) as (s & E & _).
  set (P := mkPair (after_call P0 false s) (upd (out P0) false (out P0 false ++ take (Z.to_nat 3) [1; 2; 3])) (inn P0)).
  assert (St : rtc (step 0 77 (two false 3 vb) (two false 0 fb) (two false (ProtoSock.lowest_available demo_client) (ProtoSock.lowest_available demo_server)) (two false true (Z.land 0 SOCK_NONBLOCK =? 0))) P0 P).
  { apply rtc_once. eapply step_write; [exact Hr|exact E]. }
  destruct (proto_stream _ _ _ _ _ _ _ P0 P true Hl St) as (_ & _ & Hrd & _).
  destruct (Hrd 10 id ltac:(lia) ltac:(done)) as (k & s' & [Hk _] & _ & E').
  eexists _, _, _, _, _, _, P0, P. split; [exact Hl|]. split; [exact St|]. split; [reflexivity|]. split; [reflexivity|]. exists k, s'.
  split; [exact Hk|exact E'].
Defined.

End ProtoPair.
