(* ===== verification/QueueV2.v ===== *)
(** * The queue with payloads of the prototype

    [common/locklessq_v2.hpp]: [locklessq_v2], a ring of 512 slots of 16 bytes
    for one sender and one receiver.  A message is a slot with its metadata and
    as many slots as its payload needs behind it.  The ring is mapped twice in a
    row, so that a payload may run past its end; [return_flag] lies behind the
    second mapping.  The memory is modelled as bytes, so that what is left of an
    old payload is there when a slot is used again. *)

From Stdlib Require Import ZArith Lia.
From stdpp Require Import numbers base gmap list list_numbers.
From S2P Require Import Prelude.

Module QueueV2.

Definition LOCKLESSQ_SIZE : Z := 512.
Definition LOCKLESSQ_BITMAP_ISVALID : Z := 1.
Definition LOCKLESSQ_BITMAP_ISDEL : Z := 2.

(** [element_t]; [inner] are the eight bytes of the union. *)
Record element_t := mkElement { size : Z; flags : Z; command : Z; fd : Z; inner : list Z }.

Definition element_size : Z := 16.
Definition RING : Z := element_size * LOCKLESSQ_SIZE.

(** ** Memory *)

(** The [n] low bytes of [x], the lowest first. *)
Fixpoint le (n : nat) (x : Z) : list Z :=
  match n with O => [] | S n => x mod 256 :: le n (x / 256) end.

Fixpoint of_le (bs : list Z) : Z := match bs with [] => 0 | b :: bs => b + 256 * of_le bs end.

Definition encode (e : element_t) : list Z := le 2 (size e) ++ [flags e; command e] ++ le 4 (fd e) ++ inner e.

(** [fd] is signed. *)
Definition decode (bs : list Z) : element_t :=
  mkElement (of_le (take 2 bs)) (nth 2 bs 0) (nth 3 bs 0) (swrap32 (of_le (take 4 (drop 4 bs)))) (take 8 (drop 8 bs)).

(** The bytes of the ring, and the flag.  An address is an offset from
    [bytes_arr]; the second mapping makes it count modulo the size. *)
Record shm := mkShm { bytes_arr : list Z; return_flag : bool }.

Definition byte_at (m : list Z) (a : Z) : Z := nth (Z.to_nat (a mod RING)) m 0.

Fixpoint store (m : list Z) (a : Z) (bs : list Z) : list Z :=
  match bs with
  | [] => m
  | b :: bs => store (<[Z.to_nat (a mod RING) := b]> m) (a + 1) bs
  end.

Definition load (m : list Z) (a n : Z) : list Z := (fun j => byte_at m (a + j)) <$> seqZ 0 n.

Definition set_ring (m : shm) (r : list Z) : shm := mkShm r (return_flag m).
Definition set_flag (m : shm) (b : bool) : shm := mkShm (bytes_arr m) b.

(** ** Operations *)

(** What a process keeps of the queue. *)
Record queue := mkQueue { pointer : Z; MASK : Z; credits : Z; CREDITS_PER_RETURN : Z; credit_disabled : bool }.

Definition set_pointer (q : queue) (p : Z) : queue := mkQueue p (MASK q) (credits q) (CREDITS_PER_RETURN q) (credit_disabled q).
Definition set_credits (q : queue) (c : Z) : queue := mkQueue (pointer q) (MASK q) c (CREDITS_PER_RETURN q) (credit_disabled q).

Definition init (m : shm) (is_receiver : bool) : queue * shm :=
  (mkQueue 0 (LOCKLESSQ_SIZE - 1) (if is_receiver then 0 else LOCKLESSQ_SIZE) (LOCKLESSQ_SIZE / 2 + 1) false, set_flag m false).

Definition init_mem (m : shm) : shm := set_ring m (replicate (Z.to_nat RING) 0).

(** [&bytes_arr[loc & MASK]] *)
Definition slot (q : queue) (loc : Z) : Z := element_size * Z.land loc (MASK q).

Definition slots_occupied (size : Z) : Z := (size + 15) / 16 + 1.

(** [payload] are the [size] bytes at [payload_ptr].  [None]: the copy leaves the
    two mappings. *)
Definition push_nb (q : queue) (m : shm) (data : element_t) (payload : list Z) : option (bool * queue * shm) :=
  let n := slots_occupied (size data) in
  let go q m :=
    let a := slot q (u32 (pointer q + 1)) in
    if 2 * RING <? a + size data then None
    else
      let r := store (bytes_arr m) a payload in
      let r := store r (slot q (pointer q)) (encode data) in
      Some (true, set_credits (set_pointer q (u32 (pointer q + n))) (u32 (credits q - n)), set_ring m r) in
  if negb (credit_disabled q) && (credits q <? n) then
    if return_flag m then go (set_credits q (u32 (credits q + CREDITS_PER_RETURN q))) (set_flag m false)
    else Some (false, q, m)
  else go q m.

Definition is_full (q : queue) : bool := negb (credit_disabled q) && (credits q <? 16).

Definition setpointer (q : queue) (p : Z) : queue := set_pointer q p.

Definition disable_credit (q : queue) : queue := mkQueue (pointer q) (MASK q) (credits q) (CREDITS_PER_RETURN q) true.

Definition peek_meta (q : queue) (m : shm) (loc : Z) : element_t := decode (load (bytes_arr m) (slot q loc) element_size).

Definition set_meta (q : queue) (m : shm) (loc : Z) (data : element_t) : shm :=
  set_ring m (store (bytes_arr m) (slot q loc) (encode data)).

(** The bytes at the pointer that [peek_data] returns. *)
Definition peek_data (q : queue) (m : shm) (loc n : Z) : list Z := load (bytes_arr m) (slot q loc + element_size) n.

(** [bytes_arr[loc & MASK].flags] *)
Definition get_flags (q : queue) (m : shm) (loc : Z) : Z := byte_at (bytes_arr m) (slot q loc + 2).
Definition set_flags (q : queue) (m : shm) (loc f : Z) : shm := set_ring m (store (bytes_arr m) (slot q loc + 2) [f]).

Definition has (f bit : Z) : bool := negb (Z.land f bit =? 0).

(** [flags &= ~ISVALID], on a byte. *)
Definition invalidate (f : Z) : Z := Z.land f (255 - LOCKLESSQ_BITMAP_ISVALID).

(** The loop of [del]; [None]: the turns are used up. *)
Fixpoint advance (fuel : nat) (q : queue) (m : shm) : option (queue * shm) :=
  let f := get_flags q m (pointer q) in
  if has f LOCKLESSQ_BITMAP_ISVALID && has f LOCKLESSQ_BITMAP_ISDEL then
    match fuel with
    | O => None
    | S fuel =>
        let m := set_flags q m (pointer q) (invalidate f) in
        let n := slots_occupied (size (peek_meta q m (pointer q))) in
        let q := set_credits (set_pointer q (u32 (pointer q + n))) (u32 (credits q + n)) in
        if CREDITS_PER_RETURN q <=? credits q
        then advance fuel (set_credits q (u32 (credits q - CREDITS_PER_RETURN q))) (set_flag m true)
        else advance fuel q m
    end
  else Some (q, m).

(** Each turn clears the valid bit of a slot and sets none. *)
Definition turns : nat := Z.to_nat LOCKLESSQ_SIZE.

Definition del (q : queue) (m : shm) (loc : Z) : option (Z * queue * shm) :=
  let m := set_flags q m loc (Z.lor (get_flags q m loc) LOCKLESSQ_BITMAP_ISDEL) in
  if Z.land loc (MASK q) =? Z.land (pointer q) (MASK q) then
    match advance turns q m with
    | Some (q, m) => Some (pointer q, q, m)
    | None => None
    end
  else Some (pointer q, q, m).

(** The loop goes on while it meets valid slots; [None]: it has not ended. *)
Fixpoint empty_from (fuel : nat) (q : queue) (m : shm) (tail : Z) : option bool :=
  let f := get_flags q m tail in
  if has f LOCKLESSQ_BITMAP_ISVALID then
    if has f LOCKLESSQ_BITMAP_ISDEL then Some false
    else
      match fuel with
      | O => None
      | S fuel => empty_from fuel q m (u32 (tail + slots_occupied (size (peek_meta q m tail))))
      end
  else Some true.
Definition isempty (q : queue) (m : shm) : option bool := empty_from turns q m (pointer q).

Definition getmemsize : Z := element_size * LOCKLESSQ_SIZE + 64.
Definition getalignedmemsize : Z := element_size * LOCKLESSQ_SIZE.

Definition nextptr (q : queue) (m : shm) (ptr : Z) : Z :=
  u32 (ptr + slots_occupied (size (peek_meta q m ptr))) mod MASK q.

(** ** Reading and writing bytes *)

Definition sized (m : list Z) : Prop := length m = Z.to_nat RING.

Lemma RING_pos : 0 < RING. Proof. reflexivity. Qed.

Lemma store_sized m a bs : sized m -> sized (store m a bs).
Proof. revert m a. induction bs as [|b bs IH]; intros m a H; [done|]. apply IH. unfold sized. by rewrite length_insert. Qed.

Lemma mod_pred x : 0 < x mod RING -> (x - 1) mod RING = x mod RING - 1.
Proof. intros H. pose proof RING_pos. pose proof (Z.mod_pos_bound x RING ltac:(done)). rewrite <- Zminus_mod_idemp_l. apply Z.mod_small. lia. Qed.

Lemma mod_pred_0 x : x mod RING = 0 -> (x - 1) mod RING = RING - 1.
Proof. intros H. rewrite <- Zminus_mod_idemp_l, H. reflexivity. Qed.

Lemma byte_at_insert m a b x : sized m ->
  byte_at (<[Z.to_nat (a mod RING) := b]> m) x = if (x - a) mod RING =? 0 then b else byte_at m x.
Proof.
  intros Hm. pose proof RING_pos. unfold byte_at, sized in *. pose proof (Z.mod_pos_bound x RING ltac:(done)). pose proof (Z.mod_pos_bound a RING ltac:(done)).
  rewrite !(nth_lookup _ _ 0). destruct (Z.eqb_spec ((x - a) mod RING) 0) as [E|E].
  - assert (x mod RING = a mod RING) as -> by (apply Z.mod_divide in E as [k E]; [|lia]; replace x with (a + k * RING) by lia; apply Z_mod_plus_full).
    by rewrite list_lookup_insert_eq by lia.
  - rewrite list_lookup_insert_ne; [done|]. intros E'. apply E. assert (x mod RING = a mod RING) as E2 by lia.
    by rewrite Zminus_mod, E2, Z.sub_diag.
Qed.

Lemma byte_at_store m a bs x : sized m -> Z.of_nat (length bs) <= RING ->
  byte_at (store m a bs) x = if (x - a) mod RING <? Z.of_nat (length bs) then nth (Z.to_nat ((x - a) mod RING)) bs 0 else byte_at m x.
Proof.
  revert m a. induction bs as [|b bs IH]; intros m a Hm Hl; cbn [store length] in *; pose proof RING_pos; pose proof (Z.mod_pos_bound (x - a) RING ltac:(done)).
  { by rewrite (proj2 (Z.ltb_ge _ _)) by (simpl; lia). }
  rewrite IH by (unfold sized in *; rewrite ?length_insert; lia). replace (x - (a + 1)) with (x - a - 1) by lia. rewrite byte_at_insert by done.
  destruct (Z.eq_dec ((x - a) mod RING) 0) as [E|E].
  - rewrite (mod_pred_0 _ E), E, Z.eqb_refl. rewrite (proj2 (Z.ltb_ge _ _)) by lia. by rewrite (proj2 (Z.ltb_lt _ _)) by lia.
  - rewrite mod_pred by lia. rewrite (proj2 (Z.eqb_neq _ _)) by done. destruct (Z.ltb_spec ((x - a) mod RING - 1) (Z.of_nat (length bs))).
    + rewrite (proj2 (Z.ltb_lt _ _)) by lia. replace (Z.to_nat ((x - a) mod RING)) with (S (Z.to_nat ((x - a) mod RING - 1))) by lia. done.
    + by rewrite (proj2 (Z.ltb_ge _ _)) by lia.
Qed.

Lemma byte_at_mod m a b : (a - b) mod RING = 0 -> byte_at m a = byte_at m b.
Proof.
  intros E. unfold byte_at. pose proof RING_pos. apply Z.mod_divide in E as [k E]; [|lia]. replace a with (b + k * RING) by lia. by rewrite Z_mod_plus_full.
Qed.

(** A byte inside what was stored, and one behind it. *)
Lemma byte_at_in m a bs j : sized m -> Z.of_nat (length bs) <= RING -> 0 <= j < Z.of_nat (length bs) ->
  byte_at (store m a bs) (a + j) = nth (Z.to_nat j) bs 0.
Proof.
  intros Hm Hl Hj. rewrite byte_at_store by done. replace (a + j - a) with j by lia. rewrite Z.mod_small by lia. by rewrite (proj2 (Z.ltb_lt _ _)) by lia.
Qed.

Lemma byte_at_out m a bs x : sized m -> Z.of_nat (length bs) <= x - a < RING -> byte_at (store m a bs) x = byte_at m x.
Proof.
  intros Hm Hj. rewrite byte_at_store by (done || lia). rewrite Z.mod_small by lia. by rewrite (proj2 (Z.ltb_ge _ _)) by lia.
Qed.

Lemma length_load m a n : 0 <= n -> Z.of_nat (length (load m a n)) = n.
Proof. intros H. unfold load. rewrite length_fmap, length_seqZ. lia. Qed.

Lemma load_nth m a n j : 0 <= j < n -> nth (Z.to_nat j) (load m a n) 0 = byte_at m (a + j).
Proof.
  intros H. unfold load. rewrite nth_lookup, list_lookup_fmap, lookup_seqZ_lt by lia. simpl. do 2 f_equal. lia.
Qed.

Lemma load_ext m m' a a' n : (forall j, 0 <= j < n -> byte_at m (a + j) = byte_at m' (a' + j)) -> load m a n = load m' a' n.
Proof. intros H. unfold load. apply list_fmap_ext. intros i j Hj. apply H. apply list_elem_of_lookup_2, elem_of_seqZ in Hj. lia. Qed.

Lemma load_in m a bs : sized m -> Z.of_nat (length bs) <= RING -> load (store m a bs) a (Z.of_nat (length bs)) = bs.
Proof.
  intros Hm Hl. apply list_eq. intros i. unfold load. rewrite list_lookup_fmap. destruct (decide (i < length bs)%nat).
  - rewrite lookup_seqZ_lt by lia. simpl. rewrite Z.add_0_l, byte_at_in by (done || lia). rewrite Nat2Z.id, nth_lookup.
    destruct (lookup_lt_is_Some_2 bs i) as [b Hb]; [done|]. by rewrite Hb.
  - rewrite lookup_seqZ_ge by lia. simpl. symmetry. apply lookup_ge_None. lia.
Qed.

Lemma load_out m a bs x n : sized m -> Z.of_nat (length bs) <= x - a -> x + n <= a + RING -> load (store m a bs) x n = load m x n.
Proof. intros Hm H1 H2. apply load_ext. intros j Hj. apply byte_at_out; [done|lia]. Qed.

Lemma load_mod m a b n : (a - b) mod RING = 0 -> load m a n = load m b n.
Proof. intros H. apply load_ext. intros j _. apply byte_at_mod. by replace (a + j - (b + j)) with (a - b) by lia. Qed.

(** ... or before it. *)
Lemma byte_at_before m a bs x : sized m -> x < a -> a + Z.of_nat (length bs) <= x + RING -> byte_at (store m a bs) x = byte_at m x.
Proof.
  intros Hm H1 H2. rewrite (byte_at_mod _ x (x + RING)) by (by replace (x - (x + RING)) with ((-1) * RING) by lia; rewrite Z_mod_mult).
  rewrite byte_at_out by (done || lia). apply byte_at_mod. by replace (x + RING - x) with (1 * RING) by lia; rewrite Z_mod_mult.
Qed.

Lemma load_before m a bs x n : sized m -> x + n <= a -> a + Z.of_nat (length bs) <= x + RING -> load (store m a bs) x n = load m x n.
Proof. intros Hm H1 H2. apply load_ext. intros j Hj. apply byte_at_before; (done || lia). Qed.

(** The address of a slot does not depend on how often the ring was gone round. *)
Lemma v2_slot_mod q p : MASK q = LOCKLESSQ_SIZE - 1 -> (slot q p - element_size * p) mod RING = 0.
Proof.
  intros E. unfold slot. rewrite E. change (LOCKLESSQ_SIZE - 1) with (2 ^ 9 - 1). rewrite land_pred_pow2 by lia.
  unfold RING, element_size. change LOCKLESSQ_SIZE with (2 ^ 9). replace (16 * (p mod 2 ^ 9) - 16 * p) with ((- (p / 2 ^ 9)) * (16 * 2 ^ 9)); [apply Z_mod_mult|].
  pose proof (Z.div_mod p (2 ^ 9) ltac:(lia)). lia.
Qed.

Lemma u32_slots p : (element_size * u32 p - element_size * p) mod RING = 0.
Proof.
  unfold uwrap. unfold RING, element_size, LOCKLESSQ_SIZE. replace (16 * (p mod 2 ^ 32) - 16 * p) with ((- (p / 2 ^ 32) * 2 ^ 23) * (16 * 512)); [apply Z_mod_mult|].
  pose proof (Z.div_mod p (2 ^ 32) ltac:(lia)). lia.
Qed.

(** ** Metadata *)

Lemma of_le_le n x : of_le (le n x) = x mod 256 ^ Z.of_nat n.
Proof.
  revert x. induction n as [|n IH]; intros x; cbn [le of_le]; [by rewrite Z.mod_1_r|]. rewrite IH.
  replace (256 ^ Z.of_nat (S n)) with (256 * 256 ^ Z.of_nat n) by (rewrite Nat2Z.inj_succ, Z.pow_succ_r by lia; done).
  rewrite Z.rem_mul_r by (try apply Z.pow_pos_nonneg; lia). lia.
Qed.

Lemma length_le n x : length (le n x) = n.
Proof. revert x. induction n as [|n IH]; intros x; simpl; [done|by rewrite IH]. Qed.

Lemma of_le_int x : - 2 ^ 31 <= x < 2 ^ 31 -> swrap32 (of_le (le 4 x)) = x.
Proof. intros H. rewrite of_le_le. change (256 ^ Z.of_nat 4) with (2 ^ 32). unfold swrap32. rewrite Zplus_mod_idemp_l, Z.mod_small by lia. lia. Qed.

(** What fits the fields. *)
Record fits (e : element_t) : Prop := {
  ft_size : 0 <= size e < 2 ^ 16;
  ft_flags : 0 <= flags e < 256;
  ft_command : 0 <= command e < 256;
  ft_fd : - 2 ^ 31 <= fd e < 2 ^ 31;
  ft_inner : length (inner e) = 8%nat
}.

Lemma length_encode e : length (inner e) = 8%nat -> length (encode e) = 16%nat.
Proof. intros H. unfold encode. by rewrite !length_app, !length_le, H. Qed.

Lemma decode_encode e : fits e -> decode (encode e) = e.
Proof.
  intros [H1 H2 H3 H4 H5]. unfold decode. unfold encode. destruct e as [sz fl cm f inn]. cbn [size flags command fd inner] in *.
  rewrite take_app_length' by (by rewrite length_le). rewrite of_le_le. change (256 ^ Z.of_nat 2) with (2 ^ 16). rewrite Z.mod_small by done.
  change (le 2 sz ++ [fl; cm] ++ le 4 f ++ inn) with ([sz mod 256; sz / 256 mod 256; fl; cm] ++ (le 4 f ++ inn)).
  f_equal.
  - rewrite drop_app_length' by done. rewrite take_app_length' by (by rewrite length_le). by apply of_le_int.
  - rewrite drop_app_ge by (simpl; lia). simpl length. change (8 - 4)%nat with 4%nat. rewrite drop_app_length' by (by rewrite length_le).
    by rewrite take_ge by lia.
Qed.

Lemma store_mod m a b bs : (a - b) mod RING = 0 -> store m a bs = store m b bs.
Proof.
  intros H. assert (E : a mod RING = b mod RING).
  { pose proof RING_pos. apply Z.mod_divide in H as [k H]; [|lia]. replace a with (b + k * RING) by lia. apply Z_mod_plus_full. }
  clear H. revert m a b E. induction bs as [|x bs IH]; intros m a b E; [done|]. cbn [store]. rewrite E. apply IH.
  by rewrite <- Zplus_mod_idemp_l, E, Zplus_mod_idemp_l.
Qed.

Definition with_flags (e : element_t) (f : Z) : element_t := mkElement (size e) f (command e) (fd e) (inner e).

Lemma load_flags m a e f : sized m -> load m a 16 = encode e -> load (store m (a + 2) [f]) a 16 = encode (with_flags e f).
Proof.
  intros Hm H. assert (E : load (store m (a + 2) [f]) a 16 = <[2%nat := f]> (load m a 16)).
  { apply list_eq. intros i. unfold load at 1. rewrite list_lookup_fmap. destruct (decide (i < 16)%nat) as [Hi|Hi].
    - rewrite lookup_seqZ_lt by lia. cbn [fmap option_fmap option_map]. destruct (decide (i = 2%nat)) as [->|Hne].
      + rewrite list_lookup_insert_eq by (pose proof (length_load m a 16); lia). f_equal. replace (a + (0 + Z.of_nat 2)) with (a + 2 + 0) by lia.
        apply (byte_at_in m (a + 2) [f] 0); simpl; (done || lia).
      + rewrite list_lookup_insert_ne by done. unfold load. rewrite list_lookup_fmap, lookup_seqZ_lt by lia. cbn [fmap option_fmap option_map]. f_equal.
        destruct (decide (i < 2)%nat); [apply byte_at_before|apply byte_at_out]; simpl; unfold RING, element_size, LOCKLESSQ_SIZE; (done || lia).
    - rewrite lookup_seqZ_ge by lia. symmetry. apply lookup_ge_None. rewrite length_insert. pose proof (length_load m a 16). lia. }
  rewrite E, H. destruct e as [sz fl cm x inn]. unfold with_flags, encode. reflexivity.
Qed.

(** ** The queue as a list of messages *)

(** A message on its way: what was pushed, and whether it is marked deleted. *)
Record cell := mkCell { c_ele : element_t; c_pay : list Z; c_del : bool }.

Definition c_slots (c : cell) : Z := slots_occupied (size (c_ele c)).
Fixpoint total (L : list cell) : Z := match L with [] => 0 | c :: L => c_slots c + total L end.

Definition marked (c : cell) : element_t := with_flags (c_ele c) (if c_del c then 3 else 1).

(** The third byte of each slot of the payload, where a slot has its flags, has
    not the bit of a valid message. *)
Definition clean (pay : list Z) : Prop := forall j, 0 <= j -> 16 * j + 2 < Z.of_nat (length pay) -> has (nth (Z.to_nat (16 * j + 2)) pay 0) 1 = false.

(** A message that may be pushed: at most a page. *)
Record pushable (e : element_t) (pay : list Z) : Prop := {
  pu_fits : fits e;
  pu_flags : flags e = LOCKLESSQ_BITMAP_ISVALID;
  pu_size : size e = Z.of_nat (length pay);
  pu_page : size e <= 4096;
  pu_clean : clean pay
}.

(** No slot of the [n] from position [p] on looks valid. *)
Definition quiet (m : list Z) (p n : Z) : Prop := forall j, 0 <= j < n -> has (byte_at m (16 * (p + j) + 2)) 1 = false.

Fixpoint stored (m : list Z) (p : Z) (L : list cell) : Prop :=
  match L with
  | [] => True
  | c :: L => load m (16 * p) 16 = encode (marked c) /\ load m (16 * (p + 1)) (size (c_ele c)) = c_pay c
              /\ quiet m (p + 1) (c_slots c - 1) /\ stored m (p + c_slots c) L
  end.

Definition cell_ok (c : cell) : Prop := pushable (c_ele c) (c_pay c).

(** The state of the two ends, with the messages [L] between them. *)
Record mid (s r : queue) (m : shm) (L : list cell) : Prop := {
  mi_sized : sized (bytes_arr m);
  mi_mask : MASK s = LOCKLESSQ_SIZE - 1 /\ MASK r = LOCKLESSQ_SIZE - 1;
  mi_return : CREDITS_PER_RETURN s = 257 /\ CREDITS_PER_RETURN r = 257;
  mi_enabled : credit_disabled s = false;
  mi_tail : 0 <= pointer r < 2 ^ 32;
  mi_head : pointer s = u32 (pointer r + total L);
  mi_stored : stored (bytes_arr m) (pointer r) L;
  mi_free : quiet (bytes_arr m) (pointer r + total L) (512 - total L);
  mi_cells : Forall cell_ok L;
  mi_credits : 0 <= credits s /\ 0 <= credits r < 257 /\ credits s + credits r + (if return_flag m then 257 else 0) + total L = 512
}.

(** Between calls the first message is not a deleted one. *)
Record rep (s r : queue) (m : shm) (L : list cell) : Prop := {
  rp_mid : mid s r m L;
  rp_front : match L with c :: _ => c_del c = false | [] => True end
}.

Fixpoint drop_front (L : list cell) : list cell :=
  match L with c :: L' => if c_del c then drop_front L' else L | [] => [] end.

(** Memories that agree on the bytes of a range, seen from two positions. *)
Definition agree (m : list Z) (p : Z) (m' : list Z) (p' n : Z) : Prop :=
  forall j, 0 <= j < 16 * n -> byte_at m' (16 * p' + j) = byte_at m (16 * p + j).

Lemma agree_sub m p m' p' n k i : agree m p m' p' n -> 0 <= k -> 0 <= i -> k + i <= n -> agree m (p + k) m' (p' + k) i.
Proof.
  intros H Hk Hi Hn j Hj. replace (16 * (p' + k) + j) with (16 * p' + (16 * k + j)) by lia. replace (16 * (p + k) + j) with (16 * p + (16 * k + j)) by lia.
  apply H. lia.
Qed.

Lemma agree_mod m p p' n : (16 * p' - 16 * p) mod RING = 0 -> agree m p m p' n.
Proof. intros H j _. apply byte_at_mod. by replace (16 * p' + j - (16 * p + j)) with (16 * p' - 16 * p) by lia. Qed.

Lemma agree_trans m p m1 p1 m2 p2 n : agree m p m1 p1 n -> agree m1 p1 m2 p2 n -> agree m p m2 p2 n.
Proof. intros H1 H2 j Hj. by rewrite H2, H1. Qed.

Lemma quiet_frame m p m' p' n : agree m p m' p' n -> quiet m p n -> quiet m' p' n.
Proof.
  intros H Q j Hj. replace (16 * (p' + j) + 2) with (16 * p' + (16 * j + 2)) by lia. rewrite H by lia.
  replace (16 * p + (16 * j + 2)) with (16 * (p + j) + 2) by lia. by apply Q.
Qed.

Lemma slots_pos n : 0 <= n -> 1 <= slots_occupied n /\ n <= 16 * (slots_occupied n - 1) < n + 16.
Proof. intros H. unfold slots_occupied. pose proof (Z.div_mod (n + 15) 16 ltac:(lia)). pose proof (Z.mod_pos_bound (n + 15) 16 ltac:(lia)). lia. Qed.

Lemma total_pos L : Forall cell_ok L -> 0 <= total L.
Proof.
  induction 1 as [|c L Hc _ IH]; simpl; [done|]. pose proof (slots_pos (size (c_ele c))). destruct Hc as [[? _ _ _ _] _ _ _ _]. unfold c_slots. lia.
Qed.

Lemma total_app L1 L2 : total (L1 ++ L2) = total L1 + total L2.
Proof. induction L1 as [|c L1 IH]; simpl; lia. Qed.

Lemma stored_frame m p m' p' L : Forall cell_ok L -> agree m p m' p' (total L) -> stored m p L -> stored m' p' L.
Proof.
  intros HL. revert p p'. induction HL as [|c L Hc HL IH]; intros p p' H; [done|]. cbn [stored total] in *. intros (H1 & H2 & H3 & H4).
  pose proof (slots_pos (size (c_ele c))) as Hs. pose proof (ft_size _ (pu_fits _ _ Hc)) as Hz. pose proof (total_pos _ HL) as Ht. unfold c_slots in *.
  split_and!.
  - rewrite <- H1. apply load_ext. intros j Hj. apply H. lia.
  - rewrite <- H2. apply load_ext. intros j Hj. apply (agree_sub _ _ _ _ _ 1 (slots_occupied (size (c_ele c)) - 1) H); lia.
  - eapply quiet_frame; [|exact H3]. apply (agree_sub _ _ _ _ _ _ _ H); lia.
  - eapply IH; [|exact H4]. apply (agree_sub _ _ _ _ _ _ _ H); lia.
Qed.

Lemma stored_app m p L1 L2 : stored m p (L1 ++ L2) <-> stored m p L1 /\ stored m (p + total L1) L2.
Proof.
  revert p. induction L1 as [|c L1 IH]; intros p; cbn [stored total app]; [rewrite Z.add_0_r; tauto|]. rewrite IH. replace (p + c_slots c + total L1) with (p + (c_slots c + total L1)) by lia. tauto.
Qed.

(** ** Pushing *)

Lemma marked_new e pay : flags e = 1 -> marked (mkCell e pay false) = e.
Proof. destruct e. cbn. by intros ->. Qed.

Ltac ring_lia := unfold RING, element_size, LOCKLESSQ_SIZE in *; lia.

(** What a push does to the memory behind the messages [L] that start at [p]. *)
Lemma put_spec m p L e pay (n := slots_occupied (size e)) (P := p + total L) : sized m -> Forall cell_ok L -> pushable e pay ->
  total L + n <= 512 -> stored m p L -> quiet m P (512 - total L) ->
  let r := store (store m (16 * (P + 1)) pay) (16 * P) (encode e) in
  sized r /\ stored r p (L ++ [mkCell e pay false]) /\ quiet r (P + n) (512 - total L - n).
Proof.
  intros Hm HL Hp Hfit Hst Hq r. pose proof Hp as [[Hz _ _ _ Hin] Hf Hsz Hpg Hcl]. pose proof (slots_pos (size e) ltac:(lia)) as Hs. fold n in Hs.
  pose proof (total_pos _ HL) as Ht. pose proof (length_encode e Hin) as Hle.
  assert (Hm1 : sized (store m (16 * (P + 1)) pay)) by (by apply store_sized).
  assert (Hm2 : sized r) by (by apply store_sized). split; [done|].
  assert (Hbehind : forall x, 16 * (P + n) <= x < 16 * p + RING -> byte_at r x = byte_at m x).
  { intros x Hx. unfold r. rewrite byte_at_out by (done || (rewrite Hle; ring_lia)). rewrite byte_at_out by (done || ring_lia). done. }
  split.
  - rewrite stored_app. split.
    + eapply stored_frame; [done| |exact Hst]. intros j Hj. unfold r.
      rewrite byte_at_before by (done || rewrite ?Hle; ring_lia). rewrite byte_at_before by (done || ring_lia). done.
    + cbn [stored c_ele c_pay]. fold P. rewrite marked_new by done. split_and!; [| | |done].
      * unfold r. pose proof (load_in (store m (16 * (P + 1)) pay) (16 * P) (encode e) Hm1) as H. rewrite Hle in H. apply H. ring_lia.
      * unfold r. rewrite load_out by (done || rewrite ?Hle; ring_lia). rewrite Hsz. apply load_in; [done|ring_lia].
      * intros j Hj. change (c_slots _) with n in Hj. unfold r. rewrite byte_at_out by (done || (rewrite Hle; ring_lia)).
        destruct (Z.lt_ge_cases (16 * j + 2) (Z.of_nat (length pay))).
        -- replace (16 * (P + 1 + j) + 2) with (16 * (P + 1) + (16 * j + 2)) by lia. rewrite byte_at_in by (done || ring_lia). apply Hcl; lia.
        -- rewrite byte_at_out by (done || ring_lia). replace (P + 1 + j) with (P + (1 + j)) by lia. apply Hq. lia.
  - intros j Hj. rewrite Hbehind by ring_lia. replace (P + n + j) with (P + (n + j)) by lia. apply Hq. lia.
Qed.

Lemma u32_add p k : u32 (u32 p + k) = u32 (p + k).
Proof. unfold uwrap. by rewrite Zplus_mod_idemp_l. Qed.

Lemma slot_u32 q p : MASK q = LOCKLESSQ_SIZE - 1 -> (slot q (u32 p) - 16 * p) mod RING = 0.
Proof.
  intros E. pose proof (v2_slot_mod q (u32 p) E) as H1. pose proof (u32_slots p) as H2. change element_size with 16 in *.
  replace (slot q (u32 p) - 16 * p) with ((slot q (u32 p) - 16 * u32 p) + (16 * u32 p - 16 * p)) by lia. by rewrite Zplus_mod, H1, H2.
Qed.

Lemma slot_range q p : MASK q = LOCKLESSQ_SIZE - 1 -> 0 <= slot q p <= 16 * 511.
Proof.
  intros E. unfold slot. rewrite E. change (LOCKLESSQ_SIZE - 1) with (2 ^ 9 - 1). rewrite land_pred_pow2 by lia. pose proof (Z.mod_pos_bound p (2 ^ 9) ltac:(lia)).
  unfold element_size. lia.
Qed.

(** The copy, once the credits are there. *)
Lemma push_put s r m L e pay (n := slots_occupied (size e)) : mid s r m L -> pushable e pay -> n <= credits s ->
  let P := pointer r + total L in
  let m1 := store (store (bytes_arr m) (slot s (u32 (pointer s + 1))) pay) (slot s (pointer s)) (encode e) in
  slot s (u32 (pointer s + 1)) + size e <= 2 * RING /\
  mid (set_credits (set_pointer s (u32 (pointer s + n))) (u32 (credits s - n))) r (set_ring m m1) (L ++ [mkCell e pay false]).
Proof.
  intros [Hm [Hk1 Hk2] Hcr Hen Ht Hh Hst Hq HL (Hc1 & Hc2 & Hc3)] Hp Hn P m1. pose proof Hp as [[Hz _ _ _ _] _ _ Hpg _].
  pose proof (slots_pos (size e) ltac:(lia)) as Hs. fold n in Hs. pose proof (total_pos _ HL) as Htp.
  split; [pose proof (slot_range s (u32 (pointer s + 1)) Hk1); ring_lia|].
  assert (E : m1 = store (store (bytes_arr m) (16 * (P + 1)) pay) (16 * P) (encode e)).
  { unfold m1. rewrite Hh, u32_add. fold P. rewrite (store_mod _ _ (16 * P)) by (by apply slot_u32). f_equal. apply store_mod. by apply slot_u32. }
  destruct (put_spec (bytes_arr m) (pointer r) L e pay Hm HL Hp) as (H1 & H2 & H3); [fold n; destruct (return_flag m); lia|done|done|].
  fold n P in H1, H2, H3. rewrite <- E in H1, H2, H3.
  assert (Etot : total (L ++ [mkCell e pay false]) = total L + n) by (rewrite total_app; unfold total at 2, c_slots; simpl; fold n; lia).
  split; cbn [bytes_arr set_ring set_credits set_pointer MASK CREDITS_PER_RETURN credit_disabled pointer credits return_flag]; rewrite ?Etot; try done.
  - rewrite Hh, u32_add. f_equal. lia.
  - replace (pointer r + (total L + n)) with (P + n) by (unfold P; lia). replace (512 - (total L + n)) with (512 - total L - n) by lia. done.
  - apply Forall_app. split; [done|]. by constructor.
  - rewrite uwrap_small by (split; destruct (return_flag m); lia). destruct (return_flag m); lia.
Qed.

Lemma mid_return s r m L : mid s r m L -> return_flag m = true -> mid (set_credits s (u32 (credits s + CREDITS_PER_RETURN s))) r (set_flag m false) L.
Proof.
  intros [Hm Hk [Hr1 Hr2] Hen Ht Hh Hst Hq HL (Hc1 & Hc2 & Hc3)] Hf. pose proof (total_pos _ HL). rewrite Hf in Hc3. split; try done.
  cbn [credits set_credits return_flag set_flag]. rewrite Hr1. rewrite uwrap_small by (split; lia). lia.
Qed.

Lemma front_app L c : match L with c :: _ => c_del c = false | [] => True end -> c_del c = false ->
  match L ++ [c] with c :: _ => c_del c = false | [] => True end.
Proof. by destruct L. Qed.

(** A push is refused only when the credits do not suffice and none have come
    back. *)
Lemma v2_push_spec s r m L e pay : rep s r m L -> pushable e pay ->
  if (credits s <? slots_occupied (size e)) && negb (return_flag m) then push_nb s m e pay = Some (false, s, m)
  else exists s' m', push_nb s m e pay = Some (true, s', m') /\ rep s' r m' (L ++ [mkCell e pay false]).
Proof.
  intros [Hmid Hfr] Hp. unfold push_nb. rewrite (mi_enabled _ _ _ _ Hmid). cbn [negb andb].
  assert (Hn : slots_occupied (size e) <= 257).
  { destruct Hp as [[Hz _ _ _ _] _ _ Hpg _]. pose proof (slots_pos (size e)). lia. }
  destruct (Z.ltb_spec (credits s) (slots_occupied (size e))) as [Hlt|Hge]; cbn [andb].
  - destruct (return_flag m) eqn:Hf; cbn [negb]; [|done].
    pose proof (mid_return _ _ _ _ Hmid Hf) as Hmid'. destruct (mi_return _ _ _ _ Hmid) as [Hr _]. destruct (mi_credits _ _ _ _ Hmid') as (_ & Hc & Hsum).
    destruct (mi_credits _ _ _ _ Hmid) as (Hc1 & _ & Hsum1). pose proof (total_pos _ (mi_cells _ _ _ _ Hmid)). rewrite Hf in Hsum1.
    destruct (push_put _ _ _ _ e pay Hmid' Hp) as [Hb Hmid2].
    { cbn [credits set_credits]. rewrite Hr, uwrap_small by (split; lia). lia. }
    rewrite (proj2 (Z.ltb_ge _ _)) by lia. eexists _, _. split; [reflexivity|]. split; [exact Hmid2|]. by apply front_app.
  - destruct (push_put _ _ _ _ e pay Hmid Hp Hge) as [Hb Hmid2]. rewrite (proj2 (Z.ltb_ge _ _)) by lia.
    eexists _, _. split; [reflexivity|]. split; [exact Hmid2|]. by apply front_app.
Qed.

(** ** Reading and deleting *)

(** Location [loc] is the slot at position [P]. *)
Definition at_slot (q : queue) (loc P : Z) : Prop := (slot q loc - 16 * P) mod RING = 0.

Lemma at_add q loc P k : at_slot q loc P -> (slot q loc + k - (16 * P + k)) mod RING = 0.
Proof. intros H. by replace (slot q loc + k - (16 * P + k)) with (slot q loc - 16 * P) by lia. Qed.

Lemma get_flags_at q m loc P : at_slot q loc P -> get_flags q m loc = byte_at (bytes_arr m) (16 * P + 2).
Proof. intros H. apply byte_at_mod. by apply at_add. Qed.

Lemma set_flags_at q m loc P f : at_slot q loc P -> set_flags q m loc f = set_ring m (store (bytes_arr m) (16 * P + 2) [f]).
Proof. intros H. unfold set_flags. f_equal. apply store_mod. by apply at_add. Qed.

Lemma peek_meta_at q m loc P e : at_slot q loc P -> fits e -> load (bytes_arr m) (16 * P) 16 = encode e -> peek_meta q m loc = e.
Proof. intros H Hf E. unfold peek_meta. change element_size with 16. rewrite (load_mod _ _ (16 * P)), E by done. by apply decode_encode. Qed.

Lemma header_flags m P e : load m (16 * P) 16 = encode e -> byte_at m (16 * P + 2) = flags e.
Proof. intros E. rewrite <- (load_nth m (16 * P) 16 2) by lia. by rewrite E. Qed.

Lemma fits_flags e f : fits e -> 0 <= f < 256 -> fits (with_flags e f).
Proof. intros [H1 H2 H3 H4 H5] Hf. by split. Qed.

Lemma fits_marked c : cell_ok c -> fits (marked c).
Proof. intros H. apply fits_flags; [apply H|]. destruct (c_del c); lia. Qed.

(** Each message is found at its place. *)
Lemma peek_spec s r m L1 c L2 loc : mid s r m (L1 ++ c :: L2) -> at_slot r loc (pointer r + total L1) ->
  peek_meta r m loc = marked c /\ peek_data r m loc (size (c_ele c)) = c_pay c.
Proof.
  intros H Ha. pose proof (mi_stored _ _ _ _ H) as Hst. apply stored_app in Hst as [_ (H1 & H2 & _)].
  pose proof (mi_cells _ _ _ _ H) as HL. apply Forall_app in HL as [_ HL]. apply Forall_cons in HL as [Hc _].
  split; [by eapply peek_meta_at, H1; [done|by apply fits_marked]|]. rewrite <- H2. unfold peek_data. apply load_mod. change element_size with 16.
  replace (16 * (pointer r + total L1 + 1)) with (16 * (pointer r + total L1) + 16) by lia. by apply at_add.
Qed.

(** Behind the last message there is none. *)
Lemma peek_none s r m L loc : mid s r m L -> total L < 512 -> at_slot r loc (pointer r + total L) -> has (get_flags r m loc) 1 = false.
Proof. intros H Ht Ha. rewrite (get_flags_at _ _ _ _ Ha). pose proof (mi_free _ _ _ _ H 0) as Hq. rewrite Z.add_0_r in Hq. apply Hq. lia. Qed.

Lemma at_pointer q : MASK q = LOCKLESSQ_SIZE - 1 -> at_slot q (pointer q) (pointer q).
Proof. intros E. apply (v2_slot_mod q (pointer q) E). Qed.

Definition mark (c : cell) : cell := mkCell (c_ele c) (c_pay c) true.

Lemma total_mark L k c : L !! k = Some c -> total (<[k := mark c]> L) = total L.
Proof. revert k. induction L as [|x L IH]; intros [|k] H; simplify_eq/=; [done|]. by rewrite IH. Qed.

(** Marking a message leaves the rest. *)
Lemma v2_mid_mark s r m L1 c L2 loc f : mid s r m (L1 ++ c :: L2) -> at_slot r loc (pointer r + total L1) -> f = 3 ->
  mid s r (set_flags r m loc f) (L1 ++ mark c :: L2).
Proof.
  intros H Ha Hf. rewrite (set_flags_at _ _ _ _ _ Ha). pose proof H as [Hm Hk Hr Hen Ht Hh Hst Hq HL (Hc1 & Hc2 & Hc3)].
  set (P := pointer r + total L1) in *. assert (Et : total (L1 ++ mark c :: L2) = total (L1 ++ c :: L2)) by (by rewrite !total_app).
  pose proof (proj1 (Forall_app _ _ _) HL) as [HL1 HL2]. apply Forall_cons in HL2 as [Hc HL2].
  pose proof (total_pos _ HL1) as T1. pose proof (total_pos _ HL2) as T2. pose proof (slots_pos (size (c_ele c)) (proj1 (ft_size _ (pu_fits _ _ Hc)))) as Hs.
  assert (Htot : total (L1 ++ c :: L2) = total L1 + c_slots c + total L2) by (rewrite total_app; simpl; lia). unfold c_slots in Htot.
  assert (Hfits : total L1 + slots_occupied (size (c_ele c)) + total L2 <= 512) by (destruct (return_flag m); lia).
  assert (HP : P = pointer r + total L1) by done.
  assert (Hother : forall x, 16 * pointer r <= x < 16 * pointer r + RING -> x <> 16 * P + 2 -> byte_at (store (bytes_arr m) (16 * P + 2) [f]) x = byte_at (bytes_arr m) x).
  { intros x Hx Hne. destruct (Z.lt_ge_cases x (16 * P + 2)); [apply byte_at_before|apply byte_at_out]; simpl; (done || ring_lia). }
  apply stored_app in Hst as [Hs1 (H1 & H2 & H3 & H4)]. fold P in H1, H2, H3, H4.
  split; cbn [bytes_arr set_ring return_flag]; rewrite ?Et; try done.
  - by apply store_sized.
  - rewrite stored_app. split.
    + eapply stored_frame; [done| |exact Hs1]. intros j Hj. apply Hother; ring_lia.
    + cbn [stored]. fold P. split_and!.
      * replace (marked (mark c)) with (with_flags (marked c) 3) by done. rewrite <- Hf. by apply load_flags.
      * change (c_pay (mark c)) with (c_pay c). rewrite <- H2. apply load_ext. intros j Hj. change (c_ele (mark c)) with (c_ele c) in Hj. apply Hother; ring_lia.
      * change (c_slots (mark c)) with (c_slots c). eapply quiet_frame; [|exact H3]. intros j Hj. unfold c_slots in Hj. apply Hother; ring_lia.
      * change (c_slots (mark c)) with (c_slots c). eapply stored_frame; [done| |exact H4]. intros j Hj. unfold c_slots. apply Hother; unfold P; ring_lia.
  - eapply quiet_frame; [|exact Hq]. intros j Hj. apply Hother; ring_lia.
  - apply Forall_app. split; [done|]. by constructor.
Qed.

(** The memory once the first message is gone: its slots are free. *)
Lemma v2_drop_memory s r m c L (n := c_slots c) (m1 := store (bytes_arr m) (16 * pointer r + 2) [2]) : mid s r m (c :: L) ->
  load m1 (16 * pointer r) 16 = encode (with_flags (c_ele c) 2)
  /\ stored m1 (u32 (pointer r + n)) L /\ quiet m1 (u32 (pointer r + n) + total L) (512 - total L).
Proof.
  intros [Hm _ _ _ Ht _ (H1 & H2 & H3 & H4) Hq HL (Hc1 & Hc2 & Hc3)]. apply Forall_cons in HL as [Hc HL]. cbn [total] in *. fold n in H3, H4, Hq, Hc3.
  pose proof (slots_pos (size (c_ele c)) (proj1 (ft_size _ (pu_fits _ _ Hc)))) as Hs. change (slots_occupied (size (c_ele c))) with n in Hs. pose proof (total_pos _ HL) as T.
  assert (Hn : n + total L <= 512) by (destruct (return_flag m); lia).
  assert (Hother : forall x, 16 * pointer r + 3 <= x < 16 * pointer r + RING -> byte_at m1 x = byte_at (bytes_arr m) x).
  { intros x Hx. apply byte_at_out; simpl; (done || ring_lia). }
  assert (Hsh : forall x, agree m1 (pointer r + n) m1 (u32 (pointer r + n)) x).
  { intros x. apply agree_mod. apply (u32_slots (pointer r + n)). }
  assert (Hh : load m1 (16 * pointer r) 16 = encode (with_flags (c_ele c) 2)) by (by apply (load_flags _ _ (marked c))).
  split; [done|]. split.
  - eapply (stored_frame m1 (pointer r + n)); [done|done|]. eapply stored_frame; [done| |exact H4]. intros j Hj. apply Hother. ring_lia.
  - apply (quiet_frame m1 (pointer r + n + total L)).
    { replace (u32 (pointer r + n) + total L) with (u32 (pointer r + n) + total L) by lia. apply (agree_sub _ _ _ _ 512 (total L) (512 - total L) (Hsh 512)); lia. }
    intros j Hj. destruct (Z.lt_ge_cases j (512 - total L - n)).
    + rewrite Hother by ring_lia. replace (pointer r + n + total L + j) with (pointer r + (n + total L) + j) by lia. apply Hq. lia.
    + set (i := j - (512 - total L - n)). rewrite (byte_at_mod _ _ (16 * (pointer r + i) + 2)).
      2:{ replace (16 * (pointer r + n + total L + j) + 2 - (16 * (pointer r + i) + 2)) with (1 * RING) by (unfold i; ring_lia). apply Z_mod_mult. }
      destruct (Z.eq_dec i 0) as [->|]; [rewrite Z.add_0_r; by rewrite (header_flags _ _ _ Hh)|].
      rewrite Hother by ring_lia. replace (pointer r + i) with (pointer r + 1 + (i - 1)) by lia. apply H3. lia.
Qed.

Lemma slots_fit c : cell_ok c -> 1 <= c_slots c <= 257.
Proof. intros [[Hz _ _ _ _] _ _ Hpg _]. pose proof (slots_pos (size (c_ele c))). unfold c_slots. lia. Qed.

(** One turn of [del]'s loop. *)
Lemma v2_mid_drop s r m c L : mid s r m (c :: L) ->
  let m1 := set_flags r m (pointer r) 2 in
  let r1 := set_credits (set_pointer r (u32 (pointer r + c_slots c))) (u32 (credits r + c_slots c)) in
  size (peek_meta r m1 (pointer r)) = size (c_ele c) /\
  if CREDITS_PER_RETURN r <=? credits r1 then mid s (set_credits r1 (u32 (credits r1 - CREDITS_PER_RETURN r))) (set_flag m1 true) L else mid s r1 m1 L.
Proof.
  intros H m1 r1. destruct (v2_drop_memory _ _ _ _ _ H) as (Hh & Hst & Hq). pose proof H as [Hm [Hk1 Hk2] [Hr1 Hr2] Hen Ht Hhd _ _ HL (Hc1 & Hc2 & Hc3)].
  apply Forall_cons in HL as [Hc HL]. pose proof (slots_fit _ Hc) as Hs. pose proof (total_pos _ HL) as T. cbn [total] in *.
  assert (E : m1 = set_ring m (store (bytes_arr m) (16 * pointer r + 2) [2])) by (apply set_flags_at; by apply at_pointer). rewrite E. split.
  { rewrite (peek_meta_at r _ _ (pointer r) (with_flags (c_ele c) 2)); [done|by apply at_pointer| |exact Hh]. apply fits_flags; [apply Hc|lia]. }
  unfold r1. cbn [credits set_credits]. rewrite Hr2. rewrite !(uwrap_small 32 (credits r + c_slots c)) by (split; lia).
  assert (Hp : 0 <= u32 (pointer r + c_slots c) < 2 ^ 32) by apply u32_range.
  assert (Hd : pointer s = u32 (u32 (pointer r + c_slots c) + total L)) by (rewrite u32_add, Hhd; f_equal; lia).
  destruct (Z.leb_spec 257 (credits r + c_slots c)) as [Hge|Hlt].
  - split; cbn [bytes_arr set_ring set_flag set_credits set_pointer MASK CREDITS_PER_RETURN pointer credits return_flag]; try done; [by apply store_sized|].
    rewrite (uwrap_small 32 (credits r + c_slots c - 257)) by (split; lia). destruct (return_flag m); lia.
  - split; cbn [bytes_arr set_ring set_flag set_credits set_pointer MASK CREDITS_PER_RETURN pointer credits return_flag]; try done; [by apply store_sized|].
    destruct (return_flag m); lia.
Qed.

Lemma front_flags s r m c L : mid s r m (c :: L) -> get_flags r m (pointer r) = if c_del c then 3 else 1.
Proof.
  intros H. rewrite (get_flags_at r m _ (pointer r)) by (apply at_pointer, H). by rewrite (header_flags _ _ _ (proj1 (mi_stored _ _ _ _ H))).
Qed.

Lemma v2_advance_spec fuel s r m L : mid s r m L -> (length L <= fuel)%nat ->
  exists r' m', advance fuel r m = Some (r', m') /\ rep s r' m' (drop_front L).
Proof.
  revert fuel r m. induction L as [|c L IH]; intros fuel r m H Hf.
  - assert (E : has (get_flags r m (pointer r)) LOCKLESSQ_BITMAP_ISVALID = false).
    { eapply peek_none; [exact H|simpl; lia|]. simpl. rewrite Z.add_0_r. apply at_pointer, H. }
    exists r, m. destruct fuel; cbn [advance]; rewrite E; done.
  - cbn [drop_front]. pose proof (front_flags _ _ _ _ _ H) as E. destruct (c_del c) eqn:Hd.
    + destruct fuel as [|fuel]; [simpl in Hf; lia|]. cbn [advance]. rewrite E. change (has 3 _ && has 3 _) with true. cbv iota.
      change (invalidate 3) with 2. destruct (v2_mid_drop _ _ _ _ _ H) as [Hz Hn]. rewrite Hz. fold (c_slots c).
      cbn [CREDITS_PER_RETURN set_credits set_pointer credits] in Hn |- *.
      destruct (CREDITS_PER_RETURN r <=? u32 (credits r + c_slots c)); (apply IH; [exact Hn|simpl in Hf; lia]).
    + exists r, m. destruct fuel; cbn [advance]; rewrite E; done.
Qed.

Lemma length_total L : Forall cell_ok L -> Z.of_nat (length L) <= total L.
Proof. induction 1 as [|c L Hc _ IH]; simpl; [lia|]. pose proof (slots_fit _ Hc). lia. Qed.

Lemma same_slot q a b : MASK q = LOCKLESSQ_SIZE - 1 -> (Z.land a (MASK q) =? Z.land b (MASK q)) = bool_decide ((slot q a - slot q b) mod RING = 0).
Proof.
  intros E. pose proof (slot_range q a E) as Ha. pose proof (slot_range q b E) as Hb. unfold slot, element_size in *.
  destruct (Z.eqb_spec (Z.land a (MASK q)) (Z.land b (MASK q))) as [->|Hne]; [by rewrite Z.sub_diag, bool_decide_true|].
  rewrite bool_decide_false; [done|]. intros H. pose proof RING_pos. apply Z.mod_divide in H as [k H]; [|lia]. apply Hne.
  assert (k = 0) by ring_lia. lia.
Qed.

Lemma v2_del_spec s r m L1 c L2 loc : rep s r m (L1 ++ c :: L2) -> c_del c = false -> at_slot r loc (pointer r + total L1) ->
  exists r' m', del r m loc = Some (pointer r', r', m') /\ rep s r' m' (drop_front (L1 ++ mark c :: L2)).
Proof.
  intros [H Hfr] Hd Ha. unfold del. pose proof (mi_cells _ _ _ _ H) as HL. apply Forall_app in HL as [HL1 HL2]. apply Forall_cons in HL2 as [Hc HL2].
  assert (E : get_flags r m loc = 1).
  { rewrite (get_flags_at _ _ _ _ Ha). pose proof (mi_stored _ _ _ _ H) as Hst. apply stored_app in Hst as [_ (H1 & _)].
    rewrite (header_flags _ _ _ H1). unfold marked. by rewrite Hd. }
  rewrite E. change (Z.lor 1 LOCKLESSQ_BITMAP_ISDEL) with 3. pose proof (v2_mid_mark _ _ _ _ _ _ _ 3 H Ha eq_refl) as Hmid.
  destruct (mi_mask _ _ _ _ H) as [_ Hk]. rewrite same_slot by done.
  assert (Hz : (slot r loc - slot r (pointer r)) mod RING = (16 * total L1) mod RING).
  { pose proof (at_pointer r Hk) as Hp. unfold at_slot in Ha, Hp.
    replace (slot r loc - slot r (pointer r)) with ((slot r loc - 16 * (pointer r + total L1)) - (slot r (pointer r) - 16 * pointer r) + 16 * total L1) by lia.
    rewrite <- Zplus_mod_idemp_l, Zminus_mod, Ha, Hp. done. }
  rewrite Hz. pose proof (total_pos _ HL1) as T1. pose proof (total_pos _ HL2) as T2. pose proof (slots_fit _ Hc) as Hs.
  destruct (mi_credits _ _ _ _ H) as (Hc1 & Hc2 & Hc3). rewrite total_app in Hc3. cbn [total] in Hc3.
  rewrite Z.mod_small by (destruct (return_flag m); ring_lia). destruct L1 as [|c1 L1].
  - cbn [total app] in *. rewrite bool_decide_true by done. destruct (v2_advance_spec turns _ _ _ _ Hmid) as (r' & m' & -> & Hr').
    { pose proof (length_total _ (mi_cells _ _ _ _ Hmid)). cbn [total length] in *. change (c_slots (mark c)) with (c_slots c) in *. unfold turns, LOCKLESSQ_SIZE. destruct (return_flag m); lia. }
    by exists r', m'.
  - apply Forall_cons in HL1 as [Hc' HL1]. pose proof (slots_fit _ Hc'). pose proof (total_pos _ HL1). cbn [total app drop_front] in *.
    rewrite bool_decide_false by lia. rewrite Hfr. exists r, (set_flags r m loc 3). done.
Qed.

Lemma quiet_zero p n : quiet (replicate (Z.to_nat RING) 0) p n.
Proof. intros j _. unfold byte_at. rewrite nth_lookup. destruct (replicate _ _ !! _) eqn:E; [|done]. by apply lookup_replicate in E as [-> _]. Qed.

Lemma v2_start_rep m : let '(s, m1) := init m false in let '(r, m2) := init m1 true in rep s r (init_mem m2) [].
Proof.
  unfold init, init_mem, set_ring, set_flag. cbn [bytes_arr return_flag]. set (z := replicate (Z.to_nat RING) 0).
  assert (Hz : sized z) by apply length_replicate. assert (Hq : quiet z 0 512) by apply quiet_zero. clearbody z. by split; [split|].
Qed.

Lemma at_position q P : MASK q = LOCKLESSQ_SIZE - 1 -> at_slot q (u32 P) P.
Proof. apply slot_u32. Qed.

(** C15: the two ends are a list of messages.  Freshly initialised it is empty.  A
    push of at most 4096 bytes whose payload is [clean], with bit 0 clear in the
    third byte of every 16-byte slot, where the flags of a message would be,
    appends the message, and is refused only when the credits do not suffice and
    none have come back; with that bit set a free slot can look like a message
    later ([stale_payload_looks_valid]).  On an empty queue at most 4080 bytes are
    always accepted.  Each
    message is found at its place, and none behind the last.  [del] marks a
    message and drops the deleted ones at the front. *)
Theorem v2_refines s r m L : rep s r m L ->
  (forall m0, let '(s0, m1) := init m0 false in let '(r0, m2) := init m1 true in rep s0 r0 (init_mem m2) [])
  /\ (forall e pay, pushable e pay ->
       if (credits s <? slots_occupied (size e)) && negb (return_flag m) then push_nb s m e pay = Some (false, s, m)
       else exists s' m', push_nb s m e pay = Some (true, s', m') /\ rep s' r m' (L ++ [mkCell e pay false]))
  /\ (L = [] -> forall e pay, pushable e pay -> size e <= 4080 -> exists s' m', push_nb s m e pay = Some (true, s', m'))
  /\ (forall k, match L !! k with
       | Some c => let loc := u32 (pointer r + total (take k L)) in
           peek_meta r m loc = marked c /\ peek_data r m loc (size (c_ele c)) = c_pay c
           /\ (c_del c = false -> exists r' m', del r m loc = Some (pointer r', r', m') /\ rep s r' m' (drop_front (<[k := mark c]> L)))
       | None => total L < 512 -> has (get_flags r m (u32 (pointer r + total L))) LOCKLESSQ_BITMAP_ISVALID = false
       end).
Proof.
  intros H. pose proof (rp_mid _ _ _ _ H) as Hmid. destruct (mi_mask _ _ _ _ Hmid) as [_ Hk]. split; [exact v2_start_rep|]. split_and!.
  - intros e pay. by apply v2_push_spec.
  - intros -> e pay Hp Hz. pose proof (v2_push_spec _ _ _ _ _ _ H Hp) as Hs. destruct (mi_credits _ _ _ _ Hmid) as (Hc1 & Hc2 & Hc3). cbn [total] in Hc3.
    assert (Hn : slots_occupied (size e) <= 256) by (pose proof (slots_pos (size e) (proj1 (ft_size _ (pu_fits _ _ Hp)))); lia).
    assert (E : (credits s <? slots_occupied (size e)) && negb (return_flag m) = false).
    { destruct (return_flag m); [apply andb_false_r|]. rewrite (proj2 (Z.ltb_ge _ _)) by lia. done. }
    rewrite E in Hs. destruct Hs as (s' & m' & Hs & _). by exists s', m'.
  - intros k. destruct (L !! k) as [c|] eqn:Ek; [|intros Ht; eapply peek_none; [exact Hmid|done|by apply at_position]].
    pose proof (take_drop_middle L k c Ek) as EL. rewrite <- EL in H, Hmid. pose proof (at_position r (pointer r + total (take k L)) Hk) as Ha. cbv zeta.
    destruct (peek_spec _ _ _ _ _ _ _ Hmid Ha) as [H1 H2]. split; [done|]. split; [done|]. intros Hd.
    destruct (v2_del_spec _ _ _ _ _ _ _ H Hd Ha) as (r' & m' & H3 & H4). exists r', m'. split; [done|].
    replace (<[k := mark c]> L) with (take k L ++ mark c :: drop (S k) L); [done|]. rewrite insert_take_drop by (by eapply lookup_lt_Some). done.
Qed.

Definition demo_start : queue * queue * shm :=
  let '(s, m1) := init (mkShm [] false) false in let '(r, m2) := init m1 true in (s, r, init_mem m2).

Lemma v2_refines_witness : let '(s, r, m) := demo_start in
  rep s r m [] /\ exists s' m', push_nb s m (mkElement 3 1 2 7 [0; 0; 0; 0; 0; 0; 0; 0]) [4; 5; 6] = Some (true, s', m').
Proof.
  pose proof (v2_start_rep (mkShm [] false)) as H. split; [exact H|].
  apply (v2_refines _ _ _ [] H); [done| |simpl; lia]. split; [split; simpl; (done || lia)|done|done|simpl; lia|].
  intros j Hj. simpl. intros Hl. assert (j = 0) as -> by lia. done.
Defined.

(** ** Where the queue fails *)

(** A message with [n] bytes of payload. *)
Definition demo_element (n : Z) : element_t := mkElement n 1 2 7 (replicate 8 0).

Definition pushed (st : queue * queue * shm) (n : Z) (pay : list Z) : queue * queue * shm :=
  let '(s, r, m) := st in match push_nb s m (demo_element n) pay with Some (_, s, m) => (s, r, m) | None => st end.
Definition popped (st : queue * queue * shm) : queue * queue * shm :=
  let '(s, r, m) := st in match del r m (pointer r) with Some (_, r, m) => (s, r, m) | None => st end.

(** What is left of a payload looks like a message: when a message whose payload
    has a one in its third byte was pushed and deleted, the ends meet again, and
    yet slot 1, which is free, is marked valid.  A receiver that comes to it in
    the next round, after a message without payload, takes it for the next
    message. *)
Lemma stale_payload_looks_valid :
  let '(s, r, m) := popped (pushed demo_start 16 ([0; 0; 1] ++ replicate 13 0)) in
  pointer s = pointer r /\ has (get_flags r m (pointer r)) LOCKLESSQ_BITMAP_ISVALID = false
  /\ has (get_flags r m 1) LOCKLESSQ_BITMAP_ISVALID = true /\ slot r 513 = slot r 1.
Proof. vm_compute. repeat split; reflexivity. Qed.

(** [isempty] does not end on a ring that is full of messages. *)
Lemma empty_from_spins s r m L fuel L1 c L2 tail : mid s r m L -> total L = 512 -> Forall (fun c => c_del c = false) L -> L = L1 ++ c :: L2 ->
  at_slot r tail (pointer r + total L1) -> empty_from fuel r m tail = None.
Proof.
  intros H Ht HD. revert L1 c L2 tail. induction fuel as [|fuel IH]; intros L1 c L2 tail EL Ha.
  all: assert (Hd : c_del c = false) by (rewrite EL in HD; apply Forall_app in HD as [_ HD]; by apply Forall_cons in HD as [? _]).
  all: pose proof H as H'; rewrite EL in H'; destruct (peek_spec _ _ _ _ _ _ _ H' Ha) as [Hm _].
  all: assert (Hf : get_flags r m tail = 1)
    by (pose proof (mi_stored _ _ _ _ H') as Hst; apply stored_app in Hst as [_ (H1 & _)]; rewrite (get_flags_at _ _ _ _ Ha), (header_flags _ _ _ H1); unfold marked; by rewrite Hd).
  all: cbn [empty_from]; rewrite Hf; cbv zeta; change (has 1 LOCKLESSQ_BITMAP_ISVALID) with true; change (has 1 LOCKLESSQ_BITMAP_ISDEL) with false; cbv iota.
  1: done.
  rewrite Hm. change (slots_occupied (size (marked c))) with (c_slots c). destruct (mi_mask _ _ _ _ H) as [_ Hk].
  assert (Ha' : at_slot r (u32 (tail + c_slots c)) (pointer r + total (L1 ++ [c]))).
  { pose proof (slot_u32 r (tail + c_slots c) Hk) as E1. pose proof (v2_slot_mod r tail Hk) as E2. unfold at_slot in *. change element_size with 16 in E2.
    rewrite total_app. cbn [total].
    replace (slot r (u32 (tail + c_slots c)) - 16 * (pointer r + (total L1 + (c_slots c + 0))))
      with ((slot r (u32 (tail + c_slots c)) - 16 * (tail + c_slots c)) + ((slot r tail - 16 * (pointer r + total L1)) - (slot r tail - 16 * tail))) by lia.
    rewrite Zplus_mod, E1, Zminus_mod, Ha, E2. done. }
  destruct L2 as [|c2 L2].
  - assert (Hall : total (L1 ++ [c]) = 512) by (by rewrite <- EL). destruct L as [|c0 L0]; [by destruct L1|].
    apply (IH [] c0 L0); [done|]. unfold at_slot in *. cbn [total]. rewrite Hall in Ha'.
    replace (slot r (u32 (tail + c_slots c)) - 16 * (pointer r + 0)) with ((slot r (u32 (tail + c_slots c)) - 16 * (pointer r + 512)) + 1 * RING) by ring_lia.
    by rewrite Z_mod_plus_full.
  - apply (IH (L1 ++ [c]) c2 L2); [|done]. by rewrite <- app_assoc.
Qed.

Lemma full_ring_spins s r m L : mid s r m L -> total L = 512 -> Forall (fun c => c_del c = false) L -> forall fuel, empty_from fuel r m (pointer r) = None.
Proof.
  intros H Ht HD fuel. destruct L as [|c L]; [simpl in Ht; lia|]. apply (empty_from_spins s r m (c :: L) fuel [] c L); try done.
  cbn [total]. rewrite Z.add_0_r. apply at_pointer, H.
Qed.

(** [nextptr] counts modulo 511: the slot behind slot 510 is not 511. *)
Lemma nextptr_off_by_one q m : MASK q = 511 -> size (peek_meta q m 510) = 0 -> nextptr q m 510 = 0.
Proof. intros Hk Hz. unfold nextptr. rewrite Hz, Hk. reflexivity. Qed.

End QueueV2.
