(* ===== verification/QueueV3.v ===== *)
(** * The queue of two blocks of the prototype

    [common/locklessq_v3.hpp]: [locklessqueue_t_v3], a queue for one sender and
    one receiver in two blocks of [SIZE] slots that are used in turn.  The
    receiver gives a whole block back by the block's flag when it has taken the
    last element; elements may be deleted out of order. *)

From Stdlib Require Import ZArith Lia.
From stdpp Require Import numbers base gmap list.
From S2P Require Import Prelude.

Module QueueV3.

Record element_t (T : Type) := mkElement { data : T; isvalid : bool; isdel : bool }.
Arguments mkElement {T}.
Arguments data {T}.
Arguments isvalid {T}.
Arguments isdel {T}.

(** The two blocks are called [false] and [true]; the shared memory has a ring
    buffer and a flag for each. *)
Definition block := bool.
Definition put {A} (f : block -> A) (b : block) (x : A) : block -> A := fun c => if bool_decide (c = b) then x else f c.

Record shm (T : Type) := mkShm { ringbuffer : block -> list (element_t T); return_flag : block -> bool }.
Arguments mkShm {T}.
Arguments ringbuffer {T}.
Arguments return_flag {T}.

(** What a process keeps: [is_avail] is the field of its two block
    descriptors, whose [next] is the other one. *)
Record queue := mkQueue { startptr : block; prevptr : block; is_avail : block -> bool; pointer : Z; MASK : Z; is_receiver : bool }.

Definition next (b : block) : block := negb b.

(** [iterator]; [None] is the null pointer. *)
Record iterator := mkIter { it_pointer : Z; currptr : option block }.

Section ops.
Context {T : Type} (SIZE : Z).
Implicit Types (q : queue) (m : shm T) (it : iterator).

Definition set_pointer q p : queue := mkQueue (startptr q) (prevptr q) (is_avail q) p (MASK q) (is_receiver q).
Definition set_avail q b x : queue := mkQueue (startptr q) (prevptr q) (put (is_avail q) b x) (pointer q) (MASK q) (is_receiver q).
(** [prevptr = startptr; startptr = startptr->next; pointer = 0] *)
Definition turn q : queue := mkQueue (next (startptr q)) (startptr q) (is_avail q) 0 (MASK q) (is_receiver q).

Definition set_flag m b x : shm T := mkShm (ringbuffer m) (put (return_flag m) b x).
Definition set_slot m b (i : Z) (f : element_t T -> element_t T) : shm T :=
  mkShm (put (ringbuffer m) b (alter f (Z.to_nat i) (ringbuffer m b))) (return_flag m).
Definition get_slot m b (i : Z) : option (element_t T) := ringbuffer m b !! Z.to_nat i.

(** The constructor and [init_ptr]. *)
Definition init_ptr (is_receiver_tmp : bool) : queue := mkQueue false true (fun _ => true) 0 (SIZE - 1) is_receiver_tmp.

Definition init_mem m (zero : T) : shm T :=
  mkShm (fun _ => replicate (Z.to_nat SIZE) (mkElement zero false false)) (fun _ => false).

Definition check_next_avail q m (b : block) : bool * queue * shm T :=
  if return_flag m b then (true, set_avail q b true, set_flag m b false) else (is_avail q b, q, m).

Definition push_nb q m (d : T) : bool * queue * shm T :=
  let go q m := (true, set_pointer q (u32 (pointer q + 1)), set_slot m (startptr q) (Z.land (pointer q) (MASK q)) (fun _ => mkElement d true false)) in
  if pointer q =? SIZE then
    let q := set_avail q (startptr q) false in
    let '(ok, q, m) := check_next_avail q m (next (startptr q)) in
    if ok : bool then go (turn q) m else (false, q, m)
  else go q m.

Definition is_full q : bool := pointer q =? SIZE.

Definition begin q : iterator := mkIter (pointer q) (Some (startptr q)).

(** [operator++]; the null pointer is not followed. *)
Definition it_next it : option iterator :=
  if it_pointer it =? SIZE - 1 then match currptr it with Some b => Some (mkIter 0 (Some (next b))) | None => None end
  else Some (mkIter (u32 (it_pointer it + 1)) (currptr it)).

(** [operator->]; [None] outside the ring buffer. *)
Definition it_get m it : option (element_t T) := b ← currptr it; get_slot m b (it_pointer it).

Definition it_valid it : bool := match currptr it with None => false | Some _ => it_pointer it <? SIZE end.

(** The loop of [del]; [None]: the turns are used up, or a slot outside the ring
    buffer is read. *)
Fixpoint advance (fuel : nat) q m it : option (queue * shm T * iterator) :=
  match get_slot m (startptr q) (pointer q) with
  | None => None
  | Some e =>
      if isvalid e && isdel e then
        match fuel with
        | O => None
        | S fuel =>
            let m := set_slot m (startptr q) (pointer q) (fun e => mkElement (data e) false (isdel e)) in
            let at_front it q := bool_decide (Some (startptr q) = currptr it) && (it_pointer it =? pointer q) in
            let it := if at_front it q then mkIter (u32 (it_pointer it + 1)) (currptr it) else it in
            let q := set_pointer q (u32 (pointer q + 1)) in
            if pointer q =? SIZE then
              let it := if at_front it q then mkIter 0 (Some (next (startptr q))) else it in
              advance fuel (turn q) (set_flag m (startptr q) true) it
            else advance fuel q m it
        end
      else Some (q, m, it)
  end.

(** Each turn clears the valid bit of a slot and sets none. *)
Definition turns : nat := Z.to_nat (2 * SIZE).

Definition it_del q m it : option (queue * shm T * iterator) :=
  if it_pointer it =? SIZE then Some (q, m, it)
  else
    match currptr it with
    | None => Some (q, m, it)
    | Some b => advance turns q (set_slot m b (it_pointer it) (fun e => mkElement (data e) (isvalid e) true)) it
    end.

End ops.

(** ** The two blocks as one sequence of slots *)

Lemma put_eq {A} (f : block -> A) b x : put f b x b = x.
Proof. unfold put. by rewrite bool_decide_true. Qed.
Lemma put_ne {A} (f : block -> A) b c x : c <> b -> put f b x c = f c.
Proof. intros H. unfold put. by rewrite bool_decide_false. Qed.

Section spec.
Context {T : Type} (SIZE : Z) (Hsize : exists e, 0 <= e < 32 /\ SIZE = 2 ^ e).
Implicit Types (q s r : queue) (m : shm T) (it : iterator) (L : list (T * bool)).

Lemma v3_size_pos : 0 < SIZE < 2 ^ 32.
Proof. destruct Hsize as (e & He & ->). split; [apply Z.pow_pos_nonneg; lia|apply Z.pow_lt_mono_r; lia]. Qed.

(** Position [x] of the sequence is in the block of the parity of [x / SIZE]. *)
Definition blk (x : Z) : block := Z.odd (x / SIZE).
Definition slot_at m (x : Z) : option (element_t T) := get_slot m (blk x) (x mod SIZE).

Lemma pos_split x : x mod (SIZE * 2) = x mod SIZE + SIZE * (if blk x then 1 else 0).
Proof. pose proof v3_size_pos. rewrite Z.rem_mul_r by lia. unfold blk. by rewrite Zmod_odd. Qed.

Lemma same_pos x y : x mod (SIZE * 2) = y mod (SIZE * 2) <-> blk x = blk y /\ x mod SIZE = y mod SIZE.
Proof.
  pose proof v3_size_pos. rewrite !pos_split. pose proof (Z.mod_pos_bound x SIZE ltac:(lia)). pose proof (Z.mod_pos_bound y SIZE ltac:(lia)).
  destruct (blk x), (blk y); split; intros; split_and?; (done || lia || (destruct_and!; (done || lia))).
Qed.

Lemma slot_at_same m x y : x mod (SIZE * 2) = y mod (SIZE * 2) -> slot_at m x = slot_at m y.
Proof. intros [H1 H2]%same_pos. unfold slot_at. by rewrite H1, H2. Qed.

(** Writing the slot of one position leaves the next [2 * SIZE - 1] alone. *)
Lemma slot_at_set m x y f : slot_at (set_slot m (blk x) (x mod SIZE) f) y =
  if bool_decide (x mod (SIZE * 2) = y mod (SIZE * 2)) then f <$> slot_at m y else slot_at m y.
Proof.
  unfold slot_at, set_slot, get_slot. cbn [ringbuffer]. case_bool_decide as E.
  - apply same_pos in E as [-> ->]. by rewrite put_eq, list_lookup_alter_eq.
  - destruct (decide (blk y = blk x)) as [Eb|Eb]; [|by rewrite put_ne]. rewrite Eb, put_eq, list_lookup_alter_ne; [done|].
    intros Ei. apply E, same_pos. split; [done|]. pose proof v3_size_pos. pose proof (Z.mod_pos_bound x SIZE ltac:(lia)). pose proof (Z.mod_pos_bound y SIZE ltac:(lia)). lia.
Qed.

Lemma apart x y : 0 < y - x < SIZE * 2 -> x mod (SIZE * 2) <> y mod (SIZE * 2).
Proof. intros H E. pose proof (mod_inj_close y x (SIZE * 2)). lia. Qed.

Lemma blk_of b i : 0 <= i < SIZE -> blk (b * SIZE + i) = Z.odd b.
Proof. intros H. unfold blk. rewrite Z.div_add_l by lia. rewrite Z.div_small by lia. by rewrite Z.add_0_r. Qed.

Lemma mod_of b i : 0 <= i < SIZE -> (b * SIZE + i) mod SIZE = i.
Proof. intros H. rewrite Z.add_comm, Z_mod_plus_full. by apply Z.mod_small. Qed.

(** ** The ends and the elements between them

    The sender is in its [bs]-th block and the receiver in its [br]-th. *)
Record mid (s r : queue) (m : shm T) (L : list (T * bool)) (bs br : Z) : Prop := {
  mi_sized : forall b, length (ringbuffer m b) = Z.to_nat SIZE;
  mi_mask : MASK s = SIZE - 1;
  mi_blocks : 0 <= bs /\ 0 <= br /\ bs - 1 <= br <= bs + 1;
  mi_start : startptr s = Z.odd bs /\ startptr r = Z.odd br;
  mi_range : 0 <= pointer s <= SIZE /\ 0 <= pointer r < SIZE;
  mi_head : bs * SIZE + pointer s = br * SIZE + pointer r + Z.of_nat (length L);
  mi_avail : is_avail s (next (Z.odd bs)) = (bs =? 0);
  mi_other : return_flag m (next (Z.odd bs)) = (0 <? bs) && (bs <=? br);
  mi_own : return_flag m (Z.odd bs) = (br =? bs + 1);
  mi_cells : forall k x d, L !! k = Some (x, d) -> slot_at m (br * SIZE + pointer r + Z.of_nat k) = Some (mkElement x true d);
  mi_free : forall j, Z.of_nat (length L) <= j < 2 * SIZE -> exists e, slot_at m (br * SIZE + pointer r + j) = Some e /\ isvalid e = false
}.

Definition front_kept L : Prop := match L with (_, d) :: _ => d = false | [] => True end.
Definition rep s r m L : Prop := front_kept L /\ exists bs br, mid s r m L bs br.

Fixpoint drop_front L : list (T * bool) :=
  match L with (_, true) :: L' => drop_front L' | _ => L end.

Lemma v3_start_rep m zero : rep (init_ptr SIZE false) (init_ptr SIZE true) (init_mem SIZE m zero) [].
Proof.
  pose proof v3_size_pos. split; [done|]. exists 0, 0. split; simpl; try done; try lia.
  - intros _. apply length_replicate.
  - intros j Hj. exists (mkElement zero false false). split; [|done]. unfold slot_at, get_slot. simpl.
    apply lookup_replicate_2. match goal with |- context [?x mod SIZE] => pose proof (Z.mod_pos_bound x SIZE ltac:(lia)) end. lia.
Qed.

(** ** Pushing *)

(** Writing an element behind the last one. *)
Lemma mid_write s r m L bs br d : mid s r m L bs br -> pointer s < SIZE ->
  mid (set_pointer s (u32 (pointer s + 1))) r
      (set_slot m (startptr s) (Z.land (pointer s) (MASK s)) (fun _ => mkElement d true false)) (L ++ [(d, false)]) bs br.
Proof.
  intros [H1 H2 H3 [H4a H4b] [H5a H5b] H6 H7 H8 H9 H10 H11] Hp. pose proof v3_size_pos as Hs.
  assert (Hland : Z.land (pointer s) (MASK s) = pointer s).
  { rewrite H2. destruct Hsize as (e & He & Ee). rewrite Ee at 1. rewrite land_pred_pow2 by lia. rewrite <- Ee. apply Z.mod_small. lia. }
  set (h := bs * SIZE + pointer s). assert (Hm : set_slot m (startptr s) (Z.land (pointer s) (MASK s)) (fun _ => mkElement d true false)
    = set_slot m (blk h) (h mod SIZE) (fun _ => mkElement d true false)).
  { unfold h. rewrite blk_of, mod_of by lia. by rewrite Hland, H4a. }
  rewrite Hm. set (p := br * SIZE + pointer r) in *.
  assert (Hlen : Z.of_nat (length L) < 2 * SIZE) by nia.
  split; rewrite ?length_app; cbn [pointer set_pointer MASK startptr is_avail]; try done.
  - intros b. unfold set_slot. cbn [ringbuffer]. unfold put. case_bool_decide; [subst; by rewrite length_alter|done].
  - rewrite uwrap_small by (split; lia). lia.
  - rewrite uwrap_small by (split; lia). simpl. lia.
  - intros k x e Hk. fold p. rewrite slot_at_set. destruct (decide (k < length L)%nat) as [Hlt|Hge].
    + rewrite lookup_app_l in Hk by done. rewrite bool_decide_false; [by apply H10|]. apply not_eq_sym, apart. unfold h. lia.
    + rewrite lookup_app_r in Hk by lia. apply list_lookup_singleton_Some in Hk as [Ek [= <- <-]].
      replace (p + Z.of_nat k) with h by (unfold h; lia). rewrite bool_decide_true by done.
      destruct (H11 (Z.of_nat (length L)) ltac:(lia)) as (e & He & _). fold p in He. replace (p + Z.of_nat (length L)) with h in He by (unfold h; lia). by rewrite He.
  - intros j Hj. simpl in Hj. fold p. rewrite slot_at_set, bool_decide_false; [apply H11; lia|]. apply apart. unfold h. lia.
Qed.

(** The sender goes on to the other block, which was given back or never used. *)
Lemma mid_turn s r m L bs br q m' : mid s r m L bs br -> pointer s = SIZE ->
  startptr q = Z.odd bs -> MASK q = SIZE - 1 -> is_avail q (Z.odd bs) = false -> bs <= br ->
  ringbuffer m' = ringbuffer m -> return_flag m' (next (Z.odd bs)) = false -> return_flag m' (Z.odd bs) = return_flag m (Z.odd bs) ->
  mid (turn q) r m' L (bs + 1) br.
Proof.
  intros [H1 H2 (H3a & H3b & H3c) [H4a H4b] [H5a H5b] H6 H7 H8 H9 H10 H11] Hp Eq Em Ea Hb Er Ef Ef2. pose proof v3_size_pos as Hs.
  assert (Eo : Z.odd (bs + 1) = next (Z.odd bs)) by (unfold next; by rewrite Z.odd_add, xorb_true_r).
  assert (En : next (Z.odd (bs + 1)) = Z.odd bs) by (rewrite Eo; apply negb_involutive).
  assert (Esl : forall x, slot_at m' x = slot_at m x) by (intros x; unfold slot_at, get_slot; by rewrite Er).
  split; try done; cbn [turn startptr pointer MASK is_avail]; rewrite ?En, ?Er.
  - done.
  - lia.
  - by rewrite Eq, Eo.
  - lia.
  - lia.
  - rewrite Ea. symmetry. apply Z.eqb_neq. lia.
  - rewrite Ef2, H9. rewrite (proj2 (Z.ltb_lt _ _)) by lia. cbn [andb]. destruct (Z.eqb_spec br (bs + 1)), (Z.leb_spec (bs + 1) br); (done || lia).
  - rewrite Eo, Ef. symmetry. apply Z.eqb_neq. lia.
  - intros k x e Hk. rewrite Esl. by apply H10.
  - intros j Hj. rewrite Esl. by apply H11.
Qed.

(** A push is refused only when both blocks are in use up to their ends. *)
Lemma v3_push_spec s r m L bs br d : mid s r m L bs br -> front_kept L ->
  if (pointer s =? SIZE) && (br <? bs) then exists s', push_nb SIZE s m d = (false, s', m) /\ mid s' r m L bs br
  else exists s' m', push_nb SIZE s m d = (true, s', m') /\ rep s' r m' (L ++ [(d, false)]).
Proof.
  intros H Hf. pose proof H as [H1 H2 (H3a & H3b & H3c) [H4a H4b] [H5a H5b] H6 H7 H8 H9 H10 H11]. pose proof v3_size_pos as Hs.
  assert (Hfr : front_kept (L ++ [(d, false)])) by (destruct L as [|[??] L]; done).
  unfold push_nb. destruct (Z.eqb_spec (pointer s) SIZE) as [Hp|Hp]; cbn [andb].
  2:{ eexists _, _. split; [reflexivity|]. split; [done|]. exists bs, br. apply mid_write; [done|lia]. }
  unfold check_next_avail. cbn [startptr set_avail]. rewrite H4a, H8. set (s1 := set_avail s (Z.odd bs) false).
  assert (Hmid1 : mid s1 r m L bs br).
  { split; try done. cbn [is_avail set_avail s1]. rewrite put_ne; [done|]. by destruct (Z.odd bs). }
  destruct (Z.ltb_spec 0 bs) as [Hb0|Hb0]; cbn [andb].
  - destruct (Z.leb_spec bs br) as [Hle|Hgt].
    + rewrite (proj2 (Z.ltb_ge _ _)) by lia. eexists _, _. split; [reflexivity|]. split; [done|]. exists (bs + 1), br. apply mid_write; [|simpl; lia].
      eapply mid_turn; try done.
      * cbn [is_avail set_avail s1]. rewrite put_ne by (by destruct (Z.odd bs)). apply put_eq.
      * apply put_eq.
      * apply put_ne. by destruct (Z.odd bs).
    + rewrite (proj2 (Z.ltb_lt _ _)) by lia. cbn [is_avail set_avail s1]. rewrite put_ne by (by destruct (Z.odd bs)). rewrite H7.
      rewrite (proj2 (Z.eqb_neq _ _)) by lia. exists s1. by split.
  - rewrite (proj2 (Z.ltb_ge _ _)) by lia. cbn [is_avail set_avail s1]. rewrite put_ne by (by destruct (Z.odd bs)). rewrite H7.
    rewrite (proj2 (Z.eqb_eq _ _)) by lia. eexists _, _. split; [reflexivity|]. split; [done|]. exists (bs + 1), br. apply mid_write; [|simpl; lia].
    eapply mid_turn; try done; [apply put_eq|lia].
Qed.

(** ** Reading and deleting *)

Definition it_at it (x : Z) : Prop := currptr it = Some (blk x) /\ it_pointer it = x mod SIZE.

Lemma begin_at r br : startptr r = Z.odd br -> 0 <= pointer r < SIZE -> it_at (begin r) (br * SIZE + pointer r).
Proof. intros H1 H2. split; simpl; [by rewrite blk_of, H1|by rewrite mod_of]. Qed.

Lemma div_mod_succ x : (x + 1) / SIZE = x / SIZE + (if x mod SIZE =? SIZE - 1 then 1 else 0)
  /\ (x + 1) mod SIZE = if x mod SIZE =? SIZE - 1 then 0 else x mod SIZE + 1.
Proof.
  pose proof v3_size_pos as Hs. pose proof (Z.div_mod x SIZE ltac:(lia)) as E. pose proof (Z.mod_pos_bound x SIZE ltac:(lia)) as Hb.
  destruct (Z.eqb_spec (x mod SIZE) (SIZE - 1)).
  - replace (x + 1) with ((x / SIZE + 1) * SIZE) by lia. rewrite Z.div_mul, Z.mod_mul by lia. lia.
  - assert (E' : x + 1 = (x / SIZE) * SIZE + (x mod SIZE + 1)) by lia. rewrite E'. rewrite mod_of by lia.
    rewrite Z.div_add_l, (Z.div_small (x mod SIZE + 1)) by lia. done.
Qed.

Lemma it_next_at it x : it_at it x -> exists it', it_next SIZE it = Some it' /\ it_at it' (x + 1).
Proof.
  intros [H1 H2]. pose proof v3_size_pos as Hs. pose proof (Z.mod_pos_bound x SIZE ltac:(lia)) as Hb. destruct (div_mod_succ x) as [Ed Em].
  unfold it_next. rewrite H1, H2. unfold it_at, blk. rewrite Ed, Em. destruct (x mod SIZE =? SIZE - 1); eexists; (split; [reflexivity|]); simpl.
  - by rewrite Z.odd_add, xorb_true_r.
  - rewrite Z.add_0_r, uwrap_small by (split; lia). done.
Qed.

Lemma it_get_at m it x : it_at it x -> it_get m it = slot_at m x.
Proof. intros [H1 H2]. unfold it_get. rewrite H1, H2. done. Qed.

Definition marks L (k : nat) : list (T * bool) := alter (fun c => (c.1, true)) k L.

Lemma get_front s r m L bs br : mid s r m L bs br -> get_slot m (startptr r) (pointer r) = slot_at m (br * SIZE + pointer r).
Proof. intros [_ _ _ [_ H4b] [_ H5b] _ _ _ _ _ _]. unfold slot_at. by rewrite blk_of, mod_of, H4b. Qed.

(** The memory when the first element has gone. *)
Lemma v3_drop_memory s r m x d L bs br (p := br * SIZE + pointer r) : mid s r m ((x, d) :: L) bs br ->
  let m1 := set_slot m (startptr r) (pointer r) (fun e => mkElement (data e) false (isdel e)) in
  (forall b, length (ringbuffer m1 b) = Z.to_nat SIZE)
  /\ (forall k y e, L !! k = Some (y, e) -> slot_at m1 (p + 1 + Z.of_nat k) = Some (mkElement y true e))
  /\ (forall j, Z.of_nat (length L) <= j < 2 * SIZE -> exists e, slot_at m1 (p + 1 + j) = Some e /\ isvalid e = false).
Proof.
  intros [H1 _ (_ & _ & H3c) [_ H4b] [H5a H5b] H6 _ _ _ H10 H11] m1. pose proof v3_size_pos as Hs. fold p in H6, H10, H11. cbn [length] in *.
  assert (Hlen : Z.of_nat (length L) < 2 * SIZE) by nia.
  assert (Hm : m1 = set_slot m (blk p) (p mod SIZE) (fun e => mkElement (data e) false (isdel e))) by (unfold m1, p; by rewrite blk_of, mod_of, H4b).
  rewrite Hm. split_and!.
  - intros b. unfold set_slot. cbn [ringbuffer]. unfold put. case_bool_decide; [subst; by rewrite length_alter|done].
  - intros k y e Hk. pose proof (lookup_lt_Some _ _ _ Hk). rewrite slot_at_set, bool_decide_false by (apply apart; lia).
    replace (p + 1 + Z.of_nat k) with (p + Z.of_nat (S k)) by lia. by apply H10.
  - intros j Hj. destruct (Z.eq_dec j (2 * SIZE - 1)) as [->|Hne].
    + rewrite slot_at_set, bool_decide_true by (replace (p + 1 + (2 * SIZE - 1)) with (p + 1 * (SIZE * 2)) by lia; by rewrite Z_mod_plus_full).
      rewrite (slot_at_same _ _ p) by (replace (p + 1 + (2 * SIZE - 1)) with (p + 1 * (SIZE * 2)) by lia; apply Z_mod_plus_full).
      pose proof (H10 0%nat x d eq_refl) as H0. rewrite Z.add_0_r in H0. rewrite H0. by eexists.
    + rewrite slot_at_set, bool_decide_false by (apply apart; lia). replace (p + 1 + j) with (p + (j + 1)) by lia. apply H11. lia.
Qed.

(** One turn of [del]'s loop; at the end of a block the receiver gives it back. *)
Lemma v3_mid_drop s r m x d L bs br : mid s r m ((x, d) :: L) bs br ->
  let m1 := set_slot m (startptr r) (pointer r) (fun e => mkElement (data e) false (isdel e)) in
  let r1 := set_pointer r (u32 (pointer r + 1)) in
  pointer r1 = pointer r + 1 /\
  if pointer r1 =? SIZE then mid s (turn r1) (set_flag m1 (startptr r1) true) L bs (br + 1) else mid s r1 m1 L bs br.
Proof.
  intros H m1 r1. destruct (v3_drop_memory _ _ _ _ _ _ _ _ H) as (M1 & M2 & M3). fold m1 in M1, M2, M3.
  pose proof H as [_ H2 (H3a & H3b & H3c) [H4a H4b] [H5a H5b] H6 H7 H8 H9 _ _]. pose proof v3_size_pos as Hs. cbn [length] in H6.
  assert (Ep : pointer r1 = pointer r + 1) by (unfold r1; simpl; apply uwrap_small; split; lia). split; [done|].
  rewrite Ep. destruct (Z.eqb_spec (pointer r + 1) SIZE) as [E|E].
  - assert (Hbr : br <= bs) by nia. assert (Ex : forall j, (br + 1) * SIZE + 0 + j = br * SIZE + pointer r + 1 + j) by (intros; lia).
    assert (Eo : Z.odd (br + 1) = negb (Z.odd br)) by (by rewrite Z.odd_add, xorb_true_r).
    split; try done; cbn [turn startptr pointer set_flag return_flag m1 set_slot]; cbn [r1 set_pointer startptr].
    + lia.
    + split; [done|]. by rewrite H4b, Eo.
    + lia.
    + lia.
    + rewrite H4b. destruct (Z.eq_dec br bs) as [->|Hne].
      * rewrite put_ne by (by destruct (Z.odd bs)). rewrite H8. destruct (Z.leb_spec bs bs), (Z.leb_spec bs (bs + 1)); (done || lia).
      * assert (bs = br + 1) as -> by lia. unfold next. rewrite Eo, negb_involutive, put_eq.
        rewrite (proj2 (Z.ltb_lt _ _)), (proj2 (Z.leb_le _ _)) by lia. done.
    + rewrite H4b. destruct (Z.eq_dec br bs) as [->|Hne]; [by rewrite put_eq, Z.eqb_refl|].
      assert (bs = br + 1) as -> by lia. rewrite Eo, put_ne by (by destruct (Z.odd br)). rewrite <- Eo, H9.
      destruct (Z.eqb_spec br (br + 1 + 1)), (Z.eqb_spec (br + 1) (br + 1 + 1)); (done || lia).
    + intros k y e Hk. rewrite Ex. by apply M2.
    + intros j Hj. rewrite Ex. by apply M3.
  - assert (Ex : forall j, br * SIZE + pointer r1 + j = br * SIZE + pointer r + 1 + j) by (intros; lia).
    split; try done; rewrite ?Ep.
    + lia.
    + lia.
    + intros k y e Hk. replace (br * SIZE + (pointer r + 1) + Z.of_nat k) with (br * SIZE + pointer r + 1 + Z.of_nat k) by lia. by apply M2.
    + intros j Hj. replace (br * SIZE + (pointer r + 1) + j) with (br * SIZE + pointer r + 1 + j) by lia. by apply M3.
Qed.

(** An iterator at the front goes along with it. *)
Lemma v3_advance_spec fuel s r m L bs br it : mid s r m L bs br -> (length L <= fuel)%nat -> it_at it (br * SIZE + pointer r) ->
  exists r' m' it', advance SIZE fuel r m it = Some (r', m', it') /\ front_kept (drop_front L)
    /\ exists br', mid s r' m' (drop_front L) bs br' /\ it_at it' (br' * SIZE + pointer r').
Proof.
  revert fuel r m br it. induction L as [|[x d] L IH]; intros fuel r m br it H Hf Hit; pose proof (get_front _ _ _ _ _ _ H) as E; pose proof v3_size_pos as Hs.
  - destruct (mi_free _ _ _ _ _ _ H 0 ltac:(simpl; lia)) as (e & He & Hv). rewrite Z.add_0_r in He. rewrite He in E.
    exists r, m, it. destruct fuel; cbn [advance]; rewrite E, Hv; (split; [done|]; split; [done|]; by exists br).
  - pose proof (mi_cells _ _ _ _ _ _ H 0%nat x d eq_refl) as He. rewrite Z.add_0_r in He. rewrite He in E. destruct d; cbn [drop_front].
    2:{ exists r, m, it. destruct fuel; cbn [advance]; rewrite E; (split; [done|]; split; [done|]; by exists br). }
    destruct fuel as [|fuel]; [simpl in Hf; lia|]. cbn [advance]. rewrite E. cbn [isvalid isdel andb]. cbv zeta.
    destruct (v3_mid_drop _ _ _ _ _ _ _ _ H) as [Ep Hn]. destruct (mi_start _ _ _ _ _ _ H) as [_ Hst]. destruct (mi_range _ _ _ _ _ _ H) as [_ Hr].
    destruct Hit as [Hi1 Hi2]. rewrite blk_of in Hi1 by done. rewrite mod_of in Hi2 by done.
    rewrite (bool_decide_true (Some (startptr r) = currptr it)) by (by rewrite Hi1, Hst). rewrite Hi2, Z.eqb_refl. cbn [andb].
    assert (Eu : u32 (pointer r + 1) = pointer r + 1) by (apply uwrap_small; split; lia).
    cbn [pointer set_pointer startptr] in Hn |- *. rewrite Eu in Hn |- *. destruct (Z.eqb_spec (pointer r + 1) SIZE) as [Es|Es].
    + cbn [currptr it_pointer]. rewrite (bool_decide_true (Some (startptr r) = currptr it)) by (by rewrite Hi1, Hst). rewrite Z.eqb_refl. cbn [andb].
      apply (IH fuel _ _ (br + 1)); [exact Hn|simpl in Hf; lia|]. split; cbn [currptr it_pointer turn pointer]; rewrite Z.add_0_r.
      * rewrite <- (Z.add_0_r ((br + 1) * SIZE)), blk_of by lia. unfold next. by rewrite Hst, Z.odd_add, xorb_true_r.
      * symmetry. apply Z_mod_mult.
    + apply (IH fuel _ _ br); [exact Hn|simpl in Hf; lia|]. split; cbn [currptr it_pointer pointer set_pointer]; [rewrite blk_of by lia; by rewrite Hi1|by rewrite mod_of by lia].
Qed.

Lemma v3_mid_mark s r m L bs br (k : nat) x (X := br * SIZE + pointer r + Z.of_nat k) : mid s r m L bs br -> L !! k = Some (x, false) ->
  mid s r (set_slot m (blk X) (X mod SIZE) (fun e => mkElement (data e) (isvalid e) true)) (marks L k) bs br.
Proof.
  intros [H1 H2 H3 H4 H5 H6 H7 H8 H9 H10 H11] Hk. pose proof (lookup_lt_Some _ _ _ Hk) as Hlt. pose proof v3_size_pos as Hs.
  assert (Hlen : Z.of_nat (length L) <= 2 * SIZE) by nia.
  split; unfold marks; rewrite ?length_alter; try done.
  - intros b. unfold set_slot. cbn [ringbuffer]. unfold put. case_bool_decide; [subst; by rewrite length_alter|done].
  - intros j y d Hj. rewrite slot_at_set. destruct (decide (j = k)) as [->|Hne].
    + rewrite list_lookup_alter_eq, Hk in Hj. injection Hj as <- <-. fold X. rewrite bool_decide_true by done. unfold X. by rewrite (H10 _ _ _ Hk).
    + rewrite list_lookup_alter_ne in Hj by done. pose proof (lookup_lt_Some _ _ _ Hj). rewrite bool_decide_false; [by apply H10|]. unfold X.
      destruct (decide (j < k)%nat); [apply not_eq_sym|]; apply apart; lia.
  - intros j Hj. rewrite slot_at_set, bool_decide_false; [by apply H11|]. apply apart. unfold X. lia.
Qed.

(** Deleting the [k]-th element: an iterator at the front stays there, another one
    stays where it is. *)
Lemma v3_del_spec s r m L bs br (k : nat) x it : mid s r m L bs br -> front_kept L -> L !! k = Some (x, false) ->
  it_at it (br * SIZE + pointer r + Z.of_nat k) ->
  exists r' m' it', it_del SIZE r m it = Some (r', m', it') /\ rep s r' m' (drop_front (marks L k))
    /\ it' = match k with O => begin r' | S _ => it end.
Proof.
  intros H Hf Hk Hit. pose proof v3_size_pos as Hs. pose proof (v3_mid_mark _ _ _ _ _ _ k x H Hk) as Hm. pose proof Hit as [Hi1 Hi2].
  destruct (mi_range _ _ _ _ _ _ H) as [Hr1 Hr2]. destruct (mi_blocks _ _ _ _ _ _ H) as (Hb1 & Hb2 & Hb3). pose proof (mi_head _ _ _ _ _ _ H) as Hh.
  pose proof (Z.mod_pos_bound (br * SIZE + pointer r + Z.of_nat k) SIZE ltac:(lia)) as Hmod.
  unfold it_del. rewrite Hi1, Hi2. rewrite (proj2 (Z.eqb_neq _ _)) by lia. destruct k as [|k].
  - rewrite Z.add_0_r in Hit, Hi1, Hi2, Hm |- *. destruct (v3_advance_spec (turns SIZE) _ _ _ _ _ _ it Hm) as (r' & m' & it' & E & Hfr & br' & Hmid & [Hj1 Hj2]); [|done|].
    { unfold marks, turns. rewrite length_alter. nia. }
    exists r', m', it'. split; [done|]. split; [split; [done|]; by exists bs, br'|].
    destruct (mi_range _ _ _ _ _ _ Hmid) as [_ Hr']. destruct (mi_start _ _ _ _ _ _ Hmid) as [_ Hs']. rewrite blk_of in Hj1 by done. rewrite mod_of in Hj2 by done.
    destruct it'. cbn [currptr it_pointer] in *. unfold begin. by rewrite Hs', Hj1, Hj2.
  - destruct L as [|[x0 d0] L]; [done|]. simpl in Hf. subst d0. pose proof (get_front _ _ _ _ _ _ Hm) as E.
    pose proof (mi_cells _ _ _ _ _ _ Hm 0%nat x0 false eq_refl) as He. rewrite Z.add_0_r in He. rewrite He in E.
    eexists r, _, it. split; [|split; [|done]].
    + destruct (turns SIZE); cbn [advance]; rewrite E; reflexivity.
    + split; [done|]. by exists bs, br.
Qed.

Fixpoint walk (k : nat) it : option iterator := match k with O => Some it | S k => it' ← it_next SIZE it; walk k it' end.

Lemma walk_at k it x : it_at it x -> exists it', walk k it = Some it' /\ it_at it' (x + Z.of_nat k).
Proof.
  revert it x. induction k as [|k IH]; intros it x H; [exists it; by rewrite Z.add_0_r|]. destruct (it_next_at _ _ H) as (it1 & E & H1).
  cbn [walk]. rewrite E. destruct (IH _ _ H1) as (it2 & E2 & H2). exists it2. split; [done|]. by replace (x + Z.of_nat (S k)) with (x + 1 + Z.of_nat k) by lia.
Qed.

(** C26: the two ends of the queue of two blocks are a list of elements with
    deletion marks, empty at the start.  A push appends an element; it is refused
    only when at least [SIZE] elements are in the queue.  An iterator meets the
    elements in order and an invalid slot behind them, and deleting through it
    marks the element and drops the deleted ones at the front. *)
Theorem v3_refines s r m L : rep s r m L ->
  (forall m0 zero, rep (init_ptr SIZE false) (init_ptr SIZE true) (init_mem SIZE m0 zero) [])
  /\ (forall d, let '(ok, s', m') := push_nb SIZE s m d in
       if ok : bool then rep s' r m' (L ++ [(d, false)]) else SIZE <= Z.of_nat (length L) /\ rep s' r m' L)
  /\ (forall k, exists it, walk k (begin r) = Some it /\
       match L !! k with
       | Some (x, d) => it_get m it = Some (mkElement x true d) /\
           (d = false -> exists r' m' it', it_del SIZE r m it = Some (r', m', it') /\ rep s r' m' (drop_front (marks L k))
              /\ it' = match k with O => begin r' | S _ => it end)
       | None => k = length L -> Z.of_nat k < 2 * SIZE -> exists e, it_get m it = Some e /\ isvalid e = false
       end).
Proof.
  intros [Hf (bs & br & H)]. pose proof v3_size_pos as Hs. split; [intros; by apply v3_start_rep|]. split.
  - intros d. pose proof (v3_push_spec _ _ _ _ _ _ d H Hf) as Hp. destruct (Z.eqb_spec (pointer s) SIZE) as [Ep|Ep]; cbn [andb] in Hp;
      [destruct (Z.ltb_spec br bs) as [Hb|Hb]|].
    + destruct Hp as (s' & -> & Hm). destruct (mi_range _ _ _ _ _ _ H). pose proof (mi_head _ _ _ _ _ _ H). split; [nia|]. split; [done|]. by exists bs, br.
    + by destruct Hp as (s' & m' & -> & Hr).
    + by destruct Hp as (s' & m' & -> & Hr).
  - intros k. destruct (mi_start _ _ _ _ _ _ H) as [_ Hst]. destruct (mi_range _ _ _ _ _ _ H) as [_ Hr].
    destruct (walk_at k _ _ (begin_at r br Hst Hr)) as (it & E & Hit). exists it. split; [done|]. rewrite (it_get_at _ _ _ Hit).
    destruct (L !! k) as [[x d]|] eqn:Ek; [|intros -> Hlt; apply (mi_free _ _ _ _ _ _ H); lia].
    split; [by apply (mi_cells _ _ _ _ _ _ H)|]. intros ->. by eapply v3_del_spec.
Qed.

End spec.

(** Blocks of two slots: the fifth element does not fit. *)
Lemma v3_refines_witness : exists s r m L, rep 2 s r m L /\ length L = 4%nat /\
  (let '(ok, s', m') := push_nb 2 s m 5 in if ok : bool then rep 2 s' r m' (L ++ [(5, false)]) else 2 <= Z.of_nat (length L) /\ rep 2 s' r m' L).
Proof.
  assert (H2 : exists e, 0 <= e < 32 /\ 2 = 2 ^ e) by (exists 1; lia).
  set (s0 := init_ptr 2 false). set (r := init_ptr 2 true). set (m0 := init_mem 2 (mkShm (fun _ => []) (fun _ => false)) 0).
  pose proof (v3_start_rep 2 H2 (mkShm (fun _ => []) (fun _ => false)) 0) as R0. fold s0 r m0 in R0.
  pose proof (proj1 (proj2 (v3_refines 2 H2 _ _ _ _ R0)) 1) as R1. destruct (push_nb 2 s0 m0 1) as [[o1 s1] m1] eqn:E1. vm_compute in E1. injection E1 as <- <- <-.
  pose proof (proj1 (proj2 (v3_refines 2 H2 _ _ _ _ R1)) 2) as R2. cbn in R2.
  pose proof (proj1 (proj2 (v3_refines 2 H2 _ _ _ _ R2)) 3) as R3. cbn in R3.
  pose proof (proj1 (proj2 (v3_refines 2 H2 _ _ _ _ R3)) 4) as R4. cbn in R4.
  eexists _, r, _, _. split; [exact R4|]. split; [reflexivity|]. apply (v3_refines 2 H2 _ _ _ _ R4).
Defined.

End QueueV3.
