(* ===== verification/RdmaQueue.v ===== *)
(** * The RDMA connection of the prototype

    [RDMA_flow_ctl_t] of [common/rdma.cpp], which posts what the queues of a
    connection have not sent yet; [common/locklessq_v2_rdma.hpp], the queue with
    payloads whose memory is copied to the peer that way, and its pool of remote
    pages; and [interprocess_RDMA_t] of [common/interprocess_t_n.hpp], a
    connection of such queues.

    The calls of the verbs library are arguments: [completions k] is what the
    [k]-th loop over the completion queue finds, a number of completions or an
    error, and [send_ret n] is what posting the [n]-th request returns. *)

From Stdlib Require Import ZArith Lia.
From stdpp Require Import numbers base gmap list list_numbers.
From S2P Require Import Prelude LocklessQueue IpBuffer Interprocess QueueV2.

Module RdmaQueue.

Definition SEND_PER_SIGNAL : Z := 64.
Definition PAGE_SIZE : Z := 4096.
Definition MAX_ORDER : Z := 11.
Definition INIT_REMOTE_PAGE_POOL_SIZE : Z := 65536.

(** An address of this process: inside the memory of a queue, or any other. *)
Inductive address := InQueue (i : nat) (off : Z) | Addr (a : Z).

(** [unpushed_data_t::mem_buffer_t]; the pointer is an offset in the queue's
    memory. *)
Record mem_buffer_t := mkBuffer { localptr : Z; remoteptr : Z; bsize : Z }.

(** A call of [ibv_post_send]. *)
Record post := mkPost { po_local : address; po_remote : Z; po_len : Z; po_signaled : bool }.

(** [RDMA_flow_ctl_t]; [polls] counts the loops over the completion queue and
    [posted] are the requests so far, the last one first. *)
Record flow := mkFlow { avail_sq_depth : Z; num_req_sent : Z; entry_lst : list nat; polls : nat; posted : list post }.

Definition flow_new (sq_depth : Z) : flow := mkFlow sq_depth 0 [] 0 [].
Definition reg (f : flow) (i : nat) : flow :=
  mkFlow (avail_sq_depth f) (num_req_sent f) (entry_lst f ++ [i]) (polls f) (posted f).

(** [locklessq_v2_rdma] with its memory. *)
Record rqueue := mkRq {
  base : QueueV2.queue;
  mem : QueueV2.shm;
  remote_baseaddr : Z;
  RDMA_pointer : Z;
  is_recv : bool;
  remote_pages_pool : list Z
}.

(** The queues of a process that share a flow control. *)
Record world := mkWorld { queues : list rqueue; fl : flow }.

Definition set_qm (q : rqueue) (b : QueueV2.queue) (m : QueueV2.shm) : rqueue :=
  mkRq b m (remote_baseaddr q) (RDMA_pointer q) (is_recv q) (remote_pages_pool q).
Definition set_sent (q : rqueue) (p : Z) : rqueue := mkRq (base q) (mem q) (remote_baseaddr q) p (is_recv q) (remote_pages_pool q).
Definition set_pool (q : rqueue) (l : list Z) : rqueue := mkRq (base q) (mem q) (remote_baseaddr q) (RDMA_pointer q) (is_recv q) l.
Definition set_queue (w : world) (i : nat) (q : rqueue) : world := mkWorld (<[i := q]> (queues w)) (fl w).
Definition set_flow (w : world) (f : flow) : world := mkWorld (queues w) f.

(** [locklessq_v2_rdma::get].  [return_flag] lies behind the two mappings of the
    ring.  The last branch assigns a buffer and then says that there is none. *)
Definition get (q : rqueue) : option mem_buffer_t * rqueue :=
  let p := QueueV2.pointer (base q) in
  if is_recv q && QueueV2.return_flag (mem q) then
    (Some (mkBuffer (2 * QueueV2.RING) (u64 (remote_baseaddr q + 2 * QueueV2.RING)) 1),
     set_qm q (base q) (QueueV2.set_flag (mem q) false))
  else if negb (RDMA_pointer q =? p) then
    if RDMA_pointer q <? p then
      let off := QueueV2.element_size * RDMA_pointer q in
      (Some (mkBuffer off (u64 (remote_baseaddr q + off)) (QueueV2.element_size * (p - RDMA_pointer q))), set_sent q p)
    else (None, set_sent q 0)
  else (None, q).

Section verbs.
Context (completions : nat -> option nat) (send_ret : nat -> Z).

(** The loop over the completion queue: the depth grows with every call. *)
Definition poll_cq (f : flow) : option flow :=
  n ← completions (polls f);
  Some (mkFlow (u32 (avail_sq_depth f + SEND_PER_SIGNAL * Z.of_nat (S n))) (num_req_sent f) (entry_lst f) (S (polls f)) (posted f)).

(** [post_rdma_write] with the counting that precedes it; the length of a
    request, [sgl.length], has 32 bits. *)
Definition post_rdma_write (f : flow) (local : address) (remote len : Z) : option flow :=
  let k := u32 (num_req_sent f + 1) in
  if send_ret (length (posted f)) =? 0 then
    Some (mkFlow (avail_sq_depth f) k (entry_lst f) (polls f) (mkPost local remote (u32 len) (k mod SEND_PER_SIGNAL =? 0) :: posted f))
  else None.

(** The inner loop of [sync] for entry [i]. *)
Fixpoint flush (fuel : nat) (w : world) (i : nat) : option world :=
  match fuel with
  | O => None
  | S fuel =>
      q ← queues w !! i;
      let '(ret, q) := get q in
      let w := set_queue w i q in
      match ret with
      | None => Some w
      | Some b =>
          f ← post_rdma_write (fl w) (InQueue i (localptr b)) (remoteptr b) (bsize b);
          flush fuel (set_flow w f) i
      end
  end.

(** A queue has at most its flag and its new slots to send. *)
Definition flush_turns : nat := 3.

Fixpoint sync_entries (w : world) (l : list nat) : option world :=
  match l with
  | [] => Some w
  | i :: l => if avail_sq_depth (fl w) =? 0 then Some w else w ← flush flush_turns w i; sync_entries w l
  end.

Definition sync (w : world) : option world :=
  f ← poll_cq (fl w);
  sync_entries (set_flow w f) (entry_lst f).

Definition direct_rdma_write (f : flow) (local_addr remote_addr size : Z) : option flow :=
  f ← poll_cq f;
  post_rdma_write f (Addr local_addr) remote_addr size.

(** ** The queue *)

Definition add_remote_page_to_pool (q : rqueue) (page : Z) : rqueue := set_pool q (remote_pages_pool q ++ [page]).

(** The loops that fill the pool; [alloc k] is the [k]-th result of
    [alloc_phys]. *)
Definition alloc_size : Z :=
  if Z.shiftl 1 MAX_ORDER <? INIT_REMOTE_PAGE_POOL_SIZE then Z.shiftl 1 MAX_ORDER else INIT_REMOTE_PAGE_POOL_SIZE.

Fixpoint fill_pool (fuel : nat) (alloc : nat -> Z) (k : nat) (i : Z) (pool : list Z) : option (list Z) :=
  if i <? INIT_REMOTE_PAGE_POOL_SIZE then
    match fuel with
    | O => None
    | S fuel => fill_pool fuel alloc (S k) (i + alloc_size + 1) (pool ++ ((fun j => u64 (alloc k + j)) <$> seqZ 0 alloc_size))
    end
  else Some pool.

(** [init] of the queue that is entry [length (queues w)]. *)
Definition init (w : world) (m : QueueV2.shm) (remote_addr : Z) (is_receiver : bool) (alloc : nat -> Z) : option world :=
  let '(b, m) := QueueV2.init m is_receiver in
  pool ← fill_pool (Z.to_nat INIT_REMOTE_PAGE_POOL_SIZE) alloc 0 0 [];
  Some (mkWorld (queues w ++ [mkRq b m remote_addr 0 is_receiver pool]) (reg (fl w) (length (queues w)))).

(** [None]: the process aborts. *)
Definition push_nb (w : world) (i : nat) (data : QueueV2.element_t) (payload : list Z) : option (bool * world) :=
  q ← queues w !! i;
  '(ok, b, m) ← QueueV2.push_nb (base q) (mem q) data payload;
  let w := set_queue w i (set_qm q b m) in
  if ok : bool then w ← sync w; Some (true, w) else Some (false, w).

(** The loop of [del], which posts each time credits go back. *)
Fixpoint advance (fuel : nat) (w : world) (i : nat) : option world :=
  q ← queues w !! i;
  let b := base q in let m := mem q in
  let f := QueueV2.get_flags b m (QueueV2.pointer b) in
  if QueueV2.has f QueueV2.LOCKLESSQ_BITMAP_ISVALID && QueueV2.has f QueueV2.LOCKLESSQ_BITMAP_ISDEL then
    match fuel with
    | O => None
    | S fuel =>
        let m := QueueV2.set_flags b m (QueueV2.pointer b) (QueueV2.invalidate f) in
        let n := QueueV2.slots_occupied (QueueV2.size (QueueV2.peek_meta b m (QueueV2.pointer b))) in
        let b := QueueV2.set_credits (QueueV2.set_pointer b (u32 (QueueV2.pointer b + n))) (u32 (QueueV2.credits b + n)) in
        if QueueV2.CREDITS_PER_RETURN b <=? QueueV2.credits b then
          w ← sync (set_queue w i (set_qm q b (QueueV2.set_flag m true)));
          q ← queues w !! i;
          let b := base q in
          advance fuel (set_queue w i (set_qm q (QueueV2.set_credits b (u32 (QueueV2.credits b - QueueV2.CREDITS_PER_RETURN b))) (mem q))) i
        else advance fuel (set_queue w i (set_qm q b m)) i
    end
  else Some w.

(** The result is the pointer of the queue. *)
Definition del (w : world) (i : nat) (loc : Z) : option (Z * world) :=
  q ← queues w !! i;
  let b := base q in
  let m := QueueV2.set_flags b (mem q) loc (Z.lor (QueueV2.get_flags b (mem q) loc) QueueV2.LOCKLESSQ_BITMAP_ISDEL) in
  let w := set_queue w i (set_qm q b m) in
  if Z.land loc (QueueV2.MASK b) =? Z.land (QueueV2.pointer b) (QueueV2.MASK b) then
    w ← advance QueueV2.turns w i;
    q ← queues w !! i;
    Some (QueueV2.pointer (base q), w)
  else Some (QueueV2.pointer b, w).

Definition peek_meta (q : rqueue) (loc : Z) : QueueV2.element_t := QueueV2.peek_meta (base q) (mem q) loc.
Definition set_meta (q : rqueue) (loc : Z) (e : QueueV2.element_t) : rqueue := set_qm q (base q) (QueueV2.set_meta (base q) (mem q) loc e).
Definition nextptr (q : rqueue) (ptr : Z) : Z := QueueV2.nextptr (base q) (mem q) ptr.
Definition peek_data (q : rqueue) (loc n : Z) : list Z := QueueV2.peek_data (base q) (mem q) loc n.
Definition isempty (q : rqueue) : option bool := QueueV2.isempty (base q) (mem q).
Definition is_full (q : rqueue) : bool := QueueV2.is_full (base q).
Definition setpointer (q : rqueue) (p : Z) : rqueue := set_qm q (QueueV2.setpointer (base q) p) (mem q).
Definition disable_credit (q : rqueue) : rqueue := set_qm q (QueueV2.disable_credit (base q)) (mem q).
Definition init_mem (q : rqueue) : rqueue := set_qm q (base q) (QueueV2.init_mem (mem q)).

(** ** Pages

    The pages come from the back of the pool. *)
Fixpoint take_pages (n : nat) (pool : list Z) : list Z * list Z :=
  match n, last pool with
  | S n, Some p => let '(ps, pool) := take_pages n (removelast pool) in (p :: ps, pool)
  | _, _ => ([], pool)
  end.

(** How far the pages from [head] on follow each other. *)
Fixpoint batch_end (fuel : nat) (pages : list Z) (head : nat) : nat :=
  match fuel with
  | O => head
  | S fuel =>
      match pages !! head, pages !! S head with
      | Some a, Some b => if u64 (a + 1) =? b then batch_end fuel pages (S head) else head
      | _, _ => head
      end
  end.

Fixpoint send_batches (fuel : nat) (f : flow) (start : Z) (pages : list Z) (page_sent : nat) : option flow :=
  match fuel with
  | O => None
  | S fuel =>
      match pages !! page_sent with
      | None => Some f
      | Some remote =>
          let head := batch_end (length pages) pages page_sent in
          f ← direct_rdma_write f (u64 ((start + Z.of_nat page_sent) * PAGE_SIZE)) (u64 (remote * PAGE_SIZE))
                (u64 (Z.of_nat (head - page_sent + 1) * PAGE_SIZE));
          send_batches fuel f start pages (S head)
      end
  end.

(** The pages that were sent, and their number is the result. *)
Definition pushdata_zerocopy (w : world) (i : nat) (start_local_page num_pages : Z) : option (list Z * world) :=
  q ← queues w !! i;
  let '(pages, pool) := take_pages (Z.to_nat num_pages) (remote_pages_pool q) in
  f ← send_batches (S (length pages)) (fl w) start_local_page pages 0;
  Some (pages, set_flow (set_queue w i (set_pool q pool)) f).

(** ** What is posted *)

(** The verbs library works. *)
Definition working : Prop := (forall k, is_Some (completions k)) /\ forall n, send_ret n = 0.

Hypothesis Hok : working.

Lemma poll_ok f : exists d, poll_cq f = Some (mkFlow d (num_req_sent f) (entry_lst f) (S (polls f)) (posted f)).
Proof. destruct (proj1 Hok (polls f)) as [n E]. unfold poll_cq. rewrite E. by eexists. Qed.

Lemma post_ok f a r n : post_rdma_write f a r n
  = Some (mkFlow (avail_sq_depth f) (u32 (num_req_sent f + 1)) (entry_lst f) (polls f)
            (mkPost a r (u32 n) (u32 (num_req_sent f + 1) mod SEND_PER_SIGNAL =? 0) :: posted f)).
Proof. unfold post_rdma_write. by rewrite (proj2 Hok). Qed.

Lemma direct_ok f l r n : exists f' p, direct_rdma_write f l r n = Some f' /\ posted f' = p :: posted f
  /\ po_local p = Addr l /\ po_remote p = r /\ po_len p = u32 n.
Proof. unfold direct_rdma_write. destruct (poll_ok f) as [d ->]. simpl. rewrite post_ok. by eexists _, _. Qed.

(** ** Pages are sent to where they belong *)

(** The pages a request copies, as pairs of a local and a remote page. *)
Definition page_writes (p : post) : list (Z * Z) :=
  match po_local p with
  | Addr l => (fun j => (l / PAGE_SIZE + j, po_remote p / PAGE_SIZE + j)) <$> seqZ 0 (po_len p / PAGE_SIZE)
  | InQueue _ _ => []
  end.

Lemma take_pages_spec n pool : take_pages n pool = (take n (rev pool), rev (drop n (rev pool))).
Proof.
  revert pool. induction n as [|n IH]; intros pool; cbn [take_pages]; [by rewrite drop_0, rev_involutive|].
  destruct pool as [|x pool _] using rev_ind; [done|]. rewrite last_snoc, removelast_last, IH, rev_unit. done.
Qed.

(** Pages that follow each other. *)
Definition run_of (pages : list Z) (a b : nat) : Prop := forall k, (a <= k < b)%nat -> forall x y, pages !! k = Some x -> pages !! S k = Some y -> u64 (x + 1) = y.

Lemma batch_end_spec fuel pages head : (head < length pages)%nat ->
  (head <= batch_end fuel pages head < length pages)%nat /\ run_of pages head (batch_end fuel pages head).
Proof.
  revert head. induction fuel as [|fuel IH]; intros head Hh; cbn [batch_end]; [split; [lia|]; intros k Hk; lia|].
  destruct (pages !! head) as [x|] eqn:Ex; [|split; [lia|]; intros k Hk; lia].
  destruct (pages !! S head) as [y|] eqn:Ey; [|split; [lia|]; intros k Hk; lia].
  destruct (Z.eqb_spec (u64 (x + 1)) y) as [E|E]; [|split; [lia|]; intros k Hk; lia].
  destruct (IH (S head)) as [H1 H2]; [by eapply lookup_lt_Some|]. split; [lia|]. intros k Hk a b Ha Hb.
  destruct (decide (k = head)) as [->|]; [by simplify_eq|]. apply (H2 k); (done || lia).
Qed.

Lemma run_pages pages a x j : run_of pages a (a + j) -> pages !! a = Some x -> (forall k y, pages !! k = Some y -> 0 <= y < 2 ^ 52) ->
  (a + j < length pages)%nat -> pages !! (a + j)%nat = Some (x + Z.of_nat j).
Proof.
  intros Hr Ha Hb. induction j as [|j IH]; intros Hl; [by rewrite Nat.add_0_r, Z.add_0_r|].
  assert (Hj : pages !! (a + j)%nat = Some (x + Z.of_nat j)) by (apply IH; [intros k Hk; apply Hr; lia|lia]).
  destruct (lookup_lt_is_Some_2 pages (a + S j)) as [y Hy]; [done|]. rewrite Hy. f_equal.
  replace (a + S j)%nat with (S (a + j)) in Hy by lia. pose proof (Hr (a + j)%nat ltac:(lia) _ _ Hj Hy) as E. pose proof (Hb _ _ Hj).
  rewrite uwrap_small in E by (split; lia). lia.
Qed.

(** The page at position [k] of [pages] gets local page [start + k]. *)
Definition placed (start : Z) (pages : list Z) : list (Z * Z) := imap (fun k r => (start + Z.of_nat k, r)) pages.

Lemma placed_app start l1 l2 : placed start (l1 ++ l2) = placed start l1 ++ placed (start + Z.of_nat (length l1)) l2.
Proof. unfold placed. rewrite imap_app. f_equal. apply imap_ext. intros k x _. simpl. f_equal. lia. Qed.

Lemma batch_writes start pages a b x p : run_of pages a b -> (a <= b < length pages)%nat -> pages !! a = Some x ->
  (forall k y, pages !! k = Some y -> 0 <= y < 2 ^ 52) -> 0 <= start -> start + Z.of_nat (length pages) < 2 ^ 52 ->
  Z.of_nat (length pages) < 2 ^ 20 ->
  po_local p = Addr (u64 ((start + Z.of_nat a) * PAGE_SIZE)) -> po_remote p = u64 (x * PAGE_SIZE) ->
  po_len p = u32 (u64 (Z.of_nat (b - a + 1) * PAGE_SIZE)) ->
  page_writes p = placed (start + Z.of_nat a) (take (b - a + 1) (drop a pages)).
Proof.
  intros Hr Hab Hx Hb Hs Hl Hn E1 E2 E3. unfold page_writes. rewrite E1, E2, E3. pose proof (Hb _ _ Hx). unfold PAGE_SIZE in *.
  rewrite !(uwrap_small 64) by (split; lia). rewrite (uwrap_small 32) by (split; lia). rewrite !Z.div_mul by lia. apply list_eq. intros j. unfold placed. rewrite list_lookup_imap, list_lookup_fmap.
  destruct (decide (j < b - a + 1)%nat) as [Hj|Hj].
  - rewrite lookup_seqZ_lt by lia. rewrite lookup_take_lt by done. rewrite lookup_drop.
    rewrite (run_pages pages a x j) by (done || lia || (intros k Hk; apply Hr; lia)). simpl. f_equal.
  - rewrite lookup_seqZ_ge by lia. rewrite lookup_take_ge by lia. done.
Qed.

(** The pages in maximal runs of pages that follow each other. *)
Fixpoint runs (pages : list Z) : list (list Z) :=
  match pages with
  | [] => []
  | x :: l =>
      match runs l with
      | (y :: g) :: gs => if x + 1 =? y then (x :: y :: g) :: gs else [x] :: (y :: g) :: gs
      | gs => [x] :: gs
      end
  end.

(** A request for each run. *)
Fixpoint placed_runs (start : Z) (gs : list (list Z)) : list (list (Z * Z)) :=
  match gs with
  | [] => []
  | g :: gs => placed start g :: placed_runs (start + Z.of_nat (length g)) gs
  end.

Lemma runs_head x l : exists g gs, runs (x :: l) = (x :: g) :: gs.
Proof.
  simpl. destruct (runs l) as [|[|y g] gs]; [by eexists _, _|by eexists _, _|]. destruct (x + 1 =? y); by eexists _, _.
Qed.

Lemma runs_concat pages : concat (runs pages) = pages.
Proof.
  induction pages as [|x l IH]; [done|]. simpl. destruct (runs l) as [|[|y g] gs]; simpl in *; [by rewrite <- IH|by rewrite <- IH|].
  destruct (x + 1 =? y); simpl; by rewrite <- IH.
Qed.

Lemma placed_runs_concat start gs : concat (placed_runs start gs) = placed start (concat gs).
Proof. revert start. induction gs as [|g gs IH]; intros start; [done|]. simpl. by rewrite IH, placed_app. Qed.

(** The loop over a batch finds the next run. *)
Lemma batch_runs fuel pages head : (head < length pages)%nat -> (length pages - head <= fuel)%nat ->
  (forall k y, pages !! k = Some y -> 0 <= y < 2 ^ 52) ->
  runs (drop head pages) = take (batch_end fuel pages head - head + 1) (drop head pages) :: runs (drop (S (batch_end fuel pages head)) pages).
Proof.
  revert head. induction fuel as [|fuel IH]; intros head Hh Hf Hb; [lia|]. cbn [batch_end].
  destruct (lookup_lt_is_Some_2 pages head Hh) as [x Ex]. rewrite Ex, (drop_S _ x) by done.
  destruct (pages !! S head) as [y|] eqn:Ey.
  2: { apply lookup_ge_None in Ey. rewrite (drop_ge pages (S head)) by done. by rewrite Nat.sub_diag. }
  pose proof (Hb _ _ Ex). rewrite uwrap_small by (split; lia). destruct (Z.eqb_spec (x + 1) y) as [E|E].
  - pose proof (lookup_lt_Some _ _ _ Ey) as Hs. specialize (IH (S head) Hs ltac:(lia) Hb).
    destruct (batch_end_spec fuel pages (S head) Hs) as [He _]. set (b := batch_end fuel pages (S head)) in *.
    cbn [runs]. rewrite IH. replace (b - head + 1)%nat with (S (b - S head + 1)) by lia. cbn [take].
    rewrite (drop_S pages y (S head) Ey). replace (b - S head + 1)%nat with (S (b - S head)) by lia. cbn [take].
    by destruct (Z.eqb_spec (x + 1) y).
  - rewrite Nat.sub_diag. cbn [runs]. rewrite (drop_S pages y (S head) Ey).
    destruct (runs_head y (drop (S (S head)) pages)) as (g & gs & ->). simpl. by destruct (Z.eqb_spec (x + 1) y).
Qed.

Lemma send_batches_spec fuel f start pages s : (s <= length pages)%nat -> (length pages - s < fuel)%nat ->
  (forall k y, pages !! k = Some y -> 0 <= y < 2 ^ 52) -> 0 <= start -> start + Z.of_nat (length pages) < 2 ^ 52 ->
  Z.of_nat (length pages) < 2 ^ 20 ->
  exists f' ps, send_batches fuel f start pages s = Some f' /\ posted f' = rev ps ++ posted f
    /\ page_writes <$> ps = placed_runs (start + Z.of_nat s) (runs (drop s pages)).
Proof.
  intros Hs Hf Hb H0 Hl Hn. revert f s Hs Hf. induction fuel as [|fuel IH]; intros f s Hs Hf; [lia|]. cbn [send_batches].
  destruct (pages !! s) as [x|] eqn:Ex.
  2:{ apply lookup_ge_None in Ex. exists f, []. rewrite drop_ge by lia. done. }
  pose proof (lookup_lt_Some _ _ _ Ex) as Hlt. destruct (batch_end_spec (length pages) pages s Hlt) as [He Hr].
  pose proof (batch_runs (length pages) pages s Hlt ltac:(lia) Hb) as Hruns.
  set (b := batch_end (length pages) pages s) in *.
  destruct (direct_ok f (u64 ((start + Z.of_nat s) * PAGE_SIZE)) (u64 (x * PAGE_SIZE)) (u64 (Z.of_nat (b - s + 1) * PAGE_SIZE))) as (f1 & p & -> & Hp & P1 & P2 & P3).
  simpl. destruct (IH f1 (S b)) as (f' & ps & E & Hps & Hw); [lia|lia|]. exists f', (p :: ps). split; [done|]. split.
  - rewrite Hps, Hp. simpl. by rewrite <- app_assoc.
  - rewrite fmap_cons, Hw, Hruns. cbn [placed_runs]. rewrite (batch_writes start pages s b x p) by (done || lia).
    rewrite length_take, length_drop. f_equal. f_equal. lia.
Qed.

(** C30: sending pages without a copy.  [pushdata_zerocopy] takes as many pages
    from the pool as are asked for and it has, the last first, and posts exactly
    one request for every maximal run of pages of the pool that follow each
    other; the requests copy the local pages from [start_local_page] on each to
    its page of the pool, in order.  The page numbers have 52 bits, and less than
    [2 ^ 20] pages are sent: the length of a request has 32 bits. *)
Theorem zerocopy_exact w i q start n : queues w !! i = Some q -> 0 <= start -> start + n < 2 ^ 52 -> 0 <= n < 2 ^ 20 ->
  Forall (fun y => 0 <= y < 2 ^ 52) (remote_pages_pool q) ->
  let pages := take (Z.to_nat n) (rev (remote_pages_pool q)) in
  exists w' q' ps, pushdata_zerocopy w i start n = Some (pages, w') /\ queues w' !! i = Some q'
    /\ remote_pages_pool q = remote_pages_pool q' ++ rev pages
    /\ posted (fl w') = rev ps ++ posted (fl w)
    /\ page_writes <$> ps = placed_runs start (runs pages) /\ concat (page_writes <$> ps) = placed start pages.
Proof.
  intros Hq H0 H1 Hn Hpool pages. unfold pushdata_zerocopy. rewrite Hq. cbn [mbind option_bind]. rewrite take_pages_spec. fold pages.
  assert (Hlen : (length pages <= Z.to_nat n)%nat) by (unfold pages; rewrite length_take; lia).
  destruct (send_batches_spec (S (length pages)) (fl w) start pages 0) as (f & ps & -> & Hps & Hw); [lia|lia| |lia|lia|lia|].
  { intros k y Hk. unfold pages in Hk. apply lookup_take_Some in Hk as [Hk _]. apply list_elem_of_lookup_2 in Hk.
    rewrite Forall_forall in Hpool. apply Hpool. apply list_elem_of_In, in_rev. by apply list_elem_of_In. }
  rewrite Z.add_0_r, drop_0 in Hw.
  simpl. eexists _, _, ps. split; [reflexivity|]. split; [apply list_lookup_insert_eq; by eapply lookup_lt_Some|].
  split; [|split; [done|split; [done|by rewrite Hw, placed_runs_concat, runs_concat]]].
  cbn [remote_pages_pool set_pool]. rewrite <- rev_app_distr. unfold pages. by rewrite take_drop, rev_involutive.
Qed.

(** A request for [2 ^ 20] pages has the length 0. *)
Lemma request_length_wraps f l r f' p rest :
  direct_rdma_write f l r (2 ^ 20 * PAGE_SIZE) = Some f' -> posted f' = p :: rest -> po_len p = 0.
Proof. destruct (direct_ok f l r (2 ^ 20 * PAGE_SIZE)) as (f1 & p1 & -> & Hp & _ & _ & Hl). intros [= <-]. rewrite Hp. intros [= <- _]. by rewrite Hl. Qed.

(** ** Posting the slots of one queue *)

(** There is nothing to send. *)
Definition idle (q : rqueue) : Prop := get q = (None, q).

Lemma set_queue_same w i q : queues w !! i = Some q -> set_queue w i q = w.
Proof. intros H. destruct w as [qs f]. unfold set_queue. simpl in *. by rewrite list_insert_id. Qed.

Lemma flush_idle w i q : queues w !! i = Some q -> idle q -> flush flush_turns w i = Some w.
Proof. intros H Hi. unfold flush_turns. cbn [flush]. rewrite H. cbn [mbind option_bind]. rewrite Hi. by rewrite set_queue_same. Qed.

Lemma idle_sent q : is_recv q = false -> idle (set_sent q (QueueV2.pointer (base q))).
Proof. intros H. unfold idle, get. cbn [is_recv set_sent base RDMA_pointer]. by rewrite H, Z.eqb_refl. Qed.

(** The turns are enough: after its flag and its slots a queue has nothing. *)
Lemma flush_ends w i q : queues w !! i = Some q -> is_Some (flush flush_turns w i).
Proof.
  intros H. assert (L : forall n w q, queues w !! i = Some q -> get q = (None, snd (get q)) -> is_Some (flush (S n) w i)).
  { intros n w' q' H' G. cbn [flush]. rewrite H'. cbn [mbind option_bind]. rewrite G. by eexists. }
  assert (S1 : forall n w q, queues w !! i = Some q -> is_recv q && QueueV2.return_flag (mem q) = false -> is_Some (flush (S (S n)) w i)).
  { intros n w' q' H' Hf. remember (S n) as k. cbn [flush]. rewrite H'. cbn [mbind option_bind]. unfold get. rewrite Hf.
    destruct (RDMA_pointer q' =? QueueV2.pointer (base q')) eqn:E; cbn [negb]; [by eexists|]. destruct (_ <? _); [|by eexists].
    unfold post_rdma_write. rewrite (proj2 Hok). cbn [Z.eqb mbind option_bind]. subst k. eapply L; [apply list_lookup_insert_eq; by eapply lookup_lt_Some|].
    unfold get. cbn [is_recv mem RDMA_pointer base set_sent]. by rewrite Hf, Z.eqb_refl. }
  unfold flush_turns. destruct (is_recv q && QueueV2.return_flag (mem q)) eqn:Hf; [|by eapply S1].
  remember 2%nat as k. cbn [flush]. rewrite H. cbn [mbind option_bind]. unfold get. rewrite Hf. unfold post_rdma_write. rewrite (proj2 Hok). cbn [Z.eqb mbind option_bind].
  subst k. eapply S1; [apply list_lookup_insert_eq; by eapply lookup_lt_Some|]. cbn [mem set_qm QueueV2.return_flag QueueV2.set_flag is_recv]. apply andb_false_r.
Qed.

Lemma flush_range w i q : queues w !! i = Some q -> is_recv q = false -> RDMA_pointer q < QueueV2.pointer (base q) ->
  exists f p, flush flush_turns w i = Some (mkWorld (<[i := set_sent q (QueueV2.pointer (base q))]> (queues w)) f)
    /\ avail_sq_depth f = avail_sq_depth (fl w) /\ entry_lst f = entry_lst (fl w) /\ posted f = p :: posted (fl w)
    /\ po_local p = InQueue i (16 * RDMA_pointer q) /\ po_remote p = u64 (remote_baseaddr q + 16 * RDMA_pointer q)
    /\ po_len p = u32 (16 * (QueueV2.pointer (base q) - RDMA_pointer q)).
Proof.
  intros H Hr Hp. unfold flush_turns. cbn [flush]. rewrite H. cbn [mbind option_bind]. unfold get at 1. rewrite Hr. cbn [andb].
  rewrite (proj2 (Z.eqb_neq _ _)) by lia. rewrite (proj2 (Z.ltb_lt _ _)) by lia. cbn [negb localptr remoteptr bsize]. rewrite post_ok. cbn [mbind option_bind].
  pose proof (lookup_lt_Some _ _ _ H) as Hl. cbn [queues set_flow set_queue]. rewrite list_lookup_insert_eq by done. cbn [mbind option_bind].
  rewrite (idle_sent q Hr). eexists _, _.
  split; [unfold set_queue, set_flow; cbn [queues fl]; rewrite list_insert_insert_eq; reflexivity|]. by split_and!.
Qed.

Lemma sync_entries_app w l1 l2 : sync_entries w (l1 ++ l2) = (w1 ← sync_entries w l1; sync_entries w1 l2).
Proof.
  revert w. induction l1 as [|i l1 IH]; intros w; [done|]. cbn [app sync_entries]. destruct (Z.eqb_spec (avail_sq_depth (fl w)) 0) as [E|E].
  - simpl. destruct l2; [done|]. cbn [sync_entries]. by rewrite (proj2 (Z.eqb_eq _ _) E).
  - destruct (flush flush_turns w i) as [w1|]; [|done]. simpl. apply IH.
Qed.

Lemma sync_idle w l : Forall (fun j => exists q, queues w !! j = Some q /\ idle q) l -> sync_entries w l = Some w.
Proof.
  induction 1 as [|j l (q & Hj & Hi) _ IH]; [done|]. cbn [sync_entries]. destruct (_ =? 0); [done|]. by rewrite (flush_idle _ _ _ Hj Hi).
Qed.

(** The queue is not stalled: polling leaves some depth. *)
Definition deep (w : world) : Prop := forall f, poll_cq (fl w) = Some f -> avail_sq_depth f <> 0.

(** [sync] when only queue [i] has something to send. *)
Lemma sync_one w i q : queues w !! i = Some q -> is_recv q = false -> RDMA_pointer q < QueueV2.pointer (base q) -> deep w ->
  NoDup (entry_lst (fl w)) -> i ∈ entry_lst (fl w) ->
  (forall j, j ∈ entry_lst (fl w) -> j <> i -> exists q', queues w !! j = Some q' /\ idle q') ->
  exists f p, sync w = Some (mkWorld (<[i := set_sent q (QueueV2.pointer (base q))]> (queues w)) f)
    /\ entry_lst f = entry_lst (fl w) /\ posted f = p :: posted (fl w)
    /\ po_local p = InQueue i (16 * RDMA_pointer q) /\ po_remote p = u64 (remote_baseaddr q + 16 * RDMA_pointer q)
    /\ po_len p = u32 (16 * (QueueV2.pointer (base q) - RDMA_pointer q)).
Proof.
  intros H Hr Hp Hd Hnd Hin Hoth. unfold sync. destruct (poll_ok (fl w)) as [d E]. rewrite E. cbn [mbind option_bind entry_lst].
  specialize (Hd _ E). cbn [avail_sq_depth] in Hd. apply list_elem_of_split in Hin as (l1 & l2 & El). rewrite El in Hnd, Hoth |- *.
  assert (Hni : (i ∉ l1) /\ (i ∉ l2)).
  { apply NoDup_app in Hnd as (_ & Hd1 & Hnd2). apply NoDup_cons in Hnd2 as [Hn2 _]. split; [|done]. intros Hi. apply (Hd1 i Hi). by left. }
  set (w1 := set_flow w _). rewrite sync_entries_app. rewrite (sync_idle w1 l1); cbn [mbind option_bind].
  2:{ apply Forall_forall. intros j Hj. apply Hoth; [by apply elem_of_app; left|]. intros ->. by destruct Hni. }
  cbn [sync_entries]. rewrite (proj2 (Z.eqb_neq _ _)) by done.
  destruct (flush_range w1 i q H Hr Hp) as (f & p & -> & F1 & F2 & F3 & F4 & F5 & F6). cbn [mbind option_bind].
  rewrite sync_idle.
  2:{ apply Forall_forall. intros j Hj. assert (j <> i) by (intros ->; by destruct Hni).
      destruct (Hoth j) as (q' & Hq' & Hi); [apply elem_of_app; right; by right|done|]. exists q'. split; [|done]. cbn [queues]. by rewrite list_lookup_insert_ne. }
  exists f, p. split; [done|]. split; [by rewrite F2|]. by split_and!.
Qed.

(** ** Messages arrive in the peer's memory *)

(** What a request for memory of queue [q] does to the ring [R] of the peer. *)
Definition dma (q : rqueue) (R : list Z) (p : post) : list Z :=
  match po_local p with
  | InQueue _ off => QueueV2.store R (po_remote p - remote_baseaddr q) (QueueV2.load (QueueV2.bytes_arr (mem q)) off (po_len p))
  | Addr _ => R
  end.

(** The peer's end of the queue, which has not taken anything yet. *)
Definition fresh_end : QueueV2.queue := fst (QueueV2.init (QueueV2.mkShm [] false) true).

(** Queue [i] has sent the messages [L], and they are in the peer's ring [R]. *)
Record mirrored (w : world) (i : nat) (q : rqueue) (R : list Z) (L : list QueueV2.cell) : Prop := {
  mr_queue : queues w !! i = Some q;
  mr_sender : is_recv q = false;
  mr_sent : RDMA_pointer q = QueueV2.pointer (base q);
  mr_addr : 0 <= remote_baseaddr q /\ remote_baseaddr q + QueueV2.RING < 2 ^ 64;
  mr_flag : QueueV2.return_flag (mem q) = false;
  mr_local : QueueV2.mid (base q) fresh_end (mem q) L;
  mr_remote : QueueV2.rep (base q) fresh_end (QueueV2.mkShm R false) L;
  mr_reg : NoDup (entry_lst (fl w)) /\ i ∈ entry_lst (fl w);
  mr_idle : forall j, j ∈ entry_lst (fl w) -> j <> i -> exists q', queues w !! j = Some q' /\ idle q'
}.

Lemma push_mid s r m L e pay : QueueV2.mid s r m L -> QueueV2.pushable e pay -> QueueV2.slots_occupied (QueueV2.size e) <= QueueV2.credits s ->
  exists s' m', QueueV2.push_nb s m e pay = Some (true, s', m') /\ QueueV2.mid s' r m' (L ++ [QueueV2.mkCell e pay false])
    /\ QueueV2.return_flag m' = QueueV2.return_flag m.
Proof.
  intros H Hp Hn. destruct (QueueV2.push_put _ _ _ _ e pay H Hp Hn) as [Hb Hm]. unfold QueueV2.push_nb. rewrite (proj2 (Z.ltb_ge _ _)) by done.
  rewrite andb_false_r. rewrite (proj2 (Z.ltb_ge _ _)) by lia. by eexists _, _.
Qed.

(** Copying the slots of the last message. *)
Lemma mid_dma s m R L c (P := QueueV2.total L) (n := QueueV2.c_slots c) :
  QueueV2.mid s fresh_end m (L ++ [c]) -> QueueV2.return_flag m = false ->
  QueueV2.sized R -> QueueV2.stored R 0 L -> QueueV2.quiet R P (512 - P) -> 0 <= P -> P + n <= 512 ->
  QueueV2.mid s fresh_end (QueueV2.mkShm (QueueV2.store R (16 * P) (QueueV2.load (QueueV2.bytes_arr m) (16 * P) (16 * n))) false) (L ++ [c]).
Proof.
  intros H Hf HR Hst Hq HP Hfit. pose proof H as [H1 H2 H3 H4 H5 H6 H7 H8 H9 H10]. rewrite Hf in H10.
  assert (Hn : 1 <= n) by (apply Forall_app in H9 as [_ H9]; apply Forall_cons in H9 as [H9 _]; by apply QueueV2.slots_fit).
  assert (Et : QueueV2.total (L ++ [c]) = P + n) by (rewrite QueueV2.total_app; unfold P, n; simpl; lia).
  set (bs := QueueV2.load _ _ _). assert (Hl : Z.of_nat (length bs) = 16 * n) by (apply QueueV2.length_load; lia).
  assert (HR' : QueueV2.sized (QueueV2.store R (16 * P) bs)) by (by apply QueueV2.store_sized).
  change (QueueV2.pointer fresh_end) with 0 in *. apply QueueV2.stored_app in H7 as [_ H7]. rewrite Z.add_0_l in H7. fold P in H7.
  split; try done; cbn [QueueV2.bytes_arr QueueV2.return_flag]; change (QueueV2.pointer fresh_end) with 0.
  - apply QueueV2.stored_app. split.
    + eapply QueueV2.stored_frame; [by apply Forall_app in H9 as [? _]| |exact Hst]. intros j Hj. fold P in Hj.
      apply QueueV2.byte_at_before; [done|lia|]. rewrite Hl. unfold QueueV2.RING, QueueV2.element_size, QueueV2.LOCKLESSQ_SIZE. lia.
    + rewrite Z.add_0_l. fold P. eapply QueueV2.stored_frame; [by apply Forall_app in H9 as [_ ?]| |exact H7]. intros j Hj. cbn [QueueV2.total] in Hj. fold n in Hj.
      rewrite QueueV2.byte_at_in by (done || rewrite ?Hl; unfold QueueV2.RING, QueueV2.element_size, QueueV2.LOCKLESSQ_SIZE; lia).
      unfold bs. by rewrite QueueV2.load_nth by lia.
  - rewrite Et, Z.add_0_l. intros j Hj. rewrite QueueV2.byte_at_out; [|done|rewrite Hl; unfold QueueV2.RING, QueueV2.element_size, QueueV2.LOCKLESSQ_SIZE; lia].
    replace (P + n + j) with (P + (n + j)) by lia. apply Hq. lia.
Qed.

(** As long as the ring has not been gone round, a push over RDMA puts the
    message into the queue and posts one request, which copies exactly the slots
    of the message to the same place of the peer's ring; the receiver there finds
    the messages so far and this one. *)
Lemma rdma_delivers w i q R L e pay : mirrored w i q R L -> QueueV2.pushable e pay -> deep w ->
  QueueV2.total L + QueueV2.slots_occupied (QueueV2.size e) <= 512 ->
  exists w' q' p, push_nb w i e pay = Some (true, w') /\ posted (fl w') = p :: posted (fl w)
    /\ po_len p = 16 * QueueV2.slots_occupied (QueueV2.size e)
    /\ mirrored w' i q' (dma q' R p) (L ++ [QueueV2.mkCell e pay false]).
Proof.
  intros [M1 M2 M3 M4 M5 M6 M7 M8 M9] Hp Hd Hfit. set (n := QueueV2.slots_occupied (QueueV2.size e)) in *. set (c := QueueV2.mkCell e pay false).
  destruct (QueueV2.mi_credits _ _ _ _ M6) as (C1 & C2 & C3). rewrite M5 in C3. change (QueueV2.credits fresh_end) with 0 in *.
  pose proof (QueueV2.mi_cells _ _ _ _ M6) as HL. pose proof (QueueV2.total_pos _ HL) as HP. assert (Hn : 1 <= n <= 257) by exact (QueueV2.slots_fit c Hp).
  destruct (push_mid _ _ _ _ e pay M6 Hp) as (s' & m' & E & Hmid & Hfl); [fold n; lia|]. rewrite M5 in Hfl.
  assert (Et : QueueV2.total (L ++ [c]) = QueueV2.total L + n) by (rewrite QueueV2.total_app; unfold c, QueueV2.total at 2, QueueV2.c_slots; simpl; fold n; lia).
  pose proof (QueueV2.mi_head _ _ _ _ M6) as Hh. change (QueueV2.pointer fresh_end) with 0 in Hh. rewrite Z.add_0_l, uwrap_small in Hh by (split; lia).
  pose proof (QueueV2.mi_head _ _ _ _ Hmid) as Hh'. change (QueueV2.pointer fresh_end) with 0 in Hh'. fold c in Hh', Hmid. rewrite Et, Z.add_0_l, uwrap_small in Hh' by (split; lia).
  pose proof (lookup_lt_Some _ _ _ M1) as Hi. set (q1 := set_qm q s' m'). set (w1 := set_queue w i q1).
  assert (Hq1 : queues w1 !! i = Some q1) by (apply list_lookup_insert_eq; done).
  destruct (sync_one w1 i q1 Hq1) as (f & p & Es & F1 & F2 & F3 & F4 & F5); [done|simpl; lia|done|apply M8|apply M8| |].
  { intros j Hj Hne. destruct (M9 j Hj Hne) as (q' & Hq' & Hid). exists q'. split; [|done]. cbn [queues w1 set_queue]. by rewrite list_lookup_insert_ne. }
  cbn [RDMA_pointer base q1 set_qm remote_baseaddr] in F3, F4, F5. rewrite M3, Hh in F3, F4, F5. rewrite Hh' in F5.
  replace (QueueV2.total L + n - QueueV2.total L) with n in F5 by lia. rewrite (uwrap_small 32) in F5 by (split; lia). rewrite uwrap_small in F4 by (unfold QueueV2.RING, QueueV2.element_size, QueueV2.LOCKLESSQ_SIZE in M4; split; lia).
  set (q2 := set_sent q1 (QueueV2.pointer (base q1))) in *.
  exists (mkWorld (<[i := q2]> (queues w1)) f), q2, p. split.
  { unfold push_nb. rewrite M1. cbn [mbind option_bind]. rewrite E. cbn [mbind option_bind]. fold q1 w1. by rewrite Es. }
  split; [done|]. split; [done|]. destruct M7 as [Rm Rf].
  assert (HR : QueueV2.mid s' fresh_end (QueueV2.mkShm (dma q2 R p) false) (L ++ [c])).
  { unfold dma. rewrite F3, F4, F5. cbn [q2 q1 set_sent set_qm remote_baseaddr mem].
    replace (remote_baseaddr q + 16 * QueueV2.total L - remote_baseaddr q) with (16 * QueueV2.total L) by lia.
    destruct Rm as [R1 _ _ _ _ _ R7 R8 _ _]. apply (mid_dma s' m' R L c); try done. }
  split; try done; cbn [queues fl].
  - apply list_lookup_insert_eq. unfold w1, set_queue. cbn [queues]. by rewrite length_insert.
  - split; [exact HR|]. by apply QueueV2.front_app.
  - by rewrite F1.
  - rewrite F1. intros j Hj Hne. destruct (M9 j Hj Hne) as (q' & Hq' & Hid). exists q'. split; [|done].
    cbn [queues w1 set_queue]. by rewrite !list_lookup_insert_ne.
Qed.

(** ** Counting *)

(** Every 64th request is signaled. *)
Definition regular (f : flow) : Prop :=
  num_req_sent f = u32 (Z.of_nat (length (posted f)))
  /\ forall k p, rev (posted f) !! k = Some p -> po_signaled p = ((Z.of_nat k + 1) mod SEND_PER_SIGNAL =? 0).

Lemma post_regular f a r n f' : regular f -> post_rdma_write f a r n = Some f' -> regular f'.
Proof.
  intros [H1 H2]. rewrite post_ok. intros [= <-]. split; cbn [num_req_sent posted length].
  - rewrite H1. unfold uwrap. rewrite Zplus_mod_idemp_l. f_equal. lia.
  - intros k p. cbn [rev]. intros [Hk|[Hk Hp]]%lookup_app_Some; [by apply H2|]. rewrite length_rev in Hk, Hp.
    apply list_lookup_singleton_Some in Hp as [Hz <-]. cbn [po_signaled]. assert (Z.of_nat k = Z.of_nat (length (posted f))) as -> by lia.
    rewrite H1. unfold uwrap, SEND_PER_SIGNAL. rewrite Zplus_mod_idemp_l. by rewrite (mod_mod_divide _ 64 (2 ^ 32)) by (done || (exists (2 ^ 26); done)).
Qed.

(** The two increments of the loop make up for each other: the pool gets exactly
    its size. *)
Lemma fill_pool_from fuel alloc k (n : nat) pool : (n <= 32)%nat -> (n <= fuel)%nat ->
  exists pool', fill_pool fuel alloc k ((32 - Z.of_nat n) * 2049) pool = Some pool' /\ length pool' = (length pool + n * 2048)%nat.
Proof.
  change 2049 with (alloc_size + 1). revert fuel k pool. induction n as [|n IH]; intros fuel k pool Hn Hf.
  - exists pool. split; [|lia]. destruct fuel; cbn [fill_pool]; rewrite (proj2 (Z.ltb_ge _ _)); try done; unfold INIT_REMOTE_PAGE_POOL_SIZE; change alloc_size with 2048; lia.
  - destruct fuel as [|fuel]; [lia|]. cbn [fill_pool].
    rewrite (proj2 (Z.ltb_lt _ _)) by (unfold INIT_REMOTE_PAGE_POOL_SIZE; change alloc_size with 2048; lia).
    replace ((32 - Z.of_nat (S n)) * (alloc_size + 1) + alloc_size + 1) with ((32 - Z.of_nat n) * (alloc_size + 1)) by lia.
    destruct (IH fuel (S k) (pool ++ ((fun j => u64 (alloc k + j)) <$> seqZ 0 alloc_size))) as (pool' & E & Hl); [lia|lia|]. exists pool'. split; [done|].
    rewrite Hl, length_app, length_fmap, length_seqZ. change (Z.to_nat alloc_size) with 2048%nat. lia.
Qed.

Lemma pool_filled alloc : exists pool, fill_pool (Z.to_nat INIT_REMOTE_PAGE_POOL_SIZE) alloc 0 0 [] = Some pool
  /\ length pool = Z.to_nat INIT_REMOTE_PAGE_POOL_SIZE.
Proof.
  destruct (fill_pool_from (Z.to_nat INIT_REMOTE_PAGE_POOL_SIZE) alloc 0 32 []) as (pool & E & Hl); [lia|unfold INIT_REMOTE_PAGE_POOL_SIZE; lia|].
  exists pool. split; [exact E|]. rewrite Hl. cbn [length]. unfold INIT_REMOTE_PAGE_POOL_SIZE. lia.
Qed.

(** ** Where the code fails *)

(** The depth of the send queue is only ever raised: nothing is held back. *)
Lemma depth_never_falls f a r n f' : post_rdma_write f a r n = Some f' -> avail_sq_depth f' = avail_sq_depth f.
Proof. rewrite post_ok. by intros [= <-]. Qed.

(** The flag that returns the credits is cleared before the request that copies
    it is posted. *)
Lemma flag_cleared_first q : is_recv q = true -> QueueV2.return_flag (mem q) = true ->
  exists b q', get q = (Some b, q') /\ localptr b = 2 * QueueV2.RING /\ QueueV2.return_flag (mem q') = false.
Proof. intros H1 H2. unfold get. rewrite H1, H2. by eexists _, _. Qed.

(** [RDMA_pointer] is not reduced: after two rounds the slots to send are looked
    for behind the two mappings. *)
Lemma slots_outside_memory q : is_recv q = false -> 1024 <= RDMA_pointer q < QueueV2.pointer (base q) ->
  exists b q', get q = (Some b, q') /\ 2 * QueueV2.RING <= localptr b.
Proof.
  intros H1 H2. unfold get. rewrite H1. cbn [andb]. rewrite (proj2 (Z.eqb_neq _ _)), (proj2 (Z.ltb_lt _ _)) by lia. eexists _, _. split; [done|].
  cbn [localptr]. unfold QueueV2.RING, QueueV2.element_size, QueueV2.LOCKLESSQ_SIZE. lia.
Qed.

(** When the pointer has wrapped, the slots up to the end are never sent. *)
Lemma wrapped_slots_lost q : is_recv q = false -> QueueV2.pointer (base q) < RDMA_pointer q -> get q = (None, set_sent q 0).
Proof. intros H1 H2. unfold get. rewrite H1. cbn [andb]. by rewrite (proj2 (Z.eqb_neq _ _)), (proj2 (Z.ltb_ge _ _)) by lia. Qed.

(** A receiver sends the slots it has taken back to the sender's ring. *)
Lemma receiver_sends_slots q : is_recv q = true -> QueueV2.return_flag (mem q) = false -> RDMA_pointer q < QueueV2.pointer (base q) ->
  exists b q', get q = (Some b, q') /\ localptr b = 16 * RDMA_pointer q /\ bsize b = 16 * (QueueV2.pointer (base q) - RDMA_pointer q).
Proof.
  intros H1 H2 H3. unfold get. rewrite H1, H2. cbn [andb]. rewrite (proj2 (Z.eqb_neq _ _)), (proj2 (Z.ltb_lt _ _)) by lia. by eexists _, _.
Qed.

End verbs.

(** ** Example *)

Definition demo_queue (pool : list Z) : rqueue :=
  let '(s, r, m) := QueueV2.demo_start in mkRq s m 4096 0 false pool.
Definition demo_world : world := mkWorld [demo_queue [10; 11; 13]] (reg (flow_new 0) 0).

Lemma demo_working : working (fun _ => Some 0%nat) (fun _ => 0).
Proof. split; [by eexists|done]. Qed.

Lemma zerocopy_exact_witness : exists w' q' ps,
  pushdata_zerocopy (fun _ => Some 0%nat) (fun _ => 0) (mkWorld [demo_queue [10; 14; 13; 12]] (reg (flow_new 0) 0)) 0 7 5
    = Some ([12; 13; 14; 10], w') /\ queues w' !! 0%nat = Some q'
  /\ [10; 14; 13; 12] = remote_pages_pool q' ++ [10; 14; 13; 12]
  /\ posted (fl w') = rev ps ++ [] /\ page_writes <$> ps = [[(7, 12); (8, 13); (9, 14)]; [(10, 10)]]
  /\ concat (page_writes <$> ps) = [(7, 12); (8, 13); (9, 14); (10, 10)].
Proof.
  apply (zerocopy_exact (fun _ => Some 0%nat) (fun _ => 0) demo_working (mkWorld [demo_queue [10; 14; 13; 12]] (reg (flow_new 0) 0)) 0
    (demo_queue [10; 14; 13; 12]) 7 5 eq_refl); [lia|lia|lia|].
  repeat constructor; lia.
Defined.

Lemma demo_mirrored : mirrored demo_world 0 (demo_queue [10; 11; 13]) (replicate (Z.to_nat QueueV2.RING) 0) [].
Proof.
  pose proof (QueueV2.v2_start_rep (QueueV2.mkShm [] false)) as H. split; try done.
  - exact (QueueV2.rp_mid _ _ _ _ H).
  - split; [apply NoDup_singleton|by left].
  - intros j Hj Hne. apply list_elem_of_singleton in Hj. done.
Qed.

End RdmaQueue.
