(* ===== verification/RdmaConn.v ===== *)
(** * Messages over RDMA

    [interprocess_RDMA_t] of [common/interprocess_t_n.hpp]: a connection made of
    four queues of [RdmaQueue], two for messages and two for urgent ones; index 0
    sends and index 1 receives.  A message of the library is translated to the
    16 bytes of the queue's metadata and back.  [pop_data] has an empty body. *)

From Stdlib Require Import ZArith Lia.
From stdpp Require Import numbers base gmap list list_numbers.
From S2P Require Import Prelude LocklessQueue IpBuffer Interprocess QueueV2 RdmaQueue.

Module RdmaConn.
Import RdmaQueue.

Abbreviation outcome := Interprocess.outcome.
Abbreviation Done := Interprocess.Done.
Abbreviation Waits := Interprocess.Waits.
Abbreviation Fatal := Interprocess.Fatal.

(** The numbers of [interprocess_t::cmd]. *)
Definition code (c : Interprocess.cmd) : Z :=
  match c with
  | Interprocess.NEW_FD => 2
  | Interprocess.DATA_TRANSFER => 3
  | Interprocess.DATA_TRANSFER_ZEROCOPY => 4
  | Interprocess.DATA_TRANSFER_ZEROCOPY_VECTOR => 5
  | Interprocess.ZEROCOPY_RETURN => 6
  | Interprocess.ZEROCOPY_RETURN_VECTOR => 7
  | Interprocess.NOP => 8
  | Interprocess.CLOSE_FD => 9
  | Interprocess.RDMA_ACK => 10
  | Interprocess.RTS_RELAY_ACK => 11
  | Interprocess.RTS_RELAY_DATA => 12
  | Interprocess.CLOSE_REQ_NORD => 13
  | Interprocess.CLOSE_REQ_NOWR => 14
  | Interprocess.CLOSE_ACK_NORD => 15
  | Interprocess.CLOSE_ACK_NOWR => 16
  end.

(** The places of [q] and [q_emergency] among the queues of the process. *)
Definition q_send : nat := 0.
Definition q_recv : nat := 1.
Definition e_send : nat := 2.
Definition e_recv : nat := 3.

Definition get_shmem_size : Z := QueueV2.getmemsize * 2 + 2 * QueueV2.getmemsize.

Definition u16 (x : Z) : Z := uwrap 16 x.

(** ** Sending *)

Section conn.
Context (completions : nat -> option nat) (send_ret : nat -> Z).

(** [while (!push_nb(...))]: the turn that succeeds, or waiting for credits. *)
Definition push_wait (w : world) (i : nat) (e : QueueV2.element_t) (ptr : list Z) : outcome world :=
  match push_nb completions send_ret w i e (take (Z.to_nat (QueueV2.size e)) ptr) with
  | Some (true, w) => Done w
  | Some (false, _) => Waits
  | None => Fatal
  end.

(** The loop for a vector of pages; a page for which there is none in the pool
    leaves what [malloc] returned. *)
Fixpoint send_vector (w : world) (local_pages remote_pages : list Z) : option (list Z * world) :=
  match local_pages, remote_pages with
  | p :: ps, old :: rs =>
      '(got, w) ← pushdata_zerocopy completions send_ret w q_send p 1;
      '(rest, w) ← send_vector w ps rs;
      Some (default old (head got) :: rest, w)
  | _, _ => Some ([], w)
  end.

(** The words at an address. *)
Fixpoint words (n : nat) (bs : list Z) : list Z :=
  match n with O => [] | S n => QueueV2.of_le (take 8 bs) :: words n (drop 8 bs) end.
Definition bytes_of (ws : list Z) : list Z := concat (QueueV2.le 8 <$> ws).

(** [heap] is what [malloc] returns for the remote pages and [stack] what the
    union of [topush_ele] holds before it is assigned.  The result is [len]. *)
Definition push_data (w : world) (in_meta : Interprocess.element) (len : Z) (ptr heap stack : list Z) : outcome (Z * world) :=
  let ele fd inner size := QueueV2.mkElement (u16 size) QueueV2.LOCKLESSQ_BITMAP_ISVALID (code (Interprocess.command in_meta)) fd inner in
  let send w i e ptr len := match push_wait w i e ptr with Done w => Done (len, w) | Waits => Waits | Fatal => Fatal end in
  match Interprocess.command in_meta, Interprocess.body in_meta with
  | Interprocess.NEW_FD, Interprocess.data_fd_notify fd => send w q_send (ele fd stack len) ptr len
  | Interprocess.CLOSE_FD, Interprocess.close_fd req peer => send w q_send (ele (-1) (QueueV2.le 4 req ++ QueueV2.le 4 peer) len) ptr len
  | Interprocess.DATA_TRANSFER, Interprocess.data_fd_rw _ fd => send w q_send (ele fd (QueueV2.le 4 0 ++ drop 4 stack) len) ptr len
  | Interprocess.DATA_TRANSFER_ZEROCOPY, Interprocess.data_fd_rw_zc fd num_pages page_high page_low =>
      match pushdata_zerocopy completions send_ret w q_send (Z.shiftl page_high 32 + page_low) num_pages with
      | Some (pages, w) =>
          let pages := pages ++ drop (length pages) (words (Z.to_nat num_pages) heap) in
          send w q_send (ele fd stack (8 * num_pages)) (bytes_of pages) (8 * num_pages)
      | None => Fatal
      end
  | Interprocess.DATA_TRANSFER_ZEROCOPY_VECTOR, Interprocess.data_fd_rw_zcv _ fd num_pages =>
      if negb (num_pages * 8 =? len) then Fatal
      else
        match send_vector w (words (Z.to_nat num_pages) ptr) (words (Z.to_nat num_pages) heap) with
        | Some (pages, w) => send w q_send (ele fd stack len) (bytes_of pages) len
        | None => Fatal
        end
  | Interprocess.ZEROCOPY_RETURN, _ | Interprocess.ZEROCOPY_RETURN_VECTOR, _ => send w e_send (ele (-1) stack len) ptr len
  | _, _ => Fatal
  end.

Definition add_remote_page_to_pool (w : world) (page : Z) : option world :=
  q ← queues w !! q_send;
  Some (set_queue w q_send (RdmaQueue.add_remote_page_to_pool q page)).

(** ** Receiving *)

Record iterator := mkIter { q_pointer : Z; q_emergency_pointer : Z; is_emergency_done : bool }.

Definition begin (w : world) : option iterator :=
  q ← queues w !! q_recv;
  e ← queues w !! e_recv;
  Some (mkIter (QueueV2.pointer (base q)) (QueueV2.pointer (base e)) false).

Definition is_valid (e : QueueV2.element_t) : bool := QueueV2.has (QueueV2.flags e) QueueV2.LOCKLESSQ_BITMAP_ISVALID.
Definition is_deleted (e : QueueV2.element_t) : bool := QueueV2.has (QueueV2.flags e) QueueV2.LOCKLESSQ_BITMAP_ISDEL.

Definition next (w : world) (it : iterator) : option iterator :=
  if is_emergency_done it then
    q ← queues w !! q_recv;
    Some (mkIter (nextptr q (q_pointer it)) (q_emergency_pointer it) true)
  else
    q ← queues w !! e_recv;
    let p := nextptr q (q_emergency_pointer it) in
    Some (mkIter (q_pointer it) p (negb (is_valid (peek_meta q p)))).

(** The message of a queue's metadata; [None] aborts. *)
Definition translate (e : QueueV2.element_t) : option Interprocess.element :=
  let word k := swrap32 (QueueV2.of_le (take 4 (drop k (QueueV2.inner e)))) in
  if QueueV2.command e =? code Interprocess.NEW_FD then
    Some (Interprocess.mkElement Interprocess.NEW_FD (Interprocess.data_fd_notify (QueueV2.fd e)))
  else if QueueV2.command e =? code Interprocess.CLOSE_FD then
    Some (Interprocess.mkElement Interprocess.CLOSE_FD (Interprocess.close_fd (word 0%nat) (word 4%nat)))
  else if QueueV2.command e =? code Interprocess.DATA_TRANSFER then
    Some (Interprocess.mkElement Interprocess.DATA_TRANSFER (Interprocess.data_fd_rw (word 0%nat) (QueueV2.fd e)))
  else None.

(** The message, whether it is valid and whether it is deleted. *)
Definition peek (w : world) (it : iterator) : outcome (Interprocess.element * (bool * bool) * iterator) :=
  let answer e it := match translate e with Some o => Done (o, (is_valid e, is_deleted e), it) | None => Fatal end in
  match queues w !! q_recv, queues w !! e_recv with
  | Some q, Some qe =>
      if is_emergency_done it then answer (peek_meta q (q_pointer it)) it
      else
        let e := peek_meta qe (q_emergency_pointer it) in
        if is_valid e then answer e it
        else answer (peek_meta q (q_pointer it)) (mkIter (q_pointer it) (q_emergency_pointer it) true)
  | _, _ => Fatal
  end.

Definition it_del (w : world) (it : iterator) : option (world * iterator) :=
  if is_emergency_done it then
    '(p, w) ← del completions send_ret w q_recv (q_pointer it);
    Some (w, mkIter p (q_emergency_pointer it) true)
  else
    '(p, w) ← del completions send_ret w e_recv (q_emergency_pointer it);
    Some (w, mkIter (q_pointer it) p false).

(** The three members of the union that have a position have it first; [offset]
    is a short. *)
Definition rst_offset (w : world) (it : iterator) (c : Interprocess.cmd) (offset : Z) : outcome world :=
  let i := if is_emergency_done it then q_recv else e_recv in
  let loc := if is_emergency_done it then q_pointer it else q_emergency_pointer it in
  match queues w !! i with
  | None => Fatal
  | Some q =>
      let e := peek_meta q loc in
      match c with
      | Interprocess.ZEROCOPY_RETURN_VECTOR | Interprocess.DATA_TRANSFER | Interprocess.DATA_TRANSFER_ZEROCOPY_VECTOR =>
          let e := QueueV2.mkElement (QueueV2.size e) (QueueV2.flags e) (QueueV2.command e) (QueueV2.fd e)
                     (QueueV2.le 4 offset ++ drop 4 (QueueV2.inner e)) in
          Done (set_queue w i (set_meta q loc e))
      | _ => Fatal
      end
  end.

(** ** Messages arrive as they were sent *)

Definition is_int (x : Z) : Prop := - 2 ^ 31 <= x < 2 ^ 31.

(** The messages that the receiving side knows, and what it makes of them: the
    position in the buffer is the sender's business. *)
Definition known (m : Interprocess.element) : Prop :=
  match Interprocess.command m, Interprocess.body m with
  | Interprocess.NEW_FD, Interprocess.data_fd_notify fd => is_int fd
  | Interprocess.CLOSE_FD, Interprocess.close_fd req peer => is_int req /\ is_int peer
  | Interprocess.DATA_TRANSFER, Interprocess.data_fd_rw _ fd => is_int fd
  | _, _ => False
  end.

Definition arrives (m : Interprocess.element) : Interprocess.element :=
  match Interprocess.command m, Interprocess.body m with
  | Interprocess.DATA_TRANSFER, Interprocess.data_fd_rw _ fd => Interprocess.mkElement Interprocess.DATA_TRANSFER (Interprocess.data_fd_rw 0 fd)
  | _, _ => m
  end.

(** A known message goes to the queue as metadata that translates back. *)
Lemma push_data_known w m len ptr heap stack : known m -> length stack = 8%nat -> 0 <= len <= 4096 -> Z.of_nat (length ptr) = len -> QueueV2.clean ptr ->
  exists e, QueueV2.pushable e ptr /\ translate e = Some (arrives m) /\
    push_data w m len ptr heap stack = match push_wait w q_send e ptr with Done w => Done (len, w) | Waits => Waits | Fatal => Fatal end.
Proof.
  intros Hk Hs Hl Hp Hc. destruct m as [c b]. unfold push_data, arrives, known in *. cbn [Interprocess.command Interprocess.body] in *.
  assert (Hu : u16 len = len) by (apply uwrap_small; split; lia).
  assert (Hpush : forall fd c inn, is_int fd -> 0 <= c < 256 -> length inn = 8%nat ->
    QueueV2.pushable (QueueV2.mkElement (u16 len) QueueV2.LOCKLESSQ_BITMAP_ISVALID c fd inn) ptr).
  { intros fd cc inn H1 H2 H3. rewrite Hu. split; cbn [QueueV2.size QueueV2.flags]; try done; try lia. split; simpl; (done || lia). }
  destruct c; try done; destruct b; try done; eexists; (split; [|split; [|reflexivity]]).
  - by apply Hpush.
  - done.
  - apply Hpush; try done. rewrite length_app, QueueV2.length_le, length_drop, Hs. done.
  - done.
  - apply Hpush; done.
  - unfold translate. cbn [QueueV2.command QueueV2.inner]. destruct Hk as [H1 H2]. simpl Z.eqb. cbv iota. do 2 f_equal.
    rewrite drop_0, take_app_length' by (by rewrite QueueV2.length_le). rewrite drop_app_length' by (by rewrite QueueV2.length_le).
    rewrite take_ge by (by rewrite QueueV2.length_le). by rewrite !QueueV2.of_le_int by done.
Qed.

(** *** The receiver's walk *)

(** What a reader finds that looks at each message and goes on to the next: the
    message number [n] from [it] on. *)
Fixpoint nth_message (v : world) (n : nat) (it : iterator) : outcome (Interprocess.element * (bool * bool) * iterator) :=
  match n with
  | O => peek v it
  | S n =>
      match peek v it with
      | Done (_, _, it) => match next v it with Some it => nth_message v n it | None => Fatal end
      | Waits => Waits
      | Fatal => Fatal
      end
  end.

(** The cells of the queue are the messages [ms], each with its bytes. *)
Definition holds (x : Interprocess.element * list Z) (c : QueueV2.cell) : Prop :=
  translate (QueueV2.c_ele c) = Some (arrives x.1) /\ QueueV2.c_pay c = x.2 /\ QueueV2.c_del c = false.

Definition slots_of (ms : list (Interprocess.element * list Z)) : Z :=
  foldr (fun x n => QueueV2.slots_occupied (Z.of_nat (length x.2)) + n) 0 ms.

Lemma slots_of_app ms ms' : slots_of (ms ++ ms') = slots_of ms + slots_of ms'.
Proof. induction ms as [|x ms IH]; [done|]. simpl. rewrite IH. lia. Qed.

Lemma holds_slots ms L : Forall2 holds ms L -> Forall QueueV2.cell_ok L -> QueueV2.total L = slots_of ms.
Proof.
  induction 1 as [|x c ms L (_ & Hp & _) _ IH]; intros HL; [done|]. apply Forall_cons in HL as [Hc HL].
  cbn [QueueV2.total slots_of foldr]. rewrite (IH HL). unfold QueueV2.c_slots. rewrite (QueueV2.pu_size _ _ Hc), Hp. done.
Qed.

(** The queue [q] of the connection has sent the messages [ms], and the ring [R]
    of the peer holds them. *)
Definition carrying (w : world) (q : rqueue) (R : list Z) (ms : list (Interprocess.element * list Z)) : Prop :=
  exists L, mirrored w q_send q R L /\ Forall2 holds ms L.

(** The peer, which has taken nothing yet, with the ring [R] and no urgent
    message. *)
Definition reader (v : world) (R : list Z) (qr : rqueue) : Prop :=
  queues v !! q_recv = Some qr /\ base qr = fresh_end /\ mem qr = QueueV2.mkShm R false
  /\ exists qe, queues v !! e_recv = Some qe /\ is_valid (peek_meta qe (QueueV2.pointer (base qe))) = false.

Section walk.
Context (v : world) (R : list Z) (qr : rqueue) (Hv : reader v R qr).
Context (s : QueueV2.queue) (L : list QueueV2.cell) (ms : list (Interprocess.element * list Z)).
Context (Hmid : QueueV2.mid s fresh_end (QueueV2.mkShm R false) L) (Hh : Forall2 holds ms L) (Hfit : QueueV2.total L <= 511).

Lemma cell_found j x c : ms !! j = Some x -> L !! j = Some c ->
  peek_meta qr (QueueV2.total (take j L)) = QueueV2.c_ele c
  /\ QueueV2.peek_data (base qr) (mem qr) (QueueV2.total (take j L)) (Z.of_nat (length x.2)) = x.2
  /\ translate (QueueV2.c_ele c) = Some (arrives x.1) /\ QueueV2.flags (QueueV2.c_ele c) = 1
  /\ 0 <= QueueV2.total (take j L) /\ QueueV2.total (take j L) + QueueV2.c_slots c = QueueV2.total (take (S j) L)
  /\ QueueV2.total (take (S j) L) <= 511.
Proof using Hv Hmid Hh Hfit.
  intros Hx Hc. destruct Hv as (_ & Hb & Hm & _). pose proof (QueueV2.mi_cells _ _ _ _ Hmid) as HL.
  destruct (Forall2_lookup_lr _ _ _ _ _ _ Hh Hx Hc) as (Ht & Hp & Hd). pose proof (take_drop_middle L j c Hc) as EL.
  pose proof HL as HL'. rewrite <- EL in HL'. apply Forall_app in HL' as [H1 H2]. apply Forall_cons in H2 as [Hok H2].
  pose proof (QueueV2.total_pos _ H1) as P1. pose proof (QueueV2.total_pos _ H2) as P2.
  assert (Es : QueueV2.total (take j L) + QueueV2.c_slots c = QueueV2.total (take (S j) L)).
  { rewrite (take_S_r _ _ _ Hc), QueueV2.total_app. simpl. lia. }
  assert (Et : QueueV2.total (take (S j) L) + QueueV2.total (drop (S j) L) = QueueV2.total L)
    by (by rewrite <- QueueV2.total_app, take_drop).
  pose proof Hmid as Hmid'. rewrite <- EL in Hmid'.
  destruct (QueueV2.peek_spec _ _ _ _ _ _ (QueueV2.total (take j L)) Hmid') as [E1 E2].
  { change (QueueV2.pointer fresh_end) with 0. rewrite Z.add_0_l. pose proof (QueueV2.slots_fit _ Hok).
    rewrite <- (uwrap_small 32 (QueueV2.total (take j L))) at 1 by (split; lia). by apply QueueV2.at_position. }
  assert (Hfl : QueueV2.flags (QueueV2.c_ele c) = 1) by (apply Hok).
  unfold peek_meta. rewrite Hb, Hm. split_and!; try done; try lia.
  - rewrite E1. destruct c as [e pay d]. simpl in Hd. rewrite Hd. by apply QueueV2.marked_new.
  - rewrite (QueueV2.pu_size _ _ Hok), Hp in E2. exact E2.
Qed.

Definition at_message (it : iterator) (j : nat) : Prop := q_pointer it = QueueV2.total (take j L) /\ is_emergency_done it = true.

(** A look at message [j], by an iterator there or at the start. *)
Lemma peek_message j x it : ms !! j = Some x -> at_message it j \/ (j = 0%nat /\ begin v = Some it) ->
  exists it', peek v it = Done (arrives x.1, (true, false), it') /\ at_message it' j
    /\ QueueV2.peek_data (base qr) (mem qr) (q_pointer it') (Z.of_nat (length x.2)) = x.2.
Proof using Hv Hmid Hh Hfit.
  intros Hx Hit. destruct (Forall2_lookup_l _ _ _ _ _ Hh Hx) as (c & Hc & _).
  destruct (cell_found j x c Hx Hc) as (Em & Ed & Ht & Hf & _). destruct Hv as (Hr & Hb & _ & qe & He & Hu).
  assert (Eo : translate (peek_meta qr (QueueV2.total (take j L))) = Some (arrives x.1)) by (by rewrite Em).
  assert (Ev : is_valid (peek_meta qr (QueueV2.total (take j L))) = true) by (unfold is_valid; by rewrite Em, Hf).
  assert (Edl : is_deleted (peek_meta qr (QueueV2.total (take j L))) = false) by (unfold is_deleted; by rewrite Em, Hf).
  unfold peek. rewrite Hr, He.
  destruct Hit as [[Hp Hd]|[-> Hbe]].
  - rewrite Hd, Hp, Eo, Ev, Edl. eexists. split; [reflexivity|]. split; [by split|by rewrite Hp].
  - unfold begin in Hbe. rewrite Hr, He in Hbe. cbn [mbind option_bind] in Hbe. injection Hbe as <-.
    cbn [is_emergency_done q_emergency_pointer q_pointer]. rewrite Hu, Hb. change (QueueV2.pointer fresh_end) with (QueueV2.total (take 0 L)).
    rewrite Eo, Ev, Edl. eexists. split; [reflexivity|]. split; [by split|done].
Qed.

Lemma next_message j x y it : ms !! j = Some x -> ms !! S j = Some y -> at_message it j ->
  exists it', next v it = Some it' /\ at_message it' (S j).
Proof using Hv Hmid Hh Hfit.
  intros Hx Hy [Hp Hd]. destruct (Forall2_lookup_l _ _ _ _ _ Hh Hx) as (c & Hc & _).
  destruct (Forall2_lookup_l _ _ _ _ _ Hh Hy) as (c' & Hc' & _).
  destruct (cell_found j x c Hx Hc) as (Em & _ & _ & _ & Hpos & Es & _).
  destruct (cell_found (S j) y c' Hy Hc') as (_ & _ & _ & _ & _ & Es' & Hle).
  assert (Hok : QueueV2.cell_ok c') by (eapply Forall_lookup_1; [apply Hmid|exact Hc']).
  assert (Hok0 : QueueV2.cell_ok c) by (eapply Forall_lookup_1; [apply Hmid|exact Hc]).
  pose proof (QueueV2.slots_fit _ Hok). pose proof (QueueV2.slots_fit _ Hok0). destruct Hv as (Hr & Hb & _).
  unfold next. rewrite Hd, Hr. cbn [mbind option_bind]. eexists. split; [reflexivity|]. split; [|done]. cbn [q_pointer].
  unfold nextptr, QueueV2.nextptr. unfold peek_meta in Em. rewrite Hp, Em.
  change (QueueV2.slots_occupied (QueueV2.size (QueueV2.c_ele c))) with (QueueV2.c_slots c). rewrite Es, Hb.
  change (QueueV2.MASK fresh_end) with 511. rewrite uwrap_small by (split; lia). rewrite Z.mod_small by lia. done.
Qed.

Lemma walk_finds n j x it : ms !! (j + n)%nat = Some x -> at_message it j \/ (j = 0%nat /\ begin v = Some it) ->
  exists it', nth_message v n it = Done (arrives x.1, (true, false), it')
    /\ QueueV2.peek_data (base qr) (mem qr) (q_pointer it') (Z.of_nat (length x.2)) = x.2.
Proof using Hv Hmid Hh Hfit.
  revert j it. induction n as [|n IH]; intros j it Hx Hit; cbn [nth_message].
  - rewrite Nat.add_0_r in Hx. destruct (peek_message j x it Hx Hit) as (it' & E & _ & Hd). by exists it'.
  - destruct (lookup_lt_is_Some_2 ms j) as [z Hz]; [apply lookup_lt_Some in Hx; lia|].
    destruct (lookup_lt_is_Some_2 ms (S j)) as [y Hy]; [apply lookup_lt_Some in Hx; lia|].
    destruct (peek_message j z it Hz Hit) as (it1 & -> & H1 & _).
    destruct (next_message j z y it1 Hz Hy H1) as (it2 & -> & H2). apply (IH (S j)); [|by left].
    by replace (S j + n)%nat with (j + S n)%nat by lia.
Qed.

End walk.

(** C29: messages without pages reach the peer of a connection over RDMA, in its
    first round of the ring.  The connection has carried the messages [ms] to a
    peer that has taken none, and with the next one they fill at most 511 slots.
    [push_data] of the next message, of at most 4096 bytes of which no third byte
    of a slot has bit 0 set, on a connection whose send queue has room after
    polling, returns its length after posting one request.  When the request has
    been carried out the connection carries this message too, and a reader at the
    peer with no urgent message that starts at the front and goes from message to
    message meets exactly those sent, in order, valid and not deleted, each with
    its bytes. *)
Theorem rdma_conn_delivers w q R ms m len ptr heap stack :
  working completions send_ret -> carrying w q R ms -> deep completions w ->
  known m -> length stack = 8%nat -> 0 <= len <= 4096 -> Z.of_nat (length ptr) = len -> QueueV2.clean ptr ->
  slots_of (ms ++ [(m, ptr)]) <= 511 ->
  exists w' q' p, push_data w m len ptr heap stack = Done (len, w') /\ posted (fl w') = p :: posted (fl w)
  /\ carrying w' q' (dma q' R p) (ms ++ [(m, ptr)])
  /\ forall v qr it, reader v (dma q' R p) qr -> begin v = Some it ->
       forall k x, (ms ++ [(m, ptr)]) !! k = Some x ->
       exists it', nth_message v k it = Done (arrives x.1, (true, false), it')
         /\ QueueV2.peek_data (base qr) (mem qr) (q_pointer it') (Z.of_nat (length x.2)) = x.2.
Proof.
  intros Hok (L & Hmir & Hh) Hd Hk Hs Hl Hp Hc Hfit.
  destruct (push_data_known w m len ptr heap stack Hk Hs Hl Hp Hc) as (e & Hpu & Htr & ->).
  pose proof (holds_slots ms L Hh (QueueV2.mi_cells _ _ _ _ (mr_local _ _ _ _ _ Hmir))) as Et.
  rewrite slots_of_app in Hfit. simpl in Hfit. rewrite <- Et in Hfit.
  assert (Hz : QueueV2.size e = Z.of_nat (length ptr)) by apply (QueueV2.pu_size _ _ Hpu).
  destruct (rdma_delivers completions send_ret Hok w q_send q R L e ptr Hmir Hpu Hd) as (w' & q' & p & E & Hpo & _ & Hm);
    [rewrite Hz; lia|].
  assert (Hh' : Forall2 holds (ms ++ [(m, ptr)]) (L ++ [QueueV2.mkCell e ptr false])).
  { apply Forall2_app; [done|]. by constructor. }
  exists w', q', p. unfold push_wait. rewrite take_ge by lia. rewrite E. split; [done|]. split; [done|].
  split; [by eexists|]. intros v qr it Hv Hit k x Hx.
  pose proof (QueueV2.rp_mid _ _ _ _ (mr_remote _ _ _ _ _ Hm)) as Hmid.
  apply (walk_finds v _ qr Hv _ _ _ Hmid Hh') with (j := 0%nat); [|done|by right].
  rewrite QueueV2.total_app. unfold QueueV2.total at 2, QueueV2.c_slots. cbn [QueueV2.c_ele]. rewrite Hz. lia.
Qed.

End conn.

(** A peek at a connection without messages aborts: the command of an empty slot
    is none of the three. *)
Lemma empty_peek_aborts w q qe it : queues w !! q_recv = Some q -> queues w !! e_recv = Some qe -> is_emergency_done it = true ->
  QueueV2.command (peek_meta q (q_pointer it)) = 0 -> peek w it = Fatal.
Proof. intros H1 H2 H3 H4. unfold peek. rewrite H1, H2, H3. unfold translate. by rewrite H4. Qed.

(** What an urgent message carries is not copied: it is what was on the stack. *)
Lemma return_not_copied comp sret w m m' len ptr heap stack : Interprocess.command m = Interprocess.ZEROCOPY_RETURN ->
  Interprocess.command m' = Interprocess.ZEROCOPY_RETURN -> push_data comp sret w m len ptr heap stack = push_data comp sret w m' len ptr heap stack.
Proof. intros H1 H2. unfold push_data. by rewrite H1, H2. Qed.

Definition demo_message : Interprocess.element := Interprocess.mkElement Interprocess.DATA_TRANSFER (Interprocess.data_fd_rw 9 7).
Definition demo_receiver (R : list Z) : world :=
  let '(s, r, m) := QueueV2.demo_start in
  let q m := mkRq r m 0 0 true [] in
  mkWorld [q m; q (QueueV2.mkShm R false); q m; q m] (flow_new 0).

Lemma demo_carrying : carrying demo_world (demo_queue [10; 11; 13]) (replicate (Z.to_nat QueueV2.RING) 0) [].
Proof. exists []. split; [exact demo_mirrored|constructor]. Qed.

Lemma rdma_conn_delivers_witness : exists w' q' p it it',
  push_data (fun _ => Some 0%nat) (fun _ => 0) demo_world demo_message 3 [4; 5; 6] [] (replicate 8 0) = Done (3, w')
  /\ posted (fl w') = [p] /\ begin (demo_receiver (dma q' (replicate (Z.to_nat QueueV2.RING) 0) p)) = Some it
  /\ nth_message (demo_receiver (dma q' (replicate (Z.to_nat QueueV2.RING) 0) p)) 0 it = Done (arrives demo_message, (true, false), it')
  /\ carrying w' q' (dma q' (replicate (Z.to_nat QueueV2.RING) 0) p) [(demo_message, [4; 5; 6])].
Proof.
  destruct (rdma_conn_delivers (fun _ => Some 0%nat) (fun _ => 0) demo_world _ _ [] demo_message 3 [4; 5; 6] [] (replicate 8 0) demo_working
    demo_carrying)
    as (w' & q' & p & E & Hp & Hc & Hv).
  - intros f. vm_compute. by intros [= <-].
  - change (is_int 7). unfold is_int. lia.
  - reflexivity.
  - lia.
  - reflexivity.
  - intros j Hj. simpl. intros Hl. assert (j = 0) as -> by lia. done.
  - vm_compute. discriminate.
  - set (v := demo_receiver (dma q' (replicate (Z.to_nat QueueV2.RING) 0) p)).
    destruct (Hv v _ _ (conj eq_refl (conj eq_refl (conj eq_refl (ex_intro _ _ (conj eq_refl eq_refl))))) eq_refl 0%nat _ eq_refl) as (it' & Hpk & _).
    eexists w', q', p, _, it'. split; [exact E|]. split; [exact Hp|]. split; [reflexivity|]. split; [exact Hpk|exact Hc].
Defined.

End RdmaConn.
