(* ===== verification/KernelPages.v ===== *)
(** * The system calls for pages of the prototype

    [zerocopy/linux/mm/socksdirect.c], the calls that a patched kernel offers for
    moving page frames between processes, and [lib/zerocopy.h], their wrappers
    and the record of the original frames that is used to put them back.

    The kernel's page tables are an argument: [walk] says where the tables of the
    current process end for an address, and where the entry of its page is.  The
    entries are the state.  Pointers of the caller are taken to be valid. *)

From Stdlib Require Import ZArith Lia.
From stdpp Require Import numbers base gmap list list_numbers fin_maps.
From S2P Require Import Prelude.

Module KernelPages.

Definition PAGE_SIZE : Z := 4096.
Definition MAX_ORDER : Z := 11.

(** [pgd_none(...) || pgd_bad(...)] and so on; [pte_offset_map] gives a slot or the
    null pointer. *)
Record walk := mkWalk {
  pgd_absent : Z -> bool;
  p4d_absent : Z -> bool;
  pud_absent : Z -> bool;
  pmd_absent : Z -> bool;
  pte_offset_map : Z -> option Z
}.

(** The entries, and how often the TLB was flushed. *)
Record mm := mkMm { ptes : gmap Z Z; flushes : nat }.

Definition pte (m : mm) (s : Z) : Z := default 0 (ptes m !! s).
Definition set_pte (m : mm) (s x : Z) : mm := mkMm (<[s := x]> (ptes m)) (flushes m).
Definition flush_tlb (m : mm) : mm := mkMm (ptes m) (S (flushes m)).

(** The frame bits [M] of an entry, and its other bits. *)
Definition frame (M x : Z) : Z := Z.land x M.
Definition with_frame (M x f : Z) : Z := Z.lor (Z.ldiff x M) (Z.land f M).

Section calls.
Context (PTE_PFN_MASK : Z) (k : walk).

(** The tests that both functions start with: an error or the slot. *)
Definition find_pte (virt_addr : Z) : Z + Z :=
  if pgd_absent k virt_addr then inl (-1)
  else if p4d_absent k virt_addr then inl (-2)
  else if pud_absent k virt_addr then inl (-3)
  else if pmd_absent k virt_addr then inl (-4)
  else match pte_offset_map k virt_addr with None => inl (-5) | Some s => inr s end.

(** The result is an [unsigned long]. *)
Definition do_virt2phys (m : mm) (virt_addr : Z) : Z :=
  match find_pte virt_addr with inl e => u64 e | inr s => frame PTE_PFN_MASK (pte m s) end.

Definition virt2phys (m : mm) (virt_addr : Z) : Z := do_virt2phys m virt_addr.

Fixpoint virt2phys_loop (n : nat) (m : mm) (virt_addr : Z) : list Z :=
  match n with O => [] | S n => do_virt2phys m virt_addr :: virt2phys_loop n m (u64 (virt_addr + PAGE_SIZE)) end.

(** [None]: the loop writes behind the array of 16. *)
Definition virt2phys16 (m : mm) (virt_addr npages : Z) : option (list Z) :=
  if npages <=? 16 then Some (virt2phys_loop (Z.to_nat npages) m virt_addr) else None.

(** The result and what is copied to the caller. *)
Definition virt2physv (kmalloc_ok : bool) (m : mm) (virt_addr npages : Z) : Z * list Z :=
  if kmalloc_ok then (0, virt2phys_loop (Z.to_nat npages) m virt_addr) else (-10, []).

(** The result, the old frame and the new tables. *)
Definition do_map_phys (m : mm) (virt_addr new_pfn : Z) : Z * option (Z * mm) :=
  match find_pte virt_addr with
  | inl e => (e, None)
  | inr s => (0, Some (frame PTE_PFN_MASK (pte m s), set_pte m s (with_frame PTE_PFN_MASK (pte m s) new_pfn)))
  end.

Definition map_phys (m : mm) (virt_addr phys_addr : Z) : Z * mm :=
  match do_map_phys m virt_addr phys_addr with
  | (_, Some (old, m)) => (old, flush_tlb m)
  | (e, None) => (e, m)
  end.

Fixpoint map_loop (m : mm) (virt_addr : Z) (pfns : list Z) : Z * list Z * mm :=
  match pfns with
  | [] => (0, [], m)
  | p :: pfns =>
      match do_map_phys m virt_addr p with
      | (_, Some (old, m)) => let '(ret, olds, m) := map_loop m (u64 (virt_addr + PAGE_SIZE)) pfns in (ret, old :: olds, m)
      | (e, None) => (e, [], m)
      end
  end.

(** [Some]: what is copied to [old_phys_addr]. *)
Definition map_physv (kmalloc_ok : bool) (m : mm) (virt_addr : Z) (phys_addr : list Z) : Z * option (list Z) * mm :=
  if kmalloc_ok then
    let '(ret, olds, m) := map_loop m virt_addr phys_addr in
    if ret =? 0 then (0, Some olds, flush_tlb m) else (ret, None, m)
  else (-10, None, m).

Definition socksdirect (echo : Z) : Z := echo.

End calls.

(** [alloc_pages] gives the number of the first frame. *)
Definition sys_alloc_phys (alloc_pages : Z -> option Z) (npages_order : Z) : Z :=
  match alloc_pages npages_order with None => -1 | Some pfn => pfn end.

(** ** The wrappers *)

(** [(unsigned int)(1 << order)]; the shift is defined up to 31. *)
Fixpoint order_from (fuel : nat) (order num_pages : Z) : option Z :=
  match fuel with
  | O => None
  | S fuel => if Z.shiftl 1 order <? num_pages then order_from fuel (order + 1) num_pages else Some order
  end.

(** [None]: a shift that is not defined. *)
Definition alloc_phys (alloc_pages : Z -> option Z) (num_pages : Z) : option Z :=
  order ← order_from 32 0 num_pages;
  Some (if MAX_ORDER <? order then -2 else sys_alloc_phys alloc_pages order).

(** [page_mappings] *)
Abbreviation mappings := (gmap Z Z).

(** The loop from page [i] on; [None]: the [int] [i * PAGE_SIZE] overflows. *)
Fixpoint log_loop (log : mappings) (buf i : Z) (original_pages : list Z) : option mappings :=
  match original_pages with
  | [] => Some log
  | p :: ps =>
      if 2 ^ 31 <=? i * PAGE_SIZE then None
      else
        let addr := u64 (buf + i * PAGE_SIZE) in
        let log := match log !! addr with None => <[addr := p]> log | Some _ => log end in
        log_loop log buf (i + 1) ps
  end.

Definition log_mapping (log : mappings) (buf : Z) (original_pages : list Z) : option mappings := log_loop log buf 0 original_pages.

(** [map_and_return_pages] of [socket_lib.cpp], which does not look at the result
    of [map_physv]: when that fails, [return_pages] has what was in the memory
    from [malloc], [junk]. *)
Definition map_and_return_pages (M : Z) (k : walk) (kmalloc_ok : bool) (junk : list Z) (m : mm) (log : mappings) (buf : Z) (received_pages : list Z)
    : option (list Z * mm * mappings) :=
  let '(_, olds, m) := map_physv M k kmalloc_ok m buf received_pages in
  let return_pages := default junk olds in
  log ← log_mapping log buf return_pages;
  Some (return_pages, m, log).

(** [init_mapping] allocates a page that is not used. *)
Definition init_mapping (alloc_pages : Z -> option Z) : option Z := alloc_phys alloc_pages 1.

(** The elements of an [unordered_map] come in any order. *)
Definition resume_mapping (M : Z) (k : walk) (m : mm) (entries : list (Z * Z)) : mm :=
  foldl (fun m x => if negb (x.2 =? 0) then snd (map_phys M k m x.1 x.2) else m) m entries.

(** ** Frames and entries *)

Ltac bits := apply Z.bits_inj'; intros ? ?; rewrite ?Z.land_spec, ?Z.lor_spec, ?Z.ldiff_spec, ?Z.land_spec, ?Z.lor_spec, ?Z.ldiff_spec, ?Z.land_spec;
  repeat match goal with |- context [Z.testbit ?x ?n] => destruct (Z.testbit x n) end; done.

Lemma frame_with M x f : frame M (with_frame M x f) = frame M f.
Proof. unfold frame, with_frame. bits. Qed.

Lemma with_with M x f g : with_frame M (with_frame M x f) g = with_frame M x g.
Proof. unfold with_frame. bits. Qed.

Lemma with_own M x : with_frame M x (frame M x) = x.
Proof. unfold frame, with_frame. bits. Qed.

Lemma pte_set_eq m s x : pte (set_pte m s x) s = x.
Proof. unfold pte, set_pte. cbn [ptes]. by rewrite lookup_insert_eq. Qed.

Lemma pte_set_ne m s s' x : s <> s' -> pte (set_pte m s x) s' = pte m s'.
Proof. intros H. unfold pte, set_pte. cbn [ptes]. by rewrite lookup_insert_ne. Qed.

Section tables.
Context (M : Z) (k : walk).
(** The entries of different pages are different slots. *)
Hypothesis pte_offset_inj : forall v v' s, pte_offset_map k v = Some s -> pte_offset_map k v' = Some s -> v / PAGE_SIZE = v' / PAGE_SIZE.

Lemma find_pte_inj v v' s : find_pte k v = inr s -> find_pte k v' = inr s -> v / PAGE_SIZE = v' / PAGE_SIZE.
Proof.
  unfold find_pte. repeat case_match; try done. intros [= <-] [= <-]. eapply pte_offset_inj; eassumption.
Qed.

(** The addresses of [n] pages from [v] on. *)
Fixpoint addrs (v : Z) (n : nat) : list Z := match n with O => [] | S n => v :: addrs (u64 (v + PAGE_SIZE)) n end.

(** All these pages have entries, in the slots [ss]. *)
Definition mapped (v : Z) (ss : list Z) : Prop := Forall2 (fun a s => find_pte k a = inr s) (addrs v (length ss)) ss.

Lemma addrs_lookup v n (i : nat) : 0 <= v -> v + PAGE_SIZE * Z.of_nat n <= 2 ^ 64 -> (i < n)%nat -> addrs v n !! i = Some (v + PAGE_SIZE * Z.of_nat i).
Proof.
  unfold PAGE_SIZE. revert v i. induction n as [|n IH]; intros v i H0 H1 Hi; [lia|]. destruct i as [|i]; cbn [addrs lookup list_lookup]; [by rewrite Z.mul_0_r, Z.add_0_r|].
  destruct (decide (n = O)) as [->|]; [lia|]. unfold PAGE_SIZE. rewrite uwrap_small by (split; lia). rewrite IH by lia. f_equal. lia.
Qed.

Lemma mapped_NoDup v ss : 0 <= v -> v + PAGE_SIZE * Z.of_nat (length ss) <= 2 ^ 64 -> mapped v ss -> NoDup ss.
Proof.
  intros H0 H1 Hm. apply NoDup_alt. intros i j x Hi Hj. pose proof (lookup_lt_Some _ _ _ Hi) as Li. pose proof (lookup_lt_Some _ _ _ Hj) as Lj.
  pose proof (Forall2_lookup_lr _ _ _ _ _ _ Hm (addrs_lookup v _ i H0 H1 Li) Hi) as Fi. pose proof (Forall2_lookup_lr _ _ _ _ _ _ Hm (addrs_lookup v _ j H0 H1 Lj) Hj) as Fj.
  pose proof (find_pte_inj _ _ _ Fi Fj) as E. unfold PAGE_SIZE in E. rewrite !(Z.mul_comm 4096) in E. rewrite !Z.div_add in E by lia. lia.
Qed.

(** The tables when the slots [ss] have got the frames [fs]. *)
Fixpoint remap (m : mm) (ss fs : list Z) : mm :=
  match ss, fs with
  | s :: ss, f :: fs => remap (set_pte m s (with_frame M (pte m s) f)) ss fs
  | _, _ => m
  end.

Lemma pte_remap_other m ss fs s : s ∉ ss -> pte (remap m ss fs) s = pte m s.
Proof.
  revert m fs. induction ss as [|s' ss IH]; intros m [|f fs] Hs; try done. cbn [remap]. rewrite IH by set_solver. apply pte_set_ne. set_solver.
Qed.

Lemma pte_remap m ss fs (i : nat) s f : NoDup ss -> ss !! i = Some s -> fs !! i = Some f -> pte (remap m ss fs) s = with_frame M (pte m s) f.
Proof.
  intros Hnd. revert m fs i. induction Hnd as [|s' ss Hs _ IH]; intros m [|f' fs] [|i] Hi Hf; simplify_eq/=.
  - rewrite pte_remap_other by done. apply pte_set_eq.
  - rewrite (IH _ _ i) by done. rewrite pte_set_ne; [done|]. intros ->. apply Hs. by eapply list_elem_of_lookup_2.
Qed.

Lemma map_loop_ok m v ss fs : NoDup ss -> mapped v ss -> length fs = length ss ->
  map_loop M k m v fs = (0, (fun s => frame M (pte m s)) <$> ss, remap m ss fs).
Proof.
  intros Hnd. revert m v fs. induction Hnd as [|s ss Hs Hnd IH]; intros m v [|f fs] Hm Hl; try done.
  unfold mapped in Hm. cbn [length addrs] in Hm. apply Forall2_cons in Hm as [Hf Hm]. cbn [map_loop remap]. unfold do_map_phys. rewrite Hf.
  rewrite IH by (done || (simpl in Hl; lia)). do 2 f_equal. rewrite fmap_cons. f_equal. apply list_fmap_ext. intros j x Hx. f_equal. apply pte_set_ne.
  intros ->. apply Hs. by eapply list_elem_of_lookup_2.
Qed.

Lemma virt2phys_loop_ok m v ss : mapped v ss -> virt2phys_loop M k (length ss) m v = (fun s => frame M (pte m s)) <$> ss.
Proof.
  revert v. induction ss as [|s ss IH]; intros v Hm; [done|]. unfold mapped in Hm. cbn [length addrs] in Hm. apply Forall2_cons in Hm as [Hf Hm].
  cbn [length virt2phys_loop]. rewrite fmap_cons, IH by done. f_equal. unfold do_virt2phys. by rewrite Hf.
Qed.

(** C35: on pages that all have entries [map_physv] installs the given frames and
    returns the old ones, which [virt2physv] reports before; the other pages and
    the other bits of the entries stay; and giving the old frames back restores
    the tables. *)
Theorem map_physv_swaps m v ss fs (n := Z.of_nat (length ss)) : 0 <= v -> v + PAGE_SIZE * n <= 2 ^ 64 -> mapped v ss -> length fs = length ss ->
  exists m1 m2, map_physv M k true m v fs = (0, Some (snd (virt2physv M k true m v n)), m1)
    /\ snd (virt2physv M k true m1 v n) = frame M <$> fs
    /\ (forall s, pte m1 s = with_frame M (pte m s) (frame M (pte m1 s))) /\ (forall s, s ∉ ss -> pte m1 s = pte m s)
    /\ map_physv M k true m1 v (snd (virt2physv M k true m v n)) = (0, Some (frame M <$> fs), m2)
    /\ forall s, pte m2 s = pte m s.
Proof.
  intros H0 H1 Hm Hl. pose proof (mapped_NoDup v ss H0 H1 Hm) as Hnd. unfold virt2physv, n. cbn [snd]. rewrite Nat2Z.id.
  rewrite !virt2phys_loop_ok by done. set (olds := (fun s => frame M (pte m s)) <$> ss). unfold map_physv.
  rewrite (map_loop_ok m v ss fs) by done. set (m1 := remap m ss fs). cbn [Z.eqb]. fold olds.
  assert (Holds : length olds = length ss) by (unfold olds; by rewrite length_fmap).
  assert (Hp : forall i s, ss !! i = Some s -> exists f, fs !! i = Some f /\ pte m1 s = with_frame M (pte m s) f).
  { intros i s Hi. destruct (lookup_lt_is_Some_2 fs i) as [f Hf]; [rewrite Hl; by eapply lookup_lt_Some|]. exists f. split; [done|]. by eapply pte_remap. }
  assert (Hf : (fun s => frame M (pte m1 s)) <$> ss = frame M <$> fs).
  { apply list_eq. intros i. rewrite !list_lookup_fmap. destruct (ss !! i) as [s|] eqn:Hi.
    - destruct (Hp i s Hi) as (f & -> & E). simpl. by rewrite E, frame_with.
    - apply lookup_ge_None in Hi. assert (fs !! i = None) as -> by (apply lookup_ge_None; lia). done. }
  exists (flush_tlb m1), (flush_tlb (remap (flush_tlb m1) ss olds)). rewrite (virt2phys_loop_ok (flush_tlb m1)) by done.
  rewrite (map_loop_ok (flush_tlb m1) v ss olds) by done. change (pte (flush_tlb m1)) with (pte m1). rewrite Hf. cbn [Z.eqb].
  split; [done|]. split; [done|]. split; [|split; [intros s Hs; by apply pte_remap_other|split; [done|]]].
  - intros s. change (pte (flush_tlb m1) s) with (pte m1 s). destruct (decide (s ∈ ss)) as [Hs|Hs]; [|unfold m1; by rewrite (pte_remap_other m ss fs s Hs), with_own].
    apply list_elem_of_lookup in Hs as [i Hi]. destruct (Hp i s Hi) as (f & _ & E). rewrite E, frame_with. unfold frame, with_frame. bits.
  - intros s. change (pte (flush_tlb (remap (flush_tlb m1) ss olds)) s) with (pte (remap (flush_tlb m1) ss olds) s). destruct (decide (s ∈ ss)) as [Hs|Hs].
    + apply list_elem_of_lookup in Hs as [i Hi]. rewrite (pte_remap _ ss olds i s (frame M (pte m s))) by (done || (unfold olds; rewrite list_lookup_fmap, Hi; done)).
      destruct (Hp i s Hi) as (f & _ & E). change (pte (flush_tlb m1) s) with (pte m1 s). rewrite E, with_with. apply with_own.
    + rewrite pte_remap_other by done. change (pte (flush_tlb m1) s) with (pte m1 s). by apply pte_remap_other.
Qed.

(** When a page in the middle has no entry, those before it keep their new
    frames, the TLB is not flushed, and the caller does not get the old ones. *)
Lemma map_physv_half_done m v s f f' e : find_pte k v = inr s -> find_pte k (u64 (v + PAGE_SIZE)) = inl e -> e <> 0 ->
  map_physv M k true m v [f; f'] = (e, None, set_pte m s (with_frame M (pte m s) f)).
Proof. intros H1 H2 He. unfold map_physv. cbn [map_loop]. unfold do_map_phys. rewrite H1, H2. by rewrite (proj2 (Z.eqb_neq _ _) He). Qed.

(** *** Putting the original frames back *)

Definition aligned (a : Z) : Prop := a mod PAGE_SIZE = 0.

Lemma aligned_inj a b s : aligned a -> aligned b -> find_pte k a = inr s -> find_pte k b = inr s -> a = b.
Proof.
  intros Ha Hb Fa Fb. pose proof (find_pte_inj _ _ _ Fa Fb) as E. unfold aligned, PAGE_SIZE in *.
  rewrite (Z.div_mod a 4096), (Z.div_mod b 4096) by lia. lia.
Qed.

Lemma addrs_aligned v n a : aligned v -> a ∈ addrs v n -> aligned a.
Proof.
  revert v. induction n as [|n IH]; intros v Hv Ha; [by apply not_elem_of_nil in Ha|]. cbn [addrs] in Ha. apply elem_of_cons in Ha as [->|Ha]; [done|].
  apply (IH (u64 (v + PAGE_SIZE))); [|done]. unfold aligned, PAGE_SIZE, uwrap in *. change (2 ^ 64) with (4096 * 2 ^ 52) at 1.
  rewrite Z.mod_mod_divide by (by exists (2 ^ 52)). rewrite <- Z.add_mod_idemp_l, Hv by lia. done.
Qed.

(** The loop of [log_mapping] with the address as its counter. *)
Fixpoint log_pages (log : mappings) (buf : Z) (original_pages : list Z) : mappings :=
  match original_pages with
  | [] => log
  | p :: ps => log_pages (match log !! buf with None => <[buf := p]> log | Some _ => log end) (u64 (buf + PAGE_SIZE)) ps
  end.

Lemma log_loop_pages log buf i ps log' : log_loop log buf i ps = Some log' -> log' = log_pages log (u64 (buf + i * PAGE_SIZE)) ps.
Proof.
  revert log i. induction ps as [|p ps IH]; intros log i; cbn [log_loop log_pages]; [by intros [= ->]|]. destruct (_ <=? _); [done|].
  intros E%IH. rewrite E, uwrap_add_l. do 2 f_equal. lia.
Qed.

Lemma log_mapping_pages log buf ps log' : 0 <= buf -> buf + PAGE_SIZE * Z.of_nat (length ps) <= 2 ^ 64 -> log_mapping log buf ps = Some log' -> log' = log_pages log buf ps.
Proof.
  intros H0 H1 E%log_loop_pages. rewrite Z.mul_0_l, Z.add_0_r in E. destruct ps as [|p ps]; [done|]. unfold PAGE_SIZE in H1. simpl length in H1.
  by rewrite uwrap_small in E by (split; lia).
Qed.

(** Up to 2^19 pages the offset is an [int]. *)
Lemma log_loop_some log buf i ps : (i + Z.of_nat (length ps) - 1) * PAGE_SIZE < 2 ^ 31 -> is_Some (log_loop log buf i ps).
Proof.
  revert log i. induction ps as [|p ps IH]; intros log i Hi; cbn [log_loop]; [done|]. unfold PAGE_SIZE in *. simpl length in Hi.
  destruct (Z.leb_spec (2 ^ 31) (i * 4096)); [lia|]. apply IH. lia.
Qed.

(** [log_pages] keeps what is recorded and adds the pages that are not. *)
Lemma log_keeps log v ps a o : log !! a = Some o -> log_pages log v ps !! a = Some o.
Proof.
  revert log v. induction ps as [|p ps IH]; intros log v H; [done|]. cbn [log_pages]. apply IH. case_match eqn:E; [done|].
  rewrite lookup_insert_ne by congruence. done.
Qed.

Lemma log_other log v ps a : a ∉ addrs v (length ps) -> log_pages log v ps !! a = log !! a.
Proof.
  revert log v. induction ps as [|p ps IH]; intros log v H; [done|]. cbn [length addrs] in H. cbn [log_pages]. rewrite IH by set_solver.
  case_match; [done|]. apply lookup_insert_ne. set_solver.
Qed.

Lemma log_adds log v ps (i : nat) a p : NoDup (addrs v (length ps)) -> addrs v (length ps) !! i = Some a -> ps !! i = Some p -> log !! a = None ->
  log_pages log v ps !! a = Some p.
Proof.
  revert log v i. induction ps as [|q ps IH]; intros log v i Hnd Ha Hp Hn; [done|]. cbn [length addrs] in Hnd, Ha. apply NoDup_cons in Hnd as [Hv Hnd].
  cbn [log_pages]. destruct i as [|i]; simplify_eq/=.
  - rewrite Hn. rewrite log_other by done. apply lookup_insert_eq.
  - apply (IH _ _ i); [done|done|done|]. case_match; [done|]. rewrite lookup_insert_ne; [done|]. intros ->. apply Hv. by eapply list_elem_of_lookup_2.
Qed.

(** The tables, the records, and the addresses of the pages in buffers for which
    [map_physv] has failed. *)
Record zc := mkZc { tables : mm; records : mappings; failed : list Z }.

(** Pages arrive for an aligned buffer.  Whether the kernel has memory, whether the
    pages have entries and what [malloc] returns is open. *)
Inductive zc_step : zc -> zc -> Prop :=
  | zc_receive kmalloc_ok junk m log bad buf fs r m' log' : aligned buf -> 0 <= buf -> buf + PAGE_SIZE * Z.of_nat (length fs) <= 2 ^ 64 -> length junk = length fs ->
      map_and_return_pages M k kmalloc_ok junk m log buf fs = Some (r, m', log') ->
      zc_step (mkZc m log bad) (mkZc m' log' ((if fst (fst (map_physv M k kmalloc_ok m buf fs)) =? 0 then [] else addrs buf (length fs)) ++ bad)).

(** A page with a record has its original frame there, every other slot is as it
    was, where no mapping has failed. *)
Record recorded (m0 : mm) (x : zc) : Prop := {
  rec_al a : a ∈ failed x -> aligned a;
  rec_log a o : records x !! a = Some o -> aligned a;
  rec_page a o : records x !! a = Some o -> a ∉ failed x -> exists s f, find_pte k a = inr s /\ o = frame M (pte m0 s) /\ pte (tables x) s = with_frame M (pte m0 s) f;
  rec_rest s : (forall a, a ∈ failed x -> find_pte k a <> inr s) -> (forall a o, records x !! a = Some o -> find_pte k a <> inr s) -> pte (tables x) s = pte m0 s
}.

Lemma recorded_start m0 : recorded m0 (mkZc m0 ∅ []).
Proof. split; cbn [tables records failed]; [intros a H; by apply not_elem_of_nil in H|intros a o; by rewrite lookup_empty..|done]. Qed.

(** Result 0 says that all pages have entries. *)
Lemma find_pte_error v e : find_pte k v = inl e -> e <> 0.
Proof. unfold find_pte. repeat case_match; intros; simplify_eq; done. Qed.

Lemma map_loop_zero m v fs olds m' : map_loop M k m v fs = (0, olds, m') -> exists ss, mapped v ss /\ length fs = length ss.
Proof.
  revert m v olds m'. induction fs as [|f fs IH]; intros m v olds m' E; [by exists []; split; [constructor|]|]. cbn [map_loop] in E. unfold do_map_phys in E.
  destruct (find_pte k v) as [e|s] eqn:Ef; [simplify_eq; by apply find_pte_error in Ef|].
  destruct (map_loop M k _ _ fs) as [[r os] m1] eqn:El. simplify_eq. destruct (IH _ _ _ _ El) as (ss & Hm & Hl). exists (s :: ss).
  split; [by constructor|by simpl; rewrite Hl].
Qed.

(** A mapping, also one that fails, touches its own pages only. *)
Lemma map_loop_other m v fs s : (forall a, a ∈ addrs v (length fs) -> find_pte k a <> inr s) -> pte (snd (map_loop M k m v fs)) s = pte m s.
Proof.
  revert m v. induction fs as [|f fs IH]; intros m v H; [done|]. cbn [map_loop length addrs] in *. unfold do_map_phys.
  destruct (find_pte k v) as [e|s'] eqn:Ef; [done|]. specialize (IH (set_pte m s' (with_frame M (pte m s') f)) (u64 (v + PAGE_SIZE))).
  destruct (map_loop M k _ _ fs) as [[r os] m1]. cbn [snd] in *. rewrite IH by (intros a Ha; apply H; by right). apply pte_set_ne. intros ->. by apply (H v); [left|].
Qed.

Lemma addrs_NoDup v n : 0 <= v -> v + PAGE_SIZE * Z.of_nat n <= 2 ^ 64 -> NoDup (addrs v n).
Proof.
  intros H0 H1. apply NoDup_alt. assert (L : forall i a, addrs v n !! i = Some a -> (i < n)%nat /\ a = v + PAGE_SIZE * Z.of_nat i).
  { intros i a Hi. assert (i < n)%nat as Hl. { apply lookup_lt_Some in Hi. revert Hi. clear. revert v i. induction n as [|n IH]; intros v i Hi; [done|]. simpl in Hi.
      destruct i as [|i]; [lia|]. specialize (IH (u64 (v + PAGE_SIZE)) i). lia. }
    split; [done|]. rewrite addrs_lookup in Hi by done. congruence. }
  intros i j a [_ Hi]%L [_ Hj]%L. unfold PAGE_SIZE in *. lia.
Qed.

Lemma addrs_length v n : length (addrs v n) = n.
Proof. revert v. induction n as [|n IH]; intros v; simpl; [done|by rewrite IH]. Qed.

Lemma mapped_slot v ss (i : nat) a s : mapped v ss -> addrs v (length ss) !! i = Some a -> find_pte k a = inr s -> ss !! i = Some s.
Proof. intros Hm Hi Hs. destruct (Forall2_lookup_l _ _ _ _ _ Hm Hi) as (s' & Hs' & Hf). cbv beta in Hf. congruence. Qed.

Lemma mapped_other v ss a s : aligned v -> mapped v ss -> aligned a -> find_pte k a = inr s -> a ∉ addrs v (length ss) -> s ∉ ss.
Proof.
  intros Hv Hm Ha Hs Hin Hin'. apply Hin. apply list_elem_of_lookup in Hin' as [i Hi]. destruct (Forall2_lookup_r _ _ _ _ _ Hm Hi) as (b & Hb & Hfb).
  pose proof (list_elem_of_lookup_2 _ _ _ Hb) as Hbin. by rewrite (aligned_inj a b s Ha (addrs_aligned _ _ _ Hv Hbin) Hs Hfb).
Qed.

(** A call that succeeds. *)
Lemma recorded_mapped m0 m log bad buf ss fs (olds := (fun s => frame M (pte m s)) <$> ss) : recorded m0 (mkZc m log bad) -> aligned buf -> 0 <= buf ->
  buf + PAGE_SIZE * Z.of_nat (length ss) <= 2 ^ 64 -> mapped buf ss -> length fs = length ss ->
  recorded m0 (mkZc (flush_tlb (remap m ss fs)) (log_pages log buf olds) bad).
Proof.
  intros [Hba Hla Hp Hr] Hal H0 H1 Hm Hl. cbn [tables records failed] in *. pose proof (mapped_NoDup buf ss H0 H1 Hm) as Hnd.
  assert (Hlen : length olds = length ss) by apply length_fmap.
  assert (Hadd : forall i a s, addrs buf (length ss) !! i = Some a -> ss !! i = Some s -> log !! a = None -> log_pages log buf olds !! a = Some (frame M (pte m s))).
  { intros i a s Hi Hs Hn. apply (log_adds _ _ _ i); [rewrite Hlen; by apply addrs_NoDup|by rewrite Hlen|by unfold olds; rewrite list_lookup_fmap, Hs|done]. }
  split; cbn [tables records failed]; change (pte (flush_tlb ?m)) with (pte m); [done| | |].
  - intros a o Ha. destruct (decide (a ∈ addrs buf (length ss))) as [Hin|Hin]; [by eapply addrs_aligned|]. rewrite log_other in Ha by (by rewrite Hlen). by eapply Hla.
  - intros a o Ha Hbad. destruct (decide (a ∈ addrs buf (length ss))) as [Hin|Hin].
    + pose proof (addrs_aligned _ _ _ Hal Hin) as Haa. apply list_elem_of_lookup in Hin as [i Hi]. destruct (Forall2_lookup_l _ _ _ _ _ Hm Hi) as (s & Hs & Hf).
      destruct (lookup_lt_is_Some_2 fs i) as [f Hfs]; [rewrite Hl; by eapply lookup_lt_Some|]. exists s, f. split; [done|]. rewrite (pte_remap m ss fs i s f) by done.
      destruct (log !! a) as [o'|] eqn:Elog.
      * rewrite (log_keeps _ _ _ _ o') in Ha by done. destruct (Hp a o' Elog Hbad) as (s' & g & Hs' & Ho & Hg). rewrite Hs' in Hf. injection Hf as ->.
        rewrite Hg. split; [congruence|apply with_with].
      * rewrite (Hadd i a s Hi Hs Elog) in Ha. assert (pte m s = pte m0 s) as E0; [|rewrite E0 in *; by simplify_eq]. apply Hr.
        -- intros b Hb Hfb. by rewrite (aligned_inj b a s (Hba b Hb) Haa Hfb Hf) in Hb.
        -- intros b p Hb Hfb. rewrite (aligned_inj b a s (Hla b p Hb) Haa Hfb Hf) in Hb. congruence.
    + rewrite log_other in Ha by (by rewrite Hlen). destruct (Hp a o Ha Hbad) as (s & g & Hs & -> & Hg). exists s, g. split; [done|]. split; [done|].
      rewrite pte_remap_other; [done|]. apply (mapped_other buf ss a s); eauto.
  - intros s Hb Hs. rewrite pte_remap_other.
    + apply Hr; [done|]. intros a o Ha. apply (Hs a o). by apply log_keeps.
    + intros Hin. apply list_elem_of_lookup in Hin as [i Hi]. destruct (Forall2_lookup_r _ _ _ _ _ Hm Hi) as (b & Hbi & Hfb).
      destruct (log !! b) as [o|] eqn:Elog; [apply (Hs b o); [by apply log_keeps|done]|]. eapply Hs; [by eapply Hadd|done].
Qed.

(** A call that fails, with anything in its records. *)
Lemma recorded_failed m0 m log bad buf (n : nat) ps m' : recorded m0 (mkZc m log bad) -> aligned buf -> length ps = n ->
  (forall s, (forall a, a ∈ addrs buf n -> find_pte k a <> inr s) -> pte m' s = pte m s) ->
  recorded m0 (mkZc m' (log_pages log buf ps) (addrs buf n ++ bad)).
Proof.
  intros [Hba Hla Hp Hr] Hal Hl Hm. cbn [tables records failed] in *. split; cbn [tables records failed].
  - intros a [Ha|Ha]%elem_of_app; [by eapply addrs_aligned|by apply Hba].
  - intros a o Ha. destruct (decide (a ∈ addrs buf n)) as [Hin|Hin]; [by eapply addrs_aligned|]. rewrite log_other in Ha by (by rewrite Hl). by eapply Hla.
  - intros a o Ha [Hn Hbad]%not_elem_of_app. rewrite log_other in Ha by (by rewrite Hl). destruct (Hp a o Ha Hbad) as (s & g & Hs & Ho & Hg). exists s, g.
    split; [done|]. split; [done|]. rewrite Hm; [done|]. intros b Hb Hfb. apply Hn.
    by rewrite (aligned_inj a b s (Hla _ _ Ha) (addrs_aligned _ _ _ Hal Hb) Hs Hfb).
  - intros s Hb Hs. rewrite Hm by (intros a Ha; apply Hb, elem_of_app; by left). apply Hr.
    + intros a Ha. apply Hb, elem_of_app. by right.
    + intros a o Ha. apply (Hs a o). by apply log_keeps.
Qed.

Lemma recorded_step m0 x y : recorded m0 x -> zc_step x y -> recorded m0 y.
Proof.
  intros Hx Hs. destruct Hs as [kok junk m log bad buf fs r m' log' Hal H0 H1 Hj E]. unfold map_and_return_pages in E. unfold map_physv in *. destruct kok.
  2: { cbn [fst default Z.eqb] in *. destruct (log_mapping log buf junk) as [l|] eqn:El; [|done]. cbn in E. simplify_eq.
       apply log_mapping_pages in El as ->; [|done|by rewrite Hj]. by apply (recorded_failed m0 m'). }
  pose proof (map_loop_other m buf fs) as Ho. destruct (map_loop M k m buf fs) as [[ret olds] m1] eqn:Em. cbn [snd] in Ho. destruct (Z.eqb_spec ret 0) as [->|Hne]; cbn [fst default] in *.
  - destruct (map_loop_zero _ _ _ _ _ Em) as (ss & Hm & Hl). rewrite Hl in H1. rewrite (map_loop_ok m buf ss fs (mapped_NoDup buf ss H0 H1 Hm) Hm Hl) in Em. simplify_eq.
    destruct (log_mapping log buf _) as [l|] eqn:El; [|done]. cbn in E. simplify_eq. cbn [from_option id] in El. apply log_mapping_pages in El as ->; [|done|by rewrite length_fmap].
    by apply recorded_mapped.
  - destruct (log_mapping log buf junk) as [l|] eqn:El; [|done]. cbn in E. simplify_eq. apply log_mapping_pages in El as ->; [|done|by rewrite Hj].
    rewrite (proj2 (Z.eqb_neq _ _) Hne). by apply (recorded_failed m0 m).
Qed.

(** [resume_mapping] changes the frames of the recorded pages only. *)
Lemma map_phys_pte m v s f : find_pte k v = inr s -> forall s', pte (snd (map_phys M k m v f)) s' = if decide (s' = s) then with_frame M (pte m s) f else pte m s'.
Proof.
  intros H s'. unfold map_phys, do_map_phys. rewrite H. cbn [snd]. change (pte (flush_tlb ?m) s') with (pte m s'). case_decide; [subst; apply pte_set_eq|by apply pte_set_ne].
Qed.

Lemma resume_cons m a o es : resume_mapping M k m ((a, o) :: es) = resume_mapping M k (if negb (o =? 0) then snd (map_phys M k m a o) else m) es.
Proof. done. Qed.

Lemma resume_app m l1 l2 : resume_mapping M k m (l1 ++ l2) = resume_mapping M k (resume_mapping M k m l1) l2.
Proof. apply foldl_app. Qed.

Lemma resume_other m entries s : (forall a o s', (a, o) ∈ entries -> find_pte k a = inr s' -> s' <> s) -> pte (resume_mapping M k m entries) s = pte m s.
Proof.
  revert m. induction entries as [|[a o] es IH]; intros m H; [done|]. rewrite resume_cons.
  rewrite IH by (intros; eapply H; [by right|done]). case_match; [|done]. destruct (find_pte k a) as [e|s'] eqn:E.
  - unfold map_phys, do_map_phys. by rewrite E.
  - rewrite (map_phys_pte _ _ s') by done. rewrite decide_False; [done|]. intros ->. by apply (H a o s'); [left|done|].
Qed.

Lemma resume_hit m entries a o s : NoDup entries.*1 -> (forall b p, (b, p) ∈ entries -> aligned b) -> (a, o) ∈ entries -> find_pte k a = inr s ->
  pte (resume_mapping M k m entries) s = if o =? 0 then pte m s else with_frame M (pte m s) o.
Proof.
  intros Hnd Hal Hin Hs. apply list_elem_of_split in Hin as (l1 & l2 & ->). rewrite fmap_app, fmap_cons in Hnd. apply NoDup_app in Hnd as (_ & Hd & Hnd).
  apply NoDup_cons in Hnd as [Hn2 _]. cbn [fst] in *. assert (Ha : aligned a) by (apply (Hal a o); set_solver).
  assert (Hne : forall l, (forall p, p ∈ l -> p ∈ l1 ++ (a, o) :: l2) -> a ∉ l.*1 -> forall b p s', (b, p) ∈ l -> find_pte k b = inr s' -> s' <> s).
  { intros l Hsub Hl b p s' Hb Hf ->. apply Hl. rewrite (aligned_inj a b s Ha (Hal _ _ (Hsub _ Hb)) Hs Hf). apply list_elem_of_fmap. by exists (b, p). }
  rewrite resume_app, resume_cons.
  rewrite resume_other by (apply (Hne l2); [set_solver|done]). assert (E1 : pte (resume_mapping M k m l1) s = pte m s).
  { apply resume_other. apply (Hne l1); [set_solver|]. intros H. apply (Hd a H). left. }
  destruct (Z.eqb_spec o 0); cbn [negb]; [done|]. rewrite (map_phys_pte _ _ s) by done. by rewrite decide_True, E1 by done.
Qed.

Lemma map_physv_length kok m v fs ret olds m' : map_physv M k kok m v fs = (ret, Some olds, m') -> length olds = length fs.
Proof.
  unfold map_physv. destruct kok; [|done]. destruct (map_loop M k m v fs) as [[r os] m1] eqn:Em. destruct (Z.eqb_spec r 0) as [->|]; [|done]. intros; simplify_eq.
  revert m v olds m1 Em. induction fs as [|f fs IH]; intros m v olds m1 Em; cbn [map_loop] in Em; [by simplify_eq|]. unfold do_map_phys in Em.
  destruct (find_pte k v) as [e|s] eqn:Ef; [simplify_eq; by apply find_pte_error in Ef|].
  destruct (map_loop M k _ _ fs) as [[r' os'] m3] eqn:El. simplify_eq. simpl. f_equal. by eapply IH.
Qed.

Lemma map_and_return_some kok junk m log buf fs : length junk = length fs -> Z.of_nat (length fs) <= 2 ^ 19 -> is_Some (map_and_return_pages M k kok junk m log buf fs).
Proof.
  intros Hj Hn. unfold map_and_return_pages. destruct (map_physv M k kok m buf fs) as [[ret olds] m'] eqn:E.
  assert (Hl : length (default junk olds) = length fs) by (destruct olds; [by eapply map_physv_length|done]).
  assert (Hs : is_Some (log_mapping log buf (default junk olds))) by (apply log_loop_some; rewrite Hl; unfold PAGE_SIZE; lia).
  destruct Hs as [l El]. cbv zeta. rewrite El. by eexists.
Qed.

(** C36: after any calls of [map_and_return_pages] with aligned buffers that do not
    wrap around the end of the addresses, [resume_mapping] puts back every page
    whose original frame is not zero, in whatever order the recorded pages are
    enumerated, except the pages of buffers for which [map_physv] failed: the
    result is ignored there and what [malloc] returned is recorded
    ([failed_map_recorded]).  A call with up to 2^19 pages gets through; with more
    the offset overflows. *)
Theorem resume_restores m0 m log bad entries : rtc zc_step (mkZc m0 ∅ []) (mkZc m log bad) -> Permutation entries (map_to_list log) ->
  (forall s, (forall a, a ∈ bad -> find_pte k a <> inr s) -> frame M (pte m0 s) <> 0 \/ pte m s = pte m0 s -> pte (resume_mapping M k m entries) s = pte m0 s)
  /\ forall kmalloc_ok junk buf fs, length junk = length fs -> Z.of_nat (length fs) <= 2 ^ 19 ->
       is_Some (map_and_return_pages M k kmalloc_ok junk m log buf fs).
Proof.
  intros Hst Hperm. split.
  2: { intros kok junk buf fs Hj Hn. by apply map_and_return_some. }
  intros s Hbad Hs. assert (Hrec : recorded m0 (mkZc m log bad)).
  { revert Hst. generalize (recorded_start m0). generalize (mkZc m0 ∅ []). intros x Hx Hst. induction Hst; [done|]. eauto using recorded_step. }
  destruct Hrec as [Hba Hla Hp Hr]. cbn [tables records failed] in *.
  assert (Hin : forall a o, (a, o) ∈ entries <-> log !! a = Some o) by (intros a o; rewrite Hperm; apply elem_of_map_to_list).
  assert (Hnd : NoDup entries.*1) by (rewrite Hperm; apply NoDup_fst_map_to_list).
  assert (Hal : forall b p, (b, p) ∈ entries -> aligned b) by (intros b p Hb; by apply (Hla b p), Hin).
  destruct (decide (Exists (fun x => find_pte k x.1 = inr s) entries)) as [He|He].
  - apply Exists_exists in He as ([a o] & Ha & Hf). cbn [fst] in Hf. rewrite (resume_hit m entries a o s) by done.
    destruct (Hp a o (proj1 (Hin a o) Ha)) as (s' & f & Hs' & -> & E); [intros Hb; by apply (Hbad a Hb)|]. rewrite Hs' in Hf. injection Hf as ->.
    destruct (Z.eqb_spec (frame M (pte m0 s)) 0); [by destruct Hs|]. rewrite E, with_with. apply with_own.
  - assert (Hno : forall a o, (a, o) ∈ entries -> find_pte k a <> inr s) by (intros a o Ha Hf; apply He, Exists_exists; by exists (a, o)).
    rewrite resume_other; [apply Hr; [done|intros a o Ha; by apply (Hno a o), Hin]|]. intros a o s' Ha Hf ->. by apply (Hno a o).
Qed.

End tables.

(** ** Allocation *)

Lemma order_from_least fuel o n : 0 <= o -> (forall j, 0 <= j < o -> 2 ^ j < n) -> n <= 2 ^ (o + Z.of_nat fuel - 1) -> (0 < fuel)%nat ->
  exists r, order_from fuel o n = Some r /\ o <= r /\ n <= 2 ^ r /\ forall j, 0 <= j < r -> 2 ^ j < n.
Proof.
  revert o. induction fuel as [|fuel IH]; intros o H0 Hj Hn Hf; [lia|]. cbn [order_from]. rewrite Z.shiftl_1_l. destruct (Z.ltb_spec (2 ^ o) n) as [H|H]; [|by exists o].
  destruct fuel as [|fuel]. { replace (o + Z.of_nat 1 - 1) with o in Hn by lia. lia. }
  destruct (IH (o + 1)) as (r & E & Hr & Hn' & Hl); [lia| |by replace (o + 1 + Z.of_nat (S fuel) - 1) with (o + Z.of_nat (S (S fuel)) - 1) by lia|lia|exists r; split; [done|]; repeat split; [lia|done|done]].
  intros j Hj'. destruct (decide (j = o)) as [->|]; [done|]. apply Hj. lia.
Qed.

(** [alloc_phys] asks for the least power of two that is enough, and refuses what
    is more than the largest. *)
Lemma alloc_phys_order alloc_pages n : n <= 2 ^ 31 ->
  exists r, n <= 2 ^ r /\ (forall j, 0 <= j < r -> 2 ^ j < n) /\ alloc_phys alloc_pages n = Some (if n <=? 2 ^ MAX_ORDER then sys_alloc_phys alloc_pages r else -2).
Proof.
  intros Hn. destruct (order_from_least 32 0 n) as (r & E & H0 & Hr & Hl); [lia|lia|done|lia|]. exists r. split; [done|]. split; [done|]. unfold alloc_phys. rewrite E. cbn [mbind option_bind].
  f_equal. destruct (Z.ltb_spec MAX_ORDER r) as [H|H], (Z.leb_spec n (2 ^ MAX_ORDER)) as [H'|H']; try done.
  - specialize (Hl MAX_ORDER). unfold MAX_ORDER in *. lia.
  - assert (2 ^ r <= 2 ^ MAX_ORDER) by (apply Z.pow_le_mono_r; lia). lia.
Qed.

(** More pages than 2^31 shift by 32. *)
Lemma alloc_phys_shift alloc_pages : alloc_phys alloc_pages (2 ^ 31 + 1) = None.
Proof. reflexivity. Qed.

(** ** A concrete table: sixteen pages with entries at the start of memory *)

Definition demo_mask : Z := 2 ^ 52 - 2 ^ 12.
Definition demo_walk : walk :=
  mkWalk (fun _ => false) (fun _ => false) (fun _ => false) (fun _ => false) (fun v => if (0 <=? v) && (v <? 65536) then Some (v / PAGE_SIZE) else None).
(** Page [i] is in frame [i + 1], writable and present. *)
Definition demo_mm : mm := mkMm (list_to_map ((fun i => (i, (i + 1) * 4096 + 3)) <$> seqZ 0 16)) 0.

Lemma demo_inj v v' s : pte_offset_map demo_walk v = Some s -> pte_offset_map demo_walk v' = Some s -> v / PAGE_SIZE = v' / PAGE_SIZE.
Proof. cbn. repeat case_match; congruence. Qed.

Lemma demo_mapped : mapped demo_walk 8192 [2; 3].
Proof. unfold mapped. repeat (constructor; [vm_compute; reflexivity|]). constructor. Qed.

Lemma map_physv_swaps_witness :
  exists m1 m2, map_physv demo_mask demo_walk true demo_mm 8192 [20 * 4096; 30 * 4096] = (0, Some (snd (virt2physv demo_mask demo_walk true demo_mm 8192 2)), m1)
    /\ snd (virt2physv demo_mask demo_walk true m1 8192 2) = frame demo_mask <$> [20 * 4096; 30 * 4096]
    /\ (forall s, pte m1 s = with_frame demo_mask (pte demo_mm s) (frame demo_mask (pte m1 s))) /\ (forall s, s ∉ [2; 3] -> pte m1 s = pte demo_mm s)
    /\ map_physv demo_mask demo_walk true m1 8192 (snd (virt2physv demo_mask demo_walk true demo_mm 8192 2)) = (0, Some (frame demo_mask <$> [20 * 4096; 30 * 4096]), m2)
    /\ forall s, pte m2 s = pte demo_mm s.
Proof. apply (map_physv_swaps demo_mask demo_walk demo_inj demo_mm 8192 [2; 3]); [lia|unfold PAGE_SIZE; simpl; lia|exact demo_mapped|reflexivity]. Defined.

(** Two pages arrive, then two pages for a buffer at the end of the mapped ones,
    of which only the first has an entry. *)
Definition demo_junk : list Z := [99 * 4096; 98 * 4096].
Definition demo_m1 : mm := snd (map_physv demo_mask demo_walk true demo_mm 8192 [20 * 4096; 30 * 4096]).
Definition demo_log1 : mappings := list_to_map [(8192, 3 * 4096); (12288, 4 * 4096)].
Definition demo_m2 : mm := snd (map_physv demo_mask demo_walk true demo_m1 61440 [40 * 4096; 50 * 4096]).
Definition demo_log2 : mappings := list_to_map [(61440, 99 * 4096); (65536, 98 * 4096); (8192, 3 * 4096); (12288, 4 * 4096)].

Lemma demo_receive : rtc (zc_step demo_mask demo_walk) (mkZc demo_mm ∅ []) (mkZc demo_m2 demo_log2 [61440; 65536]).
Proof.
  assert (E1 : map_and_return_pages demo_mask demo_walk true demo_junk demo_mm ∅ 8192 [20 * 4096; 30 * 4096] = Some ([3 * 4096; 4 * 4096], demo_m1, demo_log1)) by (vm_compute; reflexivity).
  assert (E2 : map_and_return_pages demo_mask demo_walk true demo_junk demo_m1 demo_log1 61440 [40 * 4096; 50 * 4096] = Some (demo_junk, demo_m2, demo_log2)) by (vm_compute; reflexivity).
  apply (zc_receive demo_mask demo_walk true demo_junk _ _ []) in E1; [|reflexivity|lia|vm_compute; discriminate|reflexivity].
  apply (zc_receive demo_mask demo_walk true demo_junk _ _ []) in E2; [|reflexivity|lia|vm_compute; discriminate|reflexivity].
  replace (_ ++ _) with (@nil Z) in E1 by (vm_compute; reflexivity). replace (_ ++ _) with [61440; 65536] in E2 by (vm_compute; reflexivity).
  eapply rtc_l; [exact E1|]. by apply rtc_once.
Qed.

Lemma resume_restores_witness : pte (resume_mapping demo_mask demo_walk demo_m2 (map_to_list demo_log2)) 2 = 3 * 4096 + 3.
Proof.
  apply (resume_restores demo_mask demo_walk demo_inj demo_mm demo_m2 demo_log2 [61440; 65536]); [exact demo_receive|reflexivity| |left; vm_compute; discriminate].
  intros a Ha. apply elem_of_cons in Ha as [->|Ha]; [vm_compute; discriminate|]. apply list_elem_of_singleton in Ha as ->. vm_compute. discriminate.
Defined.

(** When [map_physv] fails, what [malloc] returned is recorded, and at the end
    [resume_mapping] gives the page that frame. *)
Lemma failed_map_recorded : pte demo_mm 15 = 16 * 4096 + 3
  /\ pte (resume_mapping demo_mask demo_walk demo_m2 (map_to_list demo_log2)) 15 = 99 * 4096 + 3.
Proof. split; vm_compute; reflexivity. Qed.

(** For page 2^19 the offset in [log_mapping] is more than an [int] has. *)
Lemma log_mapping_overflows log buf p ps : log_loop log buf (2 ^ 19) (p :: ps) = None.
Proof. reflexivity. Qed.

(** ** Limits of the calls *)

(** The number that [alloc_phys] returns is not the address that [map_phys]
    takes: its frame bits are those of another frame. *)
Lemma pfn_is_not_address pfn : 0 < pfn < 2 ^ 40 -> frame demo_mask pfn <> frame demo_mask (pfn * PAGE_SIZE).
Proof.
  intros H E. set (j := Z.log2 pfn). pose proof (Z.log2_nonneg pfn) as Hj. assert (Hj40 : j < 40) by (apply Z.log2_lt_pow2; lia).
  apply (f_equal (fun x => Z.testbit x (j + 12))) in E. unfold frame in E. change demo_mask with (Z.shiftl (Z.ones 40) 12) in E.
  change PAGE_SIZE with (2 ^ 12) in E. rewrite <- Z.shiftl_mul_pow2 in E by lia. rewrite !Z.land_spec, !Z.shiftl_spec in E by (fold j in Hj; lia).
  rewrite (Z.bits_above_log2 pfn (j + 12)) in E by (fold j in Hj |- *; lia). replace (j + 12 - 12) with j in E by lia.
  rewrite Z.ones_spec_low in E by (fold j in Hj; lia). unfold j in E. rewrite Z.bit_log2 in E by lia. done.
Qed.

(** More than sixteen pages overrun the array on the kernel's stack. *)
Lemma virt2phys16_overruns m v n : 16 < n -> virt2phys16 demo_mask demo_walk m v n = None.
Proof. intros H. unfold virt2phys16. by rewrite (proj2 (Z.leb_gt _ _) H). Qed.

(** [map_phys] returns an error as a frame that a caller cannot tell from one, and
    [do_virt2phys] returns it as a large address. *)
Lemma virt2phys_error_value : virt2phys demo_mask demo_walk demo_mm 65536 = 2 ^ 64 - 5.
Proof. reflexivity. Qed.

End KernelPages.
