(* ===== verification/DaemonRun.v ===== *)
(** * A run of the monitor daemon

    The rest of [src/monitor/main.cpp]: the notifications for systemd, the pid
    file, the loop over the poll set with its index, and [main] from the command
    line to the exit status.  The calls that change something outside the
    process are recorded in order; what the system answers is an argument. *)

From Stdlib Require Import ZArith Lia Ascii.
From stdpp Require Import strings gmap numbers base list sorting.
From S2P Require Import Prelude Text MonitorIpc ShmHandshake Config Log Metrics Monitor.

Module DaemonRun.
Import Text Ipc Handshake Monitor.

Inductive call :=
  | Opened (fd : Z) | Closed (fd : Z)
  | Made (path : string) | Unlinked (path : string) | Mkdir (path : string) | Chmod (path : string)
  | Listening (fd : Z) | Nonblocking (fd : Z)
  | Wrote (fd : Z) (s : string) | Sent (fd : Z) (sun_path body : string).

(** ** Notifications and the pid file *)

Fixpoint zeros (n : nat) : string := match n with O => "" | S n => String zero (zeros n) end.

(** The 108 bytes of the address; [strncpy] leaves the rest zero. *)
Definition sun_path (sock : string) : string :=
  let s := match sock with
           | String "@" rest => String zero (String.substring 0 106 rest)
           | _ => String.substring 0 107 sock
           end in
  s +:+ zeros (108 - String.length s).

(** Both functions are this one with their message. *)
Definition sd_notify (env : string -> option string) (socket_r : Z) (body : string) : list call :=
  match env "NOTIFY_SOCKET" with
  | None | Some "" => []
  | Some sock => if socket_r <? 0 then [] else [Opened socket_r; Sent socket_r (sun_path sock) body; Closed socket_r]
  end.

Definition newline : string := String "010" "".

Definition sd_notify_ready (env : string -> option string) (socket_r : Z) (status_msg : string) : list call :=
  sd_notify env socket_r
    ("READY=1" +:+ newline +:+ (if String.eqb status_msg "" then "" else "STATUS=" +:+ status_msg +:+ newline)).

Definition sd_notify_stopping (env : string -> option string) (socket_r : Z) : list call :=
  sd_notify env socket_r ("STOPPING=1" +:+ newline).

Definition write_pid_file (path : string) (open_r write_r pid : Z) : bool * list call :=
  if String.eqb path "" then (true, [])
  else if open_r <? 0 then (false, [])
  else
    let buf := dec_d pid +:+ newline in
    (write_r =? Z.of_nat (String.length buf), [Opened open_r; Made path; Wrote open_r buf; Closed open_r]).

(** The directory of the control socket: what is before the last slash. *)
Fixpoint before_last (c : ascii) (s : string) : option string :=
  match s with
  | "" => None
  | String x s =>
      match before_last c s with
      | Some p => Some (String x p)
      | None => if Ascii.eqb x c then Some "" else None
      end
  end.

Definition make_parent (path : string) : list call :=
  match before_last "/" path with
  | None | Some "" => []
  | Some parent => [Mkdir parent]
  end.

Definition of_unix (fd : Z) (c : unix_call) : list call :=
  match c with
  | USocket => [Opened fd]
  | UConnect _ _ => []
  | UBind _ path => [Made path]
  | UListen fd _ => [Listening fd]
  | UUnlink path => [Unlinked path]
  | UClose fd => [Closed fd]
  end.

(** ** One round over the poll set *)

(** What the kernel has for the entry of [fd]: the code looks at the control
    socket first, then at the signal descriptor. *)
Definition answers (ctl sig fd : Z) (e : event) : bool :=
  match e with
  | EvAccept _ => fd =? ctl
  | EvSignal _ => negb (fd =? ctl) && (fd =? sig)
  | EvConn c _ _ => negb (fd =? ctl) && negb (fd =? sig) && (fd =? c)
  end.

Definition revents (ctl sig : Z) (es : list event) (fd : Z) : option event := List.find (answers ctl sig fd) es.

Fixpoint erase_entry (fd : Z) (polls : list (Z * option event)) : list (Z * option event) :=
  match polls with
  | [] => []
  | p :: polls => if p.1 =? fd then polls else p :: erase_entry fd polls
  end.

Definition accept_calls (new closed : list Z) : list call :=
  concat ((fun c => [Opened c; Closed c]) <$> closed) ++ (Opened <$> new).

(** The loop with index [i].  An accepted descriptor is appended with nothing to
    report; after a closed one the index stays, for [--i] and [++i]. *)
Fixpoint scan (fuel : nat) (w : World) (i : nat) (d : Daemon) (polls : list (Z * option event)) (running : bool) (tr : list call)
    : option (Daemon * list Z * bool * list call) :=
  match fuel with
  | O => None
  | S fuel =>
      match polls !! i with
      | None => Some (d, polls.*1, running, tr)
      | Some (_, None) => scan fuel w (S i) d polls running tr
      | Some (_, Some (EvAccept rs)) =>
          '(d, fds, closed) ← accept_loop d polls.*1 [] rs;
          let new := drop (length polls) fds in
          scan fuel w (S i) d (polls ++ ((fun c => (c, None)) <$> new)) running (tr ++ accept_calls new closed)
      | Some (_, Some (EvSignal sigs)) =>
          let '(d, running) := signal_loop w d running sigs in scan fuel w (S i) d polls running tr
      | Some (_, Some (EvConn fd rs ws)) =>
          '(keep, d, _) ← drain_ctl_conn w d fd rs ws;
          if keep : bool then scan fuel w (S i) d polls running tr
          else scan fuel w i (close_ctl_conn d fd polls.*1).1 (erase_entry fd polls) running (tr ++ [Closed fd])
      end
  end.

(** An entry is one turn, and one for each descriptor it may add. *)
Definition entry_turns (p : Z * option event) : nat :=
  match p.2 with Some (EvAccept rs) => S (length rs) | _ => 1 end.
Definition turns (polls : list (Z * option event)) : nat := sum_list_with entry_turns polls.

(** ** The event loop *)

Inductive poll_r := PFail (e : errno) | PReady (w : World) (es : list event).

Fixpoint event_loop (ctl sig : Z) (d : Daemon) (fds : list Z) (tr : list call) (prs : list poll_r) : option (Daemon * list call) :=
  match prs with
  | [] => None
  | PFail e :: prs => if bool_decide (e = EINTR) then event_loop ctl sig d fds tr prs else Some (d, tr)
  | PReady w es :: prs =>
      let polls := (fun fd => (fd, revents ctl sig es fd)) <$> fds in
      '(d, fds, running, tr) ← scan (S (turns polls)) w 0 d polls true tr;
      if running : bool then event_loop ctl sig d fds tr prs else Some (d, tr)
  end.

(** ** [main] *)

Record Answers := mkAnswers {
  socket_r : Z + errno; bind_r : option errno; listen_r : option errno;
  signalfd_r : Z; open_r : Z; write_r : Z; ready_socket_r : Z; stop_socket_r : Z }.

(** The connections are closed in the order of the map. *)
Definition shutdown (env : string -> option string) (d : Daemon) (ctl sig stop_r : Z) : list call :=
  sd_notify_stopping env stop_r
  ++ (Closed <$> merge_sort Z.le (elements (dom (ctl_conns d))))
  ++ [Closed ctl; Unlinked (control_socket_path d)]
  ++ [Closed sig]
  ++ (if String.eqb (pid_file_path d) "" then [] else [Unlinked (pid_file_path d)]).

(** The exit status and the calls; [None]: an answer is missing. *)
Definition main (w : World) (argv : list string) (rng : list Z) (lg : Log.Logger) (a : Answers) (prs : list poll_r) : option (Z * list call) :=
  match parse_args argv no_args with
  | inl status => Some (status, [])
  | inr args =>
      if show_help args then Some (0, [])
      else
        let d := start_daemon w args rng lg in
        let path := control_socket_path d in
        let '(r, us) := listen_unix path 16 (socket_r a) (bind_r a) (listen_r a) in
        let tr := make_parent path ++ match socket_r a with inl fd => concat (of_unix fd <$> us) | inr _ => [] end in
        match r with
        | inr _ => Some (1, tr)
        | inl ctl =>
            let tr := tr ++ [Chmod path; Nonblocking ctl] in
            let sig := signalfd_r a in
            if sig <? 0 then Some (1, tr)
            else
              let tr := tr ++ [Opened sig] ++ (write_pid_file (pid_file_path d) (open_r a) (write_r a) (getpid w)).2
                           ++ sd_notify_ready (getenv w) (ready_socket_r a) "ready" in
              '(d, tr) ← event_loop ctl sig d [ctl; sig] tr prs;
              Some (0, tr ++ shutdown (getenv w) d ctl sig (stop_socket_r a))
        end
  end.

(** ** The round serves every ready descriptor once *)

(** The events one after the other, without an index. *)
Fixpoint serve (w : World) (d : Daemon) (fds : list Z) (running : bool) (tr : list call) (es : list event)
    : option (Daemon * list Z * bool * list call) :=
  match es with
  | [] => Some (d, fds, running, tr)
  | EvAccept rs :: es =>
      '(d, fds', closed) ← accept_loop d fds [] rs;
      serve w d fds' running (tr ++ accept_calls (drop (length fds) fds') closed) es
  | EvSignal sigs :: es => let '(d, running) := signal_loop w d running sigs in serve w d fds running tr es
  | EvConn fd rs ws :: es =>
      '(keep, d, _) ← drain_ctl_conn w d fd rs ws;
      if keep : bool then serve w d fds running tr es
      else serve w (close_ctl_conn d fd fds).1 (close_ctl_conn d fd fds).2 running (tr ++ [Closed fd]) es
  end.

Lemma accept_loop_grows d fds closed rs d' fds' closed' : accept_loop d fds closed rs = Some (d', fds', closed') ->
  exists cs, fds' = fds ++ cs /\ (length cs <= length rs)%nat.
Proof.
  revert d fds closed. induction rs as [|[c ws|e] rs IH]; intros d fds closed H; [done|..]; cbn [accept_loop] in H.
  - destruct (draining d).
    + destruct (write_all _ ws); [|done]. apply IH in H as (cs & -> & Hl). exists cs. split; [done|]. simpl. lia.
    + apply IH in H as (cs & -> & Hl). exists (c :: cs). rewrite <- app_assoc. split; [done|]. simpl. lia.
  - case_bool_decide; [apply IH in H as (cs & -> & Hl); exists cs; split; [done|]; simpl; lia|]. simplify_eq. exists []. rewrite app_nil_r. split; [done|]. simpl. lia.
Qed.

Lemma erase_entry_fst fd polls : (erase_entry fd polls).*1 = erase_first fd polls.*1.
Proof. induction polls as [|[p e] polls IH]; [done|]. simpl. destruct (p =? fd); [done|]. by rewrite fmap_cons, IH. Qed.

Lemma erase_entry_at fd polls (i : nat) e : polls !! i = Some (fd, e) -> (forall k, (k < i)%nat -> polls.*1 !! k <> Some fd) ->
  erase_entry fd polls = take i polls ++ drop (S i) polls.
Proof.
  revert i. induction polls as [|[p e'] polls IH]; intros i Hi Hk; [done|]. destruct i as [|i]; simplify_eq/=; [by rewrite Z.eqb_refl|].
  destruct (Z.eqb_spec p fd) as [->|]; [by destruct (Hk 0%nat); [lia|]|]. rewrite (IH i) by (done || (intros k Hlt; apply (Hk (S k)); lia)). done.
Qed.

(** From index [i] on an entry with something to report is the first one of its
    descriptor. *)
Definition first_from (i : nat) (polls : list (Z * option event)) : Prop := forall j fd e, (i <= j)%nat -> polls !! j = Some (fd, Some e) ->
  (forall k, (k < j)%nat -> polls.*1 !! k <> Some fd) /\ match e with EvConn c _ _ => c = fd | _ => True end.

Lemma first_from_next i polls : first_from i polls -> first_from (S i) polls.
Proof. intros H j fd e Hj. apply H. lia. Qed.

Lemma first_from_app i polls cs : first_from i polls -> first_from i (polls ++ ((fun c => (c, None)) <$> cs)).
Proof.
  intros H j fd e Hj E. apply lookup_app_Some in E as [E|[_ E]]; [|rewrite list_lookup_fmap in E; by destruct (cs !! _)].
  destruct (H j fd e Hj E) as [H1 H2]. split; [|done]. intros k Hk. rewrite fmap_app, lookup_app_l; [by apply H1|].
  rewrite length_fmap. apply lookup_lt_Some in E. lia.
Qed.

Lemma first_from_erase i polls fd e : first_from i polls -> polls !! i = Some (fd, e) -> first_from i (take i polls ++ drop (S i) polls).
Proof.
  intros H Hi j fd' e' Hj E. pose proof (lookup_lt_Some _ _ _ Hi) as Hlt. assert (Ht : length (take i polls) = i) by (rewrite length_take; lia).
  rewrite lookup_app_r in E by lia. rewrite Ht, lookup_drop in E. replace (S i + (j - i))%nat with (S j) in E by lia.
  destruct (H (S j) fd' e' ltac:(lia) E) as [H1 H2]. split; [|done]. intros k Hk. rewrite fmap_app, fmap_take, fmap_drop.
  destruct (decide (k < i)%nat).
  - rewrite lookup_app_l by (rewrite length_take, length_fmap; lia). rewrite lookup_take_lt by done. apply H1. lia.
  - rewrite lookup_app_r by (rewrite length_take, length_fmap; lia). rewrite length_take, length_fmap, lookup_drop.
    replace (S i + (k - i `min` length polls))%nat with (S k) by lia. apply H1. lia.
Qed.

Lemma turns_cons p l : turns (p :: l) = (entry_turns p + turns l)%nat.
Proof. done. Qed.

Lemma entry_turns_pos p : (1 <= entry_turns p)%nat.
Proof. unfold entry_turns. repeat case_match; lia. Qed.

Lemma turns_app l k : turns (l ++ k) = (turns l + turns k)%nat.
Proof. unfold turns. induction l as [|p l IH]; simpl; [done|]. rewrite IH. lia. Qed.

Lemma turns_new cs : turns ((fun c : Z => (c, None)) <$> cs) = length cs.
Proof. unfold turns. induction cs as [|c cs IH]; [done|]. rewrite fmap_cons. simpl. by rewrite IH. Qed.

Lemma omap_new cs : omap snd ((fun c : Z => (c, None : option event)) <$> cs) = [].
Proof. by induction cs. Qed.

Lemma scan_serve fuel w i d polls running tr : first_from i polls -> (turns (drop i polls) < fuel)%nat ->
  scan fuel w i d polls running tr = serve w d polls.*1 running tr (omap snd (drop i polls)).
Proof.
  revert i d polls running tr. induction fuel as [|fuel IH]; intros i d polls running tr Hf Ht; [lia|]. cbn [scan].
  destruct (polls !! i) as [[fd [e|]]|] eqn:Hi.
  2: { rewrite (drop_S _ _ _ Hi) in Ht |- *. rewrite IH; [done|by apply first_from_next|]. rewrite turns_cons in Ht. unfold entry_turns in Ht. simpl in Ht. lia. }
  2: { apply lookup_ge_None in Hi. by rewrite drop_ge. }
  pose proof (drop_S _ _ _ Hi) as Hd. rewrite Hd in Ht |- *. cbn [omap list_omap snd]. destruct e as [rs|sigs|c rs ws]; cbn [serve].
  - rewrite length_fmap. destruct (accept_loop d polls.*1 [] rs) as [[[d1 fds] closed]|] eqn:E; [|done]. cbn [mbind option_bind].
    apply accept_loop_grows in E as (cs & -> & Hl). rewrite drop_app_length' by (by rewrite length_fmap).
    pose proof (lookup_lt_Some _ _ _ Hi) as Hlt.
    rewrite IH; [|by apply first_from_app, first_from_next|].
    + rewrite fmap_app, drop_app_le by lia. rewrite omap_app, omap_new, app_nil_r. f_equal. f_equal. rewrite <- list_fmap_compose. by rewrite list_fmap_id.
    + rewrite drop_app_le by lia. rewrite turns_app, turns_new. rewrite turns_cons in Ht. unfold entry_turns in Ht. simpl in Ht. lia.
  - destruct (signal_loop w d running sigs) as [d1 r1]. rewrite IH; [done|by apply first_from_next|]. rewrite turns_cons in Ht. pose proof (entry_turns_pos (fd, Some (EvSignal sigs))). lia.
  - destruct (Hf i fd _ ltac:(lia) Hi) as [Hfirst ->]. destruct (drain_ctl_conn w d fd rs ws) as [[[[] d1] out]|]; [| |done]; cbn [mbind option_bind].
    + rewrite IH; [done|by apply first_from_next|]. rewrite turns_cons in Ht. pose proof (entry_turns_pos (fd, Some (EvConn fd rs ws))). lia.
    + pose proof (lookup_lt_Some _ _ _ Hi) as Hlt. assert (Hdr : drop i (take i polls ++ drop (S i) polls) = drop (S i) polls) by (apply drop_app_length'; rewrite length_take; lia).
      rewrite IH.
      * rewrite erase_entry_fst. rewrite (erase_entry_at fd polls i _ Hi Hfirst), Hdr. done.
      * rewrite (erase_entry_at fd polls i _ Hi Hfirst). by eapply first_from_erase.
      * rewrite (erase_entry_at fd polls i _ Hi Hfirst), Hdr. rewrite turns_cons in Ht. pose proof (entry_turns_pos (fd, Some (EvConn fd rs ws))). lia.
Qed.

Lemma revents_answers ctl sig es fd e : revents ctl sig es fd = Some e -> answers ctl sig fd e = true.
Proof. intros H. by apply find_some in H as [_ H]. Qed.

Lemma first_from_start ctl sig es fds : NoDup fds -> first_from 0 ((fun fd => (fd, revents ctl sig es fd)) <$> fds).
Proof.
  intros Hnd j fd e _ E. rewrite list_lookup_fmap in E. destruct (fds !! j) as [x|] eqn:Ej; [|done]. simpl in E. injection E as -> E. split.
  - intros k Hk. rewrite <- list_fmap_compose. simpl. rewrite list_lookup_fmap. destruct (fds !! k) as [y|] eqn:Ek; [|done]. simpl. intros [= ->].
    pose proof (NoDup_lookup _ _ _ _ Hnd Ej Ek). lia.
  - apply revents_answers in E. destruct e as [| |c rs ws]; try done. unfold answers in E. destruct (Z.eqb_spec fd c); [done|]. by rewrite andb_false_r in E.
Qed.

Lemma omap_revents {A B} (g : A -> option B) (l : list A) : omap snd ((fun x => (x, g x)) <$> l) = omap g l.
Proof. induction l as [|x l IH]; [done|]. simpl. destruct (g x); [f_equal|]; exact IH. Qed.

Lemma scan_round w ctl sig d fds es running tr (polls := (fun fd => (fd, revents ctl sig es fd)) <$> fds) : NoDup fds ->
  scan (S (turns polls)) w 0 d polls running tr = serve w d fds running tr (omap (revents ctl sig es) fds).
Proof.
  intros Hnd. unfold polls. rewrite scan_serve by (first [by apply first_from_start | rewrite drop_0; lia]). rewrite drop_0, omap_revents, <- list_fmap_compose.
  rewrite (list_fmap_ext _ id) by done. by rewrite list_fmap_id.
Qed.

(** C25: a round of the event loop, although accepted connections are appended to
    the poll set and closed ones removed from it while the index runs over it,
    handles every descriptor that [poll] reported exactly once and in order, and
    nothing else; the turns given to the loop are enough. *)
Theorem round_serves_once w ctl sig d fds es running tr : NoDup fds ->
  let polls := (fun fd => (fd, revents ctl sig es fd)) <$> fds in
  scan (S (turns polls)) w 0 d polls running tr = serve w d fds running tr (omap (revents ctl sig es) fds).
Proof. apply scan_round. Qed.

(** ** Descriptors and files *)

(** Which descriptors are open after some calls. *)
Fixpoint open_after (S : gset Z) (tr : list call) : gset Z :=
  match tr with
  | [] => S
  | Opened fd :: tr => open_after ({[fd]} ∪ S) tr
  | Closed fd :: tr => open_after (S ∖ {[fd]}) tr
  | _ :: tr => open_after S tr
  end.

(** The kernel hands out descriptors that are not open. *)
Fixpoint fresh (S : gset Z) (tr : list call) : Prop :=
  match tr with
  | [] => True
  | Opened fd :: tr => (fd ∉ S) /\ fresh ({[fd]} ∪ S) tr
  | Closed fd :: tr => fresh (S ∖ {[fd]}) tr
  | _ :: tr => fresh S tr
  end.

(** Only open descriptors are closed. *)
Fixpoint closes_open (S : gset Z) (tr : list call) : Prop :=
  match tr with
  | [] => True
  | Opened fd :: tr => closes_open ({[fd]} ∪ S) tr
  | Closed fd :: tr => fd ∈ S /\ closes_open (S ∖ {[fd]}) tr
  | _ :: tr => closes_open S tr
  end.

(** The socket and the pid file among the files. *)
Fixpoint files_after (P : gset string) (tr : list call) : gset string :=
  match tr with
  | [] => P
  | Made p :: tr => files_after ({[p]} ∪ P) tr
  | Unlinked p :: tr => files_after (P ∖ {[p]}) tr
  | _ :: tr => files_after P tr
  end.

Lemma open_after_app S a b : open_after S (a ++ b) = open_after (open_after S a) b.
Proof. revert S. induction a as [|[] a IH]; intros S; simpl; by rewrite ?IH. Qed.

Lemma fresh_app S a b : fresh S (a ++ b) <-> fresh S a /\ fresh (open_after S a) b.
Proof. revert S. induction a as [|[] a IH]; intros S; simpl; rewrite ?IH; tauto. Qed.

Lemma closes_open_app S a b : closes_open S (a ++ b) <-> closes_open S a /\ closes_open (open_after S a) b.
Proof. revert S. induction a as [|[] a IH]; intros S; simpl; rewrite ?IH; tauto. Qed.

Lemma files_after_app P a b : files_after P (a ++ b) = files_after (files_after P a) b.
Proof. revert P. induction a as [|[] a IH]; intros P; simpl; by rewrite ?IH. Qed.

(** Calls that open and close a descriptor of their own, or none. *)
Lemma notify_calls env r body S : fresh S (sd_notify env r body) -> closes_open S (sd_notify env r body) /\ open_after S (sd_notify env r body) = S.
Proof. unfold sd_notify. repeat case_match; simpl; try done. intros [Hf _]. split; set_solver. Qed.

Lemma notify_files env r body P : files_after P (sd_notify env r body) = P.
Proof. unfold sd_notify. by repeat case_match. Qed.

Lemma pid_file_calls path r n pid S (t := (write_pid_file path r n pid).2) : fresh S t -> closes_open S t /\ open_after S t = S.
Proof.
  unfold t, write_pid_file. destruct (String.eqb path ""); [done|]. destruct (_ <? _); [done|]. simpl. intros [Hf _]. split; set_solver.
Qed.

Lemma pid_file_files path r n pid P (t := (write_pid_file path r n pid).2) : files_after P t = P \/ path <> "" /\ files_after P t = {[path]} ∪ P.
Proof.
  unfold t, write_pid_file. destruct (String.eqb_spec path ""); [by left|]. destruct (_ <? _); [by left|]. by right.
Qed.

Lemma make_parent_calls path : (forall S, fresh S (make_parent path) /\ closes_open S (make_parent path) /\ open_after S (make_parent path) = S)
  /\ forall P, files_after P (make_parent path) = P.
Proof. unfold make_parent. repeat case_match; simpl; repeat split; done. Qed.

(** *** What serving a request leaves alone *)

Definition same_paths (d d' : Daemon) : Prop :=
  control_socket_path d' = control_socket_path d /\ pid_file_path d' = pid_file_path d.

Lemma same_paths_trans d1 d2 d3 : same_paths d1 d2 -> same_paths d2 d3 -> same_paths d1 d3.
Proof. unfold same_paths. intros [-> ->] [-> ->]. done. Qed.

Lemma dispatch_paths w d req resp d' : dispatch w d req = Some (resp, d') -> same_paths d d'.
Proof.
  unfold dispatch. intros H. repeat match type of H with (if ?b then _ else _) = _ => destruct b end; simplify_eq; try (by split).
  - unfold op_reload in H. simplify_eq. by split.
  - unfold op_drain in H. simplify_eq. by split.
  - unfold op_shm_register in H. repeat case_match; simplify_eq; by split.
  - unfold op_shm_unregister in H. repeat case_match; simplify_eq; by split.
Qed.

Lemma serve_line_paths w d line resp d' : serve_line w d line = Some (resp, d') -> same_paths d d'.
Proof.
  unfold serve_line. destruct (decode_request line); [|by intros [= <- <-]]. intros H. apply dispatch_paths in H. exact H.
Qed.

Lemma drain_lines_paths fuel w d buf ws out d' : outcome_daemon (drain_lines fuel w d buf ws out).1 = Some d' -> same_paths d d'.
Proof.
  revert d buf ws out. induction fuel as [|fuel IH]; intros d buf ws out H; [done|].
  cbn [drain_lines] in H. destruct (split_line buf) as [[l r]|]; [|by simplify_eq/=].
  destruct (serve_line w d l) as [[resp d1]|] eqn:Es; [|done]. apply serve_line_paths in Es.
  destruct ws as [|x ws]; [done|]. destruct (write_all _ x) as [[[] sent]|]; [|by simplify_eq/=|done].
  eapply same_paths_trans; [done|]. by eapply IH.
Qed.

Lemma drain_reads_paths w d buf rs ws out d' : outcome_daemon (drain_reads w d buf rs ws out) = Some d' -> same_paths d d'.
Proof.
  revert d buf ws out. induction rs as [|r rs IH]; intros d buf ws out H; [done|]. cbn [drain_reads] in H.
  destruct r as [s| |e].
  - destruct (_ <? _); [by simplify_eq/=|]. pose proof (drain_lines_paths (S (String.length (buf +:+ s))) w d (buf +:+ s) ws out) as Hl.
    destruct (drain_lines _ _ _ _ _ _) as [[d1 b1 o1|d1 o1|] ws1]; simpl in Hl; [|simplify_eq/=; by apply Hl|done].
    eapply same_paths_trans; [by apply Hl|]. by eapply IH.
  - by simplify_eq/=.
  - case_bool_decide; [by simplify_eq/=|]. case_bool_decide; [by eapply IH|by simplify_eq/=].
Qed.

Lemma signal_loop_paths w d running sigs : same_paths d (signal_loop w d running sigs).1.
Proof.
  revert d running. induction sigs as [|s sigs IH]; intros d running; [done|].
  destruct s; cbn [signal_loop]; try apply IH. eapply same_paths_trans; [|apply IH]. done.
Qed.

(** A request is answered without touching the connections and the paths. *)
Lemma drain_ctl_conn_keeps w d fd rs ws keep d' out : is_Some (ctl_conns d !! fd) -> drain_ctl_conn w d fd rs ws = Some (keep, d', out) ->
  dom (ctl_conns d') = dom (ctl_conns d) /\ same_paths d d'.
Proof.
  intros Hfd. unfold drain_ctl_conn. pose proof (drain_reads_conns w d (default "" (ctl_conns d !! fd)) rs ws []) as Hc.
  pose proof (drain_reads_paths w d (default "" (ctl_conns d !! fd)) rs ws []) as Hp.
  destruct (drain_reads _ _ _ _ _ _) as [d1 b1 o1|d1 o1|]; intros [= <- <- <-]; destruct (Hc d1 eq_refl) as [E _]; specialize (Hp d1 eq_refl).
  - split; [|done]. cbn [set_conns ctl_conns]. rewrite dom_insert_L, E. apply elem_of_dom in Hfd. set_solver.
  - by rewrite E.
Qed.

(** Either all clients are turned away or all are kept. *)
Lemma accept_loop_spec d fds closed rs d' fds' closed' : accept_loop d fds closed rs = Some (d', fds', closed') ->
  exists cs, same_paths d d' /\ if draining d then d' = d /\ fds' = fds /\ closed' = closed ++ cs
             else dom (ctl_conns d') = list_to_set cs ∪ dom (ctl_conns d) /\ fds' = fds ++ cs /\ closed' = closed.
Proof.
  revert d fds closed. induction rs as [|[c ws|e] rs IH]; intros d fds closed H; [done|..]; cbn [accept_loop] in H.
  - destruct (draining d) eqn:Ed.
    + destruct (write_all _ ws); [|done]. apply IH in H as (cs & Hp & H). rewrite Ed in H. destruct H as (-> & -> & ->). exists (c :: cs). by rewrite <- app_assoc.
    + apply IH in H as (cs & Hp & H). cbn [draining publish_active set_metrics set_conns] in H. rewrite Ed in H. destruct H as (Hd & -> & ->).
      exists (c :: cs). split; [exact Hp|]. rewrite <- app_assoc. split; [|done]. rewrite Hd. cbn [ctl_conns publish_active set_metrics set_conns list_to_set].
      rewrite dom_insert_L. cbn [list_to_set]. set_solver.
  - case_bool_decide; [by eapply IH|]. simplify_eq. exists []. split; [done|]. rewrite !app_nil_r. destruct (draining d'); [done|]. split; [set_solver|done].
Qed.

Lemma opened_calls cs S : fresh S (Opened <$> cs) ->
  NoDup cs /\ (forall c, c ∈ cs -> c ∉ S) /\ closes_open S (Opened <$> cs) /\ open_after S (Opened <$> cs) = list_to_set cs ∪ S.
Proof.
  revert S. induction cs as [|c cs IH]; intros S H.
  - split_and!; [constructor|by intros ? ?%not_elem_of_nil|done|simpl; set_solver].
  - rewrite fmap_cons in *. destruct H as [Hc H]. destruct (IH _ H) as (Hnd & Hd & Hcl & Ho). cbn [closes_open open_after list_to_set]. rewrite Ho. split_and!.
    + apply NoDup_cons. split; [|done]. intros Hin. specialize (Hd c Hin). set_solver.
    + intros x [->|Hx]%elem_of_cons; [done|]. specialize (Hd x Hx). set_solver.
    + done.
    + set_solver.
Qed.

Lemma turned_calls cs S (t := concat ((fun c => [Opened c; Closed c]) <$> cs)) : fresh S t -> closes_open S t /\ open_after S t = S.
Proof.
  unfold t. clear t. induction cs as [|c cs IH]; intros H; [done|]. rewrite fmap_cons in *. cbn [concat app fresh closes_open open_after] in *.
  destruct H as [Hc H]. replace (({[c]} ∪ S) ∖ {[c]}) with S in * by set_solver. destruct (IH H). split; [|done]. split; [set_solver|done].
Qed.

Lemma accept_files P new closed : files_after P (accept_calls new closed) = P.
Proof.
  unfold accept_calls. rewrite files_after_app. assert (H : files_after P (concat ((fun c => [Opened c; Closed c]) <$> closed)) = P) by (by induction closed).
  rewrite H. by induction new.
Qed.

(** *** When the loop stops *)

Definition stop (e : event) : bool :=
  match e with EvSignal sigs => existsb (fun s => match s with SIGTERM | SIGINT => true | _ => false end) sigs | _ => false end.

Lemma signal_loop_running w d r sigs : (signal_loop w d r sigs).2 = r && negb (stop (EvSignal sigs)).
Proof.
  revert d r. induction sigs as [|s sigs IH]; intros d r; [by rewrite andb_true_r|]. destruct s; cbn [signal_loop]; rewrite IH; simpl; by rewrite ?andb_false_r.
Qed.

Lemma serve_running w d fds r tr es d' fds' r' tr' : serve w d fds r tr es = Some (d', fds', r', tr') -> r' = r && negb (existsb stop es).
Proof.
  revert d fds r tr. induction es as [|[rs|sigs|c rs ws] es IH]; intros d fds r tr H; cbn [serve] in H.
  - simplify_eq. by rewrite andb_true_r.
  - destruct (accept_loop _ _ _ _) as [[[d1 fds1] closed]|]; [|done]. by apply IH in H.
  - pose proof (signal_loop_running w d r sigs) as Hr. destruct (signal_loop w d r sigs) as [d1 r1]. cbn [snd] in Hr. apply IH in H as ->. subst r1.
    cbn [existsb]. by rewrite negb_orb, andb_assoc.
  - destruct (drain_ctl_conn _ _ _ _ _) as [[[[] d1] out]|]; [| |done]; by apply IH in H.
Qed.

(** A failure of [poll], or a signal to end. *)
Definition told (p : poll_r) : bool := match p with PFail e => bool_decide (e <> EINTR) | PReady _ es => existsb stop es end.

Lemma served_stop ctl sig es fds : existsb stop (omap (revents ctl sig es) fds) = true -> existsb stop es = true.
Proof.
  intros (e & He & Hs)%existsb_exists. apply list_elem_of_In, list_elem_of_omap in He as (fd & _ & He). apply find_some in He as [He _].
  apply existsb_exists. by exists e.
Qed.

Section tidy.
Context (S0 : gset Z) (ctl sig : Z) (d0 : Daemon).

(** Open are the two permanent descriptors and the connections. *)
Record tidy (S : gset Z) (d : Daemon) (fds : list Z) : Prop := {
  td_fds : exists cs, fds = ctl :: sig :: cs /\ forall fd, fd ∈ cs <-> fd ∈ dom (ctl_conns d);
  td_nodup : NoDup fds;
  td_open : S = {[ctl; sig]} ∪ dom (ctl_conns d) ∪ S0;
  td_apart : (ctl ∉ S0) /\ (sig ∉ S0) /\ dom (ctl_conns d) ## S0;
  td_paths : same_paths d0 d }.

Lemma daemon_tidy_same S d d' fds : tidy S d fds -> dom (ctl_conns d') = dom (ctl_conns d) -> same_paths d d' -> tidy S d' fds.
Proof. intros [? ? ? ? ?] E Hp. split; rewrite ?E; [done..|]. by eapply same_paths_trans. Qed.

Lemma tidy_accept S d fds rs d' fds' closed : accept_loop d fds [] rs = Some (d', fds', closed) ->
  let t := accept_calls (drop (length fds) fds') closed in tidy S d fds -> fresh S t -> closes_open S t /\ tidy (open_after S t) d' fds'.
Proof.
  intros H. destruct (accept_loop_spec _ _ _ _ _ _ _ H) as (cs & Hp & Hs). cbv zeta. unfold accept_calls. intros Hinv. destruct (draining d).
  - destruct Hs as (-> & -> & ->). rewrite drop_ge by done. cbn [fmap list_fmap]. rewrite app_nil_r. intros Hf. destruct (turned_calls _ _ Hf) as [Hc Ho]. by rewrite Ho.
  - destruct Hs as (Hd & -> & ->). rewrite drop_app_length. cbn [fmap list_fmap concat app]. intros Hf. destruct (opened_calls _ _ Hf) as (Hnd & Hn & Hc & Ho).
    split; [done|]. rewrite Ho. destruct Hinv as [(cs0 & -> & Hcs) Hnd0 -> (H1 & H2 & H3) Hp0]. split.
    + exists (cs0 ++ cs). split; [done|]. intros fd. rewrite elem_of_app, Hcs, Hd. rewrite elem_of_union, elem_of_list_to_set. tauto.
    + apply NoDup_app. split_and!; [done| |done]. intros x Hx Hx'. specialize (Hn x Hx'). rewrite !elem_of_cons, Hcs in Hx. set_solver.
    + rewrite Hd. set_solver.
    + split_and!; [done|done|]. rewrite Hd. intros x Hx Hx0. rewrite elem_of_union, elem_of_list_to_set in Hx. destruct Hx as [Hx|Hx]; [|by apply (H3 x)].
      specialize (Hn x Hx). set_solver.
    + by eapply same_paths_trans.
Qed.

Lemma tidy_close S d fds c : tidy S d fds -> c ∈ dom (ctl_conns d) ->
  closes_open S [Closed c] /\ tidy (open_after S [Closed c]) (close_ctl_conn d c fds).1 (close_ctl_conn d c fds).2.
Proof.
  intros [(cs & -> & Hcs) Hnd -> (H1 & H2 & H3) Hp] Hc. cbn [closes_open open_after close_ctl_conn fst snd].
  pose proof (proj2 (Hcs c) Hc) as Hin. apply NoDup_cons in Hnd as Hnd'. destruct Hnd' as [Hx Hnd']. apply NoDup_cons in Hnd' as [Hy Hnd'].
  assert (c <> ctl) by (intros ->; apply Hx; by right). assert (c <> sig) by (by intros ->).
  split; [set_solver|]. cbn [publish_active set_metrics set_conns ctl_conns]. split.
  - exists (erase_first c cs). split.
    + simpl. by rewrite (proj2 (Z.eqb_neq ctl c)), (proj2 (Z.eqb_neq sig c)) by done.
    + intros fd. rewrite erase_first_elem, Hcs by done. cbn [ctl_conns publish_active set_metrics set_conns]. rewrite dom_delete_L. set_solver.
  - by apply erase_first_nodup.
  - cbn [ctl_conns publish_active set_metrics set_conns]. rewrite dom_delete_L. set_solver.
  - split_and!; [done|done|]. cbn [ctl_conns publish_active set_metrics set_conns]. rewrite dom_delete_L. set_solver.
  - done.
Qed.

Definition conn_fd (e : event) : option Z := match e with EvConn c _ _ => Some c | _ => None end.

Lemma accept_loop_dom d fds closed rs d' fds' closed' : accept_loop d fds closed rs = Some (d', fds', closed') -> dom (ctl_conns d) ⊆ dom (ctl_conns d').
Proof. intros (cs & _ & H)%accept_loop_spec. destruct (draining d); [by destruct H as [-> _]|]. destruct H as [-> _]. set_solver. Qed.

Lemma serve_tidy w d fds r tr es d' fds' r' tr' : NoDup (omap conn_fd es) -> (forall c, c ∈ omap conn_fd es -> c ∈ dom (ctl_conns d)) ->
  serve w d fds r tr es = Some (d', fds', r', tr') ->
  exists t, tr' = tr ++ t /\ (forall P, files_after P t = P)
    /\ forall S, tidy S d fds -> fresh S t -> closes_open S t /\ tidy (open_after S t) d' fds'.
Proof.
  revert d fds r tr. induction es as [|[rs|sigs|c rs ws] es IH]; intros d fds r tr Hnd Hin H; cbn [serve] in H.
  - simplify_eq. exists []. rewrite app_nil_r. done.
  - destruct (accept_loop d fds [] rs) as [[[d1 fds1] closed]|] eqn:E; [|done]. cbn [mbind option_bind] in H.
    apply IH in H as (t & -> & Hfi & Ht); [|done|intros c Hc; by eapply (accept_loop_dom _ _ _ _ _ _ _ E), Hin].
    eexists (_ ++ t). rewrite app_assoc. split; [done|]. split; [intros P; by rewrite files_after_app, accept_files, Hfi|].
    intros S Hi [Hf1 Hf2]%fresh_app. destruct (tidy_accept _ _ _ _ _ _ _ E Hi Hf1) as [Hc1 Hi1]. destruct (Ht _ Hi1 Hf2) as [Hc2 Hi2].
    rewrite closes_open_app, open_after_app. done.
  - pose proof (signal_loop_conns w d r sigs) as [Hc _]. pose proof (signal_loop_paths w d r sigs) as Hp. destruct (signal_loop w d r sigs) as [d1 r1]. cbn [fst] in *.
    apply IH in H as (t & -> & Hfi & Ht); [|done|by rewrite Hc]. exists t. split; [done|]. split; [done|]. intros S Hi. apply Ht. eapply daemon_tidy_same; [done|by rewrite Hc|done].
  - assert (Hcd : c ∈ dom (ctl_conns d)) by (apply Hin; by left). destruct (drain_ctl_conn w d c rs ws) as [[[keep d1] out]|] eqn:E; [|done]. cbn [mbind option_bind] in H.
    destruct (drain_ctl_conn_keeps _ _ _ _ _ _ _ _ (proj1 (elem_of_dom _ _) Hcd) E) as [Hd Hp].
    change (omap conn_fd (EvConn c rs ws :: es)) with (c :: omap conn_fd es) in *. apply NoDup_cons in Hnd as [Hn Hnd].
    destruct keep.
    + apply IH in H as (t & -> & Hfi & Ht); [|done|rewrite Hd; intros x Hx; apply Hin; by right]. exists t. split; [done|]. split; [done|].
      intros S Hi. apply Ht. by eapply daemon_tidy_same.
    + apply IH in H as (t & -> & Hfi & Ht); [|done|].
      2: { intros x Hx. assert (x <> c) by (by intros ->). cbn [close_ctl_conn fst ctl_conns publish_active set_metrics set_conns]. rewrite dom_delete_L, Hd. specialize (Hin x ltac:(by right)). set_solver. }
      exists (Closed c :: t). rewrite <- app_assoc. split; [done|]. split; [done|]. intros S Hi Hf. change (Closed c :: t) with ([Closed c] ++ t) in *.
      rewrite closes_open_app, open_after_app. destruct (tidy_close S d1 fds c) as [Hc1 Hi1]; [by eapply daemon_tidy_same|by rewrite Hd|].
      destruct (Ht _ Hi1 Hf) as [Hc2 Hi2]. done.
Qed.

Lemma omap_step {A B} (g : A -> option B) x (l : list A) : omap g (x :: l) = match g x with Some y => y :: omap g l | None => omap g l end.
Proof. done. Qed.

(** The connections that are served are entries of the poll set. *)
Lemma served_entries es fds : NoDup fds -> NoDup (omap conn_fd (omap (revents ctl sig es) fds))
  /\ forall c, c ∈ omap conn_fd (omap (revents ctl sig es) fds) -> c ∈ fds /\ c <> ctl /\ c <> sig.
Proof.
  induction 1 as [|fd fds Hfd Hnd [IH1 IH2]]; [split; [constructor|by intros ? ?%not_elem_of_nil]|]. rewrite omap_step.
  assert (Hw : forall c, c ∈ omap conn_fd (omap (revents ctl sig es) fds) -> c ∈ fd :: fds /\ c <> ctl /\ c <> sig) by (intros c Hc; destruct (IH2 c Hc); split; [by right|done]).
  destruct (revents ctl sig es fd) as [e|] eqn:E; [|done]. apply revents_answers in E. rewrite omap_step. destruct e as [rs|sigs|c rs ws]; [done..|]. cbn [conn_fd answers] in *.
  apply andb_true_iff in E as [E ->%Z.eqb_eq]. apply andb_true_iff in E as [E1%negb_true_iff%Z.eqb_neq E2%negb_true_iff%Z.eqb_neq].
  split; [constructor; [|exact IH1]; intros Hc; by destruct (IH2 c Hc)|]. intros x [->|Hx]%elem_of_cons; [by split; [left|]|by apply Hw].
Qed.

(** The calls are added at the end and concern no file. *)
Lemma scan_prefix fuel w i d polls r tr d' fds' r' tr' : scan fuel w i d polls r tr = Some (d', fds', r', tr') ->
  exists t, tr' = tr ++ t /\ forall P, files_after P t = P.
Proof.
  revert i d polls r tr. induction fuel as [|fuel IH]; intros i d polls r tr H; cbn [scan] in H; [done|].
  destruct (polls !! i) as [[fd [[rs|sigs|c rs ws]|]]|]; [..|by apply IH in H|simplify_eq; exists []; by rewrite app_nil_r].
  - destruct (accept_loop _ _ _ _) as [[[d1 fds1] closed]|]; [|done]. apply IH in H as (t & -> & Ht). eexists (_ ++ t). rewrite app_assoc. split; [done|].
    intros P. by rewrite files_after_app, accept_files, Ht.
  - destruct (signal_loop w d r sigs). by apply IH in H.
  - destruct (drain_ctl_conn _ _ _ _ _) as [[[[] d1] out]|]; [by apply IH in H| |done]. apply IH in H as (t & -> & Ht). exists (Closed c :: t). by rewrite <- app_assoc.
Qed.

Lemma event_loop_prefix d fds tr prs d' tr' : event_loop ctl sig d fds tr prs = Some (d', tr') -> exists t, tr' = tr ++ t /\ forall P, files_after P t = P.
Proof.
  revert d fds tr. induction prs as [|[e|w es] prs IH]; intros d fds tr H; cbn [event_loop] in H; [done|..].
  - case_bool_decide; [by apply IH in H|]. simplify_eq. exists []. by rewrite app_nil_r.
  - destruct (scan _ _ _ _ _ _ _) as [[[[d1 fds1] running] tr1]|] eqn:E; [|done]. cbn [mbind option_bind] in H. apply scan_prefix in E as (t1 & -> & H1).
    destruct running; [|simplify_eq; by exists t1]. apply IH in H as (t2 & -> & H2). exists (t1 ++ t2). rewrite app_assoc. split; [done|].
    intros P. by rewrite files_after_app, H1, H2.
Qed.

Lemma event_loop_tidy d fds tr prs d' t S : event_loop ctl sig d fds tr prs = Some (d', tr ++ t) -> tidy S d fds -> fresh S t ->
  closes_open S t /\ (exists fds', tidy (open_after S t) d' fds') /\ Exists (fun p => told p = true) prs.
Proof.
  revert d fds tr t S. induction prs as [|[e|w es] prs IH]; intros d fds tr t S H Hi Hf; cbn [event_loop] in H; [done|..].
  - case_bool_decide as He; [destruct (IH _ _ _ _ _ H Hi Hf) as (? & ? & ?); split_and!; [done|done|by right]|]. injection H as <- Ht.
    rewrite <- (app_nil_r tr) in Ht at 1. apply app_inv_head in Ht as <-. split; [done|]. split; [by exists fds|]. left. by apply bool_decide_true.
  - destruct (scan _ _ _ _ _ _ _) as [[[[d1 fds1] running] tr1]|] eqn:E; [|done]. cbn [mbind option_bind] in H.
    destruct (served_entries es fds (td_nodup _ _ _ Hi)) as [Hn Hin]. rewrite scan_round in E by apply Hi. pose proof (serve_running _ _ _ _ _ _ _ _ _ _ E) as Hr. apply serve_tidy in E as (t1 & -> & _ & H1); [|done|].
    2: { intros c (Hc & Hc1 & Hc2)%Hin. destruct (td_fds _ _ _ Hi) as (cs & -> & Hcs). apply Hcs. rewrite !elem_of_cons in Hc. tauto. }
    destruct running.
    + destruct (event_loop_prefix _ _ _ _ _ _ H) as (t2 & Ht & _). rewrite <- app_assoc in Ht. apply app_inv_head in Ht as ->. rewrite app_assoc in H.
      apply fresh_app in Hf as [Hf1 Hf2]. destruct (H1 _ Hi Hf1) as [Hc1 Hi1]. destruct (IH _ _ _ _ _ H Hi1 Hf2) as (Hc2 & Hi2 & He2).
      rewrite closes_open_app, open_after_app. split_and!; [done|done|done|by right].
    + injection H as <- Ht. apply app_inv_head in Ht as ->. destruct (H1 _ Hi Hf) as [Hc1 Hi1]. split; [done|]. split; [by exists fds1|]. left.
      symmetry in Hr. apply (served_stop ctl sig es fds). by destruct (existsb stop _).
Qed.

(** Closing the connections and the rest at the end. *)
Lemma closed_calls cs S : NoDup cs -> (forall c, c ∈ cs -> c ∈ S) -> closes_open S (Closed <$> cs) /\ open_after S (Closed <$> cs) = S ∖ list_to_set cs.
Proof.
  intros Hnd. revert S. induction Hnd as [|c cs Hc Hnd IH]; intros S Hin; [split; [done|]; simpl; set_solver|]. rewrite fmap_cons. cbn [closes_open open_after list_to_set].
  destruct (IH (S ∖ {[c]})) as [H1 H2]; [intros x Hx; assert (x <> c) by (by intros ->); specialize (Hin x ltac:(by right)); set_solver|].
  rewrite H2. split; [split; [apply Hin; by left|done]|set_solver].
Qed.

Lemma closed_files cs P : files_after P (Closed <$> cs) = P.
Proof. by induction cs. Qed.

Definition pid_files (d : Daemon) : gset string := if String.eqb (pid_file_path d) "" then ∅ else {[pid_file_path d]}.

Lemma shutdown_tidy S d fds env r (t := shutdown env d ctl sig r) : tidy S d fds -> fresh S t ->
  closes_open S t /\ open_after S t = S0 /\ forall P, files_after P t = P ∖ {[control_socket_path d]} ∖ pid_files d.
Proof.
  intros [(cs & -> & Hcs) Hnd -> (H1 & H2 & H3) Hp]. unfold t, shutdown. intros [Hf _]%fresh_app. destruct (notify_calls _ _ _ _ Hf) as [N1 N2].
  assert (Hel : forall x, x ∈ merge_sort Z.le (elements (dom (ctl_conns d))) <-> x ∈ dom (ctl_conns d)) by (intros x; by rewrite (merge_sort_Permutation Z.le), elem_of_elements).
  assert (Hnd' : NoDup (merge_sort Z.le (elements (dom (ctl_conns d))))) by (rewrite (merge_sort_Permutation Z.le); apply NoDup_elements).
  destruct (closed_calls (merge_sort Z.le (elements (dom (ctl_conns d)))) ({[ctl; sig]} ∪ dom (ctl_conns d) ∪ S0) Hnd') as [C1 C2]; [intros c Hc; apply Hel in Hc; set_solver|].
  apply NoDup_cons in Hnd as [Hc Hs]. apply NoDup_cons in Hs as [Hs _]. rewrite elem_of_cons, Hcs in Hc. rewrite Hcs in Hs.
  assert (Eo : ({[ctl; sig]} ∪ dom (ctl_conns d) ∪ S0) ∖ list_to_set (merge_sort Z.le (elements (dom (ctl_conns d)))) = {[ctl; sig]} ∪ S0).
  { apply set_eq. intros x. rewrite elem_of_difference, elem_of_list_to_set, Hel. set_solver. }
  rewrite !closes_open_app, !open_after_app. unfold sd_notify_stopping. rewrite N2, C2, Eo. cbn [closes_open open_after].
  assert (Epid : forall S, closes_open S (if String.eqb (pid_file_path d) "" then [] else [Unlinked (pid_file_path d)])
    /\ open_after S (if String.eqb (pid_file_path d) "" then [] else [Unlinked (pid_file_path d)]) = S) by (intros S; by destruct (String.eqb _ _)).
  split; [|split].
  - split_and!; [exact N1|exact C1|set_solver|done|set_solver|done|apply Epid].
  - rewrite (proj2 (Epid _)). set_solver.
  - intros P. rewrite !files_after_app. unfold sd_notify_stopping. rewrite notify_files, closed_files. cbn [files_after]. unfold pid_files. destruct (String.eqb _ _); cbn [files_after]; [set_solver|done].
Qed.

End tidy.

Lemma listen_calls path r b l (x := listen_unix path 16 r b l) (t := match r with inl fd => concat (of_unix fd <$> x.2) | inr _ => [] end) S : fresh S t ->
  match x.1 with
  | inl ctl => ((ctl ∉ S) /\ closes_open S t /\ open_after S t = {[ctl]} ∪ S) /\ forall P, files_after P t = {[path]} ∪ P ∖ {[path]}
  | inr _ => closes_open S t /\ open_after S t = S
  end.
Proof.
  unfold t, x, listen_unix. destruct r as [fd|e]; [|done]. destruct (_ >? _); [|destruct b as [e|]; [|destruct l as [e|]]]; simpl; intros [Hf _].
  - split; set_solver.
  - split; set_solver.
  - split; set_solver.
  - done.
Qed.

(** Start-up with a listening socket and a signal descriptor. *)
Lemma start_calls path tl ctl sig pidc ready d S (t := ((make_parent path ++ tl) ++ [Chmod path; Nonblocking ctl]) ++ [Opened sig] ++ pidc ++ ready) :
  (fresh S tl -> (ctl ∉ S) /\ closes_open S tl /\ open_after S tl = {[ctl]} ∪ S) ->
  (forall S, fresh S pidc -> closes_open S pidc /\ open_after S pidc = S) -> (forall S, fresh S ready -> closes_open S ready /\ open_after S ready = S) ->
  ctl_conns d = ∅ -> fresh S t -> closes_open S t /\ tidy S ctl sig d (open_after S t) d [ctl; sig].
Proof.
  intros Htl Hpid Hready Hd. unfold t. destruct (make_parent_calls path) as [Hmp _]. destruct (Hmp S) as (M1 & M2 & M3).
  rewrite !fresh_app, !closes_open_app, !open_after_app, M3. intros (((_ & Hf1) & _) & Hf2 & Hf3 & Hf4).
  destruct (Htl Hf1) as (T0 & T1 & T2). rewrite T2 in *. cbn [open_after closes_open fresh] in *. destruct Hf2 as [Hs _].
  destruct (Hpid _ Hf3) as [P1 P2]. rewrite P2 in *. destruct (Hready _ Hf4) as [R1 R2]. rewrite R2 in *. split; [done|].
  split; rewrite ?Hd, ?dom_empty_L.
  - exists []. split; [done|]. intros fd. set_solver.
  - repeat constructor; set_solver.
  - set_solver.
  - split_and!; [done|set_solver|set_solver].
  - done.
Qed.

Lemma start_files path tl ctl sig pidc ready d P (t := ((make_parent path ++ tl) ++ [Chmod path; Nonblocking ctl]) ++ [Opened sig] ++ pidc ++ ready) :
  (forall P, files_after P tl = {[path]} ∪ P ∖ {[path]}) -> (forall P, files_after P pidc = P \/ pid_file_path d <> "" /\ files_after P pidc = {[pid_file_path d]} ∪ P) ->
  (forall P, files_after P ready = P) -> files_after P t ∖ {[path]} ∖ pid_files d = P ∖ {[path]} ∖ pid_files d.
Proof.
  intros Htl Hpid Hready. unfold t. rewrite !files_after_app, (proj2 (make_parent_calls path)), Htl, Hready. cbn [files_after]. apply set_eq. intros x.
  destruct (Hpid ({[path]} ∪ P ∖ {[path]})) as [->|[Hne ->]]; [set_solver|]. unfold pid_files. rewrite (proj2 (String.eqb_neq _ _) Hne). set_solver.
Qed.

(** C22: whatever clients do and signals arrive, the daemon closes only descriptors
    it has open; when it ends with status 0 it was told to or [poll] failed, every
    descriptor it opened is closed, and neither its socket nor its pid file is
    left.  A wrong command line ends it before it does anything. *)
Theorem daemon_tidy w argv rng lg a prs st tr S P : main w argv rng lg a prs = Some (st, tr) -> fresh S tr ->
  closes_open S tr /\
  match parse_args argv no_args with
  | inl status => st = status /\ tr = []
  | inr args =>
      let d := start_daemon w args rng lg in
      if show_help args then st = 0 /\ tr = []
      else st = 0 -> open_after S tr = S /\ files_after P tr = P ∖ {[control_socket_path d]} ∖ pid_files d /\ Exists (fun p => told p = true) prs
  end.
Proof.
  unfold main. destruct (parse_args argv no_args) as [status|args]; [by intros [= <- <-]|]. destruct (show_help args); [by intros [= <- <-]|].
  set (d := start_daemon w args rng lg). set (path := control_socket_path d).
  destruct (make_parent_calls path) as [Hmp Hmf].
  pose proof (listen_calls path (socket_r a) (bind_r a) (listen_r a)) as Hl. destruct (listen_unix path 16 _ _ _) as [r us]. cbn [fst snd] in Hl.
  set (tl := match socket_r a with inl fd => _ | inr _ => [] end) in *. destruct r as [ctl|e].
  - destruct (Z.ltb_spec (signalfd_r a) 0) as [Hsig|Hsig].
    { intros [= <- <-] Hf. rewrite !fresh_app in Hf. destruct Hf as ((_ & Hf) & _). rewrite (proj2 (proj2 (Hmp S))) in Hf. destruct (Hl S Hf) as ((_ & H1 & _) & _).
      split; [|done]. rewrite !closes_open_app. split; [|done]. split; [apply Hmp|]. by rewrite (proj2 (proj2 (Hmp S))). }
    set (pidc := (write_pid_file _ _ _ _).2). set (ready := sd_notify_ready _ _ _). set (t := (_ ++ [Chmod path; _]) ++ _).
    destruct (event_loop _ _ _ _ _ _) as [[d' tr']|] eqn:E; [|done]. cbn [mbind option_bind]. intros [= <- <-] Hf.
    destruct (event_loop_prefix _ _ _ _ _ _ _ _ E) as (t2 & -> & Ht2). rewrite !fresh_app in Hf. destruct Hf as [[Hf1 Hf2] Hf3].
    destruct (start_calls path tl ctl (signalfd_r a) pidc ready d S) as [C1 Hi1]; [intros Hf; apply (Hl S Hf)|..].
    { intros S' Hf'. by apply pid_file_calls. }
    { intros S' Hf'. by apply notify_calls. }
    { done. } { exact Hf1. }
    destruct (event_loop_tidy _ _ _ _ _ _ _ _ _ _ _ E Hi1 Hf2) as (C2 & (fds' & Hi2) & Ht). rewrite open_after_app in Hf3.
    destruct (shutdown_tidy _ _ _ _ _ _ _ _ _ Hi2 Hf3) as (C3 & O3 & F3).
    rewrite !closes_open_app, !open_after_app. split; [done|]. intros _. split; [done|]. split; [|done].
    rewrite !files_after_app, Ht2, F3. destruct (td_paths _ _ _ _ _ _ _ Hi2) as [E1 E2]. replace (pid_files d') with (pid_files d) by (unfold pid_files; by rewrite E2).
    rewrite E1. fold path. apply start_files; [|intros P'; apply pid_file_files|intros P'; apply notify_files].
    unfold t in Hf1. rewrite !fresh_app in Hf1. destruct Hf1 as (((_ & Hf1) & _) & _). rewrite (proj2 (proj2 (Hmp S))) in Hf1. apply (Hl S Hf1).
  - intros [= <- <-] [_ Hf]%fresh_app. rewrite (proj2 (proj2 (Hmp S))) in Hf. destruct (Hl S Hf) as [H1 H2]. split; [|done]. rewrite closes_open_app. split; [apply Hmp|].
    by rewrite (proj2 (proj2 (Hmp S))).
Qed.

(** ** Examples *)

Global Instance fresh_dec S tr : Decision (fresh S tr).
Proof. revert S. induction tr as [|[] tr IH]; intros S; simpl; try apply IH; solve_decision. Defined.

(** A client hangs up while another one connects. *)
Definition demo_events : list event :=
  [EvConn 4 [REnd] []; EvConn 5 [RFail EAGAIN] []; EvAccept [AFd 6 []; AFail EAGAIN]].

Lemma round_serves_once_witness :
  scan (S (turns ((fun fd => (fd, revents 1 2 demo_events fd)) <$> [1; 2; 4; 5]))) demo_world 0 demo_daemon ((fun fd => (fd, revents 1 2 demo_events fd)) <$> [1; 2; 4; 5]) true []
  = serve demo_world demo_daemon [1; 2; 4; 5] true [] (omap (revents 1 2 demo_events) [1; 2; 4; 5]).
Proof. apply (round_serves_once demo_world 1 2 demo_daemon [1; 2; 4; 5] demo_events true []). apply (bool_decide_unpack _). vm_compute. exact I. Defined.

Lemma round_example : (fun x => (x.1.1.2, x.2)) <$> serve demo_world demo_daemon [1; 2; 4; 5] true [] (omap (revents 1 2 demo_events) [1; 2; 4; 5])
  = Some ([1; 2; 5; 6], [Opened 6; Closed 4]).
Proof. vm_compute. reflexivity. Qed.

Definition demo_answers : Answers := mkAnswers (inl 3) None None 4 5 3 5 5.
Definition demo_polls : list poll_r := [PFail EINTR; PReady demo_world [EvAccept [AFd 5 []; AFail EAGAIN]]; PReady demo_world [EvSignal [SIGHUP; SIGTERM]]].
Definition demo_argv : list string := ["--control-socket"; "/run/s"; "--pid-file"; "/run/p"].
Definition demo_calls : list call := default [] (snd <$> main demo_world demo_argv [7] Log.new_logger demo_answers demo_polls).

Lemma demo_run : main demo_world demo_argv [7] Log.new_logger demo_answers demo_polls = Some (0, demo_calls).
Proof. vm_compute. reflexivity. Qed.

Lemma daemon_tidy_witness : closes_open {[0; 1; 2]} demo_calls /\ open_after {[0; 1; 2]} demo_calls = {[0; 1; 2]}.
Proof.
  destruct (daemon_tidy demo_world demo_argv [7] Log.new_logger demo_answers demo_polls 0 demo_calls {[0; 1; 2]} ∅ demo_run) as [H1 H2].
  - apply (bool_decide_unpack _). vm_compute. exact I.
  - split; [exact H1|]. exact (proj1 (H2 eq_refl)).
Defined.

(** ** Limits *)

(** Without a signal descriptor the daemon ends at once and leaves its socket
    behind. *)
Lemma failed_start_leaves_socket w argv args rng lg a prs ctl P : parse_args argv no_args = inr args -> show_help args = false ->
  (listen_unix (control_socket_path (start_daemon w args rng lg)) 16 (socket_r a) (bind_r a) (listen_r a)).1 = inl ctl -> signalfd_r a < 0 ->
  exists tr, main w argv rng lg a prs = Some (1, tr) /\ control_socket_path (start_daemon w args rng lg) ∈ files_after P tr.
Proof.
  intros Hp Hh Hl Hs. unfold main. rewrite Hp, Hh. set (path := control_socket_path _) in *. unfold listen_unix in *. destruct (socket_r a) as [fd|e]; [|done].
  destruct (_ >? _); [done|]. destruct (bind_r a); [done|]. destruct (listen_r a); [done|]. rewrite (proj2 (Z.ltb_lt _ _) Hs). eexists. split; [done|].
  rewrite !files_after_app, (proj2 (make_parent_calls path)). simpl. set_solver.
Qed.

(** The name of an abstract socket is sent with all 108 bytes, so it ends in zeros
    that the name in the environment does not have. *)
Lemma abstract_name_padded : sun_path "@sd" = String zero "sd" +:+ zeros 105.
Proof. reflexivity. Qed.

End DaemonRun.
