(* ===== verification/KernelModule.v ===== *)
(** * The kernel module as a whole

    The rest of [src/kernel/socksdirect_dev.c]: the numbers of the ioctls
    ([include/socksdirect/zerocopy.h]), their dispatch, loading and unloading, and
    the life of the module with several open files and threads, in which other
    calls come between the look-up of a mapping and its installation.  The
    operations on one file are in [ZeroCopy]; what the kernel answers is an
    argument. *)

From Stdlib Require Import ZArith Lia.
From stdpp Require Import numbers base gmap list fin_maps.
From S2P Require Import Prelude ZeroCopy.

Module KernelModule.
Import Device.

(** ** The numbers of the ioctls *)

Definition SD_IOC_MAGIC : Z := 0xCD.

(** [_IOC]: direction, size of the structure, group and number. *)
Definition IOC (dir nr size : Z) : Z :=
  Z.lor (Z.lor (Z.shiftl dir 30) (Z.shiftl size 16)) (Z.lor (Z.shiftl SD_IOC_MAGIC 8) nr).
Definition IOW (nr size : Z) : Z := IOC 1 nr size.
Definition IOR (nr size : Z) : Z := IOC 2 nr size.
Definition IOWR (nr size : Z) : Z := IOC 3 nr size.

Definition SD_IOC_GET_VERSION : Z := IOR 1 8.
Definition SD_IOC_ALLOC_PHYS : Z := IOWR 2 24.
Definition SD_IOC_FREE_PHYS : Z := IOW 3 8.
Definition SD_IOC_VIRT2PHYS : Z := IOWR 4 16.
Definition SD_IOC_VIRT2PHYS_VEC : Z := IOWR 5 24.
Definition SD_IOC_MAP_PHYS : Z := IOWR 6 24.
Definition SD_IOC_MAP_PHYS_VEC : Z := IOWR 7 32.
Definition SD_IOC_ECHO : Z := IOWR 8 16.

(** ** Dispatch *)

(** What the structure at [arg] holds, read as the command reads it, and the
    vector it points to. *)
Record user := mkUser { u_in : Z; u_alloc : sd_alloc_phys; u_cookie : Z; u_virt : Z; u_npages : Z; u_cookies : list Z }.

(** The answers of the kernel during one call. *)
Record kernel := mkKernel { k_mm : mm; k_page : option Z; k_node : bool; k_kmalloc : bool; k_in : bool; k_cookies : bool; k_out : bool }.

Inductive reply :=
  | RVersion (v : sd_version) | RValue (x : Z) | RAlloc (a : sd_alloc_phys) | RVector (xs : list Z) | RDone | RError (e : errno).

Definition reply_of {A} (f : A -> reply) (r : A + errno) : reply := match r with inl x => f x | inr e => RError e end.

(** The reply, the device, the calls of the page allocator and the pages
    installed. *)
Definition sd_unlocked_ioctl (d : device) (cmd : Z) (u : user) (k : kernel) : reply * device * list page_call * list (Z * Z) :=
  if cmd =? SD_IOC_GET_VERSION then (reply_of RVersion (sd_ioctl_get_version (k_out k)), d, [], [])
  else if cmd =? SD_IOC_ECHO then (reply_of RValue (sd_ioctl_echo (k_in k) (k_out k) (u_in u)), d, [], [])
  else if cmd =? SD_IOC_ALLOC_PHYS then
    let '(r, d, t) := sd_ioctl_alloc_phys d (u_alloc u) (mkAEnv (k_in k) (k_page k) (k_node k) (k_out k)) in (reply_of RAlloc r, d, t, [])
  else if cmd =? SD_IOC_FREE_PHYS then
    let '(r, d, t) := sd_ioctl_free_phys d (u_cookie u) (k_in k) in (reply_of (fun _ => RDone) r, d, t, [])
  else if cmd =? SD_IOC_VIRT2PHYS then (reply_of RValue (sd_ioctl_virt2phys (k_mm k) (u_virt u) (k_in k) (k_out k)), d, [], [])
  else if cmd =? SD_IOC_VIRT2PHYS_VEC then
    (reply_of RVector (sd_ioctl_virt2phys_vec (k_mm k) (u_virt u) (u_npages u) (k_in k) (k_kmalloc k) (k_out k)), d, [], [])
  else if cmd =? SD_IOC_MAP_PHYS then
    let '(r, t) := sd_ioctl_map_phys (st d) (k_mm k) (u_virt u) (u_cookie u) (k_in k) (k_out k) in (reply_of RValue r, d, [], t)
  else if cmd =? SD_IOC_MAP_PHYS_VEC then
    let '(r, t) := sd_ioctl_map_phys_vec (st d) (k_mm k) (u_virt u) (u_cookies u) (k_in k) (k_kmalloc k) (k_cookies k) (k_out k) in (reply_of RVector r, d, [], t)
  else (RError ENOTTY, d, [], []).

(** ** Loading and unloading *)

Inductive object := Region | Cdev | Class_ | Node.
Inductive kcall := Get (o : object) | Put (o : object).

(** The results of the four calls. *)
Record load_env := mkLoad { region_r : option errno; cdev_r : option errno; class_r : option errno; node_r : bool }.

Definition sd_init (e : load_env) : option errno * list kcall :=
  match region_r e with
  | Some rc => (Some rc, [])
  | None =>
      match cdev_r e with
      | Some rc => (Some rc, [Get Region; Put Region])
      | None =>
          match class_r e with
          | Some rc => (Some rc, [Get Region; Get Cdev; Put Cdev; Put Region])
          | None =>
              if node_r e then (None, [Get Region; Get Cdev; Get Class_; Get Node])
              else (Some EIO, [Get Region; Get Cdev; Get Class_; Put Class_; Put Cdev; Put Region])
          end
      end
  end.

Definition sd_exit : list kcall := [Put Node; Put Class_; Put Cdev; Put Region].

(** ** The life of the module *)

(** A thread in the middle of [SD_IOC_MAP_PHYS] or [SD_IOC_MAP_PHYS_VEC] on a
    file: the cookies still to map, from page [fl_i] on, the old frames so far,
    and the node that [sd_map_one] has looked up. *)
Record flight := mkFlight {
  fl_file : Z; fl_vec : bool; fl_virt : Z; fl_i : nat; fl_cookies : list Z; fl_olds : list Z; fl_node : option sd_alloc_node }.

(** The open files, the counter they share, and the threads in such a call. *)
Record module := mkModule { files : gmap Z sd_filp_state; counter : Z; flights : gmap Z flight }.

(** A whole call; or the three parts of a mapping by thread [t]: up to the loop,
    the look-up under the lock of the file, and what comes after it. *)
Inductive op :=
  | Open (f : Z) (kzalloc : bool) | Ioctl (f cmd : Z) (u : user) (k : kernel) | Release (f : Z)
  | Begin (t f : Z) (vec : bool) (u : user) (k : kernel) | Lookup (t : Z) (k : kernel) | Install (t : Z) (k : kernel).

(** The part of the two ioctls before the loop. *)
Definition map_begin (f : Z) (vec : bool) (u : user) (k : kernel) : flight + errno :=
  if negb (k_in k) then inr EFAULT
  else if vec then
    let npages := Z.of_nat (length (u_cookies u)) in
    if (npages =? 0) || (2 ^ SOCKSDIRECT_MAX_ORDER <? npages) then inr EINVAL
    else if negb (k_kmalloc k) then inr ENOMEM
    else if negb (k_cookies k) then inr EFAULT
    else inl (mkFlight f true (u_virt u) 0 (u_cookies u) [] None)
  else inl (mkFlight f false (u_virt u) 0 [u_cookie u] [] None).

(** The reply when the loop is done. *)
Definition map_done (fl : flight) (k : kernel) : reply :=
  if negb (k_out k) then RError EFAULT
  else if fl_vec fl then RVector (fl_olds fl) else RValue (default 0 (last (fl_olds fl))).

Definition set_flights (s : module) (v : gmap Z flight) : module := mkModule (files s) (counter s) v.

(** [None]: the kernel does not make this call, or the thread is not there; it
    does not release a file with a call in progress.  The result has the reply,
    if the call is over, the calls of the page allocator and the pages
    installed. *)
Definition step (s : module) (o : op) : option (option reply * module * list page_call * list (Z * Z)) :=
  match o with
  | Open f kzalloc =>
      if decide (is_Some (files s !! f)) then None
      else match sd_open kzalloc with
           | inr e => Some (Some (RError e), s, [], [])
           | inl st => Some (Some RDone, mkModule (<[f := st]> (files s)) (counter s) (flights s), [], [])
           end
  | Ioctl f cmd u k =>
      st ← files s !! f;
      let '(r, d, t, v) := sd_unlocked_ioctl (mkDev st (counter s)) cmd u k in
      Some (Some r, mkModule (<[f := Device.st d]> (files s)) (sd_cookie_counter d) (flights s), t, v)
  | Release f =>
      st ← files s !! f;
      if decide (map_Forall (fun _ fl => fl_file fl <> f) (flights s))
      then Some (Some RDone, mkModule (delete f (files s)) (counter s) (flights s), sd_release st, [])
      else None
  | Begin t f vec u k =>
      _ ← files s !! f;
      if decide (is_Some (flights s !! t)) then None
      else match map_begin f vec u k with
           | inr e => Some (Some (RError e), s, [], [])
           | inl fl => Some (None, set_flights s (<[t := fl]> (flights s)), [], [])
           end
  | Lookup t k =>
      fl ← flights s !! t;
      st ← files s !! fl_file fl;
      match fl_node fl, fl_cookies fl with
      | None, c :: _ =>
          match sd_map_lookup st (k_mm k) (nth_virt (fl_virt fl) (fl_i fl)) c with
          | inr e => Some (Some (RError e), set_flights s (delete t (flights s)), [], [])
          | inl node =>
              let fl := mkFlight (fl_file fl) (fl_vec fl) (fl_virt fl) (fl_i fl) (fl_cookies fl) (fl_olds fl) (Some node) in
              Some (None, set_flights s (<[t := fl]> (flights s)), [], [])
          end
      | _, _ => None
      end
  | Install t k =>
      fl ← flights s !! t;
      match fl_node fl, fl_cookies fl with
      | Some node, _ :: cs =>
          match sd_map_install (k_mm k) (nth_virt (fl_virt fl) (fl_i fl)) node with
          | (inr e, v) => Some (Some (RError e), set_flights s (delete t (flights s)), [], v)
          | (inl old, v) =>
              let fl := mkFlight (fl_file fl) (fl_vec fl) (fl_virt fl) (S (fl_i fl)) cs (fl_olds fl ++ [old]) None in
              match cs with
              | [] => Some (Some (map_done fl k), set_flights s (delete t (flights s)), [], v)
              | _ => Some (None, set_flights s (<[t := fl]> (flights s)), [], v)
              end
          end
      | _, _ => None
      end
  end.

Fixpoint run (s : module) (ops : list op) : option (list (option reply) * module * list page_call * list (Z * Z)) :=
  match ops with
  | [] => Some ([], s, [], [])
  | o :: ops =>
      '(r, s, t, v) ← step s o;
      '(rs, s, t', v') ← run s ops;
      Some (r :: rs, s, t ++ t', v ++ v')
  end.

Definition module_new (c : Z) : module := mkModule ∅ c ∅.

(** ** Commands *)

Definition commands : list Z :=
  [SD_IOC_GET_VERSION; SD_IOC_ALLOC_PHYS; SD_IOC_FREE_PHYS; SD_IOC_VIRT2PHYS; SD_IOC_VIRT2PHYS_VEC; SD_IOC_MAP_PHYS; SD_IOC_MAP_PHYS_VEC; SD_IOC_ECHO].

(** The numbers differ, so every command has its handler. *)
Lemma commands_differ : NoDup commands.
Proof. apply (bool_decide_unpack _). vm_compute. exact I. Qed.

Lemma unknown_command d cmd u k : cmd ∉ commands -> sd_unlocked_ioctl d cmd u k = (RError ENOTTY, d, [], []).
Proof.
  intros H. unfold sd_unlocked_ioctl. unfold commands in H. rewrite !not_elem_of_cons in H. destruct H as (? & ? & ? & ? & ? & ? & ? & ? & _).
  by rewrite !(proj2 (Z.eqb_neq _ _)) by done.
Qed.

(** Loading takes four objects or none; what was taken is given back in the
    opposite order. *)
Fixpoint nested (held : list object) (t : list kcall) : option (list object) :=
  match t, held with
  | [], _ => Some held
  | Get o :: t, _ => nested (o :: held) t
  | Put Region :: t, Region :: held | Put Cdev :: t, Cdev :: held | Put Class_ :: t, Class_ :: held | Put Node :: t, Node :: held => nested held t
  | Put _ :: _, _ => None
  end.

Theorem load_unload e :
  match sd_init e with
  | (Some _, t) => nested [] t = Some []
  | (None, t) => nested [] t = Some [Node; Class_; Cdev; Region] /\ nested [] (t ++ sd_exit) = Some []
  end.
Proof. destruct e as [[] [] [] []]; done. Qed.

(** ** Several files *)

(** What all files have. *)
Definition gather {A} (g : sd_filp_state -> list A) (m : gmap Z sd_filp_state) : list A := map_to_list m ≫= fun p => g p.2.

Lemma gather_split {A} (g : sd_filp_state -> list A) m f x : m !! f = Some x -> gather g m ≡ₚ g x ++ gather g (delete f m).
Proof. intros H. unfold gather. by rewrite <- (map_to_list_delete m f x H). Qed.

Lemma gather_set {A} (g : sd_filp_state -> list A) m f x : gather g (<[f := x]> m) ≡ₚ g x ++ gather g (delete f m).
Proof. rewrite (gather_split g _ f x) by apply lookup_insert_eq. by rewrite delete_insert_eq. Qed.

Lemma gather_elem {A} (g : sd_filp_state -> list A) m y : y ∈ gather g m <-> exists f x, m !! f = Some x /\ y ∈ g x.
Proof.
  unfold gather. rewrite list_elem_of_bind. split.
  - intros ([f x] & Hy & H). exists f, x. split; [by apply elem_of_map_to_list|done].
  - intros (f & x & H & Hy). exists (f, x). split; [done|by apply elem_of_map_to_list].
Qed.

Abbreviation pages_of := (fun x => held (allocations x)).
Abbreviation cookies_of := (fun x => cookie <$> allocations x).

(** Only two commands change the device. *)
Lemma ioctl_is_step d cmd u k r d' t v : sd_unlocked_ioctl d cmd u k = (r, d', t, v) -> (exists o, dev_step d o = (d', t)) \/ d' = d /\ t = [].
Proof.
  unfold sd_unlocked_ioctl. repeat (destruct (_ =? _)); intros H.
  - right. by simplify_eq.
  - right. by simplify_eq.
  - destruct (sd_ioctl_alloc_phys _ _ _) as [[r1 d1] t1] eqn:E. simplify_eq. left. exists (OAlloc (u_alloc u) (mkAEnv (k_in k) (k_page k) (k_node k) (k_out k))). simpl. by rewrite E.
  - destruct (sd_ioctl_free_phys _ _ _) as [[r1 d1] t1] eqn:E. simplify_eq. left. exists (OFree (u_cookie u) (k_in k)). simpl. by rewrite E.
  - right. by simplify_eq.
  - right. by simplify_eq.
  - destruct (sd_ioctl_map_phys _ _ _ _ _ _). right. by simplify_eq.
  - destruct (sd_ioctl_map_phys_vec _ _ _ _ _ _ _ _). right. by simplify_eq.
  - right. by simplify_eq.
Qed.

Lemma ioctl_ledger d cmd u k r d' t v : sd_unlocked_ioctl d cmd u k = (r, d', t, v) ->
  allocated t ++ held (allocations (Device.st d)) ≡ₚ freed t ++ held (allocations (Device.st d')).
Proof. intros [[o H]|[-> ->]]%ioctl_is_step; [by eapply dev_step_ledger|done]. Qed.

(** The parts of a mapping leave the files and the counter. *)
Lemma mapping_parts s o r s' t v : step s o = Some (r, s', t, v) ->
  match o with Begin _ _ _ _ _ | Lookup _ _ | Install _ _ => files s' = files s /\ counter s' = counter s /\ t = [] | _ => True end.
Proof.
  destruct o as [| | |t' g vec u k|t' k|t' k]; cbn [step]; try done.
  - destruct (files s !! g); [|done]. cbn [mbind option_bind]. destruct (decide _); [done|]. destruct (map_begin g vec u k); by intros [= <- <- <- <-].
  - destruct (flights s !! t') as [w|]; [|done]. cbn [mbind option_bind]. destruct (files s !! fl_file w); [|done]. cbn [mbind option_bind].
    destruct (fl_node w), (fl_cookies w); try done. destruct (sd_map_lookup _ _ _ _); by intros [= <- <- <- <-].
  - destruct (flights s !! t') as [w|]; [|done]. cbn [mbind option_bind]. destruct (fl_node w), (fl_cookies w) as [|c [|c' cs]]; try done;
      destruct (sd_map_install _ _ _) as [[]]; by intros [= <- <- <- <-].
Qed.

Lemma step_ledger s o r s' t v : step s o = Some (r, s', t, v) -> allocated t ++ gather pages_of (files s) ≡ₚ freed t ++ gather pages_of (files s').
Proof.
  intros H. pose proof (mapping_parts _ _ _ _ _ _ H) as Hm. destruct o as [f kz|f cmd u k|f|t0 f vec u k|t0 k|t0 k]; [..|destruct Hm as (-> & _ & ->); done|destruct Hm as (-> & _ & ->); done|destruct Hm as (-> & _ & ->); done];
    cbn [step] in H; clear Hm; revert H.
  - destruct (decide _) as [|Hn]; [done|]. unfold sd_open. destruct kz; intros [= <- <- <- <-]; [|done]. cbn [files].
    rewrite gather_set. rewrite delete_id; [done|]. by apply eq_None_not_Some.
  - destruct (files s !! f) as [x|] eqn:Hx; [|done]. cbn [mbind option_bind]. destruct (sd_unlocked_ioctl _ _ _ _) as [[[r1 d1] t1] v1] eqn:E. intros [= <- <- <- <-].
    apply ioctl_ledger in E. cbn [files Device.st] in *. rewrite gather_set, (gather_split _ (files s) f x Hx), !app_assoc. by rewrite E.
  - destruct (files s !! f) as [x|] eqn:Hx; [|done]. cbn [mbind option_bind]. destruct (decide _); [|done]. intros [= <- <- <- <-]. cbn [files].
    rewrite (gather_split _ (files s) f x Hx). unfold sd_release. destruct (freed_release (allocations x)) as [-> ->]. done.
Qed.

Lemma run_ledger s ops rs s' t v : run s ops = Some (rs, s', t, v) -> allocated t ++ gather pages_of (files s) ≡ₚ freed t ++ gather pages_of (files s').
Proof.
  revert s rs t v. induction ops as [|o ops IH]; intros s rs t v; cbn [run]; [by intros [= <- <- <- <-]|].
  destruct (step s o) as [[[[r s1] t1] v1]|] eqn:E; [|done]. cbn [mbind option_bind]. destruct (run s1 ops) as [[[[rs2 s2] t2] v2]|] eqn:E2; [|done]. intros [= <- <- <- <-].
  apply step_ledger in E. apply IH in E2. rewrite allocated_app, freed_app.
  rewrite (Permutation_app_comm (allocated t1)), <- app_assoc, E, !app_assoc. rewrite (Permutation_app_comm (allocated t2)), <- !app_assoc. by rewrite E2.
Qed.

(** *** Cookies *)

Lemma unlink_cookies l c l' call : unlink_node l c = Some (l', call) -> exists n, cookie <$> l ≡ₚ n :: (cookie <$> l').
Proof.
  revert l' call. induction l as [|n l IH]; intros l' call; simpl; [done|]. destruct (cookie n =? c); [intros [= <- <-]; by eexists|].
  destruct (unlink_node l c) as [[l1 c1]|]; [|done]. intros [= <- <-]. destruct (IH _ _ eq_refl) as [x Hx]. exists x. simpl. rewrite Hx. apply Permutation_swap.
Qed.

(** The cookies grow by the next number of the counter, or shrink. *)
Lemma dev_step_cookies d o d' t : dev_step d o = (d', t) ->
  (sd_cookie_counter d' = u64 (sd_cookie_counter d + 1) /\ cookies_of (Device.st d') = sd_cookie_counter d' :: cookies_of (Device.st d))
  \/ sd_cookie_counter d' = sd_cookie_counter d /\ exists gone, cookies_of (Device.st d) ≡ₚ gone ++ cookies_of (Device.st d').
Proof.
  destruct o as [req e|c ci]; unfold dev_step.
  - unfold sd_ioctl_alloc_phys. repeat match goal with |- context [if ?b then _ else _] => destruct b | |- context [match page_r e with _ => _ end] => destruct (page_r e) end;
      cbn [sd_next_cookie]; intros [= <- <-]; first [by left | right; split; [done|by exists []]].
  - unfold sd_ioctl_free_phys. destruct ci; [|intros [= <- <-]; right; split; [done|by exists []]]. cbn [negb].
    destruct (unlink_node _ c) as [[l call]|] eqn:E; intros [= <- <-]; right; (split; [done|]); [|by exists []].
    destruct (unlink_cookies _ _ _ _ E) as [n Hn]. by exists [n].
Qed.

(** No cookie is given twice, and none is beyond the counter. *)
Record cookies_wf (s : module) : Prop := {
  ck_nodup : NoDup (gather cookies_of (files s));
  ck_bound c : c ∈ gather cookies_of (files s) -> c <= counter s }.

Lemma cookies_shrink s s' : cookies_wf s -> counter s <= counter s' -> (exists gone, gather cookies_of (files s) ≡ₚ gone ++ gather cookies_of (files s')) -> cookies_wf s'.
Proof.
  intros [Hn Hb] Hc [gone Hp]. split.
  - rewrite Hp in Hn. by apply NoDup_app in Hn as (_ & _ & Hn).
  - intros c Hin. assert (c <= counter s); [|lia]. apply Hb. rewrite Hp. apply elem_of_app. by right.
Qed.

Lemma step_cookies s o r s' t v : 0 <= counter s < 2 ^ 64 - 1 -> cookies_wf s -> step s o = Some (r, s', t, v) ->
  cookies_wf s' /\ counter s <= counter s' <= counter s + 1.
Proof.
  intros Hc Hwf H. pose proof (mapping_parts _ _ _ _ _ _ H) as Hm.
  assert (Hsame : files s' = files s /\ counter s' = counter s /\ t = [] -> cookies_wf s' /\ counter s <= counter s' <= counter s + 1).
  { intros (Hf & Hcn & _). rewrite Hcn. split; [|lia]. apply (cookies_shrink s); [done|by rewrite Hcn|]. exists []. by rewrite Hf. }
  destruct o as [f kz|f cmd u k|f|t0 f vec u k|t0 k|t0 k]; [..|by apply Hsame|by apply Hsame|by apply Hsame]; cbn [step] in H; clear Hm; revert H.
  - destruct (decide _) as [|Hn]; [done|]. unfold sd_open. destruct kz; intros [= <- <- <- <-]; [|split; [done|lia]]. cbn [counter]. split; [|lia].
    apply (cookies_shrink s); [done|done|]. exists []. cbn [files app]. rewrite gather_set, delete_id by (by apply eq_None_not_Some). done.
  - destruct (files s !! f) as [x|] eqn:Hx; [|done]. cbn [mbind option_bind]. destruct (sd_unlocked_ioctl _ _ _ _) as [[[r1 d1] t1] v1] eqn:E. intros [= <- <- <- <-].
    cbn [counter]. apply ioctl_is_step in E as [[o E]|[-> ->]].
    2: { cbn [Device.st sd_cookie_counter]. rewrite insert_id by done. destruct s. split; [by destruct Hwf|]. simpl. lia. }
    pose proof (gather_split cookies_of (files s) f x Hx) as Hsp. apply dev_step_cookies in E as [[Ec Ek]|[Ec [gone Hg]]]; cbn [Device.st sd_cookie_counter] in *.
    + rewrite uwrap_small in Ec by (split; lia). rewrite Ec. split; [|lia]. destruct Hwf as [Hn Hb]. assert (Hnew : (counter s + 1) ∉ gather cookies_of (files s)) by (intros H%Hb; lia).
      split; cbn [files counter].
      * rewrite gather_set, Ek, Ec. cbn [app]. rewrite <- Hsp. by apply NoDup_cons.
      * intros c. rewrite gather_set, Ek, Ec. cbn [app]. rewrite <- Hsp. intros [->|H%Hb]%elem_of_cons; lia.
    + rewrite Ec. split; [|lia]. apply (cookies_shrink s); [done|done|]. exists gone. cbn [files]. rewrite gather_set, Hsp, Hg. by rewrite app_assoc.
  - destruct (files s !! f) as [x|] eqn:Hx; [|done]. cbn [mbind option_bind]. destruct (decide _); [|done]. intros [= <- <- <- <-]. cbn [counter].
    split; [|lia]. apply (cookies_shrink s); [done|done|]. exists (cookies_of x). cbn [files]. by apply (gather_split cookies_of).
Qed.

Lemma run_cookies s ops rs s' t v : 0 <= counter s -> counter s + Z.of_nat (length ops) < 2 ^ 64 -> cookies_wf s -> run s ops = Some (rs, s', t, v) -> cookies_wf s'.
Proof.
  revert s rs t v. induction ops as [|o ops IH]; intros s rs t v H0 H1 Hwf; cbn [run]; [by intros [= <- <- <- <-]|]. simpl length in H1.
  destruct (step s o) as [[[[r s1] t1] v1]|] eqn:E; [|done]. cbn [mbind option_bind]. destruct (run s1 ops) as [[[[rs2 s2] t2] v2]|] eqn:E2; [|done]. intros [= <- <- <- <-].
  destruct (step_cookies s o r s1 t1 v1 ltac:(lia) Hwf E) as [Hwf1 Hc1]. eapply (IH s1); [lia|lia|done|done].
Qed.

(** A cookie of one file is unknown to the others. *)
Lemma foreign_cookie s f g x y n : cookies_wf s -> files s !! f = Some x -> files s !! g = Some y -> f <> g -> n ∈ allocations x -> cookie n ∉ cookies_of y.
Proof.
  intros [Hn _] Hf Hg Hne Hin Hy. rewrite (gather_split _ _ f x Hf) in Hn. apply NoDup_app in Hn as (_ & Hd & _).
  apply (Hd (cookie n)); [by apply list_elem_of_fmap_2|]. apply gather_elem. exists g, y. split; [by rewrite lookup_delete_ne|done].
Qed.

Lemma find_absent x c : c ∉ cookies_of x -> sd_find_alloc_locked x c = None.
Proof.
  unfold sd_find_alloc_locked. induction (allocations x) as [|n l IH]; [done|]. rewrite fmap_cons, not_elem_of_cons. intros [Hn Hl]. simpl.
  rewrite (proj2 (Z.eqb_neq (cookie n) c)) by done. by apply IH.
Qed.

(** *** Installed pages *)

(** The page is the first one of an allocation of the file. *)
Definition own_page (s : module) (f p : Z) : Prop :=
  exists x n, files s !! f = Some x /\ n ∈ allocations x /\ pages n = p.

Lemma find_in x c n : sd_find_alloc_locked x c = Some n -> n ∈ allocations x /\ cookie n = c.
Proof.
  unfold sd_find_alloc_locked. intros [Hin Hc]%List.find_some. split; [by apply list_elem_of_In|]. by apply Z.eqb_eq.
Qed.

Lemma lookup_in x m virt c n : sd_map_lookup x m virt c = inl n -> n ∈ allocations x /\ cookie n = c.
Proof.
  unfold sd_map_lookup. destruct (negb _); [done|]. destruct (negb (has_mm m)); [done|].
  destruct (sd_find_alloc_locked x c) eqn:E; [|done]. intros [= <-]. by apply find_in.
Qed.

Lemma install_page m virt n r v : sd_map_install m virt n = (r, v) -> forall a p, (a, p) ∈ v -> p = pages n.
Proof.
  unfold sd_map_install. destruct (negb _); [intros [= _ <-] a p H; by apply not_elem_of_nil in H|].
  destruct (insert_page m virt (pages n)); intros [= _ <-] a p H; [by apply not_elem_of_nil in H|].
  apply list_elem_of_singleton in H. by simplify_eq.
Qed.

Lemma map_one_own x m virt c r v : sd_map_one x m virt c = (r, v) ->
  forall a p, (a, p) ∈ v -> exists n, n ∈ allocations x /\ pages n = p /\ cookie n = c.
Proof.
  unfold sd_map_one. destruct (sd_map_lookup x m virt c) as [n|] eqn:E; [|intros [= _ <-] a p H; by apply not_elem_of_nil in H].
  intros Hi a p Hp. apply lookup_in in E as [Hin Hc]. rewrite (install_page _ _ _ _ _ Hi a p Hp). by exists n.
Qed.

Lemma map_from_own x m virt cs i r v : map_from x m virt i cs = (r, v) ->
  forall a p, (a, p) ∈ v -> exists n, n ∈ allocations x /\ pages n = p /\ cookie n ∈ cs.
Proof.
  revert i r v. induction cs as [|c cs IH]; intros i r v; cbn [map_from]; [intros [= _ <-] a p H; by apply not_elem_of_nil in H|].
  destruct (sd_map_one x m (nth_virt virt i) c) as [[old|e] t] eqn:E.
  2: { intros [= _ <-] a p Hp. destruct (map_one_own _ _ _ _ _ _ E a p Hp) as (n & H1 & H2 & <-). exists n. split_and!; [done|done|by left]. }
  destruct (map_from x m virt (S i) cs) as [r' t'] eqn:E'. intros H a p Hp.
  assert (Hv : v = t ++ t') by (by destruct r'; simplify_eq). rewrite Hv in Hp. apply elem_of_app in Hp as [Hp|Hp].
  - destruct (map_one_own _ _ _ _ _ _ E a p Hp) as (n & H1 & H2 & <-). exists n. split_and!; [done|done|by left].
  - destruct (IH _ _ _ E' a p Hp) as (n & H1 & H2 & H3). exists n. split_and!; [done|done|by right].
Qed.

(** A whole call installs only pages of its own file. *)
Lemma ioctl_installs d cmd u k r d' t v : sd_unlocked_ioctl d cmd u k = (r, d', t, v) ->
  forall a p, (a, p) ∈ v -> exists n, n ∈ allocations (Device.st d) /\ pages n = p.
Proof.
  intros H a p Hp. revert H. unfold sd_unlocked_ioctl. repeat (destruct (_ =? _)); intros H;
    try (repeat case_match; simplify_eq; by apply not_elem_of_nil in Hp).
  - unfold sd_ioctl_map_phys in H. destruct (negb (k_in k)); [simplify_eq; by apply not_elem_of_nil in Hp|].
    destruct (sd_map_one _ _ _ _) as [[old|e] t1] eqn:E; simplify_eq; destruct (map_one_own _ _ _ _ _ _ E a p Hp) as (n & ? & ? & _); by exists n.
  - unfold sd_ioctl_map_phys_vec in H. destruct (negb (k_in k)); [simplify_eq; by apply not_elem_of_nil in Hp|].
    destruct (_ || _); [simplify_eq; by apply not_elem_of_nil in Hp|]. destruct (negb (k_kmalloc k)); [simplify_eq; by apply not_elem_of_nil in Hp|].
    destruct (negb (k_cookies k)); [simplify_eq; by apply not_elem_of_nil in Hp|].
    destruct (map_from _ _ _ _ _) as [[olds|e] t1] eqn:E; simplify_eq; destruct (map_from_own _ _ _ _ _ _ _ E a p Hp) as (n & ? & ? & _); by exists n.
Qed.

(** *** A node between look-up and installation *)

(** The call takes the allocation with cookie [c] from file [f]. *)
Definition frees (f c : Z) (o : op) : Prop :=
  match o with Ioctl g cmd u _ => g = f /\ cmd = SD_IOC_FREE_PHYS /\ u_cookie u = c | _ => False end.

(** A step of thread [t]. *)
Definition of_thread (t : Z) (o : op) : Prop :=
  match o with Begin t' _ _ _ _ | Lookup t' _ | Install t' _ => t' = t | _ => False end.

Lemma unlink_keeps l c l' call n : unlink_node l c = Some (l', call) -> n ∈ l -> cookie n <> c -> n ∈ l'.
Proof.
  revert l' call. induction l as [|x l IH]; intros l' call; simpl; [done|]. destruct (Z.eqb_spec (cookie x) c) as [Hx|Hx].
  - intros [= <- _] [->|H]%elem_of_cons Hn; done.
  - destruct (unlink_node l c) as [[l1 c1]|] eqn:E; [|done]. intros [= <- <-] [->|H]%elem_of_cons Hn; [by left|]. right. by eapply IH.
Qed.

Lemma ioctl_keeps d cmd u k r d' t v n : sd_unlocked_ioctl d cmd u k = (r, d', t, v) -> n ∈ allocations (Device.st d) ->
  ~ (cmd = SD_IOC_FREE_PHYS /\ u_cookie u = cookie n) -> n ∈ allocations (Device.st d').
Proof.
  intros H Hin Hno. revert H. unfold sd_unlocked_ioctl.
  destruct (cmd =? SD_IOC_GET_VERSION); [by intros [= _ <- _ _]|]. destruct (cmd =? SD_IOC_ECHO); [by intros [= _ <- _ _]|].
  destruct (cmd =? SD_IOC_ALLOC_PHYS).
  { unfold sd_ioctl_alloc_phys, sd_next_cookie. destruct (negb _); [by intros [= _ <- _ _]|]. destruct (_ || _); [by intros [= _ <- _ _]|].
    destruct (page_r _); [|by intros [= _ <- _ _]]. destruct (negb _); [by intros [= _ <- _ _]|]. intros [= _ <- _ _]. simpl. by right. }
  destruct (Z.eqb_spec cmd SD_IOC_FREE_PHYS) as [Hc|Hc].
  { unfold sd_ioctl_free_phys. destruct (k_in k); cbn [negb]; [|by intros [= _ <- _ _]].
    destruct (unlink_node _ _) as [[l call]|] eqn:E; intros [= _ <- _ _]; [|done]. simpl.
    eapply unlink_keeps; [exact E|done|]. intros Hn. by apply Hno. }
  repeat (destruct (_ =? _)); intros; repeat case_match; by simplify_eq.
Qed.

(** A node that a flight has looked up stays with its file and its flight until
    it is freed or the thread goes on. *)
Definition in_flight (s : module) (t f : Z) (n : sd_alloc_node) : Prop :=
  exists fl x, flights s !! t = Some fl /\ fl_file fl = f /\ fl_node fl = Some n /\ files s !! f = Some x /\ n ∈ allocations x.

Lemma step_in_flight s o r s' t v t0 f n : step s o = Some (r, s', t, v) -> in_flight s t0 f n ->
  ~ of_thread t0 o -> ~ frees f (cookie n) o -> in_flight s' t0 f n.
Proof.
  intros H (fl & x & Hfl & Hf & Hn & Hx & Hin) Ht Hfr. pose proof (mapping_parts _ _ _ _ _ _ H) as Hm.
  assert (Hkeep : forall t' w, t' <> t0 -> files s' = files s -> flights s' = <[t' := w]> (flights s) \/ flights s' = delete t' (flights s)
    \/ flights s' = flights s -> in_flight s' t0 f n).
  { intros t' w Hne Ef Efl. exists fl, x. split_and!; try done; [|by rewrite Ef].
    destruct Efl as [-> |[-> | ->]]; [by rewrite lookup_insert_ne|by rewrite lookup_delete_ne|done]. }
  destruct o as [g kz|g cmd u k|g|t' g vec u k|t' k|t' k]; cbn [of_thread frees] in Ht, Hfr; cbn [step] in H.
  - destruct (decide _) as [|Hg]; [done|]. unfold sd_open in H. destruct kz; simplify_eq; [|by exists fl, x].
    exists fl, x. split_and!; try done. cbn [files]. rewrite lookup_insert_ne; [done|]. intros ->. apply Hg. by eexists.
  - destruct (files s !! g) as [y|] eqn:Hy; [|done]. cbn [mbind option_bind] in H.
    destruct (sd_unlocked_ioctl _ _ _ _) as [[[r1 d1] t1] v1] eqn:E. simplify_eq. cbn [files flights].
    destruct (decide (g = fl_file fl)) as [->|Hg]; [|exists fl, x; split_and!; try done; cbn [files]; by rewrite lookup_insert_ne].
    simplify_eq. exists fl, (Device.st d1). split_and!; try done; [cbn [files]; by rewrite lookup_insert_eq|].
    eapply ioctl_keeps; [exact E|done|]. intros [-> Hu]. by apply Hfr.
  - destruct (files s !! g) as [y|] eqn:Hy; [|done]. cbn [mbind option_bind] in H. destruct (decide _) as [Hall|]; [|done]. simplify_eq.
    exists fl, x. split_and!; try done. cbn [files]. rewrite lookup_delete_ne; [done|]. intros ->. by apply (Hall t0 fl Hfl).
  - destruct Hm as (Ef & _). destruct (files s !! g); [|done]. cbn [mbind option_bind] in H. destruct (decide _); [done|].
    destruct (map_begin g vec u k) as [w|]; simplify_eq; [|by exists fl, x]. apply (Hkeep t' w); [done|done|by left].
  - destruct Hm as (Ef & _). destruct (flights s !! t') as [w|]; [|done]. cbn [mbind option_bind] in H.
    destruct (files s !! fl_file w); [|done]. cbn [mbind option_bind] in H. destruct (fl_node w), (fl_cookies w); try done.
    destruct (sd_map_lookup _ _ _ _); injection H as <- <- <- <-.
    + eapply (Hkeep t'); [done|done|by left].
    + apply (Hkeep t' w); [done|done|right; by left].
  - destruct Hm as (Ef & _). destruct (flights s !! t') as [w|]; [|done]. cbn [mbind option_bind] in H. destruct (fl_node w), (fl_cookies w) as [|c [|c' cs]]; try done;
      destruct (sd_map_install _ _ _) as [[]]; injection H as <- <- <- <-; first [eapply (Hkeep t'); [done|done|by left] | apply (Hkeep t' w); [done|done|right; by left]].
Qed.

Lemma run_in_flight s ops rs s' t v t0 f n : run s ops = Some (rs, s', t, v) -> in_flight s t0 f n ->
  Forall (fun o => ~ of_thread t0 o /\ ~ frees f (cookie n) o) ops -> in_flight s' t0 f n.
Proof.
  revert s rs t v. induction ops as [|o ops IH]; intros s rs t v H Hi Hops; cbn [run] in H; [by simplify_eq|].
  apply Forall_cons in Hops as [[H1 H2] Hops].
  destruct (step s o) as [[[[r s1] t1] v1]|] eqn:E; [|done]. cbn [mbind option_bind] in H. destruct (run s1 ops) as [[[[rs2 s2] t2] v2]|] eqn:E2; [|done].
  cbn [mbind option_bind] in H. injection H as _ <- _ _. eapply IH; [exact E2| |done]. by eapply step_in_flight.
Qed.

Lemma run_cons s o ops r s1 t1 v1 rs s2 t2 v2 : step s o = Some (r, s1, t1, v1) -> run s1 ops = Some (rs, s2, t2, v2) ->
  run s (o :: ops) = Some (r :: rs, s2, t1 ++ t2, v1 ++ v2).
Proof. intros H1 H2. cbn [run]. rewrite H1. cbn [mbind option_bind]. by rewrite H2. Qed.

(** A mapping that no call interrupts runs the loop of the whole call. *)
Lemma flight_completes s t k f x vec virt i cs olds r v : cs <> [] -> files s !! f = Some x ->
  flights s !! t = Some (mkFlight f vec virt i cs olds None) -> map_from x (k_mm k) virt i cs = (r, v) ->
  exists ops rs, Forall (fun o => o = Lookup t k \/ o = Install t k) ops
    /\ run s ops = Some (rs ++ [Some (match r with
         | inl os => map_done (mkFlight f vec virt (i + length cs) [] (olds ++ os) None) k | inr e => RError e end)],
         set_flights s (delete t (flights s)), [], v).
Proof.
  revert s i olds r v. induction cs as [|c cs IH]; intros s i olds r v Hne Hf Ht Hm; [done|]. clear Hne. cbn [map_from] in Hm.
  unfold sd_map_one in Hm. destruct (sd_map_lookup x (k_mm k) (nth_virt virt i) c) as [n|e] eqn:El.
  2: { simplify_eq. exists [Lookup t k], []. split; [by constructor; [left|]|]. cbn [run step]. rewrite Ht. cbn. rewrite Hf. cbn. by rewrite El. }
  set (s1 := set_flights s (<[t := mkFlight f vec virt i (c :: cs) olds (Some n)]> (flights s))).
  assert (H1 : step s (Lookup t k) = Some (None, s1, [], [])) by (cbn [step]; rewrite Ht; cbn; rewrite Hf; cbn; by rewrite El).
  assert (Hl1 : flights s1 !! t = Some (mkFlight f vec virt i (c :: cs) olds (Some n))) by apply lookup_insert_eq.
  destruct (sd_map_install (k_mm k) (nth_virt virt i) n) as [[old|e] v1] eqn:Ei.
  2: { simplify_eq. exists [Lookup t k; Install t k], [None]. split; [by constructor; [left|constructor; [right|]]|].
    erewrite run_cons; [|exact H1|eapply run_cons; [|done]]; [|cbn [step]; rewrite Hl1; cbn; by rewrite Ei].
    simpl. rewrite app_nil_r. unfold set_flights. simpl. by rewrite delete_insert_eq. }
  destruct (map_from x (k_mm k) virt (S i) cs) as [r' v'] eqn:Em. destruct cs as [|c' cs].
  - simpl in Em. simplify_eq. exists [Lookup t k; Install t k], [None]. split; [by constructor; [left|constructor; [right|]]|].
    erewrite run_cons; [|exact H1|eapply run_cons; [|done]]; [|cbn [step]; rewrite Hl1; cbn; by rewrite Ei].
    simpl. rewrite Nat.add_1_r. unfold set_flights. simpl. by rewrite delete_insert_eq.
  - set (s2 := set_flights s1 (<[t := mkFlight f vec virt (S i) (c' :: cs) (olds ++ [old]) None]> (flights s1))).
    assert (H2 : step s1 (Install t k) = Some (None, s2, [], v1)) by (cbn [step]; rewrite Hl1; cbn; by rewrite Ei).
    destruct (IH s2 (S i) (olds ++ [old]) r' v') as (ops & rs & Hops & Hrun); [done|done|apply lookup_insert_eq|done|].
    exists (Lookup t k :: Install t k :: ops), (None :: None :: rs). split; [constructor; [by left|constructor; [by right|done]]|].
    erewrite run_cons; [|exact H1|eapply run_cons; [exact H2|exact Hrun]].
    assert (Es : set_flights s2 (delete t (flights s2)) = set_flights s (delete t (flights s))) by (unfold s2, s1, set_flights; simpl; by rewrite !delete_insert_eq).
    rewrite Es. replace (i + length (c :: c' :: cs))%nat with (S i + length (c' :: cs))%nat by (simpl; lia).
    destruct r' as [os|e]; simplify_eq; [|done]. by rewrite <- app_assoc.
Qed.

(** The look-up of a flight finds a node of its own file. *)
Lemma lookup_in_flight s t k s1 tr v : step s (Lookup t k) = Some (None, s1, tr, v) -> exists f n, in_flight s1 t f n
  /\ forall fl, flights s !! t = Some fl -> fl_file fl = f /\ head (fl_cookies fl) = Some (cookie n).
Proof.
  cbn [step]. destruct (flights s !! t) as [fl|] eqn:Hfl; [|done]. cbn [mbind option_bind].
  destruct (files s !! fl_file fl) as [x|] eqn:Hx; [|done]. cbn [mbind option_bind].
  destruct (fl_node fl); [done|]. destruct (fl_cookies fl) as [|c cs] eqn:Ec; [done|].
  destruct (sd_map_lookup _ _ _ _) as [n|e] eqn:E; [|done]. intros [= <- _ _]. apply lookup_in in E as [Hin Hc].
  exists (fl_file fl), n. split; [|intros fl' [= <-]; rewrite Ec; simpl; by rewrite Hc].
  eexists _, x. split; [apply lookup_insert_eq|]. done.
Qed.

(** C31: over the life of the module, whatever its users do with several open files
    and threads, every page taken from the allocator has gone back with its order
    or belongs to an open file, so nothing is left when the last one is closed.
    As long as fewer than 2^64 calls were made no file can free or map a page of
    another: its cookie is refused, and every page that a whole [MAP_PHYS] or
    [MAP_PHYS_VEC] installs is one of the file's own.  A mapping by a thread that
    other calls interrupt, also after [sd_map_one] has looked the node up and
    dropped the lock, installs a page of its own file too, provided that no thread
    frees that allocation before it is installed; without that it does not, see
    [freed_page_mapped]. *)
Theorem module_isolates c ops rs s t v : run (module_new c) ops = Some (rs, s, t, v) -> 0 <= c -> c + Z.of_nat (length ops) < 2 ^ 64 ->
  allocated t ≡ₚ freed t ++ gather pages_of (files s)
  /\ (forall f g x y n u k, files s !! f = Some x -> files s !! g = Some y -> f <> g -> n ∈ allocations x -> u_cookie u = cookie n -> k_in k = true ->
       step s (Ioctl g SD_IOC_FREE_PHYS u k) = Some (Some (RError EINVAL), s, [], [])
       /\ exists e, step s (Ioctl g SD_IOC_MAP_PHYS u k) = Some (Some (RError e), s, [], []))
  /\ (forall g cmd u k r s' tr ins, step s (Ioctl g cmd u k) = Some (r, s', tr, ins) -> forall a p, (a, p) ∈ ins -> own_page s g p)
  /\ (forall t0 k1 s1 tr1 ins1 fl mid rs2 s2 tr2 ins2 k3 r3 s3 tr3 ins3,
        flights s !! t0 = Some fl -> step s (Lookup t0 k1) = Some (None, s1, tr1, ins1) -> run s1 mid = Some (rs2, s2, tr2, ins2) ->
        Forall (fun o => ~ of_thread t0 o /\ forall c0, head (fl_cookies fl) = Some c0 -> ~ frees (fl_file fl) c0 o) mid ->
        step s2 (Install t0 k3) = Some (r3, s3, tr3, ins3) -> forall a p, (a, p) ∈ ins3 -> own_page s2 (fl_file fl) p).
Proof.
  intros H H0 H1. split_and!.
  - pose proof (run_ledger _ _ _ _ _ _ H) as Hl. cbn [files module_new] in Hl. unfold gather in Hl at 1. rewrite map_to_list_empty in Hl. cbn [mbind list_bind] in Hl. by rewrite app_nil_r in Hl.
  - intros f g x y n u k Hf Hg Hne Hn Hu Hk. assert (Hwf : cookies_wf s).
    { eapply run_cookies; [| | |exact H]; [done|done|]. split; cbn [files module_new]; unfold gather; rewrite map_to_list_empty; [constructor|by intros ? ?%not_elem_of_nil]. }
    pose proof (foreign_cookie s f g x y n Hwf Hf Hg Hne Hn) as Hno. cbn [step]. rewrite Hg. cbn [mbind option_bind].
    assert (Es : forall r : reply, Some (Some r, mkModule (<[g := y]> (files s)) (counter s) (flights s), [] : list page_call, [] : list (Z * Z)) = Some (Some r, s, [], []))
      by (intros r; rewrite insert_id by done; by destruct s).
    split.
    + change (sd_unlocked_ioctl (mkDev y (counter s)) SD_IOC_FREE_PHYS u k) with
        (let '(r, d, t) := sd_ioctl_free_phys (mkDev y (counter s)) (u_cookie u) (k_in k) in (reply_of (fun _ => RDone) r, d, t, [] : list (Z * Z))).
      unfold sd_ioctl_free_phys. rewrite Hk, Hu. cbn [negb Device.st]. rewrite unlink_absent by done. exact (Es _).
    + change (sd_unlocked_ioctl (mkDev y (counter s)) SD_IOC_MAP_PHYS u k) with
        (let '(r, t) := sd_ioctl_map_phys y (k_mm k) (u_virt u) (u_cookie u) (k_in k) (k_out k) in (reply_of RValue r, mkDev y (counter s), [] : list page_call, t)).
      unfold sd_ioctl_map_phys, sd_map_one, sd_map_lookup. rewrite Hk, Hu. cbn [negb]. rewrite (find_absent y (cookie n) Hno).
      repeat case_match; simplify_eq; eexists; exact (Es _).
  - intros g cmd u k r s' tr ins Hs a p Hp. cbn [step] in Hs. destruct (files s !! g) as [x|] eqn:Hx; [|done]. cbn [mbind option_bind] in Hs.
    destruct (sd_unlocked_ioctl _ _ _ _) as [[[r1 d1] t1] v1] eqn:E. simplify_eq.
    destruct (ioctl_installs _ _ _ _ _ _ _ _ E a p Hp) as (n & H2 & H3). by exists x, n.
  - intros t0 k1 s1 tr1 ins1 fl mid rs2 s2 tr2 ins2 k3 r3 s3 tr3 ins3 Hfl Hl Hr Hmid Hi a p Hp.
    destruct (lookup_in_flight _ _ _ _ _ _ Hl) as (f & n & Hin & Hn). destruct (Hn fl Hfl) as [<- Hc].
    eapply run_in_flight in Hin; [|exact Hr|eapply Forall_impl; [exact Hmid|]; intros o [Ho1 Ho2]; split; [done|by apply Ho2]].
    destruct Hin as (fl2 & x & Hfl2 & Hf2 & Hn2 & Hx & Hnx). exists x, n. split; [done|]. split; [done|].
    cbn [step] in Hi. rewrite Hfl2 in Hi. cbn [mbind option_bind] in Hi. rewrite Hn2 in Hi. destruct (fl_cookies fl2) as [|c1 cs]; [done|].
    destruct (sd_map_install _ _ _) as [r0 v0] eqn:E. assert (v0 = ins3) as -> by (repeat case_match; by simplify_eq).
    symmetry. by eapply install_page.
Qed.

(** ** Examples: one of two files has four pages *)

Definition demo_user : user := mkUser 0 (mkAlloc 3 0 0 0) 1 8192 0 [].
Definition demo_mm : mm := mkMm true (fun _ => true) (fun _ => None) (fun _ _ => None).
Definition demo_kernel : kernel := mkKernel demo_mm (Some 70) true true true true true.
Definition other_kernel : kernel := mkKernel demo_mm (Some 90) true true true true true.
Definition demo_ops : list op := [Open 1 true; Open 2 true; Ioctl 1 SD_IOC_ALLOC_PHYS demo_user demo_kernel; Begin 5 1 false demo_user demo_kernel].
Definition demo_flight : flight := mkFlight 1 false 8192 0 [1] [] None.
Definition demo_module : module := mkModule {[1 := mkFilp [mkNode 1 0 4 70]; 2 := mkFilp []]} 1 {[5 := demo_flight]}.

(** Another file cannot free the pages, and the interrupted mapping of the first
    file, during which the second one allocates, installs its own page. *)
Lemma module_isolates_witness : step demo_module (Ioctl 2 SD_IOC_FREE_PHYS demo_user demo_kernel) = Some (Some (RError EINVAL), demo_module, [], [])
  /\ exists s1 s2 s3 rs tr, step demo_module (Lookup 5 demo_kernel) = Some (None, s1, [], [])
     /\ run s1 [Ioctl 2 SD_IOC_ALLOC_PHYS demo_user other_kernel] = Some (rs, s2, tr, [])
     /\ step s2 (Install 5 demo_kernel) = Some (Some (RValue 0), s3, [], [(8192, 70)]) /\ own_page s2 1 70.
Proof.
  destruct (module_isolates 0 demo_ops [Some RDone; Some RDone; Some (RAlloc (mkAlloc 3 0 0 1)); None] demo_module [PAlloc 70 2] [])
    as (_ & Hf & _ & Hm); [vm_compute; reflexivity|lia|vm_compute; reflexivity|]. split.
  - apply (Hf 1 2 (mkFilp [mkNode 1 0 4 70]) (mkFilp []) (mkNode 1 0 4 70)); [reflexivity|reflexivity|lia|left|reflexivity|reflexivity].
  - do 5 eexists. split; [vm_compute; reflexivity|]. split; [vm_compute; reflexivity|]. split; [vm_compute; reflexivity|].
    eapply (Hm 5 demo_kernel _ _ _ demo_flight [Ioctl 2 SD_IOC_ALLOC_PHYS demo_user other_kernel] _ _ _ _ demo_kernel);
      [reflexivity|vm_compute; reflexivity|vm_compute; reflexivity| |vm_compute; reflexivity|left].
    constructor; [|constructor]. split; [intros []|]. intros c0 _ [Hg _]. discriminate Hg.
Defined.

(** A mapping of freed memory: after thread 5 has looked up the node of file 1 and
    dropped the lock, another thread frees the allocation, and file 2 is given the
    same page; then thread 5 installs it in the memory of the process of file 1. *)
Lemma freed_page_mapped : exists rs s tr,
  run (module_new 0) (demo_ops ++ [Lookup 5 demo_kernel; Ioctl 1 SD_IOC_FREE_PHYS demo_user demo_kernel;
      Ioctl 2 SD_IOC_ALLOC_PHYS demo_user demo_kernel; Install 5 demo_kernel]) = Some (rs, s, tr, [(8192, 70)])
  /\ files s !! 1 = Some (mkFilp []) /\ own_page s 2 70.
Proof.
  eexists _, _, _. split; [vm_compute; reflexivity|]. split; [vm_compute; reflexivity|].
  exists (mkFilp [mkNode 2 0 4 70]), (mkNode 2 0 4 70). split; [vm_compute; reflexivity|]. split; [left|done].
Qed.

End KernelModule.
