(* ===== verification/RdmaSetup.v ===== *)
(** * Setting up RDMA between the prototype's library and a remote monitor

    [common/rdma.cpp] (choice of the device, queue pairs), [lib/rdma_lib.cpp] and
    the set-up half of [monitor/rdma_monitor.cpp]: a process that connects to an
    address of another host opens a TCP connection to the monitor there, the two
    exchange the data of their queue pairs, and each connects its queue pair and
    places a control queue in the registered memory.  Also the exchange on the
    local set-up socket ([setup_sock_lib.cpp], [setup_sock_monitor.cpp]).

    The verbs library is not part of the sources: what it is asked to do is
    recorded, and what it answers is an argument, like the results of [send] and
    [recv]. *)

From Stdlib Require Import ZArith Lia.
From stdpp Require Import numbers base gmap list strings.
From S2P Require Import Prelude LocklessQueue Metaqueue IpBuffer Interprocess QueueV2 ProtoMonitor.

Module RdmaSetup.

(** ** The loops on a socket *)

(** [while (left_byte > 0)] with the results of [send]; the bytes that leave.
    [None]: an answer is missing, or the call reads outside the buffer. *)
Fixpoint send_loop (buf : list Z) (currptr left_byte : Z) (rs : list Z) : option (list Z) :=
  if 0 <? left_byte then
    match rs with
    | [] => None
    | r :: rs =>
        if (currptr <? 0) || (Z.of_nat (length buf) <? currptr + left_byte) then None
        else
          rest ← send_loop buf (currptr + r) (left_byte - r) rs;
          Some (take (Z.to_nat r) (drop (Z.to_nat currptr) buf) ++ rest)
    end
  else Some [].

(** The same with [recv], whose result is what arrived; [None] in the list is the
    result -1.  The contents of the buffer. *)
Fixpoint recv_loop (buf : list Z) (currptr left_byte : Z) (rs : list (option (list Z))) : option (list Z) :=
  if 0 <? left_byte then
    match rs with
    | [] => None
    | r :: rs =>
        if (currptr <? 0) || (Z.of_nat (length buf) <? currptr + left_byte) then None
        else
          let chunk := default [] r in
          let n := match r with Some c => Z.of_nat (length c) | None => -1 end in
          recv_loop (list_inserts (Z.to_nat currptr) chunk buf) (currptr + n) (left_byte - n) rs
    end
  else Some buf.

(** [do ... while (curr_byte != 1)]; [None]: an error, or no answer. *)
Fixpoint ack_loop (rs : list Z) : option unit :=
  match rs with
  | [] => None
  | r :: rs => if r =? -1 then None else if r =? 1 then Some tt else ack_loop rs
  end.

(** ** Queue pairs *)

Record qp_info_t := mkQpInfo {
  port_lid : Z; RoCE_gid : list Z; qpn : Z; buf_size : Z; remote_buf_addr : Z; rkey : Z; qid : Z }.

Definition sizeof_qp_info : Z := 48.

(** Its image in memory, with what is in the six bytes before the alignment. *)
Definition encode (pad : list Z) (i : qp_info_t) : list Z :=
  QueueV2.le 2 (port_lid i) ++ pad ++ RoCE_gid i ++ QueueV2.le 4 (qpn i) ++ QueueV2.le 4 (buf_size i)
  ++ QueueV2.le 8 (remote_buf_addr i) ++ QueueV2.le 4 (rkey i) ++ QueueV2.le 4 (qid i).

Definition field (bs : list Z) (off n : nat) : Z := QueueV2.of_le (take n (drop off bs)).

Definition decode (bs : list Z) : qp_info_t :=
  mkQpInfo (field bs 0 2) (take 16 (drop 8 bs)) (field bs 24 4) (field bs 28 4) (field bs 32 8) (field bs 40 4) (swrap32 (field bs 44 4)).

(** [rdma_pack]: the device and the registered memory. *)
Record rdma_pack := mkPack { dev_port_id : Z; p_lid : Z; p_gid : list Z; has_pd : bool; MR_ptr : Z; mr_lkey : Z; mr_rkey : Z }.

Inductive qp_state := IBV_QPS_INIT | IBV_QPS_RTR | IBV_QPS_RTS.

(** The attributes that depend on the peer or on the device. *)
Record qp_attr := mkAttr { a_state : qp_state; a_port : option Z; a_dest : option (Z * Z * list Z); a_psn : option Z }.

(** A request to the verbs library. *)
Inductive verb := CreateQp (qp : Z) | ModifyQp (qp : Z) (a : qp_attr).


(** [None]: a fatal error.  [create_r] is the number of the new queue pair. *)
Definition rdma_create_qp (ctx : rdma_pack) (recv_cq : bool) (create_r : option Z) (modify_ok : bool) : option (Z * list verb) :=
  if negb (has_pd ctx) then None
  else if negb recv_cq then None
  else
    qp ← create_r;
    if modify_ok then Some (qp, [CreateQp qp; ModifyQp qp (mkAttr IBV_QPS_INIT (Some (dev_port_id ctx)) None None)]) else None.

Definition rdma_connect_remote_qp (qp : Z) (ctx : rdma_pack) (remote : qp_info_t) (rtr_ok rts_ok : bool) : option (list verb) :=
  if negb rtr_ok then None
  else if negb rts_ok then None
  else Some [ModifyQp qp (mkAttr IBV_QPS_RTR (Some (dev_port_id ctx)) (Some (qpn remote, port_lid remote, RoCE_gid remote)) (Some 3185));
             ModifyQp qp (mkAttr IBV_QPS_RTS None None (Some 3185))].

(** ** The device *)

Record port := mkPort { query_port : bool; active : bool; lid : Z; query_gid : option (list Z) }.
Record dev := mkDevice { open_ok : bool; query_ok : bool; name : string; ports : list port; close_ok : bool }.

Inductive found := Chosen (device_id port_i lid : Z) (gid : list Z) | Nothing | Fatal.

(** The ports of a device from [port_i] on; [Nothing]: none is active. *)
Fixpoint enum_ports (dev_i port_i : Z) (ps : list port) : found :=
  match ps with
  | [] => Nothing
  | p :: ps =>
      if negb (query_port p) then Fatal
      else if active p then match query_gid p with Some gid => Chosen (uwrap 8 dev_i) port_i (lid p) gid | None => Fatal end
      else enum_ports dev_i (port_i + 1) ps
  end.

(** The devices from [dev_i] on; [ib_ctx] says whether [p->ib_ctx] is not null,
    and the list what is open at the end. *)
Fixpoint enum_from (wanted : string) (dev_i : Z) (ib_ctx : bool) (opened : list Z) (ds : list dev) : found * list Z :=
  match ds with
  | [] => (if ib_ctx then Fatal else Nothing, opened)
  | d :: ds =>
      if negb (open_ok d) then enum_from wanted (dev_i + 1) false opened ds
      else if negb (query_ok d) then (Fatal, opened ++ [dev_i])
      else if negb (String.eqb wanted (name d)) then enum_from wanted (dev_i + 1) true (opened ++ [dev_i]) ds
      else
        match enum_ports dev_i 1 (ports d) with
        | Nothing => if close_ok d then enum_from wanted (dev_i + 1) true opened ds else (Fatal, opened ++ [dev_i])
        | r => (r, opened ++ [dev_i])
        end
  end.

(** [enum_dev]; [config] is the name in the configuration file. *)
Definition enum_dev (device_list : option (list dev)) (config : option string) : found * list Z :=
  match device_list with
  | None => (Nothing, [])
  | Some ds => match config with None => (Fatal, []) | Some wanted => enum_from wanted 0 false [] ds end
  end.

(** ** The library *)

Definition RDMA_MAX_CONN : Z := 10.
Definition RDMA_MAX_METAQUEUE : Z := 10.

(** A control queue to a remote monitor: its queue pair, the peer's key and
    memory, and the four queues here and there. *)
Record rdma_metaqueue := mkMq {
  mq_qp : Z; mq_rkey : Z; mq_remote : Z; baseaddr : Z; queue : Metaqueue.metaqueue_t; remote_q : (bool -> Z) * (bool -> Z) }.

Record lib := mkLib {
  context : rdma_pack; shared_cq : bool;
  local_metaqueue_base_addr : Z; local_interprocess_base_addr : Z;
  rdma_metaqueue_buffer_seq : Z; rdma_interprocess_seq : Z;
  remote_monitor : gmap Z rdma_metaqueue }.

Section lib.
Context (sizeof_mutex : Z).

Definition conn_size : Z := Interprocess.get_sharedmem_size sizeof_mutex.
Definition queue_size : Z := Metaqueue.get_sharememsize.

Definition shared_buf_size : Z := RDMA_MAX_CONN * conn_size + RDMA_MAX_METAQUEUE * queue_size.

(** [rdma_init_lib]: the results of [enum_dev], and of the allocation and
    registration of memory.  [inl true] is a fatal error and [inl false] a host
    without a device. *)
Definition rdma_init_lib (devs : found) (pd_ok : bool) (memalign_r : option Z) (reg_r : option (Z * Z)) (cq_ok : bool) : bool + lib :=
  match devs with
  | Fatal => inl true
  | Nothing => inl false
  | Chosen _ port_i lid gid =>
      if negb pd_ok then inl true
      else
        match memalign_r, reg_r with
        | Some ptr, Some (lkey, rkey) =>
            if cq_ok then inr (mkLib (mkPack port_i lid gid true ptr lkey rkey) true ptr (ptr + RDMA_MAX_METAQUEUE * queue_size) 0 0 ∅)
            else inl true
        | _, _ => inl true
        end
  end.

(** The place of connection [seq] behind [local_interprocess_base_addr], computed
    with [int]. *)
Definition conn_offset (seq : Z) : Z := (Z.quot (conn_size * seq - 1) 16 + 1) * 16.

Record rdma_self_pack_t := mkSelf { s_lid : Z; s_gid : list Z; s_qpn : Z; s_buf_size : Z; s_rkey : Z; localptr : Z }.

(** [None]: a fatal error, or an [int] that overflows. *)
Definition lib_new_qp (l : lib) (cq_ok : bool) (create_r : option Z) (modify_ok : bool) : option (rdma_self_pack_t * lib * list verb) :=
  if negb cq_ok then None
  else
    '(qp, vs) ← rdma_create_qp (context l) (shared_cq l) create_r modify_ok;
    if 2 ^ 31 <=? conn_size * rdma_interprocess_seq l then None
    else
      let ptr := u64 (local_interprocess_base_addr l + conn_offset (rdma_interprocess_seq l)) in
      Some (mkSelf (p_lid (context l)) (p_gid (context l)) qp conn_size (mr_rkey (context l)) ptr,
            mkLib (context l) (shared_cq l) (local_metaqueue_base_addr l) (local_interprocess_base_addr l)
              (rdma_metaqueue_buffer_seq l) (rdma_interprocess_seq l + 1) (remote_monitor l), vs).

(** What the system answers during the exchange, and what the variables on the
    stack hold before. *)
Record exchange := mkExchange {
  x_create : option Z; x_modify : bool; x_rtr : bool; x_rts : bool;
  x_send : list Z; x_recv : list (option (list Z)); x_ack_send : list Z; x_ack_recv : list Z;
  x_pad : list Z; x_qid : Z; x_recvbuf : list Z }.

(** What a side tells of its queue pair and of the control queue at [addr]. *)
Definition my_qpinfo (ctx : rdma_pack) (qp addr qid : Z) : qp_info_t := mkQpInfo (p_lid ctx) (p_gid ctx) qp queue_size addr (mr_rkey ctx) qid.

(** The place of the next control queue. *)
Definition queue_addr (l : lib) : Z := u64 (local_metaqueue_base_addr l + rdma_metaqueue_buffer_seq l * queue_size).

(** The exchange that both sides run with their own information: what is sent,
    what the peer sent, and the requests that connect the queue pair. *)
Definition swap_info (ctx : rdma_pack) (qp : Z) (info : qp_info_t) (x : exchange) : option (list Z * qp_info_t * list verb) :=
  sent ← send_loop (encode (x_pad x) info) 0 sizeof_qp_info (x_send x);
  got ← recv_loop (x_recvbuf x) 0 sizeof_qp_info (x_recv x);
  let peer_qpinfo := decode got in
  vs ← rdma_connect_remote_qp qp ctx peer_qpinfo (x_rtr x) (x_rts x);
  _ ← ack_loop (x_ack_send x);
  _ ← ack_loop (x_ack_recv x);
  Some (sent, peer_qpinfo, vs).

Definition rdma_try_connect_remote_monitor (l : lib) (remote_addr : Z) (socket_ok connect_ok : bool) (x : exchange)
    : option (rdma_metaqueue * lib * list Z * list verb) :=
  match remote_monitor l !! remote_addr with
  | Some mq => Some (mq, l, [], [])
  | None =>
      if negb socket_ok then None
      else if negb connect_ok then None
      else
        let ctx := context l in
        '(qp, vs) ← rdma_create_qp ctx (shared_cq l) (x_create x) (x_modify x);
        let my_addr := queue_addr l in
        '(sent, peer, vs') ← swap_info ctx qp (my_qpinfo ctx qp my_addr (x_qid x)) x;
        let mq := mkMq qp (rkey peer) (remote_buf_addr peer) my_addr
                    (Metaqueue.init_memlayout my_addr true) (Metaqueue.initRDMA (remote_buf_addr peer) true) in
        Some (mq, mkLib ctx (shared_cq l) (local_metaqueue_base_addr l) (local_interprocess_base_addr l)
                    (rdma_metaqueue_buffer_seq l + 1) (rdma_interprocess_seq l) (<[remote_addr := mq]> (remote_monitor l)), sent, vs ++ vs')
  end.

End lib.

(** ** The monitor *)

(** [rdma_init]: as in the library, with one buffer for [MAX_RDMA_CONN_NUM] control
    queues. *)
Definition rdma_init (devs : found) (pd_ok : bool) (memalign_r : option Z) (reg_r : option (Z * Z)) (cq_ok : bool) : bool + rdma_pack :=
  match devs with
  | Fatal => inl true
  | Nothing => inl false
  | Chosen _ port_i lid gid =>
      if negb pd_ok then inl true
      else
        match memalign_r, reg_r with
        | Some ptr, Some (lkey, rkey) => if cq_ok then inr (mkPack port_i lid gid true ptr lkey rkey) else inl true
        | _, _ => inl true
        end
  end.

(** The part of [try_new_rdma] from the creation of the queue pair on, for slot
    [proc_idx] and number [seq]: the control queue of the remote process, what
    [ProtoMonitor] stores of it, and what was sent and requested. *)
Definition accept_remote (ctx : rdma_pack) (send_cq : bool) (proc_idx seq : Z) (x : exchange)
    : option (rdma_metaqueue * ProtoMonitor.rdma_answers * list Z * list verb) :=
  if negb send_cq then None
  else
    '(qp, vs) ← rdma_create_qp ctx true (x_create x) (x_modify x);
    let my_addr := ProtoMonitor.rdma_region (MR_ptr ctx) proc_idx in
    '(sent, peer, vs') ← swap_info ctx qp (my_qpinfo ctx qp my_addr seq) x;
    Some (mkMq qp (rkey peer) (remote_buf_addr peer) my_addr
            (Metaqueue.init_memlayout my_addr false) (Metaqueue.initRDMA (remote_buf_addr peer) false),
          ProtoMonitor.mkRdmaAnswers (rkey peer) (remote_buf_addr peer), sent, vs ++ vs').

(** ** The local set-up socket *)

Record ctl_struc := mkCtl { tid : Z; pid : Z; key : Z; token : Z }.
Definition sizeof_ctl : nat := 24.

(** The loop asks for the whole structure each time and moves the pointer on, so
    that it may write behind [result]; an error moves it back, and with nothing
    received the unsigned count wraps around and ends the loop.  [mem] is the
    memory from [result] on; [None] in the list is the result -1. *)
Fixpoint setup_recv (mem : list Z) (len_recvd : nat) (rs : list (option (list Z))) : option (list Z) :=
  if (len_recvd <? sizeof_ctl)%nat then
    match rs with
    | [] => None
    | Some r :: rs =>
        let c := take sizeof_ctl r in
        setup_recv (take len_recvd mem ++ c ++ drop (len_recvd + length c) mem) (len_recvd + length c) rs
    | None :: rs => match len_recvd with O => Some mem | S n => setup_recv mem n rs end
    end
  else Some mem.

Definition ctl_image (pad : list Z) (c : ctl_struc) : list Z :=
  QueueV2.le 4 (tid c) ++ QueueV2.le 4 (pid c) ++ QueueV2.le 4 (key c) ++ pad ++ QueueV2.le 8 (token c).
Definition ctl_of (bs : list Z) : ctl_struc :=
  mkCtl (swrap32 (field bs 0 4)) (swrap32 (field bs 4 4)) (swrap32 (field bs 8 4)) (field bs 16 8).

(** [setup_sock_accept] with the result of [accept]: [Some None] is -1, for a
    client that is not there, and [None] a fatal error or no answer. *)
Definition setup_sock_accept (accepted again : bool) (result : list Z) (rs : list (option (list Z))) : option (option ctl_struc) :=
  if negb accepted then if again then Some None else None
  else got ← setup_recv result 0 rs; Some (Some (ctl_of got)).

(** [setup_sock_connect] sends its ids in one call and takes what comes back; it
    does not look at the results. *)
Definition setup_sock_connect (socket_ok connect_ok : bool) (my_tid my_pid : Z) (stack : ctl_struc) (pad reply : list Z) : option (list Z * ctl_struc) :=
  if negb socket_ok then None
  else if negb connect_ok then None
  else
    let data := ctl_image pad (mkCtl my_tid my_pid (key stack) (token stack)) in
    let data' := take sizeof_ctl reply ++ drop (length reply) data in
    Some (data, ctl_of data').

(** ** Short sends and receives *)

(** Results of [send] that are no errors, until everything is sent. *)
Inductive transfers : Z -> list Z -> Prop :=
  | tr_done : transfers 0 []
  | tr_more l r rs : 0 < l -> 0 <= r <= l -> transfers (l - r) rs -> transfers l (r :: rs).

(** Pieces that arrive, and their bytes. *)
Inductive arrives : Z -> list (option (list Z)) -> list Z -> Prop :=
  | ar_done : arrives 0 [] []
  | ar_more l c rs bs : 0 < l -> Z.of_nat (length c) <= l -> arrives (l - Z.of_nat (length c)) rs bs -> arrives l (Some c :: rs) (c ++ bs).

Lemma send_loop_ok buf cur left rs : transfers left rs -> 0 <= cur -> cur + left <= Z.of_nat (length buf) ->
  send_loop buf cur left rs = Some (take (Z.to_nat left) (drop (Z.to_nat cur) buf)).
Proof.
  intros H. revert cur. induction H as [|l r rs Hl Hr Ht IH]; intros cur H0 H1; cbn [send_loop]; [done|].
  rewrite (proj2 (Z.ltb_lt 0 l)) by done. rewrite (proj2 (Z.ltb_ge cur 0)), (proj2 (Z.ltb_ge _ _)) by lia. cbn [orb]. rewrite IH by lia. cbn [mbind option_bind]. f_equal.
  rewrite <- (take_drop (Z.to_nat r) (take (Z.to_nat l) (drop (Z.to_nat cur) buf))). rewrite take_take, Nat.min_l by lia. f_equal.
  rewrite skipn_firstn_comm, drop_drop. f_equal; [lia|]. f_equal. lia.
Qed.

Lemma recv_loop_ok buf cur left rs bs : arrives left rs bs -> 0 <= cur -> cur + left <= Z.of_nat (length buf) ->
  recv_loop buf cur left rs = Some (list_inserts (Z.to_nat cur) bs buf).
Proof.
  intros H. revert buf cur. induction H as [|l c rs bs Hl Hc Ht IH]; intros buf cur H0 H1; cbn [recv_loop]; [done|].
  rewrite (proj2 (Z.ltb_lt 0 l)) by done. rewrite (proj2 (Z.ltb_ge cur 0)), (proj2 (Z.ltb_ge _ _)) by lia. cbn [orb default]. rewrite IH; [|lia|rewrite length_inserts; lia].
  rewrite list_inserts_app_l. do 3 f_equal. lia.
Qed.

Lemma arrives_length l rs bs : arrives l rs bs -> Z.of_nat (length bs) = l.
Proof. induction 1 as [|l c rs bs Hl Hc Ht IH]; [done|]. rewrite length_app. lia. Qed.

(** ** Records *)

Record qp_fits (i : qp_info_t) : Prop := {
  qf_lid : 0 <= port_lid i < 2 ^ 16; qf_gid : length (RoCE_gid i) = 16%nat; qf_qpn : 0 <= qpn i < 2 ^ 32; qf_size : 0 <= buf_size i < 2 ^ 32;
  qf_addr : 0 <= remote_buf_addr i < 2 ^ 64; qf_rkey : 0 <= rkey i < 2 ^ 32; qf_qid : - 2 ^ 31 <= qid i < 2 ^ 31 }.

Lemma encode_length pad i : length pad = 6%nat -> length (RoCE_gid i) = 16%nat -> length (encode pad i) = 48%nat.
Proof. intros Hp Hg. unfold encode. rewrite !length_app, !QueueV2.length_le, Hp, Hg. done. Qed.

(** The [n] bytes behind [off] others. *)
Lemma take_drop_mid (a b c : list Z) (off n : nat) : length a = off -> length b = n -> take n (drop off (a ++ b ++ c)) = b.
Proof. intros Ha Hb. rewrite drop_app_length' by done. by rewrite take_app_length'. Qed.

Ltac take_field a b c off n :=
  let E := fresh "E" in
  assert (E : take n (drop off (a ++ b ++ c)) = b) by (apply take_drop_mid; rewrite ?length_app; simpl; lia);
  rewrite <- ?app_assoc, ?app_nil_r, ?app_nil_l in E; rewrite E; clear E.

Lemma decode_encode_info pad i : length pad = 6%nat -> qp_fits i -> decode (encode pad i) = i.
Proof.
  intros Hp [H1 H2 H3 H4 H5 H6 H7]. destruct i as [l g q b a k d]. cbn [port_lid RoCE_gid qpn buf_size remote_buf_addr rkey qid] in *.
  unfold decode, field, encode. cbn [port_lid RoCE_gid qpn buf_size remote_buf_addr rkey qid].
  set (x1 := QueueV2.le 2 l). set (x4 := QueueV2.le 4 q). set (x5 := QueueV2.le 4 b). set (x6 := QueueV2.le 8 a). set (x7 := QueueV2.le 4 k). set (x8 := QueueV2.le 4 d).
  assert (L : length x1 = 2%nat /\ length x4 = 4%nat /\ length x5 = 4%nat /\ length x6 = 8%nat /\ length x7 = 4%nat /\ length x8 = 4%nat)
    by (split_and!; apply QueueV2.length_le). destruct L as (L1 & L4 & L5 & L6 & L7 & L8).
  take_field (@nil Z) x1 (pad ++ g ++ x4 ++ x5 ++ x6 ++ x7 ++ x8) 0%nat 2%nat.
  take_field (x1 ++ pad) g (x4 ++ x5 ++ x6 ++ x7 ++ x8) 8%nat 16%nat.
  take_field (x1 ++ pad ++ g) x4 (x5 ++ x6 ++ x7 ++ x8) 24%nat 4%nat.
  take_field (x1 ++ pad ++ g ++ x4) x5 (x6 ++ x7 ++ x8) 28%nat 4%nat.
  take_field (x1 ++ pad ++ g ++ x4 ++ x5) x6 (x7 ++ x8) 32%nat 8%nat.
  take_field (x1 ++ pad ++ g ++ x4 ++ x5 ++ x6) x7 x8 40%nat 4%nat.
  take_field (x1 ++ pad ++ g ++ x4 ++ x5 ++ x6 ++ x7) x8 (@nil Z) 44%nat 4%nat.
  unfold x1, x4, x5, x6, x7, x8. rewrite QueueV2.of_le_int by done. rewrite !QueueV2.of_le_le.
  f_equal; (rewrite Z.mod_small; [done|simpl; lia]).
Qed.

(** ** The exchange *)

(** Answers with which the exchange gets to its end: the queue pair is [qp], and
    [peer] are the bytes that arrive. *)
Record good (x : exchange) (qp : Z) (peer : list Z) : Prop := {
  g_create : x_create x = Some qp; g_modify : x_modify x = true; g_rtr : x_rtr x = true; g_rts : x_rts x = true;
  g_send : transfers sizeof_qp_info (x_send x); g_recv : arrives sizeof_qp_info (x_recv x) peer;
  g_ack_send : ack_loop (x_ack_send x) = Some tt; g_ack_recv : ack_loop (x_ack_recv x) = Some tt;
  g_pad : length (x_pad x) = 6%nat; g_buf : length (x_recvbuf x) = 48%nat }.

(** The requests of a side. *)
Definition requests (ctx : rdma_pack) (qp : Z) (peer : qp_info_t) : list verb :=
  [CreateQp qp; ModifyQp qp (mkAttr IBV_QPS_INIT (Some (dev_port_id ctx)) None None);
   ModifyQp qp (mkAttr IBV_QPS_RTR (Some (dev_port_id ctx)) (Some (qpn peer, port_lid peer, RoCE_gid peer)) (Some 3185));
   ModifyQp qp (mkAttr IBV_QPS_RTS None None (Some 3185))].

Lemma swap_info_ok ctx qp info x pad peer :
  good x qp (encode pad peer) -> qp_fits info -> qp_fits peer -> length pad = 6%nat ->
  swap_info ctx qp info x = Some (encode (x_pad x) info, peer, drop 2 (requests ctx qp peer)).
Proof.
  intros [Hc Hm Hr Hs Hsend Hrecv Ha Hb Hp Hl] Fi Fp Hpad. unfold swap_info.
  pose proof (encode_length (x_pad x) info Hp (qf_gid _ Fi)) as Li.
  rewrite (send_loop_ok _ _ _ _ Hsend) by (rewrite ?Li; unfold sizeof_qp_info; lia). cbn [mbind option_bind].
  rewrite (recv_loop_ok _ _ _ _ _ Hrecv) by (rewrite ?Hl; unfold sizeof_qp_info; lia). cbn [mbind option_bind].
  rewrite <- (app_nil_r (x_recvbuf x)). change (Z.to_nat 0) with 0%nat. rewrite list_inserts_0_r by (rewrite Hl, encode_length; done || apply Fp).
  rewrite app_nil_r, decode_encode_info by done. unfold rdma_connect_remote_qp. rewrite Hr, Hs, Ha, Hb. cbn [negb mbind option_bind].
  rewrite drop_0, take_ge by (rewrite Li; done). done.
Qed.

Lemma create_qp_ok ctx qp peer (x : exchange) bs : good x qp bs -> has_pd ctx = true ->
  rdma_create_qp ctx true (x_create x) (x_modify x) = Some (qp, take 2 (requests ctx qp peer)).
Proof. intros G Hpd. unfold rdma_create_qp. by rewrite Hpd, (g_create _ _ _ G), (g_modify _ _ _ G). Qed.

(** Each queue of a side is, for the other, the queue of the opposite index. *)
Lemma queues_meet base remote (loc i : bool) :
  0 <= base -> base + Metaqueue.get_sharememsize < 2 ^ 64 ->
  (Metaqueue.initRDMA base loc).1 i = Metaqueue.p_base (Metaqueue.q (Metaqueue.init_memlayout base (negb loc)) (negb i))
  /\ (Metaqueue.initRDMA base loc).2 i = Metaqueue.p_base (Metaqueue.q_emergency (Metaqueue.init_memlayout base (negb loc)) (negb i))
  /\ Metaqueue.p_receiver (Metaqueue.q (Metaqueue.init_memlayout remote loc) i) = i
  /\ Metaqueue.p_receiver (Metaqueue.q_emergency (Metaqueue.init_memlayout remote loc) i) = i.
Proof.
  intros H0 H1. destruct (Metaqueue.metaqueue_layout base base loc i H0 H1) as (E1 & R1 & E2 & R2 & _ & _ & F1 & F2).
  rewrite F1, F2, <- E1, <- E2. split_and!; [lia|lia|by destruct loc, i|by destruct loc, i].
Qed.

(** C27: set-up of RDMA with a remote monitor.  Where the calls to the system
    succeed and each side receives, in pieces of any size, the bytes the other
    side sends, both ends return.  Each queue pair is asked, in order, to be
    created, initialised and connected to the number, lid and gid of the other;
    each side keeps the other's key and the address of the other's control queue,
    and each of its four queues has as its remote address the place of the queue
    of opposite index of the other side.  The library finds the queue from then
    on without another exchange. *)
Theorem remote_setup (l : lib) (remote_addr : Z) (ctx : rdma_pack) (proc_idx seq qpc qpm : Z) (xc xm : exchange) :
  let ic := my_qpinfo (context l) qpc (queue_addr l) (x_qid xc) in
  let im := my_qpinfo ctx qpm (ProtoMonitor.rdma_region (MR_ptr ctx) proc_idx) seq in
  remote_monitor l !! remote_addr = None -> has_pd (context l) = true -> shared_cq l = true -> has_pd ctx = true ->
  good xc qpc (encode (x_pad xm) im) -> good xm qpm (encode (x_pad xc) ic) -> qp_fits ic -> qp_fits im ->
  queue_addr l + queue_size < 2 ^ 64 -> ProtoMonitor.rdma_region (MR_ptr ctx) proc_idx + queue_size < 2 ^ 64 ->
  exists mqc l' mqm,
    rdma_try_connect_remote_monitor l remote_addr true true xc = Some (mqc, l', encode (x_pad xc) ic, requests (context l) qpc im)
    /\ accept_remote ctx true proc_idx seq xm
       = Some (mqm, ProtoMonitor.mkRdmaAnswers (mr_rkey (context l)) (baseaddr mqc), encode (x_pad xm) im, requests ctx qpm ic)
    /\ mq_qp mqc = qpc /\ mq_qp mqm = qpm
    /\ mq_rkey mqc = mr_rkey ctx /\ mq_rkey mqm = mr_rkey (context l)
    /\ mq_remote mqc = baseaddr mqm /\ mq_remote mqm = baseaddr mqc
    /\ (forall i, (remote_q mqc).1 i = Metaqueue.p_base (Metaqueue.q (queue mqm) (negb i))
         /\ (remote_q mqm).1 i = Metaqueue.p_base (Metaqueue.q (queue mqc) (negb i))
         /\ (remote_q mqc).2 i = Metaqueue.p_base (Metaqueue.q_emergency (queue mqm) (negb i))
         /\ (remote_q mqm).2 i = Metaqueue.p_base (Metaqueue.q_emergency (queue mqc) (negb i))
         /\ Metaqueue.p_receiver (Metaqueue.q (queue mqc) i) = i /\ Metaqueue.p_receiver (Metaqueue.q (queue mqm) i) = i)
    /\ (forall a b x, rdma_try_connect_remote_monitor l' remote_addr a b x = Some (mqc, l', [], [])).
Proof.
  intros ic im Hn Hpc Hcq Hpm Gc Gm Fc Fm Bc Bm.
  pose proof (swap_info_ok (context l) qpc ic xc (x_pad xm) im Gc Fc Fm (g_pad _ _ _ Gm)) as Sc.
  pose proof (swap_info_ok ctx qpm im xm (x_pad xc) ic Gm Fm Fc (g_pad _ _ _ Gc)) as Sm.
  unfold rdma_try_connect_remote_monitor at 1, accept_remote. rewrite Hn, Hcq. cbn [negb].
  rewrite (create_qp_ok _ _ im _ _ Gc Hpc), (create_qp_ok _ _ ic _ _ Gm Hpm). cbn [mbind option_bind].
  fold ic im. rewrite Sc, Sm. cbn [mbind option_bind]. do 3 eexists. split; [reflexivity|]. split; [reflexivity|].
  cbn [mq_qp mq_rkey mq_remote baseaddr queue remote_q]. split_and!; try reflexivity.
  - intros i. destruct (queues_meet (remote_buf_addr im) (remote_buf_addr ic) true i) as (A1 & A2 & A3 & _); [apply Fm|done|].
    destruct (queues_meet (remote_buf_addr ic) (remote_buf_addr im) false i) as (B1 & B2 & B3 & _); [apply Fc|done|]. by split_and!.
  - intros a b x. unfold rdma_try_connect_remote_monitor. cbn [remote_monitor]. by rewrite lookup_insert_eq.
Qed.

(** A library whose memory is at 4096 and a monitor whose memory is at 65536; the
    pieces of 48 bytes are of different sizes on the two sides. *)
Definition demo_lib : lib := mkLib (mkPack 1 7 (repeat 1 16) true 4096 11 12) true 4096 (4096 + 10 * queue_size) 0 0 ∅.
Definition demo_pack : rdma_pack := mkPack 2 9 (repeat 2 16) true 65536 21 22.
Definition demo_client_info : qp_info_t := my_qpinfo (context demo_lib) 100 (queue_addr demo_lib) 5.
Definition demo_monitor_info : qp_info_t := my_qpinfo demo_pack 200 (ProtoMonitor.rdma_region 65536 3) 0.
Definition demo_exchange (qp qid : Z) (peer : qp_info_t) (n : nat) : exchange :=
  let bs := encode (repeat 0 6) peer in
  mkExchange (Some qp) true true true [Z.of_nat n; 48 - Z.of_nat n] [Some (take n bs); Some (drop n bs)] [0; 1] [1] (repeat 0 6) qid (repeat 255 48).

Lemma demo_good qp qid peer n : (0 < n < 48)%nat -> qp_fits peer -> good (demo_exchange qp qid peer n) qp (encode (repeat 0 6) peer).
Proof.
  intros Hn F. pose proof (encode_length (repeat 0 6) peer eq_refl (qf_gid _ F)) as L.
  split; try done; cbn [demo_exchange x_send x_recv]; unfold sizeof_qp_info.
  - apply tr_more; [lia..|]. apply tr_more; [lia..|]. rewrite Z.sub_diag. apply tr_done.
  - rewrite <- (take_drop n (encode (repeat 0 6) peer)) at 3. rewrite <- (app_nil_r (drop n _)) at 2.
    apply ar_more; [lia|rewrite length_take; lia|]. rewrite length_take, L. apply ar_more; [lia|rewrite length_drop; lia|].
    rewrite length_drop, L. replace (_ - _) with 0 by lia. apply ar_done.
Qed.

Lemma remote_setup_witness :
  exists mqc l' mqm,
    rdma_try_connect_remote_monitor demo_lib 77 true true (demo_exchange 100 5 demo_monitor_info 10)
    = Some (mqc, l', encode (repeat 0 6) demo_client_info, requests (context demo_lib) 100 demo_monitor_info)
    /\ accept_remote demo_pack true 3 0 (demo_exchange 200 0 demo_client_info 47)
       = Some (mqm, ProtoMonitor.mkRdmaAnswers 12 (baseaddr mqc), encode (repeat 0 6) demo_monitor_info, requests demo_pack 200 demo_client_info).
Proof.
  assert (Fc : qp_fits demo_client_info) by (split; vm_compute; split || idtac; congruence || reflexivity).
  assert (Fm : qp_fits demo_monitor_info) by (split; vm_compute; split || idtac; congruence || reflexivity).
  destruct (remote_setup demo_lib 77 demo_pack 3 0 100 200 (demo_exchange 100 5 demo_monitor_info 10) (demo_exchange 200 0 demo_client_info 47))
    as (mqc & l' & mqm & H1 & H2 & _); [reflexivity..|apply demo_good; [lia|exact Fm]|apply demo_good; [lia|exact Fc]|exact Fc|exact Fm|reflexivity|reflexivity|].
  exists mqc, l', mqm. split; [exact H1|exact H2].
Defined.

(** ** The memory of the library *)

(** The control queues the table holds are the places below the sequence number,
    each used once. *)
Definition places (l : lib) : Prop :=
  0 <= rdma_metaqueue_buffer_seq l
  /\ (forall a mq, remote_monitor l !! a = Some mq ->
       exists k, 0 <= k < rdma_metaqueue_buffer_seq l /\ baseaddr mq = u64 (local_metaqueue_base_addr l + k * queue_size))
  /\ (forall a b mq mq', remote_monitor l !! a = Some mq -> remote_monitor l !! b = Some mq' -> baseaddr mq = baseaddr mq' -> a = b).

Lemma init_places devs pd_ok mem reg cq_ok l : rdma_init_lib devs pd_ok mem reg cq_ok = inr l -> places l.
Proof.
  unfold rdma_init_lib. intros E. repeat case_match; simplify_eq. unfold places. cbn [rdma_metaqueue_buffer_seq remote_monitor].
  split_and!; [done|..]; intros *; rewrite lookup_empty; done.
Qed.

(** While there are at most [RDMA_MAX_METAQUEUE] remote monitors and the memory
    does not wrap around, the places differ. *)
Lemma connect_places l addr so co x mq l' sent vs :
  places l -> 0 <= local_metaqueue_base_addr l -> local_metaqueue_base_addr l + RDMA_MAX_METAQUEUE * queue_size < 2 ^ 64 ->
  rdma_metaqueue_buffer_seq l < RDMA_MAX_METAQUEUE ->
  rdma_try_connect_remote_monitor l addr so co x = Some (mq, l', sent, vs) -> places l'.
Proof.
  intros (H0 & Hb & Hi) Hl Hu Hs E. unfold rdma_try_connect_remote_monitor in E.
  destruct (remote_monitor l !! addr) eqn:En; [by simplify_eq|].
  destruct so, co; try discriminate E. cbn [negb] in E.
  destruct (rdma_create_qp _ _ _ _) as [[qp vs1]|]; [|discriminate E]. cbn [mbind option_bind] in E.
  destruct (swap_info _ _ _ _) as [[[sent1 peer] vs2]|]; [|discriminate E]. cbn [mbind option_bind] in E. simplify_eq.
  assert (Hw : forall k, 0 <= k <= rdma_metaqueue_buffer_seq l -> u64 (local_metaqueue_base_addr l + k * queue_size) = local_metaqueue_base_addr l + k * queue_size).
  { intros k Hk. apply uwrap_small. assert (HQ : queue_size = 16640) by done. unfold RDMA_MAX_METAQUEUE in *. rewrite HQ in *. split; lia. }
  assert (Hfresh : forall a m, remote_monitor l !! a = Some m -> baseaddr m <> queue_addr l).
  { intros a m Hm. destruct (Hb a m Hm) as (k & Hk & ->). unfold queue_addr. rewrite !Hw by lia. assert (queue_size = 16640) by done. lia. }
  unfold places. cbn [rdma_metaqueue_buffer_seq remote_monitor local_metaqueue_base_addr]. split_and!; [lia| |].
  - intros a m [[-> <-]|[Hne Hm]]%lookup_insert_Some; [by exists (rdma_metaqueue_buffer_seq l); split; [lia|]|].
    destruct (Hb a m Hm) as (k & Hk & Ek). exists k. split; [lia|done].
  - intros a b m m' [[-> <-]|[Hne Hm]]%lookup_insert_Some [[-> <-]|[Hne' Hm']]%lookup_insert_Some He; cbn [baseaddr] in He; [done|..].
    + by destruct (Hfresh b m' Hm').
    + by destruct (Hfresh a m Hm).
    + by eapply Hi.
Qed.

(** The number of remote monitors is not compared with [RDMA_MAX_METAQUEUE]: the
    queue of the next one is placed where the connections begin. *)
Lemma eleventh_queue devs reg ptr l : 0 <= ptr -> ptr + RDMA_MAX_METAQUEUE * queue_size < 2 ^ 64 ->
  rdma_init_lib devs true (Some ptr) reg true = inr l ->
  forall l', local_metaqueue_base_addr l' = local_metaqueue_base_addr l -> rdma_metaqueue_buffer_seq l' = RDMA_MAX_METAQUEUE ->
  queue_addr l' = local_interprocess_base_addr l.
Proof.
  intros Hp Hu E l' E1 E2. unfold rdma_init_lib in E. repeat case_match; simplify_eq. unfold queue_addr. rewrite E1, E2.
  cbn [local_metaqueue_base_addr local_interprocess_base_addr]. apply uwrap_small. unfold RDMA_MAX_METAQUEUE, is_uint in *. assert (queue_size = 16640) by done. lia.
Qed.

(** The first connection is placed 16 bytes behind the start of the memory, not
    at it, so that its end and the start of the second overlap. *)
Lemma first_two_overlap sm : 0 <= sm -> conn_offset sm 0 = 16 /\ conn_offset sm 1 < conn_offset sm 0 + conn_size sm.
Proof.
  intros Hs. assert (Hc : 1 <= conn_size sm).
  { unfold conn_size, Interprocess.get_sharedmem_size. assert (0 <= Interprocess.avail_size) by done. assert (0 <= Interprocess.queue_size) by done.
    assert (0 <= 2 * Interprocess.sizeof_block * IpBuffer.INTERPROCESS_SLOTS_IN_BUFFER) by done. assert (1 <= Interprocess.MAX_FD_NUM) by done. lia. }
  unfold conn_offset. rewrite Z.mul_0_r, Z.mul_1_r. split; [done|]. change (Z.quot (0 - 1) 16) with 0.
  rewrite Z.quot_div_nonneg by lia. pose proof (Z.mul_div_le (conn_size sm - 1) 16 eq_refl). lia.
Qed.

(** Nor is the number of connections compared with [RDMA_MAX_CONN]: the buffer of
    the eleventh is behind the registered memory. *)
Lemma eleventh_connection sm : 0 < conn_size sm -> RDMA_MAX_METAQUEUE * queue_size + conn_offset sm RDMA_MAX_CONN >= shared_buf_size sm.
Proof.
  intros Hc. unfold conn_offset, shared_buf_size, RDMA_MAX_CONN. rewrite Z.quot_div_nonneg by lia.
  pose proof (Z.mul_succ_div_gt (conn_size sm * 10 - 1) 16 eq_refl). lia.
Qed.

(** An error of [send] moves the pointer back, and the next call reads before the
    buffer; a peer that closes the connection leaves [recv] in its loop. *)
Lemma send_error_runs_back buf r rs : send_loop buf 0 sizeof_qp_info (-1 :: r :: rs) = None.
Proof. cbn [send_loop]. unfold sizeof_qp_info. by destruct (_ || _). Qed.

Lemma recv_closed_spins buf n : recv_loop buf 0 sizeof_qp_info (repeat (Some []) n) = None.
Proof. induction n as [|n IH]; [done|]. cbn [repeat recv_loop default length]. rewrite Z.add_0_r, Z.sub_0_r. change (0 <? sizeof_qp_info) with true. cbn [list_inserts]. by destruct (_ || _). Qed.

(** ** The device *)

(** A device of another name stays open, and with no device of the wanted name
    the assertion at the end fails where "no device" was meant. *)
Lemma other_name_aborts wanted d : open_ok d = true -> query_ok d = true -> wanted <> name d -> enum_dev (Some [d]) (Some wanted) = (Fatal, [0]).
Proof. intros H1 H2 H3. cbn. rewrite H1, H2. apply String.eqb_neq in H3. by rewrite H3. Qed.

(** The chosen port is the first active one of a device of the wanted name. *)
Lemma enum_ports_first dev_i ps : forall k d p l g, enum_ports dev_i k ps = Chosen d p l g ->
  exists q, ps !! Z.to_nat (p - k) = Some q /\ k <= p /\ active q = true /\ lid q = l /\ query_gid q = Some g
            /\ (forall j q', ps !! j = Some q' -> (j < Z.to_nat (p - k))%nat -> active q' = false).
Proof.
  induction ps as [|q ps IH]; intros k d p l g E; cbn [enum_ports] in E; [discriminate E|].
  destruct (query_port q); [|discriminate E]. cbn [negb] in E. destruct (active q) eqn:Ea.
  - destruct (query_gid q) as [g'|] eqn:Eg; [|discriminate E]. simplify_eq. exists q. rewrite Z.sub_diag. split_and!; try done. intros j q' _ Hj. simpl in Hj. lia.
  - destruct (IH _ _ _ _ _ E) as (q1 & H1 & H2 & H3 & H4 & H5 & H6). exists q1. replace (Z.to_nat (p - k)) with (S (Z.to_nat (p - (k + 1)))) by lia.
    split_and!; try done; [lia|]. intros [|j] q' Hj Hlt; simpl in Hj; [by simplify_eq|]. apply (H6 j q' Hj). lia.
Qed.

(** ** The local set-up socket *)

Lemma ctl_of_image pad c : length pad = 4%nat ->
  - 2 ^ 31 <= tid c < 2 ^ 31 -> - 2 ^ 31 <= pid c < 2 ^ 31 -> - 2 ^ 31 <= key c < 2 ^ 31 -> 0 <= token c < 2 ^ 64 ->
  length (ctl_image pad c) = sizeof_ctl /\ ctl_of (ctl_image pad c) = c.
Proof.
  intros Hp H1 H2 H3 H4. destruct c as [t p k o]. cbn [tid pid key token] in *. unfold ctl_image. cbn [tid pid key token].
  set (x1 := QueueV2.le 4 t). set (x2 := QueueV2.le 4 p). set (x3 := QueueV2.le 4 k). set (x5 := QueueV2.le 8 o).
  assert (L : length x1 = 4%nat /\ length x2 = 4%nat /\ length x3 = 4%nat /\ length x5 = 8%nat) by (split_and!; apply QueueV2.length_le). destruct L as (L1 & L2 & L3 & L5).
  split; [rewrite !length_app; unfold sizeof_ctl; lia|]. unfold ctl_of, field.
  take_field (@nil Z) x1 (x2 ++ x3 ++ pad ++ x5) 0%nat 4%nat. take_field x1 x2 (x3 ++ pad ++ x5) 4%nat 4%nat.
  take_field (x1 ++ x2) x3 (pad ++ x5) 8%nat 4%nat. take_field (x1 ++ x2 ++ x3 ++ pad) x5 (@nil Z) 16%nat 8%nat.
  unfold x1, x2, x3, x5. rewrite !QueueV2.of_le_int, QueueV2.of_le_le, Z.mod_small by (done || (simpl; lia)). done.
Qed.

(** A structure that comes in one piece, after any number of empty reads, is what
    [setup_sock_accept] hands on. *)
Lemma setup_one_piece result bs n : length result = sizeof_ctl -> length bs = sizeof_ctl ->
  setup_sock_accept true true result (repeat (Some []) n ++ [Some bs]) = Some (Some (ctl_of bs)).
Proof.
  intros Hr Hb. unfold setup_sock_accept. cbn [negb]. assert (E : setup_recv result 0 (repeat (Some []) n ++ [Some bs]) = Some bs).
  { induction n as [|n IH]; [|exact IH]. change (setup_recv result 0 (repeat (Some []) 0 ++ [Some bs])) with
      (setup_recv ([] ++ take sizeof_ctl bs ++ drop (length (take sizeof_ctl bs)) result) (length (take sizeof_ctl bs)) []).
    rewrite take_ge, Hb, drop_ge, app_nil_r by lia. done. }
  by rewrite E.
Qed.

(** What the two sides of the set-up socket exchange: the monitor learns the ids
    of the client, and the client what the monitor answers. *)
Lemma setup_exchange t p stack pad pad' result c :
  length pad = 4%nat -> length pad' = 4%nat -> length result = sizeof_ctl ->
  - 2 ^ 31 <= t < 2 ^ 31 -> - 2 ^ 31 <= p < 2 ^ 31 -> - 2 ^ 31 <= key stack < 2 ^ 31 -> 0 <= token stack < 2 ^ 64 ->
  - 2 ^ 31 <= tid c < 2 ^ 31 -> - 2 ^ 31 <= pid c < 2 ^ 31 -> - 2 ^ 31 <= key c < 2 ^ 31 -> 0 <= token c < 2 ^ 64 ->
  exists sent, setup_sock_connect true true t p stack pad (ctl_image pad' c) = Some (sent, c)
               /\ setup_sock_accept true true result [Some sent] = Some (Some (mkCtl t p (key stack) (token stack))).
Proof.
  intros Hp Hp' Hr T P K O T' P' K' O'. destruct (ctl_of_image pad (mkCtl t p (key stack) (token stack))) as [L E]; [done..|].
  destruct (ctl_of_image pad' c) as [L' E']; [done..|]. eexists. split.
  - unfold setup_sock_connect. cbn [negb]. rewrite take_ge, drop_ge, app_nil_r, E' by lia. done.
  - pose proof (setup_one_piece result _ 0 Hr L) as A. rewrite E in A. exact A.
Qed.

(** An error of the first [recv] is taken for the end: the monitor goes on with
    what the memory held.  And after a first short piece the next one is written
    past the structure. *)
Lemma setup_error_accepted result rs : setup_sock_accept true true result (None :: rs) = Some (Some (ctl_of result)).
Proof. done. Qed.

Lemma setup_overflow result a b : length result = sizeof_ctl -> (0 < length a < sizeof_ctl)%nat -> length b = sizeof_ctl ->
  setup_recv result 0 [Some a; Some b] = Some (a ++ b).
Proof.
  intros Hr Ha Hb. cbn [setup_recv]. change (0 <? sizeof_ctl)%nat with true. cbn match. rewrite (take_ge a), (take_ge b) by lia.
  rewrite Nat.add_0_l, (proj2 (Nat.ltb_lt _ _)) by lia. change (take 0 result) with (@nil Z). rewrite app_nil_l, take_app_length.
  rewrite drop_ge, app_nil_r by (rewrite length_app, length_drop; lia). by rewrite (proj2 (Nat.ltb_ge _ _)) by lia.
Qed.

End RdmaSetup.
