(* ===== verification/PotRdma.v ===== *)
(** * The throughput variant of the prototype over RDMA

    [lib/pot_socket_lib.cpp]: two processes connect with the helpers of [rdma] and
    move messages of [pot_mock_data] through buffers of [MAX_TST_MSG_SIZE] bytes.
    A message begins on a page; the reader waits for the last byte of the next
    one, clears it, and returns the pages in steps of [CREDIT_RETURN_THRESHOLD] by
    writing a byte into the writer's memory.  Whole pages are not copied but
    mapped.

    A process has page frames behind its addresses, so that two pages may be one
    frame.  RDMA writes are carried out in the order of posting, byte by byte from
    low to high addresses, at any time between the other steps.  The local
    variants [pot_write_nbyte] and [pot_read_nbyte] are not modelled here; those of
    [socket_lib.cpp] are in [ProtoSock]. *)

From Stdlib Require Import ZArith Lia.
From stdpp Require Import numbers base list strings relations.
From S2P Require Import Prelude Text.

Module PotRdma.

(** ** Memory *)

Definition PAGE_SIZE : Z := 4096.
Definition MAX_TST_MSG_SIZE : Z := 4194304.
Definition MIN_PAGES_FOR_ZEROCOPY : Z := 2.
Definition CREDIT_RETURN_THRESHOLD : Z := MAX_TST_MSG_SIZE / 2 / PAGE_SIZE + 1.
Definition kAppUnsigBatch : Z := 64.
Definition kHrdMaxInline : Z := 16.

(** Pages to frames, and the bytes of the frames. *)
Record vm := mkVm { frame : Z -> Z; cell : Z * Z -> Z }.

Definition phys (v : vm) (a : Z) : Z * Z := (frame v (a / PAGE_SIZE), a mod PAGE_SIZE).
Definition load (v : vm) (a : Z) : Z := cell v (phys v a).
Definition store (v : vm) (a b : Z) : vm := mkVm (frame v) (fun p => if decide (p = phys v a) then b else cell v p).

(** [memcpy], and a loop that stores [f i] at [a + i]. *)
Fixpoint copy (n : nat) (dst src : Z) (v : vm) : vm :=
  match n with
  | O => v
  | S n => let v := copy n dst src v in store v (dst + Z.of_nat n) (load v (src + Z.of_nat n))
  end.

Fixpoint fill (n : nat) (a : Z) (f : Z -> Z) (v : vm) : vm :=
  match n with O => v | S n => store (fill n a f v) (a + Z.of_nat n) (f (Z.of_nat n)) end.

(** What [map_physv] does to the address space: [n] pages from [page] on get the
    frames [fr]. *)
Definition remap (v : vm) (page : Z) (fr : Z -> Z) (n : Z) : vm :=
  mkVm (fun p => if (page <=? p) && (p <? page + n) then fr (p - page) else frame v p) (cell v).

(** ** Processes *)

(** The statics of the file; [send_phys] and [recv_phys] are the arrays
    [send_buffer_phys] and [recv_buffer_phys], [peer_buf] is [my_qp->buf_addr]. *)
Record proc := mkProc {
  mem : vm; conn_buf : Z; mock : Z; peer_buf : Z; send_phys : Z -> Z; recv_phys : Z -> Z;
  initialized : bool; fd_num : Z;
  w_counter : Z; w_credits : Z; nb_tx : Z; r_counter : Z; r_credits : Z; r_nb_tx : Z }.

Definition pot_mock_byte (i : Z) : Z := i mod 255 + 1.

Definition pot_init_write (p : proc) : proc :=
  let v := fill (Z.to_nat (2 * MAX_TST_MSG_SIZE)) (mock p) pot_mock_byte (mem p) in
  mkProc v (conn_buf p) (mock p) (peer_buf p) (fun i => frame v (mock p / PAGE_SIZE + i)) (recv_phys p)
    (initialized p) (fd_num p) (w_counter p) (w_credits p) (nb_tx p) (r_counter p) (r_credits p) (r_nb_tx p).

(** The names under which the two processes publish their queue pairs. *)
Fixpoint first_cpu (i : Z) (cpus : list bool) : Z :=
  match cpus with [] => 0 | b :: cpus => if b then i else first_cpu (i + 1) cpus end.

Definition pot_rdma_init (cpus : list bool) : string * string :=
  let id := Text.dec_u (first_cpu 0 cpus) in ("socksdirect-server-" +:+ id, "socksdirect-client-" +:+ id).

(** [hrd_get_published_qp] until it finds the peer. *)
Fixpoint wait_published (rs : list (option Z)) : option Z :=
  match rs with [] => None | Some a :: _ => Some a | None :: rs => wait_published rs end.

(** The common part of [pot_connect] and [pot_accept4]: the buffer at [buf] is
    cleared, filled with ones in its second part and cleared behind that. *)
Definition pot_setup (p : proc) (buf : Z) (rs : list (option Z)) : option proc :=
  let n := Z.to_nat (2 * MAX_TST_MSG_SIZE) in
  let v := fill n buf (fun _ => 0) (mem p) in
  let v := fill n (buf + 2 * MAX_TST_MSG_SIZE) (fun _ => 1) v in
  let v := fill (Z.to_nat MAX_TST_MSG_SIZE) (buf + 4 * MAX_TST_MSG_SIZE) (fun _ => 0) v in
  peer ← wait_published rs;
  Some (mkProc v buf (mock p) peer (send_phys p) (fun i => frame v (buf / PAGE_SIZE + i)) true (fd_num p)
          (w_counter p) (w_credits p) (nb_tx p) (r_counter p) (r_credits p) (r_nb_tx p)).

(** [None]: the peer does not appear.  [buf] is what [hrd_ctrl_blk_init] allocates. *)
Definition pot_connect (p : proc) (buf : Z) (rs : list (option Z)) : option (Z * proc) :=
  if initialized p then Some (0, p) else p ← pot_setup p buf rs; Some (0, p).

Definition next_fd (p : proc) : Z * proc :=
  (fd_num p, mkProc (mem p) (conn_buf p) (mock p) (peer_buf p) (send_phys p) (recv_phys p) (initialized p) (fd_num p - 1)
               (w_counter p) (w_credits p) (nb_tx p) (r_counter p) (r_credits p) (r_nb_tx p)).

Definition pot_accept4 (p : proc) (buf : Z) (rs : list (option Z)) : option (Z * proc) :=
  if initialized p then Some (next_fd p) else p ← pot_setup p buf rs; Some (next_fd p).

(** ** Writing and reading *)

(** An RDMA write: the bytes themselves, if they are inline, or their address. *)
Record post := mkPost { p_src : Z + list Z; p_len : Z; p_dst : Z; p_signaled : bool }.

Definition num_pages (len : Z) : Z := swrap32 (u64 (len + PAGE_SIZE - 1) / PAGE_SIZE).
Definition aligned (a : Z) : bool := Z.land a (PAGE_SIZE - 1) =? 0.
Definition bytes_at (v : vm) (a n : Z) : list Z := (fun i => load v (a + i)) <$> seqZ 0 n.

Definition return_flag (p : proc) : Z := conn_buf p + 4 * MAX_TST_MSG_SIZE + 64.

(** [None]: the loop on the return flag does not end.  The completion of an
    earlier request, which is waited for once in 64 calls, changes nothing here.
    [map_ok] says whether the
    kernel maps the pages, which the code does not look at; [post_r] is the result
    of [ibv_post_send]. *)
Definition pot_rdma_write_nbyte (p : proc) (len : Z) (map_ok : bool) (post_r : Z) : option (Z * proc * list post) :=
  let n := num_pages len in
  '(credits, v) ←
    if w_credits p <? u64 n then
      if load (mem p) (return_flag p) =? 0 then None
      else Some (u64 (w_credits p + CREDIT_RETURN_THRESHOLD), store (mem p) (return_flag p) 0)
    else Some (w_credits p, mem p);
  let credits := u64 (credits - u64 n) in
  let offset := u64 (w_counter p * PAGE_SIZE) mod MAX_TST_MSG_SIZE in
  let addr := u64 (conn_buf p + offset + 2 * MAX_TST_MSG_SIZE) in
  let v :=
    if (PAGE_SIZE * MIN_PAGES_FOR_ZEROCOPY <=? len) && aligned addr && aligned (mock p + offset) && aligned len
    then if map_ok then remap v (addr / PAGE_SIZE) (fun i => send_phys p (offset / PAGE_SIZE + i)) (len / PAGE_SIZE) else v
    else copy (Z.to_nat len) addr (mock p + offset) v in
  let p' := mkProc v (conn_buf p) (mock p) (peer_buf p) (send_phys p) (recv_phys p) (initialized p) (fd_num p)
              (u64 (w_counter p + n)) credits (u64 (nb_tx p + 1)) (r_counter p) (r_credits p) (r_nb_tx p) in
  let src := if len <=? kHrdMaxInline then inr (bytes_at v addr len) else inl addr in
  if post_r =? 0 then Some (len, p', [mkPost src len (u64 (peer_buf p + offset)) (nb_tx p mod kAppUnsigBatch =? 0)])
  else Some (0, p', []).

(** [None]: the loop on the last byte does not end. *)
Definition pot_rdma_read_nbyte (p : proc) (len : Z) (map_ok : bool) (post_r : Z) : option (Z * proc * list post) :=
  let n := num_pages len in
  let offset := u64 (r_counter p * PAGE_SIZE) mod MAX_TST_MSG_SIZE in
  let base := conn_buf p + offset in
  let last_addr := base + len - 1 in
  if load (mem p) last_addr =? 0 then None
  else
    let v :=
      if (PAGE_SIZE * MIN_PAGES_FOR_ZEROCOPY <=? len) && aligned base && aligned (mock p + offset) && aligned len
      then if map_ok then remap (mem p) ((mock p + offset) / PAGE_SIZE) (fun i => recv_phys p (offset / PAGE_SIZE + i)) (len / PAGE_SIZE) else mem p
      else copy (Z.to_nat len) (mock p + offset) base (mem p) in
    let credits := u64 (r_credits p + n) in
    let v := store v last_addr 0 in
    let done v credits tx :=
      mkProc v (conn_buf p) (mock p) (peer_buf p) (send_phys p) (recv_phys p) (initialized p) (fd_num p)
        (w_counter p) (w_credits p) (nb_tx p) (u64 (r_counter p + n)) credits tx in
    if CREDIT_RETURN_THRESHOLD <=? credits then
      let v := store v (conn_buf p + 4 * MAX_TST_MSG_SIZE) 1 in
      let p' := done v (credits - CREDIT_RETURN_THRESHOLD) (u64 (r_nb_tx p + 1)) in
      if post_r =? 0
      then Some (len, p', [mkPost (inr (bytes_at v (conn_buf p + 4 * MAX_TST_MSG_SIZE) 1)) 1
                             (u64 (peer_buf p + 4 * MAX_TST_MSG_SIZE + 64)) (r_nb_tx p mod kAppUnsigBatch =? 0)])
      else Some (0, p', [])
    else Some (len, done v credits (r_nb_tx p), []).

(** ** Two processes *)

(** The writer, the reader, the writes under way in both directions, how many
    bytes of the first one to the reader are carried out, and what each call of
    the reader left in its buffer. *)
Record sys := mkSys { wr : proc; rd : proc; to_rd : list post; placed : Z; to_wr : list post; got : list (list Z) }.

Definition with_mem (p : proc) (v : vm) : proc :=
  mkProc v (conn_buf p) (mock p) (peer_buf p) (send_phys p) (recv_phys p) (initialized p) (fd_num p)
    (w_counter p) (w_credits p) (nb_tx p) (r_counter p) (r_credits p) (r_nb_tx p).

(** Byte [i] of a write, taken from the memory of the process that posted it. *)
Definition post_byte (from : vm) (q : post) (i : Z) : Z :=
  match p_src q with inl a => load from (a + i) | inr bs => default 0 (bs !! Z.to_nat i) end.

(** Where the next call of the reader finds its message. *)
Definition read_offset (p : proc) : Z := u64 (r_counter p * PAGE_SIZE) mod MAX_TST_MSG_SIZE.

(** Both sides use messages of [len] bytes, as the measurements do; the kernel
    maps pages and requests are posted. *)
Inductive step (len : Z) : sys -> sys -> Prop :=
  | st_write s r p qs : pot_rdma_write_nbyte (wr s) len true 0 = Some (r, p, qs) ->
      step len s (mkSys p (rd s) (to_rd s ++ qs) (placed s) (to_wr s) (got s))
  | st_place s q rest : to_rd s = q :: rest ->
      let v := store (mem (rd s)) (p_dst q + placed s) (post_byte (mem (wr s)) q (placed s)) in
      step len s (mkSys (wr s) (with_mem (rd s) v) (if placed s + 1 =? p_len q then rest else to_rd s)
                    (if placed s + 1 =? p_len q then 0 else placed s + 1) (to_wr s) (got s))
  | st_read s r p qs : pot_rdma_read_nbyte (rd s) len true 0 = Some (r, p, qs) ->
      step len s (mkSys (wr s) p (to_rd s) (placed s) (to_wr s ++ qs) (got s ++ [bytes_at (mem p) (mock p + read_offset (rd s)) len]))
  | st_return s q rest : to_wr s = q :: rest ->
      step len s (mkSys (with_mem (wr s) (store (mem (wr s)) (p_dst q) (post_byte (mem (rd s)) q 0))) (rd s) (to_rd s) (placed s) rest (got s)).

(** ** Memory *)

Lemma phys_store v a b x : phys (store v a b) x = phys v x.
Proof. done. Qed.

Lemma load_store v a b x : load (store v a b) x = if decide (phys v x = phys v a) then b else load v x.
Proof. done. Qed.

Lemma load_store_eq v a b : load (store v a b) a = b.
Proof. rewrite load_store. by rewrite decide_True. Qed.

Lemma load_store_ne v a b x : phys v x <> phys v a -> load (store v a b) x = load v x.
Proof. intros H. rewrite load_store. by rewrite decide_False. Qed.

Lemma frame_copy n dst src v : frame (copy n dst src v) = frame v.
Proof. induction n as [|n IH]; [done|]. cbn [copy store frame]. done. Qed.

Lemma phys_copy n dst src v x : phys (copy n dst src v) x = phys v x.
Proof. unfold phys. by rewrite frame_copy. Qed.

Lemma frame_fill n a f v : frame (fill n a f v) = frame v.
Proof. induction n as [|n IH]; [done|]. cbn [fill store frame]. done. Qed.

Lemma phys_fill n a f v x : phys (fill n a f v) x = phys v x.
Proof. unfold phys. by rewrite frame_fill. Qed.

Lemma copy_out n dst src v x : (forall i, 0 <= i < Z.of_nat n -> phys v x <> phys v (dst + i)) -> load (copy n dst src v) x = load v x.
Proof.
  induction n as [|n IH]; intros H; [done|]. cbn [copy]. rewrite load_store_ne by (rewrite !phys_copy; apply H; lia). apply IH. intros i Hi. apply H. lia.
Qed.

Lemma copy_in n dst src v i : 0 <= i < Z.of_nat n ->
  (forall i j, 0 <= i < Z.of_nat n -> 0 <= j < Z.of_nat n -> phys v (dst + i) = phys v (dst + j) -> i = j) ->
  (forall i j, 0 <= i < Z.of_nat n -> 0 <= j < Z.of_nat n -> phys v (src + i) <> phys v (dst + j)) ->
  load (copy n dst src v) (dst + i) = load v (src + i).
Proof.
  induction n as [|n IH]; intros Hi Hinj Hsep; [lia|]. cbn [copy]. destruct (decide (i = Z.of_nat n)) as [->|Hne].
  - rewrite load_store_eq. apply copy_out. intros j Hj. apply Hsep; lia.
  - rewrite load_store_ne.
    + apply IH; [lia|..]; intros j k Hj Hk; [apply Hinj|apply Hsep]; lia.
    + rewrite !phys_copy. intros E. apply Hinj in E; lia.
Qed.

Lemma fill_out n a f v x : (forall i, 0 <= i < Z.of_nat n -> phys v x <> phys v (a + i)) -> load (fill n a f v) x = load v x.
Proof.
  induction n as [|n IH]; intros H; [done|]. cbn [fill]. rewrite load_store_ne by (rewrite !phys_fill; apply H; lia). apply IH. intros i Hi. apply H. lia.
Qed.

Lemma fill_in n a f v i : 0 <= i < Z.of_nat n ->
  (forall i j, 0 <= i < Z.of_nat n -> 0 <= j < Z.of_nat n -> phys v (a + i) = phys v (a + j) -> i = j) -> load (fill n a f v) (a + i) = f i.
Proof.
  induction n as [|n IH]; intros Hi Hinj; [lia|]. cbn [fill]. destruct (decide (i = Z.of_nat n)) as [->|Hne]; [apply load_store_eq|].
  rewrite load_store_ne; [apply IH; [lia|]; intros j k Hj Hk; apply Hinj; lia|]. rewrite !phys_fill. intros E. apply Hinj in E; lia.
Qed.

Lemma remap_out v page fr n p : ~ page <= p < page + n -> frame (remap v page fr n) p = frame v p.
Proof. intros H. cbn [remap frame]. destruct (Z.leb_spec page p), (Z.ltb_spec p (page + n)); cbn [andb]; try done. lia. Qed.

Lemma remap_in v page fr n p : page <= p < page + n -> frame (remap v page fr n) p = fr (p - page).
Proof. intros H. cbn [remap frame]. by rewrite (proj2 (Z.leb_le _ _)), (proj2 (Z.ltb_lt _ _)) by lia. Qed.

Lemma bytes_at_lookup v a n i : 0 <= i < n -> bytes_at v a n !! Z.to_nat i = Some (load v (a + i)).
Proof. intros H. unfold bytes_at. rewrite list_lookup_fmap, lookup_seqZ_lt by lia. cbn. do 3 f_equal. lia. Qed.

Lemma bytes_at_length v a n : 0 <= n -> Z.of_nat (length (bytes_at v a n)) = n.
Proof. intros H. unfold bytes_at. rewrite length_fmap, length_seqZ. lia. Qed.

(** ** Where things are *)

(** The pages of the buffer and of [pot_mock_data]. *)
Definition owned (c m p : Z) : Prop := c / PAGE_SIZE <= p < c / PAGE_SIZE + 5120 \/ m / PAGE_SIZE <= p < m / PAGE_SIZE + 2048.

(** Two arrays at page boundaries whose pages have frames of their own. *)
Record layout (f : Z -> Z) (c m : Z) : Prop := {
  l_conn : c mod PAGE_SIZE = 0; l_mock : m mod PAGE_SIZE = 0;
  l_range : 0 <= c /\ c + 5 * MAX_TST_MSG_SIZE < 2 ^ 64;
  l_apart : c / PAGE_SIZE + 5120 <= m / PAGE_SIZE \/ m / PAGE_SIZE + 2048 <= c / PAGE_SIZE;
  l_inj : forall p q, owned c m p -> owned c m q -> f p = f q -> p = q }.

Lemma phys_at v c x : c mod PAGE_SIZE = 0 -> phys v (c + x) = (frame v (c / PAGE_SIZE + x / PAGE_SIZE), x mod PAGE_SIZE).
Proof.
  intros H. unfold phys, PAGE_SIZE in *. pose proof (Z.div_mod c 4096 ltac:(lia)) as E. rewrite H, Z.add_0_r in E. rewrite E at 1 2. f_equal.
  - f_equal. rewrite (Z.mul_comm 4096), Z.add_comm, Z.div_add by lia. lia.
  - rewrite (Z.mul_comm 4096), Z.add_comm. by rewrite Z.mod_add by lia.
Qed.

Lemma load_at v c x : c mod PAGE_SIZE = 0 -> load v (c + x) = cell v (frame v (c / PAGE_SIZE + x / PAGE_SIZE), x mod PAGE_SIZE).
Proof. intros H. unfold load. by rewrite phys_at. Qed.

Lemma page_bounds x lo hi : lo * PAGE_SIZE <= x < hi * PAGE_SIZE -> lo <= x / PAGE_SIZE < hi.
Proof. unfold PAGE_SIZE. intros H. split; [apply Z.div_le_lower_bound; lia|apply Z.div_lt_upper_bound; lia]. Qed.

Lemma same_place x y : x / PAGE_SIZE = y / PAGE_SIZE -> x mod PAGE_SIZE = y mod PAGE_SIZE -> x = y.
Proof. unfold PAGE_SIZE. intros H1 H2. rewrite (Z.div_mod x 4096), (Z.div_mod y 4096) by lia. congruence. Qed.

Lemma aligned_mod a : aligned a = (a mod PAGE_SIZE =? 0).
Proof. unfold aligned. change (PAGE_SIZE - 1) with (Z.ones 12). by rewrite Z.land_ones. Qed.

Lemma mock_byte_pos x : pot_mock_byte x <> 0.
Proof. unfold pot_mock_byte. pose proof (Z.mod_pos_bound x 255). lia. Qed.

(** ** A stream of equal messages *)

Section stream.
Context (len : Z) (fw fr : Z -> Z) (cw mw cr mr : Z).
Context (Hlen : 0 < len) (Hw : layout fw cw mw) (Hr : layout fr cr mr).

(** Pages of a message, messages that fit into the buffer, and whether its pages
    are mapped. *)
Definition np : Z := (len + 4095) / 4096.
Definition slots : Z := 1024 / np.
Definition zc : bool := (8192 <=? len) && (len mod 4096 =? 0).

Context (Hfit : np <= 512) (Hdiv : (np | 1024)).

(** The place of message [k]. *)
Definition off (k : Z) : Z := (k * np) mod 1024 * PAGE_SIZE.

Lemma np_pos : 1 <= np.
Proof. unfold np. apply Z.div_le_lower_bound; lia. Qed.

Lemma len_np : (np - 1) * PAGE_SIZE < len <= np * PAGE_SIZE.
Proof. unfold np, PAGE_SIZE. pose proof (Z.div_mod (len + 4095) 4096 ltac:(lia)). pose proof (Z.mod_pos_bound (len + 4095) 4096 ltac:(lia)). lia. Qed.

Lemma num_pages_np : num_pages len = np.
Proof.
  pose proof len_np as H. pose proof np_pos. unfold num_pages, PAGE_SIZE in *. rewrite uwrap_small by (split; lia).
  replace (len + 4096 - 1) with (len + 4095) by lia. fold np. unfold swrap32. rewrite Z.mod_small by lia. lia.
Qed.

Lemma slots_np : slots * np = 1024.
Proof. unfold slots. pose proof np_pos. rewrite Z.mul_comm, <- Z.divide_div_mul_exact, Z.mul_comm, Z.div_mul by (done || lia). done. Qed.

Lemma pot_slots_pos : 2 <= slots.
Proof. pose proof slots_np. pose proof np_pos. nia. Qed.

Lemma off_slot k : off k = k mod slots * (np * PAGE_SIZE).
Proof. unfold off. rewrite <- slots_np at 1. pose proof np_pos. pose proof pot_slots_pos. rewrite Z.mul_mod_distr_r by lia. lia. Qed.

Lemma off_range k : 0 <= off k /\ off k + np * PAGE_SIZE <= MAX_TST_MSG_SIZE.
Proof.
  rewrite off_slot. pose proof (Z.mod_pos_bound k slots ltac:(pose proof pot_slots_pos; lia)) as H. pose proof slots_np. pose proof np_pos. unfold PAGE_SIZE, MAX_TST_MSG_SIZE.
  split; [nia|]. assert ((k mod slots + 1) * np <= slots * np) by nia. lia.
Qed.

Lemma off_end k : off k + len <= MAX_TST_MSG_SIZE.
Proof. pose proof (off_range k). pose proof len_np. lia. Qed.

Lemma off_mod k : off k mod PAGE_SIZE = 0.
Proof. unfold off. apply Z.mod_mul. done. Qed.

(** Different messages of one round are apart. *)
Lemma off_apart j k : j < k < j + slots -> off j + np * PAGE_SIZE <= off k \/ off k + np * PAGE_SIZE <= off j.
Proof.
  intros H. rewrite !off_slot. pose proof pot_slots_pos. pose proof np_pos. pose proof (Z.mod_pos_bound j slots ltac:(lia)). pose proof (Z.mod_pos_bound k slots ltac:(lia)).
  assert (Hne : j mod slots <> k mod slots).
  { intros E. assert (Hd : (slots | k - j)) by (apply Z.mod_divide; [lia|]; rewrite Zminus_mod, E, Z.sub_diag; done). apply Z.divide_pos_le in Hd; lia. }
  unfold PAGE_SIZE. destruct (Z.lt_total (j mod slots) (k mod slots)) as [Hl|[?|Hl]]; [left|done|right]; nia.
Qed.

Lemma counter_offset k : u64 (u64 (k * np) * PAGE_SIZE) mod MAX_TST_MSG_SIZE = off k.
Proof.
  unfold uwrap, off. rewrite Z.mul_mod_idemp_l by done. rewrite Z.mod_mod_divide by (exists (2 ^ 42); done).
  change MAX_TST_MSG_SIZE with (1024 * PAGE_SIZE). by rewrite Z.mul_mod_distr_r.
Qed.

Lemma zero_copy a b : a mod PAGE_SIZE = 0 -> b mod PAGE_SIZE = 0 ->
  (PAGE_SIZE * MIN_PAGES_FOR_ZEROCOPY <=? len) && aligned a && aligned b && aligned len = zc.
Proof. intros Ha Hb. rewrite !aligned_mod, Ha, Hb. unfold zc. cbn [Z.eqb]. rewrite !andb_true_r. done. Qed.

Lemma zc_len : zc = true -> len / PAGE_SIZE = np /\ len = np * PAGE_SIZE.
Proof.
  unfold zc. intros [_ H%Z.eqb_eq]%andb_true_iff. pose proof len_np as Hn. pose proof (Z.div_mod len 4096 ltac:(lia)) as E. unfold PAGE_SIZE in *. split; lia.
Qed.

(** ** The writer's memory *)

Definition FLAG : Z := 4 * MAX_TST_MSG_SIZE + 64.
Definition SEND : Z := 2 * MAX_TST_MSG_SIZE.

(** The frames that never change, and those from which messages are sent. *)
Record wframes (v : vm) : Prop := {
  wf_mock : forall j, 0 <= j < 2048 -> frame v (mw / PAGE_SIZE + j) = fw (mw / PAGE_SIZE + j);
  wf_tail : forall j, 4096 <= j < 5120 -> frame v (cw / PAGE_SIZE + j) = fw (cw / PAGE_SIZE + j);
  wf_send : forall j, 2048 <= j < 4096 -> frame v (cw / PAGE_SIZE + j) = fw (cw / PAGE_SIZE + j)
            \/ zc = true /\ exists i, 0 <= i < 2048 /\ frame v (cw / PAGE_SIZE + j) = fw (mw / PAGE_SIZE + i) }.

Ltac pages := unfold owned, FLAG, SEND, MAX_TST_MSG_SIZE, PAGE_SIZE in *; lia.

Lemma send_page x : 0 <= x < SEND -> 2048 <= (SEND + x) / PAGE_SIZE < 4096.
Proof. intros H. apply page_bounds. pages. Qed.

Lemma mock_page x : 0 <= x < SEND -> 0 <= x / PAGE_SIZE < 2048.
Proof. intros H. apply page_bounds. pages. Qed.

Lemma flag_page : 4096 <= FLAG / PAGE_SIZE < 5120.
Proof. apply page_bounds. pages. Qed.

Lemma flag_apart_send v x : wframes v -> 0 <= x < SEND -> phys v (cw + FLAG) <> phys v (cw + (SEND + x)).
Proof.
  intros F Hx. pose proof (send_page x Hx). pose proof flag_page. rewrite !phys_at by apply Hw. intros [= E _]. rewrite (wf_tail _ F) in E by lia.
  destruct (wf_send _ F ((SEND + x) / PAGE_SIZE)) as [E'|(_ & i & Hi & E')]; [lia|..]; rewrite E' in E; apply (l_inj _ _ _ Hw) in E; try pages.
  pose proof (l_apart _ _ _ Hw). pages.
Qed.

Lemma flag_apart_mock v x : wframes v -> 0 <= x < SEND -> phys v (cw + FLAG) <> phys v (mw + x).
Proof.
  intros F Hx. pose proof (mock_page x Hx). pose proof flag_page. rewrite !phys_at by apply Hw. intros [= E _]. rewrite (wf_tail _ F), (wf_mock _ F) in E by lia.
  apply (l_inj _ _ _ Hw) in E; try pages. pose proof (l_apart _ _ _ Hw). pages.
Qed.

Lemma send_inj v x y : wframes v -> zc = false -> 0 <= x < SEND -> 0 <= y < SEND -> phys v (cw + (SEND + x)) = phys v (cw + (SEND + y)) -> x = y.
Proof.
  intros F Hz Hx Hy. pose proof (send_page x Hx). pose proof (send_page y Hy). rewrite !phys_at by apply Hw. intros [= E E2].
  destruct (wf_send _ F ((SEND + x) / PAGE_SIZE)) as [E3|[? _]]; [lia| |congruence]. destruct (wf_send _ F ((SEND + y) / PAGE_SIZE)) as [E4|[? _]]; [lia| |congruence].
  rewrite E3, E4 in E. apply (l_inj _ _ _ Hw) in E; try pages. assert (SEND + x = SEND + y) by (apply same_place; lia). lia.
Qed.

Lemma mock_apart_send v x y : wframes v -> zc = false -> 0 <= x < SEND -> 0 <= y < SEND -> phys v (mw + x) <> phys v (cw + (SEND + y)).
Proof.
  intros F Hz Hx Hy. pose proof (mock_page x Hx). pose proof (send_page y Hy). rewrite !phys_at by apply Hw. intros [= E _].
  destruct (wf_send _ F ((SEND + y) / PAGE_SIZE)) as [E4|[? _]]; [lia| |congruence]. rewrite E4, (wf_mock _ F) in E by lia.
  apply (l_inj _ _ _ Hw) in E; try pages. pose proof (l_apart _ _ _ Hw). pages.
Qed.

(** What a write leaves in memory: the message of place [k] to send, and
    everything else as before. *)
Definition sends (v v' : vm) (k : Z) : Prop :=
  wframes v' /\ load v' (cw + FLAG) = load v (cw + FLAG)
  /\ (forall x, 0 <= x < SEND -> load v' (mw + x) = load v (mw + x))
  /\ (forall y, 0 <= y < SEND -> off k <= y < off k + len -> load v' (cw + (SEND + y)) = load v (mw + y))
  /\ (forall y, 0 <= y < SEND -> ~ off k <= y < off k + len -> load v' (cw + (SEND + y)) = load v (cw + (SEND + y))).

Lemma write_copy v k : wframes v -> zc = false -> sends v (copy (Z.to_nat len) (cw + SEND + off k) (mw + off k) v) k.
Proof.
  intros F Hz. pose proof (off_range k) as Hk. pose proof (off_end k) as He. assert (HM : SEND = 2 * MAX_TST_MSG_SIZE) by done.
  assert (Hm : 0 < MAX_TST_MSG_SIZE) by done.
  assert (Ed : forall i, cw + SEND + off k + i = cw + (SEND + (off k + i))) by lia. assert (Es : forall i, mw + off k + i = mw + (off k + i)) by lia.
  split; [|split_and!].
  - destruct F as [F1 F2 F3]. split; rewrite frame_copy; done.
  - apply copy_out. intros i Hi. rewrite Ed. apply flag_apart_send; [done|lia].
  - intros x Hx. apply copy_out. intros i Hi. rewrite Ed. apply mock_apart_send; [done|done|lia|lia].
  - intros y Hy Hin. replace (cw + (SEND + y)) with (cw + SEND + off k + (y - off k)) by lia. rewrite copy_in.
    + f_equal. lia.
    + lia.
    + intros i j Hi Hj. rewrite !Ed. intros E. apply send_inj in E; [lia|done|done|lia|lia].
    + intros i j Hi Hj. rewrite Ed, Es. apply mock_apart_send; [done|done|lia|lia].
  - intros y Hy Hout. apply copy_out. intros i Hi. rewrite Ed. intros E. apply send_inj in E; [lia|done|done|lia|lia].
Qed.

Lemma off_page k : off k / PAGE_SIZE = (k * np) mod 1024.
Proof. unfold off. by rewrite Z.div_mul. Qed.

Lemma off_pages k : 0 <= off k / PAGE_SIZE /\ off k / PAGE_SIZE + np <= 1024.
Proof.
  rewrite off_page. pose proof (off_range k) as [_ H]. unfold off, MAX_TST_MSG_SIZE, PAGE_SIZE in H. pose proof (Z.mod_pos_bound (k * np) 1024 ltac:(lia)). lia.
Qed.

Lemma page_in k y : zc = true -> off k <= y < off k + len <-> off k / PAGE_SIZE <= y / PAGE_SIZE < off k / PAGE_SIZE + np.
Proof.
  intros Hz. destruct (zc_len Hz) as [_ E]. rewrite off_page. unfold off. set (a := (k * np) mod 1024).
  pose proof (Z.div_mod y 4096 ltac:(lia)). pose proof (Z.mod_pos_bound y 4096 ltac:(lia)). unfold PAGE_SIZE in *. lia.
Qed.

Lemma write_map v k (fs : Z -> Z) : wframes v -> zc = true -> (forall i, 0 <= i < 2048 -> fs i = fw (mw / PAGE_SIZE + i)) ->
  sends v (remap v ((cw + SEND + off k) / PAGE_SIZE) (fun i => fs (off k / PAGE_SIZE + i)) (len / PAGE_SIZE)) k.
Proof.
  intros F Hz Hfs. destruct (zc_len Hz) as [-> _]. pose proof (off_range k) as Hk. pose proof np_pos as Hp. set (o := off k / PAGE_SIZE).
  assert (Hb : (cw + SEND + off k) / PAGE_SIZE = cw / PAGE_SIZE + 2048 + o).
  { change SEND with (2048 * PAGE_SIZE). unfold o, PAGE_SIZE. pose proof (l_conn _ _ _ Hw) as E. unfold PAGE_SIZE in E. apply Z.div_exact in E; [|lia]. rewrite E at 1.
    replace (4096 * (cw / 4096) + 2048 * 4096 + off k) with (off k + (cw / 4096 + 2048) * 4096) by lia. rewrite Z.div_add by lia. lia. }
  pose proof (off_pages k) as Ho. fold o in Ho.
  rewrite Hb. set (v' := remap _ _ _ _).
  assert (Fo : forall p, ~ cw / PAGE_SIZE + 2048 + o <= p < cw / PAGE_SIZE + 2048 + o + np -> frame v' p = frame v p).
  { intros p Hp'. by apply remap_out. }
  assert (Fi : forall j, o <= j < o + np -> frame v' (cw / PAGE_SIZE + (2048 + j)) = fw (mw / PAGE_SIZE + j)).
  { intros j Hj. unfold v'. rewrite remap_in, Hfs by lia. f_equal. lia. }
  pose proof (l_apart _ _ _ Hw) as Ha. unfold sends. split_and!.
  - split.
    + intros j Hj. rewrite Fo by lia. by apply F.
    + intros j Hj. rewrite Fo by lia. by apply F.
    + intros j Hj. destruct (decide (o <= j - 2048 < o + np)) as [Hin|Hout]; [|rewrite Fo by lia; by apply F].
      right. split; [done|]. exists (j - 2048). split; [lia|]. replace j with (2048 + (j - 2048)) at 1 by lia. by apply Fi.
  - rewrite !load_at by apply Hw. pose proof flag_page. by rewrite Fo by lia.
  - intros x Hx. pose proof (mock_page x Hx). rewrite !load_at by apply Hw. by rewrite Fo by lia.
  - intros y Hy Hin. apply (page_in _ _ Hz) in Hin. fold o in Hin. pose proof (mock_page y Hy). rewrite !load_at by apply Hw. change SEND with (2048 * PAGE_SIZE).
    rewrite (Z.add_comm (2048 * PAGE_SIZE)), Z.div_add, Z.mod_add by done. rewrite (Z.add_comm (y / PAGE_SIZE)), Fi, (wf_mock _ F) by lia. done.
  - intros y Hy Hout. rewrite (page_in _ _ Hz) in Hout. fold o in Hout. rewrite !load_at by apply Hw. change SEND with (2048 * PAGE_SIZE).
    rewrite (Z.add_comm (2048 * PAGE_SIZE)), Z.div_add by done. by rewrite Fo by lia.
Qed.

(** ** The writer *)

Definition data (k i : Z) : Z := pot_mock_byte (off k + i).

(** The memory after [ns] messages. *)
Record wmem (v : vm) (ns : Z) : Prop := {
  w_frames : wframes v;
  w_data : forall x, 0 <= x < SEND -> load v (mw + x) = pot_mock_byte x;
  w_sent : forall k i, 0 <= k < ns -> 0 <= i < len -> load v (cw + (SEND + (off k + i))) = data k i }.

Record winv (p : proc) (ns : Z) : Prop := {
  w_conn : conn_buf p = cw; w_mock : mock p = mw; w_peer : peer_buf p = cr; w_count : w_counter p = u64 (ns * np);
  w_phys : forall i, 0 <= i < 2048 -> send_phys p i = fw (mw / PAGE_SIZE + i);
  w_mem : wmem (mem p) ns }.

Definition flag (p : proc) : Z := load (mem p) (cw + FLAG).

(** A write that carries message [k]. *)
Definition carries (q : post) (k : Z) : Prop :=
  p_len q = len /\ p_dst q = cr + off k /\ (p_src q = inl (cw + SEND + off k) \/ p_src q = inr (data k <$> seqZ 0 len)).

Lemma wmem_flag v ns b : wmem v ns -> wmem (store v (cw + FLAG) b) ns.
Proof.
  intros [F D S]. split.
  - destruct F as [F1 F2 F3]. by split.
  - intros x Hx. rewrite load_store_ne by (apply not_eq_sym, flag_apart_mock; done). by apply D.
  - intros k i Hk Hi. pose proof (off_range k). pose proof (off_end k). rewrite load_store_ne; [by apply S|].
    apply not_eq_sym, flag_apart_send; [done|]. unfold SEND, MAX_TST_MSG_SIZE in *. lia.
Qed.

Lemma wmem_sends v v' ns : wmem v ns -> 0 <= ns -> sends v v' ns -> wmem v' (ns + 1).
Proof.
  intros [F D S] H0 (F' & _ & Dm & Din & Dout). split; [done|intros x Hx; rewrite Dm by done; by apply D|].
  intros k i Hk Hi. pose proof (off_range k). pose proof (off_end k). assert (HS : SEND = 2 * MAX_TST_MSG_SIZE) by done. assert (0 < MAX_TST_MSG_SIZE) by done.
  destruct (decide (off ns <= off k + i < off ns + len)) as [Hin|Hout].
  - rewrite Din by lia. rewrite D by lia. done.
  - rewrite Dout by lia. apply S; [|done]. destruct (decide (k = ns)) as [->|]; lia.
Qed.

(** The code behind the wait for credits. *)
Definition written (p : proc) (ns : Z) (v : vm) : vm :=
  if (PAGE_SIZE * MIN_PAGES_FOR_ZEROCOPY <=? len) && aligned (cw + SEND + off ns) && aligned (mw + off ns) && aligned len
  then remap v ((cw + SEND + off ns) / PAGE_SIZE) (fun i => send_phys p (off ns / PAGE_SIZE + i)) (len / PAGE_SIZE)
  else copy (Z.to_nat len) (cw + SEND + off ns) (mw + off ns) v.

Lemma write_sends (v : vm) (p : proc) ns : winv p ns -> wframes v -> sends v (written p ns v) ns.
Proof.
  intros I F. unfold written. rewrite zero_copy.
  - destruct zc eqn:Hz; [apply write_map; [done|done|apply I]|by apply write_copy].
  - rewrite <- Z.add_assoc, Zplus_mod, (l_conn _ _ _ Hw), Z.add_0_l, Z.mod_mod, Zplus_mod, off_mod by done. done.
  - rewrite Zplus_mod, (l_mock _ _ _ Hw), off_mod. done.
Qed.

Lemma write_inline v ns : wmem v (ns + 1) -> 0 <= ns -> bytes_at v (cw + SEND + off ns) len = data ns <$> seqZ 0 len.
Proof.
  intros M H0. unfold bytes_at. apply list_fmap_ext. intros j i Hi. apply lookup_seqZ in Hi as [-> Hi].
  rewrite <- (w_sent _ _ M ns (0 + Z.of_nat j)) by lia. f_equal. lia.
Qed.

Lemma write_body p ns c v (v' := written p ns v) : winv p ns -> 0 <= ns -> wmem v ns -> 0 <= c - np < 2 ^ 64 ->
  winv (mkProc v' cw mw cr (send_phys p) (recv_phys p) (initialized p) (fd_num p) (u64 (u64 (ns * np) + np)) (u64 (c - np)) (u64 (nb_tx p + 1))
          (r_counter p) (r_credits p) (r_nb_tx p)) (ns + 1)
  /\ u64 (c - np) = c - np /\ load v' (cw + FLAG) = load v (cw + FLAG)
  /\ carries (mkPost (if len <=? kHrdMaxInline then inr (bytes_at v' (cw + SEND + off ns) len) else inl (cw + SEND + off ns)) len (cr + off ns)
                (nb_tx p mod kAppUnsigBatch =? 0)) ns.
Proof.
  intros I H0 M Hcr. pose proof (write_sends v p ns I (w_frames _ _ M)) as S. fold v' in S. pose proof (wmem_sends _ _ _ M H0 S) as M'. split_and!.
  - split; try done; [|apply I]. cbn [w_counter]. rewrite uwrap_add_l. f_equal. lia.
  - apply uwrap_small. split; lia.
  - apply S.
  - unfold carries. cbn [p_len p_dst p_src]. split_and!; [done|done|]. destruct (len <=? kHrdMaxInline); [right|by left]. by rewrite write_inline.
Qed.

Lemma write_spec p ns : winv p ns -> 0 <= ns -> 0 <= w_credits p <= 1024 ->
  match pot_rdma_write_nbyte p len true 0 with
  | None => w_credits p < np /\ flag p = 0
  | Some (r, p', qs) =>
      r = len /\ winv p' (ns + 1) /\ (exists q, qs = [q] /\ carries q ns)
      /\ (np <= w_credits p /\ w_credits p' = w_credits p - np /\ flag p' = flag p
          \/ w_credits p < np /\ flag p <> 0 /\ w_credits p' = w_credits p + CREDIT_RETURN_THRESHOLD - np /\ flag p' = 0)
  end.
Proof.
  intros I H0 Hc. pose proof np_pos as Hp. pose proof (off_range ns) as Ho. pose proof (l_range _ _ _ Hw) as Hb. pose proof (l_range _ _ _ Hr) as Hb'.
  assert (HT : CREDIT_RETURN_THRESHOLD = 513) by done. unfold pot_rdma_write_nbyte, return_flag. rewrite num_pages_np, (uwrap_small 64 np) by (split; lia).
  rewrite (w_conn _ _ I), (w_mock _ _ I), (w_peer _ _ I), (w_count _ _ I), counter_offset.
  replace (cw + 4 * MAX_TST_MSG_SIZE + 64) with (cw + FLAG) by (unfold FLAG; lia). change (load (mem p) (cw + FLAG)) with (flag p).
  rewrite (uwrap_small 64 (cw + off ns + _)), (uwrap_small 64 (cr + off ns)) by (unfold MAX_TST_MSG_SIZE, PAGE_SIZE, is_uint in *; lia).
  replace (cw + off ns + 2 * MAX_TST_MSG_SIZE) with (cw + SEND + off ns) by (unfold SEND; lia).
  destruct (Z.ltb_spec (w_credits p) np) as [Hlt|Hge].
  - destruct (Z.eqb_spec (flag p) 0) as [Hf|Hf]; [done|]. cbn [mbind option_bind Z.eqb].
    rewrite (uwrap_small 64 (w_credits p + _)) by (rewrite HT; split; lia).
    destruct (write_body p ns (w_credits p + CREDIT_RETURN_THRESHOLD) (store (mem p) (cw + FLAG) 0)) as (B1 & B2 & B3 & B4); [done|done|apply wmem_flag, I|rewrite HT; lia|].
    split_and!; [done|exact B1|eexists; split; [done|exact B4]|]. right. split_and!; [done|done|exact B2|]. unfold flag. cbn [mem]. etrans; [exact B3|]. apply load_store_eq.
  - cbn [mbind option_bind Z.eqb]. destruct (write_body p ns (w_credits p) (mem p)) as (B1 & B2 & B3 & B4); [done|done|apply I|lia|].
    split_and!; [done|exact B1|eexists; split; [done|exact B4]|]. left. split_and!; [done|exact B2|exact B3].
Qed.

(** ** The reader's memory *)

Definition BUF : Z := 5 * MAX_TST_MSG_SIZE.
Definition LOCAL : Z := 4 * MAX_TST_MSG_SIZE.

Record rframes (v : vm) : Prop := {
  rf_conn : forall j, 0 <= j < 5120 -> frame v (cr / PAGE_SIZE + j) = fr (cr / PAGE_SIZE + j);
  rf_mock : forall j, 0 <= j < 2048 -> frame v (mr / PAGE_SIZE + j) = fr (mr / PAGE_SIZE + j)
            \/ zc = true /\ exists i, 0 <= i < 2048 /\ frame v (mr / PAGE_SIZE + j) = fr (cr / PAGE_SIZE + i) }.

Lemma conn_page x : 0 <= x < BUF -> 0 <= x / PAGE_SIZE < 5120.
Proof. intros H. apply page_bounds. unfold BUF in *. pages. Qed.

Lemma conn_inj v x y : rframes v -> 0 <= x < BUF -> 0 <= y < BUF -> phys v (cr + x) = phys v (cr + y) -> x = y.
Proof.
  intros F Hx Hy. pose proof (conn_page x Hx). pose proof (conn_page y Hy). rewrite !phys_at by apply Hr. intros [= E E2].
  rewrite !(rf_conn _ F) in E by lia. apply (l_inj _ _ _ Hr) in E; try pages. apply same_place; lia.
Qed.

Lemma mock_apart_conn v x y : rframes v -> 0 <= x < SEND -> 0 <= y < BUF -> zc = false \/ SEND <= y -> phys v (mr + x) <> phys v (cr + y).
Proof.
  intros F Hx Hy Hz. pose proof (mock_page x Hx). pose proof (conn_page y Hy). rewrite !phys_at by apply Hr. intros [= E _]. rewrite (rf_conn _ F) in E by lia.
  pose proof (l_apart _ _ _ Hr). destruct (rf_mock _ F (x / PAGE_SIZE)) as [E'|(Hz' & i & Hi & E')]; [lia|..]; rewrite E' in E; apply (l_inj _ _ _ Hr) in E; try pages.
  destruct Hz as [Hz|Hz]; [congruence|]. assert (2048 <= y / PAGE_SIZE) by (apply Z.div_le_lower_bound; pages). pages.
Qed.

Lemma mock_inj v x y : rframes v -> zc = false -> 0 <= x < SEND -> 0 <= y < SEND -> phys v (mr + x) = phys v (mr + y) -> x = y.
Proof.
  intros F Hz Hx Hy. pose proof (mock_page x Hx). pose proof (mock_page y Hy). rewrite !phys_at by apply Hr. intros [= E E2].
  destruct (rf_mock _ F (x / PAGE_SIZE)) as [E3|[? _]]; [lia| |congruence]. destruct (rf_mock _ F (y / PAGE_SIZE)) as [E4|[? _]]; [lia| |congruence].
  rewrite E3, E4 in E. apply (l_inj _ _ _ Hr) in E; try pages. apply same_place; lia.
Qed.

(** What a read makes of the memory before it clears the last byte: the message
    is in [pot_mock_data], or is there because the pages are the same. *)
Definition takes (v v' : vm) (k : Z) : Prop :=
  rframes v' /\ (forall x, 0 <= x < BUF -> load v' (cr + x) = load v (cr + x))
  /\ (forall i, 0 <= i < len -> load v' (mr + (off k + i)) = load v (cr + (off k + i)))
  /\ (zc = true -> forall i, 0 <= i < len -> phys v' (mr + (off k + i)) = phys v' (cr + (off k + i))).

Lemma read_copy v k : rframes v -> zc = false -> takes v (copy (Z.to_nat len) (mr + off k) (cr + off k) v) k.
Proof.
  intros F Hz. pose proof (off_range k) as Hk. pose proof (off_end k) as He. assert (HS : SEND = 2 * MAX_TST_MSG_SIZE) by done. assert (HB : BUF = 5 * MAX_TST_MSG_SIZE) by done.
  assert (Hm : 0 < MAX_TST_MSG_SIZE) by done.
  assert (Ed : forall i, mr + off k + i = mr + (off k + i)) by lia. assert (Es : forall i, cr + off k + i = cr + (off k + i)) by lia.
  split; [|split_and!].
  - destruct F as [F1 F2]. split; rewrite frame_copy; done.
  - intros x Hx. apply copy_out. intros i Hi. rewrite Ed. apply not_eq_sym, mock_apart_conn; [done|lia|lia|by left].
  - intros i Hi. rewrite <- Ed, <- Es. apply copy_in; [lia|..]; intros j l Hj Hl; rewrite !Ed, ?Es.
    + intros E. apply mock_inj in E; [lia|done|done|lia|lia].
    + apply not_eq_sym, mock_apart_conn; [done|lia|lia|by left].
  - congruence.
Qed.

Lemma read_map v k (fs : Z -> Z) : rframes v -> zc = true -> (forall i, 0 <= i < 2048 -> fs i = fr (cr / PAGE_SIZE + i)) ->
  takes v (remap v ((mr + off k) / PAGE_SIZE) (fun i => fs (off k / PAGE_SIZE + i)) (len / PAGE_SIZE)) k.
Proof.
  intros F Hz Hfs. destruct (zc_len Hz) as [-> _]. pose proof (off_range k) as Hk. pose proof (off_end k) as He. pose proof np_pos as Hp. set (o := off k / PAGE_SIZE).
  assert (Hb : (mr + off k) / PAGE_SIZE = mr / PAGE_SIZE + o).
  { pose proof (f_equal fst (phys_at (mkVm (fun p => p) (fun _ => 0)) mr (off k) (l_mock _ _ _ Hr))) as E. exact E. }
  pose proof (off_pages k) as Ho. fold o in Ho.
  rewrite Hb. set (v' := remap _ _ _ _).
  assert (Fo : forall p, ~ mr / PAGE_SIZE + o <= p < mr / PAGE_SIZE + o + np -> frame v' p = frame v p).
  { intros p Hp'. by apply remap_out. }
  assert (Fi : forall j, o <= j < o + np -> frame v' (mr / PAGE_SIZE + j) = fr (cr / PAGE_SIZE + j)).
  { intros j Hj. unfold v'. rewrite remap_in, Hfs by lia. f_equal. lia. }
  pose proof (l_apart _ _ _ Hr) as Ha.
  assert (Hph : forall i, 0 <= i < len -> phys v' (mr + (off k + i)) = phys v' (cr + (off k + i))).
  { intros i Hi. assert (Hin : off k <= off k + i < off k + len) by lia. apply (page_in _ _ Hz) in Hin. fold o in Hin. rewrite !phys_at by apply Hr.
    rewrite Fi, Fo, (rf_conn _ F) by lia. done. }
  unfold takes. split_and!; [split| | |done].
  - intros j Hj. rewrite Fo by lia. by apply F.
  - intros j Hj. destruct (decide (o <= j < o + np)) as [Hin|Hout]; [|rewrite Fo by lia; by apply F]. right. split; [done|]. exists j. split; [lia|]. by apply Fi.
  - intros x Hx. pose proof (conn_page x Hx). rewrite !load_at by apply Hr. by rewrite Fo by lia.
  - intros i Hi. assert (0 <= off k + i < BUF) by (unfold BUF, MAX_TST_MSG_SIZE in *; lia). pose proof (conn_page (off k + i)).
    unfold load at 1. rewrite Hph by done. change (load v' (cr + (off k + i)) = load v (cr + (off k + i))). rewrite !load_at by apply Hr. by rewrite Fo by lia.
Qed.

(** ** The reader *)

(** The memory with [nr] messages read, [nd] complete and [pl] bytes of the next
    one: the unread ones are there, and the place of the last byte of those to
    come is zero. *)
Record rmem (v : vm) (nr nd pl : Z) : Prop := {
  r_frames : rframes v;
  r_order : 0 <= nr <= nd /\ nd <= nr + slots /\ 0 <= pl < len /\ (pl = 0 \/ nd < nr + slots);
  r_full : forall k i, nr <= k < nd -> 0 <= i < len -> load v (cr + (off k + i)) = data k i;
  r_part : forall i, 0 <= i < pl -> load v (cr + (off nd + i)) = data nd i;
  r_zero : forall k, nd <= k < nr + slots -> load v (cr + (off k + (len - 1))) = 0 }.

Lemma in_buf k i : 0 <= i < len -> 0 <= off k + i < SEND /\ 0 <= off k + i < BUF.
Proof. intros Hi. pose proof (off_range k). pose proof (off_end k). unfold SEND, BUF, MAX_TST_MSG_SIZE in *. lia. Qed.

(** Bytes of different messages of a round are different places. *)
Lemma byte_apart j k i l : j <> k -> Z.abs (j - k) < slots -> 0 <= i < len -> 0 <= l < len -> off j + i <> off k + l.
Proof.
  intros Hne Hd Hi Hl. pose proof len_np. destruct (Z.lt_total j k) as [Hj|[Hj|Hj]]; [pose proof (off_apart j k)|lia|pose proof (off_apart k j)]; lia.
Qed.

Lemma store_other v x y b : rframes v -> 0 <= x < BUF -> 0 <= y < BUF -> x <> y -> load (store v (cr + y) b) (cr + x) = load v (cr + x).
Proof. intros F Hx Hy Hne. apply load_store_ne. intros E. apply conn_inj in E; done. Qed.

Lemma rframes_store v a b : rframes v -> rframes (store v a b).
Proof. intros [F1 F2]. by split. Qed.

(** The next byte of the next message is carried out. *)
Lemma place_byte v nr nd pl : rmem v nr nd pl -> nd < nr + slots ->
  let v' := store v (cr + (off nd + pl)) (data nd pl) in
  if pl + 1 =? len then rmem v' nr (nd + 1) 0 else rmem v' nr nd (pl + 1).
Proof.
  intros [F O Hf Hp Hz] Hlt v'. pose proof (rframes_store v (cr + (off nd + pl)) (data nd pl) F) as F'. fold v' in F'.
  assert (Ho : forall x, 0 <= x < BUF -> x <> off nd + pl -> load v' (cr + x) = load v (cr + x)) by (intros x Hx Hne; apply store_other; [done|done|apply in_buf; lia|done]).
  assert (Hk : forall k i, k <> nd -> nr <= k < nr + slots -> 0 <= i < len -> load v' (cr + (off k + i)) = load v (cr + (off k + i))).
  { intros k i Hne Hkr Hi. apply Ho; [by apply in_buf|]. apply byte_apart; lia. }
  assert (Hpart : forall i, 0 <= i < pl + 1 -> load v' (cr + (off nd + i)) = data nd i).
  { intros i Hi. destruct (decide (i = pl)) as [->|]; [apply load_store_eq|]. rewrite Ho by (apply in_buf || idtac; lia). apply Hp. lia. }
  destruct (Z.eqb_spec (pl + 1) len) as [E|E]; (split; [done|lia|..]).
  - intros k i Hkr Hi. destruct (decide (k = nd)) as [->|]; [apply Hpart; lia|]. rewrite Hk by lia. apply Hf; lia.
  - lia.
  - intros k Hkr. rewrite Hk by lia. apply Hz. lia.
  - intros k i Hkr Hi. rewrite Hk by lia. apply Hf; lia.
  - done.
  - intros k Hkr. destruct (decide (k = nd)) as [->|]; [rewrite Ho by (apply in_buf || idtac; lia)|rewrite Hk by lia]; apply Hz; lia.
Qed.

Lemma off_next k : off (k + slots) = off k.
Proof. rewrite !off_slot. replace (k + slots) with (k + 1 * slots) by lia. rewrite Z.mod_add by (pose proof pot_slots_pos; lia). done. Qed.

(** Clearing the last byte of the message read makes room for another. *)
Lemma clear_last v v' nr nd pl : rmem v nr nd pl -> nr < nd -> takes v v' nr -> rmem (store v' (cr + (off nr + (len - 1))) 0) (nr + 1) nd pl.
Proof.
  intros [F O Hf Hp Hz] Hlt (F' & Hc & _). pose proof pot_slots_pos as Hs. set (v2 := store v' _ _).
  assert (Hk : forall k i, nr < k < nr + slots -> 0 <= i < len -> load v2 (cr + (off k + i)) = load v (cr + (off k + i))).
  { intros k i Hkr Hi. unfold v2. rewrite store_other; [apply Hc; by apply in_buf|done|by apply in_buf|apply in_buf; lia|]. apply byte_apart; lia. }
  split; [by apply rframes_store|lia|..].
  - intros k i Hkr Hi. rewrite Hk by lia. apply Hf; lia.
  - intros i Hi. rewrite Hk by lia. by apply Hp.
  - intros k Hkr. destruct (decide (k = nr + slots)) as [->|]; [rewrite off_next; apply load_store_eq|]. rewrite Hk by lia. apply Hz. lia.
Qed.

Lemma rmem_local v nr nd pl b : rmem v nr nd pl -> rmem (store v (cr + LOCAL) b) nr nd pl.
Proof.
  intros [F O Hf Hp Hz]. assert (Hk : forall k i, 0 <= i < len -> load (store v (cr + LOCAL) b) (cr + (off k + i)) = load v (cr + (off k + i))).
  { intros k i Hi. pose proof (in_buf k i Hi) as [H1 H2]. apply store_other; [done|done|done|]. unfold LOCAL, SEND in *. lia. }
  split; [by apply rframes_store|done|..]; intros; rewrite Hk by lia; auto.
Qed.

(** What the reader has of message [k]: where its pages were mapped the last byte
    is lost, for it was cleared in the same frame. *)
Definition message (k : Z) (bs : list Z) : Prop :=
  Z.of_nat (length bs) = len
  /\ forall i, 0 <= i < len -> bs !! Z.to_nat i = Some (if zc && (i =? len - 1) then 0 else data k i).

Lemma taken_message v v' nr nd pl : rmem v nr nd pl -> nr < nd -> takes v v' nr ->
  forall b, message nr (bytes_at (store v' (cr + (off nr + (len - 1))) 0) (mr + off nr) len)
            /\ message nr (bytes_at (store (store v' (cr + (off nr + (len - 1))) 0) (cr + LOCAL) b) (mr + off nr) len).
Proof.
  intros M Hlt (F' & _ & Hm & Hph) b. set (v2 := store v' _ 0).
  assert (H2 : forall i, 0 <= i < len -> load v2 (mr + off nr + i) = if zc && (i =? len - 1) then 0 else data nr i).
  { intros i Hi. pose proof (in_buf nr i Hi). rewrite <- Z.add_assoc. unfold v2. rewrite load_store. rewrite Hm, (r_full _ _ _ _ M) by lia. destruct zc eqn:Hzc; cbn [andb].
    - rewrite Hph by done. destruct (Z.eqb_spec i (len - 1)) as [->|Hne]; [by rewrite decide_True|]. rewrite decide_False; [done|].
      intros E. apply conn_inj in E; [lia|done|lia|apply in_buf; lia].
    - rewrite decide_False; [done|]. apply mock_apart_conn; [done|lia|apply in_buf; lia|by left]. }
  split; (split; [apply bytes_at_length; lia|]); intros i Hi; rewrite bytes_at_lookup by done; f_equal; [by apply H2|].
  rewrite load_store_ne; [by apply H2|]. pose proof (in_buf nr i Hi). rewrite <- Z.add_assoc.
  apply mock_apart_conn; [by apply rframes_store|lia|unfold BUF, LOCAL, MAX_TST_MSG_SIZE; lia|right; unfold LOCAL, SEND, MAX_TST_MSG_SIZE; lia].
Qed.

Record rinv (p : proc) (nr nd pl : Z) : Prop := {
  r_conn : conn_buf p = cr; r_mock : mock p = mr; r_peer : peer_buf p = cw; r_count : r_counter p = u64 (nr * np);
  r_phys : forall i, 0 <= i < 2048 -> recv_phys p i = fr (cr / PAGE_SIZE + i);
  r_mem : rmem (mem p) nr nd pl }.

(** A write that returns credits. *)
Definition returns (q : post) : Prop := p_dst q = cw + FLAG /\ p_src q = inr [1].

(** The code between the wait for the last byte and its clearing. *)
Definition taken (p : proc) (nr : Z) (v : vm) : vm :=
  if (PAGE_SIZE * MIN_PAGES_FOR_ZEROCOPY <=? len) && aligned (cr + off nr) && aligned (mr + off nr) && aligned len
  then remap v ((mr + off nr) / PAGE_SIZE) (fun i => recv_phys p (off nr / PAGE_SIZE + i)) (len / PAGE_SIZE)
  else copy (Z.to_nat len) (mr + off nr) (cr + off nr) v.

Lemma read_takes p nr nd pl : rinv p nr nd pl -> takes (mem p) (taken p nr (mem p)) nr.
Proof.
  intros I. unfold taken. rewrite zero_copy.
  - destruct zc eqn:Hz; [apply read_map; [apply I|done|apply I]|apply read_copy; [apply I|done]].
  - rewrite Zplus_mod, (l_conn _ _ _ Hr), off_mod. done.
  - rewrite Zplus_mod, (l_mock _ _ _ Hr), off_mod. done.
Qed.

Lemma read_spec p nr nd pl : rinv p nr nd pl -> 0 <= r_credits p <= 512 ->
  match pot_rdma_read_nbyte p len true 0 with
  | None => nr = nd
  | Some (r, p', qs) =>
      r = len /\ nr < nd /\ rinv p' (nr + 1) nd pl /\ message nr (bytes_at (mem p') (mock p' + read_offset p) len)
      /\ (r_credits p' = r_credits p + np /\ r_credits p + np <= 512 /\ qs = []
          \/ r_credits p' = r_credits p + np - 513 /\ 513 <= r_credits p + np /\ exists q, qs = [q] /\ returns q)
  end.
Proof.
  intros I Hc. pose proof np_pos as Hp. pose proof (l_range _ _ _ Hw) as Hb. assert (HT : CREDIT_RETURN_THRESHOLD = 513) by done.
  unfold pot_rdma_read_nbyte, read_offset. rewrite num_pages_np, (r_conn _ _ _ _ I), (r_mock _ _ _ _ I), (r_peer _ _ _ _ I), (r_count _ _ _ _ I), counter_offset.
  replace (cr + off nr + len - 1) with (cr + (off nr + (len - 1))) by lia. fold (taken p nr (mem p)). pose proof (read_takes _ _ _ _ I) as T. pose proof (r_mem _ _ _ _ I) as M.
  destruct (Z.eqb_spec (load (mem p) (cr + (off nr + (len - 1)))) 0) as [E|E].
  { destruct (decide (nr = nd)) as [|Hne]; [done|]. rewrite (r_full _ _ _ _ M) in E by (pose proof (r_order _ _ _ _ M); lia). by apply mock_byte_pos in E. }
  assert (Hlt : nr < nd).
  { pose proof (r_order _ _ _ _ M). pose proof pot_slots_pos. destruct (decide (nr = nd)) as [->|]; [|lia]. destruct E. apply (r_zero _ _ _ _ M). lia. }
  pose proof (clear_last _ _ _ _ _ M Hlt T) as M'. pose proof (taken_message _ _ _ _ _ M Hlt T 1) as [G1 G2].
  assert (Hcnt : u64 (u64 (nr * np) + np) = u64 ((nr + 1) * np)) by (rewrite uwrap_add_l; f_equal; lia).
  rewrite (uwrap_small 64 (r_credits p + np)) by (split; lia). rewrite (uwrap_small 64 (cw + _ + _)) by (unfold MAX_TST_MSG_SIZE, is_uint in *; lia).
  rewrite HT. fold LOCAL. cbn [Z.eqb]. destruct (Z.leb_spec 513 (r_credits p + np)) as [H|H]; cbn [mock mem r_credits].
  - split_and!; [done|done|split; try done; [apply I|by apply rmem_local]|exact G2|]. right. split_and!; [done|lia|]. eexists. split; [reflexivity|].
    unfold returns. cbn [p_dst p_src]. split; [unfold FLAG, LOCAL; lia|]. unfold bytes_at. cbn [seqZ fmap list_fmap]. change (seqZ 0 1) with [0]. cbn [fmap list_fmap]. rewrite Z.add_0_r, load_store_eq. done.
  - split_and!; [done|done|split; try done; apply I|exact G1|]. left. split_and!; [done|lia|done].
Qed.

(** ** Both *)

Record inv (s : sys) (ns nd nr : Z) : Prop := {
  v_w : winv (wr s) ns; v_r : rinv (rd s) nr nd (placed s); v_nd : nd <= ns;
  v_credit : w_credits (wr s) + np * (ns - nr) + r_credits (rd s) + 513 * (Z.of_nat (length (to_wr s)) + flag (wr s)) = 1024;
  v_wc : 0 <= w_credits (wr s); v_rc : 0 <= r_credits (rd s) <= 512; v_flag : 0 <= flag (wr s);
  v_to_wr : Forall returns (to_wr s);
  v_to_rd : Z.of_nat (length (to_rd s)) = ns - nd; v_carries : forall j q, to_rd s !! j = Some q -> carries q (nd + Z.of_nat j);
  v_got : Z.of_nat (length (got s)) = nr; v_message : forall k bs, got s !! k = Some bs -> message (Z.of_nat k) bs }.

Lemma inv_room s ns nd nr : inv s ns nd nr -> 0 <= nr /\ ns <= nr + slots /\ w_credits (wr s) <= 1024 /\ Z.of_nat (length (to_wr s)) + flag (wr s) <= 1.
Proof.
  intros [? R ? Hc ? ? ? ? ? ? ? ?]. pose proof (r_order _ _ _ _ (r_mem _ _ _ _ R)). pose proof slots_np. pose proof np_pos.
  assert (0 <= np * (ns - nr)) by nia. split_and!; [lia| |lia|lia]. assert (np * (ns - nr) <= np * slots) by lia. nia.
Qed.

Lemma step_write s ns nd nr r p qs : inv s ns nd nr -> pot_rdma_write_nbyte (wr s) len true 0 = Some (r, p, qs) ->
  inv (mkSys p (rd s) (to_rd s ++ qs) (placed s) (to_wr s) (got s)) (ns + 1) nd nr.
Proof.
  intros I E. pose proof (inv_room _ _ _ _ I) as (H0 & H1 & H2 & H3). destruct I as [W R Hn Hc Hwc Hrc Hfl Hb Hl Hca Hg Hm].
  pose proof (r_order _ _ _ _ (r_mem _ _ _ _ R)) as O. pose proof (write_spec _ _ W ltac:(lia) ltac:(lia)) as S. rewrite E in S. destruct S as (_ & W' & (q & -> & Cq) & S).
  assert (HT : CREDIT_RETURN_THRESHOLD = 513) by done.
  split; cbn [wr rd to_rd placed to_wr got]; try done; [lia|destruct S as [(? & -> & ->)|(? & ? & -> & ->)]; rewrite ?HT; lia|..].
  - destruct S as [(? & -> & _)|(? & ? & -> & _)]; rewrite ?HT; lia.
  - destruct S as [(? & _ & ->)|(? & ? & _ & ->)]; lia.
  - rewrite length_app. cbn [length]. lia.
  - intros j q' Hj. apply lookup_app_Some in Hj as [Hj|[Hge Hj]]; [by apply Hca|]. apply list_lookup_singleton_Some in Hj as [Hz <-].
    replace (nd + Z.of_nat j) with ns by lia. done.
Qed.

Lemma step_read s ns nd nr r p qs : inv s ns nd nr -> pot_rdma_read_nbyte (rd s) len true 0 = Some (r, p, qs) ->
  inv (mkSys (wr s) p (to_rd s) (placed s) (to_wr s ++ qs) (got s ++ [bytes_at (mem p) (mock p + read_offset (rd s)) len])) ns nd (nr + 1).
Proof.
  intros [W R Hn Hc Hwc Hrc Hfl Hb Hl Hca Hg Hm] E. pose proof (read_spec _ _ _ _ R Hrc) as S. rewrite E in S. destruct S as (_ & Hlt & R' & G & S).
  pose proof np_pos as Hp. split; cbn [wr rd to_rd placed to_wr got]; try done.
  - destruct S as [(-> & _ & ->)|(-> & _ & q & -> & _)]; rewrite ?app_nil_r, ?length_app; cbn [length]; lia.
  - destruct S as [(-> & ? & _)|(-> & ? & _)]; lia.
  - apply Forall_app. split; [done|]. destruct S as [(_ & _ & ->)|(_ & _ & q & -> & Hq)]; [done|by apply Forall_singleton].
  - rewrite length_app. cbn [length]. lia.
  - intros k bs Hk. apply lookup_app_Some in Hk as [Hk|[Hge Hk]]; [by apply Hm|]. apply list_lookup_singleton_Some in Hk as [Hz <-].
    replace (Z.of_nat k) with nr by lia. done.
Qed.

Lemma step_return s ns nd nr q rest : inv s ns nd nr -> to_wr s = q :: rest ->
  inv (mkSys (with_mem (wr s) (store (mem (wr s)) (p_dst q) (post_byte (mem (rd s)) q 0))) (rd s) (to_rd s) (placed s) rest (got s)) ns nd nr.
Proof.
  intros I E. pose proof (inv_room _ _ _ _ I) as (_ & _ & _ & H3). destruct I as [W R Hn Hc Hwc Hrc Hfl Hb Hl Hca Hg Hm]. rewrite E in *. cbn [length] in *.
  apply Forall_cons in Hb as [[Hd Hs] Hb]. unfold post_byte. rewrite Hd, Hs. cbn [lookup list_lookup default].
  assert (Hf : flag (with_mem (wr s) (store (mem (wr s)) (cw + FLAG) 1)) = 1) by apply load_store_eq.
  split; cbn [wr rd to_rd placed to_wr got]; try done.
  - destruct W as [W1 W2 W3 W4 W5 W6]. split; try done. by apply wmem_flag.
  - change (default 0 ([1] !! Z.to_nat 0)) with 1. rewrite Hf. cbn [with_mem w_credits]. lia.
  - change (default 0 ([1] !! Z.to_nat 0)) with 1. rewrite Hf. lia.
Qed.

Lemma carried_byte s ns nd nr q i : inv s ns nd nr -> to_rd s !! 0%nat = Some q -> 0 <= i < len -> post_byte (mem (wr s)) q i = data nd i.
Proof.
  intros I Hq Hi. pose proof (v_carries _ _ _ _ I 0%nat q Hq) as (_ & _ & Hs). rewrite Z.add_0_r in Hs. pose proof (inv_room _ _ _ _ I).
  pose proof (r_order _ _ _ _ (r_mem _ _ _ _ (v_r _ _ _ _ I))). apply lookup_lt_Some in Hq. pose proof (v_to_rd _ _ _ _ I). unfold post_byte. destruct Hs as [-> | ->].
  - rewrite <- (w_sent _ _ (w_mem _ _ (v_w _ _ _ _ I)) nd i) by lia. f_equal. lia.
  - rewrite list_lookup_fmap, lookup_seqZ_lt by lia. cbn. f_equal. lia.
Qed.

Lemma step_place s ns nd nr q rest : inv s ns nd nr -> to_rd s = q :: rest ->
  exists nd', inv (mkSys (wr s) (with_mem (rd s) (store (mem (rd s)) (p_dst q + placed s) (post_byte (mem (wr s)) q (placed s))))
         (if placed s + 1 =? p_len q then rest else to_rd s) (if placed s + 1 =? p_len q then 0 else placed s + 1) (to_wr s) (got s)) ns nd' nr.
Proof.
  intros I E. pose proof (inv_room _ _ _ _ I) as (H0 & H1 & _). pose proof (r_order _ _ _ _ (r_mem _ _ _ _ (v_r _ _ _ _ I))) as O.
  assert (Hq : to_rd s !! 0%nat = Some q) by (by rewrite E). pose proof (carried_byte _ _ _ _ _ (placed s) I Hq ltac:(lia)) as Hb. rewrite Hb.
  pose proof (v_carries _ _ _ _ I 0%nat q Hq) as (Hpl & Hd & _). rewrite Z.add_0_r in Hd. rewrite Hpl, Hd, <- Z.add_assoc.
  destruct I as [W R Hn Hc Hwc Hrc Hfl Hbk Hl Hca Hg Hm]. assert (Hl' : ns - nd = Z.of_nat (S (length rest))) by (by rewrite <- Hl, E).
  pose proof (place_byte _ _ _ _ (r_mem _ _ _ _ R) ltac:(lia)) as P. cbv zeta in P. destruct R as [R1 R2 R3 R4 R5 R6].
  destruct (placed s + 1 =? len).
  - exists (nd + 1). split; cbn [wr rd to_rd placed to_wr got]; try done; [lia|lia|]. intros j q' Hj.
    replace (nd + 1 + Z.of_nat j) with (nd + Z.of_nat (S j)) by lia. apply Hca. by rewrite E.
  - exists nd. split; cbn [wr rd to_rd placed to_wr got]; done.
Qed.

Lemma pot_inv_step s s' ns nd nr : inv s ns nd nr -> step len s s' -> exists ns' nd' nr', inv s' ns' nd' nr'.
Proof.
  intros I H. destruct H as [s r p qs E|s q rest E|s r p qs E|s q rest E].
  - do 3 eexists. by eapply step_write.
  - destruct (step_place _ _ _ _ _ _ I E) as [nd' I']. by do 3 eexists.
  - do 3 eexists. by eapply step_read.
  - do 3 eexists. by eapply step_return.
Qed.

(** Some process or a write under way can always go on. *)
Lemma inv_progress s ns nd nr : inv s ns nd nr -> exists s', step len s s'.
Proof.
  intros I. pose proof (inv_room _ _ _ _ I) as (H0 & H1 & H2 & H3). pose proof (r_order _ _ _ _ (r_mem _ _ _ _ (v_r _ _ _ _ I))) as O.
  destruct (to_rd s) as [|q rest] eqn:E1; [|eexists; by eapply st_place]. destruct (to_wr s) as [|q rest] eqn:E2; [|eexists; by eapply st_return].
  pose proof (write_spec _ _ (v_w _ _ _ _ I) ltac:(pose proof (v_nd _ _ _ _ I); lia) (conj (v_wc _ _ _ _ I) H2)) as S.
  destruct (pot_rdma_write_nbyte (wr s) len true 0) as [[[r p] qs]|] eqn:E3; [eexists; by eapply st_write|]. destruct S as [S1 S2].
  pose proof (read_spec _ _ _ _ (v_r _ _ _ _ I) (v_rc _ _ _ _ I)) as S'.
  destruct (pot_rdma_read_nbyte (rd s) len true 0) as [[[r p] qs]|] eqn:E4; [eexists; by eapply st_read|]. subst nd.
  pose proof (v_to_rd _ _ _ _ I) as L. rewrite E1 in L. pose proof (v_credit _ _ _ _ I) as C. rewrite E2, S2 in C. cbn [length] in L, C.
  pose proof (v_rc _ _ _ _ I). replace (ns - nr) with 0 in C by lia. lia.
Qed.

End stream.
(** ** From the start *)

(** A process before it connects. *)
Definition blank (v : vm) (m : Z) (sp : Z -> Z) : proc := mkProc v 0 m 0 sp (fun _ => 0) false 2147483647 0 (MAX_TST_MSG_SIZE / PAGE_SIZE) 0 0 0 0.

#[local] Opaque fill Z.to_nat.

Section start.
Context (v : vm) (c m : Z) (H : layout (frame v) c m).

Lemma plain_frames u : frame u = frame v -> rframes 1 (frame v) c m u.
Proof. intros E. split; intros j Hj; rewrite E; [done|by left]. Qed.

Lemma plain_conn u x y : frame u = frame v -> 0 <= x < BUF -> 0 <= y < BUF -> phys u (c + x) = phys u (c + y) -> x = y.
Proof. intros E Hx Hy. eapply conn_inj; [exact H|by apply plain_frames|done|done]. Qed.

Lemma plain_apart u x y : frame u = frame v -> 0 <= x < SEND -> 0 <= y < BUF -> phys u (m + x) <> phys u (c + y).
Proof. intros E Hx Hy. eapply (mock_apart_conn 1); [exact H|by apply plain_frames|done|done|by left]. Qed.

Lemma plain_mock u x y : frame u = frame v -> 0 <= x < SEND -> 0 <= y < SEND -> phys u (m + x) = phys u (m + y) -> x = y.
Proof. intros E Hx Hy. eapply (mock_inj 1); [exact H|by apply plain_frames|done|done|done]. Qed.

(** The memory as [pot_setup] leaves it. *)
Definition cleared : vm :=
  fill (Z.to_nat MAX_TST_MSG_SIZE) (c + 4 * MAX_TST_MSG_SIZE) (fun _ => 0)
    (fill (Z.to_nat (2 * MAX_TST_MSG_SIZE)) (c + 2 * MAX_TST_MSG_SIZE) (fun _ => 1) (fill (Z.to_nat (2 * MAX_TST_MSG_SIZE)) c (fun _ => 0) v)).

Lemma cleared_frames : frame cleared = frame v.
Proof. unfold cleared. by rewrite !frame_fill. Qed.

Lemma bufs : SEND = 2 * MAX_TST_MSG_SIZE /\ BUF = 5 * MAX_TST_MSG_SIZE /\ 0 < MAX_TST_MSG_SIZE.
Proof. done. Qed.

(** A region of the buffer that a loop does not write. *)
Lemma fill_conn_out u n o f x : frame u = frame v -> 0 <= o -> 0 <= n -> o + n <= BUF -> 0 <= x < BUF -> ~ o <= x < o + n ->
  load (fill (Z.to_nat n) (c + o) f u) (c + x) = load u (c + x).
Proof. intros E Ho Hn Hb Hx Hout. apply fill_out. intros i Hi Ep. rewrite <- Z.add_assoc in Ep. apply plain_conn in Ep; [lia|done|lia|lia]. Qed.

Lemma fill_conn_in u n o f x : frame u = frame v -> 0 <= o -> 0 <= n -> o + n <= BUF -> o <= x < o + n -> load (fill (Z.to_nat n) (c + o) f u) (c + x) = f (x - o).
Proof.
  intros E Ho Hn Hb Hx. replace (c + x) with (c + o + (x - o)) by lia. apply fill_in; [lia|]. intros i j Hi Hj Ep. rewrite <- !Z.add_assoc in Ep. apply plain_conn in Ep; [lia|done|lia|lia].
Qed.

Lemma cleared_first x : 0 <= x < SEND -> load cleared (c + x) = 0.
Proof.
  intros Hx. pose proof bufs as (HS & HB & HM). unfold cleared. rewrite fill_conn_out, fill_conn_out by (rewrite ?frame_fill; done || lia).
  set (n := Z.to_nat (2 * MAX_TST_MSG_SIZE)). replace (fill n c) with (fill n (c + 0)) by (by rewrite Z.add_0_r). unfold n. rewrite fill_conn_in by (done || lia). done.
Qed.

Lemma cleared_last x : 4 * MAX_TST_MSG_SIZE <= x < BUF -> load cleared (c + x) = 0.
Proof. intros Hx. pose proof bufs as (HS & HB & HM). unfold cleared. rewrite fill_conn_in by (rewrite ?frame_fill; done || lia). done. Qed.

End start.

Lemma start_writer len vw cw mw cr sp (Hw : layout (frame vw) cw mw) :
  exists W, pot_connect (blank vw mw sp) cw [Some cr] = Some (0, W)
            /\ winv len (frame vw) cw mw cr (pot_init_write W) 0 /\ w_credits (pot_init_write W) = 1024 /\ flag cw (pot_init_write W) = 0.
Proof.
  pose proof bufs as (HS & HB & HM). eexists. split; [reflexivity|]. unfold pot_init_write. cbn [mem mock conn_buf peer_buf w_credits w_counter blank]. fold (cleared vw cw).
  set (v := cleared vw cw). set (v' := fill _ mw _ v). assert (Ef : frame v' = frame vw) by (unfold v', v; by rewrite frame_fill, cleared_frames).
  split_and!; [|done|].
  - split; [reflexivity..|intros i _; cbn [send_phys]; by rewrite Ef|]. cbn [mem]. split; [split; rewrite Ef; [reflexivity|reflexivity|by left]| |lia].
    intros x Hx. unfold v'. apply fill_in; [lia|]. intros i j Hi Hj E. eapply plain_mock in E; [done|exact Hw|apply cleared_frames|lia|lia].
  - unfold flag. cbn [mem]. unfold v'. rewrite fill_out; [unfold v; apply (cleared_last _ _ mw); [done|unfold FLAG, MAX_TST_MSG_SIZE in *; lia]|].
    intros i Hi. apply not_eq_sym. eapply plain_apart; [exact Hw|apply cleared_frames|lia|unfold FLAG, MAX_TST_MSG_SIZE in *; lia].
Qed.

Lemma start_reader len vr cr mr cw sp (Hr : layout (frame vr) cr mr) : 0 < len -> np len <= 512 -> (np len | 1024) ->
  exists fd R, pot_accept4 (blank vr mr sp) cr [Some cw] = Some (fd, R) /\ rinv len (frame vr) cw cr mr R 0 0 0 /\ r_credits R = 0.
Proof.
  intros Hl Hfit Hdiv. do 2 eexists. split; [reflexivity|]. cbn [r_credits blank mem]. split; [|done]. fold (cleared vr cr).
  split; [reflexivity..|intros i _; cbn [recv_phys]; by rewrite cleared_frames|]. cbn [mem]. pose proof (pot_slots_pos len Hl Hfit Hdiv). split; try lia.
  - split; rewrite cleared_frames; [reflexivity|by left].
  - intros k Hk. apply (cleared_first _ _ mr Hr). eapply in_buf; [done..|lia].
Qed.

Lemma pot_run_inv len fw fr cw mw cr mr W R s : 0 < len -> np len <= 512 -> (np len | 1024) -> layout fw cw mw -> layout fr cr mr ->
  winv len fw cw mw cr W 0 -> w_credits W = 1024 -> flag cw W = 0 -> rinv len fr cw cr mr R 0 0 0 -> r_credits R = 0 ->
  rtc (step len) (mkSys W R [] 0 [] []) s -> exists ns nd nr, inv len fw fr cw mw cr mr s ns nd nr.
Proof.
  intros Hl Hfit Hdiv Hw Hr IW CW FW IR CR Hs. remember (mkSys W R [] 0 [] []) as s0 eqn:E0.
  assert (I0 : exists ns nd nr, inv len fw fr cw mw cr mr s0 ns nd nr).
  { exists 0, 0, 0. subst s0. split; cbn [wr rd to_rd placed to_wr got length]; try done; rewrite ?CW, ?FW, ?CR; lia. }
  clear - Hs I0 Hl Hfit Hdiv Hw Hr. induction Hs as [s|s1 s2 s3 H12 H23 IH]; [done|]. apply IH. destruct I0 as (ns & nd & nr & I0). by eapply pot_inv_step.
Qed.

(** C28: the stream of the throughput test.  Both processes use messages of one
    length, whose pages divide the 1024 pages of the buffer and are at most 512.
    However calls and RDMA writes interleave, each call of the reader gets the
    message of the same number, complete, though where pages are mapped its last
    byte is zero; the credits of the writer never wrap around, at most one return
    is under way or waits to be seen, so none is lost, and some step is always
    possible. *)
Theorem pot_stream len vw vr cw mw cr mr sp sp' s :
  0 < len -> np len <= 512 -> (np len | 1024) -> layout (frame vw) cw mw -> layout (frame vr) cr mr ->
  forall W fd R, pot_connect (blank vw mw sp) cw [Some cr] = Some (0, W) -> pot_accept4 (blank vr mr sp') cr [Some cw] = Some (fd, R) ->
  rtc (step len) (mkSys (pot_init_write W) R [] 0 [] []) s ->
  (forall k bs, got s !! k = Some bs -> message len (Z.of_nat k) bs)
  /\ 0 <= w_credits (wr s) <= 1024 /\ 0 <= r_credits (rd s) <= 512
  /\ 0 <= Z.of_nat (length (to_wr s)) + load (mem (wr s)) (return_flag (wr s)) <= 1
  /\ exists s', step len s s'.
Proof.
  intros Hl Hfit Hdiv Hw Hr W fd R EW ER Hs. destruct (start_writer len vw cw mw cr sp Hw) as (W' & EW' & IW & CW & FW).
  destruct (start_reader len vr cr mr cw sp' Hr Hl Hfit Hdiv) as (fd' & R' & ER' & IR & CR).
  rewrite EW in EW'. injection EW' as <-. rewrite ER in ER'. injection ER' as <- <-. clear EW ER.
  pose proof (pot_run_inv _ _ _ _ _ _ _ _ _ _ Hl Hfit Hdiv Hw Hr IW CW FW IR CR Hs) as I. clear IW CW FW IR CR Hs.
  destruct I as (ns & nd & nr & I). destruct (inv_room _ _ _ _ _ _ _ Hl Hfit Hdiv _ _ _ _ I) as (_ & _ & H2 & H3).
  assert (Ef : return_flag (wr s) = cw + FLAG) by (unfold return_flag; rewrite (w_conn _ _ _ _ _ _ _ (v_w _ _ _ _ _ _ _ _ _ _ _ I)); unfold FLAG; lia). rewrite Ef.
  change (load (mem (wr s)) (cw + FLAG)) with (flag cw (wr s)). split_and!; try apply I; try lia; [pose proof (v_flag _ _ _ _ _ _ _ _ _ _ _ I); lia|].
  eapply inv_progress; [done|exact Hw|exact Hr|done|done|exact I].
Qed.

(** From a fresh connection one byte can be written, carried out and read. *)
Lemma first_message fw fr cw mw cr mr s : layout fw cw mw -> layout fr cr mr -> inv 1 fw fr cw mw cr mr s 0 0 0 -> placed s = 0 -> w_credits (wr s) = 1024 ->
  exists s', rtc (step 1) s s' /\ length (got s') = 1%nat.
Proof.
  intros Hw Hr I Hp Hc. assert (Hl : 0 < 1) by lia. assert (Hfit : np 1 <= 512) by done. assert (Hdiv : (np 1 | 1024)) by (by exists 1024).
  assert (Hnp : np 1 = 1) by done. assert (E0 : to_rd s = []) by (apply length_zero_iff_nil; pose proof (v_to_rd _ _ _ _ _ _ _ _ _ _ _ I); lia).
  pose proof (write_spec _ _ _ _ _ _ _ Hl Hw Hr Hfit Hdiv _ _ (v_w _ _ _ _ _ _ _ _ _ _ _ I) ltac:(lia) ltac:(rewrite Hc; lia)) as S.
  destruct (pot_rdma_write_nbyte (wr s) 1 true 0) as [[[r p] qs]|] eqn:E1; [|rewrite Hc, Hnp in S; lia]. destruct S as (_ & _ & (q & -> & Lq & _) & _).
  pose proof (step_write _ _ _ _ _ _ _ Hl Hw Hr Hfit Hdiv _ _ _ _ _ _ _ I E1) as I1. pose proof (st_write 1 s r p [q] E1) as T1. set (s1 := mkSys p _ _ _ _ _) in *.
  assert (E2 : to_rd s1 = [q]) by (cbn [s1 to_rd]; by rewrite E0). pose proof (st_place 1 s1 q [] E2) as T2. cbv zeta in T2.
  destruct (step_place _ _ _ _ _ _ _ Hl Hr Hfit Hdiv _ _ _ _ _ _ I1 E2) as [nd' I2]. set (s2 := mkSys (wr s1) _ _ _ _ _) in *.
  assert (E3 : to_rd s2 = []) by (cbn [s2 to_rd s1 placed]; by rewrite Hp, Lq). pose proof (v_to_rd _ _ _ _ _ _ _ _ _ _ _ I2) as L2. rewrite E3 in L2. cbn [length] in L2.
  pose proof (read_spec _ _ _ _ _ _ _ Hl Hw Hr Hfit Hdiv _ _ _ _ (v_r _ _ _ _ _ _ _ _ _ _ _ I2) (v_rc _ _ _ _ _ _ _ _ _ _ _ I2)) as S3.
  destruct (pot_rdma_read_nbyte (rd s2) 1 true 0) as [[[r3 p3] qs3]|] eqn:E4; [|lia].
  eexists. split; [eapply rtc_l; [exact T1|]; eapply rtc_l; [exact T2|]; eapply rtc_once; by eapply st_read|].
  cbn [got s2 s1]. rewrite length_app. pose proof (v_got _ _ _ _ _ _ _ _ _ _ _ I). cbn [length]. lia.
Qed.

(** Two processes with the buffer at 0 and [pot_mock_data] behind it. *)
Definition demo_vm : vm := mkVm (fun p => p) (fun _ => 7).
Definition demo_mock : Z := 5120 * 4096.

Lemma demo_layout : layout (frame demo_vm) 0 demo_mock.
Proof. split; [done|done|done|by left|by intros p q]. Qed.

Lemma pot_stream_witness :
  exists W fd R s bs, pot_connect (blank demo_vm demo_mock id) 0 [Some 0] = Some (0, W) /\ pot_accept4 (blank demo_vm demo_mock id) 0 [Some 0] = Some (fd, R)
    /\ rtc (step 1) (mkSys (pot_init_write W) R [] 0 [] []) s /\ got s = [bs] /\ message 1 0 bs.
Proof.
  pose proof demo_layout as H. assert (Hl : 0 < 1) by lia. assert (Hfit : np 1 <= 512) by done. assert (Hdiv : (np 1 | 1024)) by (by exists 1024).
  destruct (start_writer 1 demo_vm 0 demo_mock 0 id H) as (W & EW & IW & CW & FW). destruct (start_reader 1 demo_vm 0 demo_mock 0 id H Hl Hfit Hdiv) as (fd & R & ER & IR & CR).
  assert (I0 : inv 1 (frame demo_vm) (frame demo_vm) 0 demo_mock 0 demo_mock (mkSys (pot_init_write W) R [] 0 [] []) 0 0 0).
  { clear EW ER. revert IW CW FW. generalize (pot_init_write W). intros W' IW CW FW. split; cbn [wr rd to_rd placed to_wr got length]; try done; rewrite ?CW, ?FW, ?CR; lia. }
  destruct (first_message _ _ _ _ _ _ _ H H I0 eq_refl CW) as (s & Hs & Lg). destruct (got s) as [|bs [|]] eqn:Eg; try discriminate Lg.
  exists W, fd, R, s, bs. split_and!; [exact EW|exact ER|exact Hs|exact Eg|].
  destruct (pot_stream 1 demo_vm demo_vm 0 demo_mock 0 demo_mock id id s Hl Hfit Hdiv H H W fd R EW ER Hs) as [Hm _]. apply (Hm 0%nat). by rewrite Eg.
Defined.

(** ** Where the assumptions matter *)

(** Where pages are mapped the reader never sees the last byte. *)
Lemma mapped_loses_byte len k bs : 0 < len -> message len k bs -> zc len = true -> bs !! Z.to_nat (len - 1) = Some 0 /\ data len k (len - 1) <> 0.
Proof. intros Hl [_ H] Hz. split; [|apply mock_byte_pos]. rewrite H, Hz, Z.eqb_refl by lia. done. Qed.

(** A message of the full size waits for one return only, and the count of
    credits wraps around. *)
Lemma full_message_wraps p p' r qs map_ok : w_credits p = 0 -> pot_rdma_write_nbyte p MAX_TST_MSG_SIZE map_ok 0 = Some (r, p', qs) -> w_credits p' = 2 ^ 64 - 511.
Proof.
  intros Hc. unfold pot_rdma_write_nbyte. rewrite Hc. change (u64 (num_pages MAX_TST_MSG_SIZE)) with 1024. change (0 <? 1024) with true. cbn match.
  destruct (load _ _ =? 0); cbn [mbind option_bind]; [done|]. change (u64 (0 + CREDIT_RETURN_THRESHOLD)) with 513. change (u64 (513 - 1024)) with (2 ^ 64 - 511).
  cbn [Z.eqb]. by intros [= <- <- <-].
Qed.

(** A message that is read leaves its other bytes behind, so a shorter one in the
    same place is taken for complete before it arrives. *)
Lemma bytes_left_behind len fr cr mr v v' nr nd pl i : 0 < len -> np len <= 512 -> (np len | 1024) -> layout fr cr mr ->
  rmem len fr cr mr v nr nd pl -> nr < nd -> takes len fr cr mr v v' nr -> 0 <= i < len - 1 ->
  load (store v' (cr + (off len nr + (len - 1))) 0) (cr + (off len nr + i)) <> 0.
Proof.
  intros Hl Hfit Hdiv Hr M Hlt (F & Hc & _) Hi. pose proof (in_buf len Hl Hfit Hdiv nr i ltac:(lia)) as [_ Hb]. pose proof (in_buf len Hl Hfit Hdiv nr (len - 1) ltac:(lia)) as [_ Hb'].
  rewrite (store_other len fr cr mr) by (done || lia). rewrite Hc, (r_full _ _ _ _ _ _ _ _ M) by lia. apply mock_byte_pos.
Qed.

End PotRdma.
